(* ===== verification/_CoqProject ===== *)
-Q . S2P
Prelude.v
Json.v
Http.v
HttpFacts.v
Db.v
TaskStore.v
TaskInvariant.v
TaskGraph.v
TaskClaim.v
TaskOps.v
DeviceGuard.v
CalibrationStore.v
Handler.v
CalibrationOps.v
CalibrationFacts.v
Runtime.v
CaptureLifecycle.v
CaptureFacts.v
ControlledProcess.v
TaskService.v
TaskEnqueue.v
TaskWorker.v
TaskServiceFacts.v
TriggerSecurity.v
TriggerGateway.v
TriggerReplay.v
TriggerFacts.v
Admin.v
RequestGate.v
Concurrent.v
ByteLru.v
Float64.v
ImageHttp.v
ImageService.v
ImageFacts.v
ResultStore.v
ResultFacts.v
Surface.v
RelyGuarantee.v
FileTree.v
Cleanup.v
CleanupFacts.v
CleanupResume.v
CleanupRuns.v
Serial.v
ProductionStore.v
ProductionEvents.v
ProductionFacts.v
ProductionOutcome.v
ProductionRuns.v
Float32.v
MeshFormat.v
SurfaceGrid.v
NpzSurface.v
NpzFacts.v
NpzRuns.v
D3img.v
D3imgFacts.v
D3imgRuns.v
FileWrites.v
Supervisor.v
SupervisorMode.v
SupervisorLoop.v
SupervisorFacts.v
SupervisorTransition.v
SupervisorRuns.v
