(* ===== verification/Prelude.v ===== *)
(** * Steel plate 3D inspection runtime: verification library

    ** The program

    The repository is the runtime of a line that inspects steel plates with 3D cameras. The
    inspection service (app/service) is the centre: an HTTP server over a database that keeps
    production tasks, calibration operations, records and accounts, runs the tasks on one worker
    thread, manages the capture process that drives the cameras and proxies requests to it. The
    trigger gateway (app/trigger) takes signed events from the plant over HTTP, TCP and UDP and
    forwards them to the service. The image service (app/image-service) serves previews and tiles of
    the camera images behind two caches; the result contract (app/result-contract) publishes the
    results of the algorithm into directories and validates them. The service supervisor
    (app/server-monitor) keeps these processes running and carries out changes of the acquisition mode.
    Around them are pipeline workers, a tray icon and a desktop client.

    What makes the service hard is here: tasks that depend on one another, are cancelled, retried
    and recovered after a crash; commands to cameras that must not be sent twice and must not be sent
    while the outcome of an earlier one is unknown; a gateway that must refuse forged and repeated
    messages and must be able to drain; a child process that is restarted within a budget by one
    thread while others stop and start it; caches shared by many connections; a result that must
    become visible whole or not at all although it is written file by file; records whose files are
    deleted by a job that survives crashes and must touch nothing outside its directories; plates
    that enter and leave the line, whose rows must be there before the cameras are told to save; a change
    of mode that two processes hand to each other through files and that must survive the end of either.

    ** The files and what they model

    Shared. [Prelude] holds Rust's results and machine integers (a w-bit integer is a [Z], with
    saturation, checks and wrap-around written out), byte strings with the functions of [str] the
    code uses, notations (in [rust_scope]), tactics and shared lemmas. [Json] is [serde_json::Value]
    with its accessors and the payload readers of main.rs; text to value and back is the class
    [JsonCodec]. [Http] is the hand-written HTTP layer of main.rs and production_tasks.rs, [HttpFacts]
    its theorems. [Db] holds the rows of db/entities.rs and the monad of database calls: every
    statement can fail before or after taking effect, and others may write between two statements;
    the class [DbEnv] is one such history, [Rely] states a promise others keep, [Quiet] excludes both.
    [Handler] is the monad of request handlers: database calls and events the outside sees.

    Production tasks. [TaskStore] is the task half of db/mod.rs, one definition per function:
    [insert_production_task], [claim_next_production_task], [update_production_task_progress],
    [finish_production_task], [request_cancel_production_task], [retry_production_task],
    [recover_incomplete_production_tasks], the propagation of failures and the queries.
    [TaskInvariant] proves the table invariant under every fault and interference; [TaskGraph] proves
    the two graph loops (blocking and requeueing) against reachability, with one argument
    for both behind the class [SpreadRules]; [TaskClaim] does claiming; [TaskOps] states the theorems
    of whole operations. [TaskService] and [TaskWorker] are the routes and the worker turn of
    production_tasks.rs, [TaskEnqueue] says which enqueue requests are acceptable and proves that exactly
    those are accepted, [TaskServiceFacts] holds the other theorems.

    Cameras. [DeviceGuard] is the validation of requests that write to cameras (main.rs).
    [CalibrationStore] is the operation ledger of db/mod.rs, [CalibrationOps] the mutation handler of
    calibration_operations.rs with its duplicate-key JSON reader, [CalibrationFacts] its theorems.
    [Runtime] is modes, capabilities, admission and drain, and what a change of the mode does to admission
    (main.rs, runtime_profile.rs).
    [CaptureLifecycle] is [CaptureServiceManager] of main.rs: programs of critical sections on the
    lifecycle record, the child process and the shutdown flag, and of questions to the surroundings;
    [CaptureFacts] runs them, alone and interleaved. [ControlledProcess] is the bounded reader of
    child output of controlled_process.rs.

    Trigger gateway. [TriggerSecurity] is address parsing, source rules, start-up configuration,
    signatures, replay cache and operator tokens of app/trigger/src/main.rs; [TriggerGateway] its
    handlers as programs of atomic steps; [TriggerReplay] the theorems about histories of the shared
    state, [TriggerFacts] those about every interleaving of every number of connections.

    Accounts. [Admin] is sessions, login lockout, password and origin rules, the permission table and
    [authorize_request] of main.rs; [RequestGate] is the first half of [handle_client], which composes them
    with the drain route and the trust in the trigger gateway.

    Image service. [Concurrent] is a monad of programs over shared state (critical sections, questions
    to the surroundings, choices) and of pools of threads that run them: the interleavings, a rule for
    invariants, the absence of stuck pools, threads that panic, finite runs and what a program does alone. [ByteLru] is
    cache.rs, with the abstract cache it refines. [Float64] is the arithmetic of binary64 the image
    size computation needs. [ImageHttp] is http.rs and image_codec.rs, [ImageService] is catalog.rs,
    rendition.rs, tile.rs, state.rs and server.rs as programs of [Concurrent], [ImageFacts] the
    theorems about every interleaving of every number of connections.

    Results. [ResultStore] is lib.rs of app/result-contract: manifests, the file tree they are written
    to, publication with its staging and backup directories, and resolution of artifacts; every file
    operation can fail. [ResultFacts] are its theorems. [Surface] is surface.rs, the contract of a
    surface and of its grid, profile and statistics.

    Deleting records. [FileTree] is a POSIX file tree with symbolic links: lookup, canonicalisation and
    the removals of [std::fs]. [Cleanup] is artifact_cleanup.rs with the cleanup tables of db/mod.rs and
    the delete, retry, retention and status routes of main.rs, as programs of [Concurrent] over the
    database rows and the tree; the class [CleanupEnv] says which statement or file operation fails,
    what the clock says and in which order a directory is read. [RelyGuarantee] is what a thread knows
    between its steps while others run; [CleanupFacts] proves safety with it for every interleaving and
    every fault, [CleanupResume] what one cleanup does from any point on, and [CleanupRuns] runs the code
    on a concrete disk.

    Production events. [Serial] is requests that one mutex lets in one at a time, in a process that may
    be killed at any step, with a logic for what such a history keeps. [ProductionStore] is the sessions,
    flows, images, inspections, capture files, trigger events and plant data of db/mod.rs;
    [ProductionEvents] is [write_production_event_response] of main.rs (admission, the rows written before
    the capture provider is told, the provider's answer and what is recorded of it), plant data,
    capture summaries, capture commits and the check of the open session before a capture. The class
    [LineEnv] says which statement fails, before or after its effect, and what clock, storage and provider
    answer. [ProductionFacts] proves the invariant of the tables over every history, [ProductionOutcome] what one
    request does, and [ProductionRuns] runs the code on concrete histories.

    Surfaces. [Float32] is binary32 to the bit: arithmetic and comparison, bit patterns and bytes, the total
    order that sorting uses and the exact passage to doubles and back. [MeshFormat] reads the mesh format
    of the client. [SurfaceGrid] is what two reconstructions share: the grid of rows and columns, evenly
    spaced places, medians, colours and the triangles. [NpzSurface] is npz_surface.rs, [NpzFacts] and
    [NpzRuns] its theorems and concrete runs. [D3img] is the D3IMG half of bkv_online.rs (headers, bitmaps,
    frames, surfaces and their encoding), [D3imgFacts] and [D3imgRuns] likewise. Sine and cosine, the bits of
    a NaN, ZIP archives and files are classes ([Trig], [NanBits], [Archives], [D3Files]).

    Supervisor. [FileWrites] adds to [FileTree] the writes: directories created, files written, renamed and
    removed, with what each leaves alone. The rest is service_supervisor.rs. [Supervisor] holds its records,
    the monad of its calls and the class [SupervisorEnv] of what the surroundings answer: each question has a
    number, so every pattern of failing calls is one instance, and a supervisor that is killed is one whose
    calls fail from some number on. [SupervisorMode] is the acquisition mode and the commit marker
    ([configured_acquisition_mode], [runtime_mode_transition_hold], [promote_released_runtime_mode]);
    [SupervisorLoop] is the registry, the health probe, start, stop, the tick ([reconcile]), the requests of
    the operator and start-up. [SupervisorFacts] proves what holds of every tick, [SupervisorTransition] what
    becomes of a change of mode, and [SupervisorRuns] runs the code on concrete disks.

    ** What the theorems show

    - Tasks: the table invariant (unique ids, known statuses, progress and attempts in range, columns
      that identify a row never change) holds through every sequence of calls whatever fails; claiming,
      propagation, finishing, cancelling, retrying and recovery end and do to the whole table exactly
      what their specification says, with reachability in the dependency graph as the specification
      of the loops; cancelling and retrying is a round trip; undisturbed, enqueueing accepts exactly the acceptable requests
      and inserts the row each asks for; a worker turn settles the task it claims.
    - Calibration: at most one dispatch per operation id under every fault and interference; nothing
      is dispatched past an operation that was unresolved when the request read the ledger, but the
      rollback that names it; the ledger records
      what the provider answered; repeats are answered from the ledger; device writes carry their
      confirmations and calibration sets are complete.
    - Gateway: in every reachable state of every interleaving, what was posted to the service was
      authorised, the in-flight counter covers every post and a drained gateway posts completions
      only; replays are refused except for messages dated in the future; production start-up is locked
      down; a source rule matches exactly its prefix.
    - Capture: the offline and management-only fences, the restart budget and backoff, that a stop
      holds, and that a mode transition rests on evidence; the admission counter is the number of
      requests in flight, and what is closed by a drain or a change of the mode stays closed.
    - Accounts: which requests pass the gate, as whom, and what is audited, revocation, and the rate of
      password guesses.
    - Text: queries round-trip, requests are read whole under every chunking, the bounded reader keeps
      exactly the last bytes.
    - Images: what a connection is answered is the rendition of the bytes on the disk under the
      catalogue entry asked for, in every interleaving; an image is decoded by one thread at a time and
      no pool of connections is ever stuck: every connection is answered, or its worker panicked in the
      query decoder and nowhere else; the byte cache refines a bounded least-recently-used map.
    - Results: a publication that runs alone ends in one of three named states whatever fails, with its files
      and its rows in the catalogue given field by field; what is catalogued resolves to a blob of its hash
      in every interleaving;
      surface validation accepts exactly the well-formed surfaces.
    - Deletion: in every interleaving and under every fault only files that a finished record refers to,
      inside the managed roots and outside the maintenance directories, are removed; a record is forgotten
      only when its files are gone, if no question about them failed and no name has a backslash; an
      interrupted cleanup, resumed without faults, completes; an entry of a cleanup is deleted only as it
      was planned.
    - Events: whatever fails and wherever the process is killed, what the capture provider was told of is on
      record and saved frames are named by their flow; at most one plate is on the line; a flow keeps its
      identity and its images are numbered without gaps; the provenance of replayed inspections is never
      washed out; a refused event changes nothing, an accepted one is recorded with the provider's answer,
      and a batch of images that is appended again changes nothing and, when no statement fails, is answered
      as the first time.
    - Surfaces: whatever the files hold a reconstruction answers and never indexes out of range; what it
      writes reads back as a mesh that is closed around the bar, has one vertex per row and column and has
      the very numbers that were computed, also through the JSON value kept of it; the rows of a camera are
      those of its frames laid end to end; NumPy arrays and bitmaps have every value at its place.
    - Supervisor: a service that keeps ending is started at most five times before it is faulted; no service
      is started by a tick that finds a change of mode under way, nor by any request before the next; a change that has been handed over is neither lost nor
      torn, whatever fails and wherever the supervisor is killed, and two ticks without faults carry it out.
    - Some theorems show flaws by running the code on a concrete history: a calibration that outruns
      the fence, a future-dated message accepted twice, a cancel that overwrites a claim, a stop that
      loses to a pending spawn, query strings that panic two decoders, a publication that is
      forgotten when the process dies between two renames, a file that outlives its record because a
      question about it failed, another because its name differs from that of a sibling in a backslash, a cleanup that a planning error stops for good, a completed cleanup
      that is opened again, a flow left without its code that blocks every later one, a message about
      the next plate that keeps the present one from leaving, a released mode whose failed promotion is not
      tried again, and an unreadable project file that puts an offline line online.

    ** Bounds and fuel

    The [loop]s of the task store take one more than the number of rows as fuel. Every round that does
    not end the loop takes a row out of the queued (or blocked) ones, and the theorems of [TaskGraph],
    [TaskClaim] and [TaskOps] state that the call returns, so the fuel is enough. The request reader
    recurses over the chunks of the stream. The waits of the capture manager are bounded by a clock in
    the code; their fuel is universally quantified in the theorems, and an answer from the
    surroundings ends them. Programs of [Concurrent] need no fuel: they are well-founded trees, and
    every run of a pool of them is finite. The UTF-8 decoder, trimming and word splitting take the length of their
    input, of which every round consumes at least a byte. The walk over a cache directory takes the
    depth of the tree, and canonicalisation takes the limit of links the system itself has.

    ** Not modelled

    Code outside the repository is a parameter: [serde_json] text, HMAC-SHA256 and SHA-256, the
    database engine (statements are atomic and conditional updates are evaluated on the rows they
    find), the operating system. The capture and algorithm executors are parameters of the worker.
    File trees are modelled where a component's correctness is about them (results, cleanup, supervisor) and
    decoding of images is a parameter. Of a change of mode the half of the inspection service, which writes the
    marker and the staged profile, is left out: the theorems start from the marker it leaves. So are the
    resource monitor and the window of the server monitor. Sockets, thread start-up, Windows paths and services, the desktop
    shells and all C++, Python and TypeScript are left out.

    ** Plan

    Next are the storage check that admits new sessions, the login route with the accounts table,
    [apply_response] of the calibration routes, site configuration, the record store and the half of a change
    of mode that the inspection service carries out. *)

From stdpp Require Export base strings list sorting pretty gmap relations.
From Stdlib Require Export ZArith Lia Bool.
From Stdlib Require Import Ascii.

#[global] Open Scope Z_scope.

(** ** Results, as Rust's [Result] *)

Inductive Result (A E : Type) : Type :=
| Ok (a : A)
| Err (e : E).
Arguments Ok {A E} a.
Arguments Err {A E} e.

Definition result_ok {A E} (r : Result A E) : option A :=
  match r with Ok a => Some a | Err _ => None end.

Definition is_ok {A E} (r : Result A E) : bool :=
  match r with Ok _ => true | Err _ => false end.

(** [Result]'s [and_then], the meaning of the question mark operator. *)
Definition result_bind {A B E} (r : Result A E) (f : A -> Result B E) : Result B E :=
  match r with Ok a => f a | Err e => Err e end.

Declare Scope rust_scope.
Delimit Scope rust_scope with rust.

Notation "'let?' x := r 'in' k" := (result_bind r (fun x => k))
  (at level 10, x binder, r at level 100, k at level 200,
   format "'[v' 'let?'  x  :=  r  'in' '/' k ']'") : rust_scope.

(** String equality as the code's [==], a boolean. *)
Notation "a == b" := (String.eqb a b) (at level 70, no associativity) : rust_scope.
Notation "a != b" := (negb (String.eqb a b)) (at level 70, no associativity) : rust_scope.

#[global] Open Scope rust_scope.

(** ** Machine integers *)

Definition u16_max : Z := 65535.
Definition u32_max : Z := 4294967295.
Definition u64_max : Z := 18446744073709551615.
Definition u128_max : Z := 340282366920938463463374607431768211455.
Definition i32_min : Z := -2147483648.
Definition i32_max : Z := 2147483647.
Definition i64_min : Z := -9223372036854775808.
Definition i64_max : Z := 9223372036854775807.

(** Two's complement wrap-around of a 32-bit sum. *)
Definition wrap_i32 (x : Z) : Z := (x - i32_min) `mod` 4294967296 + i32_min.
Definition wrap_u64 (x : Z) : Z := x `mod` 18446744073709551616.

(** [saturating_add], [saturating_sub] and [saturating_mul] of an unsigned type with maximum [m]. *)
Definition sat_add (m x y : Z) : Z := Z.min m (x + y).
Definition sat_sub (x y : Z) : Z := Z.max 0 (x - y).
Definition sat_mul (m x y : Z) : Z := Z.min m (x * y).

Definition checked_add (m x y : Z) : option Z := if x + y <=? m then Some (x + y) else None.
Definition checked_mul (m x y : Z) : option Z := if x * y <=? m then Some (x * y) else None.

(** [Ord::clamp]. *)
Definition clamp (x lo hi : Z) : Z := Z.max lo (Z.min x hi).

Lemma clamp_bounds x lo hi : lo <= hi -> lo <= clamp x lo hi <= hi.
Proof. unfold clamp. lia. Qed.

Lemma wrap_i32_small x : i32_min <= x <= i32_max -> wrap_i32 x = x.
Proof.
  unfold wrap_i32, i32_min, i32_max. intros H.
  rewrite Z.mod_small; lia.
Qed.

Lemma wrap_i32_range x : i32_min <= wrap_i32 x <= i32_max.
Proof.
  unfold wrap_i32, i32_min, i32_max.
  pose proof (Z.mod_pos_bound (x - -2147483648) 4294967296). lia.
Qed.

(** ** Bytes and ASCII classes *)

(** The code of a byte of a UTF-8 string. *)
Definition byte_of (a : ascii) : Z := Z.of_N (N_of_ascii a).

Definition byte_between (lo hi : Z) (a : ascii) : bool :=
  (lo <=? byte_of a) && (byte_of a <=? hi).

Definition is_ascii_digit : ascii -> bool := byte_between 48 57.
Definition is_ascii_uppercase : ascii -> bool := byte_between 65 90.
Definition is_ascii_lowercase : ascii -> bool := byte_between 97 122.
Definition is_ascii_alphabetic (a : ascii) : bool := is_ascii_uppercase a || is_ascii_lowercase a.
Definition is_ascii_alphanumeric (a : ascii) : bool := is_ascii_alphabetic a || is_ascii_digit a.
Definition is_ascii_hexdigit (a : ascii) : bool :=
  is_ascii_digit a || byte_between 65 70 a || byte_between 97 102 a.

Definition ascii_lower (a : ascii) : ascii :=
  if is_ascii_uppercase a then ascii_of_N (Z.to_N (byte_of a + 32)) else a.

Definition bytes (s : string) : list ascii := String.list_ascii_of_string s.
Definition of_bytes (l : list ascii) : string := String.string_of_list_ascii l.

(** [str::len], the number of bytes. *)
Definition str_len (s : string) : Z := Z.of_nat (String.length s).

Definition is_empty (s : string) : bool :=
  match s with EmptyString => true | _ => false end.

Fixpoint all_bytes (p : ascii -> bool) (s : string) : bool :=
  match s with
  | EmptyString => true
  | String a r => p a && all_bytes p r
  end.

Fixpoint any_byte (p : ascii -> bool) (s : string) : bool :=
  match s with
  | EmptyString => false
  | String a r => p a || any_byte p r
  end.

Fixpoint to_ascii_lowercase (s : string) : string :=
  match s with
  | EmptyString => EmptyString
  | String a r => String (ascii_lower a) (to_ascii_lowercase r)
  end.

Definition eq_ignore_ascii_case (s t : string) : bool :=
  to_ascii_lowercase s == to_ascii_lowercase t.

(** [str::replace] of one byte by one byte. *)
Fixpoint replace_byte (old new : ascii) (s : string) : string :=
  match s with
  | EmptyString => EmptyString
  | String a r =>
      String (if bool_decide (a = old) then new else a) (replace_byte old new r)
  end.

(** ** Unicode white space, on the UTF-8 bytes of a string *)

Definition byte_is (a : ascii) (n : Z) : bool := byte_of a =? n.

(** [char::is_whitespace] on a one-, two- or three-byte character. *)
Definition ws1 (a : ascii) : bool := byte_between 9 13 a || byte_is a 32.
Definition ws2 (a b : ascii) : bool := byte_is a 194 && (byte_is b 133 || byte_is b 160).
Definition ws3 (a b c : ascii) : bool :=
  (byte_is a 225 && byte_is b 154 && byte_is c 128)
  || (byte_is a 226 && byte_is b 128
      && (byte_between 128 138 c || byte_is c 168 || byte_is c 169 || byte_is c 175))
  || (byte_is a 226 && byte_is b 129 && byte_is c 159)
  || (byte_is a 227 && byte_is b 128 && byte_is c 128).

(** The string behind a leading white space character, if there is one. *)
Definition strip_ws (s : string) : option string :=
  match s with
  | EmptyString => None
  | String a r =>
      if ws1 a then Some r else
      match r with
      | EmptyString => None
      | String b r2 =>
          if ws2 a b then Some r2 else
          match r2 with
          | EmptyString => None
          | String c r3 => if ws3 a b c then Some r3 else None
          end
      end
  end.

(** The same at the end of a string, given its bytes in reverse order. *)
Definition strip_ws_back (s : string) : option string :=
  match s with
  | EmptyString => None
  | String a r =>
      if ws1 a then Some r else
      match r with
      | EmptyString => None
      | String b r2 =>
          if ws2 b a then Some r2 else
          match r2 with
          | EmptyString => None
          | String c r3 => if ws3 c b a then Some r3 else None
          end
      end
  end.

Fixpoint strip_all (strip : string -> option string) (fuel : nat) (s : string) : string :=
  match fuel with
  | O => s
  | S n => match strip s with Some r => strip_all strip n r | None => s end
  end.

Definition trim_start (s : string) : string := strip_all strip_ws (String.length s) s.
Definition trim_end (s : string) : string :=
  String.rev (strip_all strip_ws_back (String.length s) (String.rev s)).

(** [str::trim]. *)
Definition trim (s : string) : string := trim_end (trim_start s).

(** [value.trim().is_empty()], the blank test used all over the code. *)
Definition is_blank (s : string) : bool := is_empty (trim s).

(** ** Splitting *)

Definition starts_with (p s : string) : bool := String.prefix p s.

Fixpoint strip_prefix (p s : string) : option string :=
  match p, s with
  | EmptyString, _ => Some s
  | String a p', String b s' => if bool_decide (a = b) then strip_prefix p' s' else None
  | String _ _, EmptyString => None
  end.

(** [str::split_once], the text before and after the first occurrence. *)
Fixpoint split_once (p s : string) : option (string * string) :=
  match strip_prefix p s with
  | Some rest => Some (EmptyString, rest)
  | None =>
      match s with
      | EmptyString => None
      | String a r =>
          match split_once p r with
          | Some (l, rest) => Some (String a l, rest)
          | None => None
          end
      end
  end.

Definition contains (p s : string) : bool :=
  match split_once p s with Some _ => true | None => false end.

(** [str::rsplit_once(':')]. *)
Definition rsplit_colon (s : string) : option (string * string) :=
  match split_once ":" (String.rev s) with
  | Some (after, before) => Some (String.rev before, String.rev after)
  | None => None
  end.

(** [str::split] on one byte: always at least one piece. *)
Fixpoint split_byte (c : ascii) (s : string) : list string :=
  match s with
  | EmptyString => [EmptyString]
  | String a r =>
      if bool_decide (a = c) then EmptyString :: split_byte c r
      else match split_byte c r with
           | [] => [String a EmptyString]
           | w :: ws => String a w :: ws
           end
  end.

Definition cr : ascii := ascii_of_nat 13.
Definition lf : ascii := ascii_of_nat 10.
Definition crlf : string := String cr (String lf EmptyString).
Definition quote : ascii := ascii_of_nat 34.

Definition drop_cr (s : string) : string :=
  match String.rev s with
  | String a r => if bool_decide (a = cr) then String.rev r else s
  | EmptyString => s
  end.

Fixpoint drop_last_empty (l : list string) : list string :=
  match l with
  | [] => []
  | [x] => if is_empty x then [] else [x]
  | x :: l' => x :: drop_last_empty l'
  end.

(** [str::lines]: split at line feeds, no empty last piece, one carriage return dropped. *)
Definition lines (s : string) : list string :=
  map drop_cr (drop_last_empty (split_byte lf s)).

(** [str::split_whitespace]. [cur] is the word being read, in reverse. *)
Fixpoint split_whitespace_go (fuel : nat) (cur : string) (s : string) : list string :=
  let flush := if is_empty cur then [] else [String.rev cur] in
  match fuel with
  | O => flush
  | S n =>
      match s with
      | EmptyString => flush
      | String a r =>
          match strip_ws s with
          | Some rest => flush ++ split_whitespace_go n EmptyString rest
          | None => split_whitespace_go n (String a cur) r
          end
      end
  end.
Definition split_whitespace (s : string) : list string :=
  split_whitespace_go (S (String.length s)) EmptyString s.

(** [str::ends_with]. *)
Definition ends_with (p s : string) : bool := starts_with (String.rev p) (String.rev s).

(** ** Numbers as text *)

(** Reads decimal digits into an accumulator; [None] on another byte or past [m]. *)
Fixpoint parse_digits (m acc : Z) (s : string) : option Z :=
  match s with
  | EmptyString => Some acc
  | String a r =>
      if is_ascii_digit a then
        let acc' := acc * 10 + (byte_of a - 48) in
        if acc' <=? m then parse_digits m acc' r else None
      else None
  end.

(** [str::parse] for an unsigned type with maximum [m]: an optional plus sign and digits. *)
Definition parse_unsigned (m : Z) (s : string) : option Z :=
  match s with
  | EmptyString => None
  | String a r =>
      if byte_is a 43 then (if is_empty r then None else parse_digits m 0 r)
      else parse_digits m 0 s
  end.

(** [str::parse] for a signed type with range [lo, hi]. *)
Definition parse_signed (lo hi : Z) (s : string) : option Z :=
  match s with
  | EmptyString => None
  | String a r =>
      if byte_is a 45 then
        (if is_empty r then None
         else match parse_digits (- lo) 0 r with Some v => Some (- v) | None => None end)
      else if byte_is a 43 then (if is_empty r then None else parse_digits hi 0 r)
      else parse_digits hi 0 s
  end.

Definition parse_u8 : string -> option Z := parse_unsigned 255.
Definition parse_u16 : string -> option Z := parse_unsigned u16_max.
Definition parse_u32 : string -> option Z := parse_unsigned u32_max.
Definition parse_u64 : string -> option Z := parse_unsigned u64_max.
Definition parse_i64 : string -> option Z := parse_signed i64_min i64_max.

(** [to_string] of an integer. *)
Definition dec (z : Z) : string := pretty z.

Fixpoint zeros (n : nat) : string :=
  match n with O => EmptyString | S k => String (ascii_of_nat 48) (zeros k) end.

(** The [{:0width}] format of an unsigned number. *)
Definition pad_zero (width : nat) (s : string) : string :=
  zeros (width - String.length s) +:+ s.

Definition hex_digit (n : Z) : ascii :=
  if n <? 10 then ascii_of_N (Z.to_N (48 + n)) else ascii_of_N (Z.to_N (87 + n)).

(** [k] lower-case hexadecimal digits of a number. *)
Fixpoint hex_digits (k : nat) (n : Z) : string :=
  match k with
  | O => EmptyString
  | S k' => hex_digits k' (n / 16) +:+ String (hex_digit (n `mod` 16)) EmptyString
  end.

(** [char::to_digit(16)]. *)
Definition to_digit16 (a : ascii) : option Z :=
  if is_ascii_digit a then Some (byte_of a - 48)
  else if byte_between 97 102 a then Some (byte_of a - 87)
  else if byte_between 65 70 a then Some (byte_of a - 55)
  else None.

(** ** Options and lists *)

Definition unwrap_or {A} (o : option A) (d : A) : A := match o with Some a => a | None => d end.
Definition is_some {A} (o : option A) : bool := match o with Some _ => true | None => false end.
Definition is_none {A} (o : option A) : bool := negb (is_some o).
Definition is_some_and {A} (o : option A) (p : A -> bool) : bool :=
  match o with Some a => p a | None => false end.
Definition is_none_or {A} (o : option A) (p : A -> bool) : bool :=
  match o with Some a => p a | None => true end.
Definition or_else {A} (o p : option A) : option A := match o with Some _ => o | None => p end.
Definition filter_opt {A} (p : A -> bool) (o : option A) : option A :=
  match o with Some a => if p a then Some a else None | None => None end.

Fixpoint find_map {A B} (f : A -> option B) (l : list A) : option B :=
  match l with
  | [] => None
  | a :: l' => match f a with Some b => Some b | None => find_map f l' end
  end.

Definition one_of (s : string) (l : list string) : bool := existsb (String.eqb s) l.

Lemma find_map_Some {A B} (f : A -> option B) l b :
  find_map f l = Some b -> exists a, In a l /\ f a = Some b.
Proof.
  induction l as [|a l IH]; simpl; [done|].
  destruct (f a) eqn:E; [intros [= ->]; eauto|].
  intros (a' & Ha' & Hf)%IH. eauto.
Qed.

Lemma one_of_In s l : one_of s l = true <-> In s l.
Proof.
  unfold one_of. rewrite existsb_exists. split.
  - intros (x & Hx & ->%String.eqb_eq). done.
  - intros H. exists s. by rewrite String.eqb_refl.
Qed.

Lemma str_eqb_true s t : (s == t) = true <-> s = t.
Proof. apply String.eqb_eq. Qed.

Lemma str_eqb_false s t : (s == t) = false <-> s <> t.
Proof. apply String.eqb_neq. Qed.

Lemma is_empty_true s : is_empty s = true <-> s = EmptyString.
Proof. by destruct s. Qed.

Lemma is_empty_false s : is_empty s = false <-> s <> EmptyString.
Proof. by destruct s. Qed.

Lemma find_elem {A} (f : A -> bool) l x : List.find f l = Some x -> x ∈ l /\ f x = true.
Proof. intros E. apply find_some in E as [Hin Hf]. split; [by apply list_elem_of_In|done]. Qed.

(** ** Decimal text *)

Lemma all_bytes_app p s t : all_bytes p (s +:+ t) = all_bytes p s && all_bytes p t.
Proof. induction s as [|a s IH]; simpl; [done|]. by rewrite IH, andb_assoc. Qed.

Lemma decimal_digit x : (x < 10)%N ->
  is_ascii_digit (pretty_N_char x) = true /\ byte_of (pretty_N_char x) - 48 = Z.of_N x.
Proof.
  intros Hx.
  assert (x = 0 \/ x = 1 \/ x = 2 \/ x = 3 \/ x = 4 \/ x = 5 \/ x = 6 \/ x = 7 \/ x = 8 \/ x = 9)%N
    as Hc by lia.
  repeat (destruct Hc as [->|Hc]; [by vm_compute|]). subst. by vm_compute.
Qed.

Lemma pretty_go_digits x s :
  all_bytes is_ascii_digit s = true -> all_bytes is_ascii_digit (pretty_N_go x s) = true.
Proof.
  revert s. induction (N.lt_wf_0 x) as [x _ IH]; intros s Hs.
  destruct (decide (x = 0)%N) as [->|Hx]; [done|].
  rewrite pretty_N_go_step by lia. apply IH; [apply N.div_lt; lia|].
  simpl. rewrite Hs, (proj1 (decimal_digit _ (N.mod_lt x 10 ltac:(lia)))). done.
Qed.

Lemma pretty_go_parse m x s : Z.of_N x <= m ->
  parse_digits m 0 (pretty_N_go x s) = parse_digits m (Z.of_N x) s.
Proof.
  revert s. induction (N.lt_wf_0 x) as [x _ IH]; intros s Hm.
  destruct (decide (x = 0)%N) as [->|Hx]; [done|].
  rewrite pretty_N_go_step by lia.
  assert (Hd := N.div_mod x 10 ltac:(lia)). assert (Hl := N.mod_lt x 10 ltac:(lia)).
  rewrite IH; [|apply N.div_lt; lia|pose proof (N.div_lt x 10 ltac:(lia) ltac:(lia)); lia].
  destruct (decimal_digit (x `mod` 10) Hl) as [H1 H2]. cbn [parse_digits]. rewrite H1, H2.
  replace (Z.of_N (x `div` 10) * 10 + Z.of_N (x `mod` 10)) with (Z.of_N x) by lia.
  by rewrite (proj2 (Z.leb_le _ _) Hm).
Qed.

Lemma dec_nonneg z : 0 <= z -> dec z = pretty (Z.to_N z).
Proof. unfold dec, pretty, pretty_Z. destruct z; [done|done|lia]. Qed.

Lemma pretty_go_not_empty x s : s <> EmptyString -> pretty_N_go x s <> EmptyString.
Proof.
  revert s. induction (N.lt_wf_0 x) as [x _ IH]; intros s Hs.
  destruct (decide (x = 0)%N) as [->|Hx]; [done|].
  rewrite pretty_N_go_step by lia. by apply IH; [apply N.div_lt; lia|].
Qed.

Lemma pretty_N_not_empty (x : N) : pretty x <> EmptyString.
Proof.
  unfold pretty, pretty_N. case_decide; [done|].
  rewrite pretty_N_go_step by lia. by apply pretty_go_not_empty.
Qed.

Lemma dec_not_empty z : dec z <> EmptyString.
Proof. unfold dec, pretty, pretty_Z. destruct z; [done|apply pretty_N_not_empty|done]. Qed.

Lemma dec_digits z : 0 <= z -> all_bytes is_ascii_digit (dec z) = true.
Proof.
  intros Hz. rewrite dec_nonneg by done. unfold pretty, pretty_N. case_decide; [done|].
  by apply pretty_go_digits.
Qed.

(** Printing a number and reading it back, for every unsigned type of the code. *)
Lemma parse_unsigned_dec m z : 0 <= z <= m -> parse_unsigned m (dec z) = Some z.
Proof.
  intros Hz. pose proof (dec_digits z ltac:(lia)) as Hd.
  assert (Hp : parse_digits m 0 (dec z) = Some z).
  { rewrite dec_nonneg by lia. unfold pretty, pretty_N. case_decide as E.
    - assert (z = 0) as -> by lia. cbn -[Z.leb]. change (_ + _) with 0. by rewrite (proj2 (Z.leb_le 0 m)) by lia.
    - rewrite pretty_go_parse by lia. cbn [parse_digits]. by rewrite Z2N.id by lia. }
  unfold parse_unsigned. pose proof (dec_not_empty z). destruct (dec z) as [|a r]; [done|].
  destruct (byte_is a 43) eqn:E; [|done].
  simpl in Hd. apply andb_true_iff in Hd as [Ha _].
  unfold byte_is, is_ascii_digit, byte_between in *. lia.
Qed.

Lemma parse_unsigned_range m s v : 0 <= m -> parse_unsigned m s = Some v -> 0 <= v <= m.
Proof.
  assert (Hd : forall t acc w, 0 <= acc <= m -> parse_digits m acc t = Some w -> 0 <= w <= m).
  { induction t as [|a t IH]; simpl; intros acc w Hacc E; [by simplify_eq|].
    repeat case_match; simplify_eq. eapply IH; [|done].
    unfold is_ascii_digit, byte_between in *. lia. }
  unfold parse_unsigned. intros. repeat case_match; simplify_eq; (eapply Hd; [|done]; lia).
Qed.

(** ** Automation *)

(** Turns the boolean tests of the code in the context into propositions. *)
Ltac bool_facts :=
  repeat match goal with
  | H : (_ && _)%bool = true |- _ => apply andb_true_iff in H; destruct H
  | H : (_ || _)%bool = false |- _ => apply orb_false_iff in H; destruct H
  | H : negb _ = true |- _ => apply negb_true_iff in H
  | H : negb _ = false |- _ => apply negb_false_iff in H
  | H : String.eqb _ _ = true |- _ => apply String.eqb_eq in H
  | H : String.eqb _ _ = false |- _ => apply String.eqb_neq in H
  | H : is_empty _ = true |- _ => apply is_empty_true in H
  | H : is_empty _ = false |- _ => apply is_empty_false in H
  | H : (_ <=? _) = true |- _ => apply Z.leb_le in H
  | H : (_ <=? _) = false |- _ => apply Z.leb_gt in H
  | H : (_ <? _) = true |- _ => apply Z.ltb_lt in H
  | H : (_ <? _) = false |- _ => apply Z.ltb_ge in H
  | H : (_ =? _) = true |- _ => apply Z.eqb_eq in H
  | H : (_ =? _) = false |- _ => apply Z.eqb_neq in H
  end.

(** Case analysis on the innermost scrutinee of a [match] or [if]. *)
Ltac split_match_in H :=
  match type of H with
  | context [match ?x with _ => _ end] =>
      lazymatch x with
      | context [match _ with _ => _ end] => fail
      | _ => destruct x eqn:?
      end
  end.
Ltac split_match :=
  match goal with
  | |- context [match ?x with _ => _ end] =>
      lazymatch x with
      | context [match _ with _ => _ end] => fail
      | _ => destruct x eqn:?
      end
  end.

Create HintDb steel discriminated.
#[export] Hint Resolve clamp_bounds wrap_i32_range : steel.
