(* ===== verification/Json.v ===== *)
(** * JSON values and the payload accessors of the services

    The data model of [serde_json::Value] as the services use it, and the payload readers of
    app/service/src/main.rs. Reading and writing JSON text is [serde_json]'s own code: it is the
    class [JsonCodec], a pair of functions every component takes as a parameter, and
    [JsonCodecLaws] names the one documented fact some theorems rely on. *)

From S2P Require Import Prelude.
From Stdlib Require Import SpecFloat Ascii.

(** ** Values *)

(** [serde_json::Number]: a [u64], a negative [i64] or a finite [f64]. *)
Inductive Number :=
| PosInt (n : Z)
| NegInt (n : Z)
| Float (f : spec_float).

(** [serde_json::Value]. An object is a map ordered by key ([BTreeMap], the crate's default). *)
#[warnings="-register-all"] Inductive Value :=
| JNull
| JBool (b : bool)
| JNumber (n : Number)
| JString (s : string)
| JArray (l : list Value)
| JObject (m : list (string * Value)).

(** [Number::from] of an integer of the code. *)
Definition jint (z : Z) : Value := JNumber (if z <? 0 then NegInt z else PosInt z).

(** [json!] of a double (what is not finite is null) and of an option. *)
Definition jfloat (f : spec_float) : Value :=
  match f with S754_nan | S754_infinity _ => JNull | _ => JNumber (Float f) end.
Definition jopt {A} (f : A -> Value) (o : option A) : Value := match o with Some a => f a | None => JNull end.

(** Insertion into an ordered map: a present key keeps its place and gets the new value. *)
Fixpoint minsert {A} (k : string) (v : A) (m : list (string * A)) : list (string * A) :=
  match m with
  | [] => [(k, v)]
  | (k', v') :: m' =>
      match String.compare k k' with
      | Lt => (k, v) :: m
      | Eq => (k, v) :: m'
      | Gt => (k', v') :: minsert k v m'
      end
  end.

Fixpoint mget {A} (k : string) (m : list (string * A)) : option A :=
  match m with
  | [] => None
  | (k', v) :: m' => if k == k' then Some v else mget k m'
  end.

(** The [json!] macro on an object literal: its fields are inserted in turn. *)
Definition jobj (fields : list (string * Value)) : Value :=
  JObject (fold_left (fun m kv => minsert (fst kv) (snd kv) m) fields []).

(** [Value::get] with a string key. *)
Definition jget (k : string) (v : Value) : option Value :=
  match v with JObject m => mget k m | _ => None end.

Definition is_object (v : Value) : bool := match v with JObject _ => true | _ => false end.

Definition as_str (v : Value) : option string := match v with JString s => Some s | _ => None end.
Definition as_bool (v : Value) : option bool := match v with JBool b => Some b | _ => None end.
Definition as_array (v : Value) : option (list Value) := match v with JArray l => Some l | _ => None end.

Definition as_i64 (v : Value) : option Z :=
  match v with
  | JNumber (PosInt n) => if n <=? i64_max then Some n else None
  | JNumber (NegInt n) => Some n
  | _ => None
  end.

Definition as_u64 (v : Value) : option Z :=
  match v with JNumber (PosInt n) => Some n | _ => None end.

(** [value.get(key).and_then(Value::as_bool)] and its siblings. *)
Definition get_bool (k : string) (v : Value) : option bool :=
  match jget k v with Some x => as_bool x | None => None end.
Definition get_str (k : string) (v : Value) : option string :=
  match jget k v with Some x => as_str x | None => None end.
Definition get_i64 (k : string) (v : Value) : option Z :=
  match jget k v with Some x => as_i64 x | None => None end.

(** [Value::pointer] along object keys. *)
Fixpoint jpointer (path : list string) (v : Value) : option Value :=
  match path with
  | [] => Some v
  | k :: path' => match jget k v with Some x => jpointer path' x | None => None end
  end.

(** ** Payload accessors of the inspection service *)

(** main.rs [value_string]: the first key that is present, as trimmed text. *)
Definition value_string (payload : Value) (keys : list string) : string :=
  let picked := find_map (fun key => jget key payload) keys in
  let text :=
    match picked with
    | None => None
    | Some value =>
        or_else (as_str value)
          (or_else (option_map dec (as_i64 value)) (option_map dec (as_u64 value)))
    end in
  unwrap_or (filter_opt (fun s => negb (is_empty s)) (option_map trim text)) "".

(** main.rs [value_bool]. *)
Definition value_bool (payload : Value) (keys : list string) (fallback : bool) : bool :=
  let picked := find_map (fun key => jget key payload) keys in
  let flag :=
    match picked with
    | None => None
    | Some value =>
        or_else (as_bool value)
          (or_else (option_map (fun item => negb (item =? 0)) (as_i64 value))
             (match as_str value with
              | None => None
              | Some text =>
                  let word := to_ascii_lowercase (trim text) in
                  if one_of word ["true"; "1"; "yes"] then Some true
                  else if one_of word ["false"; "0"; "no"] then Some false
                  else None
              end))
    end in
  unwrap_or flag fallback.

(** main.rs [value_i32]. *)
Definition value_i32 (payload : Value) (keys : list string) (fallback : Z) : Z :=
  let picked := find_map (fun key => jget key payload) keys in
  let number :=
    match picked with
    | None => None
    | Some value =>
        or_else (as_i64 value)
          (or_else (option_map (fun flag : bool => if flag then 1 else 0) (as_bool value))
             (match as_str value with Some text => parse_i64 (trim text) | None => None end))
    end in
  let narrowed := filter_opt (fun v => (i32_min <=? v) && (v <=? i32_max)) number in
  unwrap_or narrowed fallback.

(** main.rs [material_id_from_payload]. *)
Definition material_id_from_payload (payload : Value) (fallback : string) : string :=
  let id := value_string payload
    ["materialId"; "material_id"; "steelId"; "steel_id"; "steelNo"; "steel_no"; "id"] in
  if is_empty id then fallback else id.

(** main.rs [session_id_from_payload]; [now] is [current_time_millis()]. *)
Definition session_id_from_payload (payload : Value) (material_id : string) (now : Z) : string :=
  let explicit := value_string payload ["sessionId"; "session_id"] in
  if is_empty explicit then material_id +:+ "-" +:+ dec now else explicit.

(** ** The text codec *)

Class JsonCodec := {
  json_print : Value -> string;          (* Value::to_string *)
  json_parse : string -> option Value;   (* serde_json::from_str(..).ok() *)
}.

(** Values whose text is read back unchanged: ordered distinct keys, integers in range and no
    floating point number. *)
Definition number_ok (n : Number) : bool :=
  match n with
  | PosInt n => (0 <=? n) && (n <=? u64_max)
  | NegInt n => (i64_min <=? n) && (n <? 0)
  | Float _ => false
  end.

Fixpoint keys_sorted {A} (m : list (string * A)) : bool :=
  match m with
  | [] => true
  | (k, _) :: m' =>
      match m' with
      | [] => true
      | (k', _) :: _ => String.ltb k k' && keys_sorted m'
      end
  end.

Fixpoint canonical (v : Value) : bool :=
  match v with
  | JNull | JBool _ | JString _ => true
  | JNumber n => number_ok n
  | JArray l => forallb canonical l
  | JObject m => keys_sorted m && forallb (fun kv => canonical (snd kv)) m
  end.

Class JsonCodecLaws (codec : JsonCodec) := {
  json_parse_print : forall v, canonical v = true -> json_parse (json_print v) = Some v;
}.

(** ** Map lemmas *)

Lemma string_compare_refl s : String.compare s s = Eq.
Proof.
  induction s as [|a s IH]; simpl; [done|].
  unfold Ascii.compare. by rewrite N.compare_refl.
Qed.

Lemma mget_minsert_eq {A} k (v : A) m : mget k (minsert k v m) = Some v.
Proof.
  induction m as [|[k' v'] m IH]; simpl.
  - by rewrite String.eqb_refl.
  - destruct (String.compare k k') eqn:E; simpl; rewrite ?String.eqb_refl; [done..|].
    destruct (String.eqb_spec k k') as [->|]; [|done].
    by rewrite string_compare_refl in E.
Qed.

Lemma mget_minsert_ne {A} k k' (v : A) m : k <> k' -> mget k (minsert k' v m) = mget k m.
Proof.
  intros Hne. apply String.eqb_neq in Hne.
  induction m as [|[k2 v2] m IH]; simpl; [by rewrite Hne|].
  destruct (String.compare k' k2) eqn:E; simpl.
  - apply String.compare_eq_iff in E as ->. by rewrite Hne.
  - by rewrite Hne.
  - by rewrite IH.
Qed.

(** The fields of an object literal. *)
Lemma mget_app {A} k (l l' : list (string * A)) : mget k (l ++ l') = or_else (mget k l) (mget k l').
Proof. induction l as [|[k' v] l IH]; simpl; [done|]. by destruct (k == k'). Qed.

Lemma jget_jobj k fields : jget k (jobj fields) = mget k (List.rev fields).
Proof.
  unfold jobj. simpl. transitivity (or_else (mget k (List.rev fields)) (mget k (@nil (string * Value)))); [|by destruct (mget k _)].
  generalize (@nil (string * Value)). induction fields as [|[k' v] fields IH]; intros m; simpl; [done|].
  rewrite IH, mget_app. simpl. destruct (mget k (List.rev fields)); simpl; [done|].
  destruct (k == k') eqn:E; bool_facts; [subst; by rewrite mget_minsert_eq|by rewrite mget_minsert_ne].
Qed.
