(* ===== verification/Http.v ===== *)
(** * HTTP messages of the inspection service

    The hand-written HTTP layer of app/service/src/main.rs and production_tasks.rs: building a
    response, finding its body and status again, request headers and query strings. Messages are
    byte strings, as in the code. *)

From S2P Require Import Prelude Json.
From Stdlib Require Import Ascii.

(** ** UTF-8, as [String::from_utf8_lossy] reads it *)

Definition cont (a : ascii) : bool := byte_between 128 191 a.

(** One chunk at the head of a byte list: its length in bytes and whether it is a valid
    character. An invalid chunk is the longest prefix the decoder rejects at once. *)
Definition utf8_chunk (l : list ascii) : bool * nat :=
  match l with
  | [] => (true, 0%nat)
  | a :: l1 =>
      if byte_between 0 127 a then (true, 1%nat)
      else if byte_between 194 223 a then
        match l1 with b :: _ => if cont b then (true, 2%nat) else (false, 1%nat) | [] => (false, 1%nat) end
      else if byte_between 224 239 a then
        match l1 with
        | b :: l2 =>
            let second :=
              if byte_is a 224 then byte_between 160 191 b
              else if byte_is a 237 then byte_between 128 159 b
              else cont b in
            if second then
              match l2 with c :: _ => if cont c then (true, 3%nat) else (false, 2%nat) | [] => (false, 2%nat) end
            else (false, 1%nat)
        | [] => (false, 1%nat)
        end
      else if byte_between 240 244 a then
        match l1 with
        | b :: l2 =>
            let second :=
              if byte_is a 240 then byte_between 144 191 b
              else if byte_is a 244 then byte_between 128 143 b
              else cont b in
            if second then
              match l2 with
              | c :: l3 =>
                  if cont c then
                    match l3 with d :: _ => if cont d then (true, 4%nat) else (false, 3%nat) | [] => (false, 3%nat) end
                  else (false, 2%nat)
              | [] => (false, 2%nat)
              end
            else (false, 1%nat)
        | [] => (false, 1%nat)
        end
      else (false, 1%nat)
  end.

(** U+FFFD. *)
Definition replacement : list ascii := map (fun n => ascii_of_nat n) [239; 191; 189]%nat.

Fixpoint lossy_go (fuel : nat) (l : list ascii) : list ascii :=
  match fuel, l with
  | O, _ | _, [] => []
  | S n, _ =>
      let '(ok, k) := utf8_chunk l in
      (if ok then firstn k l else replacement) ++ lossy_go n (skipn k l)
  end.

Definition from_utf8_lossy (s : string) : string :=
  of_bytes (lossy_go (String.length s) (bytes s)).

Fixpoint valid_go (fuel : nat) (l : list ascii) : bool :=
  match fuel, l with
  | O, _ | _, [] => true
  | S n, _ => let '(ok, k) := utf8_chunk l in ok && valid_go n (skipn k l)
  end.

(** [std::str::from_utf8(..).is_ok()]. *)
Definition utf8_valid (s : string) : bool := valid_go (String.length s) (bytes s).

(** ** Responses *)

Definition json_type : string := "application/json; charset=utf-8".

Definition blank_line : string := crlf +:+ crlf.

(** main.rs [http_response_with_headers]. *)
Definition http_response_with_headers (status content_type body : string)
    (extra_headers : list (string * string)) : string :=
  let extra_header_lines :=
    String.concat "" (map (fun '(name, value) => name +:+ ": " +:+ value +:+ crlf) extra_headers) in
  "HTTP/1.1 " +:+ status +:+ crlf +:+
  "Content-Type: " +:+ content_type +:+ crlf +:+
  "Content-Length: " +:+ dec (str_len body) +:+ crlf +:+
  "Access-Control-Allow-Origin: *" +:+ crlf +:+
  "Access-Control-Allow-Methods: GET, POST, PATCH, PUT, DELETE, OPTIONS" +:+ crlf +:+
  "Access-Control-Allow-Headers: Content-Type, Accept, Authorization, Idempotency-Key" +:+ crlf +:+
  extra_header_lines +:+
  "Connection: close" +:+ blank_line +:+ body.

(** main.rs [http_bytes_response_with_headers]: the same bytes, for a body that is already bytes. *)
Definition http_bytes_response_with_headers (status content_type body : string)
    (extra_headers : list (string * string)) : string :=
  let extra_header_lines :=
    String.concat "" (map (fun '(name, value) => name +:+ ": " +:+ value +:+ crlf) extra_headers) in
  let response :=
    "HTTP/1.1 " +:+ status +:+ crlf +:+
    "Content-Type: " +:+ content_type +:+ crlf +:+
    "Content-Length: " +:+ dec (str_len body) +:+ crlf +:+
    "Access-Control-Allow-Origin: *" +:+ crlf +:+
    "Access-Control-Allow-Methods: GET, POST, PATCH, PUT, DELETE, OPTIONS" +:+ crlf +:+
    "Access-Control-Allow-Headers: Content-Type, Accept, Authorization, Idempotency-Key" +:+ crlf +:+
    extra_header_lines +:+
    "Connection: close" +:+ blank_line in
  response +:+ body.

(** main.rs [http_response]. *)
Definition http_response (status content_type body : string) : string :=
  http_response_with_headers status content_type body [].

(** The response the handlers build from a JSON value. *)
Definition json_response `{JsonCodec} (status : string) (body : Value) : string :=
  http_response status json_type (json_print body).

(** main.rs [capture_proxy_status]. *)
Definition capture_proxy_status (status_code : Z) : string :=
  let reason :=
    match status_code with
    | 200 => "OK"
    | 201 => "Created"
    | 202 => "Accepted"
    | 204 => "No Content"
    | 400 => "Bad Request"
    | 401 => "Unauthorized"
    | 403 => "Forbidden"
    | 404 => "Not Found"
    | 408 => "Request Timeout"
    | 409 => "Conflict"
    | 422 => "Unprocessable Entity"
    | 429 => "Too Many Requests"
    | 500 => "Internal Server Error"
    | 502 => "Bad Gateway"
    | 503 => "Service Unavailable"
    | 504 => "Gateway Timeout"
    | _ => "Capture Provider Response"
    end in
  dec status_code +:+ " " +:+ reason.

(** ** Reading a response *)

(** production_tasks.rs [response_body]. *)
Definition response_body (response : string) : string :=
  match split_once blank_line response with
  | Some (_, rest) => from_utf8_lossy rest
  | None => from_utf8_lossy response
  end.

(** The status code a response carries on its first line. *)
Definition response_status (response : string) : option Z :=
  match lines (from_utf8_lossy response) with
  | [] => None
  | line :: _ =>
      match split_whitespace line with
      | _ :: value :: _ => parse_u16 value
      | _ => None
      end
  end.

(** production_tasks.rs [response_succeeded]. *)
Definition response_succeeded `{JsonCodec} (response body : string) : bool :=
  let status_ok :=
    match response_status response with
    | Some status => (200 <=? status) && (status <? 300)
    | None => false
    end in
  if negb status_ok then false
  else
    match json_parse body with
    | Some value => match get_i64 "code" value with Some code => code =? 0 | None => true end
    | None => true
    end.

(** production_tasks.rs [response_error]. *)
Definition response_error `{JsonCodec} (response body : string) : string :=
  let named :=
    match json_parse body with
    | Some value =>
        match or_else (jget "error" value) (jget "message" value) with
        | Some v => as_str v
        | None => None
        end
    | None => None
    end in
  match named with
  | Some text => text
  | None =>
      match lines (from_utf8_lossy response) with
      | line :: _ => line
      | [] => "production task failed"
      end
  end.

(** production_tasks.rs [response_cooperatively_cancelled]. *)
Definition response_cooperatively_cancelled `{JsonCodec} (body : string) : bool :=
  match json_parse body with
  | Some value =>
      unwrap_or (get_bool "cooperativeCancellation" value) false
      || unwrap_or (match jget "algorithm" value with
                    | Some algorithm => get_bool "cooperativeCancellation" algorithm
                    | None => None
                    end) false
  | None => false
  end.

(** production_tasks.rs [provider_terminal_outcome]. *)
Definition provider_terminal_outcome `{JsonCodec} (response body : string) : string * Z * string :=
  if response_succeeded response body then ("succeeded", 100, "")
  else ("failed", 100, response_error response body).

(** ** Reading a request *)

(** main.rs [request_header] (also in the trigger gateway). *)
Definition request_header (request name : string) : option string :=
  let fix take_while (l : list string) :=
    match l with
    | [] => []
    | line :: l' => if is_blank line then [] else line :: take_while l'
    end in
  find_map
    (fun line =>
       match split_once ":" line with
       | Some (key, value) =>
           if eq_ignore_ascii_case (trim key) name then Some (trim value) else None
       | None => None
       end)
    (take_while (skipn 1 (lines request))).

(** main.rs [content_length_from_headers]. *)
Definition content_length_from_headers (request : string) : Z :=
  unwrap_or (match request_header request "Content-Length" with
             | Some value => parse_u64 value
             | None => None
             end) 0.

(** main.rs [header_end_index]. *)
Definition header_end_index (request : string) : option Z :=
  match split_once blank_line request with
  | Some (head, _) => Some (str_len head + 4)
  | None => None
  end.

(** main.rs [split_path_and_query]. *)
Definition split_path_and_query (raw_path : string) : string * string :=
  match split_once "?" raw_path with
  | Some (path, query) => (path, query)
  | None => (raw_path, "")
  end.

(** ** Percent encoding *)

Definition percent : ascii := ascii_of_nat 37.
Definition plus_sign : ascii := ascii_of_nat 43.

Definition unreserved (a : ascii) : bool :=
  is_ascii_alphanumeric a || byte_is a 45 || byte_is a 95 || byte_is a 46 || byte_is a 126.

(** The [{:02X}] format of a byte. *)
Definition upper_hex (n : Z) : ascii :=
  if n <? 10 then ascii_of_N (Z.to_N (48 + n)) else ascii_of_N (Z.to_N (55 + n)).

(** main.rs [url_encode_component]. *)
Definition url_encode_component (value : string) : string :=
  of_bytes
    (flat_map
       (fun byte =>
          if unreserved byte then [byte]
          else [percent; upper_hex (byte_of byte / 16); upper_hex (byte_of byte `mod` 16)])
       (bytes value)).

(** [u8::from_str_radix] with radix 16 on a two-byte text. *)
Definition byte_from_hex (a b : ascii) : option ascii :=
  let code :=
    if bool_decide (a = plus_sign) then to_digit16 b
    else match to_digit16 a, to_digit16 b with
         | Some h, Some l => Some (h * 16 + l)
         | _, _ => None
         end in
  option_map (fun n => ascii_of_N (Z.to_N n)) code.

(** main.rs [decode_query_value], on bytes. [None] is the panic of slicing [value] at
    [index + 3] when that byte continues a character. *)
Fixpoint decode_query_bytes (l : list ascii) : option (list ascii) :=
  match l with
  | [] => Some []
  | a :: r =>
      if bool_decide (a = plus_sign) then option_map (cons (ascii_of_nat 32)) (decode_query_bytes r)
      else if bool_decide (a = percent) then
        match r with
        | h :: d :: rest =>
            if match rest with c :: _ => cont c | [] => false end then None
            else match byte_from_hex h d with
                 | Some byte => option_map (cons byte) (decode_query_bytes rest)
                 | None => option_map (cons percent) (decode_query_bytes r)
                 end
        | _ => option_map (cons percent) (decode_query_bytes r)
        end
      else option_map (cons a) (decode_query_bytes r)
  end.

Definition decode_query_value (value : string) : option string :=
  option_map (fun l => from_utf8_lossy (of_bytes l)) (decode_query_bytes (bytes value)).

(** main.rs [query_value]; the outer option is a panic of the decoder. *)
Definition query_value (query key : string) : option (option string) :=
  match find_map
          (fun pair =>
             match split_once "=" pair with
             | Some (item_key, item_value) => if item_key == key then Some item_value else None
             | None => None
             end)
          (split_byte (ascii_of_nat 38) query) with
  | Some item_value => option_map Some (decode_query_value item_value)
  | None => Some None
  end.

(** main.rs [decode_web_request_path]: fails closed where the query decoder keeps the text. *)
Fixpoint decode_web_bytes (l : list ascii) : option (list ascii) :=
  match l with
  | [] => Some []
  | a :: r =>
      if bool_decide (a = percent) then
        match r with
        | h :: d :: rest =>
            if utf8_valid (of_bytes [h; d]) then
              match byte_from_hex h d with
              | Some byte => option_map (cons byte) (decode_web_bytes rest)
              | None => None
              end
            else None
        | _ => None
        end
      else option_map (cons a) (decode_web_bytes r)
  end.

Definition decode_web_request_path (value : string) : option string :=
  match decode_web_bytes (bytes value) with
  | Some l => let s := of_bytes l in if utf8_valid s then Some s else None
  | None => None
  end.

(** ** Reading a request from a connection *)

(** What one [Read::read] call gives: some bytes, the end of the stream, or an error. *)
Inductive ReadEvent :=
| ReadBytes (chunk : string)
| ReadEof
| ReadFailed.

Definition header_limit : Z := 1024 * 1024.
Definition request_limit : Z := 17 * 1024 * 1024.

Definition take_bytes (n : Z) (s : string) : string := of_bytes (firstn (Z.to_nat n) (bytes s)).

(** main.rs [read_http_request]: the loop over [read] results, [bytes] being what was read so
    far. A stream that ends without an event reads as closed. *)
Fixpoint read_http_request_go (total_limit : Z) (received : string) (stream : list ReadEvent)
    : option string :=
  match stream with
  | [] | ReadEof :: _ => Some received
  | ReadFailed :: _ => None
  | ReadBytes chunk :: stream' =>
      if is_empty chunk then Some received
      else
        let received := received +:+ chunk in
        match header_end_index received with
        | None =>
            if str_len received >? header_limit then None
            else read_http_request_go total_limit received stream'
        | Some header_end =>
            let header_text := from_utf8_lossy (take_bytes header_end received) in
            let total_length := wrap_u64 (header_end + content_length_from_headers header_text) in
            if str_len received >=? total_length then Some (take_bytes total_length received)
            else if total_length >? total_limit then None
            else read_http_request_go total_limit received stream'
        end
  end.

Definition read_http_request (stream : list ReadEvent) : option string :=
  read_http_request_go request_limit "" stream.
