(* ===== verification/HttpFacts.v ===== *)
(** * What the HTTP layer guarantees

    A query string built by percent encoding is read back whatever the values hold, and a request
    is read whole however the network cuts it into pieces. *)

From S2P Require Import Prelude Json Http.
From Stdlib Require Import Ascii.

(** ** Bytes of strings *)

Lemma bytes_app s t : bytes (s +:+ t) = bytes s ++ bytes t.
Proof. induction s as [|a s IH]; simpl; [done|]. unfold bytes in *. simpl. by f_equal. Qed.

Lemma of_bytes_bytes s : of_bytes (bytes s) = s.
Proof. apply String.string_of_list_ascii_of_string. Qed.

Lemma bytes_of_bytes l : bytes (of_bytes l) = l.
Proof. apply String.list_ascii_of_string_of_list_ascii. Qed.

Lemma bytes_length s : length (bytes s) = String.length s.
Proof. induction s as [|a s IH]; simpl; [done|]. by rewrite <- IH. Qed.

Lemma string_app_assoc (s t u : string) : (s +:+ t) +:+ u = s +:+ (t +:+ u).
Proof. induction s as [|a s IH]; [done|]. exact (f_equal (String a) IH). Qed.

Lemma string_app_nil (s : string) : s +:+ "" = s.
Proof. induction s as [|a s IH]; [done|]. exact (f_equal (String a) IH). Qed.

Lemma string_length_app s t : String.length (s +:+ t) = (String.length s + String.length t)%nat.
Proof. by rewrite <- !bytes_length, bytes_app, length_app. Qed.

Lemma str_len_app s t : str_len (s +:+ t) = str_len s + str_len t.
Proof. unfold str_len. rewrite <- !bytes_length, bytes_app, length_app. lia. Qed.

Lemma str_len_nonneg s : 0 <= str_len s.
Proof. unfold str_len. lia. Qed.

(** ** UTF-8 *)

Lemma utf8_chunk_short a l : (1 <= snd (utf8_chunk (a :: l)) <= length (a :: l))%nat.
Proof. unfold utf8_chunk. repeat case_match; simpl; lia. Qed.

Lemma lossy_valid fuel : forall l, (length l <= fuel)%nat -> valid_go fuel l = true -> lossy_go fuel l = l.
Proof.
  induction fuel as [|fuel IH]; intros l Hl Hv; [by destruct l; simpl in Hl; [|lia]|].
  destruct l as [|a l]; [done|]. cbn [lossy_go]. cbn [valid_go] in Hv.
  pose proof (utf8_chunk_short a l) as Hk. destruct (utf8_chunk (a :: l)) as [ok k]. simpl in Hk.
  apply andb_true_iff in Hv as [-> Hv]. rewrite IH; [apply take_drop| |done].
  rewrite length_skipn. simpl in *. lia.
Qed.

Lemma from_utf8_lossy_valid s : utf8_valid s = true -> from_utf8_lossy s = s.
Proof.
  unfold utf8_valid, from_utf8_lossy. intros Hv. rewrite lossy_valid; [apply of_bytes_bytes| |done].
  by rewrite bytes_length.
Qed.

(** ** Percent encoding *)

Lemma hex_pair_reads (a : ascii) :
  byte_from_hex (upper_hex (byte_of a / 16)) (upper_hex (byte_of a `mod` 16)) = Some a.
Proof. by destruct a as [[] [] [] [] [] [] [] []]; vm_compute. Qed.

(** No byte of an encoded text continues a character or separates parameters. *)
Definition plain (a : ascii) : bool :=
  negb (cont a) && negb (byte_is a 38) && negb (byte_is a 61) && negb (byte_is a 43).

Lemma encoded_plain l : forallb plain
  (flat_map (fun byte => if unreserved byte then [byte]
     else [percent; upper_hex (byte_of byte / 16); upper_hex (byte_of byte `mod` 16)]) l) = true.
Proof.
  induction l as [|a l IH]; simpl; [done|]. rewrite forallb_app, IH, andb_true_r.
  by destruct a as [[] [] [] [] [] [] [] []]; vm_compute.
Qed.

Lemma unreserved_plain a : unreserved a = true -> a <> plus_sign /\ a <> percent.
Proof. by destruct a as [[] [] [] [] [] [] [] []]; vm_compute. Qed.

Lemma decode_encoded l : decode_query_bytes
  (flat_map (fun byte => if unreserved byte then [byte]
     else [percent; upper_hex (byte_of byte / 16); upper_hex (byte_of byte `mod` 16)]) l) = Some l.
Proof.
  induction l as [|a l IH]; simpl; [done|]. destruct (unreserved a) eqn:Eu; simpl.
  - destruct (unreserved_plain a Eu). rewrite !bool_decide_eq_false_2 by done. by rewrite IH.
  - pose proof (encoded_plain l) as Hp. destruct (flat_map _ l) as [|b rest] eqn:El.
    + by rewrite hex_pair_reads, IH.
    + assert (Hc : cont b = false) by (simpl in Hp; unfold plain in Hp; by bool_facts).
      by rewrite Hc, hex_pair_reads, IH.
Qed.

Lemma decode_query_encoded v : utf8_valid v = true -> decode_query_value (url_encode_component v) = Some v.
Proof.
  intros Hv. unfold decode_query_value, url_encode_component. rewrite bytes_of_bytes, decode_encoded. simpl.
  by rewrite of_bytes_bytes, from_utf8_lossy_valid.
Qed.

(** ** Query strings *)

Definition lacks (n : Z) (s : string) : bool := all_bytes (fun a => negb (byte_is a n)) s.

Lemma lacks_cons n a s : lacks n (String a s) = true -> byte_of a <> n /\ lacks n s = true.
Proof. unfold lacks, byte_is. simpl. intros Hb. by bool_facts. Qed.

Lemma lacks_app n s t : lacks n (s +:+ t) = lacks n s && lacks n t.
Proof. apply all_bytes_app. Qed.

Lemma all_bytes_forallb p s : all_bytes p s = forallb p (bytes s).
Proof. induction s as [|a s IH]; simpl; [done|]. by rewrite IH. Qed.

Lemma encoded_lacks n v : n = 38 \/ n = 61 -> lacks n (url_encode_component v) = true.
Proof.
  intros Hn. unfold lacks, url_encode_component. rewrite all_bytes_forallb, bytes_of_bytes.
  apply forallb_forall. intros a Ha. pose proof (encoded_plain (bytes v)) as Hp.
  rewrite forallb_forall in Hp. specialize (Hp a Ha). unfold plain in Hp. bool_facts.
  destruct Hn as [-> | ->]; simpl; by apply negb_true_iff.
Qed.

Lemma split_byte_whole c s : lacks (byte_of c) s = true -> split_byte c s = [s].
Proof.
  induction s as [|a s IH]; simpl; [done|]. intros [Ha Hs]%lacks_cons.
  rewrite bool_decide_eq_false_2 by congruence. by rewrite IH.
Qed.

Lemma split_byte_app c s t : lacks (byte_of c) s = true ->
  split_byte c (s +:+ String c t) = s :: split_byte c t.
Proof.
  induction s as [|a s IH]; simpl; intros Hb; [by rewrite bool_decide_eq_true_2|].
  apply lacks_cons in Hb as [Ha Hs]. rewrite bool_decide_eq_false_2 by congruence. by rewrite IH.
Qed.

Lemma split_byte_concat c pieces : pieces <> [] -> forallb (lacks (byte_of c)) pieces = true ->
  split_byte c (String.concat (String c "") pieces) = pieces.
Proof.
  induction pieces as [|p [|q pieces] IH]; intros Hne Hf; [done| |].
  - simpl in *. bool_facts. by apply split_byte_whole.
  - change (String.concat (String c "") (p :: q :: pieces))
      with (p +:+ String c (String.concat (String c "") (q :: pieces))).
    simpl in Hf. apply andb_true_iff in Hf as [Hp Hf]. rewrite split_byte_app by done. by rewrite IH.
Qed.

Lemma split_once_eq k v : lacks 61 k = true -> split_once "=" (k +:+ "=" +:+ v) = Some (k, v).
Proof.
  induction k as [|a k IH]; intros Hk; [done|]. apply lacks_cons in Hk as [Ha Hk].
  simpl in *. rewrite bool_decide_eq_false_2; [by rewrite IH|]. by intros <-.
Qed.

(** A query string of parameters, as the clients build it. *)
Definition render_query (params : list (string * string)) : string :=
  String.concat "&" (map (fun '(k, v) => k +:+ "=" +:+ url_encode_component v) params).

(** Query round trip. Reading a key from a query string rendered by percent encoding never
    fails and gives exactly the value of the first parameter of that key, whatever bytes the values
    hold (separators, percent signs, plus signs, non-ASCII text); a key that is absent reads as none. *)
Theorem query_round_trip (params : list (string * string)) (key : string) :
  Forall (fun kv => lacks 38 (fst kv) = true /\ lacks 61 (fst kv) = true /\ utf8_valid (snd kv) = true) params ->
  query_value (render_query params) key = Some (mget key params).
Proof.
  intros Hp. unfold query_value, render_query.
  destruct params as [|p params]; [done|]. change "&" with (String (ascii_of_nat 38) "").
  rewrite split_byte_concat; [|done|].
  - induction Hp as [|[k v] l (Hk & Hk' & Hv) Hl IH]; simpl; [done|].
    rewrite split_once_eq by done. rewrite String.eqb_sym.
    destruct (key == k); [by rewrite decode_query_encoded|done].
  - apply forallb_forall. intros x Hx. apply in_map_iff in Hx as ([k v] & <- & Hin).
    rewrite List.Forall_forall in Hp. destruct (Hp _ Hin) as (Hk & _). simpl in Hk.
    change (byte_of (ascii_of_nat 38)) with 38. rewrite !lacks_app, Hk, encoded_lacks by auto. done.
Qed.

Lemma query_round_trip_witness :
  query_value (render_query [("material", "钢板 A&B=1+1%41"); ("limit", "20")]) "material"
    = Some (Some "钢板 A&B=1+1%41").
Proof.
  apply (query_round_trip [("material", "钢板 A&B=1+1%41"); ("limit", "20")] "material").
  repeat constructor.
Defined.

(** Decoder panic. The query decoder slices its text two bytes behind a percent sign without
    looking for a character boundary: on a valid query value such as percent, letter and a two-byte
    character it panics instead of answering. *)
Theorem query_decoder_panics :
  utf8_valid "%aé" = true /\ decode_query_value "%aé" = None /\ query_value "id=%aé" "id" = None /\
  decode_web_request_path "%aé" = None.
Proof. repeat split; vm_compute; reflexivity. Qed.

(** ** Reading a request in pieces *)

Lemma strip_prefix_app p s t r : strip_prefix p s = Some r -> strip_prefix p (s +:+ t) = Some (r +:+ t).
Proof.
  revert s. induction p as [|a p IH]; intros [|b s] E; simplify_eq/=; [done..|].
  case_bool_decide; [by apply IH|done].
Qed.

Lemma strip_prefix_eq p s r : strip_prefix p s = Some r -> s = p +:+ r.
Proof.
  revert s. induction p as [|a p IH]; intros [|b s] E; simplify_eq/=; [done..|].
  case_bool_decide; [|done]. subst. by rewrite (IH _ E).
Qed.

Lemma strip_prefix_self p r : strip_prefix p (p +:+ r) = Some r.
Proof. induction p as [|a p IH]; simpl; [done|]. by rewrite bool_decide_eq_true_2. Qed.

Lemma strip_prefix_short p s t r : (String.length p <= String.length s)%nat ->
  strip_prefix p (s +:+ t) = Some r -> is_Some (strip_prefix p s).
Proof.
  revert s. induction p as [|a p IH]; intros [|b s] Hl E; simpl in *; [eauto..|lia|].
  case_bool_decide; [|done]. apply (IH s); [lia|done].
Qed.

Lemma split_once_length p s l r : split_once p s = Some (l, r) -> (String.length p <= String.length s)%nat.
Proof.
  revert l r. induction s as [|a s IH]; intros l r E; cbn [split_once] in E.
  - destruct (strip_prefix p "") eqn:Es; [|done]. apply strip_prefix_eq in Es. by destruct p.
  - destruct (strip_prefix p (String a s)) as [rest|] eqn:Es.
    + apply strip_prefix_eq in Es. rewrite Es, string_length_app. lia.
    + destruct (split_once p s) as [[l' r']|]; [|done]. specialize (IH _ _ eq_refl). simpl. lia.
Qed.

(** The first occurrence in a text is the first occurrence in every longer text. *)
Lemma split_once_app p s t l r : split_once p s = Some (l, r) -> split_once p (s +:+ t) = Some (l, r +:+ t).
Proof.
  revert l r. induction s as [|a s IH]; intros l r E.
  - destruct p as [|x p]; [|done]. simpl in E. simplify_eq. by destruct t.
  - change (String a s +:+ t) with (String a (s +:+ t)). pose proof (split_once_length _ _ _ _ E) as Hl.
    cbn [split_once] in *. destruct (strip_prefix p (String a s)) as [rest|] eqn:Es.
    + simplify_eq. apply (strip_prefix_app _ _ t) in Es.
      change (String a s +:+ t) with (String a (s +:+ t)) in Es. by rewrite Es.
    + destruct (split_once p s) as [[l' r']|] eqn:Eo; [|done]. simplify_eq.
      destruct (strip_prefix p (String a (s +:+ t))) as [rest|] eqn:Es2.
      * destruct (strip_prefix_short p (String a s) t rest Hl Es2) as [? ?]. congruence.
      * by rewrite (IH _ _ eq_refl).
Qed.

Lemma split_once_parts p s l r : split_once p s = Some (l, r) -> s = l +:+ p +:+ r.
Proof.
  revert l r. induction s as [|a s IH]; intros l r E; cbn [split_once] in E;
    (destruct (strip_prefix p _) as [rest|] eqn:Es; [apply strip_prefix_eq in Es; by simplify_eq|]); [done|].
  destruct (split_once p s) as [[l' r']|]; [|done]. simplify_eq. by rewrite (IH _ _ eq_refl).
Qed.

Lemma split_once_found p l r : is_Some (split_once p (l +:+ p +:+ r)).
Proof.
  induction l as [|a l [[x y] IH]].
  - change ("" +:+ p +:+ r) with (p +:+ r). pose proof (strip_prefix_self p r) as E.
    destruct (p +:+ r); cbn [split_once]; rewrite E; eauto.
  - change (String a l +:+ p +:+ r) with (String a (l +:+ p +:+ r)). cbn [split_once].
    destruct (strip_prefix p _); [eauto|]. rewrite IH. eauto.
Qed.

(** A prefix of a text that covers a shorter text starts with it. *)
Lemma prefix_covers request extra received rest :
  received +:+ rest = request +:+ extra -> str_len request <= str_len received ->
  exists more, received = request +:+ more.
Proof.
  intros E Hl. apply (f_equal bytes) in E. rewrite !bytes_app in E. unfold str_len in Hl.
  rewrite <- !bytes_length in Hl. exists (of_bytes (drop (length (bytes request)) (bytes received))).
  rewrite <- (of_bytes_bytes received), <- (of_bytes_bytes (request +:+ _)), bytes_app, bytes_of_bytes. f_equal.
  rewrite <- (take_drop (length (bytes request)) (bytes received)) at 1. f_equal.
  - rewrite <- (take_app_le _ (bytes rest)) by lia. by rewrite E, take_app_length.
  - by rewrite of_bytes_bytes.
Qed.

(** A text that ends in its first blank line has it found at its end. *)
Lemma header_found head body : header_end_index (head +:+ body) = Some (str_len head) ->
  forall more, is_Some (header_end_index (head +:+ more)).
Proof.
  unfold header_end_index. intros E more.
  destruct (split_once _ (head +:+ body)) as [[l r]|] eqn:Es; [|done]. injection E as E.
  apply split_once_parts in Es.
  destruct (prefix_covers (l +:+ blank_line) r head body) as (rest & ->).
  - by rewrite Es, string_app_assoc.
  - rewrite str_len_app. unfold str_len at 2. simpl. lia.
  - destruct (split_once_found blank_line l (rest +:+ more)) as [[x y] Ef].
    rewrite !string_app_assoc, Ef. eauto.
Qed.

Lemma header_end_app s t n : header_end_index s = Some n -> header_end_index (s +:+ t) = Some n.
Proof.
  unfold header_end_index. destruct (split_once _ s) as [[l r]|] eqn:E; [|done].
  by rewrite (split_once_app _ _ t _ _ E).
Qed.

Lemma take_bytes_app s t : take_bytes (str_len s) (s +:+ t) = s.
Proof.
  unfold take_bytes, str_len. rewrite bytes_app, Nat2Z.id, <- bytes_length, take_app_length. apply of_bytes_bytes.
Qed.

Definition text_of (chunks : list string) : string := String.concat "" chunks.

Lemma text_of_cons c chunks : text_of (c :: chunks) = c +:+ text_of chunks.
Proof. unfold text_of. destruct chunks; simpl; [by rewrite string_app_nil|done]. Qed.

(** Requests arrive whole. A request whose header is at most 1 MiB and whose length is its
    header plus the announced body, within the limit, is returned byte for byte no matter how the
    stream is cut into pieces, what follows it on the connection or how the connection ends. *)
Theorem request_read_whole (limit : Z) (head body extra : string) (chunks : list string) (after : list ReadEvent) :
  let request := head +:+ body in
  header_end_index request = Some (str_len head) ->
  content_length_from_headers (from_utf8_lossy head) = str_len body ->
  str_len head <= header_limit -> str_len request <= limit -> str_len request <= u64_max ->
  Forall (fun c => c <> "") chunks -> text_of chunks = request +:+ extra ->
  read_http_request_go limit "" (map ReadBytes chunks ++ after) = Some request.
Proof.
  intros request Hend Hlen Hhead Hlimit Hmax Hne Htext.
  assert (Hgen : forall received, received +:+ text_of chunks = request +:+ extra ->
    (str_len received < str_len request) ->
    read_http_request_go limit received (map ReadBytes chunks ++ after) = Some request).
  2: { pose proof (str_len_nonneg request). destruct (Z.eq_dec (str_len request) 0) as [E0|].
       - destruct request; [|unfold str_len in E0; simpl in E0; lia]. by vm_compute in Hend.
       - apply Hgen; [done|]. unfold str_len at 1. simpl. lia. }
  clear Htext. induction Hne as [|chunk chunks Hc Hne IH]; intros received Htext Hshort.
  { simpl in Htext. rewrite string_app_nil in Htext. apply (f_equal str_len) in Htext.
    rewrite str_len_app in Htext. pose proof (str_len_nonneg extra). lia. }
  cbn [map app read_http_request_go]. destruct (is_empty chunk) eqn:Ee; [by apply is_empty_true in Ee|].
  rewrite text_of_cons, <- string_app_assoc in Htext.
  destruct (header_end_index (received +:+ chunk)) as [n|] eqn:Eh.
  - pose proof (header_end_app _ (text_of chunks) _ Eh) as Eh'. rewrite Htext in Eh'.
    rewrite (header_end_app _ extra _ Hend) in Eh'. simplify_eq.
    assert (Hn : str_len head <= str_len (received +:+ chunk)).
    { unfold header_end_index in Eh. destruct (split_once _ _) as [[l r]|] eqn:Es; [|done].
      injection Eh as <-. apply split_once_parts in Es. rewrite Es, !str_len_app.
      pose proof (str_len_nonneg r). unfold str_len at 3. simpl. lia. }
    destruct (prefix_covers head (body +:+ extra) (received +:+ chunk) (text_of chunks)) as (more & Emore).
    { rewrite Htext. unfold request. by rewrite string_app_assoc. }
    { done. }
    assert (Htake : take_bytes (str_len head) (received +:+ chunk) = head) by (rewrite Emore; apply take_bytes_app).
    cbv zeta. rewrite Htake, Hlen.
    assert (Etotal : wrap_u64 (str_len head + str_len body) = str_len request).
    { unfold request. rewrite <- str_len_app. unfold wrap_u64. apply Z.mod_small.
      pose proof (str_len_nonneg (head +:+ body)). unfold u64_max in Hmax. unfold request in Hmax. lia. }
    rewrite Etotal. destruct (_ >=? _) eqn:Ege.
    + destruct (prefix_covers request extra (received +:+ chunk) (text_of chunks) Htext) as (more' & ->); [lia|].
      by rewrite take_bytes_app.
    + destruct (_ >? limit) eqn:Egt; [lia|]. apply IH; [done|lia].
  - destruct (Z.le_gt_cases (str_len request) (str_len (received +:+ chunk))) as [Hge|Hlt].
    + destruct (prefix_covers request extra (received +:+ chunk) (text_of chunks) Htext Hge) as (more & Em).
      by rewrite Em, (header_end_app _ more _ Hend) in Eh.
    + destruct (Z.le_gt_cases (str_len head) (str_len (received +:+ chunk))) as [Hge|Hlt'].
      * destruct (prefix_covers head (body +:+ extra) (received +:+ chunk) (text_of chunks)) as (more & Em);
          [by rewrite Htext; unfold request; rewrite string_app_assoc|done|].
        destruct (header_found head body Hend more) as [? Hf]. by rewrite Em, Hf in Eh.
      * destruct (_ >? header_limit) eqn:Egt; [lia|by apply IH].
Qed.

Lemma request_read_whole_witness :
  let head := "POST /api/production/steel-in HTTP/1.1" +:+ crlf +:+ "Content-Length: 5" +:+ blank_line in
  read_http_request_go request_limit "" (map ReadBytes ["POST /api/production/steel-in HTTP/1.1" +:+ crlf;
    "Content-Length: 5" +:+ crlf +:+ String cr ""; String lf "{}"; "   GET"] ++ [ReadFailed]) = Some (head +:+ "{}   ").
Proof.
  intros head.
  apply (request_read_whole request_limit head "{}   " "GET"); try (vm_compute; congruence).
  repeat constructor; discriminate.
Defined.
