(* ===== verification/Db.v ===== *)
(** * The service database

    The rows of app/service/src/db/entities.rs the modelled components use, and the monad the
    [db::] functions run in. A database call of the code is one statement: it can fail before it
    takes effect, fail after it took effect (a lost acknowledgement), and other threads and
    processes may have changed the database just before it. These three are the [DbEnv] of a run,
    so that theorems can quantify over every fault and every interference, or exclude them. *)

From S2P Require Import Prelude.
From Stdlib Require Import SpecFloat.

(** ** Rows (db/entities.rs) *)

(** [production_task::Model]. *)
Record Task := mkTask {
  t_id : string;
  t_idempotency_key : string;
  t_kind : string;
  t_material_id : string;
  t_session_id : string;
  t_chain_id : string;
  t_depends_on_task_id : string;
  t_dependency_policy : string;
  t_blocked_reason : string;
  t_status : string;
  t_phase : string;
  t_payload : string;
  t_result : string;
  t_error : string;
  t_actor : string;
  t_progress : Z;
  t_attempts : Z;
  t_max_attempts : Z;
  t_cancel_requested : bool;
  t_created_at : string;
  t_started_at : string;
  t_finished_at : string;
  t_updated_at : string;
}.

(** [calibration_operation::Model]. *)
Record CalibrationOperation := mkCalibrationOperation {
  o_id : string;
  o_kind : string;
  o_request_hash : string;
  o_request_json : string;
  o_status : string;
  o_provider_http_status : Z;
  o_provider_response_body : string;
  o_error : string;
  o_actor : string;
  o_parent_operation_id : string;
  o_reconciliation_outcome : string;
  o_reconciliation_id : string;
  o_resolved_by : string;
  o_resolved_at : string;
  o_row_version : Z;
  o_created_at : string;
  o_dispatch_started_at : string;
  o_finished_at : string;
  o_updated_at : string;
}.

(** [material_session::Model]. *)
Record MaterialSession := mkMaterialSession {
  m_id : string;
  m_material_id : string;
  m_source : string;
  m_status : string;
  m_control_mode : string;
  m_trigger_mode : string;
  m_steel_type : string;
  m_width_mm : spec_float;
  m_length_mm : spec_float;
  m_thickness_mm : spec_float;
  m_client : string;
  m_hard : string;
  m_storage_root : string;
  m_started_at : string;
  m_finished_at : string;
  m_updated_at : string;
  m_raw_payload : string;
}.

(** [audit_log::Model]. *)
Record AuditRow := mkAuditRow {
  a_id : string;
  a_actor : string;
  a_action : string;
  a_target : string;
  a_detail : string;
  a_level : string;
  a_created_at : string;
}.

(** [production_inspection::Model]. *)
Record ProductionInspection := mkProductionInspection {
  pi_id : string;
  pi_material_id : string;
  pi_session_id : string;
  pi_status : string;
  pi_storage_root : string;
  pi_summary_path : string;
  pi_started_at : string;
  pi_finished_at : string;
  pi_capture_count : Z;
  pi_defect_count : Z;
  pi_source_mode : string;
  pi_source_dataset_id : string;
  pi_source_run_id : string;
  pi_source_session_id : string;
  pi_source_content_hash : string;
  pi_replayed : bool;
  pi_production_eligible : bool;
  pi_raw_payload : string;
}.

(** [capture_file::Model]. *)
Record CaptureFile := mkCaptureFile {
  cf_id : string;
  cf_inspection_id : string;
  cf_session_id : string;
  cf_material_id : string;
  cf_camera_id : string;
  cf_camera_ip : string;
  cf_data_name : string;
  cf_sequence_no : Z;
  cf_file_type : string;
  cf_path : string;
  cf_metadata_path : string;
  cf_created_at : string;
}.

#[global] Instance capture_file_eq_dec : EqDecision CaptureFile.
Proof. solve_decision. Defined.

(** A table is the list of its rows in physical order, the order an unordered query returns. *)
Record Database := mkDatabase {
  production_task : list Task;
  calibration_operation : list CalibrationOperation;
  material_session : list MaterialSession;
  audit_log : list AuditRow;
}.

Definition with_tasks (ts : list Task) (d : Database) : Database :=
  mkDatabase ts (calibration_operation d) (material_session d) (audit_log d).
Definition with_calibrations (cs : list CalibrationOperation) (d : Database) : Database :=
  mkDatabase (production_task d) cs (material_session d) (audit_log d).
Definition with_audit (rows : list AuditRow) (d : Database) : Database :=
  mkDatabase (production_task d) (calibration_operation d) (material_session d) rows.

(** ** Runs *)

(** [sea_orm::DbErr], as far as the code distinguishes it. *)
Inductive DbErr :=
| DbUnavailable (message : string)
| UniqueViolation (message : string)
| RecordNotUpdated.

(** [DbErr::to_string]. *)
Definition db_err_text (e : DbErr) : string :=
  match e with
  | DbUnavailable message => message
  | UniqueViolation message => message
  | RecordNotUpdated => "None of the records are updated"
  end.

Inductive Fault :=
| NoFault
| FailBefore (message : string)   (* the statement had no effect *)
| FailAfter (message : string).   (* it took effect, its answer was lost *)

(** What surrounds a run: the fate of each statement, the clock, and what others did to the
    database just before each statement. Statements and clock readings are numbered from 0. *)
Class DbEnv := mkDbEnv {
  db_fault : nat -> Fault;
  db_clock : nat -> Z;
  db_other : nat -> Database -> Database;
}.

Record DbState := mkDbState { db : Database; step : nat }.

Inductive Outcome (A : Type) :=
| Done (a : A)
| Failed (e : DbErr)
| OutOfFuel.
Arguments Done {A} a.
Arguments Failed {A} e.
Arguments OutOfFuel {A}.

(** A database computation: an outcome and the state after it. *)
Definition DB (A : Type) : Type := DbState -> Outcome A * DbState.

Definition db_ret {A} (a : A) : DB A := fun s => (Done a, s).
Definition db_fail {A} (e : DbErr) : DB A := fun s => (Failed e, s).
Definition db_stuck {A} : DB A := fun s => (OutOfFuel, s).
Definition db_bind {A B} (m : DB A) (f : A -> DB B) : DB B := fun s =>
  match m s with
  | (Done a, s') => f a s'
  | (Failed e, s') => (Failed e, s')
  | (OutOfFuel, s') => (OutOfFuel, s')
  end.

Declare Scope db_scope.
Delimit Scope db_scope with db.
Bind Scope db_scope with DB.
Notation "'let!' x := m 'in' k" := (db_bind m (fun x => k))
  (at level 10, x binder, m at level 100, k at level 200,
   format "'[v' 'let!'  x  :=  m  'in' '/' k ']'") : db_scope.
#[global] Open Scope db_scope.

(** Reading the size of a table to bound a loop: not a statement, no effect. *)
Definition db_peek {A} (f : Database -> A) : DB A := fun s => (Done (f (db s)), s).

Section Statements.
Context `{DbEnv}.

(** One statement. [f] gives its answer and the new database, or refuses. *)
Definition stmt {A} (f : Database -> Result (A * Database) DbErr) : DB A := fun s =>
  let d := db_other (step s) (db s) in
  match db_fault (step s) with
  | FailBefore message => (Failed (DbUnavailable message), mkDbState d (S (step s)))
  | NoFault =>
      match f d with
      | Ok (a, d') => (Done a, mkDbState d' (S (step s)))
      | Err e => (Failed e, mkDbState d (S (step s)))
      end
  | FailAfter message =>
      match f d with
      | Ok (_, d') => (Failed (DbUnavailable message), mkDbState d' (S (step s)))
      | Err e => (Failed e, mkDbState d (S (step s)))
      end
  end.

(** A query: a statement that changes nothing. *)
Definition query {A} (f : Database -> A) : DB A := stmt (fun d => Ok (f d, d)).

(** db/mod.rs [now_millis_string]. *)
Definition now_millis_string : DB string := fun s =>
  (Done (dec (Z.max 0 (db_clock (step s)))), mkDbState (db s) (S (step s))).

(** db/mod.rs [append_audit_log]. The row id comes from the nanosecond clock. *)
Definition append_audit_log (actor action target detail level : string) : DB unit :=
  let! nanos := now_millis_string in
  let! now := now_millis_string in
  let id := "AUD-" +:+ nanos in
  stmt (fun d =>
    if existsb (fun r => a_id r == id) (audit_log d)
    then Err (UniqueViolation "audit_log.id")
    else Ok (tt, with_audit (audit_log d ++ [mkAuditRow id actor action target detail level now]) d)).

End Statements.

(** ** Tables *)

(** Row order of the ordered queries: [(key, id)] lexicographically, as text. *)
Definition key_le (p q : string * string) : Prop :=
  if fst p == fst q then String.le (snd p) (snd q) else String.le (fst p) (fst q).

#[global] Instance key_le_dec : RelDecision key_le.
Proof. intros p q. unfold key_le. destruct (fst p == fst q); apply _. Defined.

#[global] Instance key_le_total : Total key_le.
Proof.
  intros [a b] [c e]. unfold key_le. simpl. rewrite (String.eqb_sym c a).
  destruct (a == c); apply total; apply _.
Qed.

#[global] Instance key_le_refl : Reflexive key_le.
Proof. intros [a b]. unfold key_le. simpl. by rewrite String.eqb_refl. Qed.

#[global] Instance key_le_antisymm : AntiSymm (=) key_le.
Proof.
  intros [a b] [c e]. unfold key_le. simpl. rewrite (String.eqb_sym c a).
  destruct (String.eqb_spec a c) as [->|Hac]; intros H1 H2.
  - f_equal. by apply (anti_symm String.le).
  - destruct Hac. by apply (anti_symm String.le).
Qed.

#[global] Instance key_le_trans : Transitive key_le.
Proof.
  intros [a b] [c e] [g h]. unfold key_le. simpl.
  destruct (String.eqb_spec a c) as [->|Hac]; [destruct (String.eqb_spec c g); [apply transitivity|done]|].
  destruct (String.eqb_spec c g) as [->|Hcg].
  - rewrite (proj2 (String.eqb_neq a g) Hac). done.
  - intros H1 H2. destruct (String.eqb_spec a g) as [->|]; [|by etrans].
    destruct Hac. by apply (anti_symm String.le).
Qed.

Section Tables.
Context {R : Type}.

(** Rows in ascending and descending order of a key. *)
Definition asc_le (key : R -> string * string) (x y : R) : Prop := key_le (key x) (key y).
Definition desc_le (key : R -> string * string) (x y : R) : Prop := key_le (key y) (key x).

#[global] Instance asc_le_dec key : RelDecision (asc_le key).
Proof. intros x y. apply key_le_dec. Defined.
#[global] Instance desc_le_dec key : RelDecision (desc_le key).
Proof. intros x y. apply key_le_dec. Defined.
#[global] Instance asc_le_total key : Total (asc_le key).
Proof. intros x y. apply key_le_total. Qed.
#[global] Instance asc_le_trans key : Transitive (asc_le key).
Proof. intros x y z. apply key_le_trans. Qed.

Definition order_asc (key : R -> string * string) (l : list R) : list R :=
  merge_sort (asc_le key) l.
Definition order_desc (key : R -> string * string) (l : list R) : list R :=
  merge_sort (desc_le key) l.

(** [update_many]: the rows that satisfy the filter are replaced; their number is returned. *)
Definition update_where (p : R -> bool) (f : R -> R) (l : list R) : list R :=
  map (fun r => if p r then f r else r) l.
Definition count_where (p : R -> bool) (l : list R) : Z := Z.of_nat (length (List.filter p l)).

End Tables.

(** ** Reasoning about runs *)

(** Running out of fuel is the only outcome that says nothing about the code. *)
Definition finishes {A} (r : Outcome A * DbState) : Prop := fst r <> OutOfFuel.

(** *** Rely and guarantee *)

Section Guarantee.
Context `{DbEnv} (I : Database -> Prop) (R : Database -> Database -> Prop).

(** From a database in [I], every run of [m] (finished or not, and whatever fails on the way) ends
    in [I] and relates the two databases by [R]; an answer it gives satisfies [Q]. *)
Definition Guarantee {A} (m : DB A) (Q : A -> Prop) : Prop := forall s, I (db s) ->
  I (db (snd (m s))) /\ R (db s) (db (snd (m s))) /\ (forall a, fst (m s) = Done a -> Q a).

(** The others keep [I] and only do what [R] allows. *)
Class Rely : Prop := {
  rely_preorder :: PreOrder R;
  rely_other : forall n d, I d -> I (db_other n d) /\ R d (db_other n d);
}.

Context `{!Rely}.

Lemma g_ret {A} (a : A) (Q : A -> Prop) : Q a -> Guarantee (db_ret a) Q.
Proof. intros HQ s Hs. split_and!; [done|reflexivity|by intros ? [= <-]]. Qed.

Lemma g_stuck {A} (Q : A -> Prop) : Guarantee db_stuck Q.
Proof. intros s Hs. split_and!; [done|reflexivity|by intros ? [=]]. Qed.

Lemma g_peek {A} (f : Database -> A) (Q : A -> Prop) :
  (forall d, I d -> Q (f d)) -> Guarantee (db_peek f) Q.
Proof. intros HQ s Hs. split_and!; [done|reflexivity|intros ? [= <-]; auto]. Qed.

Lemma g_bind {A B} (m : DB A) (f : A -> DB B) (Q : A -> Prop) (Q' : B -> Prop) :
  Guarantee m Q -> (forall a, Q a -> Guarantee (f a) Q') -> Guarantee (db_bind m f) Q'.
Proof.
  intros Hm Hf s Hs. unfold db_bind. destruct (Hm s Hs) as (HI & HR & HQ).
  destruct (m s) as [[a|e|] s1]; simpl in *; [|split_and!; by try intros ? [=]..].
  destruct (Hf a (HQ a eq_refl) s1 HI) as (HI' & HR' & HQ').
  split_and!; [done|by etrans|done].
Qed.

Lemma g_stmt {A} (f : Database -> Result (A * Database) DbErr) (Q : A -> Prop) :
  (forall d a d', I d -> f d = Ok (a, d') -> I d' /\ R d d' /\ Q a) -> Guarantee (stmt f) Q.
Proof.
  intros Hf s Hs. unfold stmt. destruct (rely_other (step s) (db s) Hs) as [HI HR].
  destruct (db_fault (step s)); simpl; [|split_and!; by try intros ? [=]|];
    (destruct (f _) as [[a d']|e] eqn:E; simpl; [|split_and!; by try intros ? [=]]);
    destruct (Hf _ _ _ HI E) as (HI' & HR' & HQ);
    (split_and!; [done|by etrans|intros ? [=]; congruence]).
Qed.

Lemma g_query {A} (f : Database -> A) (Q : A -> Prop) :
  (forall d, I d -> Q (f d)) -> Guarantee (query f) Q.
Proof. intros HQ. apply g_stmt. intros d a d' Hd [= <- <-]. split_and!; [done|reflexivity|auto]. Qed.

Lemma g_now : Guarantee now_millis_string (fun now => now <> EmptyString).
Proof.
  intros s Hs. split_and!; [done|reflexivity|]. intros a [= <-]. apply dec_not_empty.
Qed.

Lemma g_weaken {A} (m : DB A) (Q Q' : A -> Prop) :
  Guarantee m Q -> (forall a, Q a -> Q' a) -> Guarantee m Q'.
Proof. intros Hm HQ s Hs. destruct (Hm s Hs) as (?&?&?). split_and!; eauto. Qed.

End Guarantee.

(** ** Runs nobody disturbs *)

(** No statement fails and nobody else writes to the database. *)
Class Quiet (env : DbEnv) : Prop := {
  quiet_fault : forall n, db_fault n = NoFault;
  quiet_other : forall n d, db_other n d = d;
}.

Section QuietRuns.
Context `{Quiet}.

Lemma quiet_stmt {A} (f : Database -> Result (A * Database) DbErr) s :
  stmt f s =
  match f (db s) with
  | Ok (a, d') => (Done a, mkDbState d' (S (step s)))
  | Err e => (Failed e, mkDbState (db s) (S (step s)))
  end.
Proof. unfold stmt. by rewrite quiet_fault, quiet_other. Qed.

Lemma quiet_query {A} (f : Database -> A) s :
  query f s = (Done (f (db s)), mkDbState (db s) (S (step s))).
Proof. unfold query. by rewrite quiet_stmt. Qed.

(** Total correctness of a quiet run: from database [d] it ends with an answer and a database that
    satisfy [Q]. *)
Definition wp {A} (m : DB A) (Q : A -> Database -> Prop) (d : Database) : Prop :=
  forall n, exists a s', m (mkDbState d n) = (Done a, s') /\ Q a (db s').

Lemma wp_ret {A} (a : A) (Q : A -> Database -> Prop) d : Q a d -> wp (db_ret a) Q d.
Proof. intros HQ n. by eexists _, _. Qed.

Lemma wp_bind {A B} (m : DB A) (f : A -> DB B) (Q : B -> Database -> Prop) d :
  wp m (fun a => wp (f a) Q) d -> wp (db_bind m f) Q d.
Proof.
  intros Hm n. destruct (Hm n) as (a & [d1 n1] & E & HQ). unfold db_bind. rewrite E. apply HQ.
Qed.

Lemma wp_mono {A} (m : DB A) (Q Q' : A -> Database -> Prop) d :
  wp m Q d -> (forall a d', Q a d' -> Q' a d') -> wp m Q' d.
Proof. intros Hm HQ n. destruct (Hm n) as (a & s & E & Ha). eexists _, _. eauto. Qed.

Lemma wp_peek {A} (f : Database -> A) (Q : A -> Database -> Prop) d : Q (f d) d -> wp (db_peek f) Q d.
Proof. intros HQ n. by eexists _, _. Qed.

Lemma wp_now (Q : string -> Database -> Prop) d :
  (forall now, now <> EmptyString -> Q now d) -> wp now_millis_string Q d.
Proof. intros HQ n. eexists _, _. split; [reflexivity|]. apply HQ, dec_not_empty. Qed.

Lemma wp_stmt {A} (f : Database -> Result (A * Database) DbErr) (Q : A -> Database -> Prop) d a d' :
  f d = Ok (a, d') -> Q a d' -> wp (stmt f) Q d.
Proof. intros E HQ n. rewrite quiet_stmt. simpl. rewrite E. by eexists _, _. Qed.

Lemma wp_query {A} (f : Database -> A) (Q : A -> Database -> Prop) d : Q (f d) d -> wp (query f) Q d.
Proof. intros HQ. by eapply wp_stmt. Qed.

(** What [wp] says of one run. *)
Lemma wp_run {A} (m : DB A) (Q : A -> Database -> Prop) s :
  wp m Q (db s) -> exists a s', m s = (Done a, s') /\ Q a (db s').
Proof. intros Hm. destruct s as [d n]. apply Hm. Qed.

End QuietRuns.

(** A quiet environment whose clock shows [now]. *)
Definition quiet_env (now : Z) : DbEnv := mkDbEnv (fun _ => NoFault) (fun _ => now) (fun _ d => d).

#[export] Instance quiet_env_quiet now : Quiet (quiet_env now).
Proof. by split. Qed.

