(* ===== verification/TaskStore.v ===== *)
(** * The production task store

    The production-task functions of app/service/src/db/mod.rs, one definition per function, each
    a sequence of database statements in the order the code issues them. A [while] or [loop] of the
    code takes as fuel one more than the number of task rows at its start; TaskGraph.v and
    TaskClaim.v show that this is enough when nobody else writes to the table. *)

From S2P Require Import Prelude Db.

(** ** Rows and filters *)

Definition task_with_id (id : string) (t : Task) : bool := t_id t == id.
Definition task_with_status (status : string) (t : Task) : bool := t_status t == status.

(** The [(created_at, id)] order of the ordered queries. *)
Definition task_key (t : Task) : string * string := (t_created_at t, t_id t).

(** db/mod.rs [production_task_status_is_terminal]. *)
Definition production_task_status_is_terminal (status : string) : bool :=
  one_of status ["succeeded"; "failed"; "cancelled"; "interrupted"; "blocked"].

(** The terminal states [retry] accepts and [finish] propagates. *)
Definition unsuccessful (status : string) : bool :=
  one_of status ["failed"; "cancelled"; "interrupted"; "blocked"].

(** [ProductionTaskInput]. *)
Record ProductionTaskInput := mkProductionTaskInput {
  in_id : string;
  in_idempotency_key : string;
  in_kind : string;
  in_material_id : string;
  in_session_id : string;
  in_chain_id : string;
  in_depends_on_task_id : string;
  in_dependency_policy : string;
  in_payload : string;
  in_actor : string;
  in_max_attempts : Z;
}.

(** [ProductionTaskFilter] and [ProductionTaskPage]. *)
Record ProductionTaskFilter := mkProductionTaskFilter {
  f_status : option string;
  f_kind : option string;
  f_limit : option Z;
  f_offset : option Z;
}.
Record ProductionTaskPage := mkProductionTaskPage {
  p_tasks : list Task;
  p_total : Z;
  p_limit : Z;
  p_offset : Z;
}.

(** [ProductionTaskDependencyState]. *)
Inductive DependencyState :=
| Ready
| Waiting
| Blocked (reason : string).

(** ** Row updates: the columns each statement sets *)

Definition new_task (input : ProductionTaskInput) (now : string) : Task :=
  {| t_id := in_id input;
     t_idempotency_key := in_idempotency_key input;
     t_kind := in_kind input;
     t_material_id := in_material_id input;
     t_session_id := in_session_id input;
     t_chain_id := in_chain_id input;
     t_depends_on_task_id := in_depends_on_task_id input;
     t_dependency_policy := in_dependency_policy input;
     t_blocked_reason := "";
     t_status := "queued";
     t_phase := "queued";
     t_payload := in_payload input;
     t_result := "";
     t_error := "";
     t_actor := in_actor input;
     t_progress := 0;
     t_attempts := 0;
     t_max_attempts := clamp (in_max_attempts input) 1 10;
     t_cancel_requested := false;
     t_created_at := now;
     t_started_at := "";
     t_finished_at := "";
     t_updated_at := now |}.

(** The columns a row update may set; the other columns of [t] are kept. *)
Definition task_update (t : Task) (blocked_reason status phase result error : string)
    (progress attempts max_attempts : Z) (cancel_requested : bool)
    (started_at finished_at updated_at : string) : Task :=
  {| t_id := t_id t;
     t_idempotency_key := t_idempotency_key t;
     t_kind := t_kind t;
     t_material_id := t_material_id t;
     t_session_id := t_session_id t;
     t_chain_id := t_chain_id t;
     t_depends_on_task_id := t_depends_on_task_id t;
     t_dependency_policy := t_dependency_policy t;
     t_blocked_reason := blocked_reason;
     t_status := status;
     t_phase := phase;
     t_payload := t_payload t;
     t_result := result;
     t_error := error;
     t_actor := t_actor t;
     t_progress := progress;
     t_attempts := attempts;
     t_max_attempts := max_attempts;
     t_cancel_requested := cancel_requested;
     t_created_at := t_created_at t;
     t_started_at := started_at;
     t_finished_at := finished_at;
     t_updated_at := updated_at |}.

(** The row after [mark_production_task_blocked]. *)
Definition blocked_row (reason now : string) (t : Task) : Task :=
  task_update t reason "blocked" "blocked" (t_result t) reason
    0 (t_attempts t) (t_max_attempts t) (t_cancel_requested t) (t_started_at t) now now.

(** The row after a blocked descendant was queued again. *)
Definition requeued_row (now : string) (t : Task) : Task :=
  task_update t "" "queued" "waiting-dependency" (t_result t) ""
    (t_progress t) (t_attempts t) (t_max_attempts t) (t_cancel_requested t) (t_started_at t) "" now.

(** The row after it was claimed; [attempts] is what the claim read plus one. *)
Definition claimed_row (attempts : Z) (now : string) (t : Task) : Task :=
  task_update t "" "running" "executing" (t_result t) (t_error t)
    5 attempts (t_max_attempts t) (t_cancel_requested t) now "" now.

Definition progress_row (phase : string) (progress : Z) (now : string) (t : Task) : Task :=
  task_update t (t_blocked_reason t) (t_status t) (trim phase) (t_result t) (t_error t)
    (clamp progress 0 99) (t_attempts t) (t_max_attempts t) (t_cancel_requested t)
    (t_started_at t) (t_finished_at t) now.

Definition finished_row (status : string) (progress : Z) (result error now : string) (t : Task) : Task :=
  task_update t (t_blocked_reason t) status status result error
    (clamp progress 0 100) (t_attempts t) (t_max_attempts t) (t_cancel_requested t)
    (t_started_at t) (if production_task_status_is_terminal status then now else "") now.

Definition cancel_queued_row (now : string) (t : Task) : Task :=
  task_update t (t_blocked_reason t) "cancelled" "cancelled" (t_result t) "cancelled before execution"
    (t_progress t) (t_attempts t) (t_max_attempts t) true (t_started_at t) now now.

Definition cancel_running_row (now : string) (t : Task) : Task :=
  task_update t (t_blocked_reason t) (t_status t) (t_phase t) (t_result t) (t_error t)
    (t_progress t) (t_attempts t) (t_max_attempts t) true (t_started_at t) (t_finished_at t) now.

Definition retried_row (max_attempts : Z) (now : string) (t : Task) : Task :=
  task_update t "" "queued" "queued" "" "" 0 (t_attempts t) max_attempts false "" "" now.

Definition recovered_row (cancelled : bool) (now : string) (t : Task) : Task :=
  let status := if cancelled then "cancelled" else "interrupted" in
  task_update t (t_blocked_reason t) status status (t_result t)
    (if cancelled then "cancelled during service restart"
     else "execution interrupted by service restart; explicit retry required")
    0 (t_attempts t) (t_max_attempts t) (t_cancel_requested t) "" now now.

(** ** Statements *)

Section Store.
Context `{DbEnv}.

(** [Entity::find()..all]. *)
Definition tasks_where (p : Task -> bool) : DB (list Task) :=
  query (fun d => List.filter p (production_task d)).

(** [Entity::update_many()..exec]; the number of rows affected. *)
Definition update_tasks (p : Task -> bool) (f : Task -> Task) : DB Z :=
  stmt (fun d => Ok (count_where p (production_task d),
                     with_tasks (update_where p f (production_task d)) d)).

(** [ActiveModel::update]: sets the changed columns of the row with this primary key and returns
    the row; fails when there is none. *)
Definition update_task_by_id (id : string) (f : Task -> Task) : DB Task :=
  stmt (fun d =>
    match List.find (task_with_id id) (production_task d) with
    | Some t => Ok (f t, with_tasks (update_where (task_with_id id) f (production_task d)) d)
    | None => Err RecordNotUpdated
    end).

(** db/mod.rs [insert_production_task]. The primary key and the unique index on the idempotency
    key refuse a duplicate. *)
Definition insert_production_task (input : ProductionTaskInput) : DB Task :=
  let! now := now_millis_string in
  let row := new_task input now in
  stmt (fun d =>
    if existsb (task_with_id (t_id row)) (production_task d)
    then Err (UniqueViolation "production_task.id")
    else if existsb (fun t => t_idempotency_key t == t_idempotency_key row) (production_task d)
    then Err (UniqueViolation "production_task.idempotency_key")
    else Ok (row, with_tasks (production_task d ++ [row]) d)).

(** db/mod.rs [find_production_task]. *)
Definition find_production_task (id : string) : DB (option Task) :=
  query (fun d => List.find (task_with_id id) (production_task d)).

(** db/mod.rs [find_production_task_by_idempotency_key]. *)
Definition find_production_task_by_idempotency_key (key : string) : DB (option Task) :=
  if is_blank key then db_ret None
  else query (fun d =>
    head (order_desc (fun t => (t_created_at t, ""))
            (List.filter (fun t => t_idempotency_key t == key) (production_task d)))).

(** db/mod.rs [latest_production_task_in_chain]. *)
Definition latest_production_task_in_chain (chain_id : string) : DB (option Task) :=
  if is_blank chain_id then db_ret None
  else query (fun d =>
    head (order_desc task_key
            (List.filter (fun t => t_chain_id t == chain_id) (production_task d)))).

(** db/mod.rs [production_task_dependency_state]. *)
Definition production_task_dependency_state (task : Task) : DB DependencyState :=
  if is_blank (t_depends_on_task_id task) then db_ret Ready
  else if t_depends_on_task_id task == t_id task
  then db_ret (Blocked ("dependency_cycle:" +:+ t_id task))
  else
    let! found := find_production_task (t_depends_on_task_id task) in
    match found with
    | None => db_ret (Blocked ("dependency_not_found:" +:+ t_depends_on_task_id task))
    | Some dependency =>
        if (t_chain_id dependency != t_chain_id task)
           || (t_session_id dependency != t_session_id task)
           || (t_material_id dependency != t_material_id task)
        then db_ret (Blocked ("dependency_chain_mismatch:" +:+ t_id dependency))
        else if t_dependency_policy task == "always-run"
        then db_ret (if production_task_status_is_terminal (t_status dependency) then Ready else Waiting)
        else if t_status dependency == "succeeded" then db_ret Ready
        else if unsuccessful (t_status dependency)
        then db_ret (Blocked ("dependency_" +:+ t_status dependency +:+ ":" +:+ t_id dependency))
        else db_ret Waiting
    end.

(** db/mod.rs [mark_production_task_blocked]. *)
Definition mark_production_task_blocked (id reason : string) : DB bool :=
  let! now := now_millis_string in
  let! affected := update_tasks (fun t => task_with_id id t && task_with_status "queued" t)
                     (blocked_row reason now) in
  db_ret (affected =? 1).

(** db/mod.rs [propagate_production_task_dependency_failure]: the inner [for], then the [while]
    over the frontier, whose last element comes first here. *)
Fixpoint block_dependents (reason : string) (dependents : list Task) (blocked : Z)
    (frontier : list string) : DB (Z * list string) :=
  match dependents with
  | [] => db_ret (blocked, frontier)
  | dependent :: rest =>
      let! marked := mark_production_task_blocked (t_id dependent) reason in
      if marked then block_dependents reason rest (sat_add u64_max blocked 1) (t_id dependent :: frontier)
      else block_dependents reason rest blocked frontier
  end.

Fixpoint propagate_go (fuel : nat) (frontier : list string) (blocked : Z) : DB Z :=
  match frontier with
  | [] => db_ret blocked
  | parent :: frontier' =>
      match fuel with
      | O => db_stuck
      | S fuel' =>
          let! dependents := tasks_where (fun t =>
            (t_depends_on_task_id t == parent) && (t_dependency_policy t == "require-success")
            && task_with_status "queued" t) in
          let! found := find_production_task parent in
          let parent_status := unwrap_or (option_map t_status found) "not_found" in
          let reason := "dependency_" +:+ parent_status +:+ ":" +:+ parent in
          let! next := block_dependents reason dependents blocked frontier' in
          propagate_go fuel' (snd next) (fst next)
      end
  end.

Definition propagate_production_task_dependency_failure (parent_id : string) : DB Z :=
  let! rows := db_peek (fun d => length (production_task d)) in
  propagate_go (S rows) [parent_id] 0.

(** db/mod.rs [requeue_blocked_production_task_descendants]. *)
Fixpoint requeue_dependents (dependents : list Task) (requeued : Z) (frontier : list string)
    : DB (Z * list string) :=
  match dependents with
  | [] => db_ret (requeued, frontier)
  | dependent :: rest =>
      let! now := now_millis_string in
      let! affected := update_tasks
        (fun t => task_with_id (t_id dependent) t && task_with_status "blocked" t)
        (requeued_row now) in
      if affected =? 1
      then requeue_dependents rest (sat_add u64_max requeued 1) (t_id dependent :: frontier)
      else requeue_dependents rest requeued frontier
  end.

Fixpoint requeue_go (fuel : nat) (frontier : list string) (requeued : Z) : DB Z :=
  match frontier with
  | [] => db_ret requeued
  | parent :: frontier' =>
      match fuel with
      | O => db_stuck
      | S fuel' =>
          let! dependents := tasks_where (fun t =>
            (t_depends_on_task_id t == parent) && task_with_status "blocked" t) in
          let! next := requeue_dependents dependents requeued frontier' in
          requeue_go fuel' (snd next) (fst next)
      end
  end.

Definition requeue_blocked_production_task_descendants (parent_id : string) : DB Z :=
  let! rows := db_peek (fun d => length (production_task d)) in
  requeue_go (S rows) [parent_id] 0.

(** db/mod.rs [count_open_production_tasks]. *)
Definition open_status (status : string) : bool := one_of status ["queued"; "running"].
Definition count_open_production_tasks : DB Z :=
  query (fun d => count_where (fun t => open_status (t_status t)) (production_task d)).

(** db/mod.rs [count_unresolved_production_tasks_for_session]. *)
Definition count_unresolved_production_tasks_for_session (session_id : string) : DB Z :=
  query (fun d => count_where (fun t =>
    (t_session_id t == session_id)
    && one_of (t_status t) ["queued"; "running"; "failed"; "interrupted"; "blocked"])
    (production_task d)).

(** db/mod.rs [latest_unresolved_production_task]. *)
Definition latest_unresolved_production_task (material_id : option string) : DB (option Task) :=
  query (fun d =>
    let unresolved := List.filter (fun t =>
      one_of (t_status t) ["queued"; "running"; "failed"; "cancelled"; "interrupted"; "blocked"])
      (production_task d) in
    let rows := match filter_opt (fun value => negb (is_blank value)) material_id with
                | Some m => List.filter (fun t => t_material_id t == m) unresolved
                | None => unresolved
                end in
    head (order_desc task_key rows)).

(** db/mod.rs [latest_production_task_for_session]. *)
Definition latest_production_task_for_session (session_id : string) : DB (option Task) :=
  if is_blank session_id then db_ret None
  else query (fun d =>
    head (order_desc task_key
            (List.filter (fun t => t_session_id t == session_id) (production_task d)))).

(** db/mod.rs [list_production_tasks]. *)
Definition list_production_tasks (filter : ProductionTaskFilter) : DB ProductionTaskPage :=
  let limit := clamp (unwrap_or (f_limit filter) 50) 1 200 in
  let offset := unwrap_or (f_offset filter) 0 in
  let wanted (field : Task -> string) (wish : option string) (t : Task) : bool :=
    match filter_opt (fun value => negb (is_empty value)) wish with
    | Some value => field t == value
    | None => true
    end in
  let p t := wanted t_status (f_status filter) t && wanted t_kind (f_kind filter) t in
  let! total := query (fun d => count_where p (production_task d)) in
  let! tasks := query (fun d =>
    firstn (Z.to_nat limit)
      (skipn (Z.to_nat offset) (order_desc task_key (List.filter p (production_task d))))) in
  db_ret (mkProductionTaskPage tasks total limit offset).

(** db/mod.rs [claim_next_production_task]: the inner [for] gives the claimed row or whether
    anything changed; then the [loop]. *)
Fixpoint claim_scan (queued : list Task) (changed : bool) : DB (option Task + bool) :=
  match queued with
  | [] => db_ret (inr changed)
  | model :: rest =>
      let! state := production_task_dependency_state model in
      match state with
      | Waiting => claim_scan rest changed
      | Blocked reason =>
          let! marked := mark_production_task_blocked (t_id model) reason in
          claim_scan rest (changed || marked)
      | Ready =>
          let! now := now_millis_string in
          let! affected := update_tasks
            (fun t => task_with_id (t_id model) t && task_with_status "queued" t
                      && negb (t_cancel_requested t))
            (claimed_row (wrap_i32 (t_attempts model + 1)) now) in
          if affected =? 1
          then let! found := find_production_task (t_id model) in db_ret (inl found)
          else claim_scan rest true
      end
  end.

Fixpoint claim_go (fuel : nat) : DB (option Task) :=
  match fuel with
  | O => db_stuck
  | S fuel' =>
      let! queued := query (fun d =>
        order_asc task_key
          (List.filter (fun t => task_with_status "queued" t && negb (t_cancel_requested t))
             (production_task d))) in
      match queued with
      | [] => db_ret None
      | _ :: _ =>
          let! scanned := claim_scan queued false in
          match scanned with
          | inl claimed => db_ret claimed
          | inr true => claim_go fuel'
          | inr false => db_ret None
          end
      end
  end.

Definition claim_next_production_task : DB (option Task) :=
  let! rows := db_peek (fun d => length (production_task d)) in
  claim_go (S rows).

(** db/mod.rs [update_production_task_progress]. *)
Definition update_production_task_progress (id phase : string) (progress : Z) : DB (option Task) :=
  let! now := now_millis_string in
  let! affected := update_tasks (fun t => task_with_id id t && task_with_status "running" t)
                     (progress_row phase progress now) in
  if affected =? 0 then db_ret None else find_production_task id.

(** db/mod.rs [finish_production_task]. *)
Definition finish_production_task (id status : string) (progress : Z) (result error : string)
    : DB (option Task) :=
  let! found := find_production_task id in
  match found with
  | None => db_ret None
  | Some model =>
      let! now := now_millis_string in
      let! updated := update_task_by_id (t_id model) (finished_row status progress result error now) in
      if unsuccessful status
      then let! _ := propagate_production_task_dependency_failure id in db_ret (Some updated)
      else db_ret (Some updated)
  end.

(** db/mod.rs [request_cancel_production_task]. *)
Definition request_cancel_production_task (id : string) : DB (option Task) :=
  let! found := find_production_task id in
  match found with
  | None => db_ret None
  | Some model =>
      if production_task_status_is_terminal (t_status model) then db_ret (Some model)
      else
        let! now := now_millis_string in
        let queued := t_status model == "queued" in
        let! updated := update_task_by_id (t_id model)
          (if queued then cancel_queued_row now else cancel_running_row now) in
        if queued
        then let! _ := propagate_production_task_dependency_failure id in db_ret (Some updated)
        else db_ret (Some updated)
  end.

(** db/mod.rs [retry_production_task]. *)
Definition retry_production_task (id : string) : DB (option Task) :=
  let! found := find_production_task id in
  match found with
  | None => db_ret None
  | Some model =>
      if negb (unsuccessful (t_status model)) then db_ret (Some model)
      else
        let! runnable :=
          (if t_status model == "blocked" then
             let! state := production_task_dependency_state model in
             db_ret (match state with Ready => true | _ => false end)
           else db_ret true) in
        if negb runnable then db_ret (Some model)
        else
          let! now := now_millis_string in
          let next_max_attempts :=
            Z.min (Z.max (t_max_attempts model) (wrap_i32 (t_attempts model + 1))) 10 in
          let! updated := update_task_by_id (t_id model) (retried_row next_max_attempts now) in
          let! _ := requeue_blocked_production_task_descendants id in
          db_ret (Some updated)
  end.

(** db/mod.rs [recover_incomplete_production_tasks]. *)
Fixpoint recover_tasks (tasks : list Task) (recovered : Z) : DB Z :=
  match tasks with
  | [] => db_ret recovered
  | model :: rest =>
      let! now := now_millis_string in
      let! _ := update_task_by_id (t_id model) (recovered_row (t_cancel_requested model) now) in
      let! _ := propagate_production_task_dependency_failure (t_id model) in
      recover_tasks rest (recovered + 1)
  end.

Definition recover_incomplete_production_tasks : DB Z :=
  let! tasks := tasks_where (task_with_status "running") in
  recover_tasks tasks 0.

End Store.
