(* ===== verification/TaskInvariant.v ===== *)
(** * The task table invariant

    What every row and the table as a whole always satisfy, and the two things no store function
    ever does: remove a row or change the columns that identify a task. Proved for every function
    of TaskStore.v under every failure of a statement and every interference by others that keeps
    the same promises. *)

From S2P Require Import Prelude Db TaskStore.

(** ** The invariant *)

Definition known_status (status : string) : bool :=
  open_status status || production_task_status_is_terminal status.

(** The columns that follow from the status, and the ranges of the counters. *)
Definition task_ok (t : Task) : bool :=
  known_status (t_status t)
  && ((0 <=? t_progress t) && (t_progress t <=? 100))
  && ((1 <=? t_max_attempts t) && (t_max_attempts t <=? 10))
  && implb (t_status t == "running") (negb (is_empty (t_started_at t)))
  && implb (open_status (t_status t)) (is_empty (t_finished_at t) && is_empty (t_blocked_reason t))
  && implb (production_task_status_is_terminal (t_status t)) (negb (is_empty (t_finished_at t))).

Record tasks_ok (d : Database) : Prop := {
  rows_ok : Forall (fun t => task_ok t = true) (production_task d);
  ids_distinct : NoDup (map t_id (production_task d));
  keys_distinct : NoDup (map t_idempotency_key (production_task d));
}.

(** The columns that say which task a row is. *)
Record same_task (t t' : Task) : Prop := {
  same_id : t_id t' = t_id t;
  same_key : t_idempotency_key t' = t_idempotency_key t;
  same_kind : t_kind t' = t_kind t;
  same_material : t_material_id t' = t_material_id t;
  same_session : t_session_id t' = t_session_id t;
  same_chain : t_chain_id t' = t_chain_id t;
  same_dependency : t_depends_on_task_id t' = t_depends_on_task_id t;
  same_policy : t_dependency_policy t' = t_dependency_policy t;
  same_payload : t_payload t' = t_payload t;
  same_actor : t_actor t' = t_actor t;
  same_created : t_created_at t' = t_created_at t;
}.

#[export] Instance same_task_preorder : PreOrder same_task.
Proof. split; [by split|]. intros x y z [] []. split; congruence. Qed.

(** The table afterwards holds the same tasks in the same places, then new ones. *)
Definition extends (d d' : Database) : Prop :=
  exists kept added, production_task d' = kept ++ added
                     /\ Forall2 same_task (production_task d) kept.

#[export] Instance extends_preorder : PreOrder extends.
Proof.
  split.
  - intros d. exists (production_task d), []. split; [by rewrite app_nil_r|]. reflexivity.
  - intros d1 d2 d3 (k1 & a1 & E1 & F1) (k2 & a2 & E2 & F2).
    rewrite E1 in F2. apply Forall2_app_inv_l in F2 as (k3 & a3 & F3 & F4 & ->).
    exists k3, (a3 ++ a2). split; [by rewrite E2, app_assoc|]. by etrans.
Qed.

(** ** Row updates *)

Record row_step (t t' : Task) : Prop := {
  step_same : same_task t t';
  step_ok : task_ok t = true -> task_ok t' = true;
}.

Lemma task_update_same t a b c e f g h i j k l m : same_task t (task_update t a b c e f g h i j k l m).
Proof. by split. Qed.

(** Decides [task_ok] of an updated row once the tests on the old row are known. *)
Ltac task_ok_solve :=
  unfold task_ok; simpl; intros; bool_facts;
  repeat match goal with H : ?x <> EmptyString |- context [is_empty ?x] =>
    rewrite (proj2 (is_empty_false x) H) end;
  repeat (apply andb_true_intro; split);
  try first [done | assumption | apply Z.leb_le; first [lia | unfold clamp; lia]].

Lemma blocked_row_step reason now t : now <> EmptyString -> row_step t (blocked_row reason now t).
Proof. intros Hnow. split; [apply task_update_same|]. task_ok_solve. Qed.

Lemma requeued_row_step now t : row_step t (requeued_row now t).
Proof. split; [apply task_update_same|]. task_ok_solve. Qed.

Lemma claimed_row_step attempts now t : now <> EmptyString -> row_step t (claimed_row attempts now t).
Proof. intros Hnow. split; [apply task_update_same|]. task_ok_solve. Qed.

Lemma progress_row_step phase progress now t : row_step t (progress_row phase progress now t).
Proof. split; [apply task_update_same|]. task_ok_solve. Qed.

Lemma finished_row_step status progress result error now t :
  production_task_status_is_terminal status = true -> now <> EmptyString ->
  row_step t (finished_row status progress result error now t).
Proof.
  intros Hs Hnow. split; [apply task_update_same|].
  unfold finished_row. rewrite Hs. task_ok_solve; revert Hs;
  unfold production_task_status_is_terminal, known_status, open_status;
  rewrite !one_of_In; simpl; intros [<-|[<-|[<-|[<-|[<-|[]]]]]]; done.
Qed.

Lemma cancel_row_step (queued : bool) now t : now <> EmptyString ->
  row_step t ((if queued then cancel_queued_row now else cancel_running_row now) t).
Proof. intros Hnow. split; destruct queued; try apply task_update_same; task_ok_solve. Qed.

Lemma retried_row_step max_attempts now t :
  1 <= max_attempts <= 10 -> row_step t (retried_row max_attempts now t).
Proof. intros Hm. split; [apply task_update_same|]. task_ok_solve. Qed.

Lemma recovered_row_step cancelled now t : now <> EmptyString -> row_step t (recovered_row cancelled now t).
Proof. intros Hnow. split; [apply task_update_same|]. destruct cancelled; task_ok_solve. Qed.

Lemma new_task_ok input now : now <> EmptyString -> task_ok (new_task input now) = true.
Proof.
  intros Hnow. pose proof (clamp_bounds (in_max_attempts input) 1 10 ltac:(lia)).
  unfold task_ok. cbn -[clamp]. repeat (apply andb_true_intro; split); try done; apply Z.leb_le; lia.
Qed.

(** ** Statements *)

Lemma update_where_same p f l : (forall t, p t = true -> same_task t (f t)) ->
  Forall2 same_task l (update_where p f l).
Proof.
  intros Hf. unfold update_where. induction l as [|t l IH]; simpl; constructor; [|done].
  destruct (p t) eqn:E; [auto|reflexivity].
Qed.

Lemma same_task_map {A} (g : Task -> A) l l' :
  (forall t t', same_task t t' -> g t' = g t) -> Forall2 same_task l l' -> map g l' = map g l.
Proof. intros Hg. induction 1; simpl; [done|]. f_equal; auto. Qed.

Lemma update_where_ok p f d : (forall t, p t = true -> row_step t (f t)) ->
  tasks_ok d -> tasks_ok (with_tasks (update_where p f (production_task d)) d)
                /\ extends d (with_tasks (update_where p f (production_task d)) d).
Proof.
  intros Hf [Hr Hi Hk].
  pose proof (update_where_same p f (production_task d) (fun t E => step_same _ _ (Hf t E))) as Hs.
  split; [split; simpl|].
  - unfold update_where. rewrite Forall_map. eapply Forall_impl; [done|]. simpl. intros t Ht.
    destruct (p t) eqn:E; [by apply (Hf t E)|done].
  - by rewrite (same_task_map t_id _ _ same_id Hs).
  - by rewrite (same_task_map t_idempotency_key _ _ same_key Hs).
  - exists (update_where p f (production_task d)), []. split; [by rewrite app_nil_r|done].
Qed.

Lemma existsb_map_false {A} (g : A -> string) (k : string) (l : list A) :
  existsb (fun t => g t == k) l = false -> ~ In k (map g l).
Proof.
  intros H (t & <- & Ht)%in_map_iff.
  assert (existsb (fun t' => g t' == g t) l = true); [|congruence].
  apply existsb_exists. exists t. by rewrite String.eqb_refl.
Qed.

Lemma NoDup_snoc {A} (l : list A) x : NoDup l -> ~ In x l -> NoDup (l ++ [x]).
Proof.
  intros Hl Hx. apply NoDup_app. split_and!; [done| |apply NoDup_singleton].
  intros y Hy ->%list_elem_of_singleton. by apply Hx, list_elem_of_In.
Qed.

Lemma insert_ok row d : task_ok row = true ->
  existsb (task_with_id (t_id row)) (production_task d) = false ->
  existsb (fun t => t_idempotency_key t == t_idempotency_key row) (production_task d) = false ->
  tasks_ok d -> tasks_ok (with_tasks (production_task d ++ [row]) d)
                /\ extends d (with_tasks (production_task d ++ [row]) d).
Proof.
  intros Hrow Hid Hkey [Hr Hi Hk]. split; [split; simpl|].
  - apply Forall_app. auto.
  - rewrite map_app. apply NoDup_snoc; [done|]. by apply existsb_map_false.
  - rewrite map_app. apply NoDup_snoc; [done|]. by apply existsb_map_false.
  - exists (production_task d), [row]. split; [done|]. reflexivity.
Qed.

Lemma find_task_ok d p t : tasks_ok d -> List.find p (production_task d) = Some t -> task_ok t = true.
Proof. intros [Hr _ _] [Hin _]%find_some. rewrite List.Forall_forall in Hr. auto. Qed.

(** ** Functions *)

Create HintDb guarantee discriminated.

(** Walks through a program: reads and statements by their lemmas, branches by cases. *)
Ltac g_auto :=
  repeat first
    [ progress intros
    | apply g_ret; [apply _|exact Logic.I]
    | apply g_stuck; apply _
    | match goal with
      | |- Guarantee _ _ (if ?x then _ else _) _ => destruct x eqn:?
      | |- Guarantee _ _ (match ?x with _ => _ end) _ => destruct x eqn:?
      | |- Guarantee _ _ (db_bind _ _) _ => eapply g_bind; [apply _|solve [eauto with guarantee]|simpl]
      | |- Guarantee _ _ (db_bind (if _ then _ else _) _) _ =>
          eapply g_bind with (Q := fun _ => True); [apply _| |]
      | |- Guarantee _ _ _ (fun _ => True) =>
          eapply g_weaken; [solve [eauto with guarantee]|intros; exact Logic.I]
      end ].

Section StoreGuarantees.
Context `{DbEnv} `{!Rely tasks_ok extends}.

Abbreviation Keeps m := (Guarantee tasks_ok extends m (fun _ => True)) (only parsing).

Lemma g_now_tasks : Guarantee tasks_ok extends now_millis_string (fun now => now <> EmptyString).
Proof. apply g_now; apply _. Qed.

Lemma g_query_tasks {A} (f : Database -> A) : Keeps (query f).
Proof. by apply g_query; [apply _|]. Qed.

Lemma g_tasks_where p : Keeps (tasks_where p).
Proof. apply g_query_tasks. Qed.

Lemma g_peek_tasks {A} (f : Database -> A) : Keeps (db_peek f).
Proof. by apply g_peek; [apply _|]. Qed.

Lemma g_find id : Guarantee tasks_ok extends (find_production_task id)
  (fun found => match found with Some t => task_ok t = true | None => True end).
Proof.
  apply g_query; [apply _|]. intros d Hd. destruct (List.find _ _) eqn:E; [|done].
  by eapply find_task_ok.
Qed.

Lemma g_update_tasks p f : (forall t, p t = true -> row_step t (f t)) -> Keeps (update_tasks p f).
Proof.
  intros Hf. apply g_stmt; [apply _|]. intros d a d' Hd [= _ <-].
  destruct (update_where_ok p f d Hf Hd). auto.
Qed.

Lemma g_update_task_by_id id f : (forall t, row_step t (f t)) -> Keeps (update_task_by_id id f).
Proof.
  intros Hf. apply g_stmt; [apply _|]. intros d a d' Hd.
  destruct (List.find _ _) eqn:E; [|done]. intros [= _ <-].
  destruct (update_where_ok (task_with_id id) f d (fun t _ => Hf t) Hd). auto.
Qed.

#[local] Hint Resolve g_now_tasks g_query_tasks g_tasks_where g_peek_tasks g_find
  g_update_tasks g_update_task_by_id : guarantee.
#[local] Hint Resolve blocked_row_step requeued_row_step claimed_row_step progress_row_step
  finished_row_step cancel_row_step retried_row_step recovered_row_step : guarantee.

Lemma g_insert input : Keeps (insert_production_task input).
Proof.
  unfold insert_production_task. eapply g_bind; [apply _|apply g_now_tasks|]. intros now Hnow.
  apply g_stmt; [apply _|]. intros d a d' Hd. repeat case_match; try done. intros [= <- <-].
  edestruct insert_ok as [? ?]; [by apply (new_task_ok input now)|eassumption|eassumption|eassumption|].
  auto.
Qed.

Lemma g_dependency_state task : Keeps (production_task_dependency_state task).
Proof. unfold production_task_dependency_state. g_auto. Qed.

Lemma g_mark_blocked id reason : Keeps (mark_production_task_blocked id reason).
Proof. unfold mark_production_task_blocked. g_auto. Qed.

#[local] Hint Resolve g_dependency_state g_mark_blocked : guarantee.

Lemma g_block_dependents reason dependents blocked frontier :
  Keeps (block_dependents reason dependents blocked frontier).
Proof. revert blocked frontier. induction dependents; simpl; g_auto. Qed.
#[local] Hint Resolve g_block_dependents : guarantee.

Lemma g_propagate_go fuel frontier blocked : Keeps (propagate_go fuel frontier blocked).
Proof. revert frontier blocked. induction fuel; intros [|? ?] ?; simpl; g_auto. Qed.
#[local] Hint Resolve g_propagate_go : guarantee.

Lemma g_propagate id : Keeps (propagate_production_task_dependency_failure id).
Proof. unfold propagate_production_task_dependency_failure. g_auto. Qed.

Lemma g_requeue_dependents dependents requeued frontier :
  Keeps (requeue_dependents dependents requeued frontier).
Proof. revert requeued frontier. induction dependents; simpl; g_auto. Qed.
#[local] Hint Resolve g_requeue_dependents : guarantee.

Lemma g_requeue_go fuel frontier requeued : Keeps (requeue_go fuel frontier requeued).
Proof. revert frontier requeued. induction fuel; intros [|? ?] ?; simpl; g_auto. Qed.
#[local] Hint Resolve g_requeue_go : guarantee.

Lemma g_requeue id : Keeps (requeue_blocked_production_task_descendants id).
Proof. unfold requeue_blocked_production_task_descendants. g_auto. Qed.

Lemma g_claim_scan queued changed : Keeps (claim_scan queued changed).
Proof. revert changed. induction queued; simpl; g_auto. Qed.
#[local] Hint Resolve g_claim_scan g_propagate g_requeue : guarantee.

Lemma g_claim_go fuel : Keeps (claim_go fuel).
Proof. induction fuel; simpl; g_auto. Qed.
#[local] Hint Resolve g_claim_go : guarantee.

Lemma g_claim : Keeps claim_next_production_task.
Proof. unfold claim_next_production_task. g_auto. Qed.

Lemma g_progress id phase progress : Keeps (update_production_task_progress id phase progress).
Proof. unfold update_production_task_progress. g_auto. Qed.

Lemma g_finish id status progress result error :
  production_task_status_is_terminal status = true ->
  Keeps (finish_production_task id status progress result error).
Proof. intros Hs. unfold finish_production_task. g_auto. Qed.

Lemma g_cancel id : Keeps (request_cancel_production_task id).
Proof. unfold request_cancel_production_task. g_auto. Qed.

Lemma task_ok_max_attempts t x : task_ok t = true ->
  1 <= Z.min (Z.max (t_max_attempts t) x) 10 <= 10.
Proof. unfold task_ok. intros. bool_facts. lia. Qed.
#[local] Hint Resolve task_ok_max_attempts : guarantee.

Lemma g_retry id : Keeps (retry_production_task id).
Proof. unfold retry_production_task. g_auto. Qed.

Lemma g_recover_tasks tasks recovered : Keeps (recover_tasks tasks recovered).
Proof. revert recovered. induction tasks; simpl; g_auto. Qed.
#[local] Hint Resolve g_recover_tasks : guarantee.

Lemma g_recover : Keeps recover_incomplete_production_tasks.
Proof. unfold recover_incomplete_production_tasks. g_auto. Qed.

End StoreGuarantees.

(** ** Every call of the store *)

(** The public functions of the store, with their arguments. *)
Inductive StoreCall :=
| CallInsert (input : ProductionTaskInput)
| CallClaim
| CallProgress (id phase : string) (progress : Z)
| CallFinish (id status : string) (progress : Z) (result error : string)
| CallCancel (id : string)
| CallRetry (id : string)
| CallPropagate (id : string)
| CallRecover.

Definition run_store_call `{DbEnv} (call : StoreCall) : DB unit :=
  let done {A} (m : DB A) : DB unit := db_bind m (fun _ => db_ret tt) in
  match call with
  | CallInsert input => done (insert_production_task input)
  | CallClaim => done claim_next_production_task
  | CallProgress id phase progress => done (update_production_task_progress id phase progress)
  | CallFinish id status progress result error => done (finish_production_task id status progress result error)
  | CallCancel id => done (request_cancel_production_task id)
  | CallRetry id => done (retry_production_task id)
  | CallPropagate id => done (propagate_production_task_dependency_failure id)
  | CallRecover => done recover_incomplete_production_tasks
  end.

(** The worker and the handlers only finish a task in a terminal state. *)
Definition call_ok (call : StoreCall) : bool :=
  match call with
  | CallFinish _ status _ _ _ => production_task_status_is_terminal status
  | _ => true
  end.

Lemma g_store_call `{DbEnv} `{!Rely tasks_ok extends} call : call_ok call = true ->
  Guarantee tasks_ok extends (run_store_call call) (fun _ => True).
Proof.
  intros Hok. destruct call; (eapply g_bind; [apply _| |intros; apply g_ret; [apply _|done]]).
  - apply g_insert.
  - apply g_claim.
  - apply g_progress.
  - by apply g_finish.
  - apply g_cancel.
  - apply g_retry.
  - apply g_propagate.
  - apply g_recover.
Qed.

(** A sequence of calls, each run to its end or until it fails. *)
Fixpoint run_store_calls `{DbEnv} (calls : list StoreCall) (s : DbState) : DbState :=
  match calls with
  | [] => s
  | call :: calls' => run_store_calls calls' (snd (run_store_call call s))
  end.

(** C1. The task table invariant. Start from a table in which every row has a known status, a
    progress in 0..100, 1 to 10 allowed attempts, and the time stamps and the block reason its
    status calls for, with distinct ids and idempotency keys. Then any sequence of store calls, with
    any statements failing before or after they took effect, and with any interference by others
    that keeps the same invariant and identities between any two statements, ends in such a table;
    no row has disappeared or moved, and no task has changed its id, key, kind, payload, material,
    session, chain, dependency, policy, actor or creation time. *)
Theorem store_calls_keep_table (env : DbEnv) (others : Rely tasks_ok extends)
    (calls : list StoreCall) (s : DbState) :
  forallb call_ok calls = true -> tasks_ok (db s) ->
  tasks_ok (db (run_store_calls calls s)) /\ extends (db s) (db (run_store_calls calls s)).
Proof.
  revert s. induction calls as [|call calls IH]; intros s Hok Hs; simpl in *; [by split|].
  bool_facts. destruct (g_store_call call ltac:(done) s Hs) as (Hs' & He & _).
  destruct (IH _ ltac:(done) Hs') as [Hs2 He2]. split; [done|by etrans].
Qed.

(** A run in which the second insertion loses its answer and somebody else blocks every queued task
    between the lookup and the update of the cancellation. *)
Definition disturbed_env : DbEnv :=
  mkDbEnv (fun n => match n with 3%nat => FailAfter "disk I/O error" | _ => NoFault end) (fun n => Z.of_nat n)
    (fun n d => match n with
                | 6%nat => with_tasks (update_where (task_with_status "queued")
                             (blocked_row "operator" "9") (production_task d)) d
                | _ => d
                end).

Lemma disturbed_rely : @Rely disturbed_env tasks_ok extends.
Proof.
  split; [apply _|]. intros n d Hd. do 6 (destruct n as [|n]; [split; [done|simpl; reflexivity]|]).
  destruct n as [|n]; [|split; [done|simpl; reflexivity]]. simpl.
  apply update_where_ok; [|done]. intros t _. by apply blocked_row_step.
Qed.

Definition sample_input (id depends : string) : ProductionTaskInput :=
  {| in_id := id; in_idempotency_key := "key-" +:+ id; in_kind := "reconstruct";
     in_material_id := "M1"; in_session_id := "S1"; in_chain_id := "C1";
     in_depends_on_task_id := depends; in_dependency_policy := "require-success";
     in_payload := "{}"; in_actor := "operator"; in_max_attempts := 3 |}.

Definition empty_database : Database := mkDatabase [] [] [] [].

Lemma empty_tasks_ok : tasks_ok empty_database.
Proof. split; constructor. Qed.

Lemma store_calls_keep_table_witness :
  let calls := [CallInsert (sample_input "T1" ""); CallInsert (sample_input "T2" "T1");
                CallCancel "T1"; CallClaim] in
  let final := db (@run_store_calls disturbed_env calls (mkDbState empty_database 0)) in
  map t_status (production_task final) = ["cancelled"; "blocked"] /\
  tasks_ok final /\ extends empty_database final.
Proof.
  split; [vm_compute; reflexivity|].
  apply (store_calls_keep_table disturbed_env disturbed_rely _ (mkDbState empty_database 0));
    [reflexivity|apply empty_tasks_ok].
Defined.
