(* ===== verification/TaskGraph.v ===== *)
(** * Dependency propagation

    What blocking and requeueing do to the dependency graph of the tasks when nobody disturbs the
    run: both loops of db/mod.rs end, and change exactly the tasks that hang, directly or through
    others, on the one they start from. The two loops share one argument, the section [Spread]. *)

From S2P Require Import Prelude Db TaskStore TaskInvariant.

(** ** Rows of a table with distinct ids *)

Lemma NoDup_ids_eq (ts : list Task) r r' :
  NoDup (map t_id ts) -> In r ts -> In r' ts -> t_id r = t_id r' -> r = r'.
Proof.
  induction ts as [|t ts IH]; simpl; [done|]. intros [Hn Hd]%NoDup_cons Hr Hr' E.
  assert (Hm : forall x, In x ts -> t_id x ∈ map t_id ts).
  { intros x Hx. apply list_elem_of_In, in_map. done. }
  destruct Hr as [->|Hr], Hr' as [->|Hr']; [done| | |by apply IH].
  - destruct Hn. rewrite E. auto.
  - destruct Hn. rewrite <- E. auto.
Qed.

Lemma find_by_id (ts : list Task) t :
  NoDup (map t_id ts) -> In t ts -> List.find (task_with_id (t_id t)) ts = Some t.
Proof.
  intros Hn Ht. destruct (List.find _ _) as [r|] eqn:E.
  - apply find_some in E as [Hr Hid]. unfold task_with_id in Hid. bool_facts.
    f_equal. by eapply NoDup_ids_eq.
  - apply find_none with (x := t) in E; [|done]. unfold task_with_id in E. by rewrite String.eqb_refl in E.
Qed.

Lemma count_unique (p : Task -> bool) ts t :
  NoDup (map t_id ts) -> In t ts -> p t = true -> (forall r, p r = true -> t_id r = t_id t) ->
  count_where p ts = 1.
Proof.
  intros Hn Ht Hp Hq. unfold count_where.
  assert (List.filter p ts = [t]) as ->; [|done].
  revert Hn Ht. induction ts as [|r ts IH]; simpl; [done|]. intros Hn [->|Ht].
  - rewrite Hp. f_equal. apply NoDup_cons in Hn as [Hn _].
    destruct (List.filter p ts) as [|x l] eqn:E; [done|]. exfalso. apply Hn.
    assert (Hx : In x (List.filter p ts)) by (rewrite E; by left). apply filter_In in Hx as [Hx Hpx].
    apply list_elem_of_In, in_map_iff. eauto.
  - destruct (p r) eqn:E; [|apply IH; [by apply NoDup_cons in Hn as [_ ?]|done]].
    exfalso. apply NoDup_cons in Hn as [Hn _]. apply Hn. rewrite (Hq r E).
    by apply list_elem_of_In, in_map.
Qed.

Lemma NoDup_ids_filter (p : Task -> bool) ts : NoDup (map t_id ts) -> NoDup (map t_id (List.filter p ts)).
Proof.
  induction ts as [|t ts IH]; simpl; [done|]. intros [Hn Hd]%NoDup_cons.
  destruct (p t); [|by apply IH]. simpl. constructor; [|by apply IH].
  intros (r & E & [Hr _]%filter_In)%list_elem_of_In%in_map_iff. apply Hn. rewrite <- E.
  by apply list_elem_of_In, in_map.
Qed.

Lemma update_where_eq (p q : Task -> bool) f ts :
  (forall t, In t ts -> p t = q t) -> update_where p f ts = update_where q f ts.
Proof.
  intros Hpq. unfold update_where. apply map_ext_in. intros t Ht. by rewrite Hpq.
Qed.

(** The guard [id = .. and status = ..] of the conditional updates selects one row. *)
Lemma count_by_id_status status ts t :
  NoDup (map t_id ts) -> In t ts -> t_status t = status ->
  count_where (fun r => task_with_id (t_id t) r && task_with_status status r) ts = 1.
Proof.
  intros Hn Ht Hs. apply (count_unique _ _ t Hn Ht); unfold task_with_id, task_with_status.
  - by rewrite Hs, !String.eqb_refl.
  - intros r Hr. by bool_facts.
Qed.

Lemma update_by_id_status status f ts t :
  NoDup (map t_id ts) -> In t ts -> t_status t = status ->
  update_where (fun r => task_with_id (t_id t) r && task_with_status status r) f ts
  = update_where (task_with_id (t_id t)) f ts.
Proof.
  intros Hn Ht Hs. apply update_where_eq. intros r Hr. unfold task_with_id, task_with_status.
  destruct (String.eqb_spec (t_id r) (t_id t)) as [E|]; [|done].
  rewrite (NoDup_ids_eq _ _ _ Hn Hr Ht E), Hs. by rewrite String.eqb_refl.
Qed.

(** Updating the row of one task, seen row by row. *)
Lemma update_by_id_rows (P : Task -> Task -> Prop) f ts t :
  NoDup (map t_id ts) -> In t ts -> (forall r, t_id r <> t_id t -> P r r) -> P t (f t) ->
  Forall2 P ts (update_where (task_with_id (t_id t)) f ts).
Proof.
  intros Hn Ht Hother Hown.
  assert (Hrow : forall r, In r ts -> t_id r = t_id t -> r = t) by (intros; by eapply NoDup_ids_eq).
  clear Hn Ht. unfold update_where. induction ts as [|r ts IH]; simpl; constructor.
  - unfold task_with_id. destruct (String.eqb_spec (t_id r) (t_id t)) as [E|E]; [|auto].
    by rewrite (Hrow r (or_introl eq_refl) E).
  - apply IH. intros r' Hr'. apply Hrow. by right.
Qed.

(** Looking a task up before and after its table changed row by row. *)
Lemma find_rows (P : Task -> Task -> Prop) ts ts' id :
  (forall r r', P r r' -> t_id r' = t_id r) -> Forall2 P ts ts' ->
  match List.find (task_with_id id) ts, List.find (task_with_id id) ts' with
  | Some r, Some r' => P r r'
  | None, None => True
  | _, _ => False
  end.
Proof.
  intros Hid. induction 1 as [|r r' ts ts' Hr _ IH]; simpl; [done|].
  assert (task_with_id id r' = task_with_id id r) as ->
    by (unfold task_with_id; by rewrite (Hid _ _ Hr)).
  by destruct (task_with_id id r).
Qed.

(** The row [update] gives back is the row a lookup finds afterwards. *)
Lemma find_updated f ts t :
  NoDup (map t_id ts) -> In t ts -> t_id (f t) = t_id t ->
  List.find (task_with_id (t_id t)) (update_where (task_with_id (t_id t)) f ts) = Some (f t).
Proof.
  intros Hn Ht Hf.
  assert (Hr := find_rows (fun r r' => t_id r' = t_id r /\ (t_id r = t_id t -> r' = f t)) ts
    (update_where (task_with_id (t_id t)) f ts) (t_id t) (fun _ _ => @proj1 _ _)).
  rewrite (find_by_id ts t Hn Ht) in Hr.
  specialize (Hr ltac:(apply update_by_id_rows; [done|done|by intros|by intros])).
  destruct (List.find _ (update_where _ _ _)); [|done]. destruct Hr as [_ Hr]. by rewrite Hr.
Qed.

(** ** Spreading a change along the graph *)

(** [edge x t]: the loop finds [t] when it looks for the dependents of [x]. [source]: the rows the
    loop still has to change. [change r r']: what it does to a row. *)
Class SpreadRules (edge : string -> Task -> bool) (source : Task -> bool)
    (change : Task -> Task -> Prop) : Prop := {
  edge_source : forall x t, edge x t = true -> source t = true;
  change_id : forall r r', change r r' -> t_id r' = t_id r;
  change_done : forall r r', change r r' -> source r' = false;
}.

Section Spread.
Context {edge : string -> Task -> bool} {source : Task -> bool} {change : Task -> Task -> Prop}.
Context {rules : SpreadRules edge source change}.

(** The tasks reached from [parent]. *)
Inductive reach (ts : list Task) (parent : string) : string -> Prop :=
| reach_direct t : In t ts -> edge parent t = true -> reach ts parent (t_id t)
| reach_step mid t :
    reach ts parent mid -> In t ts -> edge mid t = true -> reach ts parent (t_id t).

(** [ts'] is [ts] with the tasks named by [B] changed. *)
Definition spread (B : list string) (ts ts' : list Task) : Prop :=
  Forall2 (fun r r' => ((t_id r ∈ B) /\ change r r') \/ ((t_id r ∉ B) /\ r' = r)) ts ts'.

Lemma spread_ids B ts ts' : spread B ts ts' -> map t_id ts' = map t_id ts.
Proof.
  induction 1 as [|r r' ts ts' Hr _ IH]; simpl; [done|]. f_equal; [|done].
  destruct Hr as [(_ & Hc)|[_ ->]]; [by apply change_id|done].
Qed.

Lemma spread_nil ts : spread [] ts ts.
Proof. induction ts; constructor; [|done]. right. split; [set_solver|done]. Qed.

Lemma spread_trans B D ts ts1 ts2 :
  spread B ts ts1 -> spread D ts1 ts2 -> (forall x, x ∈ D -> x ∉ B) -> spread (D ++ B) ts ts2.
Proof.
  intros H1 H2 Hdis. revert ts2 H2. induction H1 as [|r r1 ts ts1 Hr _ IH]; intros ts2 H2.
  - inversion H2. constructor.
  - inversion H2 as [|? r2 ? ? Hr2 Hrest]; subst. constructor; [|by apply IH].
    destruct Hr as [(Hin & Hb)|[Hout ->]].
    + assert (t_id r1 = t_id r) as Hid by (by apply change_id).
      destruct Hr2 as [[HD _]|[_ ->]]; [exfalso; apply (Hdis (t_id r)); congruence|].
      left. set_solver.
    + destruct Hr2 as [[HD Hb]|[HD ->]]; [left; set_solver|right; set_solver].
Qed.

Lemma spread_ext B B' ts ts' : (forall x, x ∈ B <-> x ∈ B') -> spread B ts ts' -> spread B' ts ts'.
Proof. intros HB. unfold spread. intros Hb. eapply Forall2_impl; [done|]. simpl. intros. by rewrite <- HB. Qed.

(** A row that [B] does not name is still there. *)
Lemma spread_kept B ts ts' t : spread B ts ts' -> t_id t ∉ B -> In t ts <-> In t ts'.
Proof.
  intros Hb Ht. induction Hb as [|r r' ts ts' Hr _ IH]; simpl; [done|].
  destruct Hr as [(Hin & Hc)|[_ ->]]; [|by rewrite IH].
  apply change_id in Hc. rewrite IH. split; intros [E|?]; auto; subst t; destruct Ht; congruence.
Qed.

Definition source_rows (ts : list Task) : nat := length (List.filter source ts).

(** Changing the rows [e] selects, all of them in [source], takes them out of it. *)
Lemma spread_source_rows (e : Task -> bool) B ts ts' :
  spread B ts ts' -> (forall t, e t = true -> source t = true) ->
  (forall t, In t ts -> t_id t ∈ B <-> e t = true) ->
  (source_rows ts' + length (List.filter e ts) = source_rows ts)%nat.
Proof.
  intros Hb He. unfold source_rows. induction Hb as [|r r' ts ts' Hr _ IH]; simpl; intros Hin; [done|].
  specialize (IH (fun t Ht => Hin t (or_intror Ht))). specialize (Hin r (or_introl eq_refl)).
  destruct Hr as [(HB & Hc)|[HB ->]].
  - rewrite (proj1 Hin HB), (He r (proj1 Hin HB)), (change_done _ _ Hc). simpl. lia.
  - destruct (e r); [destruct HB; by apply Hin|]. destruct (source r); simpl; lia.
Qed.

(** The state of the loop: [B] is changed so far, and only the frontier may have dependents left. *)
Record frontier_ok (ts0 : list Task) (parent : string) (B frontier : list string) (ts : list Task) : Prop := {
  fr_spread : spread B ts0 ts;
  fr_sound : forall x, x ∈ B -> reach ts0 parent x;
  fr_frontier : forall x, x ∈ frontier -> x = parent \/ x ∈ B;
  fr_closed : forall x, x = parent \/ x ∈ B ->
    x ∈ frontier \/ forall t, In t ts0 -> edge x t = true -> t_id t ∈ B;
}.

(** In the current table the dependents of [x] are those of the first table not changed yet. *)
Lemma dependents_in B ts0 ts x t : spread B ts0 ts ->
  In t (List.filter (edge x) ts) <-> In t ts0 /\ edge x t = true /\ t_id t ∉ B.
Proof.
  intros Hb. rewrite filter_In. split.
  - intros [Ht Hx]. assert (t_id t ∉ B).
    { intros HB. apply edge_source in Hx. revert Ht HB. induction Hb as [|r r' ts0 ts Hr _ IH]; simpl; [done|].
      intros [->|Ht] HB; [|by apply IH].
      destruct Hr as [(_ & Hc)|[Hn ->]]; [|done]. by rewrite (change_done _ _ Hc) in Hx. }
    split_and!; [|done..]. by apply (spread_kept _ _ _ t Hb).
  - intros (Ht & Hx & HB). split; [|done]. by apply (spread_kept _ _ _ t Hb).
Qed.

Lemma frontier_step ts0 parent B x frontier ts ts' :
  frontier_ok ts0 parent B (x :: frontier) ts ->
  spread (map t_id (List.filter (edge x) ts)) ts ts' ->
  frontier_ok ts0 parent (map t_id (List.filter (edge x) ts) ++ B)
    (rev (map t_id (List.filter (edge x) ts)) ++ frontier) ts'.
Proof.
  intros [Hb Hs Hf Hc] Hb'. set (D := map t_id (List.filter (edge x) ts)) in *.
  assert (HD : forall y, y ∈ D <-> exists t, t_id t = y /\ In t ts0 /\ edge x t = true /\ t_id t ∉ B).
  { intros y. unfold D. rewrite list_elem_of_In, in_map_iff. by setoid_rewrite (dependents_in B ts0 ts x). }
  split.
  - eapply spread_trans; [done..|]. intros y (t & <- & _ & _ & Ht)%HD. done.
  - intros y [(t & <- & Ht & Hx & _)%HD|Hy]%elem_of_app; [|by apply Hs].
    destruct (Hf x ltac:(set_solver)) as [->|Hx']; [by apply reach_direct|].
    eapply reach_step; eauto.
  - intros y [Hy%list_elem_of_In|Hy]%elem_of_app.
    + right. apply elem_of_app. left. apply list_elem_of_In. by apply in_rev.
    + destruct (Hf y ltac:(set_solver)); set_solver.
  - intros y Hy. rewrite !elem_of_app, (list_elem_of_In (rev D)), <- in_rev, <- list_elem_of_In.
    assert (Hold : y = parent \/ y ∈ B \/ y ∈ D) by (rewrite elem_of_app in Hy; tauto).
    destruct Hold as [Hp|[HyB|HyD]]; [| |by auto];
      (destruct (Hc y ltac:(tauto)) as [[->|Hy']%elem_of_cons|Hy'];
       [|by auto|right; intros t Ht Hx; rewrite elem_of_app; eauto]);
      (right; intros t Ht Hx; rewrite elem_of_app;
       destruct (decide (t_id t ∈ B)); [by right|left; apply HD; eauto]).
Qed.

(** One round of a loop uses up one unit of the measure. *)
Lemma frontier_measure x frontier ts ts' :
  NoDup (map t_id ts) -> spread (map t_id (List.filter (edge x) ts)) ts ts' ->
  S (length (rev (map t_id (List.filter (edge x) ts)) ++ frontier) + source_rows ts')
  = (length (x :: frontier) + source_rows ts)%nat.
Proof.
  intros Hn Hts'. rewrite length_app, length_rev, length_map. simpl.
  rewrite <- (spread_source_rows (edge x) _ _ _ Hts'); [lia|by apply edge_source|].
  intros t Ht. rewrite list_elem_of_In, in_map_iff. split.
  - intros (r & E & [Hr Hx]%filter_In). by rewrite <- (NoDup_ids_eq ts r t).
  - intros Hx. exists t. by rewrite filter_In.
Qed.

(** At the end the changed tasks are the reached ones. *)
Lemma frontier_done ts0 parent B ts : frontier_ok ts0 parent B [] ts ->
  forall x, x ∈ B <-> reach ts0 parent x.
Proof.
  intros [_ Hs _ Hc] x. split; [apply Hs|].
  induction 1 as [t Ht Hx|mid t _ IH Ht Hx];
    (edestruct Hc as [[]%not_elem_of_nil|Hall]; [|by apply (Hall t)]; auto).
Qed.

Lemma frontier_start ts parent : frontier_ok ts parent [] [parent] ts.
Proof.
  split; [apply spread_nil|set_solver| |]; intros x; [intros ->%list_elem_of_singleton; auto|].
  intros [->|?]; set_solver.
Qed.

End Spread.
Arguments reach : clear implicits.
Arguments spread : clear implicits.
Arguments source_rows : clear implicits.
Arguments frontier_ok : clear implicits.

(** ** Blocking *)

(** [t] waits for the success of [parent]. *)
Definition requires (parent : string) (t : Task) : bool :=
  (t_depends_on_task_id t == parent) && (t_dependency_policy t == "require-success")
  && task_with_status "queued" t.

(** [r'] is [r], blocked for the sake of the task it depends on. *)
Definition blocked_for_dependency (r r' : Task) : Prop :=
  exists status now, now <> EmptyString /\
    r' = blocked_row ("dependency_" +:+ status +:+ ":" +:+ t_depends_on_task_id r) now r.

(** The tasks that can only run if [parent] succeeds. *)
Definition downstream : list Task -> string -> string -> Prop := reach requires.
Definition blocked_set : list string -> list Task -> list Task -> Prop := spread blocked_for_dependency.

#[export] Instance blocking_rules :
  SpreadRules requires (task_with_status "queued") blocked_for_dependency.
Proof.
  split; [unfold requires; intros; by bool_facts|by intros ? ? (? & ? & _ & ->)..].
Qed.

(** ** Requeueing *)

(** [t] is blocked and depends on [parent]. *)
Definition held_by (parent : string) (t : Task) : bool :=
  (t_depends_on_task_id t == parent) && task_with_status "blocked" t.

Definition requeued (r r' : Task) : Prop := exists now, r' = requeued_row now r.

Definition held_downstream : list Task -> string -> string -> Prop := reach held_by.
Definition requeued_set : list string -> list Task -> list Task -> Prop := spread requeued.

#[export] Instance requeueing_rules : SpreadRules held_by (task_with_status "blocked") requeued.
Proof. split; [unfold held_by; intros; by bool_facts|by intros ? ? (? & ->)..]. Qed.

(** ** Blocking the dependents of one task *)

Section Quiet.
Context `{Quiet}.

Lemma wp_find id (Q : option Task -> Database -> Prop) d :
  Q (List.find (task_with_id id) (production_task d)) d -> wp (find_production_task id) Q d.
Proof. intros HQ. by apply wp_query. Qed.

Lemma wp_update_tasks p f (Q : Z -> Database -> Prop) d :
  Q (count_where p (production_task d)) (with_tasks (update_where p f (production_task d)) d) ->
  wp (update_tasks p f) Q d.
Proof. intros HQ. by eapply wp_stmt. Qed.

Lemma wp_update_by_id id f (Q : Task -> Database -> Prop) d t :
  List.find (task_with_id id) (production_task d) = Some t ->
  Q (f t) (with_tasks (update_where (task_with_id id) f (production_task d)) d) ->
  wp (update_task_by_id id f) Q d.
Proof. intros E HQ. eapply wp_stmt; [by rewrite E|done]. Qed.

(** Marking a queued task blocks that row and no other. *)
Lemma wp_mark_blocked reason (Q : bool -> Database -> Prop) d t :
  NoDup (map t_id (production_task d)) -> In t (production_task d) -> t_status t = "queued" ->
  (forall now, now <> EmptyString ->
    Q true (with_tasks (update_where (task_with_id (t_id t)) (blocked_row reason now) (production_task d)) d)) ->
  wp (mark_production_task_blocked (t_id t) reason) Q d.
Proof.
  intros Hn Ht Hs HQ. apply wp_bind, wp_now. intros now Hnow.
  apply wp_bind, wp_update_tasks, wp_ret.
  rewrite (count_by_id_status "queued" _ t Hn Ht Hs), (update_by_id_status "queued" _ _ t Hn Ht Hs).
  by apply HQ.
Qed.

Lemma mark_blocks reason now ts t :
  NoDup (map t_id ts) -> In t ts -> now <> EmptyString ->
  (exists status, reason = "dependency_" +:+ status +:+ ":" +:+ t_depends_on_task_id t) ->
  blocked_set [t_id t] ts (update_where (task_with_id (t_id t)) (blocked_row reason now) ts).
Proof.
  intros Hn Ht Hnow (status & ->). apply update_by_id_rows; [done|done| |].
  - intros r Hr. right. split; [set_solver|done].
  - left. split; [set_solver|]. by exists status, now.
Qed.

Lemma sat_add_assoc m b j k : 0 <= j -> 0 <= k -> sat_add m (sat_add m b j) k = sat_add m b (j + k).
Proof. unfold sat_add. lia. Qed.

Lemma sat_add_0 m b : b <= m -> sat_add m b 0 = b.
Proof. unfold sat_add. lia. Qed.

Lemma wp_block_dependents status parent dependents blocked frontier (Q : Z * list string -> Database -> Prop) d :
  NoDup (map t_id (production_task d)) -> NoDup (map t_id dependents) ->
  (forall t, In t dependents ->
     In t (production_task d) /\ t_status t = "queued" /\ t_depends_on_task_id t = parent) ->
  blocked <= u64_max ->
  (forall ts', blocked_set (map t_id dependents) (production_task d) ts' ->
     Q (sat_add u64_max blocked (Z.of_nat (length dependents)), rev (map t_id dependents) ++ frontier)
       (with_tasks ts' d)) ->
  wp (block_dependents ("dependency_" +:+ status +:+ ":" +:+ parent) dependents blocked frontier) Q d.
Proof.
  revert d blocked frontier. induction dependents as [|t ts IH]; intros d blocked frontier Hn Hnd Hin Hb HQ.
  - simpl. apply wp_ret. specialize (HQ _ (spread_nil _)). destruct d. unfold with_tasks in HQ. simpl in HQ.
    by rewrite sat_add_0 in HQ.
  - simpl. destruct (Hin t (or_introl eq_refl)) as (Ht & Hs & Hdep).
    simpl in Hnd. apply NoDup_cons in Hnd as [Hnt Hnd].
    apply wp_bind, (wp_mark_blocked _ _ _ t Hn Ht Hs). intros now Hnow. simpl.
    pose proof (mark_blocks ("dependency_" +:+ status +:+ ":" +:+ parent) now _ t Hn Ht Hnow
                  ltac:(rewrite Hdep; eauto)) as Hmark.
    apply IH; [cbn [production_task with_tasks]; by rewrite (spread_ids _ _ _ Hmark)|done| |unfold sat_add; lia|].
    + intros r Hr. destruct (Hin r (or_intror Hr)) as (Hrd & Hrs). split; [|done]. simpl.
      apply (spread_kept _ _ _ r Hmark); [|done].
      intros E%list_elem_of_singleton. apply Hnt. rewrite <- E. by apply list_elem_of_In, in_map.
    + intros ts' Hts'. simpl in Hts'. rewrite sat_add_assoc by lia.
      assert (Hall := spread_trans _ _ _ _ _ Hmark Hts'
        ltac:(intros x Hx E%list_elem_of_singleton; subst; done)).
      specialize (HQ ts'). simpl in HQ. rewrite <- app_assoc in HQ. simpl in HQ.
      replace (1 + Z.of_nat (length ts)) with (Z.of_nat (S (length ts))) by lia.
      apply HQ. eapply spread_ext; [|exact Hall]. clear. simpl. set_solver.
Qed.

(** ** The frontier loops *)

Lemma wp_propagate_go fuel ts0 parent B frontier blocked d (Q : Z -> Database -> Prop) :
  NoDup (map t_id ts0) ->
  frontier_ok requires blocked_for_dependency ts0 parent B frontier (production_task d) ->
  (length frontier + source_rows (task_with_status "queued") (production_task d) <= fuel)%nat ->
  blocked <= u64_max ->
  (forall B' ts', frontier_ok requires blocked_for_dependency ts0 parent (B' ++ B) [] ts' ->
     Q (sat_add u64_max blocked (Z.of_nat (length B'))) (with_tasks ts' d)) ->
  wp (propagate_go fuel frontier blocked) Q d.
Proof.
  intros Hn. revert B frontier blocked d. induction fuel as [|fuel IH]; intros B frontier blocked d Hf Hfuel Hb HQ;
    (destruct frontier as [|x frontier];
     [simpl; apply wp_ret; specialize (HQ [] _ Hf); rewrite sat_add_0 in HQ by done; by destruct d|]).
  - simpl in Hfuel. lia.
  - pose proof (spread_ids _ _ _ (fr_spread _ _ _ _ _ Hf)) as Hids.
    simpl. apply wp_bind, wp_query, wp_bind, wp_find, wp_bind.
    change (fun t => _ && _ && _) with (requires x).
    apply wp_block_dependents; [by rewrite Hids|apply NoDup_ids_filter; by rewrite Hids| |done|].
    + intros t [Ht Hx]%filter_In. unfold requires, task_with_status in Hx. bool_facts. auto.
    + intros ts' Hts'. simpl.
      eapply IH; [by eapply frontier_step| |unfold sat_add; lia|].
      * pose proof (frontier_measure (rules := blocking_rules) x frontier _ _ ltac:(by rewrite Hids) Hts'). simpl in *. lia.
      * intros B' ts2 H2. rewrite app_assoc in H2. specialize (HQ _ _ H2). revert HQ.
        rewrite length_app, length_map, sat_add_assoc by lia. by rewrite Nat2Z.inj_add, Z.add_comm.
Qed.

(** The whole of the failure propagation. *)
Lemma wp_propagate parent d (Q : Z -> Database -> Prop) :
  NoDup (map t_id (production_task d)) ->
  (forall B ts', blocked_set B (production_task d) ts' ->
     (forall x, x ∈ B <-> downstream (production_task d) parent x) ->
     Q (sat_add u64_max 0 (Z.of_nat (length B))) (with_tasks ts' d)) ->
  wp (propagate_production_task_dependency_failure parent) Q d.
Proof.
  intros Hn HQ. apply wp_bind, wp_peek.
  eapply wp_propagate_go; [done|apply frontier_start| |done|].
  - unfold source_rows. simpl. pose proof (List.filter_length_le (task_with_status "queued") (production_task d)). lia.
  - intros B ts' Hf. rewrite app_nil_r in Hf. apply HQ; [apply Hf|by eapply frontier_done].
Qed.

(** The same for requeueing. *)
Lemma requeue_one now ts t : NoDup (map t_id ts) -> In t ts ->
  requeued_set [t_id t] ts (update_where (task_with_id (t_id t)) (requeued_row now) ts).
Proof.
  intros Hn Ht. apply update_by_id_rows; [done|done| |].
  - intros r Hr. right. split; [set_solver|done].
  - left. split; [set_solver|]. by exists now.
Qed.

Lemma wp_requeue_dependents dependents requeued frontier (Q : Z * list string -> Database -> Prop) d :
  NoDup (map t_id (production_task d)) -> NoDup (map t_id dependents) ->
  (forall t, In t dependents -> In t (production_task d) /\ t_status t = "blocked") ->
  requeued <= u64_max ->
  (forall ts', requeued_set (map t_id dependents) (production_task d) ts' ->
     Q (sat_add u64_max requeued (Z.of_nat (length dependents)), rev (map t_id dependents) ++ frontier)
       (with_tasks ts' d)) ->
  wp (requeue_dependents dependents requeued frontier) Q d.
Proof.
  revert d requeued frontier. induction dependents as [|t ts IH]; intros d requeued frontier Hn Hnd Hin Hb HQ.
  - simpl. apply wp_ret. specialize (HQ _ (spread_nil _)). destruct d. unfold with_tasks in HQ. simpl in HQ.
    by rewrite sat_add_0 in HQ.
  - simpl. destruct (Hin t (or_introl eq_refl)) as (Ht & Hs).
    simpl in Hnd. apply NoDup_cons in Hnd as [Hnt Hnd].
    apply wp_bind, wp_now. intros now _. apply wp_bind, wp_update_tasks.
    rewrite (count_by_id_status "blocked" _ t Hn Ht Hs). rewrite (update_by_id_status "blocked" _ _ t Hn Ht Hs). simpl.
    pose proof (requeue_one now _ t Hn Ht) as Hmark.
    apply IH; [cbn [production_task with_tasks]; by rewrite (spread_ids _ _ _ Hmark)|done| |unfold sat_add; lia|].
    + intros r Hr. destruct (Hin r (or_intror Hr)) as (Hrd & Hrs). split; [|done]. simpl.
      apply (spread_kept _ _ _ r Hmark); [|done].
      intros E%list_elem_of_singleton. apply Hnt. rewrite <- E. by apply list_elem_of_In, in_map.
    + intros ts' Hts'. simpl in Hts'. rewrite sat_add_assoc by lia.
      assert (Hall := spread_trans _ _ _ _ _ Hmark Hts'
        ltac:(intros x Hx E%list_elem_of_singleton; subst; done)).
      specialize (HQ ts'). simpl in HQ. rewrite <- app_assoc in HQ. simpl in HQ.
      replace (1 + Z.of_nat (length ts)) with (Z.of_nat (S (length ts))) by lia.
      apply HQ. eapply spread_ext; [|exact Hall]. clear. simpl. set_solver.
Qed.

Lemma wp_requeue_go fuel ts0 parent B frontier count d (Q : Z -> Database -> Prop) :
  NoDup (map t_id ts0) ->
  frontier_ok held_by requeued ts0 parent B frontier (production_task d) ->
  (length frontier + source_rows (task_with_status "blocked") (production_task d) <= fuel)%nat ->
  count <= u64_max ->
  (forall B' ts', frontier_ok held_by requeued ts0 parent (B' ++ B) [] ts' ->
     Q (sat_add u64_max count (Z.of_nat (length B'))) (with_tasks ts' d)) ->
  wp (requeue_go fuel frontier count) Q d.
Proof.
  intros Hn. revert B frontier count d. induction fuel as [|fuel IH]; intros B frontier count d Hf Hfuel Hb HQ;
    (destruct frontier as [|x frontier];
     [simpl; apply wp_ret; specialize (HQ [] _ Hf); rewrite sat_add_0 in HQ by done; by destruct d|]).
  - simpl in Hfuel. lia.
  - pose proof (spread_ids _ _ _ (fr_spread _ _ _ _ _ Hf)) as Hids.
    simpl. apply wp_bind, wp_query, wp_bind. change (fun t => _ && _) with (held_by x).
    apply wp_requeue_dependents; [by rewrite Hids|apply NoDup_ids_filter; by rewrite Hids| |done|].
    + intros t [Ht Hx]%filter_In. unfold held_by, task_with_status in Hx. bool_facts. auto.
    + intros ts' Hts'. simpl.
      eapply IH; [by eapply frontier_step| |unfold sat_add; lia|].
      * pose proof (frontier_measure (rules := requeueing_rules) x frontier _ _ ltac:(by rewrite Hids) Hts'). simpl in *. lia.
      * intros B' ts2 H2. rewrite app_assoc in H2. specialize (HQ _ _ H2). revert HQ.
        rewrite length_app, length_map, sat_add_assoc by lia. by rewrite Nat2Z.inj_add, Z.add_comm.
Qed.

Lemma wp_requeue parent d (Q : Z -> Database -> Prop) :
  NoDup (map t_id (production_task d)) ->
  (forall B ts', requeued_set B (production_task d) ts' ->
     (forall x, x ∈ B <-> held_downstream (production_task d) parent x) ->
     Q (sat_add u64_max 0 (Z.of_nat (length B))) (with_tasks ts' d)) ->
  wp (requeue_blocked_production_task_descendants parent) Q d.
Proof.
  intros Hn HQ. apply wp_bind, wp_peek.
  eapply wp_requeue_go; [done|apply frontier_start| |done|].
  - unfold source_rows. simpl. pose proof (List.filter_length_le (task_with_status "blocked") (production_task d)). lia.
  - intros B ts' Hf. rewrite app_nil_r in Hf. apply HQ; [apply Hf|by eapply frontier_done].
Qed.

End Quiet.
