(* ===== verification/TaskClaim.v ===== *)
(** * Claiming the next task

    [claim_next_production_task] when nobody disturbs it: it ends; it blocks exactly tasks whose
    dependency can no longer be met; the task it starts may run; and no earlier task that was ready was
    passed over, but for one that the call itself made ready behind its back. *)

From S2P Require Import Prelude Db TaskStore TaskInvariant TaskGraph.

(** ** Dependency states of a table *)

(** What [production_task_dependency_state] answers on a table. *)
Definition dependency_state (ts : list Task) (task : Task) : DependencyState :=
  if is_blank (t_depends_on_task_id task) then Ready
  else if t_depends_on_task_id task == t_id task
  then Blocked ("dependency_cycle:" +:+ t_id task)
  else
    match List.find (task_with_id (t_depends_on_task_id task)) ts with
    | None => Blocked ("dependency_not_found:" +:+ t_depends_on_task_id task)
    | Some dependency =>
        if (t_chain_id dependency != t_chain_id task)
           || (t_session_id dependency != t_session_id task)
           || (t_material_id dependency != t_material_id task)
        then Blocked ("dependency_chain_mismatch:" +:+ t_id dependency)
        else if t_dependency_policy task == "always-run"
        then (if production_task_status_is_terminal (t_status dependency) then Ready else Waiting)
        else if t_status dependency == "succeeded" then Ready
        else if unsuccessful (t_status dependency)
        then Blocked ("dependency_" +:+ t_status dependency +:+ ":" +:+ t_id dependency)
        else Waiting
    end.

Definition claimable (t : Task) : bool := task_with_status "queued" t && negb (t_cancel_requested t).

(** One row of a table before and after some queued rows were blocked. *)
Definition maybe_blocked (r r' : Task) : Prop :=
  r' = r \/ (t_status r = "queued" /\ exists reason now, now <> EmptyString /\ r' = blocked_row reason now r).

(** The same, for a reason that table [ts] confirms. *)
Definition rightly_blocked (ts : list Task) (r r' : Task) : Prop :=
  r' = r \/ (claimable r = true /\ exists reason now, now <> EmptyString /\
               dependency_state ts r = Blocked reason /\ r' = blocked_row reason now r).

(** [ts'] is [ts] with claimable rows blocked whose dependency, in [ts'], can no longer be met. *)
Definition blocked_rightly (ts ts' : list Task) : Prop := Forall2 (rightly_blocked ts') ts ts'.

Lemma maybe_blocked_id r r' : maybe_blocked r r' -> t_id r' = t_id r.
Proof. by intros [->|(_ & ? & ? & _ & ->)]. Qed.

Lemma blocked_rightly_maybe ts ts' : blocked_rightly ts ts' -> Forall2 maybe_blocked ts ts'.
Proof.
  intros Hb. eapply Forall2_impl; [exact Hb|]. simpl.
  intros r r' [->|(Hc & reason & now & Hn & _ & ->)]; [by left|right].
  unfold claimable, task_with_status in Hc. bool_facts. eauto 10.
Qed.

Lemma maybe_blocked_ids ts ts' : Forall2 maybe_blocked ts ts' -> map t_id ts' = map t_id ts.
Proof. induction 1; simpl; [done|]. f_equal; [by apply maybe_blocked_id|done]. Qed.

Lemma maybe_blocked_find ts ts' id : Forall2 maybe_blocked ts ts' ->
  match List.find (task_with_id id) ts, List.find (task_with_id id) ts' with
  | Some r, Some r' => maybe_blocked r r'
  | None, None => True
  | _, _ => False
  end.
Proof. apply find_rows, maybe_blocked_id. Qed.

(** ** Stability under blocking *)

(** What a decided dependency state says stays true while queued tasks are blocked. *)
Lemma dependency_state_stable ts ts' t : Forall2 maybe_blocked ts ts' ->
  dependency_state ts t <> Waiting -> dependency_state ts' t = dependency_state ts t.
Proof.
  intros Hb. unfold dependency_state. destruct (is_blank _); [done|]. destruct (_ == t_id t); [done|].
  pose proof (maybe_blocked_find ts ts' (t_depends_on_task_id t) Hb) as Hf.
  destruct (List.find _ ts) as [r|], (List.find _ ts') as [r'|]; [|done..].
  destruct Hf as [->|(Hq & reason & now & _ & ->)]; [done|]. simpl. rewrite Hq.
  by repeat case_match.
Qed.

(** A task that waits becomes ready by blocking others only if it runs whatever its dependency ends like,
    and its dependency was blocked. *)
Definition freed_by (t r r' : Task) : Prop :=
  t_dependency_policy t = "always-run" /\ t_id r = t_depends_on_task_id t /\ t_status r = "queued" /\
  exists reason now, r' = blocked_row reason now r.

Lemma dependency_state_freed ts ts' t : Forall2 maybe_blocked ts ts' ->
  dependency_state ts t = Waiting -> dependency_state ts' t = Ready ->
  exists r r', In r ts /\ In r' ts' /\ freed_by t r r'.
Proof.
  intros Hb. unfold dependency_state. destruct (is_blank _); [done|]. destruct (_ == t_id t); [done|].
  pose proof (maybe_blocked_find ts ts' (t_depends_on_task_id t) Hb) as Hf.
  destruct (List.find _ ts) as [r|] eqn:E, (List.find _ ts') as [r'|] eqn:E'; [|done..].
  destruct Hf as [->|(Hq & reason & now & _ & ->)]; [intros E1; by rewrite E1|]. simpl.
  destruct (String.eqb_spec (t_dependency_policy t) "always-run") as [Hp|]; [|by repeat case_match].
  intros _ _. apply List.find_some in E as [Hr Hid], E' as [Hr' _]. exists r, (blocked_row reason now r).
  split_and!; [done|done|]. split_and!; [done|by apply String.eqb_eq in Hid|done|eauto].
Qed.

Lemma dependency_state_same ts t t' : same_task t t' -> dependency_state ts t' = dependency_state ts t.
Proof. intros [Hi _ _ Hm Hs Hc Hd Hp _ _ _]. unfold dependency_state. by rewrite Hi, Hm, Hs, Hc, Hd, Hp. Qed.

Lemma maybe_blocked_refl ts : Forall2 maybe_blocked ts ts.
Proof. induction ts; constructor; [by left|done]. Qed.

Lemma maybe_blocked_trans ts1 ts2 ts3 :
  Forall2 maybe_blocked ts1 ts2 -> Forall2 maybe_blocked ts2 ts3 -> Forall2 maybe_blocked ts1 ts3.
Proof.
  intros H1. revert ts3. induction H1 as [|r1 r2 ts1 ts2 Hr _ IH]; intros ts3 H2; inversion H2; subst;
    constructor; [|by apply IH].
  destruct Hr as [->|(Hq & reason & now & Hn & ->)]; [done|].
  match goal with H : maybe_blocked (blocked_row _ _ _) _ |- _ => destruct H as [->|(? & _)] end; [|done].
  right. eauto 10.
Qed.

Lemma blocked_rightly_refl ts : blocked_rightly ts ts.
Proof. unfold blocked_rightly. generalize ts at 1 as ts0. induction ts; constructor; [by left|auto]. Qed.

Lemma rightly_blocked_trans D ts1 ts2 ts3 :
  Forall2 (rightly_blocked D) ts1 ts2 -> Forall2 (rightly_blocked D) ts2 ts3 ->
  Forall2 (rightly_blocked D) ts1 ts3.
Proof.
  intros H1. revert ts3. induction H1 as [|r1 r2 ts1 ts2 Hr _ IH]; intros ts3 H2; inversion H2; subst;
    constructor; [|by apply IH].
  destruct Hr as [->|(Hq & reason & now & Hn & E & ->)]; [done|].
  match goal with H : rightly_blocked _ (blocked_row _ _ _) _ |- _ => destruct H as [->|(? & _)] end; [|done].
  right. eauto 10.
Qed.

Lemma blocked_rightly_trans ts1 ts2 ts3 :
  blocked_rightly ts1 ts2 -> blocked_rightly ts2 ts3 -> blocked_rightly ts1 ts3.
Proof.
  intros H1 H2. pose proof (blocked_rightly_maybe _ _ H2) as H23. unfold blocked_rightly in *.
  eapply rightly_blocked_trans; [|exact H2]. eapply Forall2_impl; [exact H1|].
  intros r r' [->|(Hc & reason & now & Hn & E & ->)]; [by left|right].
  split; [done|]. exists reason, now. split_and!; [done| |done].
  by rewrite (dependency_state_stable _ _ _ H23), E; [|rewrite E].
Qed.

(** ** One pass over the queue *)

(** Blocking one row, for a reason the table confirms. *)
Lemma block_one_rightly ts t reason now :
  NoDup (map t_id ts) -> In t ts -> claimable t = true -> now <> EmptyString ->
  dependency_state ts t = Blocked reason ->
  blocked_rightly ts (update_where (task_with_id (t_id t)) (blocked_row reason now) ts).
Proof.
  intros Hn Ht Hc Hnow Hd. set (ts' := update_where _ _ _).
  assert (Hq : t_status t = "queued") by (unfold claimable, task_with_status in Hc; by bool_facts).
  assert (Hm : Forall2 maybe_blocked ts ts').
  { apply update_by_id_rows; [done|done|by left|right; eauto]. }
  apply update_by_id_rows; [done|done|by left|]. right. split; [done|]. exists reason, now.
  split_and!; [done| |done]. by rewrite (dependency_state_stable _ _ _ Hm), Hd; [|rewrite Hd].
Qed.

(** Starting a queued task changes nobody's dependency state. *)
Lemma dependency_state_claimed ts t attempts now u :
  NoDup (map t_id ts) -> In t ts -> t_status t = "queued" ->
  dependency_state (update_where (task_with_id (t_id t)) (claimed_row attempts now) ts) u
  = dependency_state ts u.
Proof.
  intros Hn Ht Hq. unfold dependency_state. destruct (is_blank _); [done|]. destruct (_ == t_id u); [done|].
  assert (Hf := find_rows (fun r r' => r' = r \/ (t_status r = "queued" /\ r' = claimed_row attempts now r))
    ts (update_where (task_with_id (t_id t)) (claimed_row attempts now) ts) (t_depends_on_task_id u)).
  specialize (Hf ltac:(by intros ? ? [->|[_ ->]])
    ltac:(apply update_by_id_rows; [done|done|by left|by right])).
  destruct (List.find _ ts) as [r|], (List.find _ (update_where _ _ _)) as [r'|]; [|done..].
  destruct Hf as [->|[Hr ->]]; [done|]. simpl. rewrite Hr. by repeat case_match.
Qed.

Section Quiet.
Context `{Quiet}.

Lemma wp_dependency_state t (Q : DependencyState -> Database -> Prop) d :
  Q (dependency_state (production_task d) t) d -> wp (production_task_dependency_state t) Q d.
Proof.
  unfold production_task_dependency_state, dependency_state. intros HQ.
  destruct (is_blank _); [by apply wp_ret|]. destruct (_ == t_id t); [by apply wp_ret|].
  apply wp_bind, wp_find. revert HQ. by repeat case_match; intros; apply wp_ret.
Qed.

(** What a pass over [queued] leaves: the table [mid] before a claim, and the claim if any. *)
Definition scan_post (ts : list Task) (queued : list Task) (changed : bool)
    (answer : option Task + bool) (ts' : list Task) : Prop :=
  exists mid, blocked_rightly ts mid /\
    match answer with
    | inr changed' => ts' = mid /\
        ((changed' = changed /\ mid = ts /\ forall t, In t queued -> dependency_state ts t = Waiting)
         \/ (changed' = true /\
             source_rows (task_with_status "queued") mid < source_rows (task_with_status "queued") ts)%nat)
    | inl found => exists skipped model rest now, queued = skipped ++ model :: rest /\
        In model mid /\ now <> EmptyString /\ dependency_state mid model = Ready /\
        found = Some (claimed_row (wrap_i32 (t_attempts model + 1)) now model) /\
        ts' = update_where (task_with_id (t_id model))
                (claimed_row (wrap_i32 (t_attempts model + 1)) now) mid /\
        (forall r, In r ts -> In r mid \/ In r skipped) /\
        (forall before u after, skipped = before ++ u :: after -> dependency_state mid u = Ready ->
           exists v v', In v after /\ In v' mid /\ freed_by u v v')
    end.

(** A task the pass found waiting, or blocked, joins those it skipped. *)
Lemma scan_post_waiting ts t rest changed answer ts' :
  NoDup (map t_id ts) -> dependency_state ts t = Waiting -> scan_post ts rest changed answer ts' ->
  scan_post ts (t :: rest) changed answer ts'.
Proof.
  intros Hnd Ht (mid & Hb & Hans). exists mid. split; [done|]. destruct answer as [found|changed'].
  - destruct Hans as (skipped & model & rest' & now & -> & Hm & Hn & Hr & Hf & Hts & Hkept & Hsk).
    exists (t :: skipped), model, rest', now. split_and!; [done..| |].
    { intros r Hr0. destruct (Hkept r Hr0); [by left|right; by right]. }
    intros [|t' before] u after [= <- Hsplit] Hu; [|by eapply Hsk]. subst after. pose proof (blocked_rightly_maybe _ _ Hb) as Hmb.
    destruct (dependency_state_freed _ _ _ Hmb Ht Hu) as (v & v' & Hv & Hv' & Hfr). exists v, v'. split_and!; [|done..].
    destruct (Hkept v Hv) as [Hvm|]; [|done]. exfalso. destruct Hfr as (_ & _ & Hq & reason & now' & ->).
    assert (v = blocked_row reason now' v) as E.
    { apply (NoDup_ids_eq mid); [by rewrite (maybe_blocked_ids _ _ Hmb)|done..]. }
    apply (f_equal t_status) in E. rewrite Hq in E. done.
  - destruct Hans as [-> [(-> & -> & Hw)|?]]; (split; [done|]); [left|by right].
    split_and!; [done..|]. intros u [<-|Hu]; [done|auto].
Qed.

Lemma scan_post_blocked ts0 ts t reason rest changed answer ts' :
  blocked_rightly ts0 ts -> (forall r, In r ts0 -> In r ts \/ r = t) -> dependency_state ts t = Blocked reason ->
  (source_rows (task_with_status "queued") ts < source_rows (task_with_status "queued") ts0)%nat ->
  scan_post ts rest true answer ts' -> scan_post ts0 (t :: rest) changed answer ts'.
Proof.
  intros H0 Hin0 Ht Hlt (mid & Hb & Hans). exists mid. split; [by eapply blocked_rightly_trans|].
  destruct answer as [found|changed'].
  - destruct Hans as (skipped & model & rest' & now & -> & Hm & Hn & Hr & Hf & Hts & Hkept & Hsk).
    exists (t :: skipped), model, rest', now. split_and!; [done..| |].
    { intros r Hr0. destruct (Hin0 r Hr0) as [Hr1| ->]; [|right; by left]. destruct (Hkept r Hr1); [by left|right; by right]. }
    intros [|t' before] u after [= <- Hsplit] Hu; [|by eapply Hsk]. exfalso. revert Hu.
    rewrite (dependency_state_stable ts), Ht; [done|by apply blocked_rightly_maybe|by rewrite Ht].
  - destruct Hans as [-> [(-> & -> & _)|(-> & ?)]]; (split; [done|]); right; split; [done..|done|lia].
Qed.

(** The claiming update hits one row. *)
Lemma claim_update_one ts t f :
  NoDup (map t_id ts) -> In t ts -> claimable t = true ->
  let p r := task_with_id (t_id t) r && task_with_status "queued" r && negb (t_cancel_requested r) in
  count_where p ts = 1 /\ update_where p f ts = update_where (task_with_id (t_id t)) f ts.
Proof.
  intros Hn Ht Hc p. unfold claimable in Hc. split.
  - apply (count_unique _ _ t Hn Ht); unfold p, task_with_id.
    + by rewrite String.eqb_refl, <- andb_assoc, Hc.
    + intros r Hr. by bool_facts.
  - apply update_where_eq. intros r Hr. unfold p. unfold task_with_id.
    destruct (String.eqb_spec (t_id r) (t_id t)) as [E|]; [|done].
    by rewrite (NoDup_ids_eq _ _ _ Hn Hr Ht E), <- andb_assoc, Hc.
Qed.

Lemma block_one_rows ts t reason now :
  NoDup (map t_id ts) -> In t ts -> t_status t = "queued" ->
  (source_rows (task_with_status "queued")
     (update_where (task_with_id (t_id t)) (blocked_row reason now) ts)
   < source_rows (task_with_status "queued") ts)%nat.
Proof.
  unfold source_rows, update_where. induction ts as [|r ts IH]; simpl; [done|].
  intros [Hn Hd]%NoDup_cons Ht Hs. unfold task_with_id at 1.
  destruct (String.eqb_spec (t_id r) (t_id t)) as [E|E].
  - assert (r = t) as -> by (eapply (NoDup_ids_eq (r :: ts)); [by constructor|by left|done|done]).
    assert (map (fun x => if task_with_id (t_id t) x then blocked_row reason now x else x) ts = ts) as ->.
    { rewrite <- (map_id ts) at 2. apply map_ext_in. intros x Hx. unfold task_with_id.
      destruct (String.eqb_spec (t_id x) (t_id t)) as [Ex|]; [|done].
      destruct Hn. rewrite <- Ex. by apply list_elem_of_In, in_map. }
    assert (task_with_status "queued" (blocked_row reason now t) = false) as -> by done.
    assert (task_with_status "queued" t = true) as -> by (unfold task_with_status; by rewrite Hs).
    simpl. lia.
  - destruct Ht as [->|Ht]; [done|]. specialize (IH Hd Ht Hs). destruct (task_with_status "queued" r); simpl; lia.
Qed.

Lemma wp_claim_scan queued changed d :
  NoDup (map t_id (production_task d)) -> NoDup (map t_id queued) ->
  (forall t, In t queued -> In t (production_task d) /\ claimable t = true) ->
  wp (claim_scan queued changed)
     (fun answer d' => scan_post (production_task d) queued changed answer (production_task d')
                       /\ d' = with_tasks (production_task d') d) d.
Proof.
  revert d changed. induction queued as [|t queued IH]; intros d changed Hn Hnq Hin.
  - simpl. apply wp_ret. split; [|by destruct d]. exists (production_task d).
    split; [apply blocked_rightly_refl|]. split; [done|]. left. done.
  - simpl in Hnq. apply NoDup_cons in Hnq as [Hnt Hnq]. destruct (Hin t (or_introl eq_refl)) as [Ht Hc].
    assert (Hq : t_status t = "queued") by (unfold claimable, task_with_status in Hc; by bool_facts).
    simpl. apply wp_bind, wp_dependency_state. destruct (dependency_state _ t) as [| |reason] eqn:Hd.
    + apply wp_bind, wp_now. intros now Hnow. apply wp_bind, wp_update_tasks.
      destruct (claim_update_one _ t (claimed_row (wrap_i32 (t_attempts t + 1)) now) Hn Ht Hc) as [-> ->].
      simpl. apply wp_bind, wp_find, wp_ret. split; [|done]. exists (production_task d).
      split; [apply blocked_rightly_refl|]. exists [], t, queued, now. split_and!; [done..| |done|auto|].
      * by apply find_updated.
      * by intros [|? ?].
    + eapply wp_mono; [apply IH; auto; intros; apply Hin; by right|].
      intros answer d' [Hp ->]. split; [by apply scan_post_waiting|done].
    + apply wp_bind, (wp_mark_blocked _ _ _ t Hn Ht Hq). intros now Hnow. rewrite orb_true_r.
      pose proof (block_one_rightly _ t reason now Hn Ht Hc Hnow Hd) as Hb.
      pose proof (maybe_blocked_ids _ _ (blocked_rightly_maybe _ _ Hb)) as Hids.
      eapply wp_mono; [apply IH|].
      * cbn [production_task with_tasks]. by rewrite Hids.
      * done.
      * intros u Hu. destruct (Hin u (or_intror Hu)) as [Hud Huc]. split; [|done].
        cbn [production_task with_tasks]. unfold update_where. apply in_map_iff. exists u.
        unfold task_with_id. destruct (String.eqb_spec (t_id u) (t_id t)) as [E|]; [|done].
        destruct Hnt. rewrite <- E. by apply list_elem_of_In, in_map.
      * intros answer d' [Hp ->]. split; [|by destruct d].
        eapply scan_post_blocked; [exact Hb| | |by apply block_one_rows|exact Hp].
        { intros r Hr. cbn [production_task with_tasks]. destruct (decide (t_id r = t_id t)) as [E|E].
          - right. by apply (NoDup_ids_eq _ _ _ Hn Hr Ht).
          - left. unfold update_where. apply in_map_iff. exists r. unfold task_with_id. by rewrite (proj2 (String.eqb_neq _ _) E). }
        by rewrite (dependency_state_stable (production_task d)), Hd;
          [|apply blocked_rightly_maybe|rewrite Hd].
Qed.

(** What a claim leaves: the table [mid] after blocking, and the claimed row if there is one. *)
Definition claim_post (ts : list Task) (answer : option Task) (ts' : list Task) : Prop :=
  exists mid, blocked_rightly ts mid /\
    match answer with
    | None => ts' = mid /\ forall t, In t mid -> claimable t = true -> dependency_state mid t = Waiting
    | Some claimed => exists model now, In model mid /\ claimable model = true /\ now <> EmptyString /\
        dependency_state mid model = Ready /\
        claimed = claimed_row (wrap_i32 (t_attempts model + 1)) now model /\
        ts' = update_where (task_with_id (t_id model))
                (claimed_row (wrap_i32 (t_attempts model + 1)) now) mid /\
        (forall u, In u mid -> claimable u = true -> key_le (task_key u) (task_key model) ->
           t_id u <> t_id model -> dependency_state mid u = Ready ->
           exists v v', In v ts /\ claimable v = true /\ In v' mid /\ freed_by u v v' /\
             key_le (task_key u) (task_key v) /\ key_le (task_key v) (task_key model))
    end.

(** The queue of a table, in claiming order. *)
Lemma queue_in ts t :
  In t (order_asc task_key (List.filter claimable ts)) <-> In t ts /\ claimable t = true.
Proof.
  unfold order_asc. rewrite <- filter_In. rewrite <- !list_elem_of_In.
  by rewrite (merge_sort_Permutation (asc_le task_key)).
Qed.

Lemma queue_ids ts : NoDup (map t_id ts) ->
  NoDup (map t_id (order_asc task_key (List.filter claimable ts))).
Proof.
  intros Hn. unfold order_asc.
  eapply NoDup_Permutation_proper; [|exact (NoDup_ids_filter claimable ts Hn)].
  apply Permutation_map, merge_sort_Permutation.
Qed.

Lemma queue_sorted ts before x after y :
  order_asc task_key (List.filter claimable ts) = before ++ x :: after -> In y after -> key_le (task_key x) (task_key y).
Proof.
  intros Hq Hy. assert (Hs : StronglySorted (asc_le task_key) (before ++ x :: after))
    by (rewrite <- Hq; apply StronglySorted_merge_sort; apply _).
  apply StronglySorted_app_1_r in Hs. inversion Hs as [|? ? _ Hall]; subst.
  rewrite List.Forall_forall in Hall. exact (Hall y Hy).
Qed.

(** In a sorted queue the rows before a given one come first. *)
Lemma queue_before ts skipped model rest u :
  order_asc task_key (List.filter claimable ts) = skipped ++ model :: rest ->
  In u ts -> claimable u = true -> key_le (task_key u) (task_key model) -> t_id u <> t_id model ->
  In u skipped.
Proof.
  intros Hq Hu Hc Hle Hne.
  assert (Hin : In u (skipped ++ model :: rest)) by (rewrite <- Hq; by apply queue_in).
  apply in_app_iff in Hin as [?|[->|Hr]]; [done|done|].
  pose proof (queue_sorted _ _ _ _ _ Hq Hr). destruct Hne. assert (task_key u = task_key model) as [= _ ?] by (by apply (anti_symm key_le)). done.
Qed.

(** A claimable row was not blocked on the way. *)
Lemma claimable_kept ts mid u : blocked_rightly ts mid -> In u mid -> claimable u = true -> In u ts.
Proof.
  intros Hb Hu Hc. apply blocked_rightly_maybe in Hb.
  induction Hb as [|r r' ts mid Hr _ IH]; [done|]. destruct Hu as [->|Hu]; [|right; auto].
  destruct Hr as [->|(_ & ? & ? & _ & ->)]; [by left|done].
Qed.

Lemma claim_post_trans ts1 ts2 answer ts3 :
  blocked_rightly ts1 ts2 -> claim_post ts2 answer ts3 -> claim_post ts1 answer ts3.
Proof.
  intros H1 (mid & H2 & Hrest). exists mid. split; [by eapply blocked_rightly_trans|]. destruct answer as [claimed|]; [|done].
  destruct Hrest as (model & now & Hm & Hc & Hn & Hr & Hcl & Hts & Hord). exists model, now. split_and!; [done..|].
  intros u Hu Huc Hle Hne Hur. destruct (Hord u Hu Huc Hle Hne Hur) as (v & v' & Hv & Hvc & Hrest).
  exists v, v'. split; [by eapply claimable_kept|done].
Qed.

(** A task passed over although it is ready at the end, and the task of the queue that made it so. *)
Lemma passed_over ts mid skipped model rest u :
  order_asc task_key (List.filter claimable ts) = skipped ++ model :: rest ->
  (forall before u after, skipped = before ++ u :: after -> dependency_state mid u = Ready ->
     exists v v', In v after /\ In v' mid /\ freed_by u v v') ->
  In u skipped -> dependency_state mid u = Ready ->
  exists v v', In v ts /\ claimable v = true /\ In v' mid /\ freed_by u v v' /\
    key_le (task_key u) (task_key v) /\ key_le (task_key v) (task_key model).
Proof.
  intros Hq Hsk (before & after & ->)%in_split Hr. destruct (Hsk _ _ _ eq_refl Hr) as (v & v' & Hv & Hv' & Hf).
  exists v, v'. pose proof Hv as (a1 & a2 & ->)%in_split.
  assert (Hin : In v ts /\ claimable v = true) by (apply queue_in; rewrite Hq; repeat (rewrite in_app_iff; simpl); auto 10).
  destruct Hin as [Hvt Hvc]. split_and!; [done..| |].
  - eapply (queue_sorted ts before); [by rewrite Hq, <- app_assoc|]. apply in_app_iff. left. done.
  - eapply (queue_sorted ts (before ++ u :: a1)); [rewrite Hq, <- !app_assoc; simpl; by rewrite <- app_assoc|].
    apply in_app_iff. right. by left.
Qed.

Lemma wp_claim_go fuel d :
  NoDup (map t_id (production_task d)) ->
  (source_rows (task_with_status "queued") (production_task d) < fuel)%nat ->
  wp (claim_go fuel)
     (fun answer d' => claim_post (production_task d) answer (production_task d')
                       /\ d' = with_tasks (production_task d') d) d.
Proof.
  revert d. induction fuel as [|fuel IH]; intros d Hn Hfuel; [lia|]. simpl. apply wp_bind, wp_query.
  change (fun t => task_with_status "queued" t && negb (t_cancel_requested t)) with claimable.
  destruct (order_asc task_key _) as [|t0 l] eqn:Hq.
  - apply wp_ret. split; [|by destruct d]. exists (production_task d). split; [apply blocked_rightly_refl|].
    split; [done|]. intros t Ht Hc. exfalso.
    apply (in_nil (a := t)). rewrite <- Hq. by apply queue_in.
  - rewrite <- Hq. apply wp_bind. eapply wp_mono; [apply wp_claim_scan|].
    + done.
    + by apply queue_ids.
    + intros t. by apply queue_in.
    + intros [found|changed] d' [(mid & Hb & Hans) Hd'].
      * apply wp_ret. split; [|done]. exists mid. split; [done|].
        destruct Hans as (skipped & model & rest & now & Hsplit & Hm & Hnow & Hr & -> & Hts & _ & Hsk).
        exists model, now.
        assert (Hmc : claimable model = true).
        { assert (In model (production_task d) /\ claimable model = true) as [_ ?]; [|done].
          apply queue_in. rewrite Hsplit. apply in_app_iff. right. by left. }
        split_and!; [done..|]. intros u Hu Huc Hle Hne Hp. eapply passed_over; [exact Hsplit|exact Hsk| |done].
        eapply queue_before; [done| |done..]. by eapply claimable_kept.
      * destruct Hans as [Hmid [(-> & Hts & Hw)|(-> & Hlt)]]; subst mid.
        -- apply wp_ret. split; [|done]. exists (production_task d'). split; [done|]. split; [done|].
           intros t Ht Hc. rewrite Hts. apply Hw. apply queue_in. by rewrite <- Hts.
        -- eapply wp_mono; [apply IH|].
           ++ by rewrite (maybe_blocked_ids _ _ (blocked_rightly_maybe _ _ Hb)).
           ++ lia.
           ++ intros answer d2 [Hp Hd2]. split; [by eapply claim_post_trans|].
              rewrite Hd2. rewrite Hd'. by destruct d.
Qed.

Lemma wp_claim d :
  NoDup (map t_id (production_task d)) ->
  wp claim_next_production_task
     (fun answer d' => claim_post (production_task d) answer (production_task d')
                       /\ d' = with_tasks (production_task d') d) d.
Proof.
  intros Hn. apply wp_bind, wp_peek, wp_claim_go; [done|]. unfold source_rows.
  pose proof (List.filter_length_le (task_with_status "queued") (production_task d)). lia.
Qed.

End Quiet.
