(* ===== verification/TaskOps.v ===== *)
(** * Finishing, cancelling, retrying and recovering tasks

    What the operations of the store do to the whole table when nobody disturbs them, on every
    branch, and the theorems about claiming and propagation stated of whole runs. *)

From S2P Require Import Prelude Db TaskStore TaskInvariant TaskGraph TaskClaim.

(** ** Tables before and after *)

(** [ts'] is [ts] with exactly the tasks downstream of [parent] blocked. *)
Definition blocks_downstream (parent : string) (ts ts' : list Task) : Prop :=
  Forall2 (fun r r' => (downstream ts parent (t_id r) /\ blocked_for_dependency r r')
                       \/ (~ downstream ts parent (t_id r) /\ r' = r)) ts ts'.

(** [ts'] is [ts] with exactly the blocked tasks held by [parent] queued again. *)
Definition requeues_held (parent : string) (ts ts' : list Task) : Prop :=
  Forall2 (fun r r' => (held_downstream ts parent (t_id r) /\ requeued r r')
                       \/ (~ held_downstream ts parent (t_id r) /\ r' = r)) ts ts'.

(** [ts] with the row of task [id] replaced. *)
Definition update_task (id : string) (f : Task -> Task) (ts : list Task) : list Task :=
  update_where (task_with_id id) f ts.

Lemma spread_reach change edge parent B ts ts' :
  spread change B ts ts' -> (forall x, x ∈ B <-> reach edge ts parent x) ->
  Forall2 (fun r r' => (reach edge ts parent (t_id r) /\ change r r')
                       \/ (~ reach edge ts parent (t_id r) /\ r' = r)) ts ts'.
Proof. intros Hs HB. eapply Forall2_impl; [exact Hs|]. simpl. intros r r'. by rewrite HB. Qed.

(** Nothing waits for [parent] any more. *)
Lemma blocks_downstream_none parent ts ts' t :
  blocks_downstream parent ts ts' -> In t ts' -> requires parent t = false.
Proof.
  intros Hb Ht. destruct (requires parent t) eqn:E; [exfalso|done].
  assert (Hin : forall r, In r ts -> requires parent r = true -> downstream ts parent (t_id r))
    by (intros; by apply reach_direct).
  revert Hin. unfold blocks_downstream in Hb. generalize (downstream ts parent) as D, Hb.
  clear Hb. intros D Hb. revert Ht. induction Hb as [|r r' ts ts' Hr _ IH]; simpl; [done|].
  intros [->|Ht] Hin; [|apply IH; auto].
  destruct Hr as [(_ & ? & ? & _ & ->)|[Hn ->]]; [|by apply Hn, Hin; [left|]].
  unfold requires in E. simpl in E. by rewrite !andb_false_r in E.
Qed.

(** Only rows in the source state of a loop are reached. *)
Lemma reach_rows `{rules : !SpreadRules edge source change} parent ts ts' :
  NoDup (map t_id ts) ->
  Forall2 (fun r r' => (reach edge ts parent (t_id r) /\ change r r')
                       \/ (~ reach edge ts parent (t_id r) /\ r' = r)) ts ts' ->
  Forall2 (fun r r' => (reach edge ts parent (t_id r) /\ source r = true /\ change r r')
                       \/ (~ reach edge ts parent (t_id r) /\ r' = r)) ts ts'.
Proof.
  intros Hn Hb.
  assert (Hs : forall r, In r ts -> reach edge ts parent (t_id r) -> source r = true).
  { intros r Hr Hx.
    assert (exists t, In t ts /\ t_id t = t_id r /\ source t = true) as (t & Ht & E & Hs).
    { inversion Hx as [t Ht He|mid t _ Ht He]; subst; exists t; split_and!; eauto using edge_source. }
    by rewrite <- (NoDup_ids_eq ts t r Hn Ht Hr E). }
  revert Hb Hs. generalize (reach edge ts parent) as D. clear. intros D Hb Hs.
  induction Hb as [|r r' ts ts' Hr _ IH]; constructor.
  - destruct Hr as [[HD Hr]|[HD ->]]; [left|by right]. split_and!; [done| |done]. apply Hs; [by left|done].
  - apply IH. intros x Hx. apply Hs. by right.
Qed.

Lemma update_task_ids id f ts : (forall t, t_id (f t) = t_id t) ->
  map t_id (update_where (task_with_id id) f ts) = map t_id ts.
Proof.
  intros Hf. unfold update_where. rewrite map_map. apply map_ext. intros t.
  by destruct (task_with_id id t).
Qed.

Section Quiet.
Context `{Quiet}.

Lemma wp_propagate_rows parent d (Q : Z -> Database -> Prop) :
  NoDup (map t_id (production_task d)) ->
  (forall n ts', blocks_downstream parent (production_task d) ts' -> Q n (with_tasks ts' d)) ->
  wp (propagate_production_task_dependency_failure parent) Q d.
Proof.
  intros Hn HQ. apply wp_propagate; [done|]. intros B ts' Hs HB. apply HQ.
  by eapply spread_reach.
Qed.

Lemma wp_requeue_rows parent d (Q : Z -> Database -> Prop) :
  NoDup (map t_id (production_task d)) ->
  (forall n ts', requeues_held parent (production_task d) ts' -> Q n (with_tasks ts' d)) ->
  wp (requeue_blocked_production_task_descendants parent) Q d.
Proof.
  intros Hn HQ. apply wp_requeue; [done|]. intros B ts' Hs HB. apply HQ.
  by eapply spread_reach.
Qed.

(** ** Finishing *)

(** The table after [finish]: the row is finished and, when the task was not successful, everything
    downstream of it is blocked. *)
Definition finish_post (id status : string) (progress : Z) (result error : string)
    (ts : list Task) (answer : option Task) (ts' : list Task) : Prop :=
  match List.find (task_with_id id) ts with
  | None => answer = None /\ ts' = ts
  | Some t => exists now, now <> EmptyString /\
      let f := finished_row status progress result error now in
      answer = Some (f t) /\
      (if unsuccessful status then blocks_downstream id (update_task id f ts) ts'
       else ts' = update_task id f ts)
  end.

Lemma wp_finish id status progress result error d :
  NoDup (map t_id (production_task d)) ->
  wp (finish_production_task id status progress result error)
     (fun answer d' => finish_post id status progress result error (production_task d) answer (production_task d')
                       /\ d' = with_tasks (production_task d') d) d.
Proof.
  intros Hn. unfold finish_production_task, finish_post. apply wp_bind, wp_find.
  destruct (List.find _ _) as [t|] eqn:Hf; [|apply wp_ret; by destruct d].
  assert (t_id t = id) as Hid by (apply find_some in Hf as [_ Hf]; by apply String.eqb_eq).
  apply wp_bind, wp_now. intros now Hnow. apply wp_bind. rewrite Hid.
  eapply wp_update_by_id; [done|]. destruct (unsuccessful status).
  - apply wp_bind, wp_propagate_rows.
    + cbn [production_task with_tasks]. by rewrite (update_task_ids id (finished_row _ _ _ _ _)).
    + intros n ts' Hb. apply wp_ret. split; [|by destruct d]. exists now. split_and!; done.
  - apply wp_ret. split; [|by destruct d]. exists now. split_and!; done.
Qed.

(** ** Cancelling *)

Definition cancel_post (id : string) (ts : list Task) (answer : option Task) (ts' : list Task) : Prop :=
  match List.find (task_with_id id) ts with
  | None => answer = None /\ ts' = ts
  | Some t =>
      if production_task_status_is_terminal (t_status t) then answer = Some t /\ ts' = ts
      else if t_status t == "queued" then exists now, now <> EmptyString /\
        answer = Some (cancel_queued_row now t) /\
        blocks_downstream id (update_task id (cancel_queued_row now) ts) ts'
      else exists now, now <> EmptyString /\
        answer = Some (cancel_running_row now t) /\ ts' = update_task id (cancel_running_row now) ts
  end.

Lemma wp_cancel id d :
  NoDup (map t_id (production_task d)) ->
  wp (request_cancel_production_task id)
     (fun answer d' => cancel_post id (production_task d) answer (production_task d')
                       /\ d' = with_tasks (production_task d') d) d.
Proof.
  intros Hn. unfold request_cancel_production_task, cancel_post. apply wp_bind, wp_find.
  destruct (List.find _ _) as [t|] eqn:Hf; [|apply wp_ret; by destruct d].
  assert (t_id t = id) as Hid by (apply find_some in Hf as [_ Hf]; by apply String.eqb_eq).
  destruct (production_task_status_is_terminal _); [apply wp_ret; by destruct d|].
  apply wp_bind, wp_now. intros now Hnow. apply wp_bind. rewrite Hid.
  eapply wp_update_by_id; [done|]. destruct (t_status t == "queued").
  - apply wp_bind, wp_propagate_rows.
    + cbn [production_task with_tasks]. by rewrite (update_task_ids id (cancel_queued_row _)).
    + intros n ts' Hb. apply wp_ret. split; [|by destruct d]. by exists now.
  - apply wp_ret. split; [|by destruct d]. by exists now.
Qed.

(** ** Retrying *)

Definition next_max_attempts (t : Task) : Z :=
  Z.min (Z.max (t_max_attempts t) (wrap_i32 (t_attempts t + 1))) 10.

(** [retry] acts on an unsuccessful task, and on a blocked one only when its dependency is met. *)
Definition retryable (ts : list Task) (t : Task) : bool :=
  unsuccessful (t_status t) &&
  (if t_status t == "blocked" then match dependency_state ts t with Ready => true | _ => false end else true).

Definition retry_post (id : string) (ts : list Task) (answer : option Task) (ts' : list Task) : Prop :=
  match List.find (task_with_id id) ts with
  | None => answer = None /\ ts' = ts
  | Some t =>
      if retryable ts t then exists now, now <> EmptyString /\
        answer = Some (retried_row (next_max_attempts t) now t) /\
        requeues_held id (update_task id (retried_row (next_max_attempts t) now) ts) ts'
      else answer = Some t /\ ts' = ts
  end.

Lemma wp_retry id d :
  NoDup (map t_id (production_task d)) ->
  wp (retry_production_task id)
     (fun answer d' => retry_post id (production_task d) answer (production_task d')
                       /\ d' = with_tasks (production_task d') d) d.
Proof.
  intros Hn. unfold retry_production_task, retry_post, retryable. apply wp_bind, wp_find.
  destruct (List.find _ _) as [t|] eqn:Hf; [|apply wp_ret; by destruct d].
  assert (t_id t = id) as Hid by (apply find_some in Hf as [_ Hf]; by apply String.eqb_eq).
  destruct (unsuccessful (t_status t)) eqn:Hu; [|apply wp_ret; by destruct d].
  assert (Hgo : wp (let! now := now_millis_string in
    let! updated := update_task_by_id (t_id t) (retried_row (next_max_attempts t) now) in
    let! _ := requeue_blocked_production_task_descendants id in db_ret (Some updated))
    (fun answer d' => (exists now, now <> EmptyString /\
        answer = Some (retried_row (next_max_attempts t) now t) /\
        requeues_held id (update_task id (retried_row (next_max_attempts t) now) (production_task d)) (production_task d'))
        /\ d' = with_tasks (production_task d') d) d).
  { apply wp_bind, wp_now. intros now Hnow. apply wp_bind. rewrite Hid. eapply wp_update_by_id; [done|].
    apply wp_bind, wp_requeue_rows.
    - cbn [production_task with_tasks]. by rewrite (update_task_ids id (retried_row _ _)).
    - intros n ts' Hr. apply wp_ret. split; [|by destruct d]. by exists now. }
  simpl. destruct (t_status t == "blocked"); [|exact Hgo].
  apply wp_bind, wp_bind, wp_dependency_state, wp_ret.
  destruct (dependency_state _ t); [exact Hgo|apply wp_ret; by destruct d..].
Qed.

(** ** Recovering after a restart *)

(** What recovery does to a row: a running one is interrupted or cancelled, a queued one may be
    blocked for its dependency, everything else stays. *)
Definition recovered (r r' : Task) : Prop :=
  (t_status r = "running" /\ exists now, now <> EmptyString /\ r' = recovered_row (t_cancel_requested r) now r)
  \/ (t_status r = "queued" /\ blocked_for_dependency r r')
  \/ r' = r.

Lemma recovered_id r r' : recovered r r' -> t_id r' = t_id r.
Proof. by intros [(_ & now & _ & ->)|[(_ & ? & ? & _ & ->)| ->]]. Qed.

Lemma recovered_row_status cancelled now r :
  t_status (recovered_row cancelled now r) = if cancelled then "cancelled" else "interrupted".
Proof. done. Qed.

Lemma recovered_trans r1 r2 r3 : recovered r1 r2 -> recovered r2 r3 -> recovered r1 r3.
Proof.
  intros [(Hr & now & Hn & ->)|[(Hq & status & now & Hn & ->)| ->]]; [| |done].
  - unfold recovered. rewrite recovered_row_status.
    destruct (t_cancel_requested r1); (intros [[? _]|[[? _]| ->]]; [done|done|]); left; eauto.
  - intros [[? _]|[[? _]| ->]]; [done|done|]. right; left. split; [done|]. by exists status, now.
Qed.

Lemma recovered_tables_trans ts1 ts2 ts3 :
  Forall2 recovered ts1 ts2 -> Forall2 recovered ts2 ts3 -> Forall2 recovered ts1 ts3.
Proof.
  intros H1. revert ts3. induction H1; intros ts3 H2; inversion H2; subst; constructor; [|by auto].
  by eapply recovered_trans.
Qed.

(** Recovery never queues a task, so what nobody waits for stays that way. *)
Lemma recovered_queued ts ts' t : Forall2 recovered ts ts' -> In t ts' -> t_status t = "queued" -> In t ts.
Proof.
  induction 1 as [|r r' ts ts' Hr _ IH]; [done|]. intros [->|Ht] Hq; [left|right; auto].
  destruct Hr as [(_ & now & _ & ->)|[(_ & ? & ? & _ & ->)| ->]]; [|done|done].
  rewrite recovered_row_status in Hq. by destruct (t_cancel_requested r).
Qed.

Lemma recovered_running ts ts' t : Forall2 recovered ts ts' -> In t ts' -> t_status t = "running" -> In t ts.
Proof.
  induction 1 as [|r r' ts ts' Hr _ IH]; [done|]. intros [->|Ht] Hq; [left|right; auto].
  destruct Hr as [(_ & now & _ & ->)|[(_ & ? & ? & _ & ->)| ->]]; [|done|done].
  rewrite recovered_row_status in Hq. by destruct (t_cancel_requested r).
Qed.

Lemma blocks_downstream_queued parent ts ts' :
  NoDup (map t_id ts) -> blocks_downstream parent ts ts' ->
  Forall2 (fun r r' => (t_status r = "queued" /\ blocked_for_dependency r r') \/ r' = r) ts ts'.
Proof.
  intros Hn Hb. apply (reach_rows (rules := blocking_rules)) in Hb; [|done].
  eapply Forall2_impl; [exact Hb|]. simpl. unfold task_with_status. setoid_rewrite String.eqb_eq. tauto.
Qed.

Lemma blocks_downstream_recovered parent ts ts' :
  NoDup (map t_id ts) -> blocks_downstream parent ts ts' -> Forall2 recovered ts ts'.
Proof.
  intros Hn Hb. eapply Forall2_impl; [by eapply blocks_downstream_queued|]. simpl. unfold recovered. tauto.
Qed.

Lemma blocks_downstream_running parent ts ts' t :
  NoDup (map t_id ts) -> blocks_downstream parent ts ts' -> In t ts -> t_status t = "running" -> In t ts'.
Proof.
  intros Hn Hb. apply blocks_downstream_queued in Hb; [|done]. clear Hn.
  induction Hb as [|r r' ts ts' Hr _ IH]; [done|]. intros [->|Ht] Hs; [left|right; auto].
  destruct Hr as [[Hq _]| ->]; congruence.
Qed.

(** The rows still to be recovered are the running rows. *)
Lemma wp_recover_tasks models n d :
  NoDup (map t_id (production_task d)) -> NoDup (map t_id models) ->
  (forall t, In t models <-> In t (production_task d) /\ t_status t = "running") ->
  wp (recover_tasks models n)
     (fun m d' => m = n + Z.of_nat (length models) /\
        Forall2 recovered (production_task d) (production_task d') /\
        (forall t, In t (production_task d') -> t_status t <> "running") /\
        (forall r t, In r models -> In t (production_task d') -> requires (t_id r) t = false) /\
        d' = with_tasks (production_task d') d) d.
Proof.
  revert n d. induction models as [|r models IH]; intros n d Hn Hnm Hin; simpl.
  - apply wp_ret. split_and!; [lia| | |done|by destruct d].
    + generalize (production_task d). intros l. induction l; constructor; [by right; right|done].
    + intros t Ht Hr. by apply (Hin t).
  - simpl in Hnm. apply NoDup_cons in Hnm as [Hnr Hnm].
    destruct (proj1 (Hin r) (or_introl eq_refl)) as [Hr Hrun].
    apply wp_bind, wp_now. intros now Hnow. apply wp_bind. set (f := recovered_row (t_cancel_requested r) now).
    eapply wp_update_by_id; [by apply find_by_id|].
    assert (Hids : map t_id (update_where (task_with_id (t_id r)) f (production_task d)) = map t_id (production_task d))
      by (by apply update_task_ids).
    assert (H1 : Forall2 recovered (production_task d) (update_where (task_with_id (t_id r)) f (production_task d))).
    { apply update_by_id_rows; [done|done|by right; right|left; eauto]. }
    apply wp_bind, wp_propagate_rows; [cbn [production_task with_tasks]; by rewrite Hids|].
    intros k ts' Hb. cbn [production_task with_tasks] in Hb.
    assert (H2 := blocks_downstream_recovered _ _ _ ltac:(by rewrite Hids) Hb).
    assert (Hids' : map t_id ts' = map t_id (production_task d)).
    { rewrite <- Hids. clear -H2. induction H2; simpl; [done|]. f_equal; [by apply recovered_id|done]. }
    eapply wp_mono; [apply (IH (n + 1) (with_tasks ts' (with_tasks _ d)))|].
    + cbn [production_task with_tasks]. by rewrite Hids'.
    + done.
    + cbn [production_task with_tasks]. intros t. split.
      * intros Ht. destruct (proj1 (Hin t) (or_intror Ht)) as [Htd Hts]. split; [|done].
        eapply blocks_downstream_running; [by rewrite Hids|exact Hb| |done].
        apply in_map_iff. exists t. split; [|done]. unfold task_with_id.
        destruct (String.eqb_spec (t_id t) (t_id r)) as [E|]; [|done].
        destruct Hnr. rewrite <- E. by apply list_elem_of_In, in_map.
      * intros [Ht Hs]. apply (recovered_running _ _ t H2) in Ht as Ht1; [|done].
        apply (recovered_running _ _ t H1) in Ht1 as Ht0; [|done].
        destruct (proj2 (Hin t) (conj Ht0 Hs)) as [->|?]; [|done]. exfalso.
        assert (E := find_updated f _ t Hn Hr eq_refl).
        rewrite (find_by_id _ t) in E; [|by rewrite Hids|done].
        injection E as E. rewrite E in Hs. unfold f in Hs. rewrite recovered_row_status in Hs.
        by destruct (t_cancel_requested t).
    + intros m d' (Hm & Hf & Hnorun & Hreq & Hd'). cbn [production_task with_tasks] in Hf.
      split_and!; [simpl; lia| |done| |rewrite Hd'; by destruct d].
      * eapply recovered_tables_trans; [exact H1|]. eapply recovered_tables_trans; [exact H2|exact Hf].
      * intros x t [->|Hx] Ht; [|by apply Hreq]. destruct (requires (t_id x) t) eqn:E; [|done].
        rewrite <- E. eapply blocks_downstream_none; [exact Hb|].
        eapply recovered_queued; [exact Hf|done|]. unfold requires, task_with_status in E. by bool_facts.
Qed.

Lemma wp_recover d :
  NoDup (map t_id (production_task d)) ->
  wp recover_incomplete_production_tasks
     (fun m d' => m = count_where (task_with_status "running") (production_task d) /\
        Forall2 recovered (production_task d) (production_task d') /\
        (forall t, In t (production_task d') -> t_status t <> "running") /\
        (forall r t, In r (production_task d) -> t_status r = "running" ->
           In t (production_task d') -> requires (t_id r) t = false) /\
        d' = with_tasks (production_task d') d) d.
Proof.
  intros Hn. apply wp_bind, wp_query. eapply wp_mono; [apply wp_recover_tasks|].
  - done.
  - by apply NoDup_ids_filter.
  - intros t. rewrite filter_In. unfold task_with_status. by rewrite String.eqb_eq.
  - intros m d' (-> & Hf & Hr & Hq & Hd'). split_and!; [done..| |done].
    intros r t Hin Hrun. apply Hq. rewrite filter_In. unfold task_with_status. by rewrite Hrun.
Qed.

End Quiet.

(** ** Cancel, then retry *)

Lemma Forall2_in_l {A B} (P : A -> B -> Prop) l l' x : Forall2 P l l' -> In x l -> exists y, In y l' /\ P x y.
Proof.
  induction 1 as [|a b l l' Hab _ IH]; [done|]. intros [->|Hx]; [exists b; split; [by left|done]|].
  destruct (IH Hx) as (y & Hy & HP). exists y. split; [by right|done].
Qed.

(** What was blocked by the cancellation is held by the cancelled task. *)
Lemma blocked_then_held id f ts1 ts2 x :
  NoDup (map t_id ts1) -> blocks_downstream id ts1 ts2 -> (forall t, t_id (f t) = t_id t) ->
  (forall t, In t ts1 -> t_id t = id -> t_status t <> "queued") ->
  downstream ts1 id x -> held_downstream (update_task id f ts2) id x.
Proof.
  intros Hn Hb Hf Hid.
  assert (Hrow : forall mid t, In t ts1 -> requires mid t = true -> downstream ts1 id (t_id t) ->
    exists t2, In t2 (update_task id f ts2) /\ t_id t2 = t_id t /\ held_by mid t2 = true).
  { intros mid t Ht Hr Hd.
    destruct (Forall2_in_l _ _ _ t Hb Ht) as (t2 & Ht2 & [[_ (status & now & _ & ->)]|[? _]]); [|done].
    exists (blocked_row ("dependency_" +:+ status +:+ ":" +:+ t_depends_on_task_id t) now t).
    unfold requires, task_with_status in Hr. bool_facts. split_and!; [|done|].
    - apply in_map_iff. eexists. split; [|exact Ht2]. unfold task_with_id. simpl.
      destruct (String.eqb_spec (t_id t) id) as [E|]; [|done]. by destruct (Hid t).
    - unfold held_by. simpl. by apply andb_true_iff; split; [apply String.eqb_eq|]. }
  intros Hx. induction Hx as [t Ht Hr|mid t Hm IH Ht Hr].
  - destruct (Hrow id t Ht Hr ltac:(by apply reach_direct)) as (t2 & Ht2 & <- & Hh). by apply reach_direct.
  - destruct (Hrow mid t Ht Hr ltac:(by eapply reach_step)) as (t2 & Ht2 & <- & Hh). by eapply reach_step.
Qed.

(** The status of a row at the end, given its status at the start. *)
Definition restored (r r' : Task) : Prop :=
  t_id r' = t_id r /\ t_attempts r' = t_attempts r /\
  (t_status r' = t_status r \/ (t_status r = "blocked" /\ t_status r' = "queued")).

Lemma restore_row id now g (D D' : string -> Prop) r r1 r2 r4 :
  (if task_with_id id r then t_status r = "queued" /\ r1 = cancel_queued_row now r else r1 = r) ->
  (exists m now2, g = retried_row m now2) ->
  (forall x, D x -> D' x) ->
  (D (t_id r1) /\ task_with_status "queued" r1 = true /\ blocked_for_dependency r1 r2
   \/ ~ D (t_id r1) /\ r2 = r1) ->
  (let r3 := if task_with_id id r2 then g r2 else r2 in
   D' (t_id r3) /\ task_with_status "blocked" r3 = true /\ requeued r3 r4 \/ ~ D' (t_id r3) /\ r4 = r3) ->
  restored r r4.
Proof.
  intros H1 (m & now2 & ->) HD H2 H3. unfold restored, task_with_status in *.
  destruct (task_with_id id r) eqn:E.
  - destruct H1 as [Hq ->]. rewrite Hq.
    destruct H2 as [(_ & ? & _)|[_ ->]]; [done|]. simpl in H3.
    change (task_with_id id (cancel_queued_row now r)) with (task_with_id id r) in H3. rewrite E in H3.
    destruct H3 as [(_ & ? & _)|[_ ->]]; [done|]. simpl. auto.
  - subst r1. destruct H2 as [(Hd & Hq & status & now3 & _ & ->)|[Hd ->]]; simpl in H3.
    + change (task_with_id id (blocked_row _ now3 r)) with (task_with_id id r) in H3. rewrite E in H3.
      destruct H3 as [(_ & _ & now4 & ->)|[H3 _]]; [|by destruct H3; apply HD]. simpl. bool_facts. auto.
    + rewrite E in H3. destruct H3 as [(_ & Hbl & now4 & ->)|[_ ->]]; simpl; bool_facts; auto.
Qed.

Lemma restore_tables id now now2 ts ts2 ts4 t :
  NoDup (map t_id ts) -> In t ts -> t_id t = id -> t_status t = "queued" ->
  blocks_downstream id (update_task id (cancel_queued_row now) ts) ts2 ->
  requeues_held id (update_task id (retried_row (next_max_attempts (cancel_queued_row now t)) now2) ts2) ts4 ->
  Forall2 restored ts ts4.
Proof.
  intros Hn Ht Hid Hq Hb Hr. set (ts1 := update_task id _ ts) in *. set (g := retried_row _ now2) in *.
  assert (Hn1 : NoDup (map t_id ts1)) by (unfold ts1, update_task; by rewrite update_task_ids).
  assert (H1 : Forall2 (fun r r1 => if task_with_id id r then t_status r = "queued" /\ r1 = cancel_queued_row now r
                                    else r1 = r) ts ts1).
  { subst id. apply update_by_id_rows; [done|done| |]; unfold task_with_id.
    - intros r Hne. by rewrite (proj2 (String.eqb_neq _ _) Hne).
    - by rewrite String.eqb_refl. }
  assert (Hheld : forall x, downstream ts1 id x -> held_downstream (update_task id g ts2) id x).
  { intros x. eapply blocked_then_held; [done|exact Hb|done|]. intros u Hu Hui Hus.
    clear -H1 Hu Hui Hus. induction H1 as [|r r1 ts ts1 Hr _ IH]; [done|]. destruct Hu as [->|Hu]; [|auto].
    destruct (task_with_id id r) eqn:E; [by destruct Hr as [_ ->]|]. subst r.
    unfold task_with_id in E. by apply String.eqb_neq in E. }
  assert (H3 : Forall2 (fun r2 r3 => r3 = if task_with_id id r2 then g r2 else r2) ts2 (update_task id g ts2)).
  { unfold update_task, update_where. clear. induction ts2; constructor; done. }
  assert (Hids2 : map t_id ts2 = map t_id ts1).
  { clear -Hb. induction Hb as [|r r' l l' Hr _ IH]; simpl; [done|]. f_equal; [|done].
    by destruct Hr as [[_ (? & ? & _ & ->)]|[_ ->]]. }
  apply (reach_rows (rules := blocking_rules)) in Hb; [|done].
  apply (reach_rows (rules := requeueing_rules)) in Hr;
    [|unfold update_task; rewrite update_task_ids by done; by rewrite Hids2].
  revert Hheld Hb Hr. unfold downstream, held_downstream.
  generalize (reach requires ts1 id), (reach held_by (update_task id g ts2) id).
  intros D D'. revert H3. generalize (update_task id g ts2). clear -H1.
  revert ts2 ts4. induction H1 as [|r r1 ts ts1 Hr1 _ IH]; intros ts2 ts4 ts3 H3 Hheld Hb Hr;
    inversion Hb as [|? r2 ? ? Hr2 Hb']; subst; inversion H3 as [|? ? ? ? Hr3 H3']; subst;
    inversion Hr as [|? r4 ? ? Hr4 Hr']; subst; constructor; [|by eapply IH].
  clear IH Hb Hb' H3 H3' Hr Hr'. eapply restore_row; eauto.
Qed.

(** ** Theorems *)

(** C2. Claiming. Undisturbed, [claim_next_production_task] always ends with an answer. On the way
    it only blocks queued, not cancelled tasks, each for a reason its dependency still gives at the
    end (a cycle, a missing or foreign dependency, an unsuccessful one). Then either it claims one
    queued, not cancelled task whose dependency state is ready, and that row alone becomes running
    with one more attempt, and no queued, not cancelled task that precedes it in (created_at, id) order is
    ready, with one exception: an always-run task whose dependency stands behind it in the queue and was
    blocked by this very call. Or it answers nothing and every queued, not cancelled task still waits.
    Undisturbed means that no statement fails and no one else writes to the table during the call. *)
Theorem claim_next_correct (env : DbEnv) (quiet : Quiet env) (s : DbState) :
  tasks_ok (db s) ->
  exists answer s', claim_next_production_task s = (Done answer, s') /\
    claim_post (production_task (db s)) answer (production_task (db s')).
Proof.
  intros Hs. destruct (wp_run _ _ s (wp_claim (db s) (ids_distinct _ Hs))) as (answer & s' & E & Hp & _). eauto.
Qed.

(** C3. Failure propagation. Undisturbed, [propagate_production_task_dependency_failure] ends and
    blocks exactly the queued require-success tasks that depend on the failed one, directly or
    through others; each names the task it depends on as its reason, and no other row changes. *)
Theorem propagation_blocks_downstream (env : DbEnv) (quiet : Quiet env) (parent : string) (s : DbState) :
  tasks_ok (db s) ->
  exists n s', propagate_production_task_dependency_failure parent s = (Done n, s') /\
    blocks_downstream parent (production_task (db s)) (production_task (db s')).
Proof.
  intros Hs. apply (wp_run _ (fun _ d' => blocks_downstream parent (production_task (db s)) (production_task d'))).
  apply wp_propagate_rows; [apply Hs|auto].
Qed.

(** Finishing. Undisturbed, [finish_production_task] ends; without such a task it changes
    nothing; otherwise it sets the outcome of that row alone and, when the outcome is failed,
    cancelled, interrupted or blocked, blocks exactly the tasks downstream of it. *)
Theorem finish_correct (env : DbEnv) (quiet : Quiet env) (id status : string) (progress : Z)
    (result error : string) (s : DbState) :
  tasks_ok (db s) ->
  exists answer s', finish_production_task id status progress result error s = (Done answer, s') /\
    finish_post id status progress result error (production_task (db s)) answer (production_task (db s')).
Proof.
  intros Hs. destruct (wp_run _ _ s (wp_finish id status progress result error (db s) (ids_distinct _ Hs)))
    as (answer & s' & E & Hp & _). eauto.
Qed.

(** Cancelling. Undisturbed, [request_cancel_production_task] ends on each of its four branches:
    no such task; a task already over, which stays as it is; a queued task, which becomes cancelled
    with everything downstream of it blocked; a running one, which only gets the request flag. *)
Theorem cancel_correct (env : DbEnv) (quiet : Quiet env) (id : string) (s : DbState) :
  tasks_ok (db s) ->
  exists answer s', request_cancel_production_task id s = (Done answer, s') /\
    cancel_post id (production_task (db s)) answer (production_task (db s')).
Proof.
  intros Hs. destruct (wp_run _ _ s (wp_cancel id (db s) (ids_distinct _ Hs))) as (answer & s' & E & Hp & _). eauto.
Qed.

(** Retrying. Undisturbed, [retry_production_task] ends; only an unsuccessful task, and a blocked
    one only if its dependency is met, is queued again with its outcome cleared and at least one
    attempt left up to ten; then exactly the blocked tasks that hang on it are queued again. *)
Theorem retry_correct (env : DbEnv) (quiet : Quiet env) (id : string) (s : DbState) :
  tasks_ok (db s) ->
  exists answer s', retry_production_task id s = (Done answer, s') /\
    retry_post id (production_task (db s)) answer (production_task (db s')).
Proof.
  intros Hs. destruct (wp_run _ _ s (wp_retry id (db s) (ids_distinct _ Hs))) as (answer & s' & E & Hp & _). eauto.
Qed.

(** Recovery after a restart. Undisturbed, [recover_incomplete_production_tasks] ends and counts
    the running tasks; none is running afterwards: each became cancelled if that was requested and
    interrupted otherwise. No queued task is left waiting for the success of one of them, and the
    other rows stay as they were or, if queued, were blocked for their dependency. *)
Theorem recover_correct (env : DbEnv) (quiet : Quiet env) (s : DbState) :
  tasks_ok (db s) ->
  exists n s', recover_incomplete_production_tasks s = (Done n, s') /\
    n = count_where (task_with_status "running") (production_task (db s)) /\
    Forall2 recovered (production_task (db s)) (production_task (db s')) /\
    (forall t, In t (production_task (db s')) -> t_status t <> "running") /\
    (forall r t, In r (production_task (db s)) -> t_status r = "running" ->
       In t (production_task (db s')) -> requires (t_id r) t = false).
Proof.
  intros Hs. destruct (wp_run _ _ s (wp_recover (db s) (ids_distinct _ Hs))) as (n & s' & E & ? & ? & ? & ? & _).
  eauto 10.
Qed.

(** Cancel and retry. Undisturbed, cancelling a queued task and retrying it brings every task
    back to the status it had, except that tasks which were already blocked may be queued: the
    requeueing of [retry] undoes the blocking of [cancel] completely. *)
Theorem cancel_retry_restores (env : DbEnv) (quiet : Quiet env) (id : string) (t : Task) (s : DbState) :
  tasks_ok (db s) -> In t (production_task (db s)) -> t_id t = id -> t_status t = "queued" ->
  exists answer s',
    (let! _ := request_cancel_production_task id in retry_production_task id) s = (Done answer, s') /\
    Forall2 restored (production_task (db s)) (production_task (db s')).
Proof.
  intros Hs Ht Hid Hq.
  apply (wp_run _ (fun _ d' => Forall2 restored (production_task (db s)) (production_task d'))).
  pose proof (ids_distinct _ Hs) as Hn. apply wp_bind. eapply wp_mono; [by apply wp_cancel|].
  intros a d2 [Hc Hd2]. unfold cancel_post in Hc.
  rewrite <- Hid, (find_by_id _ t Hn Ht), Hq in Hc. simpl in Hc. destruct Hc as (now & _ & _ & Hb).
  rewrite Hid in Hb.
  set (ts1 := update_task id (cancel_queued_row now) (production_task (db s))) in *.
  assert (Hids1 : map t_id ts1 = map t_id (production_task (db s))) by (by apply update_task_ids).
  assert (Hrow1 : In (cancel_queued_row now t) ts1).
  { apply in_map_iff. exists t. split; [|done]. unfold task_with_id. by rewrite Hid, String.eqb_refl. }
  assert (Hq2 := blocks_downstream_queued _ _ _ ltac:(by rewrite Hids1) Hb).
  destruct (Forall2_in_l _ _ _ _ Hq2 Hrow1) as (t2 & Ht2 & [[? _]| ->]); [done|].
  assert (Hn2 : NoDup (map t_id (production_task d2))).
  { assert (map t_id (production_task d2) = map t_id ts1) as ->; [|by rewrite Hids1].
    clear -Hq2. induction Hq2 as [|r r' l l' Hr _ IH]; simpl; [done|]. f_equal; [|done].
    by destruct Hr as [[_ (? & ? & _ & ->)]| ->]. }
  eapply wp_mono; [by apply wp_retry|]. intros answer d4 [Hr _]. unfold retry_post in Hr.
  assert (Hfind := find_by_id _ _ Hn2 Ht2). change (t_id (cancel_queued_row now t)) with (t_id t) in Hfind.
  rewrite Hid in Hfind. rewrite Hfind in Hr. simpl in Hr.
  destruct Hr as (now2 & _ & _ & Hr). by eapply restore_tables.
Qed.

(** *** Witnesses *)

Definition sample_task (id depends policy status : string) : Task :=
  {| t_id := id; t_idempotency_key := "key-" +:+ id; t_kind := "reconstruct"; t_material_id := "M1";
     t_session_id := "S1"; t_chain_id := "C1"; t_depends_on_task_id := depends;
     t_dependency_policy := policy; t_blocked_reason := ""; t_status := status; t_phase := status;
     t_payload := "{}"; t_result := ""; t_error := ""; t_actor := "operator"; t_progress := 0;
     t_attempts := 0; t_max_attempts := 3; t_cancel_requested := false; t_created_at := "100";
     t_started_at := if open_status status then (if status == "running" then "101" else "") else "101";
     t_finished_at := if open_status status then "" else "102"; t_updated_at := "102" |}.

(** A chain A - B - C of require-success tasks, and D that runs after C in any case. *)
Definition sample_chain (a_status : string) : DbState :=
  mkDbState (with_tasks [sample_task "A" "" "require-success" a_status;
                         sample_task "B" "A" "require-success" "queued";
                         sample_task "C" "B" "require-success" "queued";
                         sample_task "D" "C" "always-run" "queued"] empty_database) 0.

(** Decides the table invariant of a concrete table. *)
Ltac table_ok :=
  split;
  [ repeat constructor
  | apply (bool_decide_eq_true_1 (NoDup _)); vm_compute; reflexivity
  | apply (bool_decide_eq_true_1 (NoDup _)); vm_compute; reflexivity ].

Lemma sample_chain_ok a_status : one_of a_status ["queued"; "running"; "failed"; "succeeded"] = true ->
  tasks_ok (db (sample_chain a_status)).
Proof. intros [<-|[<-|[<-|[<-|[]]]]]%one_of_In; table_ok. Qed.

(** The failed A blocks B and C; D can run now and is claimed. *)
Lemma claim_next_correct_witness :
  let s := sample_chain "failed" in
  map t_status (production_task (db (snd (@claim_next_production_task (quiet_env 7) s))))
    = ["failed"; "blocked"; "blocked"; "running"] /\
  exists answer s', @claim_next_production_task (quiet_env 7) s = (Done answer, s') /\
    claim_post (production_task (db s)) answer (production_task (db s')).
Proof.
  split; [vm_compute; reflexivity|].
  apply (claim_next_correct (quiet_env 7) _ (sample_chain "failed")), sample_chain_ok. reflexivity.
Defined.

Lemma propagation_blocks_downstream_witness :
  let s := sample_chain "failed" in
  map t_status (production_task (db (snd (@propagate_production_task_dependency_failure (quiet_env 7) "A" s))))
    = ["failed"; "blocked"; "blocked"; "queued"] /\
  exists n s', @propagate_production_task_dependency_failure (quiet_env 7) "A" s = (Done n, s') /\
    blocks_downstream "A" (production_task (db s)) (production_task (db s')).
Proof.
  split; [vm_compute; reflexivity|].
  apply (propagation_blocks_downstream (quiet_env 7) _ "A" (sample_chain "failed")), sample_chain_ok. reflexivity.
Defined.

Lemma finish_correct_witness :
  let s := sample_chain "running" in
  exists answer s', @finish_production_task (quiet_env 7) "A" "failed" 100 "" "no frames" s = (Done answer, s') /\
    finish_post "A" "failed" 100 "" "no frames" (production_task (db s)) answer (production_task (db s')).
Proof. apply (finish_correct (quiet_env 7) _), sample_chain_ok. reflexivity. Defined.

Lemma cancel_correct_witness :
  let s := sample_chain "queued" in
  exists answer s', @request_cancel_production_task (quiet_env 7) "A" s = (Done answer, s') /\
    cancel_post "A" (production_task (db s)) answer (production_task (db s')).
Proof. apply (cancel_correct (quiet_env 7) _), sample_chain_ok. reflexivity. Defined.

Lemma retry_correct_witness :
  let s := sample_chain "failed" in
  exists answer s', @retry_production_task (quiet_env 7) "A" s = (Done answer, s') /\
    retry_post "A" (production_task (db s)) answer (production_task (db s')).
Proof. apply (retry_correct (quiet_env 7) _), sample_chain_ok. reflexivity. Defined.

Lemma recover_correct_witness :
  let s := sample_chain "running" in
  exists n s', @recover_incomplete_production_tasks (quiet_env 7) s = (Done n, s') /\
    n = 1 /\ Forall2 recovered (production_task (db s)) (production_task (db s')) /\
    (forall t, In t (production_task (db s')) -> t_status t <> "running") /\
    (forall r t, In r (production_task (db s)) -> t_status r = "running" ->
       In t (production_task (db s')) -> requires (t_id r) t = false).
Proof. apply (recover_correct (quiet_env 7) _), sample_chain_ok. reflexivity. Defined.

Lemma cancel_retry_restores_witness :
  let s := sample_chain "queued" in
  exists answer s',
    @db_bind _ _ (@request_cancel_production_task (quiet_env 7) "A") (fun _ => @retry_production_task (quiet_env 7) "A") s
      = (Done answer, s') /\
    Forall2 restored (production_task (db s)) (production_task (db s')).
Proof.
  apply (cancel_retry_restores (quiet_env 7) _ "A" (sample_task "A" "" "require-success" "queued"));
    [apply sample_chain_ok; reflexivity|left; reflexivity|reflexivity|reflexivity].
Defined.

(** *** Cancelling against the worker *)

(** The worker claims the next task between the two statements of a cancellation. *)
Definition claim_races : DbEnv :=
  mkDbEnv (fun _ => NoFault) (fun n => Z.of_nat n)
    (fun n d => match n with
                | 2%nat => db (snd (@claim_next_production_task (quiet_env 7) (mkDbState d 0)))
                | _ => d
                end).

Definition statuses (s : DbState) : list (string * string) :=
  map (fun t => (t_id t, t_status t)) (production_task (db s)).

(** Cancel race. Cancelling reads the task and later writes it by primary key alone. When the
    worker claims the task in between, the write still turns the running task into a cancelled one
    and blocks its dependents while the worker carries it out; the worker's success then replaces the
    cancellation, and the dependents of a task that succeeded stay blocked. *)
Theorem cancel_overtakes_claim :
  let s := sample_chain "queued" in
  let cancelled := snd (@request_cancel_production_task claim_races "A" s) in
  let finished := snd (@finish_production_task (quiet_env 9) "A" "succeeded" 100 "{}" "" cancelled) in
  (exists task, fst (@claim_next_production_task (quiet_env 7) s) = Done (Some task) /\
     t_id task = "A" /\ t_status task = "running") /\
  statuses cancelled = [("A", "cancelled"); ("B", "blocked"); ("C", "blocked"); ("D", "queued")] /\
  statuses finished = [("A", "succeeded"); ("B", "blocked"); ("C", "blocked"); ("D", "queued")].
Proof.
  split; [|split; vm_compute; reflexivity]. eexists. split; [vm_compute; reflexivity|]. split; reflexivity.
Qed.
