(* ===== verification/DeviceGuard.v ===== *)
(** * Guards on requests that write to the cameras

    The validators of app/service/src/main.rs every device mutation passes before it is sent to the
    capture provider: a request that would write to a camera carries its confirmation phrase, and a
    calibration set names every camera of the line exactly once, with its own serial number and its
    own artifact. *)

From S2P Require Import Prelude Json.
From Stdlib Require Import SpecFloat Ascii.

(** ** Constants *)

Definition LINE_CONTINUOUS_PRESET_CONFIRMATION : string := "APPLY LINE CONTINUOUS PRESET".
Definition LINE_CONTINUOUS_DEVICE_PERSIST_CONFIRMATION : string := "PERSIST LINE PRESET TO CAMERA DEVICES".
Definition CAMERA_DEVICE_PERSIST_CONFIRMATION : string := "PERSIST CAMERA PARAMETERS".
Definition SDK_PARAMETER_WRITE_CONFIRMATION : string := "WRITE SDK PARAMETER".
Definition CAMERA_CALIBRATION_CONFIRMATION : string := "APPLY CAMERA CALIBRATION".
Definition CAMERA_CALIBRATION_SET_CONFIRMATION : string := "APPLY CAMERA CALIBRATION SET".
Definition CAMERA_CALIBRATION_ROLLBACK_CONFIRMATION : string := "ROLLBACK CAMERA CALIBRATION".
Definition CAMERA_ROI_CONFIRMATION : string := "APPLY CAMERA ROI".
Definition CALIBRATION_SET_CAMERA_COUNT : Z := 8.

(** ** Reading fields *)

(** [object.get(k).and_then(Value::as_bool) == Some(true)]. *)
Definition is_true (k : string) (object : Value) : bool :=
  match get_bool k object with Some true => true | _ => false end.

(** [object.get(k).and_then(Value::as_str) == Some(text)]. *)
Definition has_text (k text : string) (object : Value) : bool :=
  match get_str k object with Some s => s == text | None => false end.

(** [object.get(k).and_then(Value::as_str).map(str::trim).filter(|v| !v.is_empty())]. *)
Definition required_text (k : string) (object : Value) : option string :=
  filter_opt (fun s => negb (is_empty s)) (option_map trim (get_str k object)).

Definition ok_or {A} (o : option A) (e : string) : Result A string :=
  match o with Some a => Ok a | None => Err e end.
Definition ensure (b : bool) (e : string) : Result unit string := if b then Ok tt else Err e.

(** *** Doubles *)

Definition f64_of_int (n : Z) : spec_float := binary_normalize 53 1024 n 0 false.

(** [Value::as_f64]. *)
Definition as_f64 (v : Value) : option spec_float :=
  match v with
  | JNumber (PosInt n) | JNumber (NegInt n) => Some (f64_of_int n)
  | JNumber (Float f) => Some f
  | _ => None
  end.

Definition sf_finite (f : spec_float) : bool :=
  match f with S754_zero _ | S754_finite _ _ _ => true | _ => false end.
Definition sf_ge (x y : spec_float) : bool :=
  match SFcompare x y with Some Gt | Some Eq => true | _ => false end.
Definition sf_le (x y : spec_float) : bool :=
  match SFcompare x y with Some Lt | Some Eq => true | _ => false end.

(** The literals [0.1] and [100_000.0]. *)
Definition f64_0_1 : spec_float := S754_finite false 7205759403792794 (-56).
Definition f64_100000 : spec_float := f64_of_int 100000.

Definition line_rate_ok (v : spec_float) : bool :=
  sf_finite v && sf_ge v f64_0_1 && sf_le v f64_100000.

(** ** Calibration sets *)

(** main.rs [calibration_set_camera_count_error]. *)
Definition calibration_set_camera_count_error (expected_cameras : Z) : string :=
  if expected_cameras =? CALIBRATION_SET_CAMERA_COUNT
  then "calibration_set_requires_eight_cameras" else "calibration_set_camera_count_mismatch".

(** The loop over the mappings; the three sets hold the addresses, serial numbers and artifact
    paths seen so far. *)
Fixpoint check_mappings (mappings : list Value) (ips serials paths : gset string)
    : Result (gset string) string :=
  match mappings with
  | [] => Ok ips
  | mapping :: rest =>
      if negb (is_object mapping) then Err "calibration_set_mapping_invalid" else
      let? ip := ok_or (required_text "ip" mapping) "calibration_set_mapping_invalid" in
      let? path := ok_or (required_text "path" mapping) "calibration_set_mapping_invalid" in
      let? expected_sn := ok_or (required_text "expectedSn" mapping) "calibration_set_serial_required" in
      let? _ := ok_or (required_text "rollbackPath" mapping) "calibration_set_durable_rollback_path_required" in
      if bool_decide (ip ∈ ips) then Err "calibration_set_duplicate_camera" else
      let serial := to_ascii_lowercase expected_sn in
      if bool_decide (serial ∈ serials) then Err "calibration_set_duplicate_serial" else
      let normalized_path := to_ascii_lowercase (replace_byte (ascii_of_nat 92) (ascii_of_nat 47) path) in
      if bool_decide (normalized_path ∈ paths) then Err "calibration_set_duplicate_artifact" else
      check_mappings rest ({[ip]} ∪ ips) ({[serial]} ∪ serials) ({[normalized_path]} ∪ paths)
  end.

Definition target_ip (value : Value) : string := unwrap_or (option_map trim (as_str value)) "".

(** main.rs [validate_calibration_set_safety_for_camera_count]. *)
Definition validate_calibration_set_safety_for_camera_count (object : Value) (expected : Z)
    : Result unit string :=
  let expected_cameras := Z.max expected 1 in
  let camera_count_error := calibration_set_camera_count_error expected_cameras in
  let? _ := ensure (is_true "atomic" object && is_true "rollbackOnFailure" object
                    && is_true "requireAllMapped" object && is_true "stopStreams" object)
                   "calibration_set_safe_mode_required" in
  let? _ := ensure (match jget "expectedCameras" object with
                    | Some v => match as_u64 v with Some n => n =? expected_cameras | None => false end
                    | None => false
                    end) camera_count_error in
  let? _ := ensure (negb (is_true "allowBestEffortDeviceRollback" object || is_true "saveCameraParams" object))
                   "calibration_set_unsafe_option_rejected" in
  let? _ := ensure (negb (is_true "persistActive" object && is_none (required_text "path" object)))
                   "calibration_set_array_path_required" in
  let? mappings := ok_or (match jget "cameraCalibrations" object with Some v => as_array v | None => None end)
                         "calibration_set_mapping_required" in
  let? _ := ensure (Z.of_nat (length mappings) =? expected_cameras) camera_count_error in
  let? mapping_ips := check_mappings mappings ∅ ∅ ∅ in
  let? requested := ok_or (match jget "ips" object with Some v => as_array v | None => None end)
                          "calibration_set_target_list_required" in
  let? _ := ensure (Z.of_nat (length requested) =? expected_cameras) camera_count_error in
  let requested_ips : gset string := list_to_set (map target_ip requested) in
  ensure ((Z.of_nat (size requested_ips) =? expected_cameras) && bool_decide (requested_ips ⊆ mapping_ips))
         "calibration_set_target_mapping_mismatch".

(** ** Other device writes *)

Section Requests.
Context `{JsonCodec}.

(** main.rs [validate_line_continuous_preset_request]. *)
Definition validate_line_continuous_preset_request (body : string) : Result unit string :=
  let? object := ok_or (json_parse (trim body)) "invalid_json" in
  let? _ := ensure (is_object object) "json_object_required" in
  let? _ := ensure (has_text "confirmation" LINE_CONTINUOUS_PRESET_CONFIRMATION object)
                   "line_preset_confirmation_required" in
  let integer_in_range (name : string) (minimum maximum : Z) : bool :=
    match jget name object with
    | Some value => match as_i64 value with
                    | Some number => (minimum <=? number) && (number <=? maximum)
                    | None => false
                    end
    | None => true
    end in
  let? _ := ensure (integer_in_range "lines" 1 100000 && integer_in_range "laserPower" 0 100
                    && integer_in_range "laserLineSelect" 0 2 && integer_in_range "controlMode" 0 1)
                   "line_preset_parameter_out_of_range" in
  let? _ := ensure (match jget "timeTriggerFreq" object with
                    | Some frequency => is_some_and (as_f64 frequency) line_rate_ok
                    | None => true
                    end) "line_preset_parameter_out_of_range" in
  ensure (negb (is_true "saveToDevice" object
                && negb (has_text "deviceConfirmation" LINE_CONTINUOUS_DEVICE_PERSIST_CONFIRMATION object)))
         "line_preset_device_confirmation_required".

Definition operator_keys : list string :=
  ["exposuretime"; "expsure_time"; "gaink"; "gain_k"; "timetriggerfreq"; "time_trigger_freq";
   "triggermode"; "trigger_mode"].

(** main.rs [validate_capture_device_mutation_request_for_camera_count]. *)
Definition validate_capture_device_mutation_request_for_camera_count
    (path body : string) (expected_cameras : Z) : Result unit string :=
  let object := unwrap_or (json_parse (trim body)) (JObject []) in
  let? _ := ensure (is_object object) "json_object_required" in
  let? _ := ensure (negb ((path == "/api/calibration/load") && negb (is_true "dryRun" object)
                          && negb (has_text "confirmation" CAMERA_CALIBRATION_CONFIRMATION object)))
                   "camera_calibration_confirmation_required" in
  let? _ := (if path == "/api/calibration/apply-all"
             then validate_calibration_set_safety_for_camera_count object expected_cameras else Ok tt) in
  let? _ := ensure (negb ((path == "/api/calibration/apply-all") && negb (is_true "dryRun" object)
                          && negb (has_text "confirmation" CAMERA_CALIBRATION_SET_CONFIRMATION object)))
                   "camera_calibration_set_confirmation_required" in
  let? _ := ensure (negb ((path == "/api/calibration/rollback")
                          && negb (has_text "confirmation" CAMERA_CALIBRATION_ROLLBACK_CONFIRMATION object)))
                   "camera_calibration_rollback_confirmation_required" in
  let? _ := ensure (negb ((path == "/api/calibration/rollback")
                          && is_none (required_text "applyOperationId" object)))
                   "calibration_rollback_apply_operation_id_required" in
  let? _ := ensure (negb ((path == "/api/roi/load")
                          && negb (has_text "confirmation" CAMERA_ROI_CONFIRMATION object)))
                   "camera_roi_confirmation_required" in
  let? _ := ensure (negb ((path == "/api/capture/continuous-settings")
                          && negb (is_some_and
                               (match or_else (jget "timeTriggerFreq" object) (jget "time_trigger_freq" object) with
                                | Some v => as_f64 v
                                | None => None
                                end) line_rate_ok)))
                   "continuous_line_rate_out_of_range" in
  let? _ := ensure (negb ((path == "/api/param")
                          && negb (one_of (to_ascii_lowercase (unwrap_or (get_str "key" object) "")) operator_keys)
                          && negb (has_text "confirmation" SDK_PARAMETER_WRITE_CONFIRMATION object)))
                   "sdk_parameter_write_confirmation_required" in
  let? _ := ensure (negb ((path == "/api/param/recovery")
                          && negb (has_text "confirmation" SDK_PARAMETER_WRITE_CONFIRMATION object)))
                   "sdk_parameter_write_confirmation_required" in
  let explicit_device_save := one_of path ["/api/param/save-device"; "/api/param/save-to-device"] in
  let requested_device_save := is_true "saveToDevice" object in
  ensure (negb ((explicit_device_save || requested_device_save)
                && negb (has_text "deviceConfirmation" CAMERA_DEVICE_PERSIST_CONFIRMATION object)))
         "camera_device_persist_confirmation_required".

(** main.rs [validate_capture_device_mutation_request]. *)
Definition validate_capture_device_mutation_request (path body : string) : Result unit string :=
  validate_capture_device_mutation_request_for_camera_count path body CALIBRATION_SET_CAMERA_COUNT.

End Requests.

(** ** Theorems *)

Lemma ensure_ok b e u : ensure b e = Ok u -> b = true.
Proof. by destruct b. Qed.

Lemma ok_or_ok {A} (o : option A) e a : ok_or o e = Ok a -> o = Some a.
Proof. destruct o; simpl; congruence. Qed.

Lemma result_bind_ok {A B E} (r : Result A E) (f : A -> Result B E) b :
  result_bind r f = Ok b -> exists a, r = Ok a /\ f a = Ok b.
Proof. destruct r; simpl; [eauto|done]. Qed.

(** Takes an accepted request apart into the tests it passed. *)
Ltac accepted H :=
  repeat match type of H with
  | result_bind (ensure _ _) _ = Ok _ =>
      let E := fresh "Hpass" in apply result_bind_ok in H as (_ & E%ensure_ok & H)
  | result_bind (ok_or _ _) _ = Ok _ =>
      let x := fresh "field" in let E := fresh "Hfield" in apply result_bind_ok in H as (x & E%ok_or_ok & H)
  | ensure _ _ = Ok _ => apply ensure_ok in H
  end.

Definition mapping_ip (mapping : Value) : string := unwrap_or (required_text "ip" mapping) "".
Definition mapping_serial (mapping : Value) : string :=
  to_ascii_lowercase (unwrap_or (required_text "expectedSn" mapping) "").
Definition mapping_artifact (mapping : Value) : string :=
  to_ascii_lowercase (replace_byte (ascii_of_nat 92) (ascii_of_nat 47)
    (unwrap_or (required_text "path" mapping) "")).

(** A mapping that names a camera, its serial number, its artifact and a way back. *)
Definition mapping_complete (mapping : Value) : bool :=
  is_object mapping && is_some (required_text "ip" mapping) && is_some (required_text "path" mapping)
  && is_some (required_text "expectedSn" mapping) && is_some (required_text "rollbackPath" mapping).

Lemma check_mappings_ok mappings ips serials paths seen :
  check_mappings mappings ips serials paths = Ok seen ->
  seen = ips ∪ list_to_set (map mapping_ip mappings) /\
  Forall (fun m => mapping_complete m = true) mappings /\
  NoDup (map mapping_ip mappings) /\ (forall x, In x (map mapping_ip mappings) -> x ∉ ips) /\
  NoDup (map mapping_serial mappings) /\ (forall x, In x (map mapping_serial mappings) -> x ∉ serials) /\
  NoDup (map mapping_artifact mappings) /\ (forall x, In x (map mapping_artifact mappings) -> x ∉ paths).
Proof.
  revert ips serials paths. induction mappings as [|mp rest IH]; intros ips serials paths Hc; simpl in Hc.
  - injection Hc as <-. split_and!; try constructor; try done. set_solver.
  - destruct (is_object mp) eqn:Hobj; [simpl in Hc|done]. accepted Hc. repeat case_bool_decide; try done.
    destruct (IH _ _ _ Hc) as (-> & Hcomplete & Hi & Hip & Hs & Hsp & Ha & Hap). clear IH Hc.
    assert (mapping_ip mp = field /\ mapping_serial mp = to_ascii_lowercase field1 /\
            mapping_artifact mp = to_ascii_lowercase (replace_byte (ascii_of_nat 92) (ascii_of_nat 47) field0))
      as (Ei & Es & Ea) by (unfold mapping_ip, mapping_serial, mapping_artifact; by rewrite Hfield, Hfield0, Hfield1).
    simpl. rewrite Ei, Es, Ea. split_and!.
    + set_solver.
    + constructor; [|done]. unfold mapping_complete. by rewrite Hobj, Hfield, Hfield0, Hfield1, Hfield2.
    + constructor; [|done]. intros Hx%list_elem_of_In%Hip. set_solver.
    + intros x [<-|Hx]; [done|]. apply Hip in Hx. set_solver.
    + constructor; [|done]. intros Hx%list_elem_of_In%Hsp. set_solver.
    + intros x [<-|Hx]; [done|]. apply Hsp in Hx. set_solver.
    + constructor; [|done]. intros Hx%list_elem_of_In%Hap. set_solver.
    + intros x [<-|Hx]; [done|]. apply Hap in Hx. set_solver.
Qed.

(** A list with as many distinct members as places has no duplicates. *)
Lemma size_cons_set (x : string) l :
  size (list_to_set (x :: l) : gset string)
  = if bool_decide (x ∈ l) then size (list_to_set l : gset string) else S (size (list_to_set l : gset string)).
Proof.
  simpl. case_bool_decide as Hx.
  - f_equal. set_solver.
  - rewrite size_union by set_solver. by rewrite size_singleton.
Qed.

Lemma size_set_le (l : list string) : (size (list_to_set l : gset string) <= length l)%nat.
Proof.
  induction l as [|x l IH]; [done|]. rewrite size_cons_set. simpl. case_bool_decide; lia.
Qed.

Lemma distinct_by_size (l : list string) : size (list_to_set l : gset string) = length l -> NoDup l.
Proof.
  induction l as [|x l IH]; [constructor|]. rewrite size_cons_set. simpl. pose proof (size_set_le l).
  case_bool_decide; intros Hs; [lia|]. constructor; [done|]. apply IH. lia.
Qed.

(** A calibration set that passes the guard is safe and complete: it is atomic, rolls back on
    failure and stops the streams; it holds exactly as many mappings as the line has cameras, each
    with an address, a serial number, an artifact and a rollback path; no two mappings share an
    address, a serial number (ignoring case) or an artifact (ignoring case and slash direction);
    and the target list names exactly the mapped cameras, each once. *)
Theorem calibration_set_complete (object : Value) (expected : Z) :
  validate_calibration_set_safety_for_camera_count object expected = Ok tt ->
  is_true "atomic" object = true /\ is_true "rollbackOnFailure" object = true /\
  is_true "stopStreams" object = true /\ is_true "saveCameraParams" object = false /\
  exists mappings targets,
    jget "cameraCalibrations" object = Some (JArray mappings) /\ jget "ips" object = Some (JArray targets) /\
    Z.of_nat (length mappings) = Z.max expected 1 /\
    Forall (fun m => mapping_complete m = true) mappings /\
    NoDup (map mapping_ip mappings) /\ NoDup (map mapping_serial mappings) /\
    NoDup (map mapping_artifact mappings) /\
    NoDup (map target_ip targets) /\
    (forall ip, In ip (map target_ip targets) <-> In ip (map mapping_ip mappings)).
Proof.
  intros Hv. unfold validate_calibration_set_safety_for_camera_count in Hv. accepted Hv.
  apply result_bind_ok in Hv as (seen & Hseen & Hv). accepted Hv. bool_facts. case_bool_decide as Hsub; [|done].
  destruct (jget "cameraCalibrations" object) as [[| | | |mappings|]|]; try done. injection Hfield as <-.
  destruct (jget "ips" object) as [[| | | |targets|]|]; try done. injection Hfield0 as <-.
  apply check_mappings_ok in Hseen as (-> & Hcomplete & Hi & _ & Hs & _ & Ha & _).
  rewrite left_id_L in Hsub by apply _. split_and!; [done..|]. exists mappings, targets.
  set (T := map target_ip targets) in *. set (M := map mapping_ip mappings) in *.
  assert (HsizeM : size (list_to_set M : gset string) = length mappings)
    by (rewrite size_list_to_set by done; apply length_map).
  assert (HTM : (list_to_set T : gset string) = list_to_set M)
    by (apply set_subseteq_size_eq; [done|lia]).
  split_and!; try done; try lia.
  - apply distinct_by_size. unfold T at 2. rewrite length_map. lia.
  - intros ip. rewrite <- !list_elem_of_In, <- !(elem_of_list_to_set (C := gset string)). by rewrite HTM.
Qed.

(** No unconfirmed write. A request accepted by the guard that would write to cameras carries
    the confirmation phrase of its kind: calibration of one camera or of the set (unless a dry run),
    rollback, region of interest, parameter recovery, saving parameters to a device. *)
Theorem device_write_confirmed `{JsonCodec} (path body : string) (expected : Z) (object : Value) :
  json_parse (trim body) = Some object ->
  validate_capture_device_mutation_request_for_camera_count path body expected = Ok tt ->
  is_object object = true /\
  (path = "/api/calibration/load" -> is_true "dryRun" object = false ->
     has_text "confirmation" CAMERA_CALIBRATION_CONFIRMATION object = true) /\
  (path = "/api/calibration/apply-all" ->
     validate_calibration_set_safety_for_camera_count object expected = Ok tt) /\
  (path = "/api/calibration/apply-all" -> is_true "dryRun" object = false ->
     has_text "confirmation" CAMERA_CALIBRATION_SET_CONFIRMATION object = true) /\
  (path = "/api/calibration/rollback" ->
     has_text "confirmation" CAMERA_CALIBRATION_ROLLBACK_CONFIRMATION object = true /\
     is_some (required_text "applyOperationId" object) = true) /\
  (path = "/api/roi/load" -> has_text "confirmation" CAMERA_ROI_CONFIRMATION object = true) /\
  (path = "/api/param/recovery" -> has_text "confirmation" SDK_PARAMETER_WRITE_CONFIRMATION object = true) /\
  (path = "/api/param/save-device" \/ path = "/api/param/save-to-device" \/ is_true "saveToDevice" object = true ->
     has_text "deviceConfirmation" CAMERA_DEVICE_PERSIST_CONFIRMATION object = true).
Proof.
  intros Hp Hv. unfold validate_capture_device_mutation_request_for_camera_count in Hv. rewrite Hp in Hv.
  simpl unwrap_or in Hv. accepted Hv. apply result_bind_ok in Hv as ([] & Hset & Hv). accepted Hv.
  apply negb_true_iff in Hv, Hpass0, Hpass1, Hpass2, Hpass3, Hpass4, Hpass7.
  split_and!; [done|..]; intros; subst; simpl in *;
    repeat match goal with H : is_true _ _ = false |- _ => rewrite H in * end; simpl in *;
    try done; try (by apply negb_false_iff).
  - split; [by apply negb_false_iff|]. unfold is_none in Hpass3. by apply negb_false_iff.
  - apply negb_false_iff.
    match goal with H : _ \/ _ \/ _ |- _ => destruct H as [->|[->|Hs]] end; [done|done|].
    by rewrite Hs, orb_true_r in Hv.
Qed.

(** *** Witnesses *)

Definition sample_mapping (ip serial path : string) : Value :=
  jobj [("ip", JString ip); ("path", JString path); ("expectedSn", JString serial);
        ("rollbackPath", JString (path +:+ ".bak"))].

Definition sample_calibration_set : Value :=
  jobj [("atomic", JBool true); ("rollbackOnFailure", JBool true); ("requireAllMapped", JBool true);
        ("stopStreams", JBool true); ("expectedCameras", jint 2);
        ("confirmation", JString CAMERA_CALIBRATION_SET_CONFIRMATION);
        ("cameraCalibrations", JArray [sample_mapping "10.0.0.1" "SN-1" "cal/a.bin";
                                       sample_mapping "10.0.0.2" "SN-2" "cal/b.bin"]);
        ("ips", JArray [JString "10.0.0.2"; JString " 10.0.0.1 "])].

Lemma calibration_set_complete_witness :
  exists mappings targets,
    jget "cameraCalibrations" sample_calibration_set = Some (JArray mappings) /\
    jget "ips" sample_calibration_set = Some (JArray targets) /\
    (forall ip, In ip (map target_ip targets) <-> In ip (map mapping_ip mappings)).
Proof.
  destruct (calibration_set_complete sample_calibration_set 2 ltac:(vm_compute; reflexivity))
    as (_ & _ & _ & _ & mappings & targets & Hm & Ht & _ & _ & _ & _ & _ & _ & Hips).
  exists mappings, targets. auto.
Defined.

(** A codec that knows one text. *)
Definition sample_codec (text : string) (v : Value) : JsonCodec :=
  {| json_print := fun _ => text; json_parse := fun s => if s == text then Some v else None |}.

Lemma device_write_confirmed_witness :
  @validate_capture_device_mutation_request_for_camera_count (sample_codec "set" sample_calibration_set)
    "/api/calibration/apply-all" " set " 2 = Ok tt /\
  has_text "confirmation" CAMERA_CALIBRATION_SET_CONFIRMATION sample_calibration_set = true.
Proof.
  assert (Hv : @validate_capture_device_mutation_request_for_camera_count (sample_codec "set" sample_calibration_set)
    "/api/calibration/apply-all" " set " 2 = Ok tt) by (vm_compute; reflexivity).
  split; [exact Hv|].
  destruct (@device_write_confirmed (sample_codec "set" sample_calibration_set) _ " set " 2 sample_calibration_set
    ltac:(vm_compute; reflexivity) Hv) as (_ & _ & _ & Hset & _).
  apply Hset; [reflexivity|vm_compute; reflexivity].
Defined.
