(* ===== verification/CalibrationStore.v ===== *)
(** * The calibration operation ledger

    The calibration functions of app/service/src/db/mod.rs. Each operation is one row that moves
    forward: dispatching, then succeeded, failed or needs-reconciliation, then reconciled. Every
    update is conditional on the status and the row version that were read. *)

From S2P Require Import Prelude Db.

(** [CalibrationOperationInput]. *)
Record CalibrationOperationInput := mkCalibrationOperationInput {
  ci_id : string;
  ci_kind : string;
  ci_request_hash : string;
  ci_request_json : string;
  ci_actor : string;
  ci_parent_operation_id : string;
}.

Definition operation_with_id (id : string) (o : CalibrationOperation) : bool := o_id o == id.

(** ** Rows *)

Definition new_operation (input : CalibrationOperationInput) (now : string) : CalibrationOperation :=
  {| o_id := ci_id input;
     o_kind := ci_kind input;
     o_request_hash := ci_request_hash input;
     o_request_json := ci_request_json input;
     o_status := "dispatching";
     o_provider_http_status := 0;
     o_provider_response_body := "";
     o_error := "";
     o_actor := ci_actor input;
     o_parent_operation_id := ci_parent_operation_id input;
     o_reconciliation_outcome := "";
     o_reconciliation_id := "";
     o_resolved_by := "";
     o_resolved_at := "";
     o_row_version := 1;
     o_created_at := now;
     o_dispatch_started_at := now;
     o_finished_at := "";
     o_updated_at := now |}.

(** The columns an update may set; the request columns are kept. *)
Definition operation_update (o : CalibrationOperation) (status : string) (http : Z)
    (response error outcome reconciliation_id resolved_by resolved_at : string) (version : Z)
    (finished_at updated_at : string) : CalibrationOperation :=
  {| o_id := o_id o;
     o_kind := o_kind o;
     o_request_hash := o_request_hash o;
     o_request_json := o_request_json o;
     o_status := status;
     o_provider_http_status := http;
     o_provider_response_body := response;
     o_error := error;
     o_actor := o_actor o;
     o_parent_operation_id := o_parent_operation_id o;
     o_reconciliation_outcome := outcome;
     o_reconciliation_id := reconciliation_id;
     o_resolved_by := resolved_by;
     o_resolved_at := resolved_at;
     o_row_version := version;
     o_created_at := o_created_at o;
     o_dispatch_started_at := o_dispatch_started_at o;
     o_finished_at := finished_at;
     o_updated_at := updated_at |}.

Definition reconciled_row (outcome reconciliation_id actor now : string) (version : Z)
    (o : CalibrationOperation) : CalibrationOperation :=
  operation_update o "reconciled" (o_provider_http_status o) (o_provider_response_body o) (o_error o)
    outcome reconciliation_id actor now version (o_finished_at o) now.

Definition finished_operation_row (status : string) (http : Z) (response error now : string) (version : Z)
    (o : CalibrationOperation) : CalibrationOperation :=
  operation_update o status http response error (o_reconciliation_outcome o) (o_reconciliation_id o)
    (o_resolved_by o) (o_resolved_at o) version now now.

Definition interrupted_row (now : string) (version : Z) (o : CalibrationOperation) : CalibrationOperation :=
  operation_update o "needs-reconciliation" (o_provider_http_status o) (o_provider_response_body o)
    "service_restart_while_dispatching" (o_reconciliation_outcome o) (o_reconciliation_id o)
    (o_resolved_by o) (o_resolved_at o) version now now.

(** [i32::saturating_add(1)]. *)
Definition next_version (v : Z) : Z := Z.min i32_max (v + 1).

(** ** Functions *)

Section Store.
Context `{DbEnv}.

Definition update_operations (p : CalibrationOperation -> bool)
    (f : CalibrationOperation -> CalibrationOperation) : DB Z :=
  stmt (fun d => Ok (count_where p (calibration_operation d),
                     with_calibrations (update_where p f (calibration_operation d)) d)).

(** The guard of the conditional updates: id, status and row version. *)
Definition unchanged_since (id status : string) (version : Z) (o : CalibrationOperation) : bool :=
  operation_with_id id o && (o_status o == status) && (o_row_version o =? version).

(** db/mod.rs [insert_calibration_operation]. *)
Definition insert_calibration_operation (input : CalibrationOperationInput) : DB CalibrationOperation :=
  let! now := now_millis_string in
  let row := new_operation input now in
  stmt (fun d =>
    if existsb (operation_with_id (o_id row)) (calibration_operation d)
    then Err (UniqueViolation "calibration_operation.id")
    else Ok (row, with_calibrations (calibration_operation d ++ [row]) d)).

(** db/mod.rs [find_calibration_operation]. *)
Definition find_calibration_operation (id : string) : DB (option CalibrationOperation) :=
  query (fun d => List.find (operation_with_id id) (calibration_operation d)).

Definition unresolved (o : CalibrationOperation) : bool :=
  one_of (o_status o) ["dispatching"; "needs-reconciliation"].

(** db/mod.rs [list_unresolved_calibration_operations]. *)
Definition list_unresolved_calibration_operations : DB (list CalibrationOperation) :=
  query (fun d => order_asc (fun o => (o_created_at o, ""))
                    (List.filter unresolved (calibration_operation d))).

(** db/mod.rs [reconcile_calibration_operation]. *)
Definition reconcile_calibration_operation (operation_id reconciliation_id outcome actor : string)
    : DB (option CalibrationOperation) :=
  let! found := find_calibration_operation operation_id in
  match found with
  | None => db_ret None
  | Some existing =>
      if o_status existing != "needs-reconciliation" then db_ret (Some existing)
      else
        let! now := now_millis_string in
        let! _ := update_operations
          (unchanged_since operation_id "needs-reconciliation" (o_row_version existing))
          (reconciled_row outcome reconciliation_id actor now (next_version (o_row_version existing))) in
        find_calibration_operation operation_id
  end.

(** db/mod.rs [finish_calibration_operation]. *)
Definition finish_calibration_operation (id status : string) (provider_http_status : Z)
    (provider_response_body error : string) : DB (option CalibrationOperation) :=
  let! found := find_calibration_operation id in
  match found with
  | None => db_ret None
  | Some existing =>
      if o_status existing != "dispatching" then db_ret (Some existing)
      else
        let! now := now_millis_string in
        let! _ := update_operations
          (unchanged_since id "dispatching" (o_row_version existing))
          (finished_operation_row status provider_http_status provider_response_body error now
             (next_version (o_row_version existing))) in
        find_calibration_operation id
  end.

(** db/mod.rs [recover_dispatching_calibration_operations]. *)
Fixpoint recover_operations (interrupted : list CalibrationOperation) (recovered : Z) : DB Z :=
  match interrupted with
  | [] => db_ret recovered
  | existing :: rest =>
      let! now := now_millis_string in
      let! affected := update_operations
        (unchanged_since (o_id existing) "dispatching" (o_row_version existing))
        (interrupted_row now (next_version (o_row_version existing))) in
      recover_operations rest (sat_add u64_max recovered affected)
  end.

Definition recover_dispatching_calibration_operations : DB Z :=
  let! interrupted := query (fun d =>
    List.filter (fun o => o_status o == "dispatching") (calibration_operation d)) in
  recover_operations interrupted 0.

End Store.

(** ** The ledger only moves forward *)

Definition settled (status : string) : bool := one_of status ["succeeded"; "failed"; "reconciled"].
Definition ledger_status (status : string) : bool :=
  settled status || one_of status ["dispatching"; "needs-reconciliation"].

(** What may become of a row. *)
Record advances (o o' : CalibrationOperation) : Prop := {
  adv_id : o_id o' = o_id o;
  adv_kind : o_kind o' = o_kind o;
  adv_hash : o_request_hash o' = o_request_hash o;
  adv_request : o_request_json o' = o_request_json o;
  adv_actor : o_actor o' = o_actor o;
  adv_parent : o_parent_operation_id o' = o_parent_operation_id o;
  adv_created : o_created_at o' = o_created_at o;
  adv_version : o_row_version o <= o_row_version o';
  adv_settled : settled (o_status o) = true -> o' = o;
  adv_pending : o_status o = "needs-reconciliation" ->
    (o' = o \/ o_status o' = "reconciled") /\ o_provider_response_body o' = o_provider_response_body o
    /\ o_error o' = o_error o /\ o_finished_at o' = o_finished_at o;
}.

#[export] Instance advances_preorder : PreOrder advances.
Proof.
  split.
  - intros o. split; auto; lia.
  - intros x y z [] []. split; try congruence; [lia|intros Hs..].
    + rewrite adv_settled0 in * by done. auto.
    + destruct (adv_pending0 Hs) as ([->|Hr] & Hb & He & Hf); [auto|].
      assert (z = y) as -> by (apply adv_settled1; by rewrite Hr). auto.
Qed.

Record ledger_ok (d : Database) : Prop := {
  ledger_ids : NoDup (map o_id (calibration_operation d));
  ledger_rows : Forall (fun o => ledger_status (o_status o) = true /\ 1 <= o_row_version o <= i32_max)
                  (calibration_operation d);
}.

(** Rows stay in place and advance; new ones are added at the end. *)
Definition ledger_grows (d d' : Database) : Prop :=
  exists kept added, calibration_operation d' = kept ++ added
                     /\ Forall2 advances (calibration_operation d) kept.

#[export] Instance ledger_grows_preorder : PreOrder ledger_grows.
Proof.
  split.
  - intros d. exists (calibration_operation d), []. split; [by rewrite app_nil_r|]. reflexivity.
  - intros d1 d2 d3 (k1 & a1 & E1 & F1) (k2 & a2 & E2 & F2).
    rewrite E1 in F2. apply Forall2_app_inv_l in F2 as (k3 & a3 & F3 & F4 & ->).
    exists k3, (a3 ++ a2). split; [by rewrite E2, app_assoc|]. by etrans.
Qed.

(** An update of the ledger: the rows it selects advance to a known status. *)
Definition good_update (p : CalibrationOperation -> bool)
    (f : CalibrationOperation -> CalibrationOperation) : Prop :=
  forall o, p o = true -> 1 <= o_row_version o <= i32_max ->
    advances o (f o) /\ ledger_status (o_status (f o)) = true /\ 1 <= o_row_version (f o) <= i32_max.

Lemma next_version_ok v : 1 <= v <= i32_max -> v <= next_version v <= i32_max.
Proof. unfold next_version. lia. Qed.

Lemma unchanged_since_true id status version o : unchanged_since id status version o = true ->
  o_id o = id /\ o_status o = status /\ o_row_version o = version.
Proof. unfold unchanged_since, operation_with_id. intros. by bool_facts. Qed.

Lemma good_reconcile id outcome reconciliation actor now version :
  good_update (unchanged_since id "needs-reconciliation" version)
    (reconciled_row outcome reconciliation actor now (next_version version)).
Proof.
  intros o Hp Hv. apply unchanged_since_true in Hp as (_ & Ho & <-).
  pose proof (next_version_ok _ Hv). split_and!; [|done|simpl; lia..].
  split; try done; [simpl; lia| |simpl; auto]. intros Hs. by rewrite Ho in Hs.
Qed.

Lemma good_finish id status http response error now version :
  one_of status ["succeeded"; "failed"; "needs-reconciliation"] = true ->
  good_update (unchanged_since id "dispatching" version)
    (finished_operation_row status http response error now (next_version version)).
Proof.
  intros Hst o Hp Hv. apply unchanged_since_true in Hp as (_ & Ho & <-).
  pose proof (next_version_ok _ Hv). split_and!; [| |simpl; lia..].
  - split; try done; [simpl; lia| |]; intros Hs; by rewrite Ho in Hs.
  - simpl. revert Hst. rewrite one_of_In. by intros [<-|[<-|[<-|[]]]].
Qed.

Lemma good_interrupt id now version :
  good_update (unchanged_since id "dispatching" version) (interrupted_row now (next_version version)).
Proof.
  intros o Hp Hv. apply unchanged_since_true in Hp as (_ & Ho & <-).
  pose proof (next_version_ok _ Hv). split_and!; [|done|simpl; lia..].
  split; try done; [simpl; lia| |]; intros Hs; by rewrite Ho in Hs.
Qed.

Lemma ledger_update_ok p f d : good_update p f -> ledger_ok d ->
  ledger_ok (with_calibrations (update_where p f (calibration_operation d)) d) /\
  ledger_grows d (with_calibrations (update_where p f (calibration_operation d)) d).
Proof.
  intros Hg [Hi Hr].
  assert (HF : Forall2 advances (calibration_operation d) (update_where p f (calibration_operation d))).
  { unfold update_where. clear Hi. induction Hr as [|o l [_ Ho] _ IH]; simpl; constructor; [|done].
    destruct (p o) eqn:E; [by apply Hg|reflexivity]. }
  split; [split; simpl|].
  - assert (map o_id (update_where p f (calibration_operation d)) = map o_id (calibration_operation d)) as ->; [|done].
    clear -HF. induction HF as [|x y l l' Hxy _ IH]; simpl; [done|]. f_equal; [apply Hxy|done].
  - unfold update_where. rewrite Forall_map. eapply Forall_impl; [exact Hr|]. simpl. intros o [Ho Hv].
    destruct (p o) eqn:E; [|done]. by apply Hg.
  - exists (update_where p f (calibration_operation d)), []. split; [by rewrite app_nil_r|done].
Qed.

Section LedgerGuarantees.
Context `{DbEnv} `{!Rely ledger_ok ledger_grows}.

Abbreviation Keeps m := (Guarantee ledger_ok ledger_grows m (fun _ => True)) (only parsing).

Lemma g_update_operations p f : good_update p f -> Keeps (update_operations p f).
Proof.
  intros Hf. apply g_stmt; [apply _|]. intros d a d' Hd [= _ <-].
  destruct (ledger_update_ok p f d Hf Hd). auto.
Qed.

Lemma g_find_operation id : Keeps (find_calibration_operation id).
Proof. by apply g_query; [apply _|]. Qed.

Lemma g_insert_operation input : Keeps (insert_calibration_operation input).
Proof.
  eapply g_bind; [apply _|by apply g_now; apply _|]. intros now _.
  apply g_stmt; [apply _|]. intros d a d' [Hi Hr]. case_match eqn:E; [done|]. intros [= _ <-].
  split_and!; [split; simpl| |done].
  - rewrite map_app. apply NoDup_app. split_and!; [done| |apply NoDup_singleton].
    intros x (o & <- & Ho)%list_elem_of_In%in_map_iff Hx%list_elem_of_singleton. simpl in Hx.
    assert (existsb (operation_with_id (ci_id input)) (calibration_operation d) = true); [|simpl in E; congruence].
    apply existsb_exists. exists o. split; [done|]. unfold operation_with_id. by apply String.eqb_eq.
  - apply Forall_app. split; [done|]. repeat constructor; done.
  - exists (calibration_operation d), [new_operation input now]. split; [done|]. reflexivity.
Qed.

Lemma g_reconcile operation_id reconciliation_id outcome actor :
  Keeps (reconcile_calibration_operation operation_id reconciliation_id outcome actor).
Proof.
  eapply g_bind; [apply _|apply g_find_operation|]. intros [existing|] _; [|by apply g_ret; [apply _|]].
  case_match; [by apply g_ret; [apply _|]|].
  eapply g_bind; [apply _|by apply g_now; apply _|]. intros now _.
  eapply g_bind; [apply _|apply g_update_operations, good_reconcile|]. intros _ _. apply g_find_operation.
Qed.

Lemma g_finish_operation id status http response error :
  one_of status ["succeeded"; "failed"; "needs-reconciliation"] = true ->
  Keeps (finish_calibration_operation id status http response error).
Proof.
  intros Hs. eapply g_bind; [apply _|apply g_find_operation|].
  intros [existing|] _; [|by apply g_ret; [apply _|]]. case_match; [by apply g_ret; [apply _|]|].
  eapply g_bind; [apply _|by apply g_now; apply _|]. intros now _.
  eapply g_bind; [apply _|by apply g_update_operations, good_finish|]. intros _ _. apply g_find_operation.
Qed.

Lemma g_recover_operations l n : Keeps (recover_operations l n).
Proof.
  revert n. induction l as [|existing l IH]; intros n; simpl; [by apply g_ret; [apply _|]|].
  eapply g_bind; [apply _|by apply g_now; apply _|]. intros now _.
  eapply g_bind; [apply _|apply g_update_operations, good_interrupt|]. intros a _. apply IH.
Qed.

Lemma g_recover_ledger : Keeps recover_dispatching_calibration_operations.
Proof.
  eapply g_bind with (Q := fun _ => True); [apply _|by apply g_query; [apply _|]|].
  intros l _. apply g_recover_operations.
Qed.

End LedgerGuarantees.
