(* ===== verification/Handler.v ===== *)
(** * Request handlers

    A handler of the service calls the database through [block_on], looks at the [Result] of each
    call and returns early; besides, it does things the outside sees (sends a request to the capture
    provider, wakes the worker). [Handler] is that: explicit state, made of the database and the
    list of such events, with the outcome of each database call as a value. *)

From S2P Require Import Prelude Db.

Section Handler.
Context {E : Type}.

Record World := mkWorld { w_db : DbState; w_events : list E }.

(** [None] when a loop of a database call ran out of fuel. *)
Definition Handler (A : Type) : Type := World -> option A * World.

Definition reply {A} (a : A) : Handler A := fun w => (Some a, w).

Definition h_bind {A B} (m : Handler A) (f : A -> Handler B) : Handler B := fun w =>
  match m w with
  | (Some a, w') => f a w'
  | (None, w') => (None, w')
  end.

(** [runtime.block_on(..)]. *)
Definition block_on {A} (m : DB A) : Handler (Result A DbErr) := fun w =>
  match m (w_db w) with
  | (Done a, s) => (Some (Ok a), mkWorld s (w_events w))
  | (Failed e, s) => (Some (Err e), mkWorld s (w_events w))
  | (OutOfFuel, s) => (None, mkWorld s (w_events w))
  end.

Definition emit (e : E) : Handler unit := fun w =>
  (Some tt, mkWorld (w_db w) (w_events w ++ [e])).

End Handler.
Arguments World : clear implicits.
Arguments Handler : clear implicits.

Declare Scope handler_scope.
Delimit Scope handler_scope with handler.
Notation "'let*' x := m 'in' k" := (h_bind m (fun x => k))
  (at level 10, x binder, m at level 100, k at level 200,
   format "'[v' 'let*'  x  :=  m  'in' '/' k ']'") : handler_scope.
#[global] Open Scope handler_scope.

(** ** Reasoning about handlers *)

(** Database computations without a fuelled loop always end. *)
Definition Fuelless {A} (m : DB A) : Prop := forall s, finishes (m s).

Section FuellessRules.
Context `{DbEnv}.

Lemma fuelless_ret {A} (a : A) : Fuelless (db_ret a).
Proof. done. Qed.

Lemma fuelless_stmt {A} (f : Database -> Result (A * Database) DbErr) : Fuelless (stmt f).
Proof. intros s. unfold finishes, stmt. by repeat case_match. Qed.

Lemma fuelless_query {A} (f : Database -> A) : Fuelless (query f).
Proof. apply fuelless_stmt. Qed.

Lemma fuelless_now : Fuelless now_millis_string.
Proof. done. Qed.

Lemma fuelless_bind {A B} (m : DB A) (f : A -> DB B) :
  Fuelless m -> (forall a, Fuelless (f a)) -> Fuelless (db_bind m f).
Proof.
  intros Hm Hf s. unfold finishes, db_bind. specialize (Hm s). unfold finishes in Hm.
  destruct (m s) as [[a|e|] s']; [apply Hf|done|done].
Qed.

End FuellessRules.

Create HintDb fuelless discriminated.
#[export] Hint Resolve fuelless_ret fuelless_stmt fuelless_query fuelless_now : fuelless.

Ltac fuelless :=
  repeat first
    [ progress intros
    | solve [auto with fuelless]
    | apply fuelless_bind
    | match goal with
      | |- Fuelless (match ?x with _ => _ end) => destruct x
      | |- Fuelless (if ?x then _ else _) => destruct x
      end ].

Section Silent.
Context {E : Type} `{DbEnv} (I : Database -> Prop) (R : Database -> Database -> Prop) `{!Rely I R}.

(** The handler answers, keeps [I] and [R], and the outside sees nothing of it. *)
Definition Silent {A} (m : Handler E A) : Prop := forall w, I (db (w_db w)) ->
  exists a w', m w = (Some a, w') /\ w_events w' = w_events w /\
    I (db (w_db w')) /\ R (db (w_db w)) (db (w_db w')).

Lemma silent_reply {A} (a : A) : Silent (reply a).
Proof. intros w Hw. eexists _, _. split_and!; [done..|reflexivity]. Qed.

Lemma silent_bind {A B} (m : Handler E A) (f : A -> Handler E B) :
  Silent m -> (forall a, Silent (f a)) -> Silent (h_bind m f).
Proof.
  intros Hm Hf w Hw. destruct (Hm w Hw) as (a & w1 & E1 & Hev1 & HI1 & HR1).
  destruct (Hf a w1 HI1) as (b & w2 & E2 & Hev2 & HI2 & HR2).
  exists b, w2. unfold h_bind. rewrite E1. split_and!; [done|congruence|done|by etrans].
Qed.

Lemma silent_block_on {A} (m : DB A) (Q : A -> Prop) :
  Guarantee I R m Q -> Fuelless m -> Silent (block_on m).
Proof.
  intros Hg Hf w Hw. destruct (Hg (w_db w) Hw) as (HI & HR & _). specialize (Hf (w_db w)).
  unfold block_on, finishes in *. destruct (m (w_db w)) as [[a|e|] s]; [| |done];
    (eexists _, _; split_and!; [done..|exact HI|exact HR]).
Qed.

End Silent.

(** Decomposes a [Silent] goal along the program text; database calls are left to the caller. *)
Ltac silent_auto :=
  repeat first
    [ progress intros
    | apply silent_reply; apply _
    | apply silent_bind; [apply _| |]
    | match goal with
      | |- Silent _ _ (match ?x with _ => _ end) => destruct x
      | |- Silent _ _ (if ?x then _ else _) => destruct x
      end ].

(** *** Undisturbed *)

Section QuietHandlers.
Context {E : Type} `{Quiet}.

Lemma quiet_block_on_query {A} (f : Database -> A) (w : World E) :
  block_on (query f) w
  = (Some (Ok (f (db (w_db w)))), mkWorld (mkDbState (db (w_db w)) (S (step (w_db w)))) (w_events w)).
Proof. unfold block_on. by rewrite quiet_query. Qed.

Lemma quiet_block_on {A} (m : DB A) (Q : A -> Database -> Prop) (w : World E) :
  wp m Q (db (w_db w)) ->
  exists a s', block_on m w = (Some (Ok a), mkWorld s' (w_events w)) /\ Q a (db s').
Proof.
  intros Hm. destruct (wp_run m Q (w_db w) Hm) as (a & s' & E1 & HQ). exists a, s'.
  unfold block_on. by rewrite E1.
Qed.

(** Total correctness of an undisturbed handler. *)
Definition hwp {A} (m : Handler E A) (Q : A -> World E -> Prop) (w : World E) : Prop :=
  exists a w', m w = (Some a, w') /\ Q a w'.

Lemma hwp_reply {A} (a : A) (Q : A -> World E -> Prop) w : Q a w -> hwp (reply a) Q w.
Proof. intros HQ. by exists a, w. Qed.

Lemma hwp_bind {A B} (m : Handler E A) (f : A -> Handler E B) Q w :
  hwp m (fun a w' => hwp (f a) Q w') w -> hwp (h_bind m f) Q w.
Proof. intros (a & w1 & E1 & b & w2 & E2 & HQ). exists b, w2. unfold h_bind. by rewrite E1. Qed.

Lemma hwp_mono {A} (m : Handler E A) (Q Q' : A -> World E -> Prop) w :
  hwp m Q w -> (forall a w', Q a w' -> Q' a w') -> hwp m Q' w.
Proof. intros (a & w' & E1 & HQ) Himp. exists a, w'. auto. Qed.

Lemma hwp_emit (e : E) (Q : unit -> World E -> Prop) w :
  Q tt (mkWorld (w_db w) (w_events w ++ [e])) -> hwp (emit e) Q w.
Proof. intros HQ. by eexists _, _. Qed.

(** A query leaves the database and the events alone. *)
Lemma hwp_query {A} (f : Database -> A) (Q : Result A DbErr -> World E -> Prop) w :
  (forall w', db (w_db w') = db (w_db w) -> w_events w' = w_events w -> Q (Ok (f (db (w_db w)))) w') ->
  hwp (block_on (query f)) Q w.
Proof. intros HQ. eexists _, _. split; [apply quiet_block_on_query|]. by apply HQ. Qed.

Lemma hwp_block_on {A} (m : DB A) (P : A -> Database -> Prop) (Q : Result A DbErr -> World E -> Prop) w :
  wp m P (db (w_db w)) ->
  (forall a w', P a (db (w_db w')) -> w_events w' = w_events w -> Q (Ok a) w') ->
  hwp (block_on m) Q w.
Proof.
  intros Hm HQ. destruct (quiet_block_on m P w Hm) as (a & s' & E1 & HP). eexists _, _.
  split; [exact E1|]. by apply HQ.
Qed.

End QuietHandlers.
