(* ===== verification/CalibrationOps.v ===== *)
(** * Calibration mutations

    app/service/src/calibration_operations.rs: applying a calibration set to all cameras, or rolling
    one back, is sent to the capture provider at most once per operation id, behind a fence that
    stops every new mutation while an earlier one is unresolved. *)

From S2P Require Import Prelude Json Http Db Handler CalibrationStore DeviceGuard.
From Stdlib Require Import SpecFloat Ascii.

Definition APPLY_PATH : string := "/api/calibration/apply-all".
Definition ROLLBACK_PATH : string := "/api/calibration/rollback".
Definition OPERATION_ID_MAX_BYTES : Z := 128.

Definition operation_kind (path : string) : option string :=
  if path == APPLY_PATH then Some "apply-all"
  else if path == ROLLBACK_PATH then Some "rollback"
  else None.

(** ** Strict JSON *)

(** What the JSON reader hands to a visitor: keys of an object in text order, duplicates kept. *)
#[warnings="-register-all"] Inductive JsonTree :=
| TUnit
| TBool (b : bool)
| TU64 (n : Z)
| TI64 (n : Z)
| TF64 (f : spec_float)
| TStr (s : string)
| TSeq (l : list JsonTree)
| TMap (m : list (string * JsonTree)).

(** [serde_json::Deserializer::from_str] driving a visitor to the end of the text. *)
Class JsonReader := json_tree : string -> option JsonTree.

(** [UniqueJsonVisitor]: the value of a tree, [None] where it reports an error. *)
Fixpoint unique_value (t : JsonTree) : option Value :=
  let fix seq (l : list JsonTree) : option (list Value) :=
    match l with
    | [] => Some []
    | x :: l' =>
        match unique_value x with
        | None => None
        | Some v => match seq l' with Some vs => Some (v :: vs) | None => None end
        end
    end in
  let fix object (m : list (string * JsonTree)) (values : list (string * Value)) : option (list (string * Value)) :=
    match m with
    | [] => Some values
    | (key, x) :: m' =>
        if is_some (mget key values) then None
        else match unique_value x with
             | None => None
             | Some v => object m' (minsert key v values)
             end
    end in
  match t with
  | TUnit => Some JNull
  | TBool b => Some (JBool b)
  | TU64 n => Some (JNumber (PosInt n))
  | TI64 n => Some (jint n)
  | TF64 f => if sf_finite f then Some (JNumber (Float f)) else None
  | TStr s => Some (JString s)
  | TSeq l => option_map JArray (seq l)
  | TMap m => option_map JObject (object m [])
  end.

Definition parse_unique_json `{JsonReader} (body : string) : Result Value string :=
  ok_or (match json_tree (trim body) with Some t => unique_value t | None => None end)
        "invalid_or_duplicate_calibration_operation_json".

(** Sorting by key is inserting into an ordered map in any order. *)
Fixpoint canonicalize (value : Value) : Value :=
  match value with
  | JObject m =>
      JObject (fold_right (fun kv acc => minsert (fst kv) (snd kv) acc) []
                 (map (fun kv => (fst kv, canonicalize (snd kv))) m))
  | JArray l => JArray (map canonicalize l)
  | _ => value
  end.

(** ** Identifiers and hashes *)

Definition operation_id_byte (a : ascii) : bool :=
  is_ascii_alphanumeric a || byte_is a 45 || byte_is a 95 || byte_is a 46 || byte_is a 58.

Definition valid_operation_id (value : string) : bool :=
  negb (is_empty value) && (str_len value <=? OPERATION_ID_MAX_BYTES) && all_bytes operation_id_byte value.

Section Codec.
Context `{JsonCodec} `{JsonReader}.

Definition normalized_request (body : string) : Result (string * string) string :=
  let? value := parse_unique_json body in
  match value with
  | JObject object =>
      let? operation_id := ok_or (required_text "operationId" value) "calibration_operation_id_required" in
      if str_len operation_id >? OPERATION_ID_MAX_BYTES then Err "calibration_operation_id_too_long"
      else if negb (all_bytes operation_id_byte operation_id) then Err "calibration_operation_id_invalid"
      else
        let value := JObject (minsert "operationId" (JString operation_id) object) in
        Ok (operation_id, json_print (canonicalize value))
  | _ => Err "calibration_operation_json_object_required"
  end.

Definition fnv_step (hash : Z) (byte : ascii) : Z :=
  wrap_u64 (Z.lxor hash (byte_of byte) * 0x100000001b3).

Definition request_hash (kind request_json : string) : string :=
  "fnv1a64-" +:+
  hex_digits 16 (fold_left fnv_step (bytes kind ++ [lf] ++ bytes request_json) 0xcbf29ce484222325).

(** ** Responses *)

Definition operation_value (operation : CalibrationOperation) (replayed : bool) : Value :=
  let request := unwrap_or (json_parse (o_request_json operation)) (JString (o_request_json operation)) in
  let provider_body :=
    if is_empty (o_provider_response_body operation) then JNull
    else unwrap_or (json_parse (o_provider_response_body operation))
                   (JString (o_provider_response_body operation)) in
  jobj [("schema", JString "steel.service.calibration-operation.v1");
        ("code", jint 0);
        ("operationId", JString (o_id operation));
        ("kind", JString (o_kind operation));
        ("requestHash", JString (o_request_hash operation));
        ("request", request);
        ("status", JString (o_status operation));
        ("needsReconciliation", JBool (o_status operation == "needs-reconciliation"));
        ("providerHttpStatus", jint (o_provider_http_status operation));
        ("providerResponse", provider_body);
        ("error", JString (o_error operation));
        ("actor", JString (o_actor operation));
        ("parentOperationId", JString (o_parent_operation_id operation));
        ("reconciliationOutcome", JString (o_reconciliation_outcome operation));
        ("reconciliationId", JString (o_reconciliation_id operation));
        ("resolvedBy", JString (o_resolved_by operation));
        ("resolvedAt", JString (o_resolved_at operation));
        ("rowVersion", jint (o_row_version operation));
        ("createdAt", JString (o_created_at operation));
        ("dispatchStartedAt", JString (o_dispatch_started_at operation));
        ("finishedAt", JString (o_finished_at operation));
        ("updatedAt", JString (o_updated_at operation));
        ("replayed", JBool replayed)].

Definition operation_http_response (status : string) (operation : CalibrationOperation) (replayed : bool) : string :=
  json_response status (operation_value operation replayed).

Definition replay_response (operation : CalibrationOperation) : string :=
  let status := o_status operation in
  if status == "dispatching" then operation_http_response "202 Accepted" operation true
  else if one_of status ["succeeded"; "failed"] && (o_provider_http_status operation >? 0)
          && negb (is_empty (o_provider_response_body operation))
  then http_bytes_response_with_headers (capture_proxy_status (o_provider_http_status operation `mod` 65536))
         json_type (o_provider_response_body operation) []
  else if status == "needs-reconciliation" then operation_http_response "409 Conflict" operation true
  else if one_of status ["succeeded"; "failed"; "reconciled"] then operation_http_response "200 OK" operation true
  else operation_http_response "500 Internal Server Error" operation true.

Definition conflict_response (operation_id : string) : string :=
  json_response "409 Conflict"
    (jobj [("code", jint 409); ("error", JString "calibration_operation_id_conflict");
           ("operationId", JString operation_id)]).

Definition operation_in_progress_response (operation_id : string) : string :=
  json_response "409 Conflict"
    (jobj [("code", jint 409); ("error", JString "calibration_operation_in_progress");
           ("operationId", JString operation_id); ("retryable", JBool true)]).

Definition request_operation_id (request_json field : string) : string :=
  unwrap_or (match json_parse request_json with
             | Some value => option_map trim (get_str field value)
             | None => None
             end) "".

Definition expected_apply_operation_id (operation : CalibrationOperation) : string :=
  if one_of (o_kind operation) ["apply"; "apply-all"] then o_id operation
  else if o_kind operation == "rollback" then request_operation_id (o_request_json operation) "applyOperationId"
  else "".

Definition reconciliation_required_response (request_target : string)
    (unresolved : list CalibrationOperation) : string :=
  let fields :=
    [("code", jint 423); ("error", JString "calibration_reconciliation_required");
     ("requestTarget", JString request_target);
     ("unresolvedOperations", JArray (map (fun item =>
        jobj [("operationId", JString (o_id item)); ("kind", JString (o_kind item));
              ("status", JString (o_status item)); ("error", JString (o_error item));
              ("expectedApplyOperationId", JString (expected_apply_operation_id item));
              ("updatedAt", JString (o_updated_at item))]) unresolved))] in
  json_response "423 Locked"
    (jobj (if valid_operation_id request_target
           then fields ++ [("operationId", JString request_target)] else fields)).

Definition database_error_response (error : string) : string :=
  json_response "500 Internal Server Error" (jobj [("code", jint 500); ("error", JString error)]).

Definition validation_error_response (error : string) : string :=
  json_response "400 Bad Request" (jobj [("code", jint 400); ("error", JString error)]).

Definition mutation_requires_reconciliation_fence (method path : string) : bool :=
  (method == "POST") &&
  one_of path
    ["/api/calibration/load"; "/api/roi/load"; "/api/calibration/active"; "/api/config/profile/save";
     "/api/config/profile/import"; "/api/config/profile/apply"; "/api/config/camera-params/save-all";
     "/api/config/camera-params/load-all"; "/api/param"; "/api/param/save-device";
     "/api/param/save-to-device"; "/api/param/load-file"; "/api/param/recovery";
     "/api/capture/preset/line-continuous"].

Definition matches_request (operation : CalibrationOperation) (kind hash request_json : string) : bool :=
  (o_kind operation == kind) && (o_request_hash operation == hash) && (o_request_json operation == request_json).

(** [CaptureProxyResponse]. *)
Record CaptureProxyResponse := mkCaptureProxyResponse {
  status_code : Z;
  content_type : string;
  body_bytes : string;
}.

(** [body.get(k).and_then(Value::as_bool) == Some(b)]. *)
Definition says (k : string) (b : bool) (body : Value) : bool :=
  match get_bool k body with Some x => Bool.eqb x b | None => false end.

Definition provider_terminal_status (kind : string) (response : CaptureProxyResponse) : string * string :=
  match json_parse (body_bytes response) with
  | None => ("needs-reconciliation", "capture_provider_response_not_decisive")
  | Some body =>
      if (kind == "apply-all") && says "rollbackPerformed" true body && says "rollbackComplete" false body
      then ("needs-reconciliation", "capture_provider_automatic_rollback_incomplete")
      else if (kind == "rollback") && says "sideEffects" false body && says "attempted" false body
      then ("failed", "capture_provider_rollback_preflight_rejected")
      else if (kind == "rollback") && negb (says "complete" true body)
      then ("needs-reconciliation", "capture_provider_manual_rollback_incomplete")
      else if existsb (Z.eqb (status_code response)) [408; 502; 503; 504]
      then ("needs-reconciliation", "capture_provider_timeout_or_unavailable")
      else if negb ((200 <=? status_code response) && (status_code response <? 300))
      then ("failed", "capture_provider_rejected_operation")
      else match get_i64 "code" body with
           | None => ("needs-reconciliation", "capture_provider_response_not_decisive")
           | Some code => if code =? 0 then ("succeeded", "") else ("failed", "capture_provider_operation_failed")
           end
  end.

End Codec.

(** ** The mutation handler *)

(** What the outside sees: an operation sent to the capture provider. *)
Inductive CalibrationEvent := Dispatched (operation_id request_json : string).

(** What the handler knows of its request. *)
Record CalibrationRequest := mkCalibrationRequest {
  r_kind : string;
  r_operation_id : string;
  r_request_json : string;
  r_hash : string;
  r_parent : string;
  r_apply : string;
}.

Section Mutation.
Context `{JsonCodec} `{JsonReader} `{DbEnv}.

(** The provider: what comes back for a request, [None] for no answer. *)
Variable dispatch : string -> option CaptureProxyResponse.
Variable expected_cameras : Z.
Variable actor : string.

Abbreviation Action := (Handler CalibrationEvent string).

(** The request, or the answer that refuses it. *)
Definition admit_request (path body : string) : Result CalibrationRequest string :=
  match operation_kind path with
  | None => Err (validation_error_response "unsupported_calibration_operation_kind")
  | Some kind =>
      match normalized_request body with
      | Err error => Err (validation_error_response error)
      | Ok (operation_id, request_json) =>
          match validate_capture_device_mutation_request_for_camera_count path request_json expected_cameras with
          | Err error => Err (validation_error_response error)
          | Ok _ =>
              let hash := request_hash kind request_json in
              let parent := request_operation_id request_json "parentOperationId" in
              let apply := request_operation_id request_json "applyOperationId" in
              if negb (is_empty parent) && negb (valid_operation_id parent)
              then Err (validation_error_response "calibration_parent_operation_id_invalid")
              else if (kind == "rollback") && negb (valid_operation_id apply)
              then Err (validation_error_response "calibration_apply_operation_id_invalid")
              else Ok (mkCalibrationRequest kind operation_id request_json hash parent apply)
          end
      end
  end.

(** The lookup of the operation id: an answer when it is known already. *)
Definition replay_known (r : CalibrationRequest) : Handler CalibrationEvent (option string) :=
  let* found := block_on (find_calibration_operation (r_operation_id r)) in
  match found with
  | Ok (Some existing) =>
      reply (Some (if negb (matches_request existing (r_kind r) (r_hash r) (r_request_json r))
                   then conflict_response (r_operation_id r) else replay_response existing))
  | Ok None => reply None
  | Err _ => reply (Some (database_error_response "calibration_operation_lookup_failed"))
  end.

(** The fence: an answer that refuses, or the apply operation a reconciling rollback undoes. *)
Definition fence (r : CalibrationRequest) : Handler CalibrationEvent (Result string string) :=
  let* listed := block_on list_unresolved_calibration_operations in
  match listed with
  | Err _ => reply (Err (database_error_response "calibration_operation_fence_lookup_failed"))
  | Ok [] => reply (Ok "")
  | Ok ((first :: others) as unresolved) =>
      if existsb (fun item => o_status item == "dispatching") unresolved
      then reply (Err (operation_in_progress_response (r_operation_id r)))
      else
        let recovery_parent_matches :=
          (r_kind r == "rollback") && negb (is_empty (r_parent r))
          && match others with [] => true | _ => false end
          && (o_id first == r_parent r) && (o_status first == "needs-reconciliation") in
        if negb recovery_parent_matches
        then reply (Err (reconciliation_required_response (r_operation_id r) unresolved))
        else
          let expected := expected_apply_operation_id first in
          if is_empty expected || (r_apply r != expected)
          then reply (Err (json_response "409 Conflict"
                 (jobj [("code", jint 409);
                        ("error", JString "calibration_reconciliation_expected_apply_mismatch");
                        ("operationId", JString (r_operation_id r));
                        ("parentOperationId", JString (r_parent r));
                        ("expectedApplyOperationId", JString expected);
                        ("requestedApplyOperationId", JString (r_apply r));
                        ("needsReconciliation", JBool true)])))
          else reply (Ok expected)
  end.

(** Another mutation holds the dispatch lock. *)
Definition locked_out (r : CalibrationRequest) : Action :=
  let* found := block_on (find_calibration_operation (r_operation_id r)) in
  match found with
  | Ok (Some existing) =>
      reply (if matches_request existing (r_kind r) (r_hash r) (r_request_json r)
             then replay_response existing else conflict_response (r_operation_id r))
  | Ok None => reply (operation_in_progress_response (r_operation_id r))
  | Err _ => reply (database_error_response "calibration_operation_lookup_failed")
  end.

(** The insertion of the row failed. *)
Definition insert_refused (r : CalibrationRequest) : Action :=
  let* found := block_on (find_calibration_operation (r_operation_id r)) in
  match found with
  | Ok (Some existing) =>
      reply (if matches_request existing (r_kind r) (r_hash r) (r_request_json r)
             then replay_response existing else conflict_response (r_operation_id r))
  | _ => reply (database_error_response "calibration_operation_insert_failed")
  end.

(** A rollback that succeeded resolves the operation it was asked to undo. *)
Definition reconcile_parent (r : CalibrationRequest) (expected_apply : string)
    (operation : CalibrationOperation) (provider : CaptureProxyResponse) : Action :=
  let provider_apply :=
    unwrap_or (match json_parse (o_provider_response_body operation) with
               | Some value => get_str "applyOperationId" value
               | None => None
               end) "" in
  if provider_apply != expected_apply
  then reply (json_response "409 Conflict"
         (jobj [("code", jint 409); ("error", JString "calibration_reconciliation_parent_mismatch");
                ("operationId", JString (r_operation_id r)); ("parentOperationId", JString (r_parent r));
                ("expectedApplyOperationId", JString expected_apply);
                ("providerApplyOperationId", JString provider_apply);
                ("needsReconciliation", JBool true)]))
  else
    let* reconciled := block_on (reconcile_calibration_operation (r_parent r) (r_operation_id r)
                                   "restored-to-staged-baseline" actor) in
    let failed :=
      reply (json_response "409 Conflict"
        (jobj [("code", jint 409); ("error", JString "calibration_reconciliation_finalize_failed");
               ("operationId", JString (r_operation_id r)); ("parentOperationId", JString (r_parent r));
               ("needsReconciliation", JBool true)])) in
    match reconciled with
    | Ok (Some parent) =>
        if o_status parent == "reconciled" then
          let* _ := block_on (append_audit_log actor "calibration.reconciled" (r_parent r)
            ("restored to staged baseline by rollback operation " +:+ r_operation_id r) "warning") in
          reply (http_bytes_response_with_headers (capture_proxy_status (status_code provider))
                   (content_type provider) (body_bytes provider) [])
        else failed
    | _ => failed
    end.

(** The provider answered: record the outcome, then answer. *)
Definition settle (r : CalibrationRequest) (expected_apply : string) (provider : CaptureProxyResponse) : Action :=
  let '(status, error) := provider_terminal_status (r_kind r) provider in
  let* finalized := block_on (finish_calibration_operation (r_operation_id r) status
                                (status_code provider) (from_utf8_lossy (body_bytes provider)) error) in
  match finalized with
  | Ok (Some operation) =>
      if o_status operation == "needs-reconciliation"
      then reply (operation_http_response "409 Conflict" operation false)
      else if o_status operation != status
      then reply (operation_http_response "409 Conflict" operation false)
      else if (status == "succeeded") && (r_kind r == "rollback") && negb (is_empty (r_parent r))
      then reconcile_parent r expected_apply operation provider
      else reply (http_bytes_response_with_headers (capture_proxy_status (status_code provider))
                    (content_type provider) (body_bytes provider) [])
  | _ => reply (database_error_response "calibration_operation_finalize_failed")
  end.

(** The row is in place: send the operation and settle it. *)
Definition dispatch_operation (r : CalibrationRequest) (expected_apply : string) : Action :=
  let* _ := emit (Dispatched (r_operation_id r) (r_request_json r)) in
  match dispatch (r_request_json r) with
  | None =>
      let* finalized := block_on (finish_calibration_operation (r_operation_id r) "needs-reconciliation"
                                    0 "" "capture_provider_timeout_or_unavailable") in
      match finalized with
      | Ok (Some operation) => reply (operation_http_response "409 Conflict" operation false)
      | _ => reply (database_error_response "calibration_operation_finalize_failed")
      end
  | Some provider => settle r expected_apply provider
  end.

(** The critical section behind the dispatch lock. *)
Definition dispatch_locked (r : CalibrationRequest) (expected_apply : string) : Action :=
  let* known := replay_known r in
  match known with
  | Some answer => reply answer
  | None =>
      let* inserted := block_on (insert_calibration_operation
        (mkCalibrationOperationInput (r_operation_id r) (r_kind r) (r_hash r) (r_request_json r)
           actor (r_parent r))) in
      match inserted with
      | Err _ => insert_refused r
      | Ok _ => dispatch_operation r expected_apply
      end
  end.

(** calibration_operations.rs [mutation_response_with_dispatch]; [lock_free] is whether
    [calibration_operation_lock.try_lock()] succeeds. *)
Definition mutation_response_with_dispatch (lock_free : bool) (path body : string) : Action :=
  match admit_request path body with
  | Err answer => reply answer
  | Ok r =>
      let* known := replay_known r in
      match known with
      | Some answer => reply answer
      | None =>
          let* fenced := fence r in
          match fenced with
          | Err answer => reply answer
          | Ok expected_apply =>
              if lock_free then dispatch_locked r expected_apply else locked_out r
          end
      end
  end.

(** calibration_operations.rs [reconciliation_fence_response]. *)
Definition reconciliation_fence_response (operation_id : string) : Handler CalibrationEvent (option string) :=
  let* listed := block_on list_unresolved_calibration_operations in
  match listed with
  | Ok [] => reply None
  | Ok unresolved => reply (Some (reconciliation_required_response operation_id unresolved))
  | Err _ => reply (Some (database_error_response "calibration_operation_fence_lookup_failed"))
  end.

(** calibration_operations.rs [detail_response]; [None] is a panic of the query decoder. *)
Definition calibration_detail_response (query : string) : option Action :=
  match query_value query "id" with
  | None => None
  | Some id =>
      let operation_id := trim (unwrap_or id "") in
      Some (if is_empty operation_id then reply (validation_error_response "calibration_operation_id_required")
            else
              let* found := block_on (find_calibration_operation operation_id) in
              match found with
              | Ok (Some operation) => reply (operation_http_response "200 OK" operation false)
              | Ok None => reply (json_response "404 Not Found"
                  (jobj [("code", jint 404); ("error", JString "calibration_operation_not_found");
                         ("operationId", JString operation_id)]))
              | Err _ => reply (database_error_response "calibration_operation_lookup_failed")
              end)
  end.

End Mutation.
