(* ===== verification/CalibrationFacts.v ===== *)
(** * What calibration mutations promise

    At most one dispatch per operation id, whatever fails and whatever others do; a ledger that
    only moves forward; the fence that keeps out new mutations that find one unresolved; and the
    outcome each provider answer leaves in the ledger. *)

From S2P Require Import Prelude Json Http Db Handler CalibrationStore DeviceGuard CalibrationOps.

Definition ledger_has (id : string) (d : Database) : Prop := In id (map o_id (calibration_operation d)).

Lemma ledger_has_grows id d d' : ledger_grows d d' -> ledger_has id d -> ledger_has id d'.
Proof.
  unfold ledger_has. intros (kept & added & -> & HF) (o & <- & Ho)%in_map_iff.
  apply in_map_iff. revert Ho. induction HF as [|x y l l' Hxy _ IH]; simpl; [done|].
  intros [->|Ho].
  - exists y. split; [apply Hxy|by left].
  - destruct (IH Ho) as (z & Hz & Hin). exists z. split; [done|by right].
Qed.

Section Calibration.
Context `{JsonCodec} `{JsonReader} `{DbEnv} `{!Rely ledger_ok ledger_grows}.
Variable dispatch : string -> option CaptureProxyResponse.
Variable expected_cameras : Z.
Variable actor : string.

Abbreviation Quietly m := (Silent (E := CalibrationEvent) ledger_ok ledger_grows m).

Lemma silent_find id : Quietly (block_on (find_calibration_operation id)).
Proof. eapply silent_block_on; [apply g_find_operation|apply fuelless_query]. Qed.

Lemma silent_list : Quietly (block_on list_unresolved_calibration_operations).
Proof.
  eapply (silent_block_on _ _ _ (fun _ => True)); [by apply g_query; [apply _|]|apply fuelless_query].
Qed.

Lemma silent_finish id status http response error :
  one_of status ["succeeded"; "failed"; "needs-reconciliation"] = true ->
  Quietly (block_on (finish_calibration_operation id status http response error)).
Proof.
  intros Hs. eapply silent_block_on; [by apply g_finish_operation|].
  unfold finish_calibration_operation, find_calibration_operation, update_operations. fuelless.
Qed.

Lemma silent_reconcile id reconciliation outcome who :
  Quietly (block_on (reconcile_calibration_operation id reconciliation outcome who)).
Proof.
  eapply silent_block_on; [apply g_reconcile|].
  unfold reconcile_calibration_operation, find_calibration_operation, update_operations. fuelless.
Qed.

Lemma g_audit a1 a2 a3 a4 a5 : Guarantee ledger_ok ledger_grows (append_audit_log a1 a2 a3 a4 a5) (fun _ => True).
Proof.
  do 2 (eapply g_bind; [apply _|by apply g_now; apply _|]; intros ? _).
  apply g_stmt; [apply _|]. intros d u d' [Hi Hr]. case_match; [done|]. intros [= _ <-].
  split_and!; [by split| |done]. exists (calibration_operation d), []. split; [by rewrite app_nil_r|reflexivity].
Qed.

Lemma silent_audit a1 a2 a3 a4 a5 : Quietly (block_on (append_audit_log a1 a2 a3 a4 a5)).
Proof. eapply silent_block_on; [apply g_audit|]. unfold append_audit_log. fuelless. Qed.

Lemma provider_status_known kind response :
  one_of (fst (provider_terminal_status kind response)) ["succeeded"; "failed"; "needs-reconciliation"] = true.
Proof. unfold provider_terminal_status. by repeat case_match. Qed.

Lemma silent_replay_known r : Quietly (replay_known r).
Proof. unfold replay_known. silent_auto. apply silent_find. Qed.

Lemma silent_fence r : Quietly (fence r).
Proof. unfold fence. silent_auto. apply silent_list. Qed.

Lemma silent_locked_out r : Quietly (locked_out r).
Proof. unfold locked_out. silent_auto. apply silent_find. Qed.

Lemma silent_insert_refused r : Quietly (insert_refused r).
Proof. unfold insert_refused. silent_auto. all: apply silent_find. Qed.

Lemma silent_reconcile_parent r expected operation provider :
  Quietly (reconcile_parent actor r expected operation provider).
Proof. unfold reconcile_parent. silent_auto; first [apply silent_reconcile|apply silent_audit]. Qed.

Lemma silent_settle r expected provider : Quietly (settle actor r expected provider).
Proof.
  unfold settle. pose proof (provider_status_known (r_kind r) provider) as Hs.
  destruct (provider_terminal_status _ _) as [status error]. simpl in Hs.
  silent_auto; first [by apply silent_finish|apply silent_reconcile_parent].
Qed.

(** Sending an operation is seen outside once. *)
Lemma dispatch_once r expected w : ledger_ok (db (w_db w)) ->
  exists a w', dispatch_operation dispatch actor r expected w = (Some a, w') /\
    w_events w' = w_events w ++ [Dispatched (r_operation_id r) (r_request_json r)] /\
    ledger_ok (db (w_db w')) /\ ledger_grows (db (w_db w)) (db (w_db w')).
Proof.
  intros Hw. unfold dispatch_operation, h_bind at 1, emit.
  set (w1 := mkWorld (w_db w) (w_events w ++ [_])).
  assert (Hrest : Quietly (match dispatch (r_request_json r) with
    | None =>
        let* finalized := block_on (finish_calibration_operation (r_operation_id r) "needs-reconciliation"
                                      0 "" "capture_provider_timeout_or_unavailable") in
        match finalized with
        | Ok (Some operation) => reply (operation_http_response "409 Conflict" operation false)
        | _ => reply (database_error_response "calibration_operation_finalize_failed")
        end
    | Some provider => settle actor r expected provider
    end)).
  { destruct (dispatch _); [apply silent_settle|]. silent_auto. all: by apply silent_finish. }
  destruct (Hrest w1 Hw) as (a & w' & -> & Hev & HI & HR). eauto 10.
Qed.

(** An insertion that answers put the row there, and it was not there before. *)
Lemma insert_answers input s row s' : ledger_ok (db s) ->
  insert_calibration_operation input s = (Done row, s') ->
  ledger_has (ci_id input) (db s') /\ ~ ledger_has (ci_id input) (db s).
Proof.
  intros Hs. unfold insert_calibration_operation, db_bind, now_millis_string, stmt. simpl.
  destruct (rely_other _ _ (S (step s)) (db s) Hs) as [_ HR].
  destruct (db_fault _) as [|msg|msg]; [|done|by repeat case_match].
  destruct (existsb _ _) eqn:Ex; [done|]. intros [= _ <-]. split.
  - unfold ledger_has. simpl. rewrite map_app. apply in_app_iff. right. by left.
  - intros Hin. apply (ledger_has_grows _ _ _ HR) in Hin as (o & Ho & Hin)%in_map_iff.
    assert (existsb (operation_with_id (ci_id input)) (calibration_operation (db_other (S (step s)) (db s))) = true);
      [|congruence].
    apply existsb_exists. exists o. split; [done|]. unfold operation_with_id. by apply String.eqb_eq.
Qed.

(** What one request can do: nothing the outside sees, or one dispatch of a new operation. *)
Definition mutation_effect (id : string) (w w' : World CalibrationEvent) : Prop :=
  ledger_ok (db (w_db w')) /\ ledger_grows (db (w_db w)) (db (w_db w')) /\
  (w_events w' = w_events w \/
   (exists json, w_events w' = w_events w ++ [Dispatched id json] /\
      ~ ledger_has id (db (w_db w)) /\ ledger_has id (db (w_db w')))).

Lemma silent_effect {A} id (m : Handler CalibrationEvent A) w : Quietly m -> ledger_ok (db (w_db w)) ->
  exists a w', m w = (Some a, w') /\ mutation_effect id w w'.
Proof. intros Hm Hw. destruct (Hm w Hw) as (a & w' & E & Hev & HI & HR). exists a, w'. split; [done|]. by split_and!; [| |left]. Qed.

(** A silent first part does not change what the rest may do. *)
Lemma silent_then {A B} id (m : Handler CalibrationEvent A) (f : A -> Handler CalibrationEvent B) w :
  Quietly m -> (forall a w1, ledger_ok (db (w_db w1)) -> exists b w', f a w1 = (Some b, w') /\ mutation_effect id w1 w') ->
  ledger_ok (db (w_db w)) -> exists b w', h_bind m f w = (Some b, w') /\ mutation_effect id w w'.
Proof.
  intros Hm Hf Hw. destruct (Hm w Hw) as (a & w1 & E1 & Hev & HI & HR).
  destruct (Hf a w1 HI) as (b & w' & E2 & HI2 & HR2 & Heff). exists b, w'. unfold h_bind. rewrite E1.
  split; [done|]. split_and!; [done|by etrans|].
  destruct Heff as [Heq|(json & Heq & Hn & Hh)]; [left; congruence|right]. exists json.
  split_and!; [congruence| |done]. intros Hin. apply Hn. by eapply ledger_has_grows.
Qed.

Lemma dispatch_locked_effect r expected w : ledger_ok (db (w_db w)) ->
  exists a w', dispatch_locked dispatch actor r expected w = (Some a, w') /\ mutation_effect (r_operation_id r) w w'.
Proof.
  apply silent_then; [apply silent_replay_known|]. intros [answer|] w1 Hw1.
  { by apply silent_effect; [apply silent_reply; apply _|]. }
  set (input := mkCalibrationOperationInput _ _ _ _ _ _). unfold h_bind at 1, block_on at 1.
  destruct (g_insert_operation input (w_db w1) Hw1) as (HI & HR & _).
  destruct (insert_calibration_operation input (w_db w1)) as [[row|e|] s] eqn:Ei; simpl in HI, HR.
  - destruct (insert_answers input _ _ _ Hw1 Ei) as [Hhas Hnot].
    destruct (dispatch_once r expected (mkWorld s (w_events w1)) HI) as (a & w' & -> & Hev & HI' & HR').
    exists a, w'. split; [done|]. simpl in *. split_and!; [done|by etrans|right]. eexists.
    split_and!; [exact Hev|done|]. by eapply ledger_has_grows.
  - destruct (silent_insert_refused r (mkWorld s (w_events w1)) HI) as (a & w' & -> & Hev & HI' & HR').
    exists a, w'. split; [done|]. simpl in *. split_and!; [done|by etrans|by left].
  - exfalso. assert (Hf : Fuelless (insert_calibration_operation input))
      by (unfold insert_calibration_operation; fuelless).
    specialize (Hf (w_db w1)). unfold finishes in Hf. by rewrite Ei in Hf.
Qed.

Lemma mutation_response_effect lock_free path body w : ledger_ok (db (w_db w)) ->
  exists a w', mutation_response_with_dispatch dispatch expected_cameras actor lock_free path body w = (Some a, w') /\
    match admit_request expected_cameras path body with
    | Ok r => mutation_effect (r_operation_id r) w w'
    | Err _ => w' = w
    end.
Proof.
  intros Hw. unfold mutation_response_with_dispatch. destruct (admit_request _ path body) as [r|answer]; [|by eexists _, _].
  revert Hw. apply silent_then; [apply silent_replay_known|]. intros [answer|].
  { intros w1 Hw1. by apply silent_effect; [apply silent_reply; apply _|]. }
  intros w1. apply silent_then; [apply silent_fence|]. intros [expected|answer] w2 Hw2.
  - destruct lock_free; [by apply dispatch_locked_effect|]. apply silent_effect; [apply silent_locked_out|done].
  - by apply silent_effect; [apply silent_reply; apply _|].
Qed.

End Calibration.

(** ** Sequences of requests *)

(** A request with everything the handler does not decide itself, or a restart of the service. *)
Inductive CalibrationCall :=
| Mutate (provider : string -> option CaptureProxyResponse) (cameras : Z) (actor : string)
    (lock_free : bool) (path body : string)
| Restart.

Definition run_calibration_call `{JsonCodec} `{JsonReader} `{DbEnv} (call : CalibrationCall)
    (w : World CalibrationEvent) : World CalibrationEvent :=
  match call with
  | Mutate provider cameras actor lock_free path body =>
      snd (mutation_response_with_dispatch provider cameras actor lock_free path body w)
  | Restart => snd (block_on recover_dispatching_calibration_operations w)
  end.

Fixpoint run_calibration_calls `{JsonCodec} `{JsonReader} `{DbEnv} (calls : list CalibrationCall)
    (w : World CalibrationEvent) : World CalibrationEvent :=
  match calls with
  | [] => w
  | call :: calls' => run_calibration_calls calls' (run_calibration_call call w)
  end.

Definition event_id (e : CalibrationEvent) : string := let 'Dispatched id _ := e in id.

(** What holds between calls: nothing was sent twice, and everything sent is in the ledger. *)
Record sent_once (w : World CalibrationEvent) : Prop := {
  so_ledger : ledger_ok (db (w_db w));
  so_distinct : NoDup (map event_id (w_events w));
  so_recorded : Forall (fun e => ledger_has (event_id e) (db (w_db w))) (w_events w);
}.

Section Calls.
Context `{JsonCodec} `{JsonReader} `{DbEnv} `{!Rely ledger_ok ledger_grows}.

Lemma fuelless_recover l n : Fuelless (recover_operations l n).
Proof. revert n. induction l; intros n; simpl; unfold update_operations; fuelless; auto. Qed.

Lemma sent_once_grows w w' : sent_once w -> ledger_ok (db (w_db w')) ->
  ledger_grows (db (w_db w)) (db (w_db w')) -> w_events w' = w_events w -> sent_once w'.
Proof.
  intros [Hl Hd Hr] Hl' Hg He. split; rewrite ?He; [done|done|].
  eapply Forall_impl; [exact Hr|]. intros e. by apply ledger_has_grows.
Qed.

Lemma sent_once_mutation id w w' : sent_once w -> mutation_effect id w w' -> sent_once w'.
Proof.
  intros Hs (Hl & Hg & [He|(json & He & Hn & Hh)]); [by eapply sent_once_grows|].
  destruct Hs as [_ Hd Hr]. split; rewrite ?He; [done| |].
  - rewrite map_app. apply NoDup_app. split_and!; [done| |apply NoDup_singleton].
    intros x (e & <- & Hin)%list_elem_of_In%in_map_iff Hx%list_elem_of_singleton. apply Hn.
    simpl in Hx. rewrite <- Hx. rewrite List.Forall_forall in Hr. by apply Hr.
  - apply Forall_app. split; [|by repeat constructor].
    eapply Forall_impl; [exact Hr|]. intros e. by apply ledger_has_grows.
Qed.

Lemma sent_once_call call w : sent_once w -> sent_once (run_calibration_call call w) /\
  ledger_grows (db (w_db w)) (db (w_db (run_calibration_call call w))).
Proof.
  intros Hs. destruct call as [provider cameras actor lock_free path body|]; simpl.
  - destruct (mutation_response_effect provider cameras actor lock_free path body w (so_ledger _ Hs))
      as (a & w' & -> & Heff). simpl. destruct (admit_request cameras path body).
    + split; [by eapply sent_once_mutation|apply Heff].
    + subst. split; [done|reflexivity].
  - destruct (silent_block_on (E := CalibrationEvent) _ _ _ _ g_recover_ledger) with (w := w) as (a & w' & -> & He & HI & HR).
    + unfold recover_dispatching_calibration_operations. fuelless. apply fuelless_recover.
    + apply Hs.
    + simpl. split; [by eapply sent_once_grows|done].
Qed.

End Calls.

(** C4. At most one dispatch. Take any sequence of calibration requests and service restarts, any
    provider answers, any answers of the dispatch lock, any statement failing before or after it
    took effect, and any interference by others between two statements that only lets the ledger
    move forward. The provider is sent each operation id at most once, every operation sent is in
    the ledger, and the ledger as a whole has only moved forward: requests are never rewritten,
    succeeded, failed and reconciled operations never change, and one that needs reconciliation
    keeps its evidence and can only become reconciled. *)
Theorem calibration_dispatch_at_most_once (codec : JsonCodec) (reader : JsonReader) (env : DbEnv)
    (others : Rely ledger_ok ledger_grows) (calls : list CalibrationCall) (s : DbState) :
  ledger_ok (db s) ->
  let final := run_calibration_calls calls (mkWorld s []) in
  NoDup (map event_id (w_events final)) /\
  Forall (fun e => ledger_has (event_id e) (db (w_db final))) (w_events final) /\
  ledger_grows (db s) (db (w_db final)).
Proof.
  intros Hs. assert (Hw : sent_once (mkWorld s [])) by (split; [done|constructor|constructor]).
  assert (Hrun : forall w, sent_once w -> sent_once (run_calibration_calls calls w) /\
    ledger_grows (db (w_db w)) (db (w_db (run_calibration_calls calls w)))).
  { clear Hw. induction calls as [|call calls IH]; intros w Hw; simpl; [split; [done|reflexivity]|].
    destruct (sent_once_call call w Hw) as [H1 G1]. destruct (IH _ H1) as [H2 G2]. split; [done|by etrans]. }
  destruct (Hrun _ Hw) as [[_ Hd Hr] Hg]. done.
Qed.

(** ** Undisturbed requests *)

(** The operations that still need attention. *)
Definition unresolved_operations (d : Database) : list CalibrationOperation :=
  List.filter unresolved (calibration_operation d).

(** A new mutation may start when nothing is unresolved, or when it is the rollback that the only
    unresolved operation calls for. *)
Definition fence_open `{JsonCodec} (r : CalibrationRequest) (d : Database) : Prop :=
  unresolved_operations d = [] \/
  exists o, unresolved_operations d = [o] /\ o_status o = "needs-reconciliation" /\
    r_kind r = "rollback" /\ r_parent r = o_id o /\
    r_apply r = expected_apply_operation_id o /\ r_apply r <> "".

(** *** The fence, whatever fails and whoever writes *)

(** The database that the statement with number [n] finds. *)
Definition found_at `{DbEnv} (n : nat) (d : Database) : Database := db_other n d.

Section Fence.
Context `{JsonCodec} `{JsonReader} `{DbEnv}.
Variable dispatch : string -> option CaptureProxyResponse.
Variable expected_cameras : Z.
Variable actor : string.

(** A query answers what it finds, or fails; either way nothing is written or sent. *)
Lemma read_only {E A} (f : Database -> A) (w : World E) :
  let d := found_at (step (w_db w)) (db (w_db w)) in
  exists answer, block_on (query f) w = (Some answer, mkWorld (mkDbState d (S (step (w_db w)))) (w_events w)) /\
    (answer = Ok (f d) \/ exists e, answer = Err e).
Proof.
  cbv zeta. unfold block_on, query, stmt, found_at. destruct (db_fault _) as [|m|m]; eexists; (split; [reflexivity|eauto]).
Qed.

Lemma replay_reads r (w : World CalibrationEvent) :
  let d := found_at (step (w_db w)) (db (w_db w)) in
  exists known, replay_known r w = (Some known, mkWorld (mkDbState d (S (step (w_db w)))) (w_events w)) /\
    (known = None -> ~ ledger_has (r_operation_id r) d).
Proof.
  cbv zeta. unfold replay_known, find_calibration_operation, h_bind.
  destruct (read_only (fun d => List.find (operation_with_id (r_operation_id r)) (calibration_operation d)) w) as (found & -> & [->|(e & ->)]);
    [|by eexists].
  destruct (List.find _ _) as [existing|] eqn:Hf; [by eexists|]. eexists. split; [done|]. intros _ (o & Ho & Hin)%in_map_iff.
  apply find_none with (x := o) in Hf; [|done]. unfold operation_with_id in Hf. by apply String.eqb_neq in Hf.
Qed.

Lemma fence_reads r (w : World CalibrationEvent) :
  let d := found_at (step (w_db w)) (db (w_db w)) in
  exists answer, fence r w = (Some answer, mkWorld (mkDbState d (S (step (w_db w)))) (w_events w)) /\
    match answer with Ok _ => fence_open r d | Err _ => True end.
Proof.
  cbv zeta. set (d := found_at _ _). unfold fence, list_unresolved_calibration_operations, h_bind.
  match goal with |- context [block_on (query ?f)] => destruct (read_only f w) as (listed & -> & [->|(e & ->)]) end; [|by eexists].
  fold d. unfold fence_open. fold (unresolved_operations d).
  pose proof (merge_sort_Permutation (asc_le (fun o => (o_created_at o, ""))) (unresolved_operations d)) as Hp.
  unfold order_asc. destruct (merge_sort _ _) as [|first others].
  - eexists. split; [reflexivity|left]. symmetry in Hp. by apply Permutation_nil_r in Hp.
  - destruct (existsb _ _); [eexists; split; [reflexivity|done]|].
    destruct ((r_kind r == "rollback") && _ && _ && _ && _) eqn:Hrec; [|eexists; split; [reflexivity|done]]. simpl negb. cbv iota.
    destruct (is_empty _ || _) eqn:Happ; [eexists; split; [reflexivity|done]|].
    eexists. split; [reflexivity|right]. exists first. destruct others; [|by rewrite !andb_false_r in Hrec]. bool_facts.
    symmetry in Hp. apply Permutation_singleton_r in Hp. split_and!; try done. congruence.
Qed.

(** C5. The fence, as the code has it. Whatever statement fails and whatever others write meanwhile: a
    request that sends anything to the provider was admitted, found the dispatch lock free and its operation
    id unused when it looked it up (its first statement), and in the ledger as its second statement found
    it either no operation was unresolved, or the only unresolved one needs reconciliation and the request is
    the rollback of exactly the apply operation it calls for. The ledger is read once, before the lock is
    taken: the theorem is about that moment, and an operation that becomes unresolved between it and the
    dispatch is not seen (calibration_fence_outrun). *)
Theorem calibration_fence_holds (lock_free : bool) (path body : string) (w w' : World CalibrationEvent)
    (answer : option string) :
  mutation_response_with_dispatch dispatch expected_cameras actor lock_free path body w = (answer, w') ->
  w_events w' <> w_events w ->
  let n := step (w_db w) in
  let first := found_at n (db (w_db w)) in
  let second := found_at (S n) first in
  exists r, admit_request expected_cameras path body = Ok r /\ lock_free = true /\
    ~ ledger_has (r_operation_id r) first /\ fence_open r second.
Proof.
  unfold mutation_response_with_dispatch. destruct (admit_request _ path body) as [r|]; [|by intros [= _ <-]].
  unfold h_bind. destruct (replay_reads r w) as (known & -> & Hknown).
  destruct known as [existing|]; [by intros [= _ <-]|].
  match goal with |- context [fence r ?w1] => destruct (fence_reads r w1) as (fenced & -> & Hopen) end. simpl in Hopen.
  destruct fenced as [expected|refusal]; [|by intros [= _ <-]].
  destruct lock_free; [intros _ _; exists r; by split_and!; [..|apply Hknown|]|].
  unfold locked_out, find_calibration_operation, h_bind.
  match goal with |- context [block_on (query ?f) ?w2] => destruct (read_only f w2) as (found & -> & [->|(e & ->)]) end;
    [|by intros [= _ <-]]. destruct (List.find _ _); by intros [= _ <-].
Qed.

End Fence.

Section Quiet.
Context `{JsonCodec} `{JsonReader} `{Quiet}.
Variable dispatch : string -> option CaptureProxyResponse.
Variable expected_cameras : Z.
Variable actor : string.

Lemma quiet_replay_known r w : exists w', w_events w' = w_events w /\ db (w_db w') = db (w_db w) /\
  replay_known r w =
    (Some (match List.find (operation_with_id (r_operation_id r)) (calibration_operation (db (w_db w))) with
           | Some existing =>
               Some (if negb (matches_request existing (r_kind r) (r_hash r) (r_request_json r))
                     then conflict_response (r_operation_id r) else replay_response existing)
           | None => None
           end), w').
Proof.
  unfold replay_known, find_calibration_operation, h_bind. rewrite quiet_block_on_query.
  destruct (List.find _ _); (eexists; split_and!; [| |reflexivity]; done).
Qed.

(** *** What a dispatch leaves in the ledger *)

Lemma find_absent id l : ~ In id (map o_id l) -> List.find (operation_with_id id) l = None.
Proof.
  intros Hn. destruct (List.find _ l) as [o|] eqn:E; [|done]. apply find_some in E as [Hin Hid].
  destruct Hn. apply in_map_iff. exists o. unfold operation_with_id in Hid. by bool_facts.
Qed.

Lemma find_last id l o : ~ In id (map o_id l) -> o_id o = id ->
  List.find (operation_with_id id) (l ++ [o]) = Some o.
Proof.
  intros Hn Ho. induction l as [|x l IH]; simpl in *.
  - unfold operation_with_id. by rewrite Ho, String.eqb_refl.
  - destruct (operation_with_id id x) eqn:E; [|apply IH; tauto]. unfold operation_with_id in E. bool_facts. tauto.
Qed.

Lemma update_last id status version f l o : ~ In id (map o_id l) ->
  unchanged_since id status version o = true ->
  update_where (unchanged_since id status version) f (l ++ [o]) = l ++ [f o].
Proof.
  intros Hn Ho. unfold update_where. rewrite map_app. simpl. rewrite Ho. f_equal.
  rewrite <- (map_id l) at 2. apply map_ext_in. intros x Hx.
  destruct (unchanged_since id status version x) eqn:E; [|done].
  apply unchanged_since_true in E as (<- & _). destruct Hn. by apply in_map.
Qed.

Lemma wp_insert_operation input d : ~ ledger_has (ci_id input) d ->
  wp (insert_calibration_operation input) (fun row d' => exists now, row = new_operation input now /\
    d' = with_calibrations (calibration_operation d ++ [row]) d) d.
Proof.
  intros Hn. apply wp_bind, wp_now. intros now _. simpl. eapply wp_stmt.
  - destruct (existsb _ _) eqn:Ex; [exfalso|reflexivity]. apply existsb_exists in Ex as (o & Ho & Hid).
    apply Hn, in_map_iff. exists o. unfold operation_with_id in Hid. by bool_facts.
  - by exists now.
Qed.

Lemma wp_finish_last id status http response error l o d :
  calibration_operation d = l ++ [o] -> ~ In id (map o_id l) -> o_id o = id -> o_status o = "dispatching" ->
  wp (finish_calibration_operation id status http response error) (fun answer d' => exists now,
    let o' := finished_operation_row status http response error now (next_version (o_row_version o)) o in
    answer = Some o' /\ calibration_operation d' = l ++ [o']) d.
Proof.
  intros Hd Hn Hid Hs. apply wp_bind, wp_query. rewrite Hd, find_last by done. rewrite Hs. simpl.
  apply wp_bind, wp_now. intros now _. apply wp_bind. eapply wp_stmt; [reflexivity|].
  apply wp_query. simpl. rewrite Hd, update_last; [|done|].
  - exists now. rewrite find_last by done. done.
  - unfold unchanged_since, operation_with_id. by rewrite Hid, Hs, Z.eqb_refl, !String.eqb_refl.
Qed.

(** The outcome the ledger records for a provider answer. *)
Definition recorded_outcome (kind : string) (provider : option CaptureProxyResponse) : string * Z * string * string :=
  match provider with
  | None => ("needs-reconciliation", 0, "", "capture_provider_timeout_or_unavailable")
  | Some p => let '(status, error) := provider_terminal_status kind p in
              (status, status_code p, from_utf8_lossy (body_bytes p), error)
  end.

(** The answer to the client: the provider's own, unless the operation needs reconciliation. *)
Definition settled_answer (provider : option CaptureProxyResponse) (o : CalibrationOperation) : string :=
  match provider with
  | Some p => if o_status o == "needs-reconciliation" then operation_http_response "409 Conflict" o false
              else http_bytes_response_with_headers (capture_proxy_status (status_code p)) (content_type p) (body_bytes p) []
  | None => operation_http_response "409 Conflict" o false
  end.

Lemma quiet_dispatch_operation r expected l o w :
  r_parent r = "" -> calibration_operation (db (w_db w)) = l ++ [o] ->
  ~ In (r_operation_id r) (map o_id l) -> o_id o = r_operation_id r -> o_status o = "dispatching" ->
  let '(status, http, response, error) := recorded_outcome (r_kind r) (dispatch (r_request_json r)) in
  exists now s',
    let o' := finished_operation_row status http response error now (next_version (o_row_version o)) o in
    dispatch_operation dispatch actor r expected w
      = (Some (settled_answer (dispatch (r_request_json r)) o'),
         mkWorld s' (w_events w ++ [Dispatched (r_operation_id r) (r_request_json r)])) /\
    calibration_operation (db s') = l ++ [o'].
Proof.
  intros Hp Hd Hn Hid Hs. unfold dispatch_operation, recorded_outcome, settled_answer, settle, emit, h_bind.
  set (w1 := mkWorld (w_db w) (w_events w ++ [_])).
  destruct (dispatch (r_request_json r)) as [p|].
  - destruct (provider_terminal_status (r_kind r) p) as [status error].
    destruct (quiet_block_on _ _ w1 (wp_finish_last _ status (status_code p) (from_utf8_lossy (body_bytes p))
                error l o (db (w_db w)) Hd Hn Hid Hs)) as (answer & s' & -> & now & -> & Hl).
    exists now, s'. split; [|done]. simpl. rewrite Hp. simpl. rewrite andb_false_r.
    destruct (status == "needs-reconciliation"); [done|]. by rewrite String.eqb_refl.
  - destruct (quiet_block_on _ _ w1 (wp_finish_last _ "needs-reconciliation" 0 ""
                "capture_provider_timeout_or_unavailable" l o (db (w_db w)) Hd Hn Hid Hs)) as (answer & s' & -> & now & -> & Hl).
    by exists now, s'.
Qed.

(** The recorded outcome. Undisturbed, an admitted request with an unused operation id and no
    parent, with nothing unresolved and the lock free, is sent to the provider exactly once. It adds
    one row to the ledger, which holds the provider's status code and body and the outcome its
    answer proves: succeeded, failed, or needs-reconciliation when the answer is missing or not
    decisive. The client gets the provider's own answer, or a conflict naming the row that needs
    reconciliation. *)
Theorem calibration_outcome_recorded (path body : string) (r : CalibrationRequest) (w : World CalibrationEvent) :
  admit_request expected_cameras path body = Ok r -> r_parent r = "" ->
  ~ ledger_has (r_operation_id r) (db (w_db w)) -> unresolved_operations (db (w_db w)) = [] ->
  let '(status, http, response, error) := recorded_outcome (r_kind r) (dispatch (r_request_json r)) in
  exists now0 now1 s',
    let input := mkCalibrationOperationInput (r_operation_id r) (r_kind r) (r_hash r) (r_request_json r) actor "" in
    let row := finished_operation_row status http response error now1 2 (new_operation input now0) in
    mutation_response_with_dispatch dispatch expected_cameras actor true path body w
      = (Some (settled_answer (dispatch (r_request_json r)) row),
         mkWorld s' (w_events w ++ [Dispatched (r_operation_id r) (r_request_json r)])) /\
    calibration_operation (db s') = calibration_operation (db (w_db w)) ++ [row].
Proof.
  intros Hadmit Hp Hn Hu. unfold mutation_response_with_dispatch. rewrite Hadmit. unfold h_bind.
  destruct (quiet_replay_known r w) as (w1 & He1 & Hd1 & ->). rewrite (find_absent _ _ Hn).
  unfold fence, list_unresolved_calibration_operations, h_bind. rewrite quiet_block_on_query.
  fold (unresolved_operations (db (w_db w1))). rewrite Hd1, Hu. simpl. unfold dispatch_locked, h_bind.
  match goal with |- context [replay_known r ?x] => destruct (quiet_replay_known r x) as (w2 & He2 & Hd2 & ->) end.
  simpl in He2, Hd2 |- *. rewrite (find_absent _ _ Hn).
  destruct (quiet_block_on _ _ w2 (wp_insert_operation
    (mkCalibrationOperationInput (r_operation_id r) (r_kind r) (r_hash r) (r_request_json r) actor (r_parent r))
    (db (w_db w2)) ltac:(rewrite Hd2; exact Hn))) as (row & s & -> & now0 & -> & Hs).
  assert (Hl : calibration_operation (db (w_db (mkWorld s (w_events w2)))) =
    calibration_operation (db (w_db w)) ++ [new_operation (mkCalibrationOperationInput (r_operation_id r) (r_kind r)
      (r_hash r) (r_request_json r) actor (r_parent r)) now0]) by (simpl; rewrite Hs, Hd2; done).
  pose proof (quiet_dispatch_operation r "" _ _ _ Hp Hl Hn eq_refl eq_refl) as Hdone.
  destruct (recorded_outcome _ _) as [[[status http] response] error].
  destruct Hdone as (now1 & s' & Hrun & Hrow). exists now0, now1, s'. rewrite Hp in Hrun, Hrow.
  simpl in Hrun. rewrite He2, He1 in *. split; [exact Hrun|exact Hrow].
Qed.

(** Replays. Undisturbed, a request whose operation id is in the ledger changes nothing and
    sends nothing: if it is the recorded request it is answered from the ledger, otherwise it is
    refused as a conflict. *)
Theorem calibration_replay (lock_free : bool) (path body : string) (r : CalibrationRequest)
    (o : CalibrationOperation) (w : World CalibrationEvent) :
  admit_request expected_cameras path body = Ok r ->
  List.find (operation_with_id (r_operation_id r)) (calibration_operation (db (w_db w))) = Some o ->
  exists w', mutation_response_with_dispatch dispatch expected_cameras actor lock_free path body w
      = (Some (if matches_request o (r_kind r) (r_hash r) (r_request_json r)
               then replay_response o else conflict_response (r_operation_id r)), w') /\
    w_events w' = w_events w /\ db (w_db w') = db (w_db w).
Proof.
  intros Hadmit Hf. unfold mutation_response_with_dispatch. rewrite Hadmit. unfold h_bind.
  destruct (quiet_replay_known r w) as (w1 & He1 & Hd1 & ->). rewrite Hf.
  exists w1. by destruct (matches_request _ _ _ _).
Qed.

End Quiet.

(** ** A concrete service *)

(** A rollback request for operation [id], as text, as the reader's tree and as a value. *)
Definition rollback_tree (id : string) : JsonTree :=
  TMap [("operationId", TStr id); ("confirmation", TStr CAMERA_CALIBRATION_ROLLBACK_CONFIRMATION);
        ("applyOperationId", TStr "apply-1")].
Definition rollback_value (id : string) : Value :=
  jobj [("operationId", JString id); ("confirmation", JString CAMERA_CALIBRATION_ROLLBACK_CONFIRMATION);
        ("applyOperationId", JString "apply-1")].

(** The rollback that reconciles the operation apply-9. *)
Definition recovery_tree (id : string) : JsonTree :=
  TMap [("operationId", TStr id); ("confirmation", TStr CAMERA_CALIBRATION_ROLLBACK_CONFIRMATION);
        ("applyOperationId", TStr "apply-9"); ("parentOperationId", TStr "apply-9")].
Definition recovery_value (id : string) : Value :=
  jobj [("operationId", JString id); ("confirmation", JString CAMERA_CALIBRATION_ROLLBACK_CONFIRMATION);
        ("applyOperationId", JString "apply-9"); ("parentOperationId", JString "apply-9")].

Definition sample_json : JsonCodec :=
  {| json_print := fun v =>
       (if is_some (get_str "parentOperationId" v) then "recover:" else "request:") +:+ unwrap_or (get_str "operationId" v) "";
     json_parse := fun s =>
       match strip_prefix "request:" s, strip_prefix "recover:" s with
       | Some id, _ => Some (rollback_value id)
       | _, Some id => Some (recovery_value id)
       | None, None => if s == "complete" then Some (jobj [("complete", JBool true); ("code", jint 0)]) else None
       end |}.
Definition sample_reader : JsonReader := fun s =>
  match strip_prefix "request:" s with
  | Some id => Some (rollback_tree id)
  | None => option_map recovery_tree (strip_prefix "recover:" s)
  end.

Definition sample_provider (_ : string) : option CaptureProxyResponse :=
  Some (mkCaptureProxyResponse 200 json_type "complete").

Definition sample_request (id : string) : CalibrationRequest :=
  mkCalibrationRequest "rollback" id ("request:" +:+ id) (request_hash "rollback" ("request:" +:+ id)) "" "apply-1".

Definition empty_ledger : DbState := mkDbState (mkDatabase [] [] [] []) 0.

Lemma empty_ledger_ok : ledger_ok (db empty_ledger).
Proof. split; constructor. Qed.

(** Somebody else's apply operation, which timed out. *)
Definition stuck_operation : CalibrationOperation :=
  interrupted_row "5" 2 (new_operation
    (mkCalibrationOperationInput "apply-9" "apply-all" "fnv1a64-0" "{}" "other" "") "4").

Definition add_operation (o : CalibrationOperation) (d : Database) : Database :=
  if existsb (operation_with_id (o_id o)) (calibration_operation d) then d
  else with_calibrations (calibration_operation d ++ [o]) d.

Lemma add_operation_ok o d : ledger_status (o_status o) = true -> 1 <= o_row_version o <= i32_max ->
  ledger_ok d -> ledger_ok (add_operation o d) /\ ledger_grows d (add_operation o d).
Proof.
  intros Ho Hv [Hi Hr]. unfold add_operation. destruct (existsb _ _) eqn:Ex; [split; [by split|reflexivity]|].
  split; [split; simpl|].
  - rewrite map_app. apply NoDup_app. split_and!; [done| |apply NoDup_singleton].
    intros x (o' & <- & Hin)%list_elem_of_In%in_map_iff Hx%list_elem_of_singleton.
    assert (existsb (operation_with_id (o_id o)) (calibration_operation d) = true); [|congruence].
    apply existsb_exists. exists o'. split; [done|]. unfold operation_with_id. by apply String.eqb_eq.
  - apply Forall_app. split; [done|]. constructor; [done|constructor].
  - exists (calibration_operation d), [o]. split; [done|]. reflexivity.
Qed.

(** Between the fence and the lock of a request, another one ran to its end and timed out. *)
Definition racing_env : DbEnv :=
  mkDbEnv (fun _ => NoFault) (fun n => Z.of_nat n)
    (fun n d => match n with 2%nat => add_operation stuck_operation d | _ => d end).

Lemma racing_rely : @Rely racing_env ledger_ok ledger_grows.
Proof.
  split; [apply _|]. intros n d Hd. do 2 (destruct n as [|n]; [split; [done|simpl; reflexivity]|]).
  destruct n as [|n]; [|split; [done|simpl; reflexivity]]. simpl. by apply add_operation_ok.
Qed.

(** The fence is checked before the dispatch lock is taken and not again behind it, so it can be
    outrun: there is a run, with interference the ledger rules allow, in which another apply
    operation becomes unresolved after the check, and the request is still sent to the provider
    although that operation needs reconciliation and the request is not its rollback. *)
Theorem calibration_fence_outrun :
  let w := @run_calibration_calls sample_json sample_reader racing_env
             [Mutate sample_provider 1 "operator" true ROLLBACK_PATH "request:op-1"] (mkWorld empty_ledger []) in
  @Rely racing_env ledger_ok ledger_grows /\
  w_events w = [Dispatched "op-1" "request:op-1"] /\
  map (fun o => (o_id o, o_status o)) (calibration_operation (db (w_db w)))
    = [("apply-9", "needs-reconciliation"); ("op-1", "succeeded")] /\
  r_parent (sample_request "op-1") = "".
Proof. split; [exact racing_rely|]. vm_compute. done. Qed.

(** *** Witnesses *)

Lemma calibration_dispatch_at_most_once_witness :
  let calls := [Mutate sample_provider 1 "operator" true ROLLBACK_PATH "request:op-1"; Restart;
                Mutate sample_provider 1 "operator" true ROLLBACK_PATH "request:op-1"] in
  let final := @run_calibration_calls sample_json sample_reader racing_env calls (mkWorld empty_ledger []) in
  map event_id (w_events final) = ["op-1"] /\ NoDup (map event_id (w_events final)).
Proof.
  split; [vm_compute; reflexivity|].
  apply (calibration_dispatch_at_most_once sample_json sample_reader racing_env racing_rely
    [Mutate sample_provider 1 "operator" true ROLLBACK_PATH "request:op-1"; Restart;
     Mutate sample_provider 1 "operator" true ROLLBACK_PATH "request:op-1"] empty_ledger), empty_ledger_ok.
Defined.

(** A ledger whose operation apply-9 needs reconciliation, and the rollback that names it. *)
Definition stuck_ledger : DbState := mkDbState (add_operation stuck_operation (db empty_ledger)) 0.

Lemma calibration_fence_holds_witness :
  map o_id (unresolved_operations (db stuck_ledger)) = ["apply-9"] /\
  exists r, @admit_request sample_json sample_reader 1 ROLLBACK_PATH "recover:op-2" = Ok r /\ true = true /\
    ~ ledger_has (r_operation_id r) (db stuck_ledger) /\ @fence_open sample_json r (db stuck_ledger).
Proof.
  split; [vm_compute; reflexivity|].
  destruct (@mutation_response_with_dispatch sample_json sample_reader (quiet_env 9) sample_provider 1 "operator"
    true ROLLBACK_PATH "recover:op-2" (mkWorld stuck_ledger [])) as [answer w'] eqn:E.
  apply (@calibration_fence_holds sample_json sample_reader (quiet_env 9) sample_provider 1 "operator"
    true ROLLBACK_PATH "recover:op-2" (mkWorld stuck_ledger []) w' answer E).
  vm_compute in E. injection E as _ <-. discriminate.
Defined.

Lemma calibration_outcome_recorded_witness :
  exists now0 now1 s',
    @mutation_response_with_dispatch sample_json sample_reader (quiet_env 9) sample_provider 1 "operator"
      true ROLLBACK_PATH "request:op-1" (mkWorld empty_ledger [])
    = (Some (@settled_answer sample_json (sample_provider "")
               (finished_operation_row "succeeded" 200 "complete" "" now1 2
                  (new_operation (mkCalibrationOperationInput "op-1" "rollback" (r_hash (sample_request "op-1"))
                     "request:op-1" "operator" "") now0))),
       mkWorld s' [Dispatched "op-1" "request:op-1"]).
Proof.
  destruct (@calibration_outcome_recorded sample_json sample_reader (quiet_env 9) _ sample_provider 1 "operator"
    ROLLBACK_PATH "request:op-1" (sample_request "op-1") (mkWorld empty_ledger []))
    as (now0 & now1 & s' & Hrun & _); [vm_compute; reflexivity|reflexivity|intros []|reflexivity|].
  exists now0, now1, s'. exact Hrun.
Defined.

Lemma calibration_replay_witness :
  exists w', @mutation_response_with_dispatch sample_json sample_reader (quiet_env 9) sample_provider 1 "operator"
      true ROLLBACK_PATH "request:apply-9" (mkWorld (mkDbState (add_operation stuck_operation (db empty_ledger)) 0) [])
      = (Some (@conflict_response sample_json "apply-9"), w') /\ w_events w' = [].
Proof.
  destruct (@calibration_replay sample_json sample_reader (quiet_env 9) _ sample_provider 1 "operator" true
    ROLLBACK_PATH "request:apply-9" (sample_request "apply-9") stuck_operation
    (mkWorld (mkDbState (add_operation stuck_operation (db empty_ledger)) 0) []))
    as (w' & Hrun & He & _); [vm_compute; reflexivity|vm_compute; reflexivity|].
  exists w'. split; [exact Hrun|exact He].
Defined.
