(* ===== verification/Runtime.v ===== *)
(** * Runtime mode, capabilities and admission

    The acquisition mode and the capabilities it leaves (app/service/src/runtime_profile.rs), and
    the admission of mutating requests with the drain that precedes a mode change or an update
    (app/service/src/main.rs). *)

From S2P Require Import Prelude Json Http.
From Stdlib Require Import Ascii.

(** ** Capabilities *)

Inductive AcquisitionMode := Online | Offline | Simulation.

#[export] Instance acquisition_mode_eq : EqDecision AcquisitionMode.
Proof. solve_decision. Defined.

Definition mode_as_str (mode : AcquisitionMode) : string :=
  match mode with Online => "online" | Offline => "offline" | Simulation => "simulation" end.

Record RuntimeCapabilities := mkRuntimeCapabilities {
  direct_camera : bool;
  capture_management : bool;
  reconstruction : bool;
  offline_replay : bool;
}.

(** runtime_profile.rs [RuntimeCapabilities::effective_for_mode]. *)
Definition effective_for_mode (c : RuntimeCapabilities) (mode : AcquisitionMode) : RuntimeCapabilities :=
  match mode with
  | Online => c
  | Offline => mkRuntimeCapabilities false false false (offline_replay c)
  | Simulation => mkRuntimeCapabilities false (capture_management c) (reconstruction c) true
  end.

Inductive RuntimeCapability := DirectCamera | CaptureManagement | Reconstruction | OfflineReplay.

Definition capability_as_str (c : RuntimeCapability) : string :=
  match c with
  | DirectCamera => "directCamera"
  | CaptureManagement => "captureManagement"
  | Reconstruction => "reconstruction"
  | OfflineReplay => "offlineReplay"
  end.

(** runtime_profile.rs [RuntimeProfile::allows]; the profile is its mode and its capabilities. *)
Definition allows (mode : AcquisitionMode) (c : RuntimeCapabilities) (capability : RuntimeCapability) : bool :=
  let capabilities := effective_for_mode c mode in
  match capability with
  | DirectCamera => direct_camera capabilities
  | CaptureManagement => capture_management capabilities
  | Reconstruction => reconstruction capabilities
  | OfflineReplay => offline_replay capabilities
  end.

(** ** Admission *)

Record RuntimeAdmissionState := mkRuntimeAdmissionState {
  accepting : bool;
  completion_accepting : bool;
  in_flight : Z;
}.

Definition default_admission : RuntimeAdmissionState := mkRuntimeAdmissionState true true 0.

(** [RuntimeAdmissionGuard::drop]. *)
Definition leave_admission (a : RuntimeAdmissionState) : RuntimeAdmissionState :=
  mkRuntimeAdmissionState (accepting a) (completion_accepting a) (sat_sub (in_flight a) 1).

(** The mutex around the state: [None] when a holder panicked. *)
Definition AdmissionCell := option RuntimeAdmissionState.

(** main.rs [runtime_drain_status_json]. *)
Definition runtime_drain_status_json (cell : AdmissionCell) : Value :=
  match cell with
  | Some a => jobj [("draining", JBool (negb (accepting a))); ("accepting", JBool (accepting a));
                    ("acceptingNewProduction", JBool (accepting a));
                    ("acceptingCompletion", JBool (completion_accepting a));
                    ("inFlight", jint (in_flight a))]
  | None => jobj [("draining", JBool true); ("accepting", JBool false);
                  ("acceptingNewProduction", JBool false); ("acceptingCompletion", JBool false);
                  ("inFlight", jint 1); ("error", JString "runtime_admission_state_unavailable")]
  end.

(** main.rs [runtime_is_draining]. *)
Definition runtime_is_draining (cell : AdmissionCell) : bool :=
  match cell with Some a => negb (accepting a) | None => true end.

(** main.rs [runtime_completion_route]. *)
Definition runtime_completion_route (method path : string) : bool :=
  (method == "POST") &&
  one_of path ["/api/production/steel-out"; "/api/production/tasks/steel-out";
               "/api/production/tasks/cancel"; "/internal/v1/steel-out"; "/internal/v1/capture-commit";
               "/internal/v1/capture-regions"; "/internal/v1/defect-batch"].

(** main.rs [is_trigger_service_mutation_route]. *)
Definition is_trigger_service_mutation_route (method path : string) : bool :=
  (method == "POST") &&
  one_of path ["/api/production/tasks/steel-info"; "/api/production/tasks/steel-in";
               "/api/production/tasks/steel-out"; "/api/production/tasks/trigger-event";
               "/api/production/steel-info"; "/api/production/steel-in"; "/api/production/steel-out";
               "/api/production/trigger-event"; "/api/production/secondary-data";
               "/api/production/capture-summary"; "/api/production/capture-once"; "/api/production/defect"].

Section Admission.
Context `{JsonCodec}.

(** SHA-256, of the [sha2] crate. *)
Variable sha256 : string -> string.

(** main.rs [runtime_draining_http_response]. *)
Definition runtime_draining_http_response (cell : AdmissionCell) (path : string) : string :=
  json_response "503 Service Unavailable"
    (jobj [("code", jint 503); ("error", JString "runtime_draining"); ("path", JString path);
           ("admission", runtime_drain_status_json cell)]).

(** What a request is told at the door: a guard to hold, no guard needed, or a refusal. *)
Inductive Admission := Guarded | Unguarded | Refused (response : string).

(** main.rs [enter_runtime_admission]. *)
Definition enter_runtime_admission (cell : AdmissionCell) (method path : string) : Admission * AdmissionCell :=
  if negb (one_of method ["POST"; "PUT"; "PATCH"; "DELETE"]) || (path == "/api/runtime/drain")
  then (Unguarded, cell)
  else
    match cell with
    | None =>
        (Refused (json_response "503 Service Unavailable"
           (jobj [("code", jint 503); ("error", JString "runtime_admission_state_unavailable")])), cell)
    | Some a =>
        if negb (accepting a) && negb (completion_accepting a && runtime_completion_route method path)
        then (Refused (runtime_draining_http_response cell path), cell)
        else (Guarded, Some (mkRuntimeAdmissionState (accepting a) (completion_accepting a)
                               (sat_add u64_max (in_flight a) 1)))
    end.

(** main.rs [constant_time_runtime_token_matches]. *)
Fixpoint zip_difference (l r : list ascii) : Z :=
  match l, r with
  | a :: l', b :: r' => Z.lor (Z.lxor (byte_of a) (byte_of b)) (zip_difference l' r')
  | _, _ => 0
  end.
Definition constant_time_runtime_token_matches (expected supplied : string) : bool :=
  Z.lor (Z.lxor (str_len expected) (str_len supplied))
        (zip_difference (bytes (sha256 expected)) (bytes (sha256 supplied))) =? 0.

(** The peer of a connection: [None] unknown, otherwise whether it is a loopback address. *)
Definition is_loopback (peer : option bool) : bool := match peer with Some b => b | None => false end.

(** main.rs [trusted_trigger_service_request]. *)
Definition trusted_trigger_service_request (token request method path : string) (peer : option bool) : bool :=
  if negb (is_trigger_service_mutation_route method path) || negb (is_loopback peer) || (str_len token <? 32)
  then false
  else
    let supplied := unwrap_or (request_header request "X-Trigger-Operator-Token") "" in
    negb (is_empty supplied) && constant_time_runtime_token_matches token supplied.

(** main.rs [runtime_drain_response]; [command_lock] is whether the production command lock can be
    taken (a poisoned lock cannot). The answer and the new admission state. *)
Definition runtime_drain_response (token request : string) (peer : option bool) (command_lock : bool)
    (cell : AdmissionCell) : string * AdmissionCell :=
  if negb (is_loopback peer)
  then (json_response "403 Forbidden"
          (jobj [("code", jint 403); ("error", JString "runtime_drain_loopback_only")]), cell)
  else
    let supplied := unwrap_or (request_header request "X-Trigger-Operator-Token") "" in
    if (str_len token <? 32) || is_empty supplied
       || negb (constant_time_runtime_token_matches token supplied)
    then (json_response "401 Unauthorized"
            (jobj [("code", jint 401); ("error", JString "runtime_drain_auth_required")]), cell)
    else
      match cell with
      | None =>
          (json_response "503 Service Unavailable"
             (jobj [("code", jint 503); ("error", JString "runtime_admission_state_unavailable")]), cell)
      | Some a =>
          let cell' := Some (mkRuntimeAdmissionState false (completion_accepting a) (in_flight a)) in
          if negb command_lock
          then (json_response "503 Service Unavailable"
                  (jobj [("code", jint 503); ("error", JString "production_command_lock_poisoned")]), cell')
          else (json_response "200 OK"
                  (jobj [("code", jint 0); ("admission", runtime_drain_status_json cell')]), cell')
      end.

(** main.rs [set_runtime_transition_admission]: a change of the mode closes admission, and opens it again when
    it is given up. *)
Definition set_runtime_transition_admission (opening : bool) (cell : AdmissionCell) : Result unit string * AdmissionCell :=
  match cell with
  | None => (Err "runtime admission state unavailable", cell)
  | Some a =>
      if negb opening && negb (accepting a)
      then (Err "another runtime drain or mode transition is already active", cell)
      else (Ok tt, Some (mkRuntimeAdmissionState opening true (in_flight a)))
  end.

(** main.rs [wait_for_runtime_transition_processing_drain], the section behind the production command lock:
    completions are closed, and stay closed when nothing is left to process ([Ok true]); the request that
    asks is itself in flight. *)
Definition close_completions (open_tasks : Z) (worker_busy : bool) (cell : AdmissionCell) : Result bool string * AdmissionCell :=
  match cell with
  | None => (Err "runtime admission state unavailable", cell)
  | Some a =>
      if (open_tasks =? 0) && negb worker_busy && (in_flight a <=? 1)
      then (Ok true, Some (mkRuntimeAdmissionState (accepting a) false (in_flight a)))
      else (Ok false, Some (mkRuntimeAdmissionState (accepting a) true (in_flight a)))
  end.

(** ** Requests in flight *)

(** The cell together with the guards handed out and not dropped yet. *)
Record AdmissionWorld := mkAdmissionWorld { aw_cell : AdmissionCell; aw_held : list (string * string) }.

Inductive AdmissionAction :=
| Enter (method path : string)
| Leave (n : nat)   (* the n-th held guard is dropped *)
| Drain (token request : string) (peer : option bool) (command_lock : bool)
| Transition (opening : bool)
| Close (open_tasks : Z) (worker_busy : bool).

Definition admission_step (w : AdmissionWorld) (action : AdmissionAction) : AdmissionWorld :=
  match action with
  | Enter method path =>
      match enter_runtime_admission (aw_cell w) method path with
      | (Guarded, cell) => mkAdmissionWorld cell ((method, path) :: aw_held w)
      | (_, cell) => mkAdmissionWorld cell (aw_held w)
      end
  | Leave n =>
      match aw_held w !! n with
      | Some _ => mkAdmissionWorld (option_map leave_admission (aw_cell w)) (delete n (aw_held w))
      | None => w
      end
  | Drain token request peer command_lock =>
      mkAdmissionWorld (snd (runtime_drain_response token request peer command_lock (aw_cell w))) (aw_held w)
  | Transition opening => mkAdmissionWorld (snd (set_runtime_transition_admission opening (aw_cell w))) (aw_held w)
  | Close open_tasks worker_busy => mkAdmissionWorld (snd (close_completions open_tasks worker_busy (aw_cell w))) (aw_held w)
  end.

(** The action that gives a change of the mode up. *)
Definition reopens (action : AdmissionAction) : bool := match action with Transition true => true | _ => false end.
(** The action that may let completions in again. *)
Definition verifies (action : AdmissionAction) : bool := match action with Close _ _ => true | _ => false end.

Definition run_admission (w : AdmissionWorld) (actions : list AdmissionAction) : AdmissionWorld :=
  fold_left admission_step actions w.

(** The counter is the number of guards held. *)
Definition counted (w : AdmissionWorld) : Prop :=
  match aw_cell w with
  | Some a => in_flight a = Z.min u64_max (Z.of_nat (length (aw_held w))) /\ Z.of_nat (length (aw_held w)) <= u64_max
  | None => True
  end.

Lemma drain_cell token request peer lock cell :
  snd (runtime_drain_response token request peer lock cell) = cell \/
  exists a, cell = Some a /\ snd (runtime_drain_response token request peer lock cell)
    = Some (mkRuntimeAdmissionState false (completion_accepting a) (in_flight a)).
Proof. unfold runtime_drain_response. repeat case_match; simpl; eauto. Qed.

Lemma transition_cell opening cell :
  snd (set_runtime_transition_admission opening cell) = cell \/
  exists a, cell = Some a /\ snd (set_runtime_transition_admission opening cell) = Some (mkRuntimeAdmissionState opening true (in_flight a)).
Proof. unfold set_runtime_transition_admission. destruct cell as [a|]; [|by left]. destruct (_ && _); [by left|right; eauto]. Qed.

Lemma close_cell open_tasks busy cell :
  snd (close_completions open_tasks busy cell) = cell \/
  exists a open, cell = Some a /\ snd (close_completions open_tasks busy cell) = Some (mkRuntimeAdmissionState (accepting a) open (in_flight a)).
Proof. unfold close_completions. destruct cell as [a|]; [|by left]. right. destruct (_ && _); simpl; eauto. Qed.

Lemma counted_step w action :
  Z.of_nat (length (aw_held w)) < u64_max -> counted w -> counted (admission_step w action).
Proof.
  unfold counted. intros Hb Hw. destruct action as [method path|n|token request peer lock|opening|open busy]; simpl.
  - unfold enter_runtime_admission. destruct (negb _ || _); [done|].
    destruct (aw_cell w) as [a|] eqn:Ew; [|by simpl; rewrite ?Ew].
    destruct (negb (accepting a) && _); simpl; [by rewrite ?Ew|].
    destruct Hw as [-> ?]. unfold sat_add. simpl. lia.
  - destruct (aw_held w !! n) as [g|] eqn:Hg; [|done]. simpl.
    destruct (aw_cell w) as [a|]; [|done]. simpl.
    pose proof (length_delete (aw_held w) n ltac:(by eexists)) as Hl.
    apply lookup_lt_Some in Hg. unfold sat_sub. destruct Hw as [-> ?]. lia.
  - destruct (drain_cell token request peer lock (aw_cell w)) as [->|(a & E & ->)]; [done|]. by rewrite E in Hw.
  - destruct (transition_cell opening (aw_cell w)) as [->|(a & E & ->)]; [done|]. by rewrite E in Hw.
  - destruct (close_cell open busy (aw_cell w)) as [->|(a & o & E & ->)]; [done|]. by rewrite E in Hw.
Qed.

Lemma held_grows w action : (length (aw_held (admission_step w action)) <= S (length (aw_held w)))%nat.
Proof.
  destruct action as [method path|n|token request peer lock|opening|open busy]; simpl; [| |lia..].
  - destruct (enter_runtime_admission _ _ _) as [[] cell]; simpl; lia.
  - destruct (aw_held w !! n) eqn:E; [|lia]. simpl.
    pose proof (length_delete (aw_held w) n ltac:(by eexists)). lia.
Qed.

Lemma counted_run actions w : counted w -> Z.of_nat (length (aw_held w) + length actions) <= u64_max -> counted (run_admission w actions).
Proof.
  unfold run_admission. revert w. induction actions as [|action actions IH]; intros w Hw Hl; [done|]. simpl in *.
  apply IH; [apply counted_step; [lia|done]|]. pose proof (held_grows w action). lia.
Qed.

(** Draining ends only when a change of the mode is given up, and only completions enter a draining runtime. *)
Lemma drained_step w action : reopens action = false -> runtime_is_draining (aw_cell w) = true ->
  runtime_is_draining (aw_cell (admission_step w action)) = true.
Proof.
  intros Ho Hd. destruct action as [method path|n|token request peer lock|[]|open busy]; simpl; [| | |done|..].
  - unfold enter_runtime_admission. destruct (negb _ || _); [done|].
    destruct (aw_cell w) as [a|] eqn:Ew; [|by simpl; rewrite ?Ew].
    by destruct (negb (accepting a) && _); simpl; rewrite ?Ew.
  - destruct (aw_held w !! n); [|done]. simpl. by destruct (aw_cell w).
  - by destruct (drain_cell token request peer lock (aw_cell w)) as [->|(a & E & ->)].
  - by destruct (transition_cell false (aw_cell w)) as [->|(a & E & ->)].
  - destruct (close_cell open busy (aw_cell w)) as [->|(a & o & E & ->)]; [done|]. by rewrite E in Hd.
Qed.

Lemma drained_held w action : runtime_is_draining (aw_cell w) = true ->
  forall m p, In (m, p) (aw_held (admission_step w action)) ->
    In (m, p) (aw_held w) \/ runtime_completion_route m p = true.
Proof.
  intros Hd m p. destruct action as [method path|n|token request peer lock|opening|open busy]; simpl; [| |auto..].
  - unfold enter_runtime_admission. destruct (negb _ || _); [auto|].
    destruct (aw_cell w) as [a|] eqn:Ew; [|auto].
    destruct (negb (accepting a) && _) eqn:E; [auto|]. simpl. intros [[= <- <-]|?]; [right|auto].
    simpl in Hd. rewrite Hd in E. simpl in E. bool_facts. done.
  - destruct (aw_held w !! n); [|auto]. simpl. intros Hin. left. apply list_elem_of_In.
    apply list_elem_of_In in Hin. by eapply list_elem_of_delete_inv.
Qed.

(** Nothing at all enters while completions are closed too. *)
Definition shut (w : AdmissionWorld) : Prop := match aw_cell w with Some a => accepting a = false /\ completion_accepting a = false | None => True end.

Lemma shut_step w action : reopens action = false -> verifies action = false -> shut w ->
  shut (admission_step w action) /\ (length (aw_held (admission_step w action)) <= length (aw_held w))%nat.
Proof.
  unfold shut. intros Ho Hv Hs. destruct action as [method path|n|token request peer lock|[]|open busy]; simpl; [| | |done| |done].
  - unfold enter_runtime_admission. destruct (negb _ || _); [done|]. destruct (aw_cell w) as [a|] eqn:Ew; simpl; [|by rewrite ?Ew].
    destruct Hs as [Ha Hc]. rewrite Ha, Hc. simpl. by rewrite ?Ew.
  - destruct (aw_held w !! n) eqn:E; [|done]. simpl. pose proof (length_delete (aw_held w) n ltac:(by eexists)).
    split; [by destruct (aw_cell w)|lia].
  - destruct (drain_cell token request peer lock (aw_cell w)) as [->|(a & E & ->)]; [done|]. rewrite E in Hs. by destruct Hs as [_ ->].
  - unfold set_runtime_transition_admission. destruct (aw_cell w) as [a|]; [|done]. destruct Hs as [Ha Hc]. by rewrite Ha.
Qed.

(** C34. Admission, drain and change of the mode. Over any sequence of entering and finishing requests, drain
    attempts (authorised or not), changes of the mode that close admission or give up and open it again, and
    checks whether processing has come to rest, starting idle and with fewer than 2^64 requests: the in-flight
    counter is exactly the number of admission guards held. From a moment at which the runtime drains, and
    until a change of the mode is given up, it goes on draining and every request admitted is a completion
    route. When such a check reports rest (completions are closed then), at most the one request that
    asked is in flight, and until a change of the mode is given up or another check runs, nothing enters at all. *)
Theorem admission_counts_and_drains (before after : list AdmissionAction) :
  Z.of_nat (length before + length after) < u64_max ->
  let start := mkAdmissionWorld (Some default_admission) [] in
  let mid := run_admission start before in
  let final := run_admission mid after in
  counted final /\
  (runtime_is_draining (aw_cell mid) = true -> forallb (fun action => negb (reopens action)) after = true ->
     runtime_is_draining (aw_cell final) = true /\
     forall m p, In (m, p) (aw_held final) -> In (m, p) (aw_held mid) \/ runtime_completion_route m p = true) /\
  (forall open_tasks worker_busy, runtime_is_draining (aw_cell mid) = true ->
     fst (close_completions open_tasks worker_busy (aw_cell mid)) = Ok true ->
     forallb (fun action => negb (reopens action) && negb (verifies action)) after = true ->
     open_tasks = 0 /\ worker_busy = false /\
     (length (aw_held (run_admission (admission_step mid (Close open_tasks worker_busy)) after)) <= length (aw_held mid) <= 1)%nat).
Proof.
  intros Hb start mid final.
  assert (Hmid : counted mid) by (apply counted_run; [done|]; simpl; lia).
  split_and!.
  - unfold final, mid, run_admission. rewrite <- fold_left_app. apply (counted_run (before ++ after)); [done|]. rewrite length_app. simpl. lia.
  - intros Hd Ho. unfold final, run_admission. clearbody mid. clear -Hd Ho. revert mid Hd.
    induction after as [|action after IH]; intros w Hd; simpl; [auto|]. apply andb_true_iff in Ho as [Ho1%negb_true_iff Ho].
    destruct (IH Ho _ (drained_step w action Ho1 Hd)) as [Hd' Hh]. split; [done|]. intros m p Hin.
    destruct (Hh m p Hin) as [Hin'|?]; [|auto]. by apply drained_held in Hin'.
  - intros open_tasks busy Hd Hc Ho. unfold counted in Hmid. unfold close_completions in Hc.
    destruct (aw_cell mid) as [a|] eqn:Ea; [|done]. destruct (_ && _ && _) eqn:E; [|done].
    apply andb_true_iff in E as [[E1%Z.eqb_eq E2%negb_true_iff]%andb_true_iff E3%Z.leb_le]. split_and!; [done|done| |unfold u64_max in *; lia].
    assert (Hshut : shut (admission_step mid (Close open_tasks busy)) /\ aw_held (admission_step mid (Close open_tasks busy)) = aw_held mid).
    { simpl. unfold close_completions. rewrite Ea, E1, E2. simpl. rewrite (proj2 (Z.leb_le _ _) E3). split; [|done].
      split; [|done]. simpl. by apply negb_true_iff in Hd. }
    destruct Hshut as [Hs <-]. clear -Hs Ho. revert Hs. generalize (admission_step mid (Close open_tasks busy)). unfold run_admission.
    induction after as [|action after IH]; intros w Hs; simpl; [lia|]. simpl in Ho. rewrite !andb_true_iff, !negb_true_iff in Ho. destruct Ho as [[Ho1 Ho2] Ho].
    destruct (shut_step w action Ho1 Ho2 Hs) as [Hs' Hl]. specialize (IH Ho _ Hs'). lia.
Qed.

End Admission.

(** A change of the mode closes admission while a request is in flight; a completion still enters, another
    request does not; when both are done the check reports rest. *)
Lemma admission_counts_and_drains_witness :
  let codec := {| json_print := fun _ => "{}"; json_parse := fun _ => None |} in
  let before := [Enter "POST" "/api/production/steel-in"; Transition false; Enter "POST" "/api/production/steel-in";
                 Enter "POST" "/api/production/steel-out"; Close 0 false; Leave 1] in
  let after := [Enter "POST" "/api/production/steel-out"; Enter "POST" "/api/production/steel-in"] in
  let mid := @run_admission codec (fun s => s) (mkAdmissionWorld (Some default_admission) []) before in
  let rest := @run_admission codec (fun s => s) (@admission_step codec (fun s => s) mid (Close 0 false)) after in
  aw_held mid = [("POST", "/api/production/steel-out")] /\
  (length (aw_held rest) <= length (aw_held mid) <= 1)%nat.
Proof.
  cbv zeta. split; [vm_compute; reflexivity|].
  apply (@admission_counts_and_drains {| json_print := fun _ => "{}"; json_parse := fun _ => None |} (fun s => s)); vm_compute; reflexivity.
Defined.
