(* ===== verification/CaptureLifecycle.v ===== *)
(** * Capture service lifecycle

    [CaptureServiceManager] of app/service/src/main.rs: the supervisor tick that starts, watches
    and restarts the capture process, and the start, stop, restart, shutdown and mode-transition
    commands. The supervisor thread and request threads share a lifecycle record and the child
    process, each behind its own mutex, and an atomic shutdown flag. A command is a program whose
    steps are critical sections on these and questions to the surroundings: the clock, whether the
    endpoint accepts connections, an HTTP exchange, starting the executable. *)

From S2P Require Import Prelude Json Http Runtime CalibrationOps.
From Stdlib Require Import Ascii.

(** ** Providers *)

Inductive CaptureProvider := HeadlessCpp | ExternalApi | Simulated | Bkv.

#[export] Instance capture_provider_eq : EqDecision CaptureProvider.
Proof. solve_decision. Defined.

(** [CaptureProvider::from_env_value]. *)
Definition provider_from_env_value (value : string) : CaptureProvider :=
  let word := to_ascii_lowercase (trim value) in
  if one_of word ["external"; "external-api"; "api"] then ExternalApi
  else if one_of word ["sim"; "simulated"; "simulation"] then Simulated
  else if one_of word ["bkv"; "legacy-offline"; "offline-bkv"] then Bkv
  else HeadlessCpp.

(** [CaptureProvider::as_str]. *)
Definition provider_as_str (p : CaptureProvider) : string :=
  match p with HeadlessCpp => "headless-cpp" | ExternalApi => "external-api" | Simulated => "simulated" | Bkv => "bkv" end.

(** [CaptureProvider::is_managed], [uses_local_api] and [is_embedded]. *)
Definition is_managed (p : CaptureProvider) : bool := match p with HeadlessCpp => true | _ => false end.
Definition uses_local_api (p : CaptureProvider) : bool := match p with Simulated | Bkv => false | _ => true end.
Definition is_embedded (p : CaptureProvider) : bool := match p with Simulated | Bkv => true | _ => false end.

(** ** State *)

(** [CaptureLifecycleState]. *)
Record Lifecycle := mkLifecycle {
  phase : string;
  desired_running : bool;
  autostart : bool;
  pid : option Z;
  started_at : option Z;
  ready_at : option Z;
  last_exit_at : option Z;
  last_exit_code : option Z;
  last_error : string;
  restart_count : Z;
  consecutive_failures : Z;
  unhealthy_confirmations : Z;
  restart_budget : Z;
  next_restart_at : option Z;
}.

(** Assignments to one field. *)
Definition set_phase (v : string) (l : Lifecycle) : Lifecycle :=
  mkLifecycle v (desired_running l) (autostart l) (pid l) (started_at l) (ready_at l) (last_exit_at l)
    (last_exit_code l) (last_error l) (restart_count l) (consecutive_failures l) (unhealthy_confirmations l)
    (restart_budget l) (next_restart_at l).
Definition set_desired (v : bool) (l : Lifecycle) : Lifecycle :=
  mkLifecycle (phase l) v (autostart l) (pid l) (started_at l) (ready_at l) (last_exit_at l)
    (last_exit_code l) (last_error l) (restart_count l) (consecutive_failures l) (unhealthy_confirmations l)
    (restart_budget l) (next_restart_at l).
Definition set_autostart (v : bool) (l : Lifecycle) : Lifecycle :=
  mkLifecycle (phase l) (desired_running l) v (pid l) (started_at l) (ready_at l) (last_exit_at l)
    (last_exit_code l) (last_error l) (restart_count l) (consecutive_failures l) (unhealthy_confirmations l)
    (restart_budget l) (next_restart_at l).
Definition set_pid (v : option Z) (l : Lifecycle) : Lifecycle :=
  mkLifecycle (phase l) (desired_running l) (autostart l) v (started_at l) (ready_at l) (last_exit_at l)
    (last_exit_code l) (last_error l) (restart_count l) (consecutive_failures l) (unhealthy_confirmations l)
    (restart_budget l) (next_restart_at l).
Definition set_started (v : option Z) (l : Lifecycle) : Lifecycle :=
  mkLifecycle (phase l) (desired_running l) (autostart l) (pid l) v (ready_at l) (last_exit_at l)
    (last_exit_code l) (last_error l) (restart_count l) (consecutive_failures l) (unhealthy_confirmations l)
    (restart_budget l) (next_restart_at l).
Definition set_ready (v : option Z) (l : Lifecycle) : Lifecycle :=
  mkLifecycle (phase l) (desired_running l) (autostart l) (pid l) (started_at l) v (last_exit_at l)
    (last_exit_code l) (last_error l) (restart_count l) (consecutive_failures l) (unhealthy_confirmations l)
    (restart_budget l) (next_restart_at l).
Definition set_exit (at_time code : option Z) (l : Lifecycle) : Lifecycle :=
  mkLifecycle (phase l) (desired_running l) (autostart l) (pid l) (started_at l) (ready_at l) at_time
    code (last_error l) (restart_count l) (consecutive_failures l) (unhealthy_confirmations l)
    (restart_budget l) (next_restart_at l).
Definition set_error (v : string) (l : Lifecycle) : Lifecycle :=
  mkLifecycle (phase l) (desired_running l) (autostart l) (pid l) (started_at l) (ready_at l) (last_exit_at l)
    (last_exit_code l) v (restart_count l) (consecutive_failures l) (unhealthy_confirmations l)
    (restart_budget l) (next_restart_at l).
Definition set_restart_count (v : Z) (l : Lifecycle) : Lifecycle :=
  mkLifecycle (phase l) (desired_running l) (autostart l) (pid l) (started_at l) (ready_at l) (last_exit_at l)
    (last_exit_code l) (last_error l) v (consecutive_failures l) (unhealthy_confirmations l)
    (restart_budget l) (next_restart_at l).
Definition set_failures (v : Z) (l : Lifecycle) : Lifecycle :=
  mkLifecycle (phase l) (desired_running l) (autostart l) (pid l) (started_at l) (ready_at l) (last_exit_at l)
    (last_exit_code l) (last_error l) (restart_count l) v (unhealthy_confirmations l)
    (restart_budget l) (next_restart_at l).
Definition set_confirmations (v : Z) (l : Lifecycle) : Lifecycle :=
  mkLifecycle (phase l) (desired_running l) (autostart l) (pid l) (started_at l) (ready_at l) (last_exit_at l)
    (last_exit_code l) (last_error l) (restart_count l) (consecutive_failures l) v
    (restart_budget l) (next_restart_at l).
Definition set_next_restart (v : option Z) (l : Lifecycle) : Lifecycle :=
  mkLifecycle (phase l) (desired_running l) (autostart l) (pid l) (started_at l) (ready_at l) (last_exit_at l)
    (last_exit_code l) (last_error l) (restart_count l) (consecutive_failures l) (unhealthy_confirmations l)
    (restart_budget l) v.

(** [Option::get_or_insert]. *)
Definition get_or_insert (o : option Z) (v : Z) : option Z := match o with Some _ => o | None => Some v end.

Definition CAPTURE_READY_TIMEOUT_MS_DEFAULT : Z := 15000.
Definition CAPTURE_RESTART_BUDGET_DEFAULT : Z := 5.
Definition CAPTURE_RESTART_BACKOFF_MS_DEFAULT : Z := 1000.
Definition CAPTURE_RESTART_BACKOFF_MAX_MS : Z := 30000.
Definition CAPTURE_RESTART_STABLE_MS : Z := 30000.

(** A bounded setting read from the environment. *)
Definition clamped_setting (parse : string -> option Z) (lo hi default : Z) (variable : option string) : Z :=
  match variable with
  | Some text => match parse text with Some v => clamp v lo hi | None => default end
  | None => default
  end.

Definition capture_ready_timeout_ms (env : string -> option string) : Z :=
  clamped_setting parse_u64 1000 120000 CAPTURE_READY_TIMEOUT_MS_DEFAULT (env "STEEL_CAPTURE_READY_TIMEOUT_MS").
Definition capture_restart_budget (env : string -> option string) : Z :=
  clamped_setting parse_u32 1 20 CAPTURE_RESTART_BUDGET_DEFAULT (env "STEEL_CAPTURE_RESTART_BUDGET").
Definition capture_restart_backoff_ms (env : string -> option string) : Z :=
  clamped_setting parse_u64 100 CAPTURE_RESTART_BACKOFF_MAX_MS CAPTURE_RESTART_BACKOFF_MS_DEFAULT
    (env "STEEL_CAPTURE_RESTART_BACKOFF_MS").

(** [CaptureLifecycleState::with_policy]; [now] is the clock. *)
Definition with_policy (env : string -> option string) (now : Z) (provider : CaptureProvider)
    (enabled autostart : bool) : Lifecycle :=
  let autostart := enabled && autostart in
  let embedded_ready := enabled && is_embedded provider in
  mkLifecycle
    (if negb enabled then "disabled" else if is_embedded provider then "ready"
     else if autostart then "starting" else "stopped")
    (embedded_ready || autostart) autostart None None
    (if embedded_ready then Some now else None) None None "" 0 0 0 (capture_restart_budget env) None.

(** main.rs [capture_autostart_policy] and [background_management_only_policy]. *)
Definition capture_autostart_policy (configured : bool) (environment : option string) : bool :=
  configured && negb (is_some_and environment (fun value => trim value == "0")).
Definition background_management_only_policy (environment : option string) : bool :=
  is_some_and environment (fun value =>
    let normalized := trim value in
    (normalized == "1") || eq_ignore_ascii_case normalized "true" || eq_ignore_ascii_case normalized "yes").

(** ** Programs *)

(** What [try_wait] reports of the child. *)
Inductive ChildStatus :=
| StillRunning
| Exited (code : option Z)
| WaitFailed (error : string).

(** The mutexes: [None] when a holder panicked. *)
Definition LifeCell := option Lifecycle.
Definition ProcCell := option (option Z).

(** Questions to the surroundings, and the type of their answers. *)
Inductive Ask : Type -> Type :=
| AskClock : Ask Z
| AskListening : Ask bool
| AskHttp (method path body : string) : Ask (option CaptureProxyResponse)
| AskSpawn : Ask (Result Z string)
| AskDeadline : Ask bool.

Inductive Prog (A : Type) : Type :=
| Stop (a : A)
| Life {B : Type} (section : LifeCell -> B * LifeCell) (k : B -> Prog A)
| Proc {B : Type} (section : ProcCell -> ChildStatus -> B * ProcCell) (k : B -> Prog A)
| Flag {B : Type} (section : bool -> B * bool) (k : B -> Prog A)
| Env {B : Type} (question : Ask B) (k : B -> Prog A).
Arguments Stop {A} a.
Arguments Life {A B} section k.
Arguments Proc {A B} section k.
Arguments Flag {A B} section k.
Arguments Env {A B} question k.

Fixpoint cbind {A B} (m : Prog A) (f : A -> Prog B) : Prog B :=
  match m with
  | Stop a => f a
  | Life section k => Life section (fun b => cbind (k b) f)
  | Proc section k => Proc section (fun b => cbind (k b) f)
  | Flag section k => Flag section (fun b => cbind (k b) f)
  | Env question k => Env question (fun b => cbind (k b) f)
  end.

Notation "'let&' x := m 'in' k" := (cbind m (fun x => k))
  (at level 10, x binder, m at level 100, k at level 200,
   format "'[v' 'let&'  x  :=  m  'in' '/' k ']'") : rust_scope.

Definition ask {B} (question : Ask B) : Prog B := Env question Stop.

(** [if let Ok(mut lifecycle) = self.lifecycle.lock()]: an update, skipped on a poisoned mutex. *)
Definition update_lifecycle (f : Lifecycle -> Lifecycle) : Prog unit :=
  Life (fun cell => (tt, option_map f cell)) Stop.

(** A question about the record, with the answer for a poisoned mutex. *)
Definition read_lifecycle {B} (f : Lifecycle -> B) (poisoned : B) : Prog B :=
  Life (fun cell => (match cell with Some l => f l | None => poisoned end, cell)) Stop.

(** [process.take()] and terminating what was there. *)
Definition terminate_process : Prog unit :=
  Proc (fun cell _ => (tt, match cell with Some _ => Some None | None => None end)) Stop.

(** ** The manager *)

Record Manager := mkManager {
  mg_provider : CaptureProvider;
  mg_mode : AcquisitionMode;
  mg_control_allowed : bool;
  mg_env : string -> option string;
}.

Section Commands.
Context `{JsonCodec}.
Variable mg : Manager.

(** [env::var("STEEL_CAPTURE_MANAGED_BY_SUPERVISOR") == Ok("1")]. *)
Definition managed_by_supervisor : bool :=
  match mg_env mg "STEEL_CAPTURE_MANAGED_BY_SUPERVISOR" with Some v => v == "1" | None => false end.

Definition endpoint_listening : Prog bool := ask AskListening.

(** [probe_response]. *)
Definition probe_response (path : string) : Prog (option CaptureProxyResponse) :=
  if bool_decide (mg_provider mg = Simulated) || negb (uses_local_api (mg_provider mg)) then Stop None
  else ask (AskHttp "GET" path "").

(** [proxy_response_with_read_timeout] of a provider that is not simulated. *)
Definition provider_request (method path body : string) : Prog (option CaptureProxyResponse) :=
  if negb (uses_local_api (mg_provider mg)) then Stop None else ask (AskHttp method path body).

Definition status_in_200s (response : CaptureProxyResponse) : bool :=
  (200 <=? status_code response) && (status_code response <? 300).

Definition response_value (response : CaptureProxyResponse) : option Value := json_parse (body_bytes response).

(** The health document of a provider that answers with success. *)
Definition healthy_document (response : option CaptureProxyResponse) : option Value :=
  match filter_opt status_in_200s response with Some r => response_value r | None => None end.

(** A command the provider accepts: a success status and code 0. *)
Definition command_accepted (response : CaptureProxyResponse) : bool :=
  status_in_200s response &&
  match (match response_value response with Some v => get_i64 "code" v | None => None end) with
  | Some code => code =? 0
  | None => false
  end.

(** [schedule_restart]. *)
Definition scheduled (error : string) (exit_code : option Z) (now : Z) (l : Lifecycle) : Lifecycle :=
  let l := set_pid None l in
  let l := set_ready None l in
  let l := set_exit (Some now) exit_code l in
  let l := set_error error l in
  let l := set_failures (sat_add u32_max (consecutive_failures l) 1) l in
  let l := set_confirmations 0 l in
  if negb (desired_running l) then set_next_restart None (set_phase "stopped" l)
  else
    let l := set_phase "degraded" l in
    if consecutive_failures l >=? restart_budget l then set_next_restart None l
    else
      let exponent := Z.min (sat_sub (consecutive_failures l) 1) 10 in
      let delay := Z.min (sat_mul u64_max (capture_restart_backoff_ms (mg_env mg)) (Z.shiftl 1 exponent))
                     CAPTURE_RESTART_BACKOFF_MAX_MS in
      set_next_restart (Some (sat_add u128_max now delay)) l.
Definition schedule_restart (error : string) (exit_code : option Z) : Prog unit :=
  let& now := ask AskClock in
  update_lifecycle (scheduled error exit_code now).

(** [spawn_managed_process]: starting the executable (with its log files), then storing the child;
    a child it replaces is dropped, which terminates it. *)
Definition spawn_managed_process : Prog (Result Z string) :=
  let& spawned := ask AskSpawn in
  match spawned with
  | Err error => Stop (Err error)
  | Ok child =>
      let& stored := Proc (fun cell _ => match cell with
                                         | Some _ => (true, Some (Some child))
                                         | None => (false, None)
                                         end) Stop in
      Stop (if stored then Ok child else Err "capture process lock poisoned")
  end.

(** *** The supervisor tick *)

Definition tick_offline : Prog unit :=
  let& _ := terminate_process in
  update_lifecycle (fun l => set_error "" (set_next_restart None (set_ready None (set_pid None
    (set_autostart false (set_desired false (set_phase "offline" l))))))).

Definition tick_disabled : Prog unit :=
  let& _ := terminate_process in
  update_lifecycle (fun l => set_next_restart None (set_ready None (set_pid None
    (set_autostart false (set_desired false (set_phase "disabled" l)))))).

Definition tick_supervised : Prog unit :=
  let& listening := endpoint_listening in
  let& now := ask AskClock in
  update_lifecycle (fun l =>
    let l := set_pid None (set_phase (if listening then "ready" else "degraded") (set_desired true l)) in
    if listening : bool then set_error "" (set_ready (get_or_insert (ready_at l) now) l)
    else set_error "capture endpoint unavailable (owned by runtime supervisor)" (set_ready None l)).

Definition tick_embedded : Prog unit :=
  let& now := ask AskClock in
  update_lifecycle (fun l =>
    set_error ""
      (if desired_running l then set_ready (get_or_insert (ready_at l) now) (set_phase "ready" l)
       else set_ready None (set_phase "stopped" l))).

Definition flag_at (path : list string) (health : option Value) : bool :=
  unwrap_or (match health with
             | Some v => match jpointer path v with Some x => as_bool x | None => None end
             | None => None
             end) false.

Definition tick_external : Prog unit :=
  let& response := probe_response "/health" in
  let health := healthy_document response in
  let listening := is_some health in
  let& now := ask AskClock in
  update_lifecycle (fun l =>
    let history_only := flag_at ["historyOnly"] health in
    let provider_ready :=
      unwrap_or (match health with
                 | Some v => match or_else (jget "providerReady" v) (jget "ready" v) with
                             | Some x => as_bool x
                             | None => None
                             end
                 | None => None
                 end) false in
    let connection_in_progress := flag_at ["cameraConnection"; "inProgress"] health in
    let l := set_phase
      (if negb (desired_running l) || history_only then "stopped"
       else if provider_ready then "ready"
       else if listening && connection_in_progress then "starting"
       else "degraded") l in
    if provider_ready : bool then set_error "" (set_ready (get_or_insert (ready_at l) now) l)
    else
      set_error
        (if negb listening then "external capture endpoint unavailable"
         else if history_only then ""
         else if connection_in_progress then "external capture provider is connecting cameras"
         else "external capture provider is not ready")
        (set_ready None l)).

(** What the look at the child finds. *)
Inductive ChildLook :=
| NoChild
| ChildRuns (child : Z)
| ChildExited (code : option Z)
| ChildLost (error : string).

Definition look_section (cell : ProcCell) (status : ChildStatus) : ChildLook * ProcCell :=
  match cell with
  | Some (Some child) =>
      match status with
      | StillRunning => (ChildRuns child, cell)
      | Exited code => (ChildExited code, Some None)
      | WaitFailed error => (ChildLost ("capture wait failed: " +:+ error), Some None)
      end
  | _ => (NoChild, cell)
  end.

(** The provider's own request for a restart, in its health document. *)
Definition restart_requested (health : Value) : bool :=
  match or_else (get_bool "restartRequired" health)
          (match jget "sdkCaptureState" health with Some s => get_bool "restartRequired" s | None => None end) with
  | Some b => b
  | None => false
  end.

Definition confirm_restart (restart_required : bool) (cell : LifeCell) : bool * LifeCell :=
  match cell with
  | None => (false, None)
  | Some l =>
      let n := if restart_required then sat_add u32_max (unhealthy_confirmations l) 1 else 0 in
      (n >=? 2, Some (set_confirmations n l))
  end.

Definition ready_again (child now : Z) (l : Lifecycle) : Lifecycle :=
  let l := set_error "" (set_ready (get_or_insert (ready_at l) now) (set_pid (Some child) (set_phase "ready" l))) in
  let l := if is_some_and (started_at l) (fun t => sat_sub now t >=? CAPTURE_RESTART_STABLE_MS)
           then set_failures 0 l else l in
  set_next_restart None l.

Definition tick_running (child : Z) : Prog unit :=
  let& listening := endpoint_listening in
  let& now := ask AskClock in
  let& timed_out := read_lifecycle (fun l => is_some_and (started_at l) (fun t =>
    sat_sub now t >? capture_ready_timeout_ms (mg_env mg))) false in
  if listening : bool then
    let& response := probe_response "/health" in
    let restart_required :=
      is_some_and (match response with Some r => response_value r | None => None end) restart_requested in
    let& confirmed_restart := Life (confirm_restart restart_required) Stop in
    if confirmed_restart : bool then
      let& _ := terminate_process in
      schedule_restart "capture provider requested process restart" None
    else update_lifecycle (ready_again child now)
  else if timed_out : bool then
    let& _ := terminate_process in
    schedule_restart "capture readiness timeout" None
  else update_lifecycle (fun l => set_pid (Some child) (set_phase "starting" l)).

(** The decision to start a process. *)
Definition should_spawn (now : Z) (l : Lifecycle) : bool :=
  desired_running l && (consecutive_failures l <? restart_budget l)
  && is_none_or (next_restart_at l) (fun next => next <=? now).

Definition spawned (child now : Z) (l : Lifecycle) : Lifecycle :=
  set_restart_count (sat_add u32_max (restart_count l) 1)
    (set_next_restart None (set_ready None (set_started (Some now) (set_pid (Some child) (set_phase "starting" l))))).

Definition tick_idle : Prog unit :=
  let& listening := endpoint_listening in
  if listening : bool then
    let& now := ask AskClock in
    update_lifecycle (fun l => set_next_restart None (set_failures 0 (set_error ""
      (set_ready (get_or_insert (ready_at l) now) (set_pid None (set_phase "ready" l))))))
  else
    let& now := ask AskClock in
    let& should := read_lifecycle (should_spawn now) false in
    if negb should then Stop tt
    else
      let& started := spawn_managed_process in
      match started with
      | Ok child => update_lifecycle (spawned child now)
      | Err error => schedule_restart error None
      end.

Definition tick_managed : Prog unit :=
  let& look := Proc look_section Stop in
  match look with
  | ChildLost error => schedule_restart error None
  | ChildExited code =>
      schedule_restart ("capture process exited with code " +:+ dec (unwrap_or code (-1))) code
  | ChildRuns child => tick_running child
  | NoChild => tick_idle
  end.

(** [supervisor_tick]. *)
Definition supervisor_tick : Prog unit :=
  let& shutdown := Flag (fun b => (b, b)) Stop in
  if shutdown : bool then Stop tt
  else if bool_decide (mg_mode mg = Offline) then tick_offline
  else if negb (mg_control_allowed mg) then tick_disabled
  else if managed_by_supervisor then tick_supervised
  else if is_embedded (mg_provider mg) then tick_embedded
  else if negb (is_managed (mg_provider mg)) then tick_external
  else tick_managed.

(** *** Commands *)

(** [is_running]. *)
Definition is_running : Prog bool := read_lifecycle (fun l => one_of (phase l) ["ready"; "collecting"]) false.

(** [wait_for_ready]: the loop ends at its deadline; [fuel] bounds its rounds. *)
Fixpoint wait_for_ready (fuel : nat) : Prog bool :=
  match fuel with
  | O => Stop false
  | S n =>
      let& past := ask AskDeadline in
      if past : bool then Stop false
      else
        let& _ := supervisor_tick in
        let& running := is_running in
        if running : bool then Stop true
        else
          let& exhausted := read_lifecycle (fun l => restart_budget l <=? consecutive_failures l) false in
          if exhausted : bool then Stop false else wait_for_ready n
  end.

Definition background_message : string := "capture controls are disabled in background management mode".

(** [start]. *)
Definition start (fuel : nat) : Prog bool :=
  if bool_decide (mg_mode mg = Offline) then
    let& _ := update_lifecycle (fun l => set_error "capture is disabled in offline mode"
                (set_desired false (set_phase "offline" l))) in
    Stop false
  else if negb (mg_control_allowed mg) then
    let& _ := update_lifecycle (set_error background_message) in Stop false
  else if bool_decide (mg_provider mg = Bkv) then Stop true
  else
    let& _ := update_lifecycle (fun l => set_error "" (set_next_restart None (set_failures 0
                (set_phase "starting" (set_desired true l))))) in
    if is_embedded (mg_provider mg) then let& _ := supervisor_tick in Stop true
    else if bool_decide (mg_provider mg = ExternalApi) then
      let& response := provider_request "POST" "/api/service/start" "{}" in
      let& _ := supervisor_tick in
      Stop (is_some_and response command_accepted)
    else if negb (is_managed (mg_provider mg)) then
      let& _ := supervisor_tick in endpoint_listening
    else wait_for_ready fuel.

(** The wait of [stop] for the endpoint to close. *)
Fixpoint wait_closed (fuel : nat) : Prog unit :=
  match fuel with
  | O => Stop tt
  | S n =>
      let& listening := endpoint_listening in
      if negb listening then Stop tt
      else
        let& past := ask AskDeadline in
        if past : bool then Stop tt else wait_closed n
  end.

Definition stopping (l : Lifecycle) : Lifecycle :=
  set_next_restart None (set_phase "stopping" (set_desired false l)).

(** [stop]. *)
Definition stop (fuel : nat) : Prog bool :=
  if bool_decide (mg_mode mg = Offline) then let& _ := supervisor_tick in Stop true
  else if negb (mg_control_allowed mg) then
    let& _ := update_lifecycle (set_error background_message) in Stop false
  else if managed_by_supervisor && negb (bool_decide (mg_provider mg = ExternalApi)) then Stop true
  else if bool_decide (mg_provider mg = Bkv) then Stop true
  else
    let& _ := update_lifecycle stopping in
    if is_embedded (mg_provider mg) then let& _ := supervisor_tick in Stop true
    else if bool_decide (mg_provider mg = ExternalApi) then
      let& response := provider_request "POST" "/api/service/stop" "{}" in
      let& _ := supervisor_tick in
      Stop (is_some_and response command_accepted)
    else if negb (is_managed (mg_provider mg)) then
      let& _ := supervisor_tick in
      let& listening := endpoint_listening in Stop (negb listening)
    else
      let& _ := terminate_process in
      let& _ := wait_closed fuel in
      let& listening := endpoint_listening in
      let stopped := negb listening in
      let& _ := update_lifecycle (fun l =>
        let l := set_ready None (set_pid None (set_phase (if stopped then "stopped" else "degraded") l)) in
        if stopped then l else set_error "capture endpoint remained available after stop" l) in
      Stop stopped.

(** main.rs [capture_transition_health_drained]. *)
Definition zero_at (path : list string) (health : Value) : bool :=
  match (match jpointer path health with Some v => as_u64 v | None => None end) with
  | Some n => n =? 0
  | None => false
  end.
Definition capture_transition_health_drained (health : Value) : bool :=
  zero_at ["storageQueue"; "pendingRounds"] health && zero_at ["storageQueue"; "activeRounds"] health
  && zero_at ["databaseCommit"; "pendingRounds"] health && zero_at ["databaseCommit"; "activeRounds"] health
  && unwrap_or (get_bool "quiesced" health) false
  && is_some_and (get_str "serviceState" health) (fun state => eq_ignore_ascii_case state "stopped")
  && match mg_mode mg with
     | Simulation =>
         let replay_state :=
           unwrap_or (match or_else (jpointer ["simulation"; "state"] health) (jget "state" health) with
                      | Some v => as_str v
                      | None => None
                      end) "" in
         existsb (fun state => eq_ignore_ascii_case replay_state state) ["paused"; "idle"; "completed"; "stopped"]
     | Online => unwrap_or (get_bool "historyOnly" health) false
     | Offline => true
     end.

(** The wait of [stop_for_mode_transition] for the external provider. *)
Fixpoint wait_drained (fuel : nat) : Prog (Result unit string) :=
  let timed_out := Err "capture provider did not enter a flushed quiescent state before timeout" in
  match fuel with
  | O => Stop timed_out
  | S n =>
      let& past := ask AskDeadline in
      if past : bool then Stop timed_out
      else
        let& response := probe_response "/health" in
        match healthy_document response with
        | None =>
            let& listening := endpoint_listening in
            if negb listening then Stop (Ok tt) else wait_drained n
        | Some health =>
            if capture_transition_health_drained health then Stop (Ok tt) else wait_drained n
        end
  end.

(** [stop_for_mode_transition]. *)
Definition stop_for_mode_transition (fuel : nat) : Prog (Result unit string) :=
  if bool_decide (mg_mode mg = Offline) || bool_decide (mg_provider mg = Bkv) then Stop (Ok tt)
  else
    let& closed := (if is_embedded (mg_provider mg) then Stop false
                    else let& listening := endpoint_listening in Stop (negb listening)) in
    if closed : bool then Stop (Ok tt)
    else if bool_decide (mg_provider mg = ExternalApi) then
      let& _ := update_lifecycle stopping in
      let& response := provider_request "POST" "/api/service/stop" "{}" in
      if is_some_and response (fun r => negb (command_accepted r))
      then Stop (Err "capture stop request was rejected")
      else
        let& _ := supervisor_tick in
        wait_drained fuel
    else
      let& stopped := stop fuel in
      if negb stopped then Stop (Err "capture stop request was rejected")
      else
        let& running := is_running in
        Stop (if negb running then Ok tt else Err "capture provider did not stop").

(** [restart]. *)
Definition restart (fuel : nat) : Prog bool :=
  if negb (mg_control_allowed mg) then Stop false
  else
    let& _ := stop fuel in
    start fuel.

(** [shutdown]. *)
Definition raise_shutdown : Prog unit := Flag (fun _ => (tt, true)) Stop.
Definition shutdown (fuel : nat) : Prog unit :=
  if managed_by_supervisor then raise_shutdown
  else
    let& _ := stop fuel in
    raise_shutdown.

(** [set_collecting]. *)
Definition set_collecting (collecting : bool) : Prog unit :=
  update_lifecycle (fun l =>
    if collecting && (phase l == "ready") then set_phase "collecting" l
    else if negb collecting && (phase l == "collecting") then set_phase "ready" l
    else l).

End Commands.
