(* ===== verification/CaptureFacts.v ===== *)
(** * What the capture lifecycle guarantees

    Runs of the lifecycle programs against arbitrary surroundings, and the theorems: the offline and
    management-only fences, the restart budget and its backoff, stopping, and the evidence behind a
    mode transition. *)

From S2P Require Import Prelude Json Http Runtime CalibrationOps CaptureLifecycle.
From Stdlib Require Import Ascii.

(** ** Runs *)

(** A question and the answer it got. *)
Inductive Event :=
| Asked (B : Type) (question : Ask B) (answer : B).
Arguments Asked {B} question answer.

Record World := mkWorld {
  w_life : LifeCell;
  w_proc : ProcCell;
  w_flag : bool;
  w_log : list Event;
}.

(** The surroundings of a run: the answer to the question at each step, and what [try_wait] says. *)
Class Surroundings := {
  answer : nat -> forall B, Ask B -> B;
  child_status : nat -> ChildStatus;
}.

(** One thread running alone, from a step number. *)
Fixpoint exec {A} `{Surroundings} (n : nat) (p : Prog A) (w : World) : A * nat * World :=
  match p with
  | Stop a => (a, n, w)
  | Life section k =>
      exec (S n) (k (fst (section (w_life w))))
        (mkWorld (snd (section (w_life w))) (w_proc w) (w_flag w) (w_log w))
  | Proc section k =>
      let r := section (w_proc w) (child_status n) in
      exec (S n) (k (fst r)) (mkWorld (w_life w) (snd r) (w_flag w) (w_log w))
  | Flag section k =>
      exec (S n) (k (fst (section (w_flag w))))
        (mkWorld (w_life w) (w_proc w) (snd (section (w_flag w))) (w_log w))
  | @Env _ B question k =>
      let b := answer n B question in
      exec (S n) (k b) (mkWorld (w_life w) (w_proc w) (w_flag w) (w_log w ++ [Asked question b]))
  end.

(** What holds after every run, whatever the surroundings answer. *)
Fixpoint wp {A} (p : Prog A) (Q : A -> World -> Prop) (w : World) : Prop :=
  match p with
  | Stop a => Q a w
  | Life section k =>
      wp (k (fst (section (w_life w)))) Q
        (mkWorld (snd (section (w_life w))) (w_proc w) (w_flag w) (w_log w))
  | Proc section k => forall status,
      wp (k (fst (section (w_proc w) status))) Q
        (mkWorld (w_life w) (snd (section (w_proc w) status)) (w_flag w) (w_log w))
  | Flag section k =>
      wp (k (fst (section (w_flag w)))) Q
        (mkWorld (w_life w) (w_proc w) (snd (section (w_flag w))) (w_log w))
  | Env question k => forall b,
      wp (k b) Q (mkWorld (w_life w) (w_proc w) (w_flag w) (w_log w ++ [Asked question b]))
  end.

Lemma wp_exec {A} `{Surroundings} (p : Prog A) Q : forall n w, wp p Q w ->
  let '(a, _, w') := exec n p w in Q a w'.
Proof. induction p as [a|B f k IH|B f k IH|B f k IH|B q k IH]; intros n w Hp; cbn [exec wp] in *;
  [done|by apply IH|apply IH, Hp|by apply IH|apply IH, Hp]. Qed.

Lemma cwp_bind {A B} (m : Prog A) (f : A -> Prog B) Q w :
  wp m (fun a w' => wp (f a) Q w') w -> wp (cbind m f) Q w.
Proof. revert w. induction m as [a|B' s k IH|B' s k IH|B' s k IH|B' q k IH]; intros w Hm; simpl in *; eauto. Qed.

Lemma cwp_mono {A} (p : Prog A) (Q Q' : A -> World -> Prop) w :
  (forall a w', Q a w' -> Q' a w') -> wp p Q w -> wp p Q' w.
Proof. intros HQ. revert w. induction p as [a|B' s k IH|B' s k IH|B' s k IH|B' q k IH]; intros w Hp; simpl in *; eauto. Qed.

Lemma wp_true {A} (p : Prog A) : forall w, wp p (fun _ _ => True) w.
Proof. induction p as [a|B' s k IH|B' s k IH|B' s k IH|B' q k IH]; intros w; simpl; eauto. Qed.

(** ** Questions a program can ask *)

(** In every interleaving: the sections may find any state, the questions get any answer. *)
Fixpoint asks_only {A} (P : forall B, Ask B -> Prop) (p : Prog A) : Prop :=
  match p with
  | Stop _ => True
  | Life section k => forall cell, asks_only P (k (fst (section cell)))
  | Proc section k => forall cell status, asks_only P (k (fst (section cell status)))
  | Flag section k => forall flag, asks_only P (k (fst (section flag)))
  | @Env _ B question k => P B question /\ forall b, asks_only P (k b)
  end.

Lemma asks_bind {A B} P (m : Prog A) (f : A -> Prog B) :
  asks_only P m -> (forall a, asks_only P (f a)) -> asks_only P (cbind m f).
Proof.
  induction m as [a|B' s k IH|B' s k IH|B' s k IH|B' q k IH]; intros Hm Hf; simpl in *; try (intros; by apply IH); [done|].
  destruct Hm as [HP Hk]. split; [done|]. intros b. by apply IH.
Qed.

(** No process is started and no start command sent. *)
Definition no_start (B : Type) (question : Ask B) : Prop :=
  match question with
  | AskSpawn => False
  | AskHttp _ path _ => path <> "/api/service/start"
  | _ => True
  end.

Section Facts.
Context `{JsonCodec}.

Section Fence.
Variable mg : Manager.
Hypothesis fenced : mg_mode mg = Offline \/ mg_control_allowed mg = false.

Lemma fenced_tick : asks_only no_start (supervisor_tick mg).
Proof.
  unfold supervisor_tick. apply asks_bind; [done|]. intros [|]; [done|].
  destruct (bool_decide _) eqn:E; [done|]. apply bool_decide_eq_false in E.
  destruct fenced as [?| ->]; [done|]. done.
Qed.

Lemma fenced_start fuel : asks_only no_start (start mg fuel).
Proof.
  unfold start. destruct (bool_decide _) eqn:E; [done|]. apply bool_decide_eq_false in E.
  destruct fenced as [?| ->]; [done|]. done.
Qed.

Lemma wait_closed_asks fuel : asks_only no_start (wait_closed fuel).
Proof.
  induction fuel as [|fuel IH]; [done|]. cbn [wait_closed]. apply asks_bind; [by split|]. intros [|]; [|done].
  apply asks_bind; [by split|]. by intros [|].
Qed.

Lemma probe_asks path : path <> "/api/service/start" -> asks_only no_start (probe_response mg path).
Proof. intros Hp. unfold probe_response. destruct (_ || _); [done|]. by split. Qed.

Lemma fenced_stop fuel : asks_only no_start (stop mg fuel).
Proof.
  unfold stop. destruct (bool_decide _) eqn:E.
  { apply asks_bind; [apply fenced_tick|done]. }
  apply bool_decide_eq_false in E. destruct fenced as [?| ->]; [done|]. done.
Qed.

Lemma wait_drained_asks fuel : asks_only no_start (wait_drained mg fuel).
Proof.
  induction fuel as [|fuel IH]; [done|]. cbn [wait_drained]. apply asks_bind; [by split|]. intros [|]; [done|].
  apply asks_bind; [by apply probe_asks|]. intros response. destruct (healthy_document response).
  - by destruct (capture_transition_health_drained _ _).
  - apply asks_bind; [by split|]. by intros [|].
Qed.

Lemma fenced_transition fuel : asks_only no_start (stop_for_mode_transition mg fuel).
Proof.
  unfold stop_for_mode_transition. destruct (_ || _); [done|].
  apply asks_bind; [by destruct (is_embedded _)|]. intros [|]; [done|].
  destruct (bool_decide _).
  - apply asks_bind; [done|]. intros _. apply asks_bind; [|intros response].
    { unfold provider_request. destruct (negb _); [done|]. by split. }
    destruct (is_some_and _ _); [done|]. apply asks_bind; [apply fenced_tick|intros _; apply wait_drained_asks].
  - apply asks_bind; [apply fenced_stop|]. by intros [|].
Qed.

End Fence.

(** Every command of the manager. *)
Inductive Command :=
| Tick | Start | StopCommand | Restart | ModeTransition | Shutdown | Collecting (collecting : bool).

Definition run_command (mg : Manager) (fuel : nat) (command : Command) : Prog unit :=
  match command with
  | Tick => supervisor_tick mg
  | Start => let& _ := start mg fuel in Stop tt
  | StopCommand => let& _ := stop mg fuel in Stop tt
  | Restart => let& _ := restart mg fuel in Stop tt
  | ModeTransition => let& _ := stop_for_mode_transition mg fuel in Stop tt
  | Shutdown => shutdown mg fuel
  | Collecting collecting => set_collecting collecting
  end.

(** C11. Offline and management-only fences. In offline acquisition mode, and in background
    management mode, no command of the manager, in any interleaving with the others and whatever the
    shared state holds, starts a capture process or sends a start command to the provider. *)
Theorem fenced_capture_never_starts (mg : Manager) (fuel : nat) (command : Command) :
  mg_mode mg = Offline \/ mg_control_allowed mg = false -> asks_only no_start (run_command mg fuel command).
Proof.
  intros Hf. destruct command as [| | | | | |collecting]; cbn [run_command].
  - by apply fenced_tick.
  - apply asks_bind; [by apply fenced_start|done].
  - apply asks_bind; [by apply fenced_stop|done].
  - apply asks_bind; [|done]. unfold restart. destruct (negb _); [done|].
    apply asks_bind; [by apply fenced_stop|]. intros _. by apply fenced_start.
  - apply asks_bind; [by apply fenced_transition|done].
  - unfold shutdown. destruct (managed_by_supervisor mg); [done|].
    apply asks_bind; [by apply fenced_stop|done].
  - done.
Qed.

(** ** The restart budget *)

Definition is_spawn (e : Event) : bool :=
  match e with @Asked _ question _ => match question with AskSpawn => true | _ => false end end.

(** Processes started (or tried to) in a run. *)
Definition attempts (w : World) : Z := Z.of_nat (length (List.filter is_spawn (w_log w))).

Definition child_held (w : World) : Z := match w_proc w with Some (Some _) => 1 | _ => 0 end.

(** No mutex is poisoned. *)
Definition live (w : World) (l : Lifecycle) : Prop := w_life w = Some l /\ exists child, w_proc w = Some child.

(** The failures and the child together never exceed the budget by more than one. *)
Definition within_budget (w : World) (l : Lifecycle) : Prop :=
  live w l /\ restart_budget l <= 20 /\ 0 <= consecutive_failures l /\
  consecutive_failures l + child_held w <= restart_budget l + 1.

Lemma scheduled_failures mg error code now l : consecutive_failures (scheduled mg error code now l)
  = sat_add u32_max (consecutive_failures l) 1.
Proof. unfold scheduled. cbn. by repeat case_match. Qed.

Lemma scheduled_budget mg error code now l : restart_budget (scheduled mg error code now l) = restart_budget l.
Proof. unfold scheduled. cbn. by repeat case_match. Qed.

Lemma scheduled_desired mg error code now l : desired_running (scheduled mg error code now l) = desired_running l.
Proof. unfold scheduled. cbn. by repeat case_match. Qed.

(** What a tick does to the budget: [started] says whether it tried to start a process. *)
Definition tick_counts (w : World) (l : Lifecycle) (w' : World) : Prop :=
  exists l', within_budget w' l' /\ restart_budget l' = restart_budget l /\
    (desired_running l' = desired_running l) /\
    ((attempts w' = attempts w /\
      (consecutive_failures l' < consecutive_failures l \/
       consecutive_failures l + child_held w <= consecutive_failures l' + child_held w')) \/
     (attempts w' = attempts w + 1 /\ child_held w = 0 /\ consecutive_failures l < restart_budget l /\
      desired_running l = true /\
      (exists now, In (Asked AskClock now) (w_log w') /\ is_none_or (next_restart_at l) (fun t => t <=? now) = true) /\
      consecutive_failures l' + child_held w' = consecutive_failures l + 1)).

Lemma attempts_snoc life proc flag log e : attempts (mkWorld life proc flag (log ++ [e]))
  = attempts (mkWorld life proc flag log) + (if is_spawn e then 1 else 0).
Proof.
  unfold attempts. simpl. rewrite List.filter_app, length_app. simpl. destruct (is_spawn e); simpl; lia.
Qed.

Lemma attempts_log w life proc flag : attempts (mkWorld life proc flag (w_log w)) = attempts w.
Proof. done. Qed.

(** A tick that loses the child and schedules a restart. *)
Lemma counts_failure mg w l w2 lc error code now : within_budget w l -> child_held w = 1 ->
  w_life w2 = Some (scheduled mg error code now lc) -> w_proc w2 = Some None -> attempts w2 = attempts w ->
  consecutive_failures lc = consecutive_failures l -> restart_budget lc = restart_budget l ->
  desired_running lc = desired_running l -> tick_counts w l w2.
Proof.
  intros [_ (H20 & H0' & Hle)] Hh Hl Hp Ha Hf Hb Hd. exists (scheduled mg error code now lc).
  assert (Hh2 : child_held w2 = 0) by (unfold child_held; by rewrite Hp).
  assert (Hf2 : consecutive_failures (scheduled mg error code now lc) = consecutive_failures l + 1).
  { rewrite scheduled_failures, Hf. unfold sat_add, u32_max. lia. }
  rewrite scheduled_budget, scheduled_desired. split; [|split; [done|split; [done|]]].
  - split; [split; [done|by exists None]|]. rewrite scheduled_budget, Hb. lia.
  - left. split; [done|]. right. lia.
Qed.

(** A tick that leaves the child and the failures alone, or forgets the failures. *)
Lemma counts_same w l w2 l2 : within_budget w l -> w_life w2 = Some l2 -> w_proc w2 = w_proc w ->
  attempts w2 = attempts w -> restart_budget l2 = restart_budget l -> desired_running l2 = desired_running l ->
  consecutive_failures l2 = consecutive_failures l \/ consecutive_failures l2 = 0 -> tick_counts w l w2.
Proof.
  intros [[_ [child Hc]] (H20 & H0' & Hle)] Hl Hp Ha Hb Hd Hf. exists l2.
  assert (Hh : child_held w2 = child_held w) by (unfold child_held; by rewrite Hp).
  split; [|split; [done|split; [done|]]].
  - split; [split; [done|]; exists child; congruence|]. rewrite Hb, Hh. split; [done|]. lia.
  - left. split; [done|]. rewrite Hh. lia.
Qed.

Lemma tick_running_counts mg child w l : within_budget w l -> w_proc w = Some (Some child) ->
  wp (tick_running mg child) (fun _ w' => tick_counts w l w') w.
Proof.
  intros Hb Hp. pose proof Hb as [[Hl _] _].
  assert (Hh : child_held w = 1) by (unfold child_held; by rewrite Hp).
  unfold tick_running. intros listening now. simpl. rewrite Hl. simpl. destruct listening.
  - apply cwp_bind. eapply cwp_mono with (Q := fun _ w' => w_life w' = Some l /\ w_proc w' = Some (Some child) /\ attempts w' = attempts w).
    + intros response w1 (Hl1 & Hp1 & Ha1). simpl. rewrite Hl1. simpl. destruct (_ >=? 2).
      * simpl. rewrite Hp1. intros _ now2. eapply counts_failure; [done|done|done|done| |done|done|done].
        rewrite attempts_snoc, Z.add_0_r. exact Ha1.
      * simpl. eapply counts_same; [done|done|by rewrite Hp1|exact Ha1|..]; unfold ready_again; cbn;
          case_match; cbn; auto.
    + unfold probe_response. destruct (_ || _); simpl.
      * split; [done|]. split; [done|]. by rewrite !attempts_snoc, Z.add_0_r, Z.add_0_r.
      * intros b. split; [done|]. split; [done|]. by rewrite !attempts_snoc, !Z.add_0_r.
  - destruct (is_some_and _ _); simpl.
    + rewrite Hp. intros _ now2. eapply counts_failure; [done|done|done|done| |done|done|done].
      by rewrite !attempts_snoc, !Z.add_0_r.
    + eapply counts_same; [done|done|done| |done|done|by left]. by rewrite !attempts_snoc, !Z.add_0_r.
Qed.

Lemma tick_idle_counts mg w l : within_budget w l -> w_proc w = Some None ->
  wp (tick_idle mg) (fun _ w' => tick_counts w l w') w.
Proof.
  intros Hb Hp. pose proof Hb as [[Hl _] (H20 & H0' & Hle)].
  assert (Hh : child_held w = 0) by (unfold child_held; by rewrite Hp).
  unfold tick_idle. intros [|]; simpl.
  - intros now. rewrite Hl. eapply counts_same; [done|done|done| |done|done|by right].
    by rewrite !attempts_snoc, !Z.add_0_r.
  - intros now. rewrite Hl. simpl. destruct (should_spawn now l) eqn:Es; simpl.
    + unfold should_spawn in Es. apply andb_true_iff in Es as [Es Hn]. apply andb_true_iff in Es as [Hd Hf].
      apply Z.ltb_lt in Hf.
      intros [child|error]; simpl.
      * rewrite Hp. intros _. simpl. exists (spawned child now l). split; [|split; [done|split; [done|]]].
        { split; [by split; eauto|]. unfold spawned, child_held. simpl. lia. }
        right. split; [by rewrite !attempts_snoc, !Z.add_0_r|]. split; [done|]. split; [done|]. split; [done|].
        split; [exists now; split; [simpl; rewrite !in_app_iff; simpl; tauto|done]|]. unfold spawned, child_held. simpl. lia.
      * intros now2. exists (scheduled mg error None now2 l).
        assert (Hf2 : consecutive_failures (scheduled mg error None now2 l) = consecutive_failures l + 1).
        { rewrite scheduled_failures. unfold sat_add, u32_max. lia. }
        rewrite scheduled_budget, scheduled_desired. split; [|split; [done|split; [done|]]].
        { split; [by split; eauto|]. rewrite scheduled_budget, Hf2. change (child_held (mkWorld _ (w_proc w) _ _)) with (child_held w). lia. }
        right. split; [by rewrite !attempts_snoc, !Z.add_0_r|]. split; [done|]. split; [done|]. split; [done|].
        split; [exists now; split; [simpl; rewrite !in_app_iff; simpl; tauto|done]|].
        change (child_held (mkWorld _ (w_proc w) _ _)) with (child_held w). lia.
    + eapply counts_same; [done|done|done| |done|done|by left]. by rewrite !attempts_snoc, !Z.add_0_r.
Qed.

(** Whether the ticks of a manager can start processes at all. *)
Definition spawner (mg : Manager) : bool :=
  negb (bool_decide (mg_mode mg = Offline)) && mg_control_allowed mg && negb (managed_by_supervisor mg)
  && is_managed (mg_provider mg).

Lemma tick_counts_spawner mg w l : spawner mg = true -> within_budget w l ->
  wp (supervisor_tick mg) (fun _ w' => tick_counts w l w') w.
Proof.
  unfold spawner. rewrite !andb_true_iff, !negb_true_iff. intros [[[Hoff Hctl] Hsup] Hman] Hb.
  pose proof Hb as [[Hl [child Hp]] _]. destruct w as [life proc flag log]. simpl in Hl, Hp. subst life proc.
  unfold supervisor_tick. apply cwp_bind. cbn [wp fst snd w_life w_proc w_flag w_log].
  destruct flag; [by eapply counts_same; eauto|].
  rewrite Hoff, Hctl, Hsup. destruct (mg_provider mg); try done. cbn [is_embedded is_managed negb].
  unfold tick_managed. apply cwp_bind. cbn [wp w_life w_proc w_flag w_log]. intros status.
  destruct child as [child|]; cbn [look_section fst snd]; [|by apply tick_idle_counts].
  destruct status as [|code|error]; cbn [fst snd]; [by apply tick_running_counts|..];
    (intros now; simpl; eapply counts_failure; [done|done|done|done| |done|done|done]; by rewrite attempts_snoc, Z.add_0_r).
Qed.

(** The ticks of the other managers ask for no process. *)
Definition no_spawn (B : Type) (question : Ask B) : Prop := match question with AskSpawn => False | _ => True end.

Lemma asks_attempts {A} (p : Prog A) : forall w, asks_only no_spawn p -> wp p (fun _ w' => attempts w' = attempts w) w.
Proof.
  induction p as [a|B s k IH|B s k IH|B s k IH|B q k IH]; intros w Hp; cbn [wp asks_only] in *; [done|..].
  - by eapply cwp_mono; [|apply IH, Hp].
  - intros status. by eapply cwp_mono; [|apply IH, Hp].
  - by eapply cwp_mono; [|apply IH, Hp].
  - destruct Hp as [Hq Hk]. intros b. eapply cwp_mono; [|apply IH, Hk]. intros a w' E. rewrite E, attempts_snoc.
    change (is_spawn (Asked q b)) with (match q with AskSpawn => true | _ => false end).
    destruct q; simpl in Hq; try done; rewrite Z.add_0_r; done.
Qed.

Lemma other_tick_asks mg : spawner mg = false -> asks_only no_spawn (supervisor_tick mg).
Proof.
  unfold spawner, supervisor_tick. intros Hs. apply asks_bind; [done|]. intros [|]; [done|].
  destruct (bool_decide _); [done|]. destruct (mg_control_allowed mg); [|done]. simpl in *.
  destruct (managed_by_supervisor mg); [done|]. destruct (is_embedded _) eqn:Ee; [done|]. simpl in *.
  rewrite Hs. simpl. unfold tick_external. apply asks_bind; [|done].
  unfold probe_response. by destruct (_ || _).
Qed.

(** Consecutive ticks. *)
Fixpoint run_ticks `{Surroundings} (mg : Manager) (count : nat) (n : nat) (w : World) : nat * World :=
  match count with
  | O => (n, w)
  | S count' => let '(_, n', w') := exec n (supervisor_tick mg) w in run_ticks mg count' n' w'
  end.

Definition failures (w : World) : Z := match w_life w with Some l => consecutive_failures l | None => 0 end.

(** The failures never go down over the ticks. *)
Fixpoint never_recovers `{Surroundings} (mg : Manager) (count : nat) (n : nat) (w : World) : Prop :=
  match count with
  | O => True
  | S count' =>
      let '(_, n', w') := exec n (supervisor_tick mg) w in
      failures w <= failures w' /\ never_recovers mg count' n' w'
  end.

(** C12. Restart budget. Over any number of supervisor ticks in any surroundings, as long as the
    consecutive failures are not reset, the number of processes started is at most what is left of
    the budget: failures already counted and a child already running are subtracted. *)
Theorem restart_budget_bounds_spawns (mg : Manager) (surroundings : Surroundings) (count n : nat) (w : World) (l : Lifecycle) :
  within_budget w l -> never_recovers mg count n w ->
  attempts (snd (run_ticks mg count n w)) - attempts w
    <= Z.max 0 (restart_budget l - consecutive_failures l - child_held w).
Proof.
  revert n w l. induction count as [|count IH]; intros n w l Hb Hn; [simpl; lia|].
  cbn [run_ticks never_recovers] in *.
  destruct (exec n (supervisor_tick mg) w) as [[u n'] w'] eqn:E. destruct Hn as [Hf Hn].
  destruct (spawner mg) eqn:Es.
  - pose proof (wp_exec _ _ n w (tick_counts_spawner mg w l Es Hb)) as Ht. rewrite E in Ht.
    destruct Ht as (l' & Hb' & Hbud & _ & Hcases). specialize (IH n' w' l' Hb' Hn). rewrite Hbud in IH.
    assert (Hfl : failures w = consecutive_failures l) by (unfold failures; by destruct Hb as [[-> _] _]).
    assert (Hfl' : failures w' = consecutive_failures l') by (unfold failures; by destruct Hb' as [[-> _] _]).
    destruct Hcases as [[Ha [?|?]]|(Ha & Hh & Hlt & _ & _ & Hsum)]; lia.
  - assert (Hall : forall k m v, attempts (snd (run_ticks mg k m v)) = attempts v).
    { intros k. induction k as [|k IHk]; intros m v; [done|]. cbn [run_ticks].
      pose proof (wp_exec _ _ m v (asks_attempts _ v (other_tick_asks mg Es))) as Ht.
      destruct (exec m (supervisor_tick mg) v) as [[u' m'] v']. rewrite IHk. done. }
    pose proof (wp_exec _ _ n w (asks_attempts _ w (other_tick_asks mg Es))) as Ht. rewrite E in Ht.
    rewrite Hall. lia.
Qed.

(** ** Backoff *)

(** The delay before the restart that follows [failures] failures in a row. *)
Definition restart_delay (mg : Manager) (failures : Z) : Z :=
  Z.min (capture_restart_backoff_ms (mg_env mg) * 2 ^ Z.min (failures - 1) 10) CAPTURE_RESTART_BACKOFF_MAX_MS.

Lemma backoff_range mg : 100 <= capture_restart_backoff_ms (mg_env mg) <= CAPTURE_RESTART_BACKOFF_MAX_MS.
Proof.
  unfold capture_restart_backoff_ms, clamped_setting, CAPTURE_RESTART_BACKOFF_MS_DEFAULT, CAPTURE_RESTART_BACKOFF_MAX_MS.
  repeat case_match; try lia. apply clamp_bounds. lia.
Qed.

(** Backoff. Losing a capture process that should run schedules the next start, while the budget
    lasts, after a delay that doubles with every failure in a row, from the configured backoff up to
    30 seconds; with the budget used up, or when capture should not run, none is scheduled. The delay
    never shrinks as failures mount. *)
Theorem restart_backoff_schedule (mg : Manager) (error : string) (code : option Z) (now : Z) (l : Lifecycle) :
  0 <= consecutive_failures l < u32_max -> 0 <= now <= u128_max - CAPTURE_RESTART_BACKOFF_MAX_MS ->
  let l' := scheduled mg error code now l in
  let f := consecutive_failures l + 1 in
  consecutive_failures l' = f /\ pid l' = None /\ ready_at l' = None /\ last_error l' = error /\
  next_restart_at l' = (if desired_running l && (f <? restart_budget l) then Some (now + restart_delay mg f) else None) /\
  phase l' = (if desired_running l then "degraded" else "stopped") /\
  capture_restart_backoff_ms (mg_env mg) <= restart_delay mg f <= CAPTURE_RESTART_BACKOFF_MAX_MS /\
  (forall g, f <= g -> restart_delay mg f <= restart_delay mg g).
Proof.
  intros Hf Hn l' f. pose proof (backoff_range mg) as Hb.
  assert (Hpow : forall g, 1 <= g -> 1 <= 2 ^ Z.min (g - 1) 10 <= 1024).
  { intros g Hg. change 1024 with (2 ^ 10). pose proof (Z.pow_pos_nonneg 2 (Z.min (g - 1) 10)).
    split; [lia|]. apply Z.pow_le_mono_r; lia. }
  assert (Hsat : sat_add u32_max (consecutive_failures l) 1 = f) by (unfold sat_add, f; lia).
  assert (Hdelay : Z.min (sat_mul u64_max (capture_restart_backoff_ms (mg_env mg))
      (Z.shiftl 1 (Z.min (sat_sub f 1) 10))) CAPTURE_RESTART_BACKOFF_MAX_MS = restart_delay mg f).
  { unfold restart_delay, sat_sub. rewrite Z.max_r by (unfold f; lia). rewrite Z.shiftl_1_l. f_equal.
    unfold sat_mul. apply Z.min_r. specialize (Hpow f ltac:(unfold f; lia)). unfold u64_max, CAPTURE_RESTART_BACKOFF_MAX_MS in *. nia. }
  assert (Hrange : capture_restart_backoff_ms (mg_env mg) <= restart_delay mg f <= CAPTURE_RESTART_BACKOFF_MAX_MS).
  { unfold restart_delay. specialize (Hpow f ltac:(unfold f; lia)). nia. }
  unfold l', scheduled. cbn. rewrite Hsat, Hdelay.
  assert (Hsum : sat_add u128_max now (restart_delay mg f) = now + restart_delay mg f) by (unfold sat_add; lia).
  destruct (desired_running l); cbn.
  - destruct (Z.ltb_spec f (restart_budget l)); destruct (f >=? restart_budget l) eqn:Eg; try lia; cbn;
      rewrite ?Hsum; repeat (split; [done|]); intros g Hg; unfold restart_delay;
      apply Z.min_le_compat_r, Z.mul_le_mono_nonneg_l; [lia|apply Z.pow_le_mono_r; lia|lia|apply Z.pow_le_mono_r; lia].
  - repeat (split; [done|]). intros g Hg. unfold restart_delay.
    apply Z.min_le_compat_r, Z.mul_le_mono_nonneg_l; [lia|apply Z.pow_le_mono_r; lia].
Qed.

(** ** Stopping *)

Lemma stop_asks mg fuel : asks_only no_spawn (stop mg fuel).
Proof.
  assert (Hw : forall k, asks_only no_spawn (wait_closed k)).
  { intros k. induction k as [|k IH]; [done|]. cbn [wait_closed]. apply asks_bind; [by split|].
    intros [|]; [|done]. apply asks_bind; [by split|]. by intros [|]. }
  assert (Hother : forall p, asks_only no_spawn p -> spawner mg = false ->
    asks_only no_spawn (let& _ := supervisor_tick mg in p : Prog bool)).
  { intros p Hp Hs. apply asks_bind; [by apply other_tick_asks|done]. }
  unfold stop. destruct (bool_decide (mg_mode mg = Offline)) eqn:Eo.
  { apply Hother; [done|]. unfold spawner. by rewrite Eo. }
  destruct (mg_control_allowed mg) eqn:Ec; [|done]. cbn [negb]. destruct (_ && _); [done|].
  destruct (bool_decide (mg_provider mg = Bkv)) eqn:Ebkv; [done|]. apply asks_bind; [done|]. intros _.
  destruct (is_embedded (mg_provider mg)) eqn:Ee.
  { apply Hother; [done|]. unfold spawner. destruct (mg_provider mg); try done; by rewrite andb_false_r. }
  destruct (bool_decide (mg_provider mg = ExternalApi)) eqn:Ex.
  { apply asks_bind; [unfold provider_request; by destruct (negb _)|]. intros response. apply Hother; [done|].
    apply bool_decide_eq_true in Ex. unfold spawner. rewrite Ex. simpl. by rewrite andb_false_r. }
  destruct (is_managed (mg_provider mg)) eqn:Em; cbn [negb].
  - apply asks_bind; [done|]. intros _. apply asks_bind; [apply Hw|]. intros _. by apply asks_bind; [by split|].
  - apply Hother; [|unfold spawner; by rewrite Em, andb_false_r]. by apply asks_bind; [by split|].
Qed.

Lemma wait_closed_keeps fuel : forall w (Q : unit -> World -> Prop),
  (forall log, attempts (mkWorld (w_life w) (w_proc w) (w_flag w) log) = attempts w ->
     Q tt (mkWorld (w_life w) (w_proc w) (w_flag w) log)) -> wp (wait_closed fuel) Q w.
Proof.
  induction fuel as [|fuel IH]; intros [life proc flag log] Q HQ; simpl in HQ;
    cbn [wait_closed]; [by apply HQ|].
  apply cwp_bind. intros [|]; cbn [wp negb]; [|by apply HQ; rewrite attempts_snoc, Z.add_0_r].
  apply cwp_bind. intros [|]; cbn [wp w_life w_proc w_flag w_log]; [by apply HQ; rewrite !attempts_snoc, !Z.add_0_r|].
  apply IH. simpl. intros log' E. apply HQ. by rewrite E, !attempts_snoc, !Z.add_0_r.
Qed.

Lemma stop_spawner mg fuel w l : spawner mg = true -> within_budget w l ->
  wp (stop mg fuel) (fun _ w' => exists l', within_budget w' l' /\ desired_running l' = false /\ attempts w' = attempts w) w.
Proof.
  unfold spawner. rewrite !andb_true_iff, !negb_true_iff. intros [[[Hoff Hctl] Hsup] Hman] [[Hl [child Hp]] (H20 & H0' & Hle)].
  destruct w as [life proc flag log]. simpl in Hl, Hp. subst life proc.
  assert (Hheld : 0 <= child_held (mkWorld (Some l) (Some child) flag log)) by (unfold child_held; simpl; by destruct child).
  unfold stop. rewrite Hoff, Hctl, Hsup. destruct (mg_provider mg); try done. cbn.
  intros _. apply cwp_bind, wait_closed_keeps. cbn [w_life w_proc w_flag w_log]. intros log' Ha.
  intros listening. simpl.
  eexists. split; [split; [split; [done|by exists None]|]|split].
  - destruct listening; simpl; unfold child_held; simpl; lia.
  - by destruct listening.
  - rewrite attempts_snoc, Z.add_0_r. exact Ha.
Qed.

Lemma ticks_without_desire mg (surroundings : Surroundings) count : spawner mg = true ->
  forall n w l, within_budget w l -> desired_running l = false -> attempts (snd (run_ticks mg count n w)) = attempts w.
Proof.
  intros Hs. induction count as [|count IH]; intros n w l Hb Hd; [done|]. cbn [run_ticks].
  pose proof (wp_exec _ _ n w (tick_counts_spawner mg w l Hs Hb)) as Ht.
  destruct (exec n (supervisor_tick mg) w) as [[u n'] w'].
  destruct Ht as (l' & Hb' & _ & Hd' & [[Ha _]|(_ & _ & _ & Hd2 & _)]); [|congruence].
  rewrite (IH n' w' l' Hb'); [done|congruence].
Qed.

Lemma ticks_of_others mg (surroundings : Surroundings) count : spawner mg = false ->
  forall n w, attempts (snd (run_ticks mg count n w)) = attempts w.
Proof.
  intros Hs. induction count as [|count IH]; intros n w; [done|]. cbn [run_ticks].
  pose proof (wp_exec _ _ n w (asks_attempts _ w (other_tick_asks mg Hs))) as Ht.
  destruct (exec n (supervisor_tick mg) w) as [[u n'] w']. by rewrite IH.
Qed.

(** Stop holds. After a stop command, run to its end, no number of supervisor ticks in any
    surroundings starts a capture process again, for any provider and configuration. *)
Theorem stop_holds (mg : Manager) (surroundings : Surroundings) (fuel count n : nat) (w : World) (l : Lifecycle) :
  within_budget w l ->
  let '(_, n', stopped) := exec n (stop mg fuel) w in
  attempts (snd (run_ticks mg count n' stopped)) = attempts w.
Proof.
  intros Hb. destruct (spawner mg) eqn:Es.
  - pose proof (wp_exec _ _ n w (stop_spawner mg fuel w l Es Hb)) as Hs.
    destruct (exec n (stop mg fuel) w) as [[r n'] w']. destruct Hs as (l' & Hb' & Hd & Ha).
    by rewrite (ticks_without_desire mg _ count Es n' w' l' Hb' Hd).
  - pose proof (wp_exec _ _ n w (asks_attempts _ w (stop_asks mg fuel))) as Hs.
    destruct (exec n (stop mg fuel) w) as [[r n'] w']. by rewrite ticks_of_others.
Qed.

(** ** Mode transitions *)

(** The provider was seen closed, or reported itself drained. *)
Definition quiesced (mg : Manager) (w : World) : Prop :=
  In (Asked AskListening false) (w_log w) \/
  exists response health, In (Asked (AskHttp "GET" "/health" "") (Some response)) (w_log w) /\
    status_in_200s response = true /\ json_parse (body_bytes response) = Some health /\
    zero_at ["storageQueue"; "pendingRounds"] health = true /\ zero_at ["storageQueue"; "activeRounds"] health = true /\
    zero_at ["databaseCommit"; "pendingRounds"] health = true /\ zero_at ["databaseCommit"; "activeRounds"] health = true /\
    get_bool "quiesced" health = Some true /\ capture_transition_health_drained mg health = true.

Lemma drained_parts mg health : capture_transition_health_drained mg health = true ->
  zero_at ["storageQueue"; "pendingRounds"] health = true /\ zero_at ["storageQueue"; "activeRounds"] health = true /\
  zero_at ["databaseCommit"; "pendingRounds"] health = true /\ zero_at ["databaseCommit"; "activeRounds"] health = true /\
  get_bool "quiesced" health = Some true.
Proof.
  unfold capture_transition_health_drained. rewrite !andb_true_iff. intros [[[[[[? ?] ?] ?] Hq] _] _].
  repeat (split; [done|]). destruct (get_bool "quiesced" health) as [[]|]; done.
Qed.

Lemma wait_drained_evidence mg fuel : forall w, mg_provider mg = ExternalApi ->
  wp (wait_drained mg fuel) (fun r w' => r = Ok tt -> quiesced mg w') w.
Proof.
  induction fuel as [|fuel IH]; intros w Hm; cbn [wait_drained]; [done|].
  apply cwp_bind. intros [|]; cbn [wp]; [done|]. unfold probe_response. rewrite Hm. cbn [uses_local_api negb orb].
  rewrite bool_decide_eq_false_2 by done. cbn [orb]. apply cwp_bind. intros response. cbn [wp].
  destruct (healthy_document response) as [health|] eqn:Eh.
  - destruct (capture_transition_health_drained mg health) eqn:Ed; [|by apply IH]. cbn [wp w_log]. intros _. right.
    unfold healthy_document, filter_opt in Eh. destruct response as [r|]; [|done].
    destruct (status_in_200s r) eqn:E2; [|done]. exists r, health.
    split; [apply in_app_iff; right; by left|]. pose proof (drained_parts mg health Ed) as (?&?&?&?&?). auto 10.
  - apply cwp_bind. intros [|]; cbn [wp negb w_log]; [by apply IH|]. intros _. left. apply in_app_iff. right. by left.
Qed.

Lemma stop_evidence mg fuel w : spawner mg = true ->
  wp (stop mg fuel) (fun r w' => r = true -> In (Asked AskListening false) (w_log w')) w.
Proof.
  unfold spawner. rewrite !andb_true_iff, !negb_true_iff. intros [[[Hoff Hctl] Hsup] Hman].
  unfold stop. rewrite Hoff, Hctl, Hsup. destruct (mg_provider mg); try done. cbn.
  intros _. apply cwp_bind, wait_closed_keeps. intros log _ listening. simpl. destruct listening; [done|].
  intros _. apply in_app_iff. right. by left.
Qed.

(** Mode transitions. The transition away from an external provider, or from the capture process
    this service manages, succeeds only on evidence gathered while stopping: the endpoint was seen
    closed, or a successful health answer showed both storage and database queues empty, the provider
    quiesced and its service stopped. *)
Theorem mode_transition_has_evidence (mg : Manager) (surroundings : Surroundings) (fuel n : nat) (w : World) :
  mg_mode mg <> Offline -> mg_provider mg = ExternalApi \/ spawner mg = true -> w_log w = [] ->
  let '(result, _, w') := exec n (stop_for_mode_transition mg fuel) w in
  result = Ok tt -> quiesced mg w'.
Proof.
  intros Hm Hp _. apply (wp_exec _ (fun r w' => r = Ok tt -> quiesced mg w')).
  unfold stop_for_mode_transition. rewrite (bool_decide_eq_false_2 _ Hm). cbn [orb].
  assert (Hneg : mg_provider mg <> Bkv /\ is_embedded (mg_provider mg) = false).
  { destruct Hp as [-> |Hs]; [done|]. unfold spawner in Hs. bool_facts. by destruct (mg_provider mg). }
  destruct Hneg as [Hb He]. rewrite (bool_decide_eq_false_2 _ Hb), He.
  apply cwp_bind. intros [|]; cbn [wp negb cbind w_log];
    [|intros _; left; apply in_app_iff; right; by left].
  destruct (bool_decide (mg_provider mg = ExternalApi)) eqn:Ex.
  - apply bool_decide_eq_true in Ex. apply cwp_bind. cbn [update_lifecycle wp]. unfold provider_request. rewrite Ex.
    cbn [uses_local_api negb]. apply cwp_bind. intros response. cbn [wp].
    destruct (is_some_and _ _); [done|]. apply cwp_bind.
    eapply cwp_mono; [intros a w' _; by apply wait_drained_evidence|]. apply wp_true.
  - destruct Hp as [Hp|Hs]; [by rewrite Hp in Ex|]. apply cwp_bind.
    eapply cwp_mono; [|by apply stop_evidence]. intros [|] w' Hstop; cbn [negb wp]; [|done].
    intros _. left. by apply Hstop.
Qed.

End Facts.

(** ** Concrete runs *)

(** One instruction of a thread. *)
Definition step_thread {A} `{Surroundings} (n : nat) (p : Prog A) (w : World) : Prog A * World :=
  match p with
  | Stop a => (Stop a, w)
  | Life section k =>
      (k (fst (section (w_life w))), mkWorld (snd (section (w_life w))) (w_proc w) (w_flag w) (w_log w))
  | Proc section k =>
      let r := section (w_proc w) (child_status n) in
      (k (fst r), mkWorld (w_life w) (snd r) (w_flag w) (w_log w))
  | Flag section k =>
      (k (fst (section (w_flag w))), mkWorld (w_life w) (w_proc w) (snd (section (w_flag w))) (w_log w))
  | @Env _ B question k =>
      let b := answer n B question in
      (k b, mkWorld (w_life w) (w_proc w) (w_flag w) (w_log w ++ [Asked question b]))
  end.

(** Two threads, interleaved by a schedule: [true] steps the first one. *)
Fixpoint interleave {A B} `{Surroundings} (schedule : list bool) (n : nat) (p : Prog A) (q : Prog B) (w : World)
    : Prog A * Prog B * World :=
  match schedule with
  | [] => (p, q, w)
  | first :: schedule' =>
      if first : bool
      then let '(p', w') := step_thread n p w in interleave schedule' (S n) p' q w'
      else let '(q', w') := step_thread n q w in interleave schedule' (S n) p q' w'
  end.

Definition silent_codec : JsonCodec := {| json_print := fun _ => "{}"; json_parse := fun _ => None |}.

Definition line_manager : Manager := mkManager HeadlessCpp Online true (fun _ => None).

Definition idle_lifecycle : Lifecycle := with_policy (fun _ => None) 1000 HeadlessCpp true true.

Definition idle_world : World := mkWorld (Some idle_lifecycle) (Some None) false [].

(** Nothing listens before step 20; the executable starts as process 77 and stays alive. *)
Definition calm : Surroundings := {|
  answer := fun n B question =>
    match question in Ask B return B with
    | AskClock => 2000 + Z.of_nat n
    | AskListening => Nat.leb 20 n
    | AskHttp _ _ _ => None
    | AskSpawn => Ok 77
    | AskDeadline => false
    end;
  child_status := fun _ => StillRunning;
|}.

(** The executable cannot be started. *)
Definition broken : Surroundings := {|
  answer := fun n B question =>
    match question in Ask B return B with
    | AskClock => 100000 * Z.of_nat n
    | AskListening => false
    | AskHttp _ _ _ => None
    | AskSpawn => Err "capture executable not found"
    | AskDeadline => false
    end;
  child_status := fun _ => StillRunning;
|}.

(** Stop race. The supervisor decides to start a process in one critical section and starts it
    later without looking again. A stop command that runs in between reports success with the
    endpoint closed, and then the process starts; the following ticks find it running and ready and
    keep it, although capture should not run. *)
Theorem stop_loses_to_pending_spawn :
  let '(tick, stopped, w) :=
    @interleave unit bool calm (replicate 5 true ++ replicate 5 false ++ replicate 3 true) 0
      (@supervisor_tick silent_codec line_manager) (@stop silent_codec line_manager 10) idle_world in
  let later := snd (@run_ticks silent_codec calm line_manager 3 20 w) in
  tick = Stop tt /\ stopped = Stop true /\ w_proc w = Some (Some 77) /\ w_proc later = Some (Some 77) /\
  option_map phase (w_life later) = Some "ready" /\ option_map desired_running (w_life later) = Some false.
Proof. vm_compute. done. Qed.

Lemma fenced_capture_never_starts_witness :
  asks_only no_start (@run_command silent_codec (mkManager HeadlessCpp Offline true (fun _ => None)) 7 Restart).
Proof. apply (@fenced_capture_never_starts silent_codec). left. reflexivity. Defined.

Lemma idle_within_budget : within_budget idle_world idle_lifecycle.
Proof. split; [split; [done|by exists None]|]. vm_compute. repeat split; discriminate. Qed.

(** Five attempts and no more, out of eight ticks far apart. *)
Lemma restart_budget_bounds_spawns_witness :
  attempts (snd (@run_ticks silent_codec broken line_manager 8 1 idle_world)) = 5 /\
  attempts (snd (@run_ticks silent_codec broken line_manager 8 1 idle_world)) - attempts idle_world
    <= Z.max 0 (restart_budget idle_lifecycle - consecutive_failures idle_lifecycle - child_held idle_world).
Proof.
  split; [vm_compute; reflexivity|].
  apply (@restart_budget_bounds_spawns silent_codec line_manager broken 8 1 idle_world idle_lifecycle);
    [apply idle_within_budget|]. vm_compute. repeat split; discriminate.
Defined.

Lemma restart_backoff_schedule_witness :
  let l := set_failures 2 idle_lifecycle in
  next_restart_at (scheduled line_manager "exit" None 500000 l)
    = (if desired_running l && (2 + 1 <? restart_budget l) then Some (500000 + restart_delay line_manager (2 + 1)) else None) /\
  restart_delay line_manager 3 = 4000.
Proof.
  intros l. split; [|vm_compute; reflexivity].
  apply (restart_backoff_schedule line_manager "exit" None 500000 l); vm_compute; split; discriminate || reflexivity.
Defined.

Lemma stop_holds_witness :
  let '(r, n', stopped) := @exec bool broken 1 (@stop silent_codec line_manager 4) idle_world in
  r = true /\ attempts (snd (@run_ticks silent_codec broken line_manager 6 n' stopped)) = attempts idle_world.
Proof.
  pose proof (@stop_holds silent_codec line_manager broken 4 6 1 idle_world idle_lifecycle idle_within_budget) as Hs.
  split; [vm_compute; reflexivity|exact Hs].
Defined.

(** The endpoint closes after the stop request. *)
Definition closing : Surroundings := {|
  answer := fun n B question =>
    match question in Ask B return B with
    | AskClock => 2000 + Z.of_nat n
    | AskListening => Nat.ltb n 3
    | AskHttp _ _ _ => None
    | AskSpawn => Err "not asked"
    | AskDeadline => false
    end;
  child_status := fun _ => StillRunning;
|}.

Lemma mode_transition_has_evidence_witness :
  let '(result, _, w') := @exec _ closing 1 (@stop_for_mode_transition silent_codec
    (mkManager ExternalApi Simulation true (fun _ => None)) 4) idle_world in
  result = Ok tt /\ @quiesced silent_codec (mkManager ExternalApi Simulation true (fun _ => None)) w'.
Proof.
  set (run := @exec _ closing 1 _ idle_world).
  assert (Hr : fst (fst run) = Ok tt) by (vm_compute; reflexivity).
  assert (Ht : let '(result, _, w') := run in result = Ok tt ->
    @quiesced silent_codec (mkManager ExternalApi Simulation true (fun _ => None)) w').
  { apply (@mode_transition_has_evidence silent_codec (mkManager ExternalApi Simulation true (fun _ => None))
      closing 4 1 idle_world); [discriminate|left; reflexivity|reflexivity]. }
  clearbody run. destruct run as [[result m] w']. simpl in Hr. split; [exact Hr|exact (Ht Hr)].
Defined.
