(* ===== verification/ControlledProcess.v ===== *)
(** * Controlled child processes: bounded output

    [read_bounded_tail] of app/service/src/controlled_process.rs: the ring buffer that keeps the end
    of a child's output while draining the pipe, so that a talkative child neither blocks nor fills
    the memory. *)

From S2P Require Import Prelude.
From Stdlib Require Import Ascii.

Definition OUTPUT_RETAINED_BYTES : nat := (4 * 1024 * 1024)%nat.

(** [BoundedRead]. *)
Record BoundedRead := mkBoundedRead {
  br_bytes : list ascii;
  br_total_bytes : Z;
  br_truncated : bool;
}.

(** What one [read] gives: some bytes (none at the end of the output) or an error. *)
Inductive PipeRead :=
| PipeBytes (chunk : list ascii)
| PipeFailed.

(** [ring[write_index] = *byte; write_index = (write_index + 1) % limit] over a chunk. *)
Fixpoint write_ring (limit : nat) (chunk : list ascii) (ring : list ascii) (write_index : nat)
    : list ascii * nat :=
  match chunk with
  | [] => (ring, write_index)
  | byte :: chunk' =>
      write_ring limit chunk' (<[write_index := byte]> ring) ((write_index + 1) mod limit)%nat
  end.

(** The read loop. *)
Fixpoint drain_pipe (limit : nat) (pipe : list PipeRead) (ring : list ascii) (total : Z) (write_index : nat)
    : list ascii * Z * nat :=
  match pipe with
  | [] | PipeFailed :: _ | PipeBytes [] :: _ => (ring, total, write_index)
  | PipeBytes chunk :: pipe' =>
      let '(ring', write_index') := write_ring limit chunk ring write_index in
      drain_pipe limit pipe' ring' (sat_add u64_max total (Z.of_nat (length chunk))) write_index'
  end.

(** The loop that only counts. *)
Fixpoint count_pipe (pipe : list PipeRead) (total : Z) : Z :=
  match pipe with
  | [] | PipeFailed :: _ | PipeBytes [] :: _ => total
  | PipeBytes chunk :: pipe' => count_pipe pipe' (sat_add u64_max total (Z.of_nat (length chunk)))
  end.

(** [slice::rotate_left]. *)
Definition rotate_left {A} (n : nat) (l : list A) : list A := drop n l ++ take n l.

(** controlled_process.rs [read_bounded_tail]. *)
Definition read_bounded_tail (pipe : list PipeRead) (limit : nat) : BoundedRead :=
  match limit with
  | O => let total := count_pipe pipe 0 in mkBoundedRead [] total (0 <? total)
  | S _ =>
      let '(ring, total, write_index) := drain_pipe limit pipe (repeat Ascii.zero limit) 0 0 in
      let retained := Z.to_nat (Z.min total (Z.of_nat limit)) in
      let ring :=
        if Nat.ltb retained limit then take retained ring
        else if (Z.of_nat limit <? total) && negb (Nat.eqb write_index 0) then rotate_left write_index ring
        else ring in
      mkBoundedRead ring total (Z.of_nat limit <? total)
  end.

(** ** The output read *)

(** The bytes up to the end of the output or the first error. *)
Fixpoint pipe_output (pipe : list PipeRead) : list ascii :=
  match pipe with
  | [] | PipeFailed :: _ | PipeBytes [] :: _ => []
  | PipeBytes chunk :: pipe' => chunk ++ pipe_output pipe'
  end.

(** The last [n] elements. *)
Definition last_n {A} (n : nat) (l : list A) : list A := drop (length l - n) l.

(** The ring holds the end of the output: position [i mod limit] is byte [i]. *)
Record ring_ok (limit : nat) (data ring : list ascii) (write_index : nat) : Prop := {
  ro_length : length ring = limit;
  ro_index : write_index = (length data mod limit)%nat;
  ro_bytes : forall i, (length data - limit <= i < length data)%nat -> ring !! (i mod limit)%nat = data !! i;
}.

Lemma mod_distinct (limit i j : nat) : (i < j)%nat -> (j - i < limit)%nat -> (i mod limit <> j mod limit)%nat.
Proof.
  intros Hij Hd E. assert (limit <> 0%nat) by lia.
  pose proof (Nat.div_mod_eq i limit) as Hi. pose proof (Nat.div_mod_eq j limit) as Hj. rewrite E in Hi.
  set (q := (i / limit)%nat) in *. set (q' := (j / limit)%nat) in *.
  destruct (Nat.lt_trichotomy q q') as [?|[Eq|?]]; [nia|rewrite Eq in Hi; lia|nia].
Qed.

Lemma ring_write limit byte data ring write_index : (0 < limit)%nat -> ring_ok limit data ring write_index ->
  ring_ok limit (data ++ [byte]) (<[write_index := byte]> ring) ((write_index + 1) mod limit)%nat.
Proof.
  intros Hl [Hlen Hidx Hb]. pose proof (Nat.mod_upper_bound (length data) limit) as Hu. split.
  - by rewrite length_insert.
  - rewrite Hidx, length_app. simpl. by rewrite Nat.Div0.add_mod_idemp_l.
  - intros i Hi. rewrite length_app in Hi. simpl in Hi.
    destruct (Nat.eq_dec i (length data)) as [->|].
    + rewrite <- Hidx, list_lookup_insert_eq by lia. by rewrite lookup_app_r, Nat.sub_diag by lia.
    + rewrite list_lookup_insert_ne by (rewrite Hidx; apply not_eq_sym, mod_distinct; lia).
      rewrite Hb by lia. by rewrite lookup_app_l by lia.
Qed.

Lemma ring_write_chunk limit chunk : (0 < limit)%nat -> forall data ring write_index,
  ring_ok limit data ring write_index ->
  ring_ok limit (data ++ chunk) (fst (write_ring limit chunk ring write_index)) (snd (write_ring limit chunk ring write_index)).
Proof.
  intros Hl. induction chunk as [|byte chunk IH]; intros data ring idx Hr; [by rewrite app_nil_r|].
  cbn [write_ring]. rewrite (cons_middle byte data chunk), app_assoc. by apply IH, ring_write.
Qed.

Lemma drain_pipe_ok limit pipe : (0 < limit)%nat -> forall data ring idx,
  ring_ok limit data ring idx -> Z.of_nat (length data + length (pipe_output pipe)) <= u64_max ->
  let '(ring', total, idx') := drain_pipe limit pipe ring (Z.of_nat (length data)) idx in
  ring_ok limit (data ++ pipe_output pipe) ring' idx' /\ total = Z.of_nat (length (data ++ pipe_output pipe)).
Proof.
  intros Hl. induction pipe as [|[[|b chunk]|] pipe IH]; intros data ring idx Hr Hmax; try (simpl; by rewrite app_nil_r).
  cbn [drain_pipe pipe_output] in *. rewrite length_app in Hmax.
  pose proof (ring_write_chunk limit (b :: chunk) Hl _ _ _ Hr) as Hw.
  destruct (write_ring limit (b :: chunk) ring idx) as [ring' idx']. simpl in Hw.
  specialize (IH (data ++ b :: chunk) ring' idx' Hw). rewrite length_app in IH.
  replace (sat_add u64_max (Z.of_nat (length data)) (Z.of_nat (length (b :: chunk))))
    with (Z.of_nat (length data + length (b :: chunk))) by (unfold sat_add; lia).
  rewrite app_assoc. apply IH. lia.
Qed.

Lemma count_pipe_ok pipe : forall total, 0 <= total -> total + Z.of_nat (length (pipe_output pipe)) <= u64_max ->
  count_pipe pipe total = total + Z.of_nat (length (pipe_output pipe)).
Proof.
  induction pipe as [|[[|b chunk]|] pipe IH]; intros total Ht Hm; try (simpl; lia).
  cbn [count_pipe pipe_output] in *. rewrite length_app in *. rewrite IH; unfold sat_add; lia.
Qed.

Lemma rotate_left_lookup {A} n (l : list A) i : (n <= length l)%nat -> (i < length l)%nat ->
  rotate_left n l !! i = l !! ((n + i) mod length l)%nat.
Proof.
  intros Hn Hi. unfold rotate_left. destruct (decide (i < length l - n)%nat).
  - rewrite lookup_app_l by (rewrite length_drop; lia). rewrite lookup_drop, Nat.mod_small by lia. done.
  - rewrite lookup_app_r by (rewrite length_drop; lia). rewrite length_drop, lookup_take_lt by lia.
    replace (n + i)%nat with (i - (length l - n) + 1 * length l)%nat by lia.
    rewrite Nat.Div0.mod_add, Nat.mod_small by lia. done.
Qed.

(** Bounded output. Whatever chunks the output arrives in, the ring buffer returns exactly its
    last [limit] bytes in order (all of it when it is shorter), the number of bytes produced, and
    whether some were dropped. *)
Theorem bounded_tail_is_last_bytes (pipe : list PipeRead) (limit : nat) :
  Z.of_nat (length (pipe_output pipe)) <= u64_max ->
  let output := pipe_output pipe in
  read_bounded_tail pipe limit
    = mkBoundedRead (last_n limit output) (Z.of_nat (length output)) (Z.of_nat limit <? Z.of_nat (length output)).
Proof.
  intros Hm output. unfold read_bounded_tail. destruct limit as [|limit'].
  { rewrite count_pipe_ok by lia. fold output. rewrite Z.add_0_l. f_equal.
    unfold last_n. rewrite Nat.sub_0_r. by rewrite drop_ge. }
  set (limit := S limit'). assert (Hl : (0 < limit)%nat) by (unfold limit; lia).
  pose proof (drain_pipe_ok limit pipe Hl [] (repeat Ascii.zero limit) 0) as Hd. simpl length in Hd.
  change (Z.of_nat 0) with 0 in Hd. destruct (drain_pipe limit pipe (repeat Ascii.zero limit) 0 0) as [[ring total] idx].
  destruct Hd as [[Hlen Hidx Hb] Ht].
  { split; [apply repeat_length|by rewrite Nat.Div0.mod_0_l|]. simpl. lia. }
  { exact Hm. }
  simpl app in *. fold output in Hidx, Hb, Ht. subst total. f_equal.
  destruct (Nat.ltb_spec (Z.to_nat (Z.min (Z.of_nat (length output)) (Z.of_nat limit))) limit) as [Hs|Hs].
  - replace (Z.to_nat (Z.min (Z.of_nat (length output)) (Z.of_nat limit))) with (length output) by lia.
    unfold last_n. replace (length output - limit)%nat with 0%nat by lia. rewrite drop_0.
    apply list_eq. intros i. destruct (decide (i < length output)%nat).
    + rewrite lookup_take_lt by lia. rewrite <- (Nat.mod_small i limit) at 1 by lia. apply Hb. lia.
    + rewrite lookup_take_ge by lia. symmetry. apply lookup_ge_None. lia.
  - assert (Hrot : rotate_left idx ring = last_n limit output).
    { apply list_eq. intros i. unfold last_n. rewrite lookup_drop.
      assert (Hu : (idx < limit)%nat) by (rewrite Hidx; apply Nat.mod_upper_bound; lia).
      destruct (decide (i < limit)%nat).
      - rewrite rotate_left_lookup by lia. rewrite Hlen, <- (Hb (length output - limit + i)%nat) by lia. f_equal.
        rewrite Hidx, Nat.Div0.add_mod_idemp_l.
        replace (length output + i)%nat with (length output - limit + i + 1 * limit)%nat by lia.
        by rewrite Nat.Div0.mod_add.
      - rewrite !(proj2 (lookup_ge_None _ _)); [done|lia|]. unfold rotate_left. rewrite length_app, length_drop, length_take. lia. }
    rewrite <- Hrot. destruct (_ && _) eqn:E; [done|].
    assert (Hz : idx = 0%nat); [|subst idx; rewrite Hz; unfold rotate_left; simpl; by rewrite app_nil_r].
    apply andb_false_iff in E as [E|E]; [|by apply negb_false_iff, Nat.eqb_eq in E].
    apply Z.ltb_ge in E. rewrite Hidx. replace (length output) with limit by lia. apply Nat.Div0.mod_same.
Qed.

Lemma bounded_tail_is_last_bytes_witness :
  let pipe := [PipeBytes (bytes "abc"); PipeBytes (bytes "defgh"); PipeFailed; PipeBytes (bytes "x")] in
  read_bounded_tail pipe 5 = mkBoundedRead (bytes "defgh") 8 true.
Proof.
  intros pipe.
  transitivity (mkBoundedRead (last_n 5 (pipe_output pipe)) (Z.of_nat (length (pipe_output pipe)))
                  (Z.of_nat 5 <? Z.of_nat (length (pipe_output pipe)))); [|vm_compute; reflexivity].
  apply (bounded_tail_is_last_bytes pipe 5). vm_compute. discriminate.
Defined.
