(* ===== verification/TaskService.v ===== *)
(** * The production task API

    The HTTP handlers of app/service/src/production_tasks.rs that enqueue, list, cancel and retry
    tasks. What a handler reads from the process (the capacity variable, the clock, the sequence
    number, the admission state, whether a lock is poisoned) is an argument. *)

From S2P Require Import Prelude Json Http Db Handler TaskStore Runtime.
From Stdlib Require Import Ascii.

Definition DEFAULT_QUEUE_CAPACITY : Z := 128.
Definition MAX_QUEUE_CAPACITY : Z := 4096.

(** production_tasks.rs [queue_capacity]; the argument is the environment variable. *)
Definition queue_capacity (variable : option string) : Z :=
  clamp (unwrap_or (match variable with Some value => parse_u64 value | None => None end)
                   DEFAULT_QUEUE_CAPACITY) 1 MAX_QUEUE_CAPACITY.

(** production_tasks.rs [normalize_kind]. *)
Definition normalize_kind (value : string) : option string :=
  let word := to_ascii_lowercase (trim value) in
  if one_of word ["capture"; "capture-once"; "capture_once"] then Some "capture-once"
  else if one_of word ["algorithm"; "algorithm-run"; "algorithm_run"] then Some "algorithm-run"
  else if one_of word ["steel-info"; "steel_info"; "steelinfo"; "info"] then Some "steel-info"
  else if one_of word ["steel-in"; "steel_in"; "steelin"; "in"] then Some "steel-in"
  else if one_of word ["steel-out"; "steel_out"; "steelout"; "out"] then Some "steel-out"
  else if one_of word ["trigger-event"; "trigger_event"; "triggerevent"; "event"] then Some "trigger-event"
  else None.

Definition chain_byte (a : ascii) : bool :=
  is_ascii_alphanumeric a || byte_is a 45 || byte_is a 95 || byte_is a 46 || byte_is a 58.

(** production_tasks.rs [valid_task_chain_id]. *)
Definition valid_task_chain_id (value : string) : bool :=
  negb (is_empty value) && (str_len value <=? 128) && all_bytes chain_byte value.

(** production_tasks.rs [normalize_dependency_policy]. *)
Definition normalize_dependency_policy (value : string) : option string :=
  let word := to_ascii_lowercase (trim value) in
  if one_of word [""; "require-success"; "require_success"] then Some "require-success"
  else if one_of word ["always-run"; "always_run"] then Some "always-run"
  else None.

(** production_tasks.rs [queued_kind_for_route]. *)
Definition queued_kind_for_route (method path : string) : option string :=
  if method != "POST" then None
  else if path == "/api/production/tasks/steel-info" then Some "steel-info"
  else if path == "/api/production/tasks/steel-in" then Some "steel-in"
  else if path == "/api/production/tasks/steel-out" then Some "steel-out"
  else if path == "/api/production/tasks/trigger-event" then Some "trigger-event"
  else None.

(** main.rs [ProductionTaskWorkerStatus]. *)
Record WorkerStatus := mkWorkerStatus {
  ws_running : bool;
  ws_current_task_id : string;
  ws_last_heartbeat_at : Z;
  ws_last_error : string;
  ws_recovered_tasks : Z;
}.

(** What a handler does besides the database: it wakes the worker. *)
Inductive TaskEvent :=
| WorkerNotified
| WorkerMarked (running : bool) (current_task_id last_error : option string)
| Executed (task_id : string).

(** What a handler reads of the process. *)
Record ServiceInputs := mkServiceInputs {
  si_capacity : option string;       (* STEEL_PRODUCTION_TASK_QUEUE_CAPACITY *)
  si_admin_lock : bool;              (* the task admin lock is not poisoned *)
  si_wakeup_lock : bool;             (* the wake-up lock is not poisoned *)
  si_admission : AdmissionCell;
  si_sequence : Z;                   (* production_task_sequence.fetch_add(1) *)
  si_now : Z;                        (* current_time_millis() for the id and the heartbeat age *)
  si_session_now : Z;                (* current_time_millis() for a generated session id *)
  si_worker : option WorkerStatus;   (* the worker status, unless its lock is poisoned *)
}.

(** main.rs [latest_open_material_session] of db/mod.rs. *)
Definition latest_open_material_session `{DbEnv} : DB (option MaterialSession) :=
  query (fun d => head (order_desc (fun m => (m_updated_at m, m_id m))
                          (List.filter (fun m => m_status m != "finished") (material_session d)))).

Section Service.
Context `{JsonCodec} `{DbEnv}.
Variable inputs : ServiceInputs.

Abbreviation Action := (Handler TaskEvent string).

Definition error_response (status : string) (code : Z) (error : string) : string :=
  json_response status (jobj [("code", jint code); ("error", JString error)]).
Definition server_error (error : DbErr) : string :=
  error_response "500 Internal Server Error" 500 (db_err_text error).

(** production_tasks.rs [task_json]. *)
Definition task_json (task : Task) : Value :=
  let result := if is_blank (t_result task) then JNull
                else unwrap_or (json_parse (t_result task)) (JString (t_result task)) in
  jobj [("id", JString (t_id task));
        ("taskId", JString (t_id task));
        ("idempotencyKey", JString (t_idempotency_key task));
        ("kind", JString (t_kind task));
        ("materialId", JString (t_material_id task));
        ("sessionId", JString (t_session_id task));
        ("chainId", JString (t_chain_id task));
        ("dependsOnTaskId", if is_empty (t_depends_on_task_id task) then JNull
                            else JString (t_depends_on_task_id task));
        ("dependencyPolicy", JString (t_dependency_policy task));
        ("blockedReason", JString (t_blocked_reason task));
        ("status", JString (t_status task));
        ("phase", JString (t_phase task));
        ("progress", jint (t_progress task));
        ("attempts", jint (t_attempts task));
        ("maxAttempts", jint (t_max_attempts task));
        ("cancelRequested", JBool (t_cancel_requested task));
        ("result", result);
        ("error", JString (t_error task));
        ("actor", JString (t_actor task));
        ("createdAt", JString (t_created_at task));
        ("startedAt", JString (t_started_at task));
        ("finishedAt", JString (t_finished_at task));
        ("updatedAt", JString (t_updated_at task))].

(** production_tasks.rs [worker_json]. *)
Definition worker_json : Value :=
  match si_worker inputs with
  | None =>
      jobj [("running", JBool false); ("activeTaskId", JString "worker_status_unavailable");
            ("lastHeartbeatAt", JNull); ("heartbeatAgeMs", JNull);
            ("lastError", JString "worker_status_unavailable"); ("recoveredTasks", JNull);
            ("capacity", jint (queue_capacity (si_capacity inputs)))]
  | Some status =>
      jobj [("running", JBool (ws_running status));
            ("activeTaskId", if is_empty (ws_current_task_id status) then JNull
                             else JString (ws_current_task_id status));
            ("lastHeartbeatAt", JString (dec (ws_last_heartbeat_at status)));
            ("heartbeatAgeMs", jint (if ws_last_heartbeat_at status =? 0 then 0
                                     else sat_sub (si_now inputs) (ws_last_heartbeat_at status)));
            ("lastError", JString (ws_last_error status));
            ("recoveredTasks", jint (ws_recovered_tasks status));
            ("capacity", jint (queue_capacity (si_capacity inputs)))]
  end.

(** production_tasks.rs [status_json]. *)
Definition status_json : Handler TaskEvent Value :=
  let* counted := block_on count_open_production_tasks in
  reply (jobj [("worker", worker_json);
               ("queueDepth", match counted with Ok n => jint n | Err _ => JNull end);
               ("queueDepthAvailable", JBool (is_ok counted));
               ("capacity", jint (queue_capacity (si_capacity inputs)))]).

(** production_tasks.rs [notify_worker]. *)
Definition notify_worker : Handler TaskEvent unit :=
  if si_wakeup_lock inputs then emit WorkerNotified else reply tt.

(** production_tasks.rs [task_target]: the material and the session a task is for. *)
Definition task_target (payload : Value) : Handler TaskEvent (string * string) :=
  let* open := block_on latest_open_material_session in
  let latest_open := match open with Ok o => o | Err _ => None end in
  let requested_material_id := material_id_from_payload payload "" in
  let* unresolved := block_on (latest_unresolved_production_task
    (if is_empty requested_material_id then None else Some requested_material_id)) in
  let latest_task := match unresolved with Ok t => t | Err _ => None end in
  let material_id :=
    if is_empty requested_material_id
    then unwrap_or (or_else (option_map m_material_id latest_open) (option_map t_material_id latest_task))
                   "unknown-material"
    else requested_material_id in
  let explicit_session_id := value_string payload ["sessionId"; "session_id"] in
  let session_id :=
    if is_empty explicit_session_id
    then unwrap_or
           (or_else (option_map m_id (filter_opt (fun m => m_material_id m == material_id) latest_open))
                    (option_map t_session_id (filter_opt (fun t => t_material_id t == material_id) latest_task)))
           (session_id_from_payload payload material_id (si_session_now inputs))
    else explicit_session_id in
  reply (material_id, session_id).

Definition admin_lock_poisoned : string :=
  error_response "503 Service Unavailable" 503 "production_task_admin_lock_poisoned".

(** ** Enqueueing *)

(** A well-formed enqueue request. *)
Record EnqueueRequest := mkEnqueueRequest {
  er_kind : string;
  er_payload : Value;
  er_chain : string;
  er_dependency : string;
  er_policy_value : string;
  er_policy : string;
  er_key : string;           (* kind:key, or empty *)
  er_max_attempts : Z;
}.

(** The checks of [enqueue_response] before it takes the admin lock. *)
Definition parse_enqueue (body : string) : Result EnqueueRequest string :=
  match filter_opt is_object (json_parse (trim body)) with
  | None => Err (error_response "400 Bad Request" 400 "invalid_production_task_json")
  | Some request =>
      match normalize_kind (value_string request ["kind"; "type"; "command"]) with
      | None => Err (json_response "400 Bad Request"
          (jobj [("code", jint 400); ("error", JString "unsupported_production_task_kind");
                 ("supportedKinds", JArray (map JString
                    ["capture-once"; "algorithm-run"; "steel-info"; "steel-in"; "steel-out"; "trigger-event"]))]))
      | Some kind =>
          let payload := unwrap_or (jget "payload" request) (JObject []) in
          if negb (is_object payload)
          then Err (error_response "400 Bad Request" 400 "production_task_payload_must_be_object")
          else
            let chain := value_string request ["chainId"; "chain_id"] in
            let dependency := value_string request ["dependsOnTaskId"; "depends_on_task_id"; "dependsOn"] in
            if str_len dependency >? 128
            then Err (error_response "400 Bad Request" 400 "dependency_task_id_too_long")
            else
              let policy_value := value_string request ["dependencyPolicy"; "dependency_policy"] in
              match normalize_dependency_policy policy_value with
              | None => Err (json_response "400 Bad Request"
                  (jobj [("code", jint 400); ("error", JString "invalid_dependency_policy");
                         ("supportedPolicies", JArray (map JString ["require-success"; "always-run"]))]))
              | Some policy =>
                  if (policy == "always-run") && (kind != "trigger-event")
                  then Err (json_response "400 Bad Request"
                      (jobj [("code", jint 400);
                             ("error", JString "always_run_not_allowed_for_safety_critical_task");
                             ("kind", JString kind)]))
                  else
                    let raw_key := value_string request
                      ["idempotencyKey"; "idempotency_key"; "requestId"; "request_id"] in
                    if str_len raw_key >? 160
                    then Err (error_response "400 Bad Request" 400 "idempotency_key_too_long")
                    else
                      let max_attempts :=
                        clamp (unwrap_or (match or_else (jget "maxAttempts" request) (jget "max_attempts" request) with
                                          | Some v => as_i64 v
                                          | None => None
                                          end) 1) 1 10 in
                      let key := if is_blank raw_key then "" else kind +:+ ":" +:+ trim raw_key in
                      Ok (mkEnqueueRequest kind payload chain dependency policy_value policy key max_attempts)
              end
      end
  end.

(** The lookup of the idempotency key: the answer to a repeated request. *)
Definition replayed_task (r : EnqueueRequest) : Handler TaskEvent (option string) :=
  if is_empty (er_key r) then reply None
  else
    let* found := block_on (find_production_task_by_idempotency_key (er_key r)) in
    match found with
    | Ok (Some existing) =>
        if (t_kind existing != er_kind r)
           || (t_payload existing != json_print (er_payload r))
           || (negb (is_empty (er_chain r)) && (t_chain_id existing != er_chain r))
           || (negb (is_empty (er_dependency r)) && (t_depends_on_task_id existing != er_dependency r))
           || (negb (is_empty (er_policy_value r)) && (t_dependency_policy existing != er_policy r))
        then reply (Some (json_response "409 Conflict"
               (jobj [("code", jint 409); ("error", JString "idempotency_conflict");
                      ("task", task_json existing)])))
        else reply (Some (json_response "200 OK"
               (jobj [("code", jint 0); ("duplicate", JBool true); ("task", task_json existing)])))
    | Ok None => reply None
    | Err error => reply (Some (server_error error))
    end.

(** The drain and the capacity of the queue. *)
Definition admit_task (r : EnqueueRequest) : Handler TaskEvent (option string) :=
  if runtime_is_draining (si_admission inputs) && (er_kind r != "steel-out")
  then reply (Some (json_response "503 Service Unavailable"
         (jobj [("code", jint 503); ("error", JString "runtime_draining"); ("kind", JString (er_kind r));
                ("admission", runtime_drain_status_json (si_admission inputs))])))
  else
    let* counted := block_on count_open_production_tasks in
    match counted with
    | Err error => reply (Some (server_error error))
    | Ok open_tasks =>
        if open_tasks >=? queue_capacity (si_capacity inputs)
        then reply (Some (json_response "429 Too Many Requests"
               (jobj [("code", jint 429); ("error", JString "production_task_queue_full");
                      ("queueDepth", jint open_tasks);
                      ("capacity", jint (queue_capacity (si_capacity inputs)))])))
        else reply None
    end.

(** The chain of the task: that of its session, or the one it names. *)
Definition resolve_chain (r : EnqueueRequest) (session_id : string) : Handler TaskEvent (Result string string) :=
  if negb (is_empty (er_chain r)) && negb (valid_task_chain_id (er_chain r))
  then reply (Err (error_response "400 Bad Request" 400 "invalid_production_chain_id"))
  else
    let* latest := block_on (latest_production_task_for_session session_id) in
    match latest with
    | Err error => reply (Err (server_error error))
    | Ok latest_session_task =>
        let chain_id :=
          if is_empty (er_chain r)
          then unwrap_or (filter_opt (fun value => negb (is_empty value))
                            (option_map t_chain_id latest_session_task)) session_id
          else er_chain r in
        if is_some_and latest_session_task (fun t => negb (is_empty (t_chain_id t)) && (t_chain_id t != chain_id))
        then reply (Err (json_response "409 Conflict"
               (jobj [("code", jint 409); ("error", JString "production_session_chain_mismatch");
                      ("existingChainId", match latest_session_task with
                                          | Some t => JString (t_chain_id t)
                                          | None => JNull
                                          end);
                      ("requestedChainId", JString chain_id)])))
        else reply (Ok chain_id)
    end.

(** The task it depends on: the one it names, or the last one of its chain, in the same chain,
    session and material. *)
Definition resolve_dependency (r : EnqueueRequest) (material_id session_id chain_id : string)
    : Handler TaskEvent (Result string string) :=
  let* chosen :=
    (if negb (is_empty (er_dependency r)) then reply (Ok (er_dependency r))
     else if er_kind r == "trigger-event" then reply (Ok "")
     else
       let* latest := block_on (latest_production_task_in_chain chain_id) in
       reply (match latest with
              | Ok (Some task) => Ok (t_id task)
              | Ok None => Ok ""
              | Err error => Err (server_error error)
              end)) in
  match chosen with
  | Err response => reply (Err response)
  | Ok depends_on_task_id =>
      if is_empty depends_on_task_id then reply (Ok "")
      else
        let* found := block_on (find_production_task depends_on_task_id) in
        match found with
        | Err error => reply (Err (server_error error))
        | Ok None => reply (Err (json_response "409 Conflict"
            (jobj [("code", jint 409); ("error", JString "production_task_dependency_not_found");
                   ("dependsOnTaskId", JString depends_on_task_id)])))
        | Ok (Some dependency) =>
            if (t_chain_id dependency != chain_id) || (t_session_id dependency != session_id)
               || (t_material_id dependency != material_id)
            then reply (Err (json_response "409 Conflict"
                   (jobj [("code", jint 409); ("error", JString "production_task_dependency_chain_mismatch");
                          ("dependsOnTaskId", JString (t_id dependency))])))
            else reply (Ok depends_on_task_id)
        end
  end.

(** The insertion of the task, the audit record and the wake-up. *)
Definition insert_task (r : EnqueueRequest) (actor material_id session_id chain_id depends : string) : Action :=
  let task_id := "TASK-" +:+ dec (si_now inputs) +:+ "-" +:+ pad_zero 20 (dec (si_sequence inputs)) in
  let stored_key := if is_empty (er_key r) then er_kind r +:+ ":" +:+ task_id else er_key r in
  let* inserted := block_on (insert_production_task
    {| in_id := task_id; in_idempotency_key := stored_key; in_kind := er_kind r;
       in_material_id := material_id; in_session_id := session_id; in_chain_id := chain_id;
       in_depends_on_task_id := depends; in_dependency_policy := er_policy r;
       in_payload := json_print (er_payload r); in_actor := actor; in_max_attempts := er_max_attempts r |}) in
  match inserted with
  | Err error => reply (server_error error)
  | Ok task =>
      let* _ := block_on (append_audit_log actor "production.task.enqueue" (t_id task)
        ("queued " +:+ t_kind task +:+ " for " +:+ t_material_id task) "info") in
      let* _ := notify_worker in
      reply (json_response "202 Accepted"
        (jobj [("code", jint 0); ("duplicate", JBool false); ("task", task_json task)]))
  end.

(** production_tasks.rs [enqueue_response]. *)
Definition enqueue_response (body actor : string) : Action :=
  match parse_enqueue body with
  | Err response => reply response
  | Ok r =>
      if negb (si_admin_lock inputs) then reply admin_lock_poisoned
      else
        let* replayed := replayed_task r in
        match replayed with
        | Some response => reply response
        | None =>
            let* refused := admit_task r in
            match refused with
            | Some response => reply response
            | None =>
                let* target := task_target (er_payload r) in
                let '(material_id, session_id) := target in
                let* chain := resolve_chain r session_id in
                match chain with
                | Err response => reply response
                | Ok chain_id =>
                    let* dependency := resolve_dependency r material_id session_id chain_id in
                    match dependency with
                    | Err response => reply response
                    | Ok depends => insert_task r actor material_id session_id chain_id depends
                    end
                end
            end
        end
  end.

(** production_tasks.rs [enqueue_kind_response]. *)
Definition enqueue_kind_response (kind body actor : string) : Action :=
  match filter_opt is_object (json_parse (trim body)) with
  | None => reply (error_response "400 Bad Request" 400 "invalid_production_task_payload")
  | Some payload =>
      let max_attempts :=
        clamp (unwrap_or (match or_else (jget "maxAttempts" payload) (jget "max_attempts" payload) with
                          | Some v => as_i64 v
                          | None => None
                          end) 1) 1 10 in
      enqueue_response
        (json_print (jobj
          [("kind", JString kind);
           ("idempotencyKey", JString (value_string payload
              ["idempotencyKey"; "idempotency_key"; "requestId"; "request_id"]));
           ("maxAttempts", jint max_attempts);
           ("chainId", JString (value_string payload ["chainId"; "chain_id"]));
           ("dependsOnTaskId", JString (value_string payload
              ["dependsOnTaskId"; "depends_on_task_id"; "dependsOn"]));
           ("dependencyPolicy", JString (value_string payload ["dependencyPolicy"; "dependency_policy"]));
           ("payload", payload)]))
        actor
  end.

(** ** Reading and acting on tasks *)

(** production_tasks.rs [list_response]; [None] is a panic of the query decoder. *)
Definition list_response (query : string) : option Action :=
  match query_value query "limit", query_value query "offset",
        query_value query "status", query_value query "kind" with
  | Some limit, Some offset, Some status, Some kind =>
      let number (o : option string) : option Z := match o with Some v => parse_u64 v | None => None end in
      Some (
        let* listed := block_on (list_production_tasks
          (mkProductionTaskFilter status kind (number limit) (Some (unwrap_or (number offset) 0)))) in
        match listed with
        | Ok page => reply (json_response "200 OK"
            (jobj [("code", jint 0); ("total", jint (p_total page)); ("limit", jint (p_limit page));
                   ("offset", jint (p_offset page)); ("tasks", JArray (map task_json (p_tasks page)));
                   ("taskWorker", worker_json)]))
        | Err error => reply (server_error error)
        end)
  | _, _, _, _ => None
  end.

(** production_tasks.rs [detail_response]. *)
Definition detail_response (query : string) : option Action :=
  match query_value query "id" with
  | None => None
  | Some id =>
      let id := unwrap_or id "" in
      Some (if is_blank id then reply (error_response "400 Bad Request" 400 "production_task_id_required")
            else
              let* found := block_on (find_production_task (trim id)) in
              match found with
              | Ok (Some task) => reply (json_response "200 OK" (jobj [("code", jint 0); ("task", task_json task)]))
              | Ok None => reply (error_response "404 Not Found" 404 "production_task_not_found")
              | Err error => reply (server_error error)
              end)
  end.

(** production_tasks.rs [task_id_from_body]. *)
Definition task_id_from_body (body : string) : Result string string :=
  match json_parse (trim body) with
  | None => Err (error_response "400 Bad Request" 400 "invalid_production_task_action_json")
  | Some payload =>
      let id := value_string payload ["taskId"; "task_id"; "id"] in
      if is_blank id then Err (error_response "400 Bad Request" 400 "production_task_id_required") else Ok id
  end.

(** The lookup both actions start with. *)
Definition with_task (id : string) (k : Task -> Action) : Action :=
  let* found := block_on (find_production_task id) in
  match found with
  | Ok (Some task) => k task
  | Ok None => reply (error_response "404 Not Found" 404 "production_task_not_found")
  | Err error => reply (server_error error)
  end.

(** production_tasks.rs [cancel_response]. *)
Definition cancel_response (body actor : string) : Action :=
  match task_id_from_body body with
  | Err response => reply response
  | Ok id =>
      if negb (si_admin_lock inputs) then reply admin_lock_poisoned
      else with_task id (fun existing =>
        if production_task_status_is_terminal (t_status existing)
        then reply (json_response "409 Conflict"
               (jobj [("code", jint 409); ("error", JString "production_task_is_terminal");
                      ("task", task_json existing)]))
        else
          let* cancelled := block_on (request_cancel_production_task id) in
          match cancelled with
          | Ok (Some task) =>
              let* _ := block_on (append_audit_log actor "production.task.cancel" (t_id task)
                                    "cancellation requested" "warning") in
              let* _ := notify_worker in
              reply (json_response (if t_status task == "running" then "202 Accepted" else "200 OK")
                       (jobj [("code", jint 0); ("task", task_json task)]))
          | Ok None => reply (error_response "404 Not Found" 404 "production_task_not_found")
          | Err error => reply (server_error error)
          end)
  end.

(** production_tasks.rs [retry_response]. *)
Definition retry_response (body actor : string) : Action :=
  match task_id_from_body body with
  | Err response => reply response
  | Ok id =>
      if negb (si_admin_lock inputs) then reply admin_lock_poisoned
      else with_task id (fun existing =>
        if negb (unsuccessful (t_status existing))
        then reply (json_response "409 Conflict"
               (jobj [("code", jint 409); ("error", JString "production_task_not_retryable");
                      ("task", task_json existing)]))
        else
          let* retried := block_on (retry_production_task id) in
          match retried with
          | Ok (Some task) =>
              if t_status task == "blocked"
              then reply (json_response "409 Conflict"
                     (jobj [("code", jint 409); ("error", JString "production_task_dependency_unresolved");
                            ("task", task_json task)]))
              else
                let* _ := block_on (append_audit_log actor "production.task.retry" (t_id task)
                  ("explicit retry after " +:+ dec (t_attempts task) +:+ " attempt(s)") "warning") in
                let* _ := notify_worker in
                reply (json_response "202 Accepted" (jobj [("code", jint 0); ("task", task_json task)]))
          | Ok None => reply (error_response "404 Not Found" 404 "production_task_not_found")
          | Err error => reply (server_error error)
          end)
  end.

End Service.
