(* ===== verification/TaskEnqueue.v ===== *)
(** * Enqueueing a production task

    [enqueue_response] of production_tasks.rs, undisturbed, against a specification of its own: which
    requests are accepted, and which row an accepted one becomes. *)

From S2P Require Import Prelude Json Http Db Handler TaskStore TaskInvariant TaskGraph TaskOps Runtime TaskService.

(** The same database and events: nothing anybody could notice. *)
Definition unchanged {E} (w w' : World E) : Prop :=
  db (w_db w') = db (w_db w) /\ w_events w' = w_events w.

#[export] Instance unchanged_preorder {E} : PreOrder (@unchanged E).
Proof. split; [done|]. intros w1 w2 w3 [? ?] [? ?]. split; congruence. Qed.

(** ** The specification *)

Definition open_tasks (ts : list Task) : Z := count_where (fun t => open_status (t_status t)) ts.

(** The newest row that satisfies a condition. *)
Definition newest {R} (key : R -> string * string) (p : R -> bool) (l : list R) : option R :=
  head (order_desc key (List.filter p l)).

Section Specification.
Context `{JsonCodec}.

(** The request a well-formed body stands for. *)
Record well_formed (body : string) (request : Value) (r : EnqueueRequest) : Prop := {
  wf_body : json_parse (trim body) = Some request /\ is_object request = true;
  wf_kind : normalize_kind (value_string request ["kind"; "type"; "command"]) = Some (er_kind r);
  wf_payload : is_object (er_payload r) = true /\
    (jget "payload" request = Some (er_payload r) \/ jget "payload" request = None /\ er_payload r = JObject []);
  wf_chain : er_chain r = value_string request ["chainId"; "chain_id"];
  wf_dependency : er_dependency r = value_string request ["dependsOnTaskId"; "depends_on_task_id"; "dependsOn"] /\
    str_len (er_dependency r) <= 128;
  wf_policy : er_policy_value r = value_string request ["dependencyPolicy"; "dependency_policy"] /\
    normalize_dependency_policy (er_policy_value r) = Some (er_policy r) /\
    (er_policy r = "always-run" -> er_kind r = "trigger-event");
  wf_key : exists raw, raw = value_string request ["idempotencyKey"; "idempotency_key"; "requestId"; "request_id"] /\
    str_len raw <= 160 /\ (is_blank raw = true -> er_key r = "") /\ (is_blank raw = false -> er_key r = er_kind r +:+ ":" +:+ trim raw);
  wf_attempts : er_max_attempts r = clamp (unwrap_or (match or_else (jget "maxAttempts" request) (jget "max_attempts" request) with
    | Some v => as_i64 v | None => None end) 1) 1 10;
}.

(** The material and the session a request is for: what it names; else those of the newest session that is
    still open; else those of the newest task of the material that has not succeeded. *)
Definition open_session (d : Database) : option MaterialSession :=
  newest (fun m => (m_updated_at m, m_id m)) (fun m => m_status m != "finished") (material_session d).
Definition pending_task (payload : Value) (d : Database) : option Task :=
  let asked := material_id_from_payload payload "" in
  newest task_key (fun t => one_of (t_status t) ["queued"; "running"; "failed"; "cancelled"; "interrupted"; "blocked"]
                            && (is_blank asked || (t_material_id t == asked))) (production_task d).

Definition material_of (payload : Value) (d : Database) (material : string) : Prop :=
  let asked := material_id_from_payload payload "" in
  if is_empty asked
  then match open_session d, pending_task payload d with
       | Some m, _ => material = m_material_id m
       | None, Some t => material = t_material_id t
       | None, None => material = "unknown-material"
       end
  else material = asked.

Definition session_of (now : Z) (payload : Value) (d : Database) (material session : string) : Prop :=
  let asked := value_string payload ["sessionId"; "session_id"] in
  if is_empty asked
  then (forall m, open_session d = Some m -> m_material_id m = material -> session = m_id m) /\
       ((forall m, open_session d = Some m -> m_material_id m <> material) ->
          (forall t, pending_task payload d = Some t -> t_material_id t = material -> session = t_session_id t) /\
          ((forall t, pending_task payload d = Some t -> t_material_id t <> material) -> session = session_id_from_payload payload material now))
  else session = asked.

(** The chain: the one the request names, which has to be the one of its session; else that of its session;
    else one named like the session. *)
Definition chain_of (r : EnqueueRequest) (d : Database) (session chain : string) : Prop :=
  let last := if is_blank session then None else newest task_key (fun t => t_session_id t == session) (production_task d) in
  (er_chain r <> "" -> valid_task_chain_id (er_chain r) = true /\ chain = er_chain r) /\
  (forall t, last = Some t -> t_chain_id t <> "" -> chain = t_chain_id t) /\
  (er_chain r = "" -> (forall t, last = Some t -> t_chain_id t = "") -> chain = session).

(** The dependency: the task the request names; else, unless it is a trigger event, the newest task of the
    chain. It has to be a task of the same chain, session and material. *)
Definition depends_of (r : EnqueueRequest) (d : Database) (material session chain depends : string) : Prop :=
  let last := if is_blank chain then None else newest task_key (fun t => t_chain_id t == chain) (production_task d) in
  (er_dependency r <> "" -> depends = er_dependency r) /\
  (er_dependency r = "" -> er_kind r = "trigger-event" -> depends = "") /\
  (er_dependency r = "" -> er_kind r <> "trigger-event" -> depends = match last with Some t => t_id t | None => "" end) /\
  (depends <> "" -> exists t, List.find (task_with_id depends) (production_task d) = Some t /\
     t_chain_id t = chain /\ t_session_id t = session /\ t_material_id t = material).

Definition task_name (inputs : ServiceInputs) : string :=
  "TASK-" +:+ dec (si_now inputs) +:+ "-" +:+ pad_zero 20 (dec (si_sequence inputs)).
Definition key_of (inputs : ServiceInputs) (r : EnqueueRequest) : string :=
  if is_empty (er_key r) then er_kind r +:+ ":" +:+ task_name inputs else er_key r.

(** What is accepted, into which material, session, chain and behind which task. *)
Record acceptable (inputs : ServiceInputs) (body : string) (d : Database) (r : EnqueueRequest)
    (material session chain depends : string) : Prop := {
  ac_request : exists request, well_formed body request r;
  ac_lock : si_admin_lock inputs = true;
  ac_drain : runtime_is_draining (si_admission inputs) = true -> er_kind r = "steel-out";
  ac_capacity : open_tasks (production_task d) < queue_capacity (si_capacity inputs);
  ac_key : ~ In (key_of inputs r) (map t_idempotency_key (production_task d));
  ac_id : ~ In (task_name inputs) (map t_id (production_task d));
  ac_material : material_of (er_payload r) d material;
  ac_session : session_of (si_session_now inputs) (er_payload r) d material session;
  ac_chain : chain_of r d session chain;
  ac_depends : depends_of r d material session chain depends;
}.

(** The row of an accepted request. *)
Record queued_row (inputs : ServiceInputs) (r : EnqueueRequest) (actor material session chain depends : string) (row : Task) : Prop := {
  qr_id : t_id row = task_name inputs;
  qr_key : t_idempotency_key row = key_of inputs r;
  qr_request : t_kind row = er_kind r /\ t_payload row = json_print (er_payload r) /\ t_dependency_policy row = er_policy r;
  qr_place : t_material_id row = material /\ t_session_id row = session /\ t_chain_id row = chain /\ t_depends_on_task_id row = depends;
  qr_status : t_status row = "queued" /\ t_phase row = "queued" /\ t_blocked_reason row = "" /\ t_cancel_requested row = false;
  qr_attempts : t_progress row = 0 /\ t_attempts row = 0 /\ t_max_attempts row = er_max_attempts r;
  qr_outcome : t_result row = "" /\ t_error row = "" /\ t_started_at row = "" /\ t_finished_at row = "";
  qr_actor : t_actor row = actor /\ t_created_at row <> "" /\ t_updated_at row = t_created_at row;
}.

End Specification.

(** ** Parsing *)

Section Parse.
Context `{JsonCodec}.

Lemma parse_enqueue_spec body r : parse_enqueue body = Ok r <-> exists request, well_formed body request r.
Proof.
  unfold parse_enqueue. split.
  - destruct (json_parse (trim body)) as [request|] eqn:E1; [|done]. simpl. destruct (is_object request) eqn:E2; [|done].
    destruct (normalize_kind _) as [kind|] eqn:E3; [|done]. destruct (is_object (unwrap_or _ _)) eqn:E4; [|done]. cbn [negb].
    destruct (_ >? 128) eqn:E5; [done|]. destruct (normalize_dependency_policy _) as [policy|] eqn:E6; [|done].
    destruct ((policy == "always-run") && _) eqn:E7; [done|]. destruct (_ >? 160) eqn:E8; [done|]. intros [= <-].
    exists request. split; cbn [er_kind er_payload er_chain er_dependency er_policy_value er_policy er_key er_max_attempts]; try done.
    + split; [done|]. destruct (jget "payload" request); [by left|by right].
    + split; [done|]. lia.
    + split_and!; [done..|]. intros ->. simpl in E7. by apply negb_false_iff, String.eqb_eq in E7.
    + eexists. split; [done|]. split; [lia|]. split; intros ->; done.
  - intros (request & [[E1 E2] E3 [E4 E5] E6 [E7 E8] (E9 & E10 & E11) (raw & -> & E12 & E13 & E14) E15]).
    rewrite E1. simpl. rewrite E2, E3.
    replace (unwrap_or (jget "payload" request) (JObject [])) with (er_payload r) by (destruct E5 as [->|[-> ->]]; done).
    rewrite E4, <- E7, <- E9, E10. cbn [negb]. destruct (Z.gtb_spec (str_len (er_dependency r)) 128); [lia|].
    destruct (Z.gtb_spec (str_len (value_string request ["idempotencyKey"; "idempotency_key"; "requestId"; "request_id"])) 160); [lia|].
    destruct ((er_policy r == "always-run") && (er_kind r != "trigger-event")) eqn:Ep.
    { apply andb_true_iff in Ep as [Ep%String.eqb_eq Ek]. rewrite (E11 Ep) in Ek. done. }
    f_equal. rewrite <- E6, <- E15. destruct (is_blank _) eqn:Eb; [rewrite <- (E13 eq_refl)|rewrite <- (E14 eq_refl)]; by destruct r.
Qed.
End Parse.

(** ** The stages of a request *)

Lemma filter_filter_and {A} (p q : A -> bool) l : List.filter p (List.filter q l) = List.filter (fun x => q x && p x) l.
Proof. induction l as [|x l IH]; [done|]. simpl. destruct (q x) eqn:E; simpl; [destruct (p x); by rewrite IH|done]. Qed.

Lemma and_iff_compat (a b c d : Prop) : (a <-> b) -> (c <-> d) -> (a /\ c <-> b /\ d).
Proof. tauto. Qed.

Lemma session_choice (open : option MaterialSession) (pending : option Task) material session fresh :
  (forall m, open = Some m -> m_material_id m = material -> session = m_id m) /\
  ((forall m, open = Some m -> m_material_id m <> material) ->
     (forall t, pending = Some t -> t_material_id t = material -> session = t_session_id t) /\
     ((forall t, pending = Some t -> t_material_id t <> material) -> session = fresh)) <->
  unwrap_or (or_else (option_map m_id (filter_opt (fun m => m_material_id m == material) open))
               (option_map t_session_id (filter_opt (fun t => t_material_id t == material) pending))) fresh = session.
Proof.
  destruct open as [m|]; simpl; [destruct (String.eqb_spec (m_material_id m) material)|]; simpl; [naive_solver|..];
    (destruct pending as [t|]; simpl; [destruct (String.eqb_spec (t_material_id t) material)|]; simpl); naive_solver.
Qed.

Section Quiet.
Context `{JsonCodec} `{Quiet}.
Variable inputs : ServiceInputs.

Lemma hwp_replayed r w : hwp (replayed_task r) (fun answer w' => unchanged w w' /\
  (is_some answer = true -> er_key r <> "" /\ In (er_key r) (map t_idempotency_key (production_task (db (w_db w)))))) w.
Proof.
  unfold replayed_task. destruct (is_empty (er_key r)) eqn:E; [by apply hwp_reply|]. apply is_empty_false in E. apply hwp_bind.
  unfold find_production_task_by_idempotency_key. destruct (is_blank _).
  - eexists _, _. split; [reflexivity|]. by apply hwp_reply.
  - apply hwp_query. intros w' Hd He. destruct (head _) as [t|] eqn:Ht; [|by apply hwp_reply].
    assert (Hin : In (er_key r) (map t_idempotency_key (production_task (db (w_db w))))).
    { unfold order_desc in Ht. pose proof (merge_sort_Permutation (desc_le (fun t => (t_created_at t, "")))
        (List.filter (fun t => t_idempotency_key t == er_key r) (production_task (db (w_db w))))) as Hp.
      destruct (merge_sort _ _) as [|x l]; [done|]. injection Ht as ->.
      assert (Hi : t ∈ List.filter (fun t => t_idempotency_key t == er_key r) (production_task (db (w_db w)))) by (rewrite <- Hp; set_solver).
      apply list_elem_of_In, filter_In in Hi as [Hi Ek%String.eqb_eq]. rewrite <- Ek. by apply in_map. }
    destruct (_ || _); by apply hwp_reply.
Qed.

Lemma hwp_admit r w : hwp (admit_task inputs r) (fun refused w' => unchanged w w' /\
  (refused = None <-> (runtime_is_draining (si_admission inputs) = true -> er_kind r = "steel-out") /\
            open_tasks (production_task (db (w_db w))) < queue_capacity (si_capacity inputs))) w.
Proof.
  unfold admit_task. destruct (runtime_is_draining _ && _) eqn:Hd.
  { apply hwp_reply. split; [done|]. split; [done|]. intros [Hk _]. apply andb_true_iff in Hd as [Hd Hn]. rewrite (Hk Hd) in Hn. done. }
  apply hwp_bind, hwp_query. intros w' Hw He. fold (open_tasks (production_task (db (w_db w)))).
  destruct (open_tasks _ >=? _) eqn:Hc; apply hwp_reply; (split; [done|]).
  - split; [done|]. intros [_ ?]. lia.
  - split; [|done]. intros _. split; [|lia]. intros E. rewrite E in Hd. simpl in Hd. by apply negb_false_iff, String.eqb_eq in Hd.
Qed.

Lemma hwp_target payload w : hwp (task_target inputs payload) (fun target w' => unchanged w w' /\
  forall material session, material_of payload (db (w_db w)) material /\ session_of (si_session_now inputs) payload (db (w_db w)) material session
    <-> target = (material, session)) w.
Proof.
  unfold task_target. apply hwp_bind, hwp_query. intros w1 Hd1 He1. apply hwp_bind, hwp_query.
  intros w2 Hd2 He2. apply hwp_reply. split; [split; congruence|]. rewrite Hd1. set (d := db (w_db w)). cbv beta zeta.
  fold (newest (fun m => (m_updated_at m, m_id m)) (fun m => m_status m != "finished") (material_session d)).
  match goal with |- context [head (order_desc task_key ?rows)] =>
    assert (Hpending : head (order_desc task_key rows) = pending_task payload d) end.
  { unfold pending_task, newest. set (asked := material_id_from_payload payload ""). f_equal. f_equal.
    destruct (is_empty asked) eqn:Ea.
    - apply is_empty_true in Ea as ->. simpl. apply filter_ext. intros t. by rewrite andb_true_r.
    - simpl. destruct (is_blank asked); simpl; [apply filter_ext; intros t; by rewrite andb_true_r|apply filter_filter_and]. }
  rewrite Hpending. unfold material_of, session_of. fold (open_session d). generalize (open_session d) (pending_task payload d). intros open pending.
  intros material session. match goal with |- context [filter_opt (fun m => m_material_id m == ?m0) open] => set (chosen := m0) end.
  transitivity (chosen = material /\ (if is_empty (value_string payload ["sessionId"; "session_id"])
    then unwrap_or (or_else (option_map m_id (filter_opt (fun m => m_material_id m == material) open))
           (option_map t_session_id (filter_opt (fun t => t_material_id t == material) pending))) (session_id_from_payload payload material (si_session_now inputs))
    else value_string payload ["sessionId"; "session_id"]) = session).
  - apply and_iff_compat.
    + subst chosen. destruct (is_empty _); [destruct open, pending|]; simpl; split; congruence.
    + destruct (is_empty (value_string _ _)); [apply session_choice|]. split; congruence.
  - split; [by intros [-> <-]|]. intros [= -> <-]. done.
Qed.

Lemma hwp_chain r session w : hwp (resolve_chain r session) (fun answer w' => unchanged w w' /\
  forall chain, chain_of r (db (w_db w)) session chain <-> answer = Ok chain) w.
Proof.
  unfold resolve_chain, chain_of. destruct (is_empty (er_chain r)) eqn:Ec; simpl negb.
  - apply is_empty_true in Ec. rewrite Ec. cbn [andb]. apply hwp_bind. set (last := if is_blank session then None else _).
    match goal with |- hwp _ ?Q w => assert (Hgo : forall w', unchanged w w' -> Q (Ok last) w') end.
    { intros w' Hw. cbv beta iota.
      destruct (is_some_and last _) eqn:Em; apply hwp_reply; (split; [done|]); intros chain.
      - exfalso. destruct last as [t|]; [|done]. simpl in Em. destruct (is_empty (t_chain_id t)) eqn:Et; [done|]. simpl in Em.
        by rewrite String.eqb_refl in Em.
      - destruct last as [t|]; simpl in *.
        + destruct (is_empty (t_chain_id t)) eqn:Et; simpl in *.
          * apply is_empty_true in Et. split; [|intros [= <-]; split_and!; naive_solver]. intros (_ & _ & Hc). f_equal. symmetry. apply Hc; [done|]. by intros ? [= <-].
          * apply is_empty_false in Et. split; [|intros [= <-]; split_and!; naive_solver]. intros (_ & Hc & _). f_equal. symmetry. by apply Hc.
        + split; [|intros [= <-]; split_and!; naive_solver]. intros (_ & _ & Hc). f_equal. symmetry. by apply Hc. }
    unfold latest_production_task_for_session. subst last. destruct (is_blank session).
    + eexists _, _. split; [reflexivity|]. by apply Hgo.
    + apply hwp_query. intros w' Hd He. by apply Hgo.
  - pose proof (proj1 (is_empty_false _) Ec) as Ec'. destruct (valid_task_chain_id (er_chain r)) eqn:Ev; simpl negb; cbn [andb].
    2:{ apply hwp_reply. split; [done|]. intros chain. split; [|done]. intros [Hv _]. by destruct (Hv Ec'). }
    apply hwp_bind. set (last := if is_blank session then None else _).
    match goal with |- hwp _ ?Q w => assert (Hgo : forall w', unchanged w w' -> Q (Ok last) w') end.
    { intros w' Hw. cbv beta iota.
      destruct (is_some_and last _) eqn:Em; apply hwp_reply; (split; [done|]); intros chain.
      - split; [|done]. intros (Hv & Hl & _). destruct (Hv Ec') as [_ ->]. destruct last as [t|]; [|done]. simpl in Em.
        apply andb_true_iff in Em as [Et%negb_true_iff Em]. apply is_empty_false in Et. rewrite <- (Hl t eq_refl Et), String.eqb_refl in Em. done.
      - split.
        + intros (Hv & _). by destruct (Hv Ec') as [_ ->].
        + intros [= <-]. split_and!; [done| |done]. intros t -> Ht. simpl in Em. apply andb_false_iff in Em as [Em|Em].
          * apply negb_false_iff, is_empty_true in Em. done.
          * by apply negb_false_iff, String.eqb_eq in Em. }
    unfold latest_production_task_for_session. subst last. destruct (is_blank session).
    + eexists _, _. split; [reflexivity|]. by apply Hgo.
    + apply hwp_query. intros w' Hd He. by apply Hgo.
Qed.

(** The second half of [resolve_dependency]: the chosen task is looked up and compared. *)
Lemma hwp_check_dependency material session chain chosen (w : World TaskEvent) :
  hwp (if is_empty chosen then reply (Ok "")
       else
         let* found := block_on (find_production_task chosen) in
         match found with
         | Err error => reply (Err (server_error error))
         | Ok None => reply (Err (json_response "409 Conflict"
             (jobj [("code", jint 409); ("error", JString "production_task_dependency_not_found");
                    ("dependsOnTaskId", JString chosen)])))
         | Ok (Some dependency) =>
             if (t_chain_id dependency != chain) || (t_session_id dependency != session)
                || (t_material_id dependency != material)
             then reply (Err (json_response "409 Conflict"
                    (jobj [("code", jint 409); ("error", JString "production_task_dependency_chain_mismatch");
                           ("dependsOnTaskId", JString (t_id dependency))])))
             else reply (Ok chosen)
         end)
      (fun answer w' => unchanged w w' /\ forall depends, answer = Ok depends <->
         depends = chosen /\ (depends <> "" -> exists t, List.find (task_with_id depends) (production_task (db (w_db w))) = Some t /\
           t_chain_id t = chain /\ t_session_id t = session /\ t_material_id t = material)) w.
Proof.
  destruct (is_empty chosen) eqn:He.
  - apply is_empty_true in He as ->. apply hwp_reply. split; [done|]. intros depends. split; [by intros [= <-]|by intros [-> _]].
  - apply is_empty_false in He. apply hwp_bind, hwp_query. intros w' Hd Hev.
    destruct (List.find _ _) as [t|] eqn:Hf.
    + destruct (_ || _ || _) eqn:Hm; apply hwp_reply; (split; [done|]); intros depends.
      * split; [done|]. intros [-> Hx]. destruct (Hx He) as (t' & Ht' & H1 & H2 & H3). rewrite Hf in Ht'. injection Ht' as <-.
        rewrite H1, H2, H3, !String.eqb_refl in Hm. done.
      * rewrite !orb_false_iff, !negb_false_iff, !String.eqb_eq in Hm. destruct Hm as [[H1 H2] H3].
        split; [intros [= <-]; split; [done|]; intros _; by exists t|by intros [-> _]].
    + apply hwp_reply. split; [done|]. intros depends. split; [done|]. intros [-> Hx]. destruct (Hx He) as (t' & Ht' & _). congruence.
Qed.

Lemma hwp_dependency r material session chain (w : World TaskEvent) :
  hwp (resolve_dependency r material session chain) (fun answer w' => unchanged w w' /\
    forall depends, depends_of r (db (w_db w)) material session chain depends <-> answer = Ok depends) w.
Proof.
  unfold resolve_dependency, depends_of. set (last := if is_blank chain then None else _).
  match goal with |- hwp (let* chosen := _ in @?k chosen) ?Q w =>
    assert (Hgo : forall chosen w1, unchanged w w1 ->
      (forall depends, depends = chosen <->
         (er_dependency r <> "" -> depends = er_dependency r) /\ (er_dependency r = "" -> er_kind r = "trigger-event" -> depends = "") /\
         (er_dependency r = "" -> er_kind r <> "trigger-event" -> depends = match last with Some t => t_id t | None => "" end)) ->
      hwp (k (Ok chosen)) Q w1) end.
  { intros chosen w1 Hu Hc. eapply hwp_mono; [apply hwp_check_dependency|]. intros answer w2 [Hu2 Ha]. split; [by etrans|].
    intros depends. rewrite Ha, (Hc depends). destruct Hu as [-> _]. tauto. }
  apply hwp_bind. destruct (is_empty (er_dependency r)) eqn:He; simpl negb; cbv iota.
  - apply is_empty_true in He. destruct (String.eqb_spec (er_kind r) "trigger-event") as [Hk|Hk].
    + apply hwp_reply, Hgo; [done|]. intros depends. rewrite He. split; [by intros ->|]. intros (_ & Hd & _). by apply Hd.
    + apply hwp_bind. match goal with |- hwp _ ?Q w => assert (Hlast : forall w1, unchanged w w1 -> Q (Ok last) w1) end.
      { intros w1 Hu. cbv beta. apply hwp_reply.
        assert (E : (match last with Some task => Ok (t_id task) | None => Ok "" end : Result string string)
          = Ok (match last with Some t => t_id t | None => "" end)) by by destruct last.
        cbv iota. rewrite E. apply Hgo; [done|]. intros depends. rewrite He. split; [by intros ->|]. intros (_ & _ & Hd). by apply Hd. }
      unfold latest_production_task_in_chain. subst last. destruct (is_blank chain).
      * eexists _, _. split; [reflexivity|]. by apply Hlast.
      * apply hwp_query. intros w' Hd Hev. by apply Hlast.
  - apply is_empty_false in He. apply hwp_reply, Hgo; [done|]. intros depends. split; [by intros ->|]. intros (Hd & _). by apply Hd.
Qed.

(** ** Inserting *)

(** An audit record touches only the audit table. *)
Lemma hwp_audit a1 a2 a3 a4 a5 (Q : Result unit DbErr -> World TaskEvent -> Prop) w :
  (forall answer w', production_task (db (w_db w')) = production_task (db (w_db w)) ->
     w_events w' = w_events w -> Q answer w') ->
  hwp (block_on (append_audit_log a1 a2 a3 a4 a5)) Q w.
Proof.
  intros HQ. unfold hwp, block_on, append_audit_log, db_bind, now_millis_string. rewrite quiet_stmt.
  destruct (existsb _ _); (eexists _, _; split; [reflexivity|apply HQ; done]).
Qed.

Lemma hwp_notify (Q : unit -> World TaskEvent -> Prop) w :
  (forall w', w_db w' = w_db w -> w_events w' = w_events w ++ (if si_wakeup_lock inputs then [WorkerNotified] else []) -> Q tt w') ->
  hwp (notify_worker inputs) Q w.
Proof.
  intros HQ. unfold notify_worker. destruct (si_wakeup_lock inputs); [apply hwp_emit|apply hwp_reply]; apply HQ; [done|done|done|by rewrite app_nil_r].
Qed.

Lemma hwp_insert input (Q : Result Task DbErr -> World TaskEvent -> Prop) w :
  let ts := production_task (db (w_db w)) in
  (forall e w', unchanged w w' -> In (in_id input) (map t_id ts) \/ In (in_idempotency_key input) (map t_idempotency_key ts) -> Q (Err e) w') ->
  (forall now w', now <> EmptyString -> ~ In (in_id input) (map t_id ts) -> ~ In (in_idempotency_key input) (map t_idempotency_key ts) ->
     production_task (db (w_db w')) = ts ++ [new_task input now] -> w_events w' = w_events w -> Q (Ok (new_task input now)) w') ->
  hwp (block_on (insert_production_task input)) Q w.
Proof.
  cbv zeta. intros Herr Hok. unfold hwp, block_on, insert_production_task, db_bind, now_millis_string. rewrite quiet_stmt.
  set (now := dec _). change (t_id (new_task input now)) with (in_id input).
  change (t_idempotency_key (new_task input now)) with (in_idempotency_key input). cbn [db].
  destruct (existsb (task_with_id (in_id input)) _) eqn:Hi.
  { eexists _, _. split; [reflexivity|]. apply Herr; [done|left]. apply existsb_exists in Hi as (t & Ht & E%String.eqb_eq). rewrite <- E. by apply in_map. }
  destruct (existsb (fun t => t_idempotency_key t == in_idempotency_key input) _) eqn:Hk.
  { eexists _, _. split; [reflexivity|]. apply Herr; [done|right]. apply existsb_exists in Hk as (t & Ht & E%String.eqb_eq). rewrite <- E. by apply in_map. }
  eexists _, _. split; [reflexivity|]. apply Hok; try done; [apply dec_not_empty|by apply existsb_map_false..].
Qed.

(** ** The whole request *)

(** What a request leaves: the task it asks for, or nothing at all. *)
Definition enqueue_post (body actor : string) (w : World TaskEvent) (answer : string) (w' : World TaskEvent) : Prop :=
  let d := db (w_db w) in
  (exists r material session chain depends row, acceptable inputs body d r material session chain depends /\
     queued_row inputs r actor material session chain depends row /\
     production_task (db (w_db w')) = production_task d ++ [row] /\
     w_events w' = w_events w ++ (if si_wakeup_lock inputs then [WorkerNotified] else []) /\
     answer = json_response "202 Accepted" (jobj [("code", jint 0); ("duplicate", JBool false); ("task", task_json row)])) \/
  ((forall r material session chain depends, ~ acceptable inputs body d r material session chain depends) /\ unchanged w w').

Lemma hwp_insert_task r actor material session chain depends w :
  1 <= er_max_attempts r <= 10 ->
  hwp (insert_task inputs r actor material session chain depends) (fun answer w' =>
    (~ In (key_of inputs r) (map t_idempotency_key (production_task (db (w_db w)))) /\ ~ In (task_name inputs) (map t_id (production_task (db (w_db w)))) /\
     exists row, queued_row inputs r actor material session chain depends row /\
       production_task (db (w_db w')) = production_task (db (w_db w)) ++ [row] /\
       w_events w' = w_events w ++ (if si_wakeup_lock inputs then [WorkerNotified] else []) /\
       answer = json_response "202 Accepted" (jobj [("code", jint 0); ("duplicate", JBool false); ("task", task_json row)])) \/
    ((In (key_of inputs r) (map t_idempotency_key (production_task (db (w_db w)))) \/ In (task_name inputs) (map t_id (production_task (db (w_db w))))) /\
     unchanged w w')) w.
Proof.
  intros Hmax. unfold insert_task. apply hwp_bind, hwp_insert.
  - intros e w' Hw Hin. apply hwp_reply. right. split; [|done]. destruct Hin; [by right|by left].
  - intros now w1 Hnow Hi Hkey Ht He. apply hwp_bind, hwp_audit. intros answer w2 Ht2 He2.
    apply hwp_bind, hwp_notify. intros w3 Hw3 He3. apply hwp_reply. left. split; [exact Hkey|]. split; [exact Hi|].
    eexists. split; [|split; [by rewrite Hw3, Ht2, Ht|split; [by rewrite He3, He2, He|done]]].
    split; cbn; try done. split_and!; [done..|]. unfold clamp. lia.
Qed.

(** A refused request: no request that is acceptable parses from this body. *)
Lemma refused body actor w answer w' r :
  parse_enqueue body = Ok r ->
  (forall material session chain depends, ~ acceptable inputs body (db (w_db w)) r material session chain depends) ->
  unchanged w w' -> enqueue_post body actor w answer w'.
Proof.
  intros Hp Hno Hu. right. split; [|done]. intros r' material session chain depends Ha.
  pose proof (ac_request _ _ _ _ _ _ _ _ Ha) as Hr%parse_enqueue_spec. rewrite Hp in Hr. injection Hr as <-. by eapply Hno.
Qed.

Lemma hwp_enqueue body actor w : hwp (enqueue_response inputs body actor) (enqueue_post body actor w) w.
Proof.
  unfold enqueue_response. destruct (parse_enqueue body) as [r|response] eqn:Hp.
  2:{ apply hwp_reply. right. split; [|done]. intros r material session chain depends Ha.
      pose proof (ac_request _ _ _ _ _ _ _ _ Ha) as Hr%parse_enqueue_spec. congruence. }
  destruct (si_admin_lock inputs) eqn:Hlock; simpl negb; cbv iota.
  2:{ apply hwp_reply. eapply refused; [done| |done]. intros m s c d Ha. pose proof (ac_lock _ _ _ _ _ _ _ _ Ha). congruence. }
  apply hwp_bind. eapply hwp_mono; [apply hwp_replayed|]. intros [response|] w1 [H1 Hdup].
  { apply hwp_reply. eapply refused; [done| |done]. intros m s c d Ha. destruct (Hdup eq_refl) as [Hne Hin].
    apply (ac_key _ _ _ _ _ _ _ _ Ha). unfold key_of. by rewrite (proj2 (is_empty_false _) Hne). }
  apply hwp_bind. eapply hwp_mono; [apply hwp_admit|]. intros refusal w2 [H2 Hadm]. rewrite (proj1 H1) in Hadm.
  assert (U2 : unchanged w w2) by by etrans. destruct refusal as [response|].
  { apply hwp_reply. eapply refused; [done| |done]. intros m s c d []. by assert (Some response = None) by (apply Hadm; done). }
  apply hwp_bind. eapply hwp_mono; [apply hwp_target|]. intros [material session] w3 [H3 Htarget]. rewrite (proj1 U2) in Htarget.
  assert (U3 : unchanged w w3) by by etrans.
  assert (Hmine : forall m s c d, acceptable inputs body (db (w_db w)) r m s c d -> m = material /\ s = session).
  { intros m s c d []. by assert ((material, session) = (m, s)) as [= -> ->] by (by apply Htarget). }
  apply hwp_bind. eapply hwp_mono; [apply hwp_chain|]. intros chained w4 [H4 Hchain]. rewrite (proj1 U3) in Hchain.
  assert (U4 : unchanged w w4) by by etrans. destruct chained as [chain|response].
  2:{ apply hwp_reply. eapply refused; [done| |done]. intros m s c d Ha. destruct (Hmine _ _ _ _ Ha) as [-> ->].
      pose proof (proj1 (Hchain c) (ac_chain _ _ _ _ _ _ _ _ Ha)). done. }
  apply hwp_bind. eapply hwp_mono; [apply hwp_dependency|]. intros dependency w5 [H5 Hdep]. rewrite (proj1 U4) in Hdep.
  assert (U5 : unchanged w w5) by by etrans.
  assert (Hall : forall m s c d, acceptable inputs body (db (w_db w)) r m s c d -> dependency = Ok d /\ m = material /\ s = session /\ c = chain).
  { intros m s c d Ha. destruct (Hmine _ _ _ _ Ha) as [-> ->].
    assert (c = chain) as -> by (pose proof (proj1 (Hchain c) (ac_chain _ _ _ _ _ _ _ _ Ha)); congruence).
    split; [|done]. apply Hdep. exact (ac_depends _ _ _ _ _ _ _ _ Ha). }
  destruct dependency as [depends|response].
  2:{ apply hwp_reply. eapply refused; [done| |done]. intros m s c d Ha. by destruct (Hall _ _ _ _ Ha). }
  destruct (proj1 (parse_enqueue_spec body r) Hp) as (request & Hwf).
  assert (Hmax : 1 <= er_max_attempts r <= 10) by (rewrite (wf_attempts _ _ _ Hwf); by apply clamp_bounds).
  eapply hwp_mono; [by apply hwp_insert_task|]. rewrite (proj1 U5), (proj2 U5).
  intros answer w' [(Hk & Hid & row & Hrow & Ht & He & Hans)|[Hin H6]].
  - left. exists r, material, session, chain, depends, row. split; [|done].
    split; [by exists request|done|apply Hadm; done|apply Hadm; done|done|done| | |by apply Hchain|by apply Hdep];
      by apply (proj2 (Htarget material session)).
  - eapply refused; [done| |by etrans]. intros m s c d []. by destruct Hin.
Qed.

(** C10. Enqueueing. Undisturbed (no statement fails and no one else writes meanwhile), every enqueue
    request is answered, and it is accepted exactly when it should be. When its body is well formed, the task
    lock is not poisoned, its idempotency key and the new id are unused, the queue has room, the runtime
    does not drain or the task is a steel-out, and chain and dependency fit its session, then exactly one
    row is appended, which is queued and has the kind, payload, policy, attempts and key of the request, its
    material, session, chain and dependency; the worker is woken and the answer is 202 with that task. In
    every other case nothing changes. *)
Theorem enqueue_correct (body actor : string) (w : World TaskEvent) :
  exists answer w', enqueue_response inputs body actor w = (Some answer, w') /\ enqueue_post body actor w answer w'.
Proof. apply hwp_enqueue. Qed.

End Quiet.
