(* ===== verification/TaskWorker.v ===== *)
(** * The production task worker

    The single worker thread of app/service/src/production_tasks.rs: it claims a task, executes it
    through the handler of its kind and records the outcome. The handlers of the kinds
    (capture, algorithm, calibration fit, production event) are arguments. *)

From S2P Require Import Prelude Json Http Db Handler TaskStore Runtime TaskService.

(** main.rs [runtime_capability_for_production_task_kind]. *)
Definition runtime_capability_for_production_task_kind (kind : string) : option RuntimeCapability :=
  match normalize_kind kind with
  | None => None
  | Some word =>
      if word == "algorithm-run" then Some Reconstruction
      else if one_of word ["capture-once"; "steel-info"; "steel-in"; "steel-out"; "trigger-event"]
      then Some CaptureManagement
      else None
  end.

(** production_tasks.rs [dispatch_phase]. *)
Definition dispatch_phase (kind : string) : string :=
  if kind == "capture-once" then "dispatching-capture-provider"
  else if kind == "algorithm-run" then "dispatching-algorithm"
  else if kind == "steel-info" then "dispatching-steel-info"
  else if kind == "steel-in" then "dispatching-steel-in"
  else if kind == "steel-out" then "dispatching-steel-out"
  else if kind == "trigger-event" then "dispatching-trigger-event"
  else "dispatching-production-operation".

(** The runtime profile, as far as the worker looks at it. *)
Record Profile := mkProfile {
  profile_id : string;
  acquisition_mode : AcquisitionMode;
  capabilities : RuntimeCapabilities;
}.

(** The handlers of the task kinds, each given a payload and an actor; the computations that can be
    interrupted are given the check for a cancellation too. *)
Class TaskExecutors := {
  production_capture_once : string -> string -> Handler TaskEvent string;
  production_calibration_capture_fit : string -> string -> Handler TaskEvent bool -> Handler TaskEvent string;
  production_algorithm_run : string -> string -> Handler TaskEvent bool -> Handler TaskEvent string;
  production_event : string -> string -> string -> Handler TaskEvent string;   (* payload, kind, actor *)
}.

Section Worker.
Context `{JsonCodec} `{DbEnv} `{TaskExecutors}.
Variable profile : Profile.

(** What one pass reads of the process: whether the runtime drains, and whether the production
    command lock can be taken. *)
Variable draining : bool.
Variable command_lock : bool.

(** production_tasks.rs [production_event_payload]. *)
Definition production_event_payload (task : Task) : string :=
  let payload := unwrap_or (json_parse (t_payload task)) (JObject []) in
  let missing_material_id := is_empty (material_id_from_payload payload "") in
  let missing_session_id := is_empty (value_string payload ["sessionId"; "session_id"]) in
  match payload with
  | JObject object =>
      let object := if missing_material_id then minsert "materialId" (JString (t_material_id task)) object else object in
      let object := if missing_session_id then minsert "sessionId" (JString (t_session_id task)) object else object in
      json_print (JObject object)
  | _ => t_payload task
  end.

(** Whether a cancellation of the task has been requested, as far as the database says. *)
Definition cancel_requested (task : Task) : Handler TaskEvent bool :=
  let* found := block_on (find_production_task (t_id task)) in
  reply (match found with Ok (Some item) => t_cancel_requested item | _ => false end).

(** The closure [execute_task] hands to the interruptible computations. *)
Definition cancellation_requested (task : Task) : Handler TaskEvent bool :=
  if draining then reply true else cancel_requested task.

(** production_tasks.rs [execute_task]. *)
Definition execute_task (task : Task) : Handler TaskEvent string :=
  let refused :=
    match runtime_capability_for_production_task_kind (t_kind task) with
    | Some capability =>
        if allows (acquisition_mode profile) (capabilities profile) capability then None
        else Some (json_response "409 Conflict"
          (jobj [("code", jint 409); ("error", JString "runtime_capability_unavailable");
                 ("capability", JString (capability_as_str capability));
                 ("profileId", JString (profile_id profile));
                 ("message", JString "The active runtime profile does not provide this task capability")]))
    | None => None
    end in
  match refused with
  | Some response => reply response
  | None =>
      if t_kind task == "capture-once" then production_capture_once (t_payload task) (t_actor task)
      else if t_kind task == "algorithm-run" then
        let payload := unwrap_or (json_parse (t_payload task)) (JObject []) in
        if value_string payload ["operation"; "operationType"] == "calibration-capture-fit"
        then production_calibration_capture_fit (t_payload task) (t_actor task) (cancellation_requested task)
        else production_algorithm_run (t_payload task) (t_actor task) (cancellation_requested task)
      else if one_of (t_kind task) ["steel-info"; "steel-in"; "steel-out"; "trigger-event"]
      then production_event (production_event_payload task) (t_kind task) (t_actor task)
      else reply (error_response "400 Bad Request" 400 "unsupported_production_task_kind")
  end.

(** production_tasks.rs [set_worker_status]. *)
Definition set_worker_status (running : bool) (current last_error : option string) : Handler TaskEvent unit :=
  emit (WorkerMarked running current last_error).

(** production_tasks.rs [persist_task_checkpoint]. *)
Definition persist_task_checkpoint (task : Task) (phase : string) (progress : Z) : Handler TaskEvent unit :=
  let* updated := block_on (update_production_task_progress (t_id task) phase progress) in
  match updated with
  | Ok _ => reply tt
  | Err error => set_worker_status true (Some (t_id task)) (Some (db_err_text error))
  end.

(** The task was cancelled before it was dispatched. *)
Definition finish_cancelled (task : Task) : Handler TaskEvent unit :=
  let* _ := block_on (finish_production_task (t_id task) "cancelled" 0 "" "cancelled before dispatch") in
  reply tt.

(** The outcome of a response: status, progress and error. *)
Definition task_outcome (response body : string) (requested : bool) : string * Z * string :=
  if response_cooperatively_cancelled body
  then ("cancelled", 100,
        if draining && negb requested
        then "cancelled during runtime drain at interruptible algorithm computation"
        else "cancelled during interruptible algorithm computation")
  else provider_terminal_outcome response body.

(** The provider is done: its result is recorded. *)
Definition settle_task (task : Task) (response : string) : Handler TaskEvent unit :=
  let* _ := persist_task_checkpoint task "finalizing-result" 90 in
  let body := response_body response in
  let* requested := cancel_requested task in
  let '(status, progress, error) := task_outcome response body requested in
  let* _ :=
    (if requested && negb (response_cooperatively_cancelled body)
     then
       let* _ := block_on (append_audit_log (t_actor task) "production.task.cancel_too_late" (t_id task)
                             ("provider completed with terminal status " +:+ status) "warning") in
       reply tt
     else reply tt) in
  let* finished := block_on (finish_production_task (t_id task) status progress body error) in
  match finished with
  | Ok _ => reply tt
  | Err error => set_worker_status true (Some (t_id task)) (Some (db_err_text error))
  end.

(** A claimed task is run to its end. *)
Definition run_task (task : Task) : Handler TaskEvent unit :=
  let* _ := set_worker_status true (Some (t_id task)) None in
  let* _ := persist_task_checkpoint task "waiting-command-lane" 10 in
  let* cancelled := cancel_requested task in
  if cancelled then finish_cancelled task
  else
    let* response :=
      (if command_lock then
         let* cancelled := cancel_requested task in
         if cancelled then reply None
         else
           let* _ := persist_task_checkpoint task (dispatch_phase (t_kind task)) 25 in
           let* _ := emit (Executed (t_id task)) in
           let* response := execute_task task in
           reply (Some response)
       else reply (Some (error_response "503 Service Unavailable" 503 "production_command_lock_poisoned"))) in
    match response with
    | None => finish_cancelled task
    | Some response => settle_task task response
    end.

(** One turn of [worker_loop]; waiting for work is outside of it. *)
Definition worker_turn : Handler TaskEvent unit :=
  if bool_decide (acquisition_mode profile = Offline) then set_worker_status false None None
  else
    let* _ := set_worker_status true None None in
    let* claimed := block_on claim_next_production_task in
    match claimed with
    | Ok (Some task) => run_task task
    | Ok None => reply tt
    | Err error => set_worker_status true None (Some (db_err_text error))
    end.

End Worker.
