(* ===== verification/TaskServiceFacts.v ===== *)
(** * What the task API promises

    Undisturbed requests: a repeated enqueue gives the task back; the worker leaves no task running. *)

From S2P Require Import Prelude Json Http Db Handler TaskStore TaskInvariant TaskGraph TaskClaim TaskOps Runtime TaskService TaskEnqueue TaskWorker.

Section Quiet.
Context `{JsonCodec} `{Quiet}.
Variable inputs : ServiceInputs.

(** ** Repeating a request *)

(** The task is the one the request asked for. *)
Definition same_request (r : EnqueueRequest) (t : Task) : Prop :=
  t_kind t = er_kind r /\ t_payload t = json_print (er_payload r) /\
  (er_chain r = "" \/ t_chain_id t = er_chain r) /\
  (er_dependency r = "" \/ t_depends_on_task_id t = er_dependency r) /\
  (er_policy_value r = "" \/ t_dependency_policy t = er_policy r).

Lemma same_request_spec r t :
  (t_kind t != er_kind r) || (t_payload t != json_print (er_payload r))
  || (negb (is_empty (er_chain r)) && (t_chain_id t != er_chain r))
  || (negb (is_empty (er_dependency r)) && (t_depends_on_task_id t != er_dependency r))
  || (negb (is_empty (er_policy_value r)) && (t_dependency_policy t != er_policy r)) = false
  <-> same_request r t.
Proof.
  unfold same_request. rewrite !orb_false_iff, !andb_false_iff, !negb_false_iff, !String.eqb_eq, !is_empty_true. tauto.
Qed.

Lemma find_by_key ts t : NoDup (map t_idempotency_key ts) -> In t ts ->
  head (order_desc (fun t => (t_created_at t, "")) (List.filter (fun x => t_idempotency_key x == t_idempotency_key t) ts))
  = Some t.
Proof.
  intros Hn Ht.
  assert (List.filter (fun x => t_idempotency_key x == t_idempotency_key t) ts = [t]) as ->; [|done].
  revert Hn Ht. induction ts as [|x ts IH]; simpl; [done|]. intros [Hx Hn]%NoDup_cons [->|Ht].
  - rewrite String.eqb_refl. f_equal.
    destruct (List.filter _ ts) as [|y l] eqn:E; [done|]. exfalso. apply Hx.
    assert (Hy : In y (List.filter (fun x => t_idempotency_key x == t_idempotency_key t) ts)) by (rewrite E; by left).
    apply filter_In in Hy as [Hy Ek]. bool_facts. rewrite <- Ek. by apply list_elem_of_In, in_map.
  - destruct (String.eqb_spec (t_idempotency_key x) (t_idempotency_key t)) as [E|]; [|by apply IH].
    exfalso. apply Hx. rewrite E. by apply list_elem_of_In, in_map.
Qed.

(** Idempotent enqueueing. Undisturbed, when a task with the idempotency key of a request is
    already in the table, the request changes nothing: if it asks for the same task it is answered
    with that task as a duplicate, whatever the state of the queue or of the drain; otherwise it is
    refused as a conflict. *)
Theorem enqueue_idempotent (body actor : string) (r : EnqueueRequest) (t : Task) (w : World TaskEvent) :
  parse_enqueue body = Ok r -> is_blank (er_key r) = false -> er_key r <> "" -> si_admin_lock inputs = true ->
  tasks_ok (db (w_db w)) -> In t (production_task (db (w_db w))) -> t_idempotency_key t = er_key r ->
  exists answer w', enqueue_response inputs body actor w = (Some answer, w') /\ unchanged w w' /\
    (same_request r t -> answer = json_response "200 OK"
       (jobj [("code", jint 0); ("duplicate", JBool true); ("task", task_json t)])) /\
    (~ same_request r t -> answer = json_response "409 Conflict"
       (jobj [("code", jint 409); ("error", JString "idempotency_conflict"); ("task", task_json t)])).
Proof.
  intros Hp Hb Hne Hlock Hok Ht Hkey. unfold enqueue_response. rewrite Hp, Hlock. change (negb true) with false. cbv iota beta.
  apply is_empty_false in Hne. unfold replayed_task. rewrite Hne.
  unfold find_production_task_by_idempotency_key. rewrite Hb. cbv iota. unfold h_bind. rewrite quiet_block_on_query.
  rewrite <- Hkey, (find_by_key _ t (keys_distinct _ Hok) Ht).
  pose proof (same_request_spec r t) as Hspec.
  match goal with |- context [if ?c then reply _ else _] => destruct c eqn:Hc end;
    (eexists _, _; split; [reflexivity|]; split; [done|]; split; intros Hsame; [|]; try done).
  - apply Hspec in Hsame. congruence.
  - destruct Hsame. by apply Hspec.
Qed.

End Quiet.

(** ** The worker *)

(** The program answers and leaves the task table alone. *)
Definition keeps_tasks {A} (m : Handler TaskEvent A) : Prop :=
  forall w, hwp m (fun _ w' => production_task (db (w_db w')) = production_task (db (w_db w))) w.

(** The handlers of the task kinds answer and leave the task table alone; those given a check for
    cancellation do when the check does. *)
Class ExecutorsKeepTasks `{DbEnv} (executors : TaskExecutors) : Prop := {
  keep_capture : forall payload actor, keeps_tasks (production_capture_once payload actor);
  keep_fit : forall payload actor check, keeps_tasks check ->
    keeps_tasks (production_calibration_capture_fit payload actor check);
  keep_algorithm : forall payload actor check, keeps_tasks check ->
    keeps_tasks (production_algorithm_run payload actor check);
  keep_event : forall payload kind actor, keeps_tasks (production_event payload kind actor);
}.

(** Task [t] is the only one running, as far as its id tells. *)
Record only_running (id : string) (ts : list Task) : Prop := {
  or_ids : NoDup (map t_id ts);
  or_only : forall t, In t ts -> t_status t = "running" -> t_id t = id;
  or_there : In id (map t_id ts);
  or_uncancelled : forall t, In t ts -> t_id t = id -> t_cancel_requested t = false;
}.

Definition none_running (ts : list Task) : Prop := forall t, In t ts -> t_status t <> "running".

(** The outcome of a task is what its response proves. *)
Definition outcome_recorded `{JsonCodec} (draining : bool) (id : string) (ts : list Task) : Prop :=
  exists row response, In row ts /\ t_id row = id /\ t_result row = response_body response /\
    production_task_status_is_terminal (t_status row) = true /\
    exists c progress, task_outcome draining response (response_body response) c = (t_status row, progress, t_error row).

Lemma none_running_blocked ts ts' : Forall2 maybe_blocked ts ts' -> none_running ts -> none_running ts'.
Proof.
  intros Hb Hr t Hin Hs. induction Hb as [|x y l l' Hxy _ IH]; [done|].
  destruct Hin as [->|Hin]; [|apply IH; [intros z Hz; apply Hr; by right|done]].
  destruct Hxy as [->|(_ & ? & ? & _ & ->)]; [by apply (Hr x (or_introl eq_refl))|done].
Qed.

Lemma claim_only_running ts t ts' : NoDup (map t_id ts) -> none_running ts ->
  claim_post ts (Some t) ts' -> only_running (t_id t) ts'.
Proof.
  intros Hn Hr (mid & Hb & model & now & Hm & Hc & Hnow & _ & -> & -> & _).
  apply blocked_rightly_maybe in Hb. pose proof (maybe_blocked_ids _ _ Hb) as Hids.
  assert (Hmid : none_running mid) by (by eapply none_running_blocked).
  assert (Hrows : forall r, In r (update_where (task_with_id (t_id model)) (claimed_row (wrap_i32 (t_attempts model + 1)) now) mid) ->
    (t_id r = t_id model /\ t_cancel_requested r = false) \/ (In r mid /\ t_id r <> t_id model)).
  { intros r (x & <- & Hx)%in_map_iff. unfold task_with_id.
    destruct (String.eqb_spec (t_id x) (t_id model)) as [E|E]; [left|by right]. simpl. split; [done|].
    rewrite (NoDup_ids_eq mid x model); [|by rewrite Hids|done..]. unfold claimable in Hc. by bool_facts. }
  split.
  - by rewrite update_task_ids, Hids.
  - intros r Hin Hs. destruct (Hrows r Hin) as [[-> _]|[Hm' _]]; [done|]. by destruct (Hmid r).
  - rewrite update_task_ids by done. simpl. by apply in_map.
  - intros r Hin Hid. simpl in Hid. destruct (Hrows r Hin) as [[_ ?]|[_ ?]]; done.
Qed.

Lemma update_only_running id p f ts : (forall t, same_task t (f t)) ->
  (forall t, t_status (f t) = t_status t) -> (forall t, t_cancel_requested (f t) = t_cancel_requested t) ->
  only_running id ts -> only_running id (update_where p f ts).
Proof.
  intros Hs Hst Hc [Hn Ho Ht Hu].
  assert (Hids : map t_id (update_where p f ts) = map t_id ts).
  { unfold update_where. rewrite map_map. apply map_ext. intros t. destruct (p t); [apply Hs|done]. }
  split; [by rewrite Hids| |by rewrite Hids|]; intros r (x & <- & Hx)%in_map_iff; destruct (p x).
  - rewrite Hst. intros E. rewrite (same_id _ _ (Hs x)). auto.
  - auto.
  - rewrite (same_id _ _ (Hs x)), Hc. auto.
  - auto.
Qed.

Section WorkerQuiet.
Context `{JsonCodec} `{Quiet} `{!TaskExecutors} `{!ExecutorsKeepTasks _}.
Variable profile : Profile.
Variable draining command_lock : bool.

Abbreviation tasks w := (production_task (db (w_db w))).

Lemma hwp_checkpoint task phase progress (w : World TaskEvent) : only_running (t_id task) (tasks w) ->
  hwp (persist_task_checkpoint task phase progress) (fun _ w' => only_running (t_id task) (tasks w')) w.
Proof.
  intros Ho. unfold persist_task_checkpoint. apply hwp_bind.
  apply (hwp_block_on _ (fun _ d' => only_running (t_id task) (production_task d'))).
  - apply wp_bind, wp_now. intros now _. apply wp_bind, wp_update_tasks.
    assert (Ho' : only_running (t_id task) (production_task (with_tasks (update_where
      (fun t => task_with_id (t_id task) t && task_with_status "running" t) (progress_row phase progress now)
      (tasks w)) (db (w_db w))))).
    { cbn [production_task with_tasks]. by apply update_only_running. }
    destruct (_ =? 0); [by apply wp_ret|by apply wp_find].
  - intros a w' Hp _. by apply hwp_reply.
Qed.

Lemma hwp_cancel_requested task (w : World TaskEvent) : only_running (t_id task) (tasks w) ->
  hwp (cancel_requested task) (fun c w' => c = false /\ only_running (t_id task) (tasks w')) w.
Proof.
  intros Ho. unfold cancel_requested. apply hwp_bind, hwp_query. intros w' Hd _. apply hwp_reply. rewrite Hd.
  split; [|done]. destruct (List.find _ _) as [item|] eqn:Hf; [|done].
  apply find_some in Hf as [Hin Hid]. unfold task_with_id in Hid. bool_facts. by eapply or_uncancelled.
Qed.

Lemma cancellation_check_keeps task : keeps_tasks (cancellation_requested draining task).
Proof.
  intros w. unfold cancellation_requested. destruct draining; [by apply hwp_reply|].
  apply hwp_bind, hwp_query. intros w' Hd _. apply hwp_reply. by rewrite Hd.
Qed.

Lemma hwp_execute task (w : World TaskEvent) :
  hwp (execute_task profile draining task) (fun _ w' => tasks w' = tasks w) w.
Proof.
  unfold execute_task. destruct ExecutorsKeepTasks0 as [Hcap Hfit Halg Hev].
  pose proof (cancellation_check_keeps task) as Hcheck.
  destruct (runtime_capability_for_production_task_kind _) as [c|]; [destruct (allows _ _ c)|];
    repeat case_match; simplify_eq; try (by apply hwp_reply);
    solve [by apply Hcap|by apply Hfit|by apply Halg|by apply Hev].
Qed.

Lemma task_outcome_terminal response body c :
  production_task_status_is_terminal (fst (fst (task_outcome draining response body c))) = true.
Proof. unfold task_outcome, provider_terminal_outcome. by repeat case_match. Qed.

(** Finishing the only running task leaves none. *)
Lemma hwp_finish id status progress body error (Q : Result (option Task) DbErr -> World TaskEvent -> Prop) w :
  only_running id (tasks w) -> production_task_status_is_terminal status = true ->
  (forall answer w', none_running (tasks w') ->
     (exists row, In row (tasks w') /\ t_id row = id /\ t_result row = body /\ t_status row = status /\ t_error row = error) ->
     Q (Ok answer) w') ->
  hwp (block_on (finish_production_task id status progress body error)) Q w.
Proof.
  intros [Hn Ho Ht _] Hterm HQ. eapply hwp_block_on; [by apply wp_finish|].
  intros answer w' [Hp _] _. unfold finish_post in Hp.
  apply in_map_iff in Ht as (t & Hid & Ht).
  assert (Hfind := find_by_id _ t Hn Ht). rewrite Hid in Hfind. rewrite Hfind in Hp.
  destruct Hp as (now & _ & _ & Hp). set (f := finished_row status progress body error now) in *.
  assert (Hnone : none_running (update_task id f (tasks w))).
  { intros r (x & <- & Hx)%in_map_iff. unfold task_with_id.
    destruct (String.eqb_spec (t_id x) id) as [E|E]; [|intros Hs; by apply E, Ho].
    simpl. intros ->. done. }
  assert (Hrow : In (f t) (update_task id f (tasks w))).
  { apply in_map_iff. exists t. split; [|done]. unfold task_with_id. by rewrite Hid, String.eqb_refl. }
  assert (Hids : NoDup (map t_id (update_task id f (tasks w)))) by (unfold update_task; by rewrite update_task_ids).
  destruct (unsuccessful status) eqn:Hu.
  - apply blocks_downstream_queued in Hp; [|done]. apply HQ.
    + intros r Hr Hs. apply (recovered_running (update_task id f (tasks w))) in Hr as Hr'; [by apply (Hnone r)| |done].
      eapply Forall2_impl; [exact Hp|]. simpl. unfold recovered. tauto.
    + destruct (Forall2_in_l _ _ _ _ Hp Hrow) as (r' & Hr' & [[Hq _]| ->]).
      * simpl in Hq. subst status. done.
      * by exists (f t).
  - apply HQ; rewrite Hp; [done|]. by exists (f t).
Qed.

Lemma hwp_settle task response (w : World TaskEvent) : only_running (t_id task) (tasks w) ->
  hwp (settle_task draining task response)
    (fun _ w' => none_running (tasks w') /\ outcome_recorded draining (t_id task) (tasks w')) w.
Proof.
  intros Ho. unfold settle_task. apply hwp_bind. eapply hwp_mono; [by apply hwp_checkpoint|]. intros [] w1 Hr1.
  apply hwp_bind. eapply hwp_mono; [by apply hwp_cancel_requested|]. intros c w2 [-> Hr2].
  pose proof (task_outcome_terminal response (response_body response) false) as Hterm.
  destruct (task_outcome draining response (response_body response) false) as [[status progress] error] eqn:Ho'.
  simpl in Hterm. apply hwp_bind, hwp_reply, hwp_bind. apply hwp_finish; [done|done|].
  intros answer w' Hnone (row & Hin & Hid & Hres & <- & <-). apply hwp_reply. split; [done|].
  exists row, response. split_and!; [done..|]. eauto.
Qed.

Lemma hwp_run_task task (w : World TaskEvent) : only_running (t_id task) (tasks w) ->
  hwp (run_task profile draining command_lock task)
    (fun _ w' => none_running (tasks w') /\ outcome_recorded draining (t_id task) (tasks w')) w.
Proof.
  intros Ho. unfold run_task. apply hwp_bind, hwp_emit.
  apply hwp_bind. eapply hwp_mono; [by apply hwp_checkpoint|]. intros [] w1 Hr1.
  apply hwp_bind. eapply hwp_mono; [by apply hwp_cancel_requested|]. intros c w2 [-> Hr2].
  apply hwp_bind. destruct command_lock; [|by apply hwp_reply, hwp_settle].
  apply hwp_bind. eapply hwp_mono; [by apply hwp_cancel_requested|]. intros c w3 [-> Hr3].
  apply hwp_bind. eapply hwp_mono; [by apply hwp_checkpoint|]. intros [] w4 Hr4.
  apply hwp_bind, hwp_emit, hwp_bind. eapply hwp_mono; [apply hwp_execute|]. intros response w5 Hr5.
  simpl in Hr5. apply hwp_reply, hwp_settle. by rewrite Hr5.
Qed.

(** The worker settles what it claims. Undisturbed, with executors that answer and leave the
    task table alone, one turn of the worker from a table without a running task ends, and leaves
    no task running: offline it does nothing; otherwise it claims nothing (and every queued task
    waits), or it runs one task to the end and its row holds the body of a response and the status
    and error that response proves. *)
Theorem worker_turn_settles (w : World TaskEvent) :
  tasks_ok (db (w_db w)) -> none_running (tasks w) ->
  exists w', worker_turn profile draining command_lock w = (Some tt, w') /\ none_running (tasks w') /\
    (acquisition_mode profile = Offline -> tasks w' = tasks w) /\
    (acquisition_mode profile <> Offline ->
       claim_post (tasks w) None (tasks w') \/ exists id, outcome_recorded draining id (tasks w')).
Proof.
  intros Hok Hnone. unfold worker_turn. case_bool_decide as Hmode.
  { eexists. split; [reflexivity|]. done. }
  enough (hwp (let* _ := set_worker_status true None None in
    let* claimed := block_on claim_next_production_task in
    match claimed with
    | Ok (Some task) => run_task profile draining command_lock task
    | Ok None => reply tt
    | Err error => set_worker_status true None (Some (db_err_text error))
    end) (fun _ w' => none_running (tasks w') /\
      (claim_post (tasks w) None (tasks w') \/ exists id, outcome_recorded draining id (tasks w'))) w)
    as ([] & w' & E & Hn & Hcase) by (exists w'; rewrite E; done).
  apply hwp_bind, hwp_emit, hwp_bind. eapply hwp_block_on; [apply wp_claim, Hok|].
  intros [task|] w1 [Hp _] _; simpl in Hp.
  - eapply hwp_mono; [apply hwp_run_task; by eapply claim_only_running; [apply Hok| |exact Hp]|].
    intros [] w2 [Hn Ho]. split; [done|right; eauto].
  - apply hwp_reply. split; [|by left]. destruct Hp as (mid & Hb & -> & _). apply blocked_rightly_maybe in Hb.
    by eapply none_running_blocked.
Qed.

End WorkerQuiet.

(** ** Witnesses *)

(** One enqueue request and how it reads. *)
Definition sample_enqueue : Value :=
  jobj [("kind", JString "steel_in"); ("requestId", JString "k1");
        ("payload", jobj [("materialId", JString "M1")])].
Definition enqueue_codec : JsonCodec :=
  {| json_print := fun _ => "{}"; json_parse := fun s => if s == "enqueue" then Some sample_enqueue else None |}.

Definition sample_inputs : ServiceInputs :=
  {| si_capacity := Some "2"; si_admin_lock := true; si_wakeup_lock := true;
     si_admission := Some default_admission; si_sequence := 4; si_now := 1700000000000;
     si_session_now := 1700000000001; si_worker := None |}.

(** The table after the request was accepted once. *)
Definition enqueued_world : World TaskEvent :=
  snd (@enqueue_response enqueue_codec (quiet_env 1700) sample_inputs "enqueue" "operator"
         (mkWorld (mkDbState empty_database 0) [])).

Lemma enqueue_correct_witness :
  w_events enqueued_world = [WorkerNotified] /\ map t_idempotency_key (production_task (db (w_db enqueued_world))) = ["steel-in:k1"] /\
  exists answer w', @enqueue_response enqueue_codec (quiet_env 1700) sample_inputs "enqueue" "operator"
      (mkWorld (mkDbState empty_database 0) []) = (Some answer, w') /\
    @enqueue_post enqueue_codec sample_inputs "enqueue" "operator" (mkWorld (mkDbState empty_database 0) []) answer w'.
Proof.
  split; [vm_compute; reflexivity|]. split; [vm_compute; reflexivity|].
  apply (@enqueue_correct enqueue_codec (quiet_env 1700) _ sample_inputs).
Defined.

Definition sample_parsed : EnqueueRequest :=
  mkEnqueueRequest "steel-in" (jobj [("materialId", JString "M1")]) "" "" "" "require-success" "steel-in:k1" 1.

Definition sample_enqueued : Task :=
  new_task {| in_id := "TASK-1700000000000-00000000000000000004"; in_idempotency_key := "steel-in:k1";
              in_kind := "steel-in"; in_material_id := "M1"; in_session_id := "M1-1700000000001";
              in_chain_id := "M1-1700000000001"; in_depends_on_task_id := "";
              in_dependency_policy := "require-success"; in_payload := "{}"; in_actor := "operator";
              in_max_attempts := 1 |} "1700".

Lemma enqueue_idempotent_witness :
  exists answer w', @enqueue_response enqueue_codec (quiet_env 1800) sample_inputs "enqueue" "operator" enqueued_world
      = (Some answer, w') /\ unchanged enqueued_world w' /\
    answer = @json_response enqueue_codec "200 OK"
      (jobj [("code", jint 0); ("duplicate", JBool true); ("task", @task_json enqueue_codec sample_enqueued)]).
Proof.
  destruct (@enqueue_idempotent enqueue_codec (quiet_env 1800) _ sample_inputs "enqueue" "operator" sample_parsed
    sample_enqueued enqueued_world) as (answer & w' & Hrun & Hu & Hsame & _);
    [vm_compute; reflexivity|vm_compute; reflexivity|discriminate|reflexivity|table_ok|left; vm_compute; reflexivity|reflexivity|].
  exists answer, w'. split; [exact Hrun|]. split; [exact Hu|]. apply Hsame. vm_compute. auto 10.
Defined.

(** Executors that only answer. *)
Definition sample_executors : TaskExecutors :=
  let ok := reply (http_response "200 OK" json_type "{}") in
  {| production_capture_once := fun _ _ => ok; production_calibration_capture_fit := fun _ _ _ => ok;
     production_algorithm_run := fun _ _ check => let* _ := check in ok; production_event := fun _ _ _ => ok |}.

Lemma sample_executors_keep : @ExecutorsKeepTasks (quiet_env 7) sample_executors.
Proof.
  split; try (intros; intros w; by apply hwp_reply).
  intros payload actor check Hcheck w. simpl. apply hwp_bind. eapply hwp_mono; [apply Hcheck|].
  intros c w' E. by apply hwp_reply.
Qed.

Definition sample_profile : Profile := mkProfile "p" Online (mkRuntimeCapabilities true true true true).

(** The queued task of the sample request is claimed, run and recorded as succeeded. *)
Lemma worker_turn_settles_witness :
  exists w', @worker_turn enqueue_codec (quiet_env 7) sample_executors sample_profile false true enqueued_world = (Some tt, w') /\
    map (fun t => (t_kind t, t_status t)) (production_task (db (w_db w'))) = [("steel-in", "succeeded")] /\
    none_running (production_task (db (w_db w'))).
Proof.
  destruct (@worker_turn_settles enqueue_codec (quiet_env 7) _ sample_executors sample_executors_keep sample_profile
    false true enqueued_world) as (w' & Hrun & Hn & _); [table_ok|intros t [<-|[]]; discriminate|].
  exists w'. split; [exact Hrun|]. split; [|exact Hn].
  change w' with (snd (Some tt, w')). rewrite <- Hrun. vm_compute. reflexivity.
Defined.
