(* ===== verification/TriggerSecurity.v ===== *)
(** * Trigger gateway: sources, signatures and replay protection

    The security half of app/trigger/src/main.rs: reading IP addresses (the parser of the standard
    library), the source allow list, the configuration read from the environment, and the check
    of a signed message with its replay cache. HMAC-SHA256 is the [hmac] crate's code: the class
    [HmacVerify]. *)

From S2P Require Import Prelude Json Http.
From Stdlib Require Import Ascii.

(** ** IP addresses *)

(** [std::net::IpAddr], an address as the number [u32::from] or [u128::from] gives. *)
Inductive IpAddr :=
| V4 (address : Z)
| V6 (address : Z).

#[export] Instance ip_addr_eq : EqDecision IpAddr.
Proof. solve_decision. Defined.

Definition ip_valid (ip : IpAddr) : Prop :=
  match ip with V4 a => 0 <= a < 2 ^ 32 | V6 a => 0 <= a < 2 ^ 128 end.

(** [IpAddr::is_loopback]: 127.0.0.0/8 and ::1. *)
Definition ip_is_loopback (ip : IpAddr) : bool :=
  match ip with V4 a => a / 2 ^ 24 =? 127 | V6 a => a =? 1 end.

Module IpParser.

(** A parser of the standard library's [net::parser]: a value and the rest of the text. *)
Definition Parser (A : Type) : Type := list ascii -> option (A * list ascii).

Definition read_given_char (c : ascii) : Parser unit :=
  fun text => match text with a :: rest => if bool_decide (a = c) then Some (tt, rest) else None | [] => None end.

(** [read_separator]: the separator in front of every item but the first. *)
Definition read_separator {A} (sep : ascii) (index : nat) (inner : Parser A) : Parser A :=
  fun text =>
    match index with
    | O => inner text
    | S _ => match read_given_char sep text with Some (_, rest) => inner rest | None => None end
    end.

(** [char::to_digit] for a radix up to 16. *)
Definition to_digit (radix : Z) (a : ascii) : option Z :=
  filter_opt (fun d => d <? radix) (to_digit16 a).

(** The digits at the front of a text: their value, their number and the rest. *)
Fixpoint read_digits (radix acc : Z) (count : nat) (text : list ascii) : Z * nat * list ascii :=
  match text with
  | a :: rest =>
      match to_digit radix a with
      | Some d => read_digits radix (acc * radix + d) (S count) rest
      | None => (acc, count, text)
      end
  | [] => (acc, count, text)
  end.

(** [read_number] of a type with maximum [m]. *)
Definition read_number (m radix : Z) (max_digits : nat) (allow_zero_prefix : bool) : Parser Z :=
  fun text =>
    let has_leading_zero := match text with a :: _ => byte_is a 48 | [] => false end in
    let '(value, count, rest) := read_digits radix 0 0 text in
    if Nat.eqb count 0 || Nat.ltb max_digits count || (value >? m)
       || (negb allow_zero_prefix && has_leading_zero && Nat.ltb 1 count)
    then None else Some (value, rest).

Definition dot : ascii := ascii_of_nat 46.
Definition colon : ascii := ascii_of_nat 58.

(** [read_ipv4_addr]: four decimal octets. *)
Fixpoint read_octets (n : nat) (index : nat) (acc : Z) : Parser Z :=
  fun text =>
    match n with
    | O => Some (acc, text)
    | S n' =>
        match read_separator dot index (read_number 255 10 3 false) text with
        | Some (octet, rest) => read_octets n' (S index) (acc * 256 + octet) rest
        | None => None
        end
    end.
Definition read_ipv4_addr : Parser Z := read_octets 4 0 0.

(** [read_groups]: at most [left] sixteen-bit groups, the last two possibly as an IPv4 address;
    the groups read and whether they end in an IPv4 address. *)
Fixpoint read_groups (left index : nat) (text : list ascii) : list Z * bool * list ascii :=
  match left with
  | O => ([], false, text)
  | S left' =>
      let ipv4 := match left' with
                  | O => None
                  | S _ => read_separator colon index read_ipv4_addr text
                  end in
      match ipv4 with
      | Some (v4, rest) => ([v4 / 65536; v4 `mod` 65536], true, rest)
      | None =>
          match read_separator colon index (read_number 65535 16 4 true) text with
          | Some (group, rest) =>
              let '(groups, ended, rest') := read_groups left' (S index) rest in
              (group :: groups, ended, rest')
          | None => ([], false, text)
          end
      end
  end.

Definition of_groups (groups : list Z) : Z := fold_left (fun acc g => acc * 65536 + g) groups 0.

(** [read_ipv6_addr]: eight groups, or two runs of groups around a double colon. *)
Definition read_ipv6_addr : Parser Z :=
  fun text =>
    let '(head, head_ipv4, rest) := read_groups 8 0 text in
    if Nat.eqb (length head) 8 then Some (of_groups head, rest)
    else if head_ipv4 then None
    else
      match read_given_char colon rest with
      | Some (_, rest1) =>
          match read_given_char colon rest1 with
          | Some (_, rest2) =>
              let '(tail, _, rest3) := read_groups (8 - (length head + 1)) 0 rest2 in
              Some (of_groups (head ++ repeat 0 (8 - length head - length tail) ++ tail), rest3)
          | None => None
          end
      | None => None
      end.

End IpParser.

(** [str::parse::<IpAddr>]. *)
Definition parse_ip (value : string) : option IpAddr :=
  let text := bytes value in
  match (match IpParser.read_ipv4_addr text with
         | Some (a, rest) => Some (V4 a, rest)
         | None => match IpParser.read_ipv6_addr text with Some (a, rest) => Some (V6 a, rest) | None => None end
         end) with
  | Some (ip, []) => Some ip
  | _ => None
  end.

(** ** Source rules *)

Inductive SourceRule :=
| Address (ip : IpAddr)
| Cidr (network : IpAddr) (prefix : Z).

Definition prefix_valid (ip : IpAddr) (prefix : Z) : bool :=
  match ip with V4 _ => prefix <=? 32 | V6 _ => prefix <=? 128 end.

(** [SourceRule::parse]. *)
Definition parse_rule (value : string) : option SourceRule :=
  let value := trim value in
  match split_once "/" value with
  | Some (address, prefix) =>
      match parse_ip address with
      | Some ip =>
          match parse_u8 prefix with
          | Some prefix => if prefix_valid ip prefix then Some (Cidr ip prefix) else None
          | None => None
          end
      | None => None
      end
  | None => option_map Address (parse_ip value)
  end.

(** [u32::MAX << (32 - prefix)] and its 128-bit sibling, zero for the empty prefix. *)
Definition prefix_mask (width prefix : Z) : Z :=
  if prefix =? 0 then 0
  else Z.land (Z.shiftl (Z.ones width) (width - prefix)) (Z.ones width).

(** [SourceRule::contains]. *)
Definition rule_contains (rule : SourceRule) (candidate : IpAddr) : bool :=
  match rule, candidate with
  | Address expected, actual => bool_decide (expected = actual)
  | Cidr (V4 network) prefix, V4 actual =>
      let mask := prefix_mask 32 prefix in Z.land network mask =? Z.land actual mask
  | Cidr (V6 network) prefix, V6 actual =>
      let mask := prefix_mask 128 prefix in Z.land network mask =? Z.land actual mask
  | _, _ => false
  end.

(** ** Configuration *)

Definition DEFAULT_AUTH_WINDOW_SECONDS : Z := 30.
Definition MAX_REPLAY_ENTRIES : Z := 10000.

Record SecurityConfig := mkSecurityConfig {
  production : bool;
  auth_required : bool;
  shared_secret : string;
  operator_token : string;
  allowed_sources : list SourceRule;
  auth_window_seconds : Z;
  allow_mode_mutation : bool;
}.

(** [env::var]: [None] for a variable that is not set or not Unicode. *)
Definition Environment : Type := string -> option string.

(** main.rs [env_flag]. *)
Definition env_flag (env : Environment) (name : string) : option bool :=
  match env name with
  | Some value =>
      let word := to_ascii_lowercase (trim value) in
      if one_of word ["1"; "true"; "yes"; "on"] then Some true
      else if one_of word ["0"; "false"; "no"; "off"] then Some false
      else None
  | None => None
  end.

Fixpoint parse_allowlist (entries : list string) : Result (list SourceRule) string :=
  match entries with
  | [] => Ok []
  | value :: rest =>
      match parse_rule value with
      | Some rule => let? rules := parse_allowlist rest in Ok (rule :: rules)
      | None => Err ("invalid TRIGGER_SOURCE_ALLOWLIST entry: " +:+ value)
      end
  end.

(** [SecurityConfig::from_env]. *)
Definition security_from_env (env : Environment) (host : string) : Result SecurityConfig string :=
  let profile := to_ascii_lowercase (trim (unwrap_or (env "STEEL_RUNTIME_PROFILE") "development")) in
  let production := profile == "production" in
  let explicit_auth := unwrap_or (env_flag env "TRIGGER_AUTH_REQUIRED") false in
  let auth_required := production || explicit_auth in
  let shared_secret := unwrap_or (env "TRIGGER_SHARED_SECRET") "" in
  if auth_required && (str_len shared_secret <? 32)
  then Err "TRIGGER_SHARED_SECRET must contain at least 32 bytes when trigger authentication is required"
  else
    let operator_token := unwrap_or (env "TRIGGER_OPERATOR_TOKEN") "" in
    if production && (str_len operator_token <? 32)
    then Err "TRIGGER_OPERATOR_TOKEN must contain at least 32 bytes in production"
    else
      let? allowed_sources :=
        parse_allowlist (List.filter (fun value => negb (is_blank value))
          (split_byte (ascii_of_nat 44) (unwrap_or (env "TRIGGER_SOURCE_ALLOWLIST") ""))) in
      let exposes_remote := is_none_or (parse_ip host) (fun address => negb (ip_is_loopback address)) in
      if production && exposes_remote && Nat.eqb (length allowed_sources) 0
      then Err "production trigger gateway bound beyond loopback requires TRIGGER_SOURCE_ALLOWLIST"
      else
        let auth_window_seconds :=
          unwrap_or (match env "TRIGGER_AUTH_WINDOW_SECONDS" with Some value => parse_i64 value | None => None end)
            DEFAULT_AUTH_WINDOW_SECONDS in
        if negb ((5 <=? auth_window_seconds) && (auth_window_seconds <=? 300))
        then Err "TRIGGER_AUTH_WINDOW_SECONDS must be between 5 and 300"
        else
          let allow_mode_mutation := unwrap_or (env_flag env "TRIGGER_ALLOW_MODE_MUTATION") (negb production) in
          Ok (mkSecurityConfig production auth_required shared_secret operator_token allowed_sources
                auth_window_seconds allow_mode_mutation).

(** [SecurityConfig::source_allowed]. *)
Definition config_source_allowed (c : SecurityConfig) (address : IpAddr) : bool :=
  ip_is_loopback address
  || (Nat.eqb (length (allowed_sources c)) 0 && negb (production c))
  || existsb (fun rule => rule_contains rule address) (allowed_sources c).

(** ** State *)

Record ListenerStatus := mkListenerStatus {
  http_enabled : bool;
  http_bound : bool;
  tcp_enabled : bool;
  tcp_bound : bool;
  udp_enabled : bool;
  udp_bound : bool;
}.

Record GatewayState := mkGatewayState {
  mode : string;
  gw_accepting : bool;
  gw_in_flight : Z;
  security : SecurityConfig;
  replay_nonces : gmap string Z;
  listeners : ListenerStatus;
}.

(** The state behind its mutex: [None] when a holder panicked. *)
Definition GatewayCell := option GatewayState.

Definition with_nonces (nonces : gmap string Z) (s : GatewayState) : GatewayState :=
  mkGatewayState (mode s) (gw_accepting s) (gw_in_flight s) (security s) nonces (listeners s).

(** ** Signed messages *)

Record AuthError := mkAuthError { auth_code : Z; auth_error : string }.

Definition auth_error_response (e : AuthError) : Value :=
  jobj [("code", jint (auth_code e)); ("error", JString (auth_error e))].

(** main.rs [decode_hex]. *)
Fixpoint decode_hex_pairs (l : list ascii) : option (list ascii) :=
  match l with
  | high :: low :: rest =>
      match to_digit16 high, to_digit16 low with
      | Some h, Some d =>
          option_map (cons (ascii_of_N (Z.to_N (Z.lor (Z.shiftl h 4) d)))) (decode_hex_pairs rest)
      | _, _ => None
      end
  | _ => Some []
  end.
Definition decode_hex (value : string) : option string :=
  if negb (str_len value `mod` 2 =? 0) then None
  else option_map of_bytes (decode_hex_pairs (bytes value)).

Definition newline : string := String lf EmptyString.

(** main.rs [signature_message]. *)
Definition signature_message (timestamp nonce transport body : string) : string :=
  "steel-trigger-v1" +:+ newline +:+ timestamp +:+ newline +:+ nonce +:+ newline
  +:+ transport +:+ newline +:+ body.

Definition nonce_byte (a : ascii) : bool :=
  is_ascii_alphanumeric a || byte_is a 45 || byte_is a 95 || byte_is a 46 || byte_is a 58.

(** main.rs [valid_nonce]. *)
Definition valid_nonce (value : string) : bool :=
  (16 <=? str_len value) && (str_len value <=? 128) && all_bytes nonce_byte value.

(** [Hmac::new_from_slice], [update] and [verify_slice] of the [hmac] crate on a key, a message
    and a tag; [None] when the key is refused. *)
Class HmacVerify := hmac_verify : string -> string -> string -> option bool.

Section Authenticate.
Context `{HmacVerify}.

(** main.rs [authenticate_message]: one critical section on the gateway state. *)
Definition authenticate_message (cell : GatewayCell) (timestamp nonce signature transport body : string)
    (now : Z) : Result unit AuthError * GatewayCell :=
  match cell with
  | None => (Err (mkAuthError 503 "security_state_unavailable"), cell)
  | Some s =>
      let c := security s in
      if negb (auth_required c) then (Ok tt, cell)
      else
        match parse_i64 timestamp with
        | None => (Err (mkAuthError 401 "invalid_trigger_timestamp"), cell)
        | Some timestamp_value =>
            if Z.abs (now - timestamp_value) >? wrap_u64 (auth_window_seconds c)
            then (Err (mkAuthError 401 "trigger_timestamp_out_of_window"), cell)
            else if negb (valid_nonce nonce)
            then (Err (mkAuthError 401 "invalid_trigger_nonce"), cell)
            else
              match decode_hex signature with
              | None => (Err (mkAuthError 401 "invalid_trigger_signature"), cell)
              | Some tag =>
                  match hmac_verify (shared_secret c) (signature_message timestamp nonce transport body) tag with
                  | None => (Err (mkAuthError 503 "trigger_auth_unavailable"), cell)
                  | Some false => (Err (mkAuthError 401 "invalid_trigger_signature"), cell)
                  | Some true =>
                      let cutoff := now - auth_window_seconds c in
                      let retained := filter (fun entry => cutoff <= snd entry) (replay_nonces s) in
                      if is_some (retained !! nonce)
                      then (Err (mkAuthError 409 "trigger_replay_detected"), Some (with_nonces retained s))
                      else if Z.of_nat (size retained) >=? MAX_REPLAY_ENTRIES
                      then (Err (mkAuthError 503 "trigger_replay_cache_full"), Some (with_nonces retained s))
                      else (Ok tt, Some (with_nonces (<[nonce := now]> retained) s))
                  end
              end
        end
  end.

End Authenticate.

Example parse_ip_v4 : parse_ip "192.168.0.10" = Some (V4 3232235530).
Proof. reflexivity. Qed.
Example parse_ip_v6 : parse_ip "::1" = Some (V6 1).
Proof. reflexivity. Qed.
Example parse_ip_mapped : parse_ip "::ffff:10.0.0.1" = Some (V6 281470849515521).
Proof. reflexivity. Qed.
Example parse_ip_octal : parse_ip "010.0.0.1" = None.
Proof. reflexivity. Qed.
Example parse_ip_gap : parse_ip "fe80::2:1" = Some (V6 (65152 * 2 ^ 112 + 131073)).
Proof. reflexivity. Qed.

(** ** Source rules *)

(** Masking keeps exactly the bits above [width - prefix]. *)
Lemma masked_testbit width prefix a i : 0 < prefix <= width -> 0 <= a < 2 ^ width -> 0 <= i ->
  Z.testbit (Z.land a (prefix_mask width prefix)) i = Z.testbit a i && (width - prefix <=? i).
Proof.
  intros Hp Ha Hi. unfold prefix_mask. replace (prefix =? 0) with false by (symmetry; apply Z.eqb_neq; lia).
  rewrite !Z.land_spec. destruct (Z.ltb_spec i width) as [Hw|Hw].
  - rewrite (Z.ones_spec_low width i) by lia. rewrite Z.shiftl_spec by lia. rewrite andb_true_r. f_equal.
    destruct (Z.leb_spec (width - prefix) i).
    + apply Z.ones_spec_low. lia.
    + apply Z.testbit_neg_r. lia.
  - assert (Z.testbit a i = false) as ->; [|done].
    destruct (Z.eq_dec a 0) as [->|]; [apply Z.testbit_0_l|].
    apply Z.bits_above_log2; [lia|]. apply Z.log2_lt_pow2; [lia|].
    apply Z.lt_le_trans with (2 ^ width); [lia|]. apply Z.pow_le_mono_r; lia.
Qed.

Lemma masked_eq width prefix a b : 0 <= prefix <= width -> 0 <= a < 2 ^ width -> 0 <= b < 2 ^ width ->
  (Z.land a (prefix_mask width prefix) =? Z.land b (prefix_mask width prefix)) = true <->
  a / 2 ^ (width - prefix) = b / 2 ^ (width - prefix).
Proof.
  intros Hp Ha Hb. rewrite Z.eqb_eq. destruct (Z.eq_dec prefix 0) as [->|Hn].
  { unfold prefix_mask. simpl. rewrite !Z.land_0_r, Z.sub_0_r, !Z.div_small by lia. done. }
  rewrite <- !Z.shiftr_div_pow2 by lia. split; intros E; apply Z.bits_inj'; intros i Hi.
  - rewrite !Z.shiftr_spec by lia. apply (f_equal (fun z => Z.testbit z (i + (width - prefix)))) in E.
    rewrite !masked_testbit in E by lia.
    replace (width - prefix <=? i + (width - prefix)) with true in E by (symmetry; apply Z.leb_le; lia).
    by rewrite !andb_true_r in E.
  - rewrite !masked_testbit by lia. destruct (Z.leb_spec (width - prefix) i); [|by rewrite !andb_false_r].
    apply (f_equal (fun z => Z.testbit z (i - (width - prefix)))) in E. rewrite !Z.shiftr_spec in E by lia.
    replace (i - (width - prefix) + (width - prefix)) with i in E by lia. by rewrite E.
Qed.

(** The address a rule names and the number of leading bits it fixes, in an address family. *)
Definition rule_network (rule : SourceRule) : IpAddr := match rule with Address ip => ip | Cidr ip _ => ip end.
Definition rule_prefix (rule : SourceRule) : Z :=
  match rule with
  | Address (V4 _) => 32
  | Address (V6 _) => 128
  | Cidr _ prefix => prefix
  end.

(** Two addresses of one family whose first [n] bits agree. *)
Definition agree (n : Z) (x y : IpAddr) : Prop :=
  match x, y with
  | V4 a, V4 b => a / 2 ^ (32 - n) = b / 2 ^ (32 - n)
  | V6 a, V6 b => a / 2 ^ (128 - n) = b / 2 ^ (128 - n)
  | _, _ => False
  end.

Lemma rule_contains_agree rule ip : ip_valid (rule_network rule) -> ip_valid ip ->
  prefix_valid (rule_network rule) (rule_prefix rule) = true -> 0 <= rule_prefix rule ->
  rule_contains rule ip = true <-> agree (rule_prefix rule) (rule_network rule) ip.
Proof.
  destruct rule as [[a|a]|[a|a] n], ip as [b|b]; simpl; intros Ha Hb Hn H0; bool_facts;
    rewrite ?bool_decide_eq_true, ?masked_eq by lia; try done;
    rewrite ?Z.sub_diag, ?Z.pow_0_r, ?Z.div_1_r; split; congruence.
Qed.

(** *** Addresses read are addresses *)

Lemma to_digit16_range a d : to_digit16 a = Some d -> 0 <= d < 16.
Proof. unfold to_digit16. repeat case_match; intros; simplify_eq; unfold is_ascii_digit, byte_between in *; bool_facts; lia. Qed.

Lemma read_digits_nonneg radix text : forall acc count v n rest, 0 < radix -> 0 <= acc ->
  IpParser.read_digits radix acc count text = (v, n, rest) -> 0 <= v.
Proof.
  induction text as [|a text IH]; simpl; intros acc count v n rest Hr Hacc E; [by simplify_eq|].
  destruct (IpParser.to_digit radix a) as [d|] eqn:Ed; [|by simplify_eq].
  eapply IH in E; [done..|]. unfold IpParser.to_digit, filter_opt in Ed. repeat case_match; simplify_eq.
  match goal with X : to_digit16 _ = _ |- _ => apply to_digit16_range in X end. nia.
Qed.

Lemma read_number_range m radix k z text v rest : 0 < radix ->
  IpParser.read_number m radix k z text = Some (v, rest) -> 0 <= v <= m.
Proof.
  unfold IpParser.read_number. intros Hr.
  destruct (IpParser.read_digits radix 0 0 text) as [[v' n] rest'] eqn:E.
  destruct (_ || _) eqn:Eb; [done|]. intros [= -> ->]. apply orb_false_iff in Eb as [Eb _].
  apply orb_false_iff in Eb as [_ Eb]. eapply read_digits_nonneg in E; lia.
Qed.

Lemma read_separator_inner {A} sep i (p : IpParser.Parser A) (P : A -> Prop) text v rest :
  (forall t v r, p t = Some (v, r) -> P v) -> IpParser.read_separator sep i p text = Some (v, rest) -> P v.
Proof. intros Hp. unfold IpParser.read_separator. repeat case_match; intros; simplify_eq; eauto. Qed.

Lemma read_octets_range n : forall i acc text v rest, 0 <= acc ->
  IpParser.read_octets n i acc text = Some (v, rest) -> 0 <= v < (acc + 1) * 256 ^ Z.of_nat n.
Proof.
  induction n as [|n IH]; intros i acc text v rest Hacc E; cbn [IpParser.read_octets] in E.
  { simplify_eq. simpl. lia. }
  destruct (IpParser.read_separator _ _ _ _) as [[octet rest']|] eqn:Es; [|done].
  apply (read_separator_inner _ _ _ (fun v => 0 <= v <= 255)) in Es.
  - apply IH in E; [|lia]. rewrite Nat2Z.inj_succ, Z.pow_succ_r by lia. nia.
  - intros ??? Hn. by apply read_number_range in Hn.
Qed.

Lemma read_ipv4_range text v rest : IpParser.read_ipv4_addr text = Some (v, rest) -> 0 <= v < 2 ^ 32.
Proof. intros E. by apply read_octets_range in E. Qed.

Lemma read_groups_range left : forall index text groups ended rest,
  IpParser.read_groups left index text = (groups, ended, rest) ->
  (length groups <= left)%nat /\ Forall (fun g => 0 <= g < 65536) groups.
Proof.
  induction left as [|left IH]; intros index text groups ended rest E; cbn [IpParser.read_groups] in E.
  { simplify_eq. split; [done|constructor]. }
  destruct (match left with O => None | S _ => _ end) as [[v4 r]|] eqn:E4.
  - destruct left as [|left]; [done|]. simplify_eq. split; [simpl; lia|].
    apply (read_separator_inner _ _ _ (fun v => 0 <= v < 2 ^ 32)) in E4.
    + apply Forall_cons; split; [|apply Forall_cons; split; [apply Z.mod_pos_bound; lia|constructor]].
      split; [apply Z.div_pos; lia|apply Z.div_lt_upper_bound; lia].
    + intros ??? Hr. by apply read_ipv4_range in Hr.
  - clear E4. destruct (IpParser.read_separator _ _ _ _) as [[g r]|] eqn:Es.
    + destruct (IpParser.read_groups left (S index) r) as [[gs e] r'] eqn:Eg. simplify_eq.
      apply IH in Eg as [Hl Hg]. split; [simpl; lia|]. constructor; [|done].
      apply (read_separator_inner _ _ _ (fun v => 0 <= v <= 65535)) in Es; [lia|].
      intros ??? Hn. by apply read_number_range in Hn.
    + simplify_eq. split; [simpl; lia|constructor].
Qed.

Lemma of_groups_range groups : Forall (fun g => 0 <= g < 65536) groups ->
  0 <= IpParser.of_groups groups < 65536 ^ Z.of_nat (length groups).
Proof.
  unfold IpParser.of_groups. intros Hg.
  assert (Hgen : forall acc, 0 <= acc -> 0 <= fold_left (fun acc g => acc * 65536 + g) groups acc
                 < (acc + 1) * 65536 ^ Z.of_nat (length groups)).
  { induction Hg as [|g groups Hr Hg IH]; intros acc Hacc; cbn [fold_left length]; [simpl; lia|].
    specialize (IH (acc * 65536 + g) ltac:(lia)). rewrite Nat2Z.inj_succ, Z.pow_succ_r by lia.
    pose proof (Z.pow_pos_nonneg 65536 (Z.of_nat (length groups))). nia. }
  specialize (Hgen 0). lia.
Qed.

Lemma read_ipv6_range text v rest : IpParser.read_ipv6_addr text = Some (v, rest) -> 0 <= v < 2 ^ 128.
Proof.
  unfold IpParser.read_ipv6_addr. intros E.
  destruct (IpParser.read_groups 8 0 text) as [[head ended] r] eqn:Eh.
  apply read_groups_range in Eh as [Hl Hh].
  assert (H8 : forall gs, length gs = 8%nat -> Forall (fun g => 0 <= g < 65536) gs ->
    0 <= IpParser.of_groups gs < 2 ^ 128).
  { intros gs Hlen Hgs. apply of_groups_range in Hgs. rewrite Hlen in Hgs. exact Hgs. }
  destruct (Nat.eqb_spec (length head) 8); [simplify_eq; auto|].
  destruct ended; [done|]. repeat case_match; simplify_eq.
  match goal with X : IpParser.read_groups _ _ _ = _ |- _ => apply read_groups_range in X as [Hlt Ht] end.
  apply H8.
  - rewrite !length_app, repeat_length. lia.
  - apply Forall_app; split; [done|]. apply Forall_app; split; [|done].
    apply Forall_forall. intros x Hx%list_elem_of_In%repeat_spec. lia.
Qed.

Lemma parse_ip_valid value ip : parse_ip value = Some ip -> ip_valid ip.
Proof.
  unfold parse_ip. destruct (IpParser.read_ipv4_addr _) as [[a r]|] eqn:E4.
  - destruct r; [|done]. intros [= <-]. by apply read_ipv4_range in E4.
  - destruct (IpParser.read_ipv6_addr _) as [[a r]|] eqn:E6; [|done].
    destruct r; [|done]. intros [= <-]. by apply read_ipv6_range in E6.
Qed.

(** Source rules. A rule read from the allow list is well formed, and it matches exactly the
    addresses of its family that agree with it on its first prefix bits: all bits of a single
    address, none for a zero prefix. *)
Theorem source_rule_matches_prefix (text : string) (rule : SourceRule) (ip : IpAddr) :
  parse_rule text = Some rule -> ip_valid ip ->
  ip_valid (rule_network rule) /\
  0 <= rule_prefix rule <= (match rule_network rule with V4 _ => 32 | V6 _ => 128 end) /\
  (rule_contains rule ip = true <-> agree (rule_prefix rule) (rule_network rule) ip).
Proof.
  intros Hp Hip.
  assert (Hr : ip_valid (rule_network rule) /\ prefix_valid (rule_network rule) (rule_prefix rule) = true
               /\ 0 <= rule_prefix rule).
  { unfold parse_rule in Hp. destruct (split_once _ _) as [[address prefix]|].
    - destruct (parse_ip address) as [net|] eqn:Ea; [|done].
      destruct (parse_u8 prefix) as [n|] eqn:En; [|done].
      destruct (prefix_valid net n) eqn:Ev; simplify_eq. apply parse_ip_valid in Ea.
      apply parse_unsigned_range in En; [|lia]. simpl. auto with lia.
    - destruct (parse_ip _) as [net|] eqn:Ea; simplify_eq/=. apply parse_ip_valid in Ea.
      by destruct net. }
  destruct Hr as (Hn & Hv & H0). split; [done|]. split; [|by apply rule_contains_agree].
  unfold prefix_valid in Hv. destruct (rule_network rule); bool_facts; lia.
Qed.

Lemma source_rule_matches_prefix_witness :
  parse_rule " 192.168.4.0/22" = Some (Cidr (V4 3232236544) 22) /\
  rule_contains (Cidr (V4 3232236544) 22) (V4 3232237055) = true /\
  rule_contains (Cidr (V4 3232236544) 22) (V4 3232237568) = false /\
  agree 22 (V4 3232236544) (V4 3232237055).
Proof.
  split; [vm_compute; reflexivity|]. split; [vm_compute; reflexivity|]. split; [vm_compute; reflexivity|].
  apply (source_rule_matches_prefix " 192.168.4.0/22" (Cidr (V4 3232236544) 22) (V4 3232237055)); [vm_compute; reflexivity|simpl; lia|vm_compute; reflexivity].
Defined.
