(* ===== verification/TriggerGateway.v ===== *)
(** * Trigger gateway: requests

    The request half of app/trigger/src/main.rs: admission and drain, the trigger mode, the routes
    and the handlers of the HTTP, TCP and UDP listeners. The threads of the gateway share one state
    behind a mutex, so a handler is a program of atomic steps: a critical section on the state, a
    reading of the clock, or an exchange with the inspection service. Programs of several threads
    interleave at those steps. *)

From S2P Require Import Prelude Json Http Runtime TriggerSecurity.
From Stdlib Require Import Ascii.

(** ** Programs *)

(** One exchange with the inspection service: where, what and the bytes sent. *)
Record ServiceCall := mkServiceCall {
  sc_host : string;
  sc_port : Z;
  sc_method : string;
  sc_path : string;
  sc_text : string;
}.

Inductive Prog (A : Type) : Type :=
| Done (a : A)
| Lock {B : Type} (section : GatewayCell -> B * GatewayCell) (k : B -> Prog A)
| Clock (k : Z -> Prog A)
| Exchange (call : ServiceCall) (k : option string -> Prog A).
Arguments Done {A} a.
Arguments Lock {A B} section k.
Arguments Clock {A} k.
Arguments Exchange {A} call k.

Fixpoint pbind {A B} (m : Prog A) (f : A -> Prog B) : Prog B :=
  match m with
  | Done a => f a
  | Lock section k => Lock section (fun b => pbind (k b) f)
  | Clock k => Clock (fun now => pbind (k now) f)
  | Exchange call k => Exchange call (fun answer => pbind (k answer) f)
  end.

Notation "'let%' x := m 'in' k" := (pbind m (fun x => k))
  (at level 10, x binder, m at level 100, k at level 200,
   format "'[v' 'let%'  x  :=  m  'in' '/' k ']'") : rust_scope.

Definition lock {B} (section : GatewayCell -> B * GatewayCell) : Prog B := Lock section Done.
Definition unix_seconds : Prog Z := Clock Done.

(** A critical section that only reads; [poisoned] is its answer on a poisoned mutex. *)
Definition read_state {B} (read : GatewayState -> B) (poisoned : B) : Prog B :=
  lock (fun cell => (match cell with Some s => read s | None => poisoned end, cell)).

(** ** Admission *)

Section Responses.
Context `{JsonCodec} `{HmacVerify}.

(** SHA-256, of the [sha2] crate. *)
Variable sha256 : string -> string.

(** The gateway's own [http_response]. *)
Definition gateway_response (status content_type body : string) : string :=
  "HTTP/1.1 " +:+ status +:+ crlf +:+
  "Content-Type: " +:+ content_type +:+ crlf +:+
  "Content-Length: " +:+ dec (str_len body) +:+ crlf +:+
  "X-Content-Type-Options: nosniff" +:+ crlf +:+
  "Cache-Control: no-store" +:+ crlf +:+
  "Connection: close" +:+ blank_line +:+ body.

Definition gateway_json (status : string) (body : Value) : string :=
  gateway_response status json_type (json_print body).

Definition code_error (code : Z) (error : string) : Value :=
  jobj [("code", jint code); ("error", JString error)].

Definition trigger_draining_json : Value := code_error 503 "trigger_draining".
Definition gateway_state_unavailable_json : Value := code_error 503 "gateway_state_unavailable".

Definition with_in_flight (n : Z) (s : GatewayState) : GatewayState :=
  mkGatewayState (mode s) (gw_accepting s) n (security s) (replay_nonces s) (listeners s).

(** main.rs [admit_trigger]; [Ok] hands out a [TriggerAdmissionGuard]. *)
Definition admit_section (completion : bool) (cell : GatewayCell) : Result unit Value * GatewayCell :=
  match cell with
  | None => (Err gateway_state_unavailable_json, cell)
  | Some s =>
      if negb (gw_accepting s) && negb completion then (Err trigger_draining_json, cell)
      else
        match checked_add u64_max (gw_in_flight s) 1 with
        | None => (Err gateway_state_unavailable_json, cell)
        | Some n => (Ok tt, Some (with_in_flight n s))
        end
  end.
Definition admit_trigger (completion : bool) : Prog (Result unit Value) := lock (admit_section completion).

(** [TriggerAdmissionGuard::drop]. *)
Definition release_section (cell : GatewayCell) : unit * GatewayCell :=
  (tt, option_map (fun s => with_in_flight (sat_sub (gw_in_flight s) 1) s) cell).
Definition release_guard : Prog unit := lock release_section.

(** main.rs [completion_target]. *)
Definition completion_target (target : string) : bool := target == "/api/production/tasks/steel-out".

(** main.rs [admission_status_json]. *)
Definition admission_status_json : Prog Value :=
  read_state
    (fun s => jobj [("accepting", JBool (gw_accepting s)); ("inFlight", jint (gw_in_flight s));
                    ("drained", JBool (negb (gw_accepting s) && (gw_in_flight s =? 0)))])
    (jobj [("accepting", JBool false); ("inFlight", JNull); ("drained", JBool false);
           ("error", JString "gateway_state_unavailable")]).

(** main.rs [enter_drain]. *)
Definition drain_section (cell : GatewayCell) : Result Value string * GatewayCell :=
  match cell with
  | None => (Err (gateway_json "503 Service Unavailable" (code_error 503 "gateway_state_unavailable")), cell)
  | Some s =>
      (Ok (jobj [("code", jint 0); ("accepting", JBool false); ("inFlight", jint (gw_in_flight s));
                 ("drained", JBool (gw_in_flight s =? 0))]),
       Some (mkGatewayState (mode s) false (gw_in_flight s) (security s) (replay_nonces s) (listeners s)))
  end.
Definition enter_drain : Prog (Result Value string) := lock drain_section.

(** main.rs [trigger_admission_http_response]. *)
Definition trigger_admission_http_response (error : Value) : string :=
  gateway_json "503 Service Unavailable" error.

(** ** Sources and operators *)

(** main.rs [source_allowed]. *)
Definition source_allowed (peer : IpAddr) : Prog bool :=
  read_state (fun s => config_source_allowed (security s) peer) false.

(** main.rs [security_snapshot]. *)
Definition security_snapshot : Prog Value :=
  read_state
    (fun s =>
       let c := security s in
       jobj [("profile", JString (if production c then "production" else "development"));
             ("authenticationRequired", JBool (auth_required c));
             ("operatorAuthenticationRequired", JBool (production c));
             ("sourceAllowlistConfigured", JBool (negb (Nat.eqb (length (allowed_sources c)) 0)));
             ("authWindowSeconds", jint (auth_window_seconds c));
             ("modeMutationAllowed", JBool (allow_mode_mutation c))])
    (jobj [("error", JString "security_state_unavailable")]).

(** main.rs [constant_time_token_matches], the same code as the inspection service's. *)
Definition constant_time_token_matches (expected supplied : string) : bool :=
  Z.lor (Z.lxor (str_len expected) (str_len supplied))
        (zip_difference (bytes (sha256 expected)) (bytes (sha256 supplied))) =? 0.

Definition operator_header : string := "X-Trigger-Operator-Token".

(** main.rs [authorize_operator_request]. *)
Definition operator_section (request : string) (cell : GatewayCell) : Result unit string * GatewayCell :=
  (match cell with
   | None => Err (gateway_json "503 Service Unavailable" (code_error 503 "security_state_unavailable"))
   | Some s =>
       if negb (production (security s)) then Ok tt
       else
         let supplied := unwrap_or (request_header request operator_header) "" in
         if is_empty supplied || negb (constant_time_token_matches (operator_token (security s)) supplied)
         then Err (gateway_json "401 Unauthorized" (code_error 401 "trigger_operator_auth_required"))
         else Ok tt
   end, cell).
Definition authorize_operator_request (request : string) (peer : IpAddr) : Prog (Result unit string) :=
  if negb (ip_is_loopback peer)
  then Done (Err (gateway_json "403 Forbidden" (code_error 403 "local_operator_only")))
  else lock (operator_section request).

(** ** Modes *)

(** [ListenerStatus::ready] and [ListenerStatus::to_json]. *)
Definition listeners_ready (l : ListenerStatus) : bool :=
  (negb (http_enabled l) || http_bound l) && (negb (tcp_enabled l) || tcp_bound l)
  && (negb (udp_enabled l) || udp_bound l).

Definition listeners_json (l : ListenerStatus) : Value :=
  let pair enabled bound := jobj [("enabled", JBool enabled); ("bound", JBool bound)] in
  jobj [("http", pair (http_enabled l) (http_bound l)); ("tcp", pair (tcp_enabled l) (tcp_bound l));
        ("udp", pair (udp_enabled l) (udp_bound l))].

(** main.rs [normalize_gateway_mode]. *)
Definition normalize_gateway_mode (value : string) : string :=
  let word := to_ascii_lowercase (trim value) in
  if one_of word ["manual"; "手动"] then "manual"
  else if one_of word ["gray"; "grey"; "grayscale"; "灰度"] then "gray"
  else if one_of word ["secondary"; "level2"; "l2"; "二级"] then "secondary"
  else if word == "tcp" then "tcp"
  else if word == "udp" then "udp"
  else "api".

(** main.rs [current_mode]. *)
Definition current_mode : Prog string := read_state mode "api".

(** main.rs [set_current_mode]. *)
Definition set_mode_section (requested : string) (cell : GatewayCell) : string * GatewayCell :=
  let normalized := normalize_gateway_mode requested in
  (normalized,
   option_map (fun s => mkGatewayState normalized (gw_accepting s) (gw_in_flight s) (security s)
                          (replay_nonces s) (listeners s)) cell).
Definition set_current_mode (requested : string) : Prog string := lock (set_mode_section requested).

(** main.rs [mode_label]. *)
Definition mode_label (mode : string) : string :=
  if mode == "manual" then "手动"
  else if mode == "gray" then "灰度"
  else if mode == "secondary" then "二级"
  else if mode == "tcp" then "TCP"
  else if mode == "udp" then "UDP"
  else "API".

(** main.rs [mode_json]. *)
Definition mode_fields (mode : string) : list (string * Value) :=
  [("code", jint 0); ("mode", JString mode); ("modeLabel", JString (mode_label mode));
   ("manualAllowed", JBool (mode == "manual"));
   ("allowedModes", JArray (map JString ["api"; "tcp"; "udp"; "gray"; "secondary"; "manual"]))].
Definition mode_json (mode : string) : Value := jobj (mode_fields mode).

(** ** Routes *)

(** main.rs [event_service_path]. *)
Definition event_service_path (event : string) : option string :=
  let word := replace_byte (ascii_of_nat 95) (ascii_of_nat 45) (to_ascii_lowercase (trim event)) in
  if one_of word ["steel-info"; "info"; "material-info"] then Some "/api/production/tasks/steel-info"
  else if one_of word ["steel-in"; "in"; "enter"] then Some "/api/production/tasks/steel-in"
  else if one_of word ["steel-out"; "out"; "leave"] then Some "/api/production/tasks/steel-out"
  else if one_of word ["secondary-data"; "l2-data"] then Some "/api/production/secondary-data"
  else if word == "capture-summary" then Some "/api/production/capture-summary"
  else if word == "capture-once" then Some "/api/production/capture-once"
  else if word == "defect" then Some "/api/production/defect"
  else if one_of word ["event"; "trigger-event"] then Some "/api/production/tasks/trigger-event"
  else None.

(** main.rs [gateway_source]. *)
Definition gateway_source (path : string) : string :=
  if contains "/plc/" path then "plc"
  else if contains "/l2/" path then "l2"
  else "trigger-gateway".

(** main.rs [service_path_for]. *)
Definition service_path_for (path : string) : option string :=
  if one_of path ["/api/trigger/steel-info"; "/api/l2/steel-info"] then Some "/api/production/tasks/steel-info"
  else if one_of path ["/api/trigger/steel-in"; "/api/plc/steel-in"] then Some "/api/production/tasks/steel-in"
  else if one_of path ["/api/trigger/steel-out"; "/api/plc/steel-out"] then Some "/api/production/tasks/steel-out"
  else if one_of path ["/api/trigger/secondary-data"; "/api/l2/secondary-data"] then Some "/api/production/secondary-data"
  else if path == "/api/trigger/capture-summary" then Some "/api/production/capture-summary"
  else if path == "/api/trigger/capture-once" then Some "/api/production/capture-once"
  else if path == "/api/trigger/defect" then Some "/api/production/defect"
  else if one_of path ["/api/trigger/event"; "/api/plc/event"] then Some "/api/production/tasks/trigger-event"
  else None.

(** main.rs [manual_service_path_for]. *)
Definition manual_service_path_for (path : string) : option string :=
  if one_of path ["/api/trigger/manual/steel-info"; "/api/manual/steel-info"] then Some "/api/production/tasks/steel-info"
  else if one_of path ["/api/trigger/manual/steel-in"; "/api/manual/steel-in"] then Some "/api/production/tasks/steel-in"
  else if one_of path ["/api/trigger/manual/steel-out"; "/api/manual/steel-out"] then Some "/api/production/tasks/steel-out"
  else None.

(** main.rs [manual_mode_required_response]. *)
Definition manual_mode_required_response (mode : string) : string :=
  gateway_json "409 Conflict"
    (jobj [("code", jint 409); ("error", JString "manual_mode_required"); ("mode", JString mode);
           ("manualAllowed", JBool false);
           ("message", JString "manual steel-in/out controls are only available when trigger mode is manual")]).

(** [Map::entry(k).or_insert(v)]. *)
Definition or_insert (k : string) (v : Value) (m : list (string * Value)) : list (string * Value) :=
  match mget k m with Some _ => m | None => minsert k v m end.

(** main.rs [enrich_payload]. *)
Definition enrich_payload (body source mode : string) : string :=
  let payload := unwrap_or (json_parse (trim body)) (jobj []) in
  let object := match payload with JObject m => m | other => [("raw", other)] end in
  json_print (JObject (or_insert "mode" (JString mode) (or_insert "source" (JString source) object))).

(** ** The inspection service *)

Definition slash : ascii := ascii_of_nat 47.

(** The text before the first slash, question mark or hash. *)
Fixpoint authority_of (s : string) : string :=
  match s with
  | EmptyString => EmptyString
  | String a r => if byte_is a 47 || byte_is a 63 || byte_is a 35 then EmptyString else String a (authority_of r)
  end.

(** main.rs [origin_host_port]. *)
Definition origin_host_port (origin : string) : option (string * Z) :=
  match strip_prefix "http://" (trim origin) with
  | Some rest =>
      match rsplit_colon (authority_of rest) with
      | Some (host, port) => option_map (fun p => (host, p)) (parse_u16 port)
      | None => None
      end
  | None => None
  end.

Variable env : Environment.

(** The operator token the gateway presents to the service. *)
Definition service_operator_line : string :=
  match env "TRIGGER_OPERATOR_TOKEN" with
  | Some token =>
      if (32 <=? str_len token) && negb (contains (String cr EmptyString) token)
         && negb (contains (String lf EmptyString) token)
      then operator_header +:+ ": " +:+ token +:+ crlf else ""
  | None => ""
  end.

(** The JSON body of the raw bytes of a response. *)
Definition response_json (answer : option string) : option Value :=
  match answer with
  | Some response =>
      match split_once blank_line response with Some (_, body) => json_parse body | None => None end
  | None => None
  end.

(** main.rs [post_json]; the exchange answers [None] when connecting, writing or reading fails. *)
Definition post_json (origin path body : string) : Prog (option Value) :=
  match origin_host_port origin with
  | None => Done None
  | Some (host, port) =>
      let request :=
        "POST " +:+ path +:+ " HTTP/1.1" +:+ crlf +:+ "Host: " +:+ host +:+ ":" +:+ dec port +:+ crlf +:+
        "Connection: close" +:+ crlf +:+ "Content-Type: application/json" +:+ crlf +:+
        "Content-Length: " +:+ dec (str_len body) +:+ crlf +:+ service_operator_line +:+ crlf +:+ body in
      Exchange (mkServiceCall host port "POST" path request) (fun answer => Done (response_json answer))
  end.

(** main.rs [get_json]. *)
Definition get_json (origin path : string) : Prog (option Value) :=
  match origin_host_port origin with
  | None => Done None
  | Some (host, port) =>
      let request :=
        "GET " +:+ path +:+ " HTTP/1.1" +:+ crlf +:+ "Host: " +:+ host +:+ ":" +:+ dec port +:+ crlf +:+
        "Connection: close" +:+ blank_line in
      Exchange (mkServiceCall host port "GET" path request) (fun answer => Done (response_json answer))
  end.

Definition service_offline : Value := code_error 503 "inspection_service_offline".

Definition service_code (service : Value) : Value := jint (unwrap_or (get_i64 "code" service) 503).

(** ** TCP and UDP triggers *)

(** The message of a JSON error ([serde_json]) and of a UTF-8 error. *)
Variable json_error_text : string -> string.
Variable utf8_error_text : string -> string.
Variable origin : string.

Definition authenticate (timestamp nonce signature transport body : string) (now : Z) : Prog (Result unit AuthError) :=
  lock (fun cell => authenticate_message cell timestamp nonce signature transport body now).

(** main.rs [authenticated_network_payload]. *)
Definition authenticated_network_payload (body transport : string) (now : Z) : Prog (Result Value Value) :=
  match json_parse (trim body) with
  | None => Done (Err (jobj [("code", jint 400); ("error", JString "invalid_json");
                             ("message", JString (json_error_text (trim body)))]))
  | Some (JObject object) =>
      let envelope := JObject object in
      let% required := read_state (fun s => auth_required (security s)) true in
      match jget "payload" envelope with
      | None => Done (if required then Err (code_error 401 "trigger_auth_required") else Ok envelope)
      | Some payload =>
          if negb (is_object payload) then Done (Err (code_error 400 "invalid_trigger_payload"))
          else
            match jget "auth" envelope with
            | Some (JObject auth) =>
                let timestamp :=
                  match mget "timestamp" auth with
                  | Some (JString value) => value
                  | Some other => json_print other
                  | None => ""
                  end in
                let nonce := unwrap_or (get_str "nonce" (JObject auth)) "" in
                let signature := unwrap_or (get_str "signature" (JObject auth)) "" in
                let% verdict := authenticate timestamp nonce signature transport (json_print payload) now in
                Done (match verdict with Err e => Err (auth_error_response e) | Ok _ => Ok payload end)
            | _ => Done (Err (code_error 401 "trigger_auth_required"))
            end
      end
  | Some _ => Done (Err (jobj [("code", jint 400); ("error", JString "invalid_payload");
                               ("message", JString "trigger payload must be a JSON object")]))
  end.

(** main.rs [network_trigger_response]. *)
Definition network_trigger_response (body transport : string) (peer : IpAddr) : Prog Value :=
  let% allowed := source_allowed peer in
  if negb allowed then Done (code_error 403 "trigger_source_forbidden")
  else
    let% now := unix_seconds in
    let% verdict := authenticated_network_payload body transport now in
    match verdict with
    | Err error => Done error
    | Ok payload =>
        let event :=
          unwrap_or (match or_else (jget "event" payload) (or_else (jget "type" payload) (jget "action" payload)) with
                     | Some value => as_str value
                     | None => None
                     end) "" in
        match event_service_path event with
        | None =>
            Done (jobj [("code", jint 400); ("error", JString "unsupported_event"); ("event", JString event);
                        ("supportedEvents", JArray (map JString
                           ["steel-info"; "steel-in"; "steel-out"; "secondary-data"; "capture-once";
                            "capture-summary"; "defect"; "event"]))])
        | Some target =>
            let% admitted := admit_trigger (completion_target target) in
            match admitted with
            | Err error => Done error
            | Ok _ =>
                let% mode := current_mode in
                let enriched := enrich_payload (json_print payload) transport mode in
                let% answer := post_json origin target enriched in
                let service := unwrap_or answer service_offline in
                let% _ := release_guard in
                Done (jobj [("code", service_code service); ("gateway", JString "steel-trigger-gateway");
                            ("transport", JString transport); ("mode", JString mode);
                            ("event", JString event); ("target", JString target); ("service", service)])
            end
        end
    end.

(** What [read_line] gives on a TCP connection (an empty line at its end), and whether the answer
    can be written. *)
Inductive LineEvent :=
| LineRead (line : string) (written : bool)
| LineFailed.

(** main.rs [handle_tcp_trigger]: the responses written. *)
Fixpoint handle_tcp_trigger (peer : IpAddr) (stream : list LineEvent) : Prog (list string) :=
  match stream with
  | [] | LineFailed :: _ => Done []
  | LineRead line written :: stream' =>
      if is_empty line then Done []
      else if negb (str_len line >? 65536) && is_blank line then handle_tcp_trigger peer stream'
      else
        let% response :=
          (if str_len line >? 65536 then Done (code_error 413 "payload_too_large")
           else network_trigger_response line "tcp" peer) in
        let encoded := json_print response +:+ newline in
        if written then (let% rest := handle_tcp_trigger peer stream' in Done (encoded :: rest))
        else Done []
  end.

(** The datagrams of main.rs [run_udp_trigger_listener]: one answer each. *)
Definition handle_datagram (datagram : string) (peer : IpAddr) : Prog string :=
  if utf8_valid datagram
  then (let% response := network_trigger_response datagram "udp" peer in Done (json_print response))
  else Done (json_print (jobj [("code", jint 400); ("error", JString "invalid_utf8");
                               ("message", JString (utf8_error_text datagram))])).

(** ** HTTP *)

(** main.rs [http_auth_error]. *)
Definition http_auth_error (error : AuthError) : string :=
  let status :=
    if auth_code error =? 409 then "409 Conflict"
    else if auth_code error =? 503 then "503 Service Unavailable"
    else "401 Unauthorized" in
  gateway_json status (auth_error_response error).

(** main.rs [authorize_http_trigger]. *)
Definition authorize_http_trigger (request body : string) (peer : IpAddr) : Prog (Result unit string) :=
  let% allowed := source_allowed peer in
  if negb allowed
  then Done (Err (gateway_json "403 Forbidden" (code_error 403 "trigger_source_forbidden")))
  else if is_some (request_header request operator_header)
  then authorize_operator_request request peer
  else
    let timestamp := unwrap_or (request_header request "X-Trigger-Timestamp") "" in
    let nonce := unwrap_or (request_header request "X-Trigger-Nonce") "" in
    let signature := unwrap_or (request_header request "X-Trigger-Signature") "" in
    let% required := read_state (fun s => auth_required (security s)) true in
    if required && (is_empty timestamp || is_empty nonce || is_empty signature)
    then Done (Err (http_auth_error (mkAuthError 401 "trigger_auth_required")))
    else
      let% now := unix_seconds in
      let% verdict := authenticate timestamp nonce signature "http" body now in
      Done (match verdict with Err e => Err (http_auth_error e) | Ok _ => Ok tt end).

(** The page of main.rs [manual_page_html], a constant text. *)
Variable manual_page_html : string.

Definition not_found : string :=
  gateway_response "404 Not Found" json_type
    ("{" +:+ String quote "code" +:+ String quote ":404," +:+ String quote "error" +:+ String quote ":"
     +:+ String quote "not_found" +:+ String quote "}").

(** The part of [handle_client] behind an authorised trigger. *)
Definition forward_trigger (target body source mode : string) : Prog string :=
  let% admitted := admit_trigger (completion_target target) in
  match admitted with
  | Err error => Done (trigger_admission_http_response error)
  | Ok _ =>
      let payload := enrich_payload body source mode in
      let% answer := post_json origin target payload in
      let service := unwrap_or answer service_offline in
      let response := gateway_json "200 OK"
        (jobj [("code", service_code service); ("gateway", JString "steel-trigger-gateway");
               ("mode", JString mode); ("target", JString target); ("service", service)]) in
      let% _ := release_guard in
      Done response
  end.

Definition default_listeners : ListenerStatus := mkListenerStatus true false true false true false.

(** The status document. *)
Definition status_response (mode : string) : Prog string :=
  let% answer := get_json origin "/api/production/status" in
  let service := unwrap_or answer service_offline in
  let% listener_status := read_state listeners default_listeners in
  let% snapshot := security_snapshot in
  let% admission := admission_status_json in
  Done (gateway_json "200 OK"
    (jobj (mode_fields mode ++
       [("service", JString "steel-trigger-gateway"); ("gatewayReady", JBool (listeners_ready listener_status));
        ("listeners", listeners_json listener_status); ("security", snapshot);
        ("accepting", unwrap_or (jget "accepting" admission) (JBool false));
        ("inFlight", unwrap_or (jget "inFlight" admission) JNull);
        ("drained", unwrap_or (jget "drained" admission) JNull);
        ("inspectionServiceHealthy",
           JBool (match get_i64 "code" service with Some code => code =? 0 | None => false end))]))).

(** The mode change. *)
Definition change_mode (request body : string) (peer : IpAddr) : Prog string :=
  let% mutation_allowed := read_state (fun s => allow_mode_mutation (security s)) false in
  if negb mutation_allowed then Done (gateway_json "423 Locked" (code_error 423 "trigger_mode_locked"))
  else
    let% verdict := authorize_operator_request request peer in
    match verdict with
    | Err response => Done response
    | Ok _ =>
        let requested :=
          unwrap_or (match json_parse body with Some value => get_str "mode" value | None => None end) "api" in
        let% mode := set_current_mode requested in
        Done (gateway_json "200 OK" (mode_json mode))
    end.

Definition drain_request (request : string) (peer : IpAddr) : Prog string :=
  let% verdict := authorize_operator_request request peer in
  match verdict with
  | Err response => Done response
  | Ok _ =>
      let% drained := enter_drain in
      Done (match drained with Ok status => gateway_json "200 OK" status | Err response => response end)
  end.

Definition post_trigger (request path body : string) (peer : IpAddr) (mode : string) : Prog string :=
  match manual_service_path_for path with
  | Some target =>
      let% verdict := authorize_operator_request request peer in
      match verdict with
      | Err response => Done response
      | Ok _ =>
          if mode != "manual" then Done (manual_mode_required_response mode)
          else forward_trigger target body "manual" mode
      end
  | None =>
      match service_path_for path with
      | Some target =>
          let% verdict := authorize_http_trigger request body peer in
          match verdict with
          | Err response => Done response
          | Ok _ => forward_trigger target body (gateway_source path) mode
          end
      | None => Done not_found
      end
  end.

(** Method, path and body of a request. *)
Definition request_method (request : string) : string :=
  match split_whitespace (unwrap_or (head (lines request)) "") with m :: _ => m | [] => "" end.
Definition request_path (request : string) : string :=
  fst (split_path_and_query
         (match split_whitespace (unwrap_or (head (lines request)) "") with _ :: p :: _ => p | _ => "" end)).
Definition request_body (request : string) : string :=
  match split_once blank_line request with Some (_, body) => body | None => "" end.

(** main.rs [handle_client] on a request that was read. *)
Definition respond (request : string) (peer : IpAddr) : Prog string :=
  let method := request_method request in
  let path := request_path request in
  let body := request_body request in
  let% mode := current_mode in
  if method == "OPTIONS" then Done (gateway_response "204 No Content" json_type "")
  else if (method == "GET") && one_of path ["/"; "/manual"] then
    let% production := read_state (fun s => production (security s)) true in
    Done (if ip_is_loopback peer && negb production
          then gateway_response "200 OK" "text/html; charset=utf-8" manual_page_html
          else gateway_json "403 Forbidden" (code_error 403 "local_operator_only"))
  else if (method == "GET") && (path == "/api/trigger/mode") then Done (gateway_json "200 OK" (mode_json mode))
  else if (method == "POST") && (path == "/api/trigger/mode") then change_mode request body peer
  else if (method == "POST") && (path == "/api/trigger/drain") then drain_request request peer
  else if (method == "GET") && one_of path ["/health"; "/api/trigger/status"] then status_response mode
  else if method == "POST" then post_trigger request path body peer mode
  else Done not_found.

Definition gateway_request_limit : Z := 1024 * 1024.

(** main.rs [handle_client]: the response written, if any. *)
Definition handle_client (stream : list ReadEvent) (peer : IpAddr) : Prog (option string) :=
  match read_http_request_go gateway_request_limit "" stream with
  | None => Done None
  | Some received =>
      let% response := respond (from_utf8_lossy received) peer in
      Done (Some response)
  end.

End Responses.
