(* ===== verification/TriggerReplay.v ===== *)
(** * Trigger gateway: start-up checks and replay protection

    What [SecurityConfig::from_env] lets a production gateway start with, and what the nonce cache
    of [authenticate_message] guarantees over every history of the gateway's critical sections. *)

From S2P Require Import Prelude Json Http Runtime TriggerSecurity TriggerGateway.
From Stdlib Require Import Ascii Sorted.

(** ** Start-up *)

(** Production start-up. A gateway that starts in production demands signed messages, has a
    shared secret and an operator token of 32 bytes or more and a window of 5 to 300 seconds, admits
    a peer that is not loopback only by a rule of its allow list, has such a rule unless it is bound
    to a loopback address, and locks its mode unless the environment explicitly unlocks it. *)
Theorem production_start_is_locked_down (env : Environment) (host : string) (c : SecurityConfig) :
  security_from_env env host = Ok c -> production c = true ->
  auth_required c = true /\ 32 <= str_len (shared_secret c) /\ 32 <= str_len (operator_token c) /\
  5 <= auth_window_seconds c <= 300 /\
  (forall peer, config_source_allowed c peer = true ->
     ip_is_loopback peer = true \/ exists rule, In rule (allowed_sources c) /\ rule_contains rule peer = true) /\
  (allowed_sources c = [] -> exists ip, parse_ip host = Some ip /\ ip_is_loopback ip = true) /\
  (allow_mode_mutation c = true -> env_flag env "TRIGGER_ALLOW_MODE_MUTATION" = Some true).
Proof.
  unfold security_from_env. cbv zeta. intros E Hp.
  destruct (_ && (str_len (unwrap_or (env "TRIGGER_SHARED_SECRET") "") <? 32)) eqn:E1; [done|].
  destruct (_ && (str_len (unwrap_or (env "TRIGGER_OPERATOR_TOKEN") "") <? 32)) eqn:E2; [done|].
  destruct (parse_allowlist _) as [rules|]; [|done]. simpl in E.
  destruct (_ && _ && Nat.eqb _ _) eqn:E3; [done|].
  destruct (negb (_ && _)) eqn:E4; [done|]. simplify_eq. cbn in *. rewrite Hp in *. simpl in *.
  bool_facts. split; [done|]. split; [done|]. split; [done|]. split; [lia|]. split; [|split].
  - intros peer [[?|[? ?]%andb_true_iff]%orb_true_iff|(rule & ? & ?)%existsb_exists]%orb_true_iff; [by left|done|].
    right. by exists rule.
  - intros ->. rewrite andb_true_r in E3. unfold is_none_or in E3. destruct (parse_ip host) as [ip|]; [|done].
    apply negb_false_iff in E3. eauto.
  - destruct (env_flag env "TRIGGER_ALLOW_MODE_MUTATION") as [[]|]; done.
Qed.

Definition sample_secret : string := "0123456789abcdef0123456789abcdef".

Definition sample_environment : Environment := fun name =>
  if name == "STEEL_RUNTIME_PROFILE" then Some " Production"
  else if name == "TRIGGER_SHARED_SECRET" then Some sample_secret
  else if name == "TRIGGER_OPERATOR_TOKEN" then Some "fedcba9876543210fedcba9876543210"
  else if name == "TRIGGER_SOURCE_ALLOWLIST" then Some "10.20.0.0/16, fe80::1"
  else None.

Definition sample_config : SecurityConfig :=
  mkSecurityConfig true true sample_secret "fedcba9876543210fedcba9876543210"
    [Cidr (V4 169082880) 16; Address (V6 (65152 * 2 ^ 112 + 1))] 30 false.

Lemma production_start_is_locked_down_witness :
  security_from_env sample_environment "0.0.0.0" = Ok sample_config /\
  config_source_allowed sample_config (V4 169083395) = true /\
  (ip_is_loopback (V4 169083395) = true \/
   exists rule, In rule (allowed_sources sample_config) /\ rule_contains rule (V4 169083395) = true).
Proof.
  split; [vm_compute; reflexivity|]. split; [vm_compute; reflexivity|].
  apply (production_start_is_locked_down sample_environment "0.0.0.0" sample_config); vm_compute; reflexivity.
Defined.

(** ** Histories *)

(** A signed message as it arrives, with the clock the handler read. *)
Record SignedCall := mkSignedCall {
  c_timestamp : string;
  c_nonce : string;
  c_signature : string;
  c_transport : string;
  c_body : string;
  c_now : Z;
}.

(** The critical sections of the gateway that change its state. *)
Inductive GatewayAction :=
| Authenticates (call : SignedCall)
| Admits (completion : bool)
| Releases
| Drains
| SetsMode (requested : string).

Section History.
Context `{JsonCodec} `{HmacVerify}.

Definition verdict (cell : GatewayCell) (call : SignedCall) : Result unit AuthError * GatewayCell :=
  authenticate_message cell (c_timestamp call) (c_nonce call) (c_signature call) (c_transport call)
    (c_body call) (c_now call).

Definition act (cell : GatewayCell) (action : GatewayAction) : GatewayCell :=
  match action with
  | Authenticates call => snd (verdict cell call)
  | Admits completion => snd (admit_section completion cell)
  | Releases => snd (release_section cell)
  | Drains => snd (drain_section cell)
  | SetsMode requested => snd (set_mode_section requested cell)
  end.

(** The messages a history accepts, in order. *)
Fixpoint accepted (cell : GatewayCell) (actions : list GatewayAction) : list SignedCall :=
  match actions with
  | [] => []
  | action :: actions' =>
      let here :=
        match action with
        | Authenticates call => if is_ok (fst (verdict cell call)) then [call] else []
        | _ => []
        end in
      here ++ accepted (act cell action) actions'
  end.

Definition call_times (actions : list GatewayAction) : list Z :=
  flat_map (fun action => match action with Authenticates call => [c_now call] | _ => [] end) actions.

(** Everything [authenticate_message] asks of a message before it looks at the nonce cache. *)
Record signed (c : SecurityConfig) (call : SignedCall) (timestamp : Z) : Prop := {
  sg_timestamp : parse_i64 (c_timestamp call) = Some timestamp;
  sg_window : Z.abs (c_now call - timestamp) <= auth_window_seconds c;
  sg_nonce : valid_nonce (c_nonce call) = true;
  sg_tag : exists tag, decode_hex (c_signature call) = Some tag /\
    hmac_verify (shared_secret c)
      (signature_message (c_timestamp call) (c_nonce call) (c_transport call) (c_body call)) tag = Some true;
}.

Definition retained (s : GatewayState) (now : Z) : gmap string Z :=
  filter (fun entry => now - auth_window_seconds (security s) <= snd entry) (replay_nonces s).

Definition config_ok (c : SecurityConfig) : Prop := auth_required c = true /\ 0 <= auth_window_seconds c <= 300.

Lemma config_window c : config_ok c -> wrap_u64 (auth_window_seconds c) = auth_window_seconds c.
Proof. intros [_ Hw]. unfold wrap_u64. rewrite Z.mod_small; lia. Qed.

(** The effect of the check: the state keeps everything but the cache; the cache is left alone, or
    cleaned of old entries and given the nonce of an accepted message. *)
Lemma verdict_cases s call : config_ok (security s) ->
  (is_ok (fst (verdict (Some s) call)) = true /\ (exists ts, signed (security s) call ts) /\
   retained s (c_now call) !! c_nonce call = None /\
   snd (verdict (Some s) call) = Some (with_nonces (<[c_nonce call := c_now call]> (retained s (c_now call))) s)) \/
  (is_ok (fst (verdict (Some s) call)) = false /\
   (snd (verdict (Some s) call) = Some s \/
    snd (verdict (Some s) call) = Some (with_nonces (retained s (c_now call)) s))).
Proof.
  intros Hc. pose proof (config_window _ Hc) as Hw. destruct Hc as [Ha _].
  unfold verdict, authenticate_message. rewrite Ha, Hw. cbn [negb].
  destruct (parse_i64 _) as [ts|] eqn:Et; [|by right; eauto].
  destruct (_ >? _) eqn:Eg; [by right; eauto|].
  destruct (valid_nonce _) eqn:En; [|by right; eauto]. cbn [negb].
  destruct (decode_hex _) as [tag|] eqn:Ed; [|by right; eauto].
  destruct (hmac_verify _ _ _) as [[]|] eqn:Eh; [|by right; eauto..].
  change (filter _ (replay_nonces s)) with (retained s (c_now call)).
  destruct (retained s (c_now call) !! c_nonce call) eqn:Er; cbn [is_some]; [by right; eauto|].
  destruct (_ >=? _); [by right; eauto|]. left. split; [done|]. split; [|done].
  exists ts. split; [done| |done|by eauto]. lia.
Qed.

Lemma act_keeps s action : config_ok (security s) -> exists s', act (Some s) action = Some s' /\
  security s' = security s /\
  ((forall call, action <> Authenticates call) -> replay_nonces s' = replay_nonces s).
Proof.
  intros Hc. destruct action as [call|completion| | |requested]; cbn [act].
  - destruct (verdict_cases s call Hc) as [(_ & _ & _ & ->)|(_ & [->| ->])]; eexists; (split; [done|]);
      (split; [done|]); intros Hn; by destruct (Hn call).
  - unfold admit_section. repeat case_match; simplify_eq/=; eauto.
  - simpl. eauto.
  - simpl. eauto.
  - simpl. eauto.
Qed.

(** What the cache still knows of a message accepted at [t0], when the clock has reached [now]. *)
Definition remembers (s : GatewayState) (nonce : string) (t0 now : Z) : Prop :=
  (exists seen, replay_nonces s !! nonce = Some seen /\ t0 <= seen) \/ t0 + auth_window_seconds (security s) < now.

Lemma remembers_retained s nonce t0 now now' : now <= now' -> remembers s nonce t0 now ->
  (exists seen, retained s now' !! nonce = Some seen /\ t0 <= seen) \/ t0 + auth_window_seconds (security s) < now'.
Proof.
  intros Hn [(seen & Hs & Ht0)|]; [|right; lia].
  destruct (decide (now' - auth_window_seconds (security s) <= seen)) as [Hk|]; [|right; lia].
  left. exists seen. split; [|done]. apply map_lookup_filter_Some. done.
Qed.

Lemma remembers_act s action nonce t0 now : config_ok (security s) ->
  Forall (fun t => now <= t) (call_times [action]) -> remembers s nonce t0 now ->
  exists s', act (Some s) action = Some s' /\ security s' = security s /\
    remembers s' nonce t0 (match action with Authenticates call => c_now call | _ => now end).
Proof.
  intros Hc Ht Hr. destruct (act_keeps s action Hc) as (s' & E & Hs & Hkeep).
  exists s'. split; [done|]. split; [done|]. unfold remembers. rewrite Hs.
  destruct action as [call|?| | |?]; try (rewrite Hkeep by done; exact Hr).
  simpl in Ht. apply Forall_inv in Ht. pose proof (remembers_retained _ _ _ _ _ Ht Hr) as Hr'.
  cbn [act] in E. destruct (verdict_cases s call Hc) as [(_ & _ & Hfresh & Ev)|(_ & [Ev|Ev])]; rewrite Ev in E; simplify_eq/=.
  - destruct Hr' as [(seen & Hl & ?)|?]; [|by right]. left.
    destruct (decide (nonce = c_nonce call)) as [->|]; [congruence|]. exists seen. by rewrite lookup_insert_ne.
  - destruct Hr as [Hr|]; [by left|right; lia].
  - destruct Hr' as [Hr'|?]; [left|by right]. exact Hr'.
Qed.

Lemma accepted_step s action actions : config_ok (security s) -> exists s', act (Some s) action = Some s' /\
  security s' = security s /\ accepted (Some s) (action :: actions) =
    (match action with
     | Authenticates call => if is_ok (fst (verdict (Some s) call)) then [call] else []
     | _ => []
     end) ++ accepted (Some s') actions.
Proof.
  intros Hc. destruct (act_keeps s action Hc) as (s' & E & Hs & _). exists s'. split; [done|].
  split; [done|]. cbn [accepted]. by rewrite E.
Qed.

(** A message that carries a remembered nonce is accepted only after the window has passed. *)
Lemma remembered_until actions : forall s nonce t0 now mid b after, config_ok (security s) ->
  remembers s nonce t0 now -> Forall (fun t => now <= t) (call_times actions) ->
  StronglySorted Z.le (call_times actions) ->
  accepted (Some s) actions = mid ++ b :: after -> c_nonce b = nonce ->
  t0 + auth_window_seconds (security s) < c_now b /\ exists tb, signed (security s) b tb.
Proof.
  induction actions as [|action actions IH]; intros s nonce t0 now mid b after Hc Hr Hge Hs Hacc Hb.
  { by destruct mid. }
  destruct (accepted_step s action actions Hc) as (s' & E & Hsec & Ea). rewrite Ea in Hacc. clear Ea.
  assert (Hsplit : call_times (action :: actions) = call_times [action] ++ call_times actions)
    by (unfold call_times; cbn [flat_map]; by rewrite app_nil_r).
  rewrite Hsplit in Hge, Hs. apply Forall_app in Hge as [Hge1 Hge2].
  destruct (remembers_act s action nonce t0 now Hc Hge1 Hr) as (s'' & E' & _ & Hr').
  rewrite E in E'. simplify_eq.
  assert (Hs2 : StronglySorted Z.le (call_times actions)) by (destruct action; [by inversion Hs|done..]).
  destruct action as [call|completion| | |requested];
    try (rewrite <- Hsec in *; eapply (IH s''); [exact Hc|exact Hr'|exact Hge2|done|exact Hacc|done]).
  assert (Hlater : Forall (fun t => c_now call <= t) (call_times actions)) by (by inversion Hs).
  destruct (is_ok (fst (verdict (Some s) call))) eqn:Eok; rewrite <- Hsec in *;
    [|eapply (IH s''); [exact Hc|exact Hr'|exact Hlater|done|exact Hacc|done]].
  destruct mid as [|c mid]; injection Hacc;
    [intros _ ->|intros Hacc' _; eapply (IH s''); [exact Hc|exact Hr'|exact Hlater|done|exact Hacc'|done]].
  rewrite Hsec in *. destruct (verdict_cases s b Hc) as [(_ & Hsig & Hfresh & _)|[? _]]; [|congruence].
  split; [|done]. destruct (remembers_retained _ _ _ _ (c_now b) (Forall_inv Hge1) Hr) as [(? & ? & _)|?]; [congruence|done].
Qed.

(** C6. Replay protection. Take any history of the gateway's critical sections in which the
    authentication clock does not run backwards. Two accepted messages with one nonce are both
    properly signed, are more than the window apart, and the second is dated after the acceptance of
    the first. So a message that is not dated in the future is accepted at most once. *)
Theorem accepted_once_unless_future_dated (s : GatewayState) (actions : list GatewayAction)
    (before mid after : list SignedCall) (a b : SignedCall) :
  config_ok (security s) -> StronglySorted Z.le (call_times actions) ->
  accepted (Some s) actions = before ++ a :: mid ++ b :: after -> c_nonce a = c_nonce b ->
  exists ta tb, signed (security s) a ta /\ signed (security s) b tb /\
    c_now a + auth_window_seconds (security s) < c_now b /\ c_now a < tb /\
    (c_timestamp a = c_timestamp b -> c_now a < ta).
Proof.
  revert s before. induction actions as [|action actions IH]; intros s before Hc Hs Hacc Hn.
  { by destruct before. }
  destruct (accepted_step s action actions Hc) as (s' & E & Hsec & Ea). rewrite Ea in Hacc. clear Ea.
  assert (Hs2 : StronglySorted Z.le (call_times actions)) by (destruct action; [by inversion Hs|done..]).
  assert (Hrec : forall before', accepted (Some s') actions = before' ++ a :: mid ++ b :: after ->
    exists ta tb, signed (security s) a ta /\ signed (security s) b tb /\
      c_now a + auth_window_seconds (security s) < c_now b /\ c_now a < tb /\
      (c_timestamp a = c_timestamp b -> c_now a < ta)).
  { intros before' Hacc'. rewrite <- Hsec in *. by apply (IH s' before'). }
  destruct action as [call|completion| | |requested]; try by apply (Hrec before).
  destruct (is_ok (fst (verdict (Some s) call))) eqn:Eok; [|by apply (Hrec before)].
  destruct before as [|c before]; injection Hacc; [intros Hacc' ->|intros Hacc' _; by eapply Hrec]. clear Hrec IH.
  destruct (verdict_cases s a Hc) as [(_ & (ta & Ha) & _ & Ev)|[? _]]; [|congruence].
  cbn [act] in E. rewrite Ev in E. simplify_eq. match type of Ev with _ = Some ?x => set (s1 := x) in * end.
  destruct (remembered_until actions s1 (c_nonce a) (c_now a) (c_now a) mid b after) as [Hlt [tb Hb]];
    [done| |by inversion Hs|done|done|done|].
  { left. exists (c_now a). split; [apply lookup_insert_eq|lia]. }
  assert (Hlt' : c_now a + auth_window_seconds (security s) < c_now b) by exact Hlt.
  exists ta, tb. change (security s1) with (security s) in Hb.
  pose proof (sg_window _ _ _ Hb). split; [done|]. split; [done|]. split; [done|]. split; [lia|]. intros Et.
  pose proof (sg_timestamp _ _ _ Ha). pose proof (sg_timestamp _ _ _ Hb).
  assert (ta = tb) by congruence. lia.
Qed.

(** Replay gap. The nonce of an accepted message is forgotten once the acceptance is older than
    the window, but a message dated up to one window ahead stays valid longer than that: a message
    dated 30 seconds ahead of its acceptance is accepted again, unchanged, 31 seconds later. *)
Theorem future_dated_message_replays (s : GatewayState) (nonce signature tag body : string) :
  security s = sample_config -> replay_nonces s = ∅ -> valid_nonce nonce = true ->
  decode_hex signature = Some tag ->
  hmac_verify (shared_secret (security s)) (signature_message "1700000030" nonce "http" body) tag = Some true ->
  let call := mkSignedCall "1700000030" nonce signature "http" body in
  accepted (Some s) [Authenticates (call 1700000000); Authenticates (call 1700000031)]
    = [call 1700000000; call 1700000031].
Proof.
  intros Hsec Hnonces Hn Hd Hm call.
  assert (Hfirst : verdict (Some s) (call 1700000000) = (Ok tt, Some (with_nonces {[nonce := 1700000000]} s))).
  { unfold verdict, authenticate_message, call. simpl. rewrite Hsec, Hn, Hd. rewrite Hsec in Hm. simpl in *.
    rewrite Hm, Hnonces. by rewrite map_filter_empty, lookup_empty, map_size_empty. }
  assert (Hsecond : is_ok (fst (verdict (Some (with_nonces {[nonce := 1700000000]} s)) (call 1700000031))) = true).
  { unfold verdict, authenticate_message, call. simpl. rewrite Hsec, Hn, Hd. rewrite Hsec in Hm. simpl in *.
    rewrite Hm, map_filter_singleton_False by (simpl; lia). by rewrite lookup_empty, map_size_empty. }
  unfold accepted, act. rewrite Hfirst. cbn [fst snd is_ok app]. by rewrite Hsecond.
Qed.

End History.

(** A toy authenticator for the witnesses: the tag is the byte sum of key and message. *)
Definition byte_sum (text : string) : Z :=
  fold_left (fun acc byte => (acc + byte_of byte) `mod` 256) (bytes text) 0.
Definition toy_hmac : HmacVerify :=
  fun secret message tag => Some (tag == String (ascii_of_N (Z.to_N (byte_sum (secret +:+ message)))) "").
Definition toy_sign (timestamp nonce transport body : string) : string :=
  hex_digits 2 (byte_sum (sample_secret +:+ signature_message timestamp nonce transport body)).
Definition toy_codec : JsonCodec := {| json_print := fun _ => "{}"; json_parse := fun _ => None |}.

Definition sample_nonce : string := "nonce-0000000001".
Definition sample_body : string := "{}".
Definition sample_call (timestamp : string) (now : Z) : SignedCall :=
  mkSignedCall timestamp sample_nonce (toy_sign timestamp sample_nonce "http" sample_body) "http" sample_body now.

Definition sample_gateway : GatewayState :=
  mkGatewayState "api" true 0 sample_config ∅ (mkListenerStatus true true true true true true).

Lemma accepted_once_unless_future_dated_witness :
  let a := sample_call "1700000000" 1700000000 in
  let again := sample_call "1700000000" 1700000020 in
  let b := sample_call "1700000040" 1700000040 in
  @accepted toy_codec toy_hmac (Some sample_gateway)
    [Authenticates a; SetsMode "manual"; Authenticates again; Drains; Authenticates b] = [a; b] /\
  exists ta tb, @signed toy_hmac sample_config a ta /\ @signed toy_hmac sample_config b tb /\
    1700000000 + 30 < c_now b /\ 1700000000 < tb /\ (c_timestamp a = c_timestamp b -> 1700000000 < ta).
Proof.
  intros a again b. split; [vm_compute; reflexivity|].
  apply (@accepted_once_unless_future_dated toy_codec toy_hmac sample_gateway
    [Authenticates a; SetsMode "manual"; Authenticates again; Drains; Authenticates b] [] [] [] a b).
  - split; [reflexivity|simpl; lia].
  - repeat constructor; simpl; lia.
  - vm_compute. reflexivity.
  - reflexivity.
Defined.

Lemma future_dated_message_replays_witness :
  let call := mkSignedCall "1700000030" sample_nonce
    (toy_sign "1700000030" sample_nonce "http" sample_body) "http" sample_body in
  @accepted toy_codec toy_hmac (Some sample_gateway)
    [Authenticates (call 1700000000); Authenticates (call 1700000031)] = [call 1700000000; call 1700000031].
Proof.
  eapply (@future_dated_message_replays toy_codec toy_hmac sample_gateway sample_nonce).
  - reflexivity.
  - reflexivity.
  - vm_compute. reflexivity.
  - vm_compute. reflexivity.
  - vm_compute. reflexivity.
Defined.
