(* ===== verification/TriggerFacts.v ===== *)
(** * Trigger gateway: all interleavings

    The gateway as a transition system: connections are accepted at any time, each runs its handler
    as a thread, and threads interleave at their critical sections, clock readings and exchanges
    with the inspection service, whose answers are arbitrary. The theorems are about every
    reachable state: what is forwarded was authorised, and drain means what it says. *)

From S2P Require Import Prelude Json Http Runtime TriggerSecurity TriggerGateway TriggerReplay.
From Stdlib Require Import Ascii.

(** What a peer opens: an HTTP request, a TCP connection of lines or a datagram. *)
Inductive Connection :=
| HttpConnection (stream : list ReadEvent) (peer : IpAddr)
| TcpConnection (stream : list LineEvent) (peer : IpAddr)
| UdpDatagram (datagram : string) (peer : IpAddr).

Definition connection_peer (conn : Connection) : IpAddr :=
  match conn with HttpConnection _ p | TcpConnection _ p | UdpDatagram _ p => p end.

Section System.
Context `{JsonCodec} `{HmacVerify}.
Variable sha256 : string -> string.
Variable env : Environment.
Variable json_error_text utf8_error_text : string -> string.
Variable origin manual_page_html : string.

(** The handler of a connection; what it writes back is its own affair. *)
Definition serve (conn : Connection) : Prog unit :=
  match conn with
  | HttpConnection stream peer =>
      let% _ := handle_client sha256 env origin manual_page_html stream peer in Done tt
  | TcpConnection stream peer => let% _ := handle_tcp_trigger env json_error_text origin peer stream in Done tt
  | UdpDatagram datagram peer =>
      let% _ := handle_datagram env json_error_text utf8_error_text origin datagram peer in Done tt
  end.

(** The state, the threads and the exchanges made so far, with the connection that made each. *)
Record System := mkSystem {
  sys_cell : GatewayCell;
  sys_threads : list (Connection * Prog unit);
  sys_calls : list (Connection * ServiceCall);
}.

Inductive gateway_step : System -> System -> Prop :=
| StepAccept cell threads calls conn :
    gateway_step (mkSystem cell threads calls) (mkSystem cell (threads ++ [(conn, serve conn)]) calls)
| StepLock cell threads calls i conn (B : Type) (section : GatewayCell -> B * GatewayCell) k :
    threads !! i = Some (conn, Lock section k) ->
    gateway_step (mkSystem cell threads calls)
      (mkSystem (snd (section cell)) (<[i := (conn, k (fst (section cell)))]> threads) calls)
| StepClock cell threads calls i conn k now :
    threads !! i = Some (conn, Clock k) ->
    gateway_step (mkSystem cell threads calls) (mkSystem cell (<[i := (conn, k now)]> threads) calls)
| StepExchange cell threads calls i conn call k answer :
    threads !! i = Some (conn, Exchange call k) ->
    gateway_step (mkSystem cell threads calls)
      (mkSystem cell (<[i := (conn, k answer)]> threads) (calls ++ [(conn, call)])).

(** ** What an authorised call is *)

Definition operator_ok (c : SecurityConfig) (request : string) : Prop :=
  production c = true -> exists supplied, request_header request operator_header = Some supplied /\
    supplied <> "" /\ constant_time_token_matches sha256 (operator_token c) supplied = true.

(** A message signed for a transport, unless none need be. *)
Definition signature_ok (c : SecurityConfig) (transport body : string) : Prop :=
  auth_required c = true -> exists timestamp nonce signature now at_time,
    signed c (mkSignedCall timestamp nonce signature transport body now) at_time.

Definition http_authorised (c : SecurityConfig) (request : string) (peer : IpAddr) (target : string) : Prop :=
  request_method request = "POST" /\
  ((manual_service_path_for (request_path request) = Some target /\
    ip_is_loopback peer = true /\ operator_ok c request) \/
   (service_path_for (request_path request) = Some target /\ config_source_allowed c peer = true /\
    ((is_some (request_header request operator_header) = true /\ ip_is_loopback peer = true /\ operator_ok c request) \/
     signature_ok c "http" (request_body request)))).

(** The payload a network message carries: the envelope's, or the message itself. *)
Definition network_authorised (c : SecurityConfig) (transport : string) (peer : IpAddr) (target : string) : Prop :=
  config_source_allowed c peer = true /\
  exists payload event, event_service_path event = Some target /\
    or_else (jget "event" payload) (or_else (jget "type" payload) (jget "action" payload)) = Some (JString event) /\
    signature_ok c transport (json_print payload).

Definition authorised (c : SecurityConfig) (conn : Connection) (target : string) : Prop :=
  match conn with
  | HttpConnection stream peer => exists received,
      read_http_request_go gateway_request_limit "" stream = Some received /\
      http_authorised c (from_utf8_lossy received) peer target
  | TcpConnection stream peer => network_authorised c "tcp" peer target
  | UdpDatagram datagram peer => network_authorised c "udp" peer target
  end.

(** The read of the service's status for the status document. *)
Definition status_call (call : ServiceCall) : Prop :=
  sc_method call = "GET" /\ sc_path call = "/api/production/status".

(** ** Thread safety, thread by thread *)

(** [held] is the target whose admission guard a thread holds. What a critical section may do: keep
    the guard (and perhaps stop admission), take one, or drop it. *)
Inductive moves (s : GatewayState) (held : option string) : GatewayState -> option string -> Prop :=
| MoveKeep s' : security s' = security s -> gw_in_flight s' = gw_in_flight s ->
    (gw_accepting s' = true -> gw_accepting s = true) -> moves s held s' held
| MoveTake target : held = None -> gw_accepting s = true \/ completion_target target = true ->
    moves s held (with_in_flight (gw_in_flight s + 1) s) (Some target)
| MoveDrop : held <> None -> moves s held (with_in_flight (gw_in_flight s - 1) s) None.

Section Safe.
Variable c : SecurityConfig.
Variable conn : Connection.

(** From every state the other threads can leave, the program makes allowed moves and calls only,
    and ends with a result and a guard that satisfy [Q]. *)
Fixpoint safe {A} (held : option string) (Q : option string -> A -> Prop) (p : Prog A) : Prop :=
  match p with
  | Done a => Q held a
  | Lock section k =>
      forall s, security s = c -> 0 <= gw_in_flight s -> (held <> None -> 1 <= gw_in_flight s) ->
      exists s' held', snd (section (Some s)) = Some s' /\ moves s held s' held' /\
        safe held' Q (k (fst (section (Some s))))
  | Clock k => forall now, safe held Q (k now)
  | Exchange call k =>
      ((held = None /\ status_call call) \/
       (held = Some (sc_path call) /\ sc_method call = "POST" /\ authorised c conn (sc_path call))) /\
      forall answer, safe held Q (k answer)
  end.

Lemma safe_bind {A B} (m : Prog A) (f : A -> Prog B) held Q :
  safe held (fun h a => safe h Q (f a)) m -> safe held Q (pbind m f).
Proof.
  revert held. induction m as [a|B' section k IH|k IH|call k IH]; intros held Hm; simpl in *; [done| | |].
  - intros s Hs Hf Hh. destruct (Hm s Hs Hf Hh) as (s' & h' & E & Hmv & Hk). eauto 6.
  - eauto.
  - destruct Hm as [Hcall Hk]. eauto.
Qed.

Lemma safe_mono {A} (p : Prog A) held (Q Q' : option string -> A -> Prop) :
  (forall h a, Q h a -> Q' h a) -> safe held Q p -> safe held Q' p.
Proof.
  intros HQ. revert held. induction p as [a|B' section k IH|k IH|call k IH]; intros held Hp; simpl in *; [auto| | |].
  - intros s Hs Hf Hh. destruct (Hp s Hs Hf Hh) as (s' & h' & E & Hmv & Hk). eauto 6.
  - eauto.
  - destruct Hp as [Hcall Hk]. eauto.
Qed.

(** A critical section that keeps the guard. *)
Lemma safe_keep {B} (section : GatewayCell -> B * GatewayCell) held (Q : option string -> B -> Prop) :
  (forall s, security s = c -> exists s', snd (section (Some s)) = Some s' /\ security s' = security s /\
     gw_in_flight s' = gw_in_flight s /\ (gw_accepting s' = true -> gw_accepting s = true) /\
     Q held (fst (section (Some s)))) ->
  safe held Q (lock section).
Proof.
  intros Hk s Hs _ _. destruct (Hk s Hs) as (s' & E & H1 & H2 & H3 & HQ).
  exists s', held. split; [done|]. split; [by constructor|done].
Qed.

Lemma safe_read {B} (read : GatewayState -> B) poisoned held (Q : option string -> B -> Prop) :
  (forall s, security s = c -> Q held (read s)) -> safe held Q (read_state read poisoned).
Proof. intros HQ. apply safe_keep. intros s Hs. exists s. simpl. eauto 6. Qed.

Lemma safe_admit target (Q : option string -> Result unit Value -> Prop) :
  Q (Some target) (Ok tt) -> (forall e, Q None (Err e)) -> safe None Q (admit_trigger (completion_target target)).
Proof.
  intros Hok Herr s Hs Hf _. unfold admit_section.
  destruct (gw_accepting s) eqn:Ea; destruct (completion_target target) eqn:Et; simpl;
    unfold checked_add; try destruct (_ <=? _); simpl;
    try (exists s, None; split; [done|]; split; [by constructor|done]);
    (eexists _, (Some target); split; [done|]; split; [apply MoveTake; auto|done]).
Qed.

Lemma safe_release target (Q : option string -> unit -> Prop) :
  Q None tt -> safe (Some target) Q release_guard.
Proof.
  intros HQ s Hs Hf Hh. exists (with_in_flight (gw_in_flight s - 1) s), None.
  split; [|split; [by apply MoveDrop|done]].
  simpl. unfold sat_sub. rewrite Z.max_r by (specialize (Hh ltac:(done)); lia). done.
Qed.

(** A forwarded trigger: the guard is held over the call and dropped after it. *)
Lemma safe_post target body (Q : option string -> option Value -> Prop) :
  authorised c conn target -> (forall answer, Q (Some target) answer) ->
  safe (Some target) Q (post_json env origin target body).
Proof.
  intros Ha HQ. unfold post_json. destruct (origin_host_port origin) as [[host port]|]; [|apply HQ].
  split; [right; simpl; auto|]. intros answer. apply HQ.
Qed.

Hypothesis window_ok : 0 <= auth_window_seconds c <= 300.

Lemma safe_authenticate timestamp nonce signature transport body now held
    (Q : option string -> Result unit AuthError -> Prop) :
  (signature_ok c transport body -> Q held (Ok tt)) -> (forall e, Q held (Err e)) ->
  safe held Q (authenticate timestamp nonce signature transport body now).
Proof.
  intros Hok Herr. apply safe_keep. intros s Hs.
  destruct (auth_required c) eqn:Ea.
  - set (call := mkSignedCall timestamp nonce signature transport body now).
    change (authenticate_message (Some s) _ _ _ _ _ _) with (verdict (Some s) call).
    destruct (verdict_cases s call) as [(Eok & (ts & Hsig) & _ & ->)|(Eok & Ev)]; [rewrite Hs; split; [done|lia]| |].
    + eexists. split; [done|]. do 3 (split; [done|]).
      destruct (fst _) as [[]|]; [|done]. apply Hok. intros _. rewrite Hs in Hsig. unfold call in Hsig. eauto 6.
    + destruct (fst _) as [|e]; [done|].
      destruct Ev as [-> | ->]; (eexists; split; [done|]; do 3 (split; [done|]); apply Herr).
  - exists s. unfold authenticate_message. rewrite Hs, Ea. simpl. do 4 (split; [done|]).
    apply Hok. intros ?. congruence.
Qed.

Lemma safe_operator request peer held (Q : option string -> Result unit string -> Prop) :
  (ip_is_loopback peer = true -> operator_ok c request -> Q held (Ok tt)) -> (forall e, Q held (Err e)) ->
  safe held Q (authorize_operator_request sha256 request peer).
Proof.
  intros Hok Herr. unfold authorize_operator_request.
  destruct (ip_is_loopback peer) eqn:Ep; cbn [negb]; [|apply Herr].
  apply safe_keep. intros s Hs. exists s. simpl. rewrite Hs. do 4 (split; [done|]).
  destruct (production c) eqn:Eprod; simpl; [|apply Hok; [done|]; intros ?; congruence].
  destruct (is_empty _ || _) eqn:Eb; [apply Herr|]. bool_facts. apply Hok; [done|]. intros _.
  destruct (request_header request operator_header) as [supplied|]; simpl in *; [eauto|done].
Qed.

Lemma safe_http_auth request peer (Q : option string -> Result unit string -> Prop) :
  (config_source_allowed c peer = true ->
   ((is_some (request_header request operator_header) = true /\ ip_is_loopback peer = true /\ operator_ok c request) \/
    signature_ok c "http" (request_body request)) -> Q None (Ok tt)) ->
  (forall e, Q None (Err e)) ->
  safe None Q (authorize_http_trigger sha256 request (request_body request) peer).
Proof.
  intros Hok Herr. unfold authorize_http_trigger. apply safe_bind, safe_read. intros s Hs. rewrite Hs.
  destruct (config_source_allowed c peer) eqn:Ec; cbn [negb]; [|apply Herr].
  destruct (is_some _) eqn:Eo.
  { apply safe_operator; [|done]. intros. apply Hok; [done|]. by left. }
  apply safe_bind, safe_read. intros s2 Hs2. destruct (_ && _); [apply Herr|].
  apply safe_bind. intros now. apply safe_bind, safe_authenticate; [|intros e; apply Herr].
  intros Hsig. apply Hok; [done|]. by right.
Qed.

Definition ends_free {A} (held : option string) (a : A) : Prop := held = None.

Lemma safe_forward target body source mode : authorised c conn target ->
  safe None ends_free (forward_trigger env origin target body source mode).
Proof.
  intros Ha. unfold forward_trigger. apply safe_bind, safe_admit; [|done].
  apply safe_bind, safe_post; [done|]. intros answer. by apply safe_bind, safe_release.
Qed.

Lemma safe_status mode : safe None ends_free (status_response origin mode).
Proof.
  unfold status_response, get_json. apply safe_bind.
  destruct (origin_host_port origin) as [[host port]|]; [split; [by left|]; intros answer|];
    (apply safe_bind, safe_read; intros; apply safe_bind, safe_read; intros; by apply safe_bind, safe_read).
Qed.

Lemma safe_change_mode request body peer : safe None ends_free (change_mode sha256 request body peer).
Proof.
  unfold change_mode. apply safe_bind, safe_read. intros s Hs. destruct (negb _); [done|].
  apply safe_bind, safe_operator; [|done]. intros _ _. apply safe_bind, safe_keep. intros s2 Hs2.
  eexists. split; [reflexivity|]. by do 3 (split; [done|]).
Qed.

Lemma safe_drain request peer : safe None ends_free (drain_request sha256 request peer).
Proof.
  unfold drain_request. apply safe_bind, safe_operator; [|done]. intros _ _.
  apply safe_bind, safe_keep. intros s Hs. simpl. eexists. split; [done|]. by do 3 (split; [done|]).
Qed.

Lemma safe_respond request peer :
  (forall target, http_authorised c request peer target -> authorised c conn target) ->
  safe None ends_free (respond sha256 env origin manual_page_html request peer).
Proof.
  intros Hauth. unfold respond. apply safe_bind, safe_read. intros s Hs.
  destruct (_ == "OPTIONS"); [done|].
  destruct (_ && one_of _ ["/"; "/manual"]); [by apply safe_bind, safe_read|].
  destruct (_ && _); [done|]. destruct (_ && _); [apply safe_change_mode|].
  destruct (_ && _); [apply safe_drain|]. destruct (_ && _); [apply safe_status|].
  destruct (_ == "POST") eqn:Em; [|done]. apply String.eqb_eq in Em.
  unfold post_trigger. destruct (manual_service_path_for _) as [target|] eqn:Er.
  - apply safe_bind, safe_operator; [|done]. intros Hl Ho. destruct (negb _); [done|].
    apply safe_forward, Hauth. split; [done|]. by left.
  - destruct (service_path_for _) as [target|] eqn:Er2; [|done].
    apply safe_bind, safe_http_auth; [|done]. intros Hc Ho.
    apply safe_forward, Hauth. split; [done|]. right. auto.
Qed.

Lemma safe_network body transport peer :
  (forall target, network_authorised c transport peer target -> authorised c conn target) ->
  safe None ends_free (network_trigger_response env json_error_text origin body transport peer).
Proof.
  intros Hauth. unfold network_trigger_response. apply safe_bind, safe_read. intros s Hs. rewrite Hs.
  destruct (config_source_allowed c peer) eqn:Ec; cbn [negb]; [|done]. apply safe_bind. intros now.
  apply safe_bind. eapply safe_mono with
    (fun h v => h = None /\ forall payload, v = Ok payload -> signature_ok c transport (json_print payload) ).
  - intros h [payload|e] [-> Hp]; [|done]. specialize (Hp payload eq_refl).
    destruct (event_service_path _) as [target|] eqn:Ee; [|done].
    apply safe_bind, safe_admit; [|done]. apply safe_bind, safe_read. intros s2 Hs2.
    apply safe_bind, safe_post; [|intros answer; by apply safe_bind, safe_release].
    apply Hauth. split; [done|]. destruct (or_else _ _) as [[]|] eqn:Eo; simpl in Ee; try done. eauto 6.
  - unfold authenticated_network_payload. destruct (json_parse _) as [[]|]; try done.
    apply safe_bind, safe_read. intros s2 Hs2. destruct (jget "payload" _) as [payload|].
    + destruct (negb _); [done|]. destruct (jget "auth" _) as [[]|]; try done.
      apply safe_bind, safe_authenticate; [|done]. intros Hsig. split; [done|]. by intros ? [= <-].
    + rewrite Hs2. destruct (auth_required c) eqn:Ea; split; try done.
      intros payload _ ?. congruence.
Qed.

End Safe.

Lemma safe_serve c conn : 0 <= auth_window_seconds c <= 300 -> safe c conn None ends_free (serve conn).
Proof.
  intros Hw. destruct conn as [stream peer|stream peer|datagram peer]; cbn [serve]; apply safe_bind.
  - unfold handle_client. destruct (read_http_request_go _ _ _) as [received|] eqn:Er; [|done].
    apply safe_bind. eapply safe_mono; [|apply safe_respond; [done|]].
    + intros h a Hh. by rewrite Hh.
    + intros target Ht. simpl. eauto.
  - assert (Hgen : forall lines, safe c (TcpConnection stream peer) None ends_free
              (handle_tcp_trigger env json_error_text origin peer lines)).
    { induction lines as [|[line written|] lines IH]; cbn [handle_tcp_trigger]; [done| |done].
      destruct (is_empty line); [done|]. destruct (negb _ && is_blank line); [done|].
      apply safe_bind. destruct (str_len line >? 65536).
      - cbn [safe]. destruct written; [|done]. apply safe_bind. eapply safe_mono; [|exact IH]. by intros h a ->.
      - eapply safe_mono; [|by apply safe_network]. intros h a ->. destruct written; [|done].
        apply safe_bind. eapply safe_mono; [|exact IH]. by intros h a2 ->. }
    eapply safe_mono; [|apply Hgen]. by intros h a ->.
  - unfold handle_datagram. destruct (utf8_valid datagram); [|done].
    apply safe_bind. eapply safe_mono; [|by apply safe_network]. by intros h a ->.
Qed.

(** ** The whole system *)

Definition one_if_held (h : option string) : Z := match h with Some _ => 1 | None => 0 end.
Definition held_count (hs : list (option string)) : Z := foldr (fun h n => one_if_held h + n) 0 hs.

Lemma held_count_nonneg hs : 0 <= held_count hs.
Proof. induction hs as [|[] hs IH]; simpl; lia. Qed.

Lemma held_count_insert hs i h h' : hs !! i = Some h ->
  held_count (<[i := h']> hs) = held_count hs - one_if_held h + one_if_held h'.
Proof.
  revert i. induction hs as [|x hs IH]; intros [|i] E; simplify_eq/=; [lia|].
  rewrite IH by done. lia.
Qed.

Lemma held_count_member hs i t : hs !! i = Some (Some t) -> 1 <= held_count hs.
Proof.
  revert i. induction hs as [|x hs IH]; intros [|i] E; simplify_eq/=.
  - pose proof (held_count_nonneg hs). lia.
  - apply IH in E. destruct x; simpl; lia.
Qed.

Definition call_ok (c : SecurityConfig) (entry : Connection * ServiceCall) : Prop :=
  status_call (snd entry) \/
  (sc_method (snd entry) = "POST" /\ authorised c (fst entry) (sc_path (snd entry))).

(** [hs] are the guards the threads hold, one entry per thread. *)
Record system_ok (c : SecurityConfig) (hs : list (option string)) (sys : System) : Prop := {
  so_state : exists s, sys_cell sys = Some s /\ security s = c /\ gw_in_flight s = held_count hs;
  so_threads : Forall2 (fun h thread => safe c (fst thread) h ends_free (snd thread)) hs (sys_threads sys);
  so_calls : Forall (call_ok c) (sys_calls sys);
}.

(** Admission has stopped and only completions hold a guard. *)
Definition winding_down (hs : list (option string)) (sys : System) : Prop :=
  (exists s, sys_cell sys = Some s /\ gw_accepting s = false) /\
  Forall (fun h => is_none_or h completion_target = true) hs.

Definition completion_call (entry : Connection * ServiceCall) : Prop :=
  status_call (snd entry) \/ completion_target (sc_path (snd entry)) = true.

(** A thread that moves: the count follows, and winding down goes on. *)
Lemma system_move c hs cell threads calls s s' i h h' conn p p' :
  system_ok c hs (mkSystem cell threads calls) -> cell = Some s -> security s = c ->
  hs !! i = Some h -> threads !! i = Some (conn, p) -> moves s h s' h' -> safe c conn h' ends_free p' ->
  system_ok c (<[i := h']> hs) (mkSystem (Some s') (<[i := (conn, p')]> threads) calls) /\
  (winding_down hs (mkSystem cell threads calls) ->
   winding_down (<[i := h']> hs) (mkSystem (Some s') (<[i := (conn, p')]> threads) calls)).
Proof.
  intros [(s1 & E1 & Hc & Hf) Ht Hcalls] -> Hs Hh Hp Hm Hsafe. simpl in *. simplify_eq.
  pose proof (held_count_insert hs i h h' Hh) as Hn. split.
  - split; [|by apply Forall2_insert|done]. exists s'. split; [done|].
    destruct Hm as [s' ? ? ?|target -> ?|?]; simpl in *; (split; [congruence|]); rewrite ?Hf; [lia..|].
    destruct h; [simpl in *; lia|done].
  - intros [(s2 & ? & Ha) Hall]. simplify_eq/=. split.
    + exists s'. split; [done|]. destruct Hm as [s' ? ? Hacc|target -> ?|?]; simpl; [|done|done].
      destruct (gw_accepting s') eqn:?; [|done]. symmetry. rewrite <- Ha. by apply Hacc.
    + apply Forall_insert; [done|]. destruct Hm as [|target -> [?|?]|?]; [|congruence|done|done].
      by eapply Forall_lookup_1 in Hall.
Qed.

Lemma system_step c hs sys sys' : 0 <= auth_window_seconds c <= 300 -> system_ok c hs sys -> gateway_step sys sys' ->
  exists hs' new, system_ok c hs' sys' /\ sys_calls sys' = sys_calls sys ++ new /\
    (winding_down hs sys -> winding_down hs' sys' /\ Forall completion_call new).
Proof.
  intros Hw Hok Hstep. pose proof Hok as [(s & Ec & Hc & Hf) Ht Hcalls].
  destruct Hstep as [cell threads calls conn|cell threads calls i conn B section k Hi
    |cell threads calls i conn k now Hi|cell threads calls i conn call k answer Hi]; simpl in *.
  - exists (hs ++ [None]), []. rewrite app_nil_r. split; [|split; [done|]].
    + split; [|apply Forall2_app; [done|]; constructor; [by apply safe_serve|constructor]|done].
      exists s. split; [done|]. split; [done|]. rewrite Hf. clear. induction hs; simpl; lia.
    + intros [Ha Hall]. split; [|constructor]. split; [done|]. apply Forall_app. split; [done|]. by repeat constructor.
  - destruct (Forall2_lookup_r _ _ _ _ _ Ht Hi) as (h & Hh & Hsafe). simpl in Hsafe.
    destruct (Hsafe s Hc) as (s' & h' & E & Hm & Hk).
    { pose proof (held_count_nonneg hs). lia. }
    { intros ?. destruct h; [|done]. apply held_count_member in Hh. lia. }
    subst cell. rewrite E.
    destruct (system_move c hs _ threads calls s s' i h h' conn _ _ Hok eq_refl Hc Hh Hi Hm Hk) as [H1 H2].
    eexists _, []. split; [exact H1|]. split; [by rewrite app_nil_r|]. intros Hd. split; [|constructor].
    by apply H2.
  - destruct (Forall2_lookup_r _ _ _ _ _ Ht Hi) as (h & Hh & Hsafe). simpl in Hsafe.
    exists hs, []. rewrite app_nil_r. split; [|split; [done|by intros [? ?]]].
    split; [by exists s| |done]. simpl. rewrite <- (list_insert_id hs i h Hh). apply Forall2_insert; [done|]. apply Hsafe.
  - destruct (Forall2_lookup_r _ _ _ _ _ Ht Hi) as (h & Hh & Hsafe). simpl in Hsafe.
    destruct Hsafe as [Hcall Hk]. exists hs, [(conn, call)]. split; [|split; [done|]].
    + split; [by exists s| |].
      * simpl. rewrite <- (list_insert_id hs i h Hh). apply Forall2_insert; [done|]. apply Hk.
      * apply Forall_app. split; [done|]. constructor; [|constructor].
        destruct Hcall as [[_ ?]|[_ ?]]; [by left|by right].
    + intros [Ha Hall]. split; [done|]. constructor; [|constructor].
      destruct Hcall as [[_ ?]|[-> _]]; [by left|]. right. by eapply Forall_lookup_1 in Hh; [|exact Hall].
Qed.

Definition gateway_start (s : GatewayState) : System := mkSystem (Some s) [] [].

Lemma system_reachable s sys : 0 <= auth_window_seconds (security s) <= 300 -> gw_in_flight s = 0 ->
  rtc gateway_step (gateway_start s) sys -> exists hs, system_ok (security s) hs sys.
Proof.
  intros Hw Hf Hr.
  assert (Hstart : system_ok (security s) [] (gateway_start s)) by (split; [by exists s|constructor|constructor]).
  revert Hstart. generalize (@nil (option string)). induction Hr as [|x y z Hxy Hyz IH]; intros hs Hok; [eauto|].
  destruct (system_step _ _ _ _ Hw Hok Hxy) as (hs' & new & Hok' & _). by eapply IH.
Qed.

(** C7. Authorised forwarding. Whatever connections arrive, however their threads interleave and
    whatever the inspection service answers: every exchange with the service is the read of its
    status or a POST that the connection was authorised for by the gateway's configuration. On a
    manual route that is a loopback operator with the operator token (in production); on a trigger
    route an allowed source with an operator token or a valid signature for this body; on TCP and UDP
    an allowed source and a signature for the payload whose event names the target. When the message was
    signed and whether it was seen before is not part of this statement. *)
Theorem gateway_forwards_only_authorised (s : GatewayState) (sys : System) :
  0 <= auth_window_seconds (security s) <= 300 -> gw_in_flight s = 0 ->
  rtc gateway_step (gateway_start s) sys ->
  forall conn call, In (conn, call) (sys_calls sys) ->
    status_call call \/ (sc_method call = "POST" /\ authorised (security s) conn (sc_path call)).
Proof.
  intros Hw Hf Hr conn call Hin. destruct (system_reachable s sys Hw Hf Hr) as (hs & Hok).
  pose proof (so_calls _ _ _ Hok) as Hcalls. rewrite List.Forall_forall in Hcalls. by apply (Hcalls (conn, call)).
Qed.

(** C8. Drain. In every reachable state the in-flight counter covers the triggers being forwarded:
    it is positive while a thread is about to post, and zero when every thread has finished. From a
    state that reports itself drained (not accepting, nothing in flight), every further run only
    reads the status or posts a completion. *)
Theorem gateway_drains (s : GatewayState) (sys later : System) (now : GatewayState) :
  0 <= auth_window_seconds (security s) <= 300 -> gw_in_flight s = 0 ->
  rtc gateway_step (gateway_start s) sys -> sys_cell sys = Some now -> rtc gateway_step sys later ->
  (forall conn call k, In (conn, Exchange call k) (sys_threads sys) -> sc_method call = "POST" -> 1 <= gw_in_flight now) /\
  ((forall conn p, In (conn, p) (sys_threads sys) -> p = Done tt) -> gw_in_flight now = 0) /\
  (gw_accepting now = false -> gw_in_flight now = 0 ->
     exists new, sys_calls later = sys_calls sys ++ new /\ Forall completion_call new).
Proof.
  intros Hw Hf Hr Ec Hl. destruct (system_reachable s sys Hw Hf Hr) as (hs & Hok).
  pose proof Hok as [(s1 & E1 & _ & Hn) Ht _]. rewrite Ec in E1. simplify_eq. split; [|split].
  - intros conn call k Hin Hpost. apply list_elem_of_In, list_elem_of_lookup in Hin as (i & Hi).
    destruct (Forall2_lookup_r _ _ _ _ _ Ht Hi) as (h & Hh & [Hcall _]).
    destruct Hcall as [(_ & Hget & _)|(-> & _)]; [congruence|]. apply held_count_member in Hh. lia.
  - intros Hdone. rewrite Hn. clear -Ht Hdone. induction Ht as [|h [conn p] hs threads Hs Ht IH]; [done|]. simpl in *.
    rewrite IH by eauto. rewrite (Hdone conn p (or_introl eq_refl)) in Hs. simpl in Hs. by rewrite Hs.
  - intros Ha H0'. assert (Hwind : winding_down hs sys).
    { split; [by eexists|]. apply Forall_lookup. intros i h Hh.
      destruct h as [t|]; [|done]. apply held_count_member in Hh. lia. }
    clear -Hw Hok Hwind Hl. revert hs Hok Hwind. induction Hl as [x|x y z Hxy Hyz IH]; intros hs Hok Hwind.
    { exists []. by rewrite app_nil_r. }
    destruct (system_step _ _ _ _ Hw Hok Hxy) as (hs' & new & Hok' & E & Hd).
    destruct (Hd Hwind) as [Hwind' Hnew]. destruct (IH hs' Hok' Hwind') as (new' & E' & Hnew').
    exists (new ++ new'). rewrite E', E, app_assoc. split; [done|]. by apply Forall_app.
Qed.

(** ** Runs by computation *)

(** One step of the thread at an index, with a given clock and service answer. *)
Definition advance (now : Z) (answer : option string) (i : nat) (sys : System) : System :=
  match sys_threads sys !! i with
  | Some (conn, Lock section k) =>
      mkSystem (snd (section (sys_cell sys)))
        (<[i := (conn, k (fst (section (sys_cell sys))))]> (sys_threads sys)) (sys_calls sys)
  | Some (conn, Clock k) => mkSystem (sys_cell sys) (<[i := (conn, k now)]> (sys_threads sys)) (sys_calls sys)
  | Some (conn, Exchange call k) =>
      mkSystem (sys_cell sys) (<[i := (conn, k answer)]> (sys_threads sys)) (sys_calls sys ++ [(conn, call)])
  | _ => sys
  end.

Definition accept (conn : Connection) (sys : System) : System :=
  mkSystem (sys_cell sys) (sys_threads sys ++ [(conn, serve conn)]) (sys_calls sys).

Definition advance_all (now : Z) (answer : option string) (schedule : list nat) (sys : System) : System :=
  fold_left (fun sys i => advance now answer i sys) schedule sys.

Lemma accept_step conn sys : rtc gateway_step sys (accept conn sys).
Proof. destruct sys. apply rtc_once, StepAccept. Qed.

Lemma advance_all_steps now answer schedule sys : rtc gateway_step sys (advance_all now answer schedule sys).
Proof.
  revert sys. induction schedule as [|i schedule IH]; intros sys; [apply rtc_refl|].
  etrans; [|apply IH]. unfold advance. destruct sys as [cell threads calls]. simpl.
  destruct (threads !! i) as [[conn [a|B section k|k|call k]]|] eqn:E; try apply rtc_refl; apply rtc_once.
  - by eapply StepLock.
  - by eapply StepClock.
  - by eapply StepExchange.
Qed.

End System.

(** ** Concrete runs *)

Definition empty_object_codec : JsonCodec :=
  {| json_print := fun _ => "{}"; json_parse := fun text => if text == "{}" then Some (JObject []) else None |}.

Definition signed_request (path nonce : string) : string :=
  "POST " +:+ path +:+ " HTTP/1.1" +:+ crlf +:+ "X-Trigger-Timestamp: 1700000000" +:+ crlf +:+
  "X-Trigger-Nonce: " +:+ nonce +:+ crlf +:+
  "X-Trigger-Signature: " +:+ toy_sign "1700000000" nonce "http" "{}" +:+ crlf +:+
  "Content-Length: 2" +:+ blank_line +:+ "{}".

Definition drain_text : string :=
  "POST /api/trigger/drain HTTP/1.1" +:+ crlf +:+
  "X-Trigger-Operator-Token: fedcba9876543210fedcba9876543210" +:+ blank_line.

Definition local_peer : IpAddr := V4 2130706433.
Definition plant_peer : IpAddr := V4 169083395.

Abbreviation toy_start := (gateway_start sample_gateway).
Definition toy_accept : Connection -> System -> System :=
  @accept empty_object_codec toy_hmac (fun s => s) (fun _ => None) (fun _ => "") (fun _ => "") "http://127.0.0.1:4873" "".

Definition steel_in_connection : Connection :=
  HttpConnection [ReadBytes (signed_request "/api/plc/steel-in" sample_nonce)] plant_peer.

Definition forwarded_run : System :=
  advance_all 1700000005 None (replicate 10 0%nat) (toy_accept steel_in_connection toy_start).

Lemma gateway_forwards_only_authorised_witness :
  exists call, sys_calls forwarded_run = [(steel_in_connection, call)] /\
    sc_path call = "/api/production/tasks/steel-in" /\
    (status_call call \/
     (sc_method call = "POST" /\
      @authorised empty_object_codec toy_hmac (fun s => s) sample_config steel_in_connection (sc_path call))).
Proof.
  eexists. split; [vm_compute; reflexivity|]. split; [reflexivity|].
  eapply (@gateway_forwards_only_authorised empty_object_codec toy_hmac (fun s => s) (fun _ => None)
    (fun _ => "") (fun _ => "") "http://127.0.0.1:4873" "" sample_gateway forwarded_run).
  - simpl. lia.
  - reflexivity.
  - etrans; [apply (accept_step (fun s => s))|apply advance_all_steps].
  - vm_compute. left. reflexivity.
Defined.

(** Drained while idle; a signed steel-in is refused afterwards and a steel-out goes through. *)
Definition drained_run : System :=
  advance_all 1700000005 None (replicate 10 0%nat) (toy_accept (HttpConnection [ReadBytes drain_text; ReadEof] local_peer) toy_start).

Definition after_drain : System :=
  advance_all 1700000005 None (replicate 10 1%nat ++ replicate 10 2%nat)
    (toy_accept (HttpConnection [ReadBytes (signed_request "/api/plc/steel-out" "nonce-0000000002")] plant_peer)
       (toy_accept steel_in_connection drained_run)).

Lemma gateway_drains_witness :
  exists now, sys_cell drained_run = Some now /\ gw_accepting now = false /\ gw_in_flight now = 0 /\
  map (fun entry => sc_path (snd entry)) (sys_calls after_drain) = ["/api/production/tasks/steel-out"] /\
  exists new, sys_calls after_drain = sys_calls drained_run ++ new /\ Forall completion_call new.
Proof.
  eexists. split; [vm_compute; reflexivity|]. split; [reflexivity|]. split; [reflexivity|].
  split; [vm_compute; reflexivity|].
  eapply (@gateway_drains empty_object_codec toy_hmac (fun s => s) (fun _ => None)
    (fun _ => "") (fun _ => "") "http://127.0.0.1:4873" "" sample_gateway drained_run after_drain).
  - simpl. lia.
  - reflexivity.
  - etrans; [apply (accept_step (fun s => s))|apply advance_all_steps].
  - vm_compute. reflexivity.
  - etrans; [apply (accept_step (fun s => s))|].
    etrans; [apply (accept_step (fun s => s))|apply advance_all_steps].
  - reflexivity.
  - reflexivity.
Defined.
