(* ===== verification/Admin.v ===== *)
(** * Administration: sessions, login lockout and authorisation

    The access control of app/service/src/main.rs: bearer sessions and their revocation, the
    lockout of failing logins, the password rules, the origin check of state-changing requests and
    the permission every route asks for. Tables live behind a mutex each: [None] is a poisoned one. *)

From S2P Require Import Prelude Json Http TriggerSecurity.
From Stdlib Require Import Ascii.

(** ** State *)

(** [LoginFailureState]. *)
Record LoginFailureState := mkLoginFailureState {
  count : Z;
  first_failed_at : Z;
  locked_until : Z;
}.

(** [SecurityPolicy]. *)
Record SecurityPolicy := mkSecurityPolicy {
  audit_retention_days : Z;
  login_max_failures : Z;
  login_failure_window_minutes : Z;
  login_lockout_minutes : Z;
  session_ttl_hours : Z;
}.

Definition login_failure_window_ms (p : SecurityPolicy) : Z := login_failure_window_minutes p * 60 * 1000.
Definition login_lockout_ms (p : SecurityPolicy) : Z := login_lockout_minutes p * 60 * 1000.
Definition session_ttl_ms (p : SecurityPolicy) : Z := session_ttl_hours p * 60 * 60 * 1000.

(** main.rs [default_security_policy]. *)
Definition default_security_policy : SecurityPolicy := mkSecurityPolicy 180 5 (600000 / 60000) (300000 / 60000) 8.

(** [AdminSession]. *)
Record AdminSession := mkAdminSession {
  as_session_id : string;
  as_token : string;
  as_user_id : string;
  as_display_name : string;
  as_role : string;
  as_permissions : list string;
  as_must_change_password : bool;
  as_user_agent : string;
  as_created_at : Z;
  as_expires_at : Z;
}.

Definition Sessions := option (gmap string AdminSession).
Definition LoginFailures := option (gmap string LoginFailureState).

(** A row for the audit log; whether it can be stored is ignored by every caller. *)
Record AuditEntry := mkAuditEntry {
  ae_actor : string;
  ae_action : string;
  ae_target : string;
  ae_detail : string;
  ae_level : string;
}.

(** ** Sessions *)

(** The FNV-1a hash of the token and session identifiers. *)
Definition fnv1a (seed : string) : Z :=
  fold_left (fun hash byte => wrap_u64 (Z.lxor hash (byte_of byte) * 1099511628211)) (bytes seed) 14695981039346656037.

(** main.rs [create_session_token]; the two clock readings. *)
Definition create_session_token (user_id : string) (now now' : Z) : string :=
  "adm-" +:+ dec now +:+ "-" +:+ hex_digits 16 (fnv1a (user_id +:+ ":" +:+ dec now +:+ ":" +:+ dec now')).

(** main.rs [create_session_id]. *)
Definition create_session_id (user_id token : string) (created_at : Z) : string :=
  "ses-" +:+ dec created_at +:+ "-" +:+ hex_digits 16 (fnv1a (user_id +:+ ":" +:+ token +:+ ":" +:+ dec created_at)).

(** main.rs [bearer_token]. *)
Definition bearer_token (request : string) : option string :=
  filter_opt (fun value => negb (is_empty value))
    (match request_header request "Authorization" with
     | Some value => option_map trim (strip_prefix "Bearer " value)
     | None => None
     end).

(** main.rs [session_from_request]. *)
Definition session_from_request (sessions : Sessions) (request : string) (now : Z) : option AdminSession * Sessions :=
  match bearer_token request with
  | None => (None, sessions)
  | Some token =>
      match sessions with
      | None => (None, None)
      | Some table =>
          match table !! token with
          | Some session => if now <? as_expires_at session then (Some session, sessions) else (None, Some (delete token table))
          | None => (None, Some (delete token table))
          end
      end
  end.

(** main.rs [invalidate_user_sessions] and [invalidate_role_sessions]. *)
Definition invalidate_user_sessions (sessions : Sessions) (user_id : string) (now : Z) : Sessions :=
  option_map (filter (fun entry => now < as_expires_at (snd entry) /\ as_user_id (snd entry) <> user_id)) sessions.
Definition invalidate_role_sessions (sessions : Sessions) (role : string) (now : Z) : Sessions :=
  option_map (filter (fun entry => now < as_expires_at (snd entry) /\ as_role (snd entry) <> role)) sessions.

Definition password_changed (s : AdminSession) : AdminSession :=
  mkAdminSession (as_session_id s) (as_token s) (as_user_id s) (as_display_name s) (as_role s) (as_permissions s)
    false (as_user_agent s) (as_created_at s) (as_expires_at s).

(** main.rs [complete_password_change_sessions]. *)
Definition complete_password_change_sessions (sessions : Sessions) (user_id keep_token : string) (now : Z) : Sessions :=
  option_map (fun table =>
    alter password_changed keep_token
      (filter (fun entry => now < as_expires_at (snd entry) /\ (as_user_id (snd entry) <> user_id \/ fst entry = keep_token))
         table)) sessions.

(** main.rs [write_auth_logout_response]: the table and the audit rows. *)
Definition write_auth_logout (sessions : Sessions) (request : string) : Sessions * list AuditEntry :=
  match bearer_token request, sessions with
  | Some token, Some table =>
      match table !! token with
      | Some s => (Some (delete token table),
                   [mkAuditEntry (as_user_id s) "auth.logout" (as_user_id s) "后台账号退出登录" "info"])
      | None => (Some table, [])
      end
  | _, _ => (sessions, [])
  end.

(** ** Login lockout *)

(** main.rs [login_failure_key]. *)
Definition login_failure_key (user_id : string) : string :=
  let key := to_ascii_lowercase (trim user_id) in
  if is_empty key then "<empty>" else key.

(** main.rs [prune_login_failures]. *)
Definition prune_login_failures (failures : gmap string LoginFailureState) (now : Z) (policy : SecurityPolicy)
    : gmap string LoginFailureState :=
  filter (fun entry => now < locked_until (snd entry)
                       \/ sat_sub now (first_failed_at (snd entry)) <= login_failure_window_ms policy) failures.

(** main.rs [login_locked_until]. *)
Definition login_locked_until (failures : LoginFailures) (user_id : string) (now : Z) (policy : SecurityPolicy)
    : option Z * LoginFailures :=
  match failures with
  | None => (None, None)
  | Some table =>
      let table := prune_login_failures table now policy in
      (match table !! login_failure_key user_id with
       | Some failure => if now <? locked_until failure then Some (locked_until failure) else None
       | None => None
       end, Some table)
  end.

(** main.rs [clear_login_failures]. *)
Definition clear_login_failures (failures : LoginFailures) (user_id : string) : LoginFailures :=
  option_map (delete (login_failure_key user_id)) failures.

(** main.rs [record_login_failure]. *)
Definition record_login_failure (failures : LoginFailures) (user_id : string) (now : Z) (policy : SecurityPolicy)
    : LoginFailureState * LoginFailures :=
  match failures with
  | None => (mkLoginFailureState 1 now 0, None)
  | Some table =>
      let key := login_failure_key user_id in
      let table := prune_login_failures table now policy in
      let failure := unwrap_or (table !! key) (mkLoginFailureState 0 now 0) in
      let failure :=
        if sat_sub now (first_failed_at failure) >? login_failure_window_ms policy
        then mkLoginFailureState 0 now 0 else failure in
      let failure :=
        if locked_until failure <=? now then
          let count := sat_add u32_max (count failure) 1 in
          mkLoginFailureState count (first_failed_at failure)
            (if count >=? login_max_failures policy then now + login_lockout_ms policy else locked_until failure)
        else failure in
      (failure, Some (<[key := failure]> table))
  end.

(** ** Passwords *)

Inductive PasswordPolicyError := PasswordMissing | PasswordLength | PasswordComplexity.

Definition ADMIN_PASSWORD_MIN_LEN : Z := 8.
Definition ADMIN_PASSWORD_MAX_LEN : Z := 128.

(** main.rs [validate_admin_password]. *)
Definition validate_admin_password (password : option string) : Result unit PasswordPolicyError :=
  match password with
  | None => Err PasswordMissing
  | Some password =>
      if is_empty password then Err PasswordMissing
      else if (str_len password <? ADMIN_PASSWORD_MIN_LEN) || (str_len password >? ADMIN_PASSWORD_MAX_LEN)
      then Err PasswordLength
      else if negb (any_byte is_ascii_alphabetic password) || negb (any_byte is_ascii_digit password)
      then Err PasswordComplexity
      else Ok tt
  end.

(** ** Origins *)

(** The text before the first slash, question mark or hash. *)
Fixpoint until_path (s : string) : string :=
  match s with
  | EmptyString => EmptyString
  | String a r => if byte_is a 47 || byte_is a 63 || byte_is a 35 then EmptyString else String a (until_path r)
  end.

(** main.rs [origin_host]. *)
Definition origin_host (value : string) : option string :=
  let trimmed := trim value in
  if eq_ignore_ascii_case trimmed "null" || is_empty trimmed then None
  else
    match split_once "://" trimmed with
    | None => None
    | Some (_, rest) =>
        let authority := List.last (split_byte (ascii_of_nat 64) (until_path rest)) "" in
        if starts_with "[" authority then
          match split_once "]" authority with
          | Some (before, _) => option_map to_ascii_lowercase (strip_prefix "[" before)
          | None => None
          end
        else
          match split_byte (ascii_of_nat 58) authority with
          | host :: _ => option_map to_ascii_lowercase (filter_opt (fun host => negb (is_empty host)) (Some (trim host)))
          | [] => None
          end
    end.

Definition local_name (host : string) : bool :=
  one_of host ["localhost"; "127.0.0.1"; "::1"] || ends_with ".localhost" host.

(** [Ipv4Addr::is_private] and [is_link_local]; [Ipv6Addr::is_unique_local] and
    [is_unicast_link_local]. *)
Definition v4_is_private (a : Z) : bool :=
  (a / 2 ^ 24 =? 10) || (a / 2 ^ 20 =? 172 * 16 + 1) || (a / 2 ^ 16 =? 192 * 256 + 168).
Definition v4_is_link_local (a : Z) : bool := a / 2 ^ 16 =? 169 * 256 + 254.
Definition v6_is_unique_local (a : Z) : bool := a / 2 ^ 121 =? 126.
Definition v6_is_unicast_link_local (a : Z) : bool := a / 2 ^ 118 =? 1018.

(** main.rs [is_trusted_local_origin]. *)
Definition is_trusted_local_origin (value : string) : bool :=
  match origin_host value with
  | None => false
  | Some host =>
      local_name host ||
      match parse_ip host with
      | Some (V4 a) => v4_is_private a || v4_is_link_local a || ip_is_loopback (V4 a)
      | Some (V6 a) => ip_is_loopback (V6 a) || v6_is_unique_local a || v6_is_unicast_link_local a
      | None => false
      end
  end.

(** main.rs [request_targets_loopback]. *)
Definition request_targets_loopback (request : string) : bool :=
  match request_header request "Host" with
  | None => true
  | Some host => is_some_and (origin_host ("http://" +:+ host)) local_name
  end.

Definition state_changing_word (method : string) : bool :=
  existsb (eq_ignore_ascii_case method) ["POST"; "PUT"; "PATCH"; "DELETE"].

(** main.rs [request_state_changing_method]; the inner call has no headers, so it ends there. *)
Definition request_state_changing_method (request method : string) : bool :=
  if eq_ignore_ascii_case method "OPTIONS" then
    is_some_and (request_header request "Access-Control-Request-Method") (fun requested =>
      if eq_ignore_ascii_case requested "OPTIONS" then false else state_changing_word requested)
  else state_changing_word method.

(** main.rs [request_origin_allowed]. *)
Definition request_origin_allowed (request method : string) : bool :=
  if negb (request_state_changing_method request method) then true
  else
    match request_header request "Origin" with
    | Some origin => is_trusted_local_origin origin
    | None =>
        match request_header request "Referer" with
        | Some referer => is_trusted_local_origin referer
        | None => true
        end
    end.

(** ** Permissions *)

(** main.rs [permission_for_route], arm by arm. *)
Definition permission_arms : list (list (string * string) * string) :=
  [ ([("GET", "/api/database");
      ("GET", "/api/admin/database/backup");
      ("GET", "/api/admin/database/integrity");
      ("GET", "/api/admin/diagnostics")],
     "admin.overview");
    ([("POST", "/api/bkv/replay/next")],
     "admin.services");
    ([("POST", "/api/admin/database/maintenance")],
     "admin.services");
    ([("GET", "/api/config/capture");
      ("GET", "/api/config/status");
      ("GET", "/api/config/profiles");
      ("GET", "/api/config/profile");
      ("GET", "/api/storage/status");
      ("GET", "/api/param");
      ("GET", "/api/calibration/active");
      ("GET", "/api/calibration/status");
      ("GET", "/api/calibration/operations/detail");
      ("POST", "/api/config/capture");
      ("POST", "/api/config/connection");
      ("POST", "/api/storage/config");
      ("POST", "/api/storage/camera-roots");
      ("POST", "/api/config/profile/save");
      ("POST", "/api/config/profile/apply");
      ("POST", "/api/config/profile/import");
      ("POST", "/api/config/camera-params/save-all");
      ("POST", "/api/config/camera-params/load-all");
      ("POST", "/api/cameras/connect-all");
      ("POST", "/api/camera/connect-all");
      ("POST", "/api/camera/connect");
      ("POST", "/api/camera/disconnect");
      ("POST", "/api/param/save-device");
      ("POST", "/api/param/save-to-device");
      ("POST", "/api/param/save-file");
      ("POST", "/api/param/load-file");
      ("POST", "/api/param/recovery");
      ("POST", "/api/param");
      ("POST", "/api/capture/continuous-test");
      ("POST", "/api/capture/preset/line-continuous");
      ("POST", "/api/calibration/load");
      ("POST", "/api/calibration/apply-all");
      ("POST", "/api/calibration/rollback");
      ("POST", "/api/calibration/active");
      ("POST", "/api/roi/load");
      ("GET", "/api/admin/inspection-settings");
      ("POST", "/api/admin/inspection-settings");
      ("GET", "/api/admin/alarm-rules");
      ("POST", "/api/admin/alarm-rules");
      ("GET", "/api/admin/external-integrations");
      ("POST", "/api/admin/external-integrations");
      ("GET", "/api/admin/runtime-profile");
      ("POST", "/api/admin/runtime-profile/validate");
      ("POST", "/api/admin/runtime-profile");
      ("GET", "/api/admin/algorithm/depth-geometry");
      ("PUT", "/api/admin/algorithm/depth-geometry");
      ("GET", "/api/admin/algorithm/depth-geometry/backfill");
      ("GET", "/api/admin/algorithm/depth-geometry/backfill/status");
      ("POST", "/api/admin/algorithm/depth-geometry/backfill");
      ("POST", "/api/admin/algorithm/depth-geometry/backfill/pause");
      ("POST", "/api/admin/algorithm/depth-geometry/backfill/resume");
      ("GET", "/api/admin/site-configs");
      ("GET", "/api/admin/site-configs/detail");
      ("POST", "/api/admin/site-configs");
      ("POST", "/api/admin/site-configs/clone");
      ("PATCH", "/api/admin/site-configs");
      ("DELETE", "/api/admin/site-configs");
      ("POST", "/api/admin/site-configs/check");
      ("POST", "/api/admin/site-configs/activate");
      ("POST", "/api/admin/site-configs/import");
      ("GET", "/api/admin/site-configs/export");
      ("GET", "/api/admin/site-configs/machine-default");
      ("PUT", "/api/admin/site-configs/machine-default");
      ("DELETE", "/api/admin/site-configs/machine-default");
      ("GET", "/api/admin/bkv-import/jobs");
      ("POST", "/api/admin/bkv-import/jobs");
      ("POST", "/api/admin/bkv-import/jobs/retry")],
     "admin.config");
    ([("GET", "/api/admin/config/revisions");
      ("GET", "/api/admin/config/revisions/detail");
      ("POST", "/api/admin/config/revisions/restore")],
     "admin.config");
    ([("GET", "/api/admin/services");
      ("GET", "/api/admin/runtime/logs");
      ("POST", "/api/admin/services/capture/start");
      ("POST", "/api/admin/services/capture/stop");
      ("POST", "/api/admin/services/capture/restart");
      ("POST", "/api/capture/start");
      ("POST", "/api/capture/stop");
      ("POST", "/api/capture/restart");
      ("POST", "/api/capture/simulation/control");
      ("POST", "/api/trigger/mode");
      ("POST", "/api/trigger/manual/steel-info");
      ("POST", "/api/trigger/manual/steel-in");
      ("POST", "/api/trigger/manual/steel-out");
      ("POST", "/api/trigger/capture-once");
      ("POST", "/api/bkv/import");
      ("POST", "/api/bkv/replay/reset");
      ("POST", "/api/production/tasks");
      ("POST", "/api/production/tasks/cancel");
      ("POST", "/api/production/tasks/retry");
      ("POST", "/api/production/tasks/steel-info");
      ("POST", "/api/production/tasks/steel-in");
      ("POST", "/api/production/tasks/steel-out");
      ("POST", "/api/production/tasks/trigger-event");
      ("POST", "/api/production/steel-info");
      ("POST", "/api/production/steel-in");
      ("POST", "/api/production/steel-out");
      ("POST", "/api/production/trigger-event");
      ("POST", "/api/production/secondary-data");
      ("POST", "/api/production/capture-summary");
      ("POST", "/api/production/capture-once");
      ("POST", "/api/production/algorithm/run");
      ("POST", "/api/production/defect");
      ("POST", "/api/algorithm/bar-surface/run");
      ("POST", "/api/algorithm/bar-surface/calibration/fit");
      ("POST", "/api/capture/alignment/rebuild");
      ("POST", "/api/capture/measurement/rebuild");
      ("POST", "/api/capture/defects/rebuild")],
     "admin.services");
    ([("GET", "/api/admin/overview")],
     "admin.overview");
    ([("GET", "/api/admin/users");
      ("POST", "/api/admin/users");
      ("DELETE", "/api/admin/users")],
     "admin.users");
    ([("GET", "/api/admin/roles");
      ("GET", "/api/admin/permissions");
      ("POST", "/api/admin/roles");
      ("DELETE", "/api/admin/roles")],
     "admin.roles");
    ([("GET", "/api/admin/cameras");
      ("POST", "/api/admin/cameras");
      ("DELETE", "/api/admin/cameras")],
     "admin.cameras");
    ([("GET", "/api/admin/defect-types")],
     "admin.records");
    ([("POST", "/api/admin/defect-types");
      ("DELETE", "/api/admin/defect-types")],
     "admin.config");
    ([("GET", "/api/admin/audit");
      ("GET", "/api/admin/audit/export");
      ("POST", "/api/admin/audit/retention")],
     "admin.audit");
    ([("GET", "/api/admin/security/policy");
      ("POST", "/api/admin/security/policy")],
     "admin.audit");
    ([("GET", "/api/admin/records");
      ("GET", "/api/admin/records/detail");
      ("GET", "/api/admin/records/reports");
      ("GET", "/api/admin/records/reports/detail");
      ("POST", "/api/admin/records/reports");
      ("GET", "/api/admin/records/cleanup");
      ("GET", "/api/admin/records/export");
      ("POST", "/api/admin/records/retention");
      ("POST", "/api/admin/records/cleanup/retry");
      ("DELETE", "/api/admin/records")],
     "admin.records");
    ([("POST", "/api/alarms/acknowledge");
      ("POST", "/api/alarms/resolve")],
     "admin.records");
    ([("POST", "/api/defects/review")],
     "admin.records");
    ([("POST", "/api/admin/auth/password");
      ("GET", "/api/admin/auth/sessions");
      ("DELETE", "/api/admin/auth/sessions")],
     "admin.self") ].

Definition permission_for_route (method path : string) : option string :=
  find_map (fun '(routes, permission) =>
    if existsb (fun '(m, p) => (m == method) && (p == path)) routes then Some permission else None) permission_arms.

Section Authorize.
Context `{JsonCodec}.

(** main.rs [auth_failure]. *)
Definition auth_failure (status : string) (code : Z) (error : string) : string :=
  json_response status (jobj [("code", jint code); ("error", JString error)]).

(** The permission a request needs; [None] outside is a panic of the query decoder. *)
Definition required_permission (request method path : string) : option (option string) :=
  match permission_for_route method path with
  | Some permission => Some (Some permission)
  | None =>
      if (method == "GET") && (path == "/api/production/file") then
        let raw_path := match split_whitespace (unwrap_or (head (lines request)) "") with _ :: p :: _ => p | _ => "" end in
        match query_value (snd (split_path_and_query raw_path)) "path" with
        | None => None
        | Some value => Some (if is_some_and value (starts_with "bkv://") then Some "admin.records" else None)
        end
      else Some None
  end.

(** The routes open to a session that must change its password first. *)
Definition self_service_route (method path : string) : bool :=
  existsb (fun '(m, p) => (m == method) && (p == path))
    [("GET", "/api/admin/auth/me"); ("POST", "/api/admin/auth/password"); ("POST", "/api/admin/auth/logout")].

Definition denied (actor action method path permission : string) : AuditEntry :=
  mkAuditEntry actor action (method +:+ " " +:+ path) ("拒绝访问：需要权限 " +:+ permission) "warning".

(** main.rs [authorize_request]: the verdict, the session table and the audit rows written. *)
Definition authorize_request (sessions : Sessions) (request method path : string) (now : Z)
    : option (Result (option AdminSession) string * Sessions * list AuditEntry) :=
  match required_permission request method path with
  | None => None
  | Some required =>
      let '(session, sessions) := session_from_request sessions request now in
      Some
        (if is_some_and session as_must_change_password && negb (self_service_route method path)
         then (Err (auth_failure "403 Forbidden" 403 "password_change_required"), sessions, [])
         else
           match required with
           | None => (Ok session, sessions, [])
           | Some permission =>
               match session with
               | None => (Err (auth_failure "401 Unauthorized" 401 "auth_required"), sessions,
                          [denied "anonymous" "auth.access.denied" method path permission])
               | Some s =>
                   if (permission == "admin.self") || one_of permission (as_permissions s)
                   then (Ok (Some s), sessions, [])
                   else (Err (auth_failure "403 Forbidden" 403 "permission_denied"), sessions,
                         [denied (as_user_id s) "auth.permission.denied" method path permission])
               end
           end)
  end.

(** ** What authorisation guarantees *)

Lemma session_from_request_sound sessions request now s sessions' :
  session_from_request sessions request now = (Some s, sessions') ->
  exists token table, bearer_token request = Some token /\ sessions = Some table /\ table !! token = Some s /\
    now < as_expires_at s /\ sessions' = sessions.
Proof.
  unfold session_from_request. destruct (bearer_token request) as [token|]; [|done].
  destruct sessions as [table|]; [|done]. destruct (table !! token) as [s'|] eqn:E; [|done].
  destruct (Z.ltb_spec now (as_expires_at s')); [|done]. intros [= -> <-]. eauto 10.
Qed.

(** The session a request comes from: its bearer token is in the table and has not expired. *)
Definition live (sessions : Sessions) (request : string) (now : Z) (s : AdminSession) : Prop :=
  exists token table, bearer_token request = Some token /\ sessions = Some table /\ table !! token = Some s /\
    now < as_expires_at s.

Lemma session_live sessions request now s : fst (session_from_request sessions request now) = Some s <-> live sessions request now s.
Proof.
  split.
  - destruct (session_from_request sessions request now) as [o t] eqn:E. simpl. intros ->.
    destruct (session_from_request_sound _ _ _ _ _ E) as (token & table & ? & ? & ? & ? & _). by exists token, table.
  - intros (token & table & Ht & -> & Hs & Hn). unfold session_from_request. rewrite Ht, Hs.
    by rewrite (proj2 (Z.ltb_lt now (as_expires_at s))).
Qed.

End Authorize.

(** ** What revocation guarantees *)

(** Revocation. After a user's sessions are invalidated (the account was disabled, deleted or its
    password reset) no request, at any later time, is answered a session of that user; after a
    password change the only session left to the user is the one that made it, without the duty to
    change the password; the sessions of a role go the same way. Other users keep their live sessions. *)
Theorem sessions_revoked (table : gmap string AdminSession) (user keep role : string) (now later : Z) (request : string) (s : AdminSession) :
  (fst (session_from_request (invalidate_user_sessions (Some table) user now) request later) = Some s ->
     as_user_id s <> user) /\
  (fst (session_from_request (invalidate_role_sessions (Some table) role now) request later) = Some s ->
     as_role s <> role) /\
  (fst (session_from_request (complete_password_change_sessions (Some table) user keep now) request later) = Some s ->
     as_user_id s <> user \/ (bearer_token request = Some keep /\ as_must_change_password s = false)) /\
  (forall token, bearer_token request = Some token -> table !! token = Some s -> now < as_expires_at s ->
     later < as_expires_at s -> as_user_id s <> user ->
     fst (session_from_request (invalidate_user_sessions (Some table) user now) request later) = Some s).
Proof.
  assert (Hget : forall t s', fst (session_from_request (Some t) request later) = Some s' ->
    exists token, bearer_token request = Some token /\ t !! token = Some s').
  { intros t s' E. destruct (session_from_request (Some t) request later) as [r t'] eqn:Er. simpl in E. subst r.
    apply session_from_request_sound in Er as (token & table' & ? & [= <-] & ? & _). eauto. }
  split; [|split; [|split]].
  - intros (token & _ & [_ [_ ?]]%map_lookup_filter_Some)%Hget. done.
  - intros (token & _ & [_ [_ ?]]%map_lookup_filter_Some)%Hget. done.
  - intros (token & Ht & Hs)%Hget. destruct (decide (token = keep)) as [->|Hne].
    + rewrite lookup_alter_eq in Hs. apply fmap_Some in Hs as (s0 & _ & ->). right. done.
    + rewrite lookup_alter_ne in Hs by done. apply map_lookup_filter_Some in Hs as [_ [_ [?|?]]]; [by left|done].
  - intros token Ht Hs Hnow Hlater Hu. unfold session_from_request, invalidate_user_sessions. rewrite Ht. simpl.
    rewrite (map_lookup_filter_Some_2 _ _ _ s) by done. destruct (Z.ltb_spec later (as_expires_at s)); [done|lia].
Qed.

(** ** What the lockout guarantees *)

(** A login attempt with a wrong password, as the login route handles it: refused while locked,
    otherwise checked and recorded. The answer says whether a password was checked. *)
Definition failing_login (policy : SecurityPolicy) (failures : LoginFailures) (user_id : string) (now : Z)
    : bool * LoginFailures :=
  match login_locked_until failures user_id now policy with
  | (Some _, failures) => (false, failures)
  | (None, failures) => (true, snd (record_login_failure failures user_id now policy))
  end.

(** The times at which passwords of one account were checked over a series of attempts. *)
Fixpoint checked_times (policy : SecurityPolicy) (key : string) (failures : LoginFailures)
    (attempts : list (string * Z)) : list Z :=
  match attempts with
  | [] => []
  | (user_id, now) :: attempts' =>
      let '(checked, failures') := failing_login policy failures user_id now in
      (if checked && (login_failure_key user_id == key) then [now] else [])
      ++ checked_times policy key failures' attempts'
  end.

Section Lockout.
Variable policy : SecurityPolicy.
Variable key : string.
Variable start : Z.
Hypothesis policy_ok : 1 <= login_max_failures policy /\ 0 <= login_lockout_ms policy /\ 0 <= login_failure_window_ms policy.
Hypothesis start_ok : 0 < start.

Definition in_window (now : Z) : Prop := start <= now <= start + login_failure_window_ms policy.

(** From the [login_max_failures]-th check on, checks are a lockout apart. *)
Definition spaced (checks : list Z) : Prop := forall i a b,
  login_max_failures policy <= Z.of_nat (S i) -> checks !! i = Some a -> checks !! S i = Some b ->
  a + login_lockout_ms policy <= b.

(** The record of an account after the checks. *)
Definition record_of (checks : list Z) : option LoginFailureState :=
  match checks with
  | [] => None
  | first :: _ => Some (mkLoginFailureState (Z.of_nat (length checks)) first
      (if Z.of_nat (length checks) >=? login_max_failures policy
       then List.last checks 0 + login_lockout_ms policy else 0))
  end.

Lemma prune_keeps table now checks : in_window now -> Forall in_window checks ->
  table !! key = record_of checks -> prune_login_failures table now policy !! key = record_of checks.
Proof.
  intros Hn Hc E. unfold prune_login_failures. destruct checks as [|first checks]; simpl in *.
  - apply map_lookup_filter_None. by left.
  - apply map_lookup_filter_Some_2; [done|]. right. simpl. apply Forall_inv in Hc.
    unfold in_window, sat_sub in *. lia.
Qed.

(** A check of another account leaves the record alone. *)
Lemma record_other table user now checks : in_window now -> Forall in_window checks -> login_failure_key user <> key ->
  table !! key = record_of checks ->
  exists table', snd (record_login_failure (Some table) user now policy) = Some table' /\ table' !! key = record_of checks.
Proof.
  intros Hn Hc Hk E. unfold record_login_failure. cbn [snd]. eexists. split; [done|].
  rewrite lookup_insert_ne by done. by apply prune_keeps.
Qed.

(** The record after one more check. *)
Lemma record_check table user now checks : in_window now -> Forall in_window checks ->
  table !! login_failure_key user = record_of checks -> key = login_failure_key user ->
  Z.of_nat (length checks) < u32_max ->
  is_none_or (record_of checks) (fun f => locked_until f <=? now) = true ->
  exists table', snd (record_login_failure (Some table) user now policy) = Some table' /\
    table' !! key = record_of (checks ++ [now]).
Proof.
  intros Hn Hc E Hk Hlen Hunlocked. rewrite <- Hk in E.
  unfold record_login_failure. rewrite <- Hk, (prune_keeps _ _ _ Hn Hc E). cbn [snd].
  eexists. split; [done|]. rewrite lookup_insert_eq. destruct checks as [|first checks].
  - cbn [record_of unwrap_or app length first_failed_at locked_until count].
    unfold sat_sub. rewrite Z.sub_diag. simpl. destruct (_ >? _) eqn:Eg; simpl.
    + lia.
    + unfold in_window in Hn. destruct (Z.leb_spec 0 now); [|lia]. unfold sat_add, u32_max. simpl. done.
  - cbn [record_of] in *. cbn [unwrap_or first_failed_at].
    apply Forall_inv in Hc. destruct (_ >? _) eqn:Eg.
    { unfold sat_sub, in_window in *. lia. }
    cbn [is_none_or locked_until] in Hunlocked. cbn [locked_until]. rewrite Hunlocked. cbn [count first_failed_at locked_until].
    assert (Hcount : sat_add u32_max (Z.of_nat (length (first :: checks))) 1 = Z.of_nat (length ((first :: checks) ++ [now]))).
    { rewrite length_app. unfold sat_add. simpl length in *. lia. }
    rewrite Hcount.
    assert (Hr : record_of ((first :: checks) ++ [now])
      = Some (mkLoginFailureState (Z.of_nat (length ((first :: checks) ++ [now]))) first
          (if Z.of_nat (length ((first :: checks) ++ [now])) >=? login_max_failures policy
           then now + login_lockout_ms policy else 0))).
    { pose proof (last_last (first :: checks) now 0) as El. cbn [app] in *. cbn [record_of]. by rewrite El. }
    rewrite Hr. destruct (Z.of_nat (length ((first :: checks) ++ [now])) >=? _) eqn:Ege; [done|].
    destruct (Z.of_nat (length (first :: checks)) >=? _) eqn:Ege2; [|done].
    rewrite length_app in Ege. cbn [length] in Ege, Ege2. exfalso.
    clear -Ege Ege2. rewrite Z.geb_leb in Ege, Ege2. apply Z.leb_gt in Ege. apply Z.leb_le in Ege2. lia.
Qed.

Lemma last_of_lookup (l : list Z) i a d : l !! i = Some a -> length l = S i -> List.last l d = a.
Proof.
  intros Hl Hlen. destruct (exists_last (l := l)) as (l' & x & ->); [by intros ->|].
  rewrite length_app in Hlen. simpl in Hlen. rewrite lookup_app_r in Hl by lia.
  replace (i - length l')%nat with 0%nat in Hl by lia. simplify_eq/=. apply last_last.
Qed.

Lemma spaced_snoc checks now : spaced checks ->
  is_none_or (record_of checks) (fun f => locked_until f <=? now) = true -> spaced (checks ++ [now]).
Proof.
  intros Hs Hu i a b Hi Ha Hb. destruct (decide (S i < length checks)%nat) as [Hlt|Hge].
  - rewrite lookup_app_l in Ha, Hb by lia. eauto.
  - assert (S i < length (checks ++ [now]))%nat by (apply lookup_lt_Some in Hb; done).
    rewrite length_app in *. cbn [length] in *. assert (Hlen : length checks = S i) by lia.
    rewrite lookup_app_r in Hb by lia. rewrite Hlen, Nat.sub_diag in Hb. simplify_eq/=.
    rewrite lookup_app_l in Ha by lia. destruct checks as [|first checks]; [done|].
    cbn [record_of is_none_or locked_until] in Hu. rewrite Hlen in Hu.
    destruct (Z.of_nat (S i) >=? _) eqn:Eg; [|rewrite Z.geb_leb in Eg; apply Z.leb_gt in Eg; lia]. apply Z.leb_le in Hu.
    by rewrite (last_of_lookup _ _ _ 0 Ha Hlen) in Hu.
Qed.

(** Login lockout. For an account without recorded failures, over any series of failing logins to
    any accounts at times within one failure window: from the check that reaches the allowed
    number of failures on, each further password check of that account comes at least a lockout after
    the one before. So at most the allowed number of guesses is made before the first lockout ends. *)
Theorem login_guesses_are_rate_limited (table : gmap string LoginFailureState) (attempts : list (string * Z)) :
  table !! key = None -> Forall (fun attempt => in_window (snd attempt)) attempts ->
  Z.of_nat (length attempts) < u32_max ->
  spaced (checked_times policy key (Some table) attempts).
Proof.
  assert (Hgen : forall attempts table checks, table !! key = record_of checks -> Forall in_window checks ->
    Forall (fun attempt => in_window (snd attempt)) attempts -> Z.of_nat (length checks + length attempts) < u32_max ->
    spaced checks -> spaced (checks ++ checked_times policy key (Some table) attempts)).
  2: { intros Hnone Hw Hlen. by apply (Hgen attempts table []). }
  clear table attempts. intros attempts. induction attempts as [|[user now] attempts IH];
    intros table checks E Hc Hw Hlen Hs; cbn [checked_times]; [by rewrite app_nil_r|].
  apply Forall_cons in Hw as [Hn Hw]. simpl in Hn, Hlen. unfold failing_login, login_locked_until.
  pose proof (prune_keeps table now checks Hn Hc E) as Ep.
  destruct (String.eqb_spec (login_failure_key user) key) as [Hk|Hk].
  - rewrite Hk, Ep.
    destruct (is_none_or (record_of checks) (fun f => locked_until f <=? now)) eqn:Eu.
    + destruct (record_check _ user now checks Hn Hc ltac:(by rewrite Hk) (eq_sym Hk) ltac:(lia) Eu) as (table' & Et & Er).
      replace (match record_of checks with
               | Some failure => if now <? locked_until failure then Some (locked_until failure) else None
               | None => None end) with (@None Z).
      * rewrite Et. simpl. rewrite cons_middle, app_assoc. apply IH; try done.
        -- apply Forall_app. auto.
        -- rewrite length_app. simpl. lia.
        -- by apply spaced_snoc.
      * destruct (record_of checks) as [f|]; [|done]. simpl in Eu. destruct (Z.ltb_spec now (locked_until f)); [lia|done].
    + destruct (record_of checks) as [f|] eqn:Er; [|done]. simpl in Eu.
      destruct (Z.ltb_spec now (locked_until f)); [|lia]. simpl. apply IH; try done; [by rewrite Ep, Er|lia].
  - destruct (record_other _ user now checks Hn Hc Hk Ep) as (table' & Et & Er).
    destruct (prune_login_failures table now policy !! login_failure_key user) as [f|];
      [destruct (now <? locked_until f)|]; cbn [andb app]; rewrite ?Et; apply IH; try done; lia.
Qed.

End Lockout.

(** ** Witnesses *)

Definition sample_session (user role : string) : AdminSession :=
  mkAdminSession "ses-1" "adm-1" user user role ["admin.config"] false "browser" 0 1000.

Definition sample_table : gmap string AdminSession := {["adm-1" := sample_session "bob" "viewer"]}.

Definition sample_request : string := "POST /api/admin/site-configs HTTP/1.1" +:+ crlf +:+ "Authorization: Bearer adm-1" +:+ crlf +:+ crlf.

Lemma sessions_revoked_witness :
  as_user_id (sample_session "bob" "viewer") <> "alice" /\
  fst (session_from_request (invalidate_user_sessions (Some sample_table) "alice" 5) sample_request 7)
  = Some (sample_session "bob" "viewer").
Proof.
  split; [done|].
  apply (sessions_revoked sample_table "alice" "adm-9" "admin" 5 7 sample_request
           (sample_session "bob" "viewer")) with "adm-1"; try reflexivity; done.
Defined.

Lemma login_guesses_are_rate_limited_witness :
  spaced default_security_policy
    (checked_times default_security_policy "root" (Some ∅)
       [(" Root", 1000); ("root", 2000); ("eve", 2500); ("ROOT", 3000); ("root", 4000); ("root", 5000);
        ("root", 6000); ("root", 305000); ("root", 306000)])
  /\ checked_times default_security_policy "root" (Some ∅)
       [(" Root", 1000); ("root", 2000); ("eve", 2500); ("ROOT", 3000); ("root", 4000); ("root", 5000);
        ("root", 6000); ("root", 305000); ("root", 306000)] = [1000; 2000; 3000; 4000; 5000; 305000].
Proof.
  split; [|vm_compute; reflexivity].
  apply (login_guesses_are_rate_limited default_security_policy "root" 1000).
  - vm_compute; intuition congruence.
  - lia.
  - reflexivity.
  - repeat constructor; vm_compute; intuition congruence.
  - vm_compute; reflexivity.
Defined.

