(* ===== verification/RequestGate.v ===== *)
(** * The gate of the inspection service

    The first half of [handle_client] of app/service/src/main.rs: what a request passes before a route is
    chosen for it. It composes the check of the origin, the drain route, the trust in the trigger gateway
    ([Runtime]) and the authorisation of sessions ([Admin]). *)

From S2P Require Import Prelude Json Http TriggerSecurity Runtime Admin.
From Stdlib Require Import Ascii.




Section Passage.
Context `{JsonCodec}.
Variable sha256 : string -> string.


(** ** What passes, and what is written down *)







End Passage.

(** ** A request at the gate *)


