(* ===== verification/Concurrent.v ===== *)
(** * Programs of atomic steps

    Threads that share a state behind mutexes and atomics: a program is a sequence of steps, each a
    critical section that is enabled or blocks, or a choice made by the surroundings (the clock, an
    operation of the file system, a third party). Threads interleave at their steps. One proof rule
    serves every such system: a global invariant over the state and a ghost value per thread. *)

From S2P Require Import Prelude.

Inductive Prog (S A : Type) : Type :=
| Ret (a : A)
| Panicked
| Step {B : Type} (section : S -> option (B * S)) (k : B -> Prog S A)
| Choose {B : Type} (k : B -> Prog S A).
Arguments Ret {S A} a.
Arguments Panicked {S A}.
Arguments Step {S A B} section k.
Arguments Choose {S A B} k.

Fixpoint prog_bind {S A B} (m : Prog S A) (f : A -> Prog S B) : Prog S B :=
  match m with
  | Ret a => f a
  | Panicked => Panicked
  | Step section k => Step section (fun b => prog_bind (k b) f)
  | Choose k => Choose (fun b => prog_bind (k b) f)
  end.

Notation "'let~' x := m 'in' k" := (prog_bind m (fun x => k))
  (at level 10, x binder, m at level 100, k at level 200,
   format "'[v' 'let~'  x  :=  m  'in' '/' k ']'") : rust_scope.

(** A critical section that is always enabled, and one that waits until it is. *)
Definition atomically {S B} (section : S -> B * S) : Prog S B := Step (fun s => Some (section s)) Ret.
Definition when_enabled {S B} (section : S -> option (B * S)) : Prog S B := Step section Ret.
Definition reading {S B} (read : S -> B) : Prog S B := atomically (fun s => (read s, s)).
Definition updating {S} (f : S -> S) : Prog S unit := atomically (fun s => (tt, f s)).
(** What the surroundings decide. *)
Definition choose {S} (B : Type) : Prog S B := Choose Ret.

(** The question mark operator on the answer of a program. *)
Definition try_bind {S A B E} (m : Prog S (Result A E)) (f : A -> Prog S (Result B E)) : Prog S (Result B E) :=
  let~ r := m in
  match r with Ok a => f a | Err e => Ret (Err e) end.

Notation "'let~?' x := m 'in' k" := (try_bind m (fun x => k))
  (at level 10, x binder, m at level 100, k at level 200,
   format "'[v' 'let~?'  x  :=  m  'in' '/' k ']'") : rust_scope.

(** [map_err]. *)
Definition map_error {S A E F} (f : E -> F) (m : Prog S (Result A E)) : Prog S (Result A F) :=
  let~ r := m in
  Ret (match r with Ok a => Ok a | Err e => Err (f e) end).

(** The fate of a statement of the database. *)
Inductive Fate :=
| Works
| FailsBefore (message : string)
| FailsAfter (message : string).

Section Pool.
Context {S A R : Type}.
(** What a thread with a given task runs. *)
Variable program : R -> Prog S A.

(** The shared state, and the threads started so far with what is left of each. *)
Record Pool := mkPool {
  shared : S;
  threads : list (R * Prog S A);
}.

Inductive thread_step : S -> Prog S A -> S -> Prog S A -> Prop :=
| ThreadSection s (B : Type) (section : S -> option (B * S)) k b s' :
    section s = Some (b, s') -> thread_step s (Step section k) s' (k b)
| ThreadChoice s (B : Type) (k : B -> Prog S A) b : thread_step s (Choose k) s (k b).

Inductive pool_step : Pool -> Pool -> Prop :=
| PoolStart s ts r : pool_step (mkPool s ts) (mkPool s (ts ++ [(r, program r)]))
| PoolRun s ts i r p s' p' : ts !! i = Some (r, p) -> thread_step s p s' p' ->
    pool_step (mkPool s ts) (mkPool s' (<[i := (r, p')]> ts)).

(** A step of the threads already started. *)
Definition pool_run (x y : Pool) : Prop :=
  exists i r p p', threads x !! i = Some (r, p) /\ thread_step (shared x) p (shared y) p' /\
    threads y = <[i := (r, p')]> (threads x).

Lemma pool_run_step x y : pool_run x y -> pool_step x y.
Proof. destruct x as [s ts], y as [s' ts']. intros (i & r & p & p' & Hi & Hs & E). simpl in *. subst. by eapply PoolRun. Qed.

(** ** Runs are finite *)

(** What is left of a program after a step of it. *)
Definition left_of (q p : Prog S A) : Prop :=
  match p with
  | Ret _ | Panicked => False
  | Step _ k => exists b, q = k b
  | Choose k => exists b, q = k b
  end.

Lemma left_of_wf p : Acc left_of p.
Proof. induction p as [a| |B section k IH|B k IH]; constructor; intros q; [intros []|intros []|intros [b ->]; apply IH..]. Qed.

Definition one_left (x y : list (R * Prog S A)) : Prop :=
  exists i r p p', y !! i = Some (r, p) /\ left_of p' p /\ x = <[i := (r, p')]> y.

Lemma one_left_wf ts : Acc one_left ts.
Proof.
  induction ts as [|[r p] ts IH]. { constructor. intros x (i & r & p & p' & Hi & _). by destruct i. }
  revert ts IH. induction (left_of_wf p) as [p _ IHp]. intros ts IH.
  induction IH as [ts Hts IHts]. constructor. intros x ([|i] & r' & q & q' & Hi & Hq & ->); simpl in *; simplify_eq.
  - by apply IHp.
  - apply IHts. by exists i, r', q, q'.
Qed.

(** However the threads interleave and whatever their surroundings decide, they come to an end. *)
Lemma pool_run_wf x : Acc (fun y x => pool_run x y) x.
Proof.
  destruct x as [s ts]. revert s. induction (one_left_wf ts) as [ts _ IH]. intros s. constructor.
  intros [s' ts'] (i & r & p & p' & Hi & Hs & E). simpl in *. subst. apply IH. exists i, r, p, p'. split; [done|]. split; [|done].
  destruct Hs as [s B section k b s' _|s B k b]; by exists b.
Qed.

(** ** The proof rule *)

Definition finished (p : Prog S A) : Prop := match p with Ret _ => True | _ => False end.

#[local] Instance finished_dec p : Decision (finished p).
Proof. destruct p; simpl; apply _. Defined.

Section Rule.
Context {L : Type}.
Variable fresh : L.
Variable Inv : S -> list L -> Prop.
(** The level of the locks a thread holds: a thread only waits for locks of a higher level. *)
Variable rank : L -> nat.

(** Run from any state of the invariant, whatever the other threads do in between, the program keeps
    the invariant, waits only while a thread of a higher rank is at work, does not panic, and ends with
    an answer and a ghost value in [Q]. *)
Fixpoint safe {X} (Q : L -> X -> Prop) (l : L) (p : Prog S X) : Prop :=
  match p with
  | Ret a => Q l a
  | Panicked => False
  | Step section k =>
      forall s ls i, Inv s ls -> ls !! i = Some l ->
      match section s with
      | Some (b, s') => exists l', Inv s' (<[i := l']> ls) /\ safe Q l' (k b)
      | None => exists j l', ls !! j = Some l' /\ (rank l < rank l')%nat
      end
  | @Choose _ _ B k => inhabited B /\ forall b, safe Q l (k b)
  end.

Lemma pool_bind {X Y} (m : Prog S X) (f : X -> Prog S Y) Q l :
  safe (fun l' a => safe Q l' (f a)) l m -> safe Q l (prog_bind m f).
Proof.
  revert l. induction m as [a| |B section k IH|B k IH]; intros l Hm; simpl in *; [done|done| |].
  - intros s ls i Hi Hl. specialize (Hm s ls i Hi Hl). destruct (section s) as [[b s']|]; [|done].
    destruct Hm as (l' & Hi' & Hk). eauto.
  - destruct Hm as [Hb Hk]. eauto.
Qed.

Lemma pool_mono {X} (p : Prog S X) (Q Q' : L -> X -> Prop) l :
  (forall l' a, Q l' a -> Q' l' a) -> safe Q l p -> safe Q' l p.
Proof.
  intros HQ. revert l. induction p as [a| |B section k IH|B k IH]; intros l Hp; simpl in *; [by apply HQ|done| |].
  - intros s ls i Hi Hl. specialize (Hp s ls i Hi Hl). destruct (section s) as [[b s']|]; [|done].
    destruct Hp as (l' & Hi' & Hk). eauto.
  - destruct Hp as [Hb Hk]. eauto.
Qed.

(** A section that keeps the invariant and the ghost value, with its answer. *)
Lemma pool_keep {X} (section : S -> X * S) (Q : L -> X -> Prop) l :
  (forall s ls i, Inv s ls -> ls !! i = Some l -> Inv (snd (section s)) ls /\ Q l (fst (section s))) ->
  safe Q l (atomically section).
Proof.
  intros Hk s ls i Hi Hl. destruct (Hk s ls i Hi Hl) as [Hi' HQ]. destruct (section s) as [b s'].
  exists l. rewrite (list_insert_id ls i l Hl). done.
Qed.

(** A section that changes the ghost value. *)
Lemma pool_move {X} (section : S -> X * S) (Q : L -> X -> Prop) l :
  (forall s ls i, Inv s ls -> ls !! i = Some l ->
     exists l', Inv (snd (section s)) (<[i := l']> ls) /\ Q l' (fst (section s))) ->
  safe Q l (atomically section).
Proof. intros Hk s ls i Hi Hl. specialize (Hk s ls i Hi Hl). by destruct (section s) as [b s']. Qed.

Lemma pool_choose {X} `{Inhabited X} (Q : L -> X -> Prop) l : (forall b, Q l b) -> safe Q l (choose X).
Proof. intros HQ. split; [constructor; exact inhabitant|done]. Qed.

Definition pool_safe (Q : R -> L -> A -> Prop) (pool : Pool) : Prop :=
  exists ls, Inv (shared pool) ls /\
    Forall2 (fun t l => safe (Q (fst t)) l (snd t)) (threads pool) ls.

Variable Q : R -> L -> A -> Prop.
Hypothesis starts : forall s ls, Inv s ls -> Inv s (ls ++ [fresh]).
Hypothesis programs_safe : forall r, safe (Q r) fresh (program r).

Lemma pool_step_safe pool pool' : pool_step pool pool' -> pool_safe Q pool -> pool_safe Q pool'.
Proof.
  intros [s ts r|s ts i r p s' p' Hi Ht] (ls & Hinv & Hts); simpl in *.
  - exists (ls ++ [fresh]). split; [by apply starts|]. apply Forall2_app; [done|]. constructor; [|constructor].
    simpl. apply programs_safe.
  - destruct (Forall2_lookup_l _ _ _ _ _ Hts Hi) as (l & Hl & Hp). simpl in Hp.
    destruct Ht as [s B section k b s' E|s B k b]; simpl in Hp.
    + specialize (Hp s ls i Hinv Hl). rewrite E in Hp. destruct Hp as (l' & Hinv' & Hk).
      exists (<[i := l']> ls). split; [done|]. by apply Forall2_insert.
    + exists ls. split; [done|]. rewrite <- (list_insert_id ls i l Hl). apply Forall2_insert; [done|]. apply Hp.
Qed.

(** Every reachable pool is safe. *)
Lemma pool_reachable_safe s pool : Inv s [] -> rtc pool_step (mkPool s []) pool -> pool_safe Q pool.
Proof.
  intros Hs Hr. assert (H0 : pool_safe Q (mkPool s [])) by (exists []; by split).
  revert H0. induction Hr as [|x y z Hxy _ IH]; [done|]. intros Hx. apply IH. by eapply pool_step_safe.
Qed.

(** A safe pool is not stuck: while threads are unfinished, one of them can take a step. *)
Hypothesis ends_unlocked : forall r l a, Q r l a -> rank l = 0%nat.

Lemma thread_waits s ls i r l p : Inv s ls -> ls !! i = Some l -> safe (Q r) l p -> ~ finished p ->
  (exists s' p', thread_step s p s' p') \/ exists j l', ls !! j = Some l' /\ (rank l < rank l')%nat.
Proof.
  intros Hi Hl Hp Hu. destruct p as [a| |B section k|B k]; [by destruct Hu|by destruct Hp|simpl in Hp..].
  - specialize (Hp s ls i Hi Hl). destruct (section s) as [[b s']|] eqn:E; [|by right].
    left. exists s', (k b). by constructor.
  - destruct Hp as [[b] _]. left. exists s, (k b). constructor.
Qed.

Lemma rank_unfinished r l p : safe (Q r) l p -> (0 < rank l)%nat -> ~ finished p.
Proof. intros Hp Hr Hf. destruct p as [a| | |]; simpl in *; try done. apply ends_unlocked in Hp. lia. Qed.

Lemma pool_not_stuck pool : pool_safe Q pool ->
  Forall (fun t => finished (snd t)) (threads pool) \/ exists pool', pool_run pool pool'.
Proof.
  intros Hp. cut (Forall (fun t => finished (snd t)) (threads pool) \/
    exists i r p s' p', threads pool !! i = Some (r, p) /\ thread_step (shared pool) p s' p').
  { intros [?|(i & r & p & s' & p' & Hi & Hs)]; [by left|]. right.
    exists (mkPool s' (<[i := (r, p')]> (threads pool))). by exists i, r, p, p'. }
  destruct Hp as (ls & Hinv & Hts). destruct pool as [s ts]. simpl in *.
  assert (Hclimb : forall n i t l, (list_max (map rank ls) - rank l <= n)%nat -> ts !! i = Some t -> ls !! i = Some l ->
    ~ finished (snd t) -> exists i r p s' p', ts !! i = Some (r, p) /\ thread_step s p s' p').
  { induction n as [|n IH]; intros i [r p] l Hmax Hi Hl Hu;
      pose proof (Forall2_lookup_lr _ _ _ _ _ _ Hts Hi Hl) as Hp; simpl in Hp, Hu;
      destruct (thread_waits s ls i r l p Hinv Hl Hp Hu) as [(s' & p' & Hstep)|(j & l' & Hj & Hr)]; eauto 10;
      assert (rank l' <= list_max (map rank ls))%nat
        by (apply (proj1 (List.Forall_forall _ _) (proj1 (list_max_le (map rank ls) _) (le_n _)));
            apply in_map, list_elem_of_In; by eapply list_elem_of_lookup_2); [lia|].
    destruct (Forall2_lookup_r _ _ _ _ _ Hts Hj) as ([r' q] & Hj' & Hq). simpl in Hq.
    apply (IH j (r', q) l'); try done; [lia|]. simpl. eapply rank_unfinished; [done|lia]. }
  destruct (decide (Forall (fun t => finished (snd t)) ts)) as [?|Hn]; [by left|]. right.
  apply not_Forall_Exists in Hn; [|apply _]. apply Exists_exists in Hn as (t & Ht & Hu).
  apply list_elem_of_lookup_1 in Ht as (i & Hi). destruct (Forall2_lookup_l _ _ _ _ _ Hts Hi) as (l & Hl & _).
  by apply (Hclimb _ i t l (le_n _)).
Qed.

End Rule.
End Pool.

(** ** Runs of one thread *)

Section Runs.
Context {S : Type}.

(** A program run alone from one state to another. *)
Inductive runs {A} : S -> Prog S A -> S -> Prog S A -> Prop :=
| RunsHere s p : runs s p s p
| RunsOn s p s1 p1 s2 p2 : thread_step s p s1 p1 -> runs s1 p1 s2 p2 -> runs s p s2 p2.

Lemma runs_choose {A B} (b : B) s (f : B -> Prog S A) s' p : runs s (f b) s' p -> runs s (prog_bind (choose B) f) s' p.
Proof. apply RunsOn. apply (ThreadChoice s B f b). Qed.

Lemma runs_section {A B} section s (b : B) (f : B -> Prog S A) s' p : option_map fst (section s) = Some b ->
  runs (from_option snd s (section s)) (f b) s' p -> runs s (prog_bind (when_enabled section) f) s' p.
Proof.
  destruct (section s) as [[b' s1]|] eqn:E; intros [= <-]. apply RunsOn. by apply (ThreadSection s B section f b' s1).
Qed.

Lemma runs_atomically {A B} section s (b : B) (f : B -> Prog S A) s' p : fst (section s) = b ->
  runs (snd (section s)) (f b) s' p -> runs s (prog_bind (atomically section) f) s' p.
Proof. intros <-. apply RunsOn. apply (ThreadSection s B _ f). by destruct (section s). Qed.

Lemma runs_bind {A B} s (m : Prog S A) s1 p1 (f : A -> Prog S B) s' p : runs s m s1 p1 ->
  runs s1 (prog_bind p1 f) s' p -> runs s (prog_bind m f) s' p.
Proof.
  induction 1 as [|s m s2 m2 s3 m3 Hstep _ IH]; [done|]. intros Hp. eapply RunsOn; [|by apply IH].
  destruct Hstep as [s0 C section k b s0' E|s0 C k b]; [by apply (ThreadSection s0 C section (fun b => prog_bind (k b) f) b s0')|].
  apply (ThreadChoice s0 C (fun b => prog_bind (k b) f) b).
Qed.

(** What holds wherever a program that runs alone ends, whatever its surroundings decide. *)
Fixpoint alone {A} (Q : S -> A -> Prop) (s : S) (p : Prog S A) : Prop :=
  match p with
  | Ret a => Q s a
  | Panicked => False
  | Step section k => match section s with Some (b, s') => alone Q s' (k b) | None => False end
  | Choose k => forall b, alone Q s (k b)
  end.

Lemma alone_bind {A B} (m : Prog S A) (f : A -> Prog S B) Q s :
  alone (fun s' a => alone Q s' (f a)) s m -> alone Q s (prog_bind m f).
Proof.
  revert s. induction m as [a| |C section k IH|C k IH]; intros s Hm; simpl in *; [done|done| |auto].
  destruct (section s) as [[b s']|]; [auto|done].
Qed.

Lemma alone_mono {A} (p : Prog S A) (Q Q' : S -> A -> Prop) s :
  (forall s' a, Q s' a -> Q' s' a) -> alone Q s p -> alone Q' s p.
Proof.
  intros HQ. revert s. induction p as [a| |C section k IH|C k IH]; intros s Hp; simpl in *; [auto|done| |auto].
  destruct (section s) as [[b s']|]; [auto|done].
Qed.

Lemma alone_runs {A} (p : Prog S A) (Q : S -> A -> Prop) s s' a : alone Q s p -> runs s p s' (Ret a) -> Q s' a.
Proof.
  intros Hp Hr. remember (Ret a) as last eqn:E. revert Hp E. induction Hr as [s p|s p s1 p1 s2 p2 Hstep _ IH]; intros Hp E.
  - subst p. exact Hp.
  - apply IH; [|done]. destruct Hstep as [s C section k b s1 Es|s C k b]; simpl in Hp; [by rewrite Es in Hp|apply Hp].
Qed.

(** A thread of a pool runs while the others rest. *)
Lemma pool_runs {A R} (program : R -> Prog S A) s ts i r p s' p' : ts !! i = Some (r, p) -> runs s p s' p' ->
  rtc (pool_step program) (mkPool s ts) (mkPool s' (<[i := (r, p')]> ts)).
Proof.
  intros Hi Hr. revert ts Hi. induction Hr as [s p|s p s1 p1 s2 p2 Hstep _ IH]; intros ts Hi.
  { by rewrite list_insert_id. }
  eapply rtc_l; [by eapply PoolRun|]. pose proof (lookup_lt_Some _ _ _ Hi) as Hlt.
  specialize (IH (<[i := (r, p1)]> ts)). rewrite list_insert_insert_eq in IH. apply IH. by rewrite list_lookup_insert_eq.
Qed.
End Runs.

(** ** Panics as answers *)

(** The program with a panic as the answer [None]. It takes the same steps. *)
Fixpoint caught {S A} (p : Prog S A) : Prog S (option A) :=
  match p with
  | Ret a => Ret (Some a)
  | Panicked => Ret None
  | Step section k => Step section (fun b => caught (k b))
  | Choose k => Choose (fun b => caught (k b))
  end.

Lemma caught_step {S A} (s s' : S) (p p' : Prog S A) : thread_step s p s' p' -> thread_step s (caught p) s' (caught p').
Proof.
  intros [s0 B section k b s1 E|s0 B k b]; [|apply (ThreadChoice s0 B (fun b => caught (k b)))].
  by apply (ThreadSection s0 B section (fun b => caught (k b))).
Qed.

Lemma step_inv {S A} (s s' : S) (p p' : Prog S A) : thread_step s p s' p' ->
  match p with
  | Ret _ | Panicked => False
  | Step section k => exists b, section s = Some (b, s') /\ p' = k b
  | Choose k => s' = s /\ exists b, p' = k b
  end.
Proof. intros [s0 B section k b s1 E|s0 B k b]; eauto. Qed.

Lemma step_of_caught {S A} (s s' : S) (p : Prog S A) q : thread_step s (caught p) s' q -> exists p', thread_step s p s' p'.
Proof.
  intros Hs%step_inv. destruct p as [a| |B section k|B k]; simpl in Hs; [done..| |].
  - destruct Hs as (b & E & _). exists (k b). by constructor.
  - destruct Hs as (-> & b & _). exists (k b). constructor.
Qed.

Definition caught_pool {S A R} (x : @Pool S A R) : @Pool S (option A) R :=
  mkPool (shared x) (map (fun t => (fst t, caught (snd t))) (threads x)).

Lemma caught_pool_step {S A R} (program : R -> Prog S A) x y : pool_step program x y ->
  pool_step (fun r => caught (program r)) (caught_pool x) (caught_pool y).
Proof.
  intros [s ts r|s ts i r p s' p' Hi Ht]; unfold caught_pool; simpl.
  - rewrite map_app. apply (PoolStart (fun r => caught (program r))).
  - change (map ?f (<[i := ?x]> ts)) with (f <$> <[i := x]> ts). rewrite list_fmap_insert. apply PoolRun with (p := caught p); [|by apply caught_step].
    by rewrite list_lookup_fmap, Hi.
Qed.

Lemma caught_pool_run {S A R} (x : @Pool S A R) y : pool_run (caught_pool x) y -> exists y', pool_run x y'.
Proof.
  intros (i & r & q & q' & Hi & Hs & _). simpl in *. change (map ?f ?l) with (f <$> l) in Hi.
  apply list_lookup_fmap_Some in Hi as ([r0 p] & [= -> ->] & Hi). apply step_of_caught in Hs as [p' Hs].
  exists (mkPool (shared y) (<[i := (r0, p')]> (threads x))). by exists i, r0, p, p'.
Qed.

Section Caught.
Context {S L : Type} (Inv : S -> list L -> Prop) (rank : L -> nat).

Lemma safe_caught {A} (Q : L -> A -> Prop) l (m : Prog S A) :
  safe Inv rank Q l m -> safe Inv rank (fun l' r => exists a, r = Some a /\ Q l' a) l (caught m).
Proof.
  revert l. induction m as [a| |B section k IH|B k IH]; intros l Hm; simpl in *; [eauto|done| |].
  - intros s ls i Hi Hl. specialize (Hm s ls i Hi Hl). destruct (section s) as [[b s']|]; [|done].
    destruct Hm as (l' & Hi' & Hk). eauto.
  - destruct Hm as [Hb Hk]. eauto.
Qed.

Lemma safe_ret {A} (Q : L -> A -> Prop) l a : Q l a -> safe Inv rank Q l (Ret a).
Proof. done. Qed.

Lemma safe_caught_bind {A B} (m : Prog S A) (f : A -> Prog S B) (Q : L -> option B -> Prop) l :
  safe Inv rank (fun l' r => match r with Some a => safe Inv rank Q l' (caught (f a)) | None => Q l' None end) l (caught m) ->
  safe Inv rank Q l (caught (prog_bind m f)).
Proof.
  revert l. induction m as [a| |C section k IH|C k IH]; intros l Hm; simpl in *; [done|done| |].
  - intros s ls i Hi Hl. specialize (Hm s ls i Hi Hl). destruct (section s) as [[b s']|]; [|done].
    destruct Hm as (l' & Hi' & Hk). eauto.
  - destruct Hm as [Hb Hk]. eauto.
Qed.

(** The threads that are left when a pool whose panics are expected stops: each has ended, as promised. *)
Lemma caught_ends {A R} (program : R -> Prog S A) (fresh : L) (Q : R -> L -> option A -> Prop) (s : S) (pool : @Pool S A R) :
  (forall s ls, Inv s ls -> Inv s (ls ++ [fresh])) -> (forall r, safe Inv rank (Q r) fresh (caught (program r))) ->
  (forall r l a, Q r l a -> rank l = 0%nat) -> Inv s [] -> rtc (pool_step program) (mkPool s []) pool ->
  (forall next, ~ pool_run pool next) ->
  Forall (fun t => (exists a l, snd t = Ret a /\ Q (fst t) l (Some a)) \/ snd t = Panicked /\ exists l, Q (fst t) l None) (threads pool).
Proof.
  intros Hstart Hprog Hrank Hs Hr Hend.
  assert (Hsafe : pool_safe Inv rank Q (caught_pool pool)).
  { eapply (pool_reachable_safe (fun r => caught (program r)) fresh); [done..|].
    change (mkPool s []) with (caught_pool (mkPool s [] : @Pool S A R)). clear -Hr.
    induction Hr as [|x y z Hxy _ IH]; [done|]. eapply rtc_l; [by apply caught_pool_step|done]. }
  destruct (pool_not_stuck Inv rank Q Hrank _ Hsafe) as [Hf|[next Hn]].
  2:{ apply caught_pool_run in Hn as [next' Hn]. by destruct (Hend next'). }
  destruct Hsafe as (ls & _ & Hls). simpl in *. apply Forall_lookup. intros i [r p] Hi.
  assert (Hi' : map (fun t => (fst t, caught (snd t))) (threads pool) !! i = Some (r, caught p)) by by rewrite list_lookup_fmap, Hi.
  pose proof (Forall_lookup_1 _ _ _ _ Hf Hi') as Hfin. destruct (Forall2_lookup_l _ _ _ _ _ Hls Hi') as (l & _ & Hq). simpl in *.
  destruct p as [a| | |]; simpl in *; [left; by exists a, l|right; eauto|done..].
Qed.
End Caught.

#[global] Arguments safe : simpl never.
#[global] Arguments prog_bind : simpl never.
#[global] Arguments alone : simpl never.

(** Runs a choice of the surroundings that starts a program. *)
Ltac pool_choice := apply pool_bind, pool_choose; [apply _|].

(** ** Running a program *)

(** To the end, and for a number of steps. *)
Fixpoint finish {S A} (s : S) (p : Prog S A) : option (A * S) :=
  match p with
  | Ret a => Some (a, s)
  | Step section k => match section s with Some (b, s') => finish s' (k b) | None => None end
  | _ => None
  end.

Fixpoint advance {S A} (n : nat) (s : S) (p : Prog S A) : S * Prog S A :=
  match n, p with
  | Datatypes.S n, Step section k => match section s with Some (b, s') => advance n s' (k b) | None => (s, p) end
  | _, _ => (s, p)
  end.

Lemma finish_runs {S A} (s : S) (p : Prog S A) a s' : finish s p = Some (a, s') -> runs s p s' (Ret a).
Proof.
  revert s. induction p as [x| |B section k IH|B k IH]; intros s; simpl; try done; [intros [= <- <-]; apply RunsHere|].
  destruct (section s) as [[b s1]|] eqn:E; [|done]. intros Hf. eapply RunsOn; [by apply ThreadSection|]. by apply IH.
Qed.

Lemma advance_runs {S A} n (s : S) (p : Prog S A) : runs s p (fst (advance n s p)) (snd (advance n s p)).
Proof.
  revert s p. induction n as [|n IH]; intros s p; [destruct p; apply RunsHere|].
  destruct p as [x| |B section k|B k]; simpl; try apply RunsHere. destruct (section s) as [[b s1]|] eqn:E; [|apply RunsHere].
  eapply RunsOn; [by apply ThreadSection|]. apply IH.
Qed.
