(* ===== verification/ByteLru.v ===== *)
(** * The byte-bounded cache of the image service

    [ByteLruCache] of app/image-service/src/cache.rs, over the linked hash map of the [hashlink]
    crate: the operations it uses are a class, what the crate documents about them another. *)

From S2P Require Import Prelude.

(** ** The linked hash map *)

(** Keys with values in an order, oldest at the front. *)
Class LinkedHashMap (K V : Type) := {
  lhm : Type;
  lhm_new : lhm;
  lhm_to_back : K -> lhm -> option V * lhm;
  lhm_insert : K -> V -> lhm -> lhm;
  lhm_remove : K -> lhm -> option V * lhm;
  lhm_pop_front : lhm -> option (K * V) * lhm;
  lhm_len : lhm -> nat;
}.
Arguments lhm K V {_}.

Section Assoc.
Context {K V : Type} `{EqDecision K}.

Definition assoc (k : K) (l : list (K * V)) : option V :=
  option_map snd (List.find (fun e => bool_decide (fst e = k)) l).

Definition without (k : K) (l : list (K * V)) : list (K * V) :=
  List.filter (fun e => negb (bool_decide (fst e = k))) l.

Lemma without_in k l e : In e (without k l) <-> In e l /\ fst e <> k.
Proof. unfold without. rewrite filter_In, negb_true_iff, bool_decide_eq_false. done. Qed.

Lemma without_keys k l : NoDup (map fst l) -> NoDup (map fst (without k l)) /\ ~ In k (map fst (without k l)).
Proof.
  intros Hn. split.
  - induction l as [|e l IH]; [done|]. apply NoDup_cons in Hn as [Hx Hn]. unfold without. simpl.
    destruct (negb _); simpl; [|by apply IH]. apply NoDup_cons. split; [|by apply IH].
    intros Hin. apply Hx. apply list_elem_of_In, in_map_iff in Hin as (e' & <- & [He' _]%without_in).
    by apply list_elem_of_In, in_map.
  - intros (e & He & [_ Hk]%without_in)%in_map_iff. by apply Hk.
Qed.

Lemma without_absent k l : assoc k l = None -> without k l = l.
Proof.
  unfold assoc. induction l as [|e l IH]; [done|]. unfold without. simpl.
  case_bool_decide; [done|]. simpl. intros E. f_equal. by apply IH.
Qed.

Lemma assoc_split k l v : assoc k l = Some v ->
  exists l1 k' l2, l = l1 ++ (k', v) :: l2 /\ k' = k /\ ~ In k (map fst l1).
Proof.
  unfold assoc. induction l as [|[k' v'] l IH]; [done|]. simpl. case_bool_decide as E; simpl.
  - intros [= ->]. exists [], k', l. split; [done|]. split; [done|]. intros [].
  - intros (l1 & k'' & l2 & -> & -> & Hn)%IH. exists ((k', v') :: l1), k, l2. simpl. split; [done|]. split; [done|].
    intros [?|?]; done.
Qed.

Lemma without_app k l1 l2 : without k (l1 ++ l2) = without k l1 ++ without k l2.
Proof. apply List.filter_app. Qed.

Lemma without_none k l : ~ In k (map fst l) -> without k l = l.
Proof.
  induction l as [|e l IH]; [done|]. simpl. intros Hn. unfold without. simpl. rewrite bool_decide_eq_false_2 by naive_solver.
  simpl. f_equal. apply IH. naive_solver.
Qed.

Lemma assoc_last k l v : ~ In k (map fst l) -> assoc k (l ++ [(k, v)]) = Some v.
Proof.
  unfold assoc. induction l as [|e l IH]; simpl; intros Hn.
  - by rewrite bool_decide_eq_true_2.
  - rewrite bool_decide_eq_false_2 by naive_solver. apply IH. naive_solver.
Qed.
End Assoc.

(** What the crate documents, over the list of entries from front to back. *)
Class LinkedHashMapLaws (K V : Type) `{EqDecision K} `{LinkedHashMap K V} := {
  entries : lhm K V -> list (K * V);
  entries_new : entries lhm_new = [];
  entries_to_back : forall k m,
    fst (lhm_to_back k m) = assoc k (entries m) /\
    entries (snd (lhm_to_back k m)) = match assoc k (entries m) with
                                      | Some v => without k (entries m) ++ [(k, v)]
                                      | None => entries m
                                      end;
  entries_insert : forall k v m, entries (lhm_insert k v m) = without k (entries m) ++ [(k, v)];
  entries_remove : forall k m,
    fst (lhm_remove k m) = assoc k (entries m) /\ entries (snd (lhm_remove k m)) = without k (entries m);
  entries_pop_front : forall m,
    match entries m with
    | [] => lhm_pop_front m = (None, m)
    | e :: l => fst (lhm_pop_front m) = Some e /\ entries (snd (lhm_pop_front m)) = l
    end;
  entries_len : forall m, lhm_len m = length (entries m);
}.

(** ** The cache *)

Section Cache.
Context {T : Type} `{LinkedHashMap string (T * Z)}.

(** [ByteLruCache]. *)
Record ByteLruCache := mkByteLruCache {
  max_bytes : Z;
  current_bytes : Z;
  lru_entries : lhm string (T * Z);
}.

(** [ByteLruCache::new]. *)
Definition lru_new (max : Z) : ByteLruCache := mkByteLruCache max 0 lhm_new.

(** [ByteLruCache::get]. *)
Definition lru_get (key : string) (c : ByteLruCache) : option T * ByteLruCache :=
  let '(found, m) := lhm_to_back key (lru_entries c) in
  (option_map fst found, mkByteLruCache (max_bytes c) (current_bytes c) m).

(** The eviction loop of [ByteLruCache::insert]. *)
Fixpoint evict (fuel : nat) (c : ByteLruCache) : ByteLruCache :=
  match fuel with
  | O => c
  | S n =>
      if current_bytes c >? max_bytes c then
        match lhm_pop_front (lru_entries c) with
        | (None, _) => c
        | (Some (_, (_, removed_size)), m) =>
            evict n (mkByteLruCache (max_bytes c) (sat_sub (current_bytes c) removed_size) m)
        end
      else c
  end.

(** [ByteLruCache::insert]. *)
Definition lru_insert (key : string) (value : T) (byte_size : Z) (c : ByteLruCache) : ByteLruCache :=
  if (byte_size >? max_bytes c) || (max_bytes c =? 0) then c
  else
    let '(previous, m) := lhm_remove key (lru_entries c) in
    let current := match previous with
                   | Some (_, previous_size) => sat_sub (current_bytes c) previous_size
                   | None => current_bytes c
                   end in
    let m := lhm_insert key (value, byte_size) m in
    evict (S (lhm_len m)) (mkByteLruCache (max_bytes c) (sat_add u64_max current byte_size) m).

(** ** The specification *)

(** Its state: the entries in the order they were last used. *)
Definition Recency := list (string * (T * Z)).

Definition total (l : Recency) : Z := foldr (fun e n => snd (snd e) + n) 0 l.

Inductive LruCall :=
| LruGet (key : string)
| LruInsert (key : string) (value : T) (byte_size : Z).

(** A lookup answers the value and makes it the last used. An insertion makes its entry the last used
    and gives up the least recently used entries, as few as will do to stay within the bytes; a value
    that can never fit is not taken. *)
Inductive lru_spec (max : Z) : LruCall -> Recency -> option T -> Recency -> Prop :=
| SpecHit key v n l1 l2 : lru_spec max (LruGet key) (l1 ++ (key, (v, n)) :: l2) (Some v) (l1 ++ l2 ++ [(key, (v, n))])
| SpecMiss key l : ~ In key (map fst l) -> lru_spec max (LruGet key) l None l
| SpecRefused key v n l : n > max \/ max = 0 -> lru_spec max (LruInsert key v n) l None l
| SpecInsert key v n l gone kept :
    n <= max -> max <> 0 ->
    without key l ++ [(key, (v, n))] = gone ++ kept ->
    total kept <= max ->
    (forall gone' e, gone = gone' ++ [e] -> total (e :: kept) > max) ->
    lru_spec max (LruInsert key v n) l None kept.

Definition lru_call (call : LruCall) (c : ByteLruCache) : option T * ByteLruCache :=
  match call with
  | LruGet key => lru_get key c
  | LruInsert key v n => (None, lru_insert key v n c)
  end.

Fixpoint lru_calls (calls : list LruCall) (c : ByteLruCache) : list (option T) * ByteLruCache :=
  match calls with
  | [] => ([], c)
  | call :: rest =>
      let '(answer, c') := lru_call call c in
      let '(answers, c'') := lru_calls rest c' in
      (answer :: answers, c'')
  end.

Inductive lru_spec_calls (max : Z) : list LruCall -> Recency -> list (option T) -> Recency -> Prop :=
| SpecDone l : lru_spec_calls max [] l [] l
| SpecCall call rest l answer l' answers l'' :
    lru_spec max call l answer l' -> lru_spec_calls max rest l' answers l'' ->
    lru_spec_calls max (call :: rest) l (answer :: answers) l''.

(** Sizes are what they are of byte counts. *)
Definition call_ok (call : LruCall) : Prop :=
  match call with LruGet _ => True | LruInsert _ _ n => 0 <= n end.

(** ** Refinement *)

Context `{!LinkedHashMapLaws string (T * Z)}.

Definition recency (c : ByteLruCache) : Recency := entries (lru_entries c).

Record lru_ok (c : ByteLruCache) : Prop := {
  lru_keys : NoDup (map fst (recency c));
  lru_sizes : Forall (fun e => 0 <= snd (snd e)) (recency c);
  lru_current : current_bytes c = total (recency c);
  lru_within : total (recency c) <= max_bytes c;
  lru_bound : 2 * max_bytes c <= u64_max;
}.

Lemma total_app l1 l2 : total (l1 ++ l2) = total l1 + total l2.
Proof. induction l1 as [|e l1 IH]; simpl; lia. Qed.

Lemma total_nonneg l : Forall (fun e => 0 <= snd (snd e)) l -> 0 <= total l.
Proof. induction 1; simpl; lia. Qed.

Lemma total_without key l : NoDup (map fst l) ->
  total (without key l) = total l - match assoc key l with Some e => snd e | None => 0 end.
Proof.
  intros Hn. destruct (assoc key l) as [e|] eqn:E.
  - apply assoc_split in E as (l1 & k' & l2 & -> & -> & Hl1). rewrite map_app in Hn. simpl in Hn.
    apply NoDup_app in Hn as (_ & _ & Hn). apply NoDup_cons in Hn as [Hl2 _].
    rewrite without_app, (without_none _ l1 Hl1). unfold without at 1. simpl. rewrite bool_decide_eq_true_2 by done. simpl.
    fold (without key l2). rewrite without_none by (intros ?; by apply Hl2, list_elem_of_In).
    rewrite !total_app. simpl. lia.
  - rewrite without_absent by done. lia.
Qed.

Lemma evict_spec fuel : forall c, (length (recency c) < fuel)%nat ->
  Forall (fun e => 0 <= snd (snd e)) (recency c) -> current_bytes c = total (recency c) -> 0 <= max_bytes c ->
  exists gone kept, recency c = gone ++ kept /\ recency (evict fuel c) = kept /\
    current_bytes (evict fuel c) = total kept /\ max_bytes (evict fuel c) = max_bytes c /\ total kept <= max_bytes c /\
    (forall gone' e, gone = gone' ++ [e] -> total (e :: kept) > max_bytes c).
Proof.
  induction fuel as [|fuel IH]; intros c Hf Hs Hc Hm; [lia|]. simpl.
  destruct (current_bytes c >? max_bytes c) eqn:Eg.
  - apply Z.gtb_lt in Eg. unfold recency in *. pose proof (entries_pop_front (lru_entries c)) as Hp.
    destruct (entries (lru_entries c)) as [|[k [v n]] l] eqn:El; [simpl in Hc; lia|].
    destruct (lhm_pop_front (lru_entries c)) as [popped m]. destruct Hp as [Hp Hm']. simpl in Hp, Hm'. subst popped.
    apply Forall_cons in Hs as [Hn Hs]. simpl in Hn, Hc, Hf. pose proof (total_nonneg _ Hs).
    destruct (IH (mkByteLruCache (max_bytes c) (sat_sub (current_bytes c) n) m)) as (gone & kept & E & Hk & Hcur & Hmax & Ht & Hleast);
      simpl; rewrite ?Hm'; try done; [lia|unfold sat_sub; lia|].
    simpl in E. rewrite Hm' in E. exists ((k, (v, n)) :: gone), kept. rewrite E. repeat (split; [done|]).
    intros gone' e Hg. destruct gone' as [|g gone'].
    + injection Hg as <- ->. simpl in E. subst kept. simpl. lia.
    + injection Hg as <- Hg. by apply (Hleast gone' e).
  - exists [], (recency c). repeat (split; [done|]).
    assert (current_bytes c <= max_bytes c) by (apply Z.gtb_ltb in Eg || (rewrite Z.gtb_ltb in Eg; apply Z.ltb_ge in Eg; lia)).
    split; [lia|]. intros gone' e Hg. by destruct gone'.
Qed.

Lemma suffix_keys {V} (l1 l2 : list (string * V)) : NoDup (map fst (l1 ++ l2)) -> NoDup (map fst l2).
Proof. rewrite map_app. intros Hn. by apply NoDup_app in Hn as (_ & _ & ?). Qed.

Lemma get_refines key c : lru_ok c ->
  lru_spec (max_bytes c) (LruGet key) (recency c) (fst (lru_get key c)) (recency (snd (lru_get key c))) /\
  lru_ok (snd (lru_get key c)) /\ max_bytes (snd (lru_get key c)) = max_bytes c.
Proof.
  intros [Hk Hs Hc Hw Hb]. unfold lru_get, recency in *. destruct (entries_to_back key (lru_entries c)) as [Hf Hm].
  destruct (lhm_to_back key (lru_entries c)) as [found m]. simpl in Hf, Hm. subst found.
  destruct (assoc key (entries (lru_entries c))) as [[v n]|] eqn:E; simpl.
  - pose proof (total_without key _ Hk) as Ht. rewrite E in Ht. simpl in Ht.
    destruct (without_keys key _ Hk) as [Hk1 Hk2].
    assert (Hkeys : NoDup (map fst (entries m))).
    { rewrite Hm, map_app. apply NoDup_app. split; [done|]. split; [|simpl; apply NoDup_singleton].
      intros x Hx%list_elem_of_In ->%list_elem_of_singleton. done. }
    assert (Hsizes : Forall (fun e => 0 <= snd (snd e)) (entries m)).
    { rewrite Hm. apply assoc_split in E as (l1 & k' & l2 & El & -> & _). rewrite Forall_forall in *.
      intros e [He|He]%elem_of_app; apply Hs.
      - apply list_elem_of_In, without_in in He as [He _]. by apply list_elem_of_In.
      - apply list_elem_of_singleton in He as ->. rewrite El. set_solver. }
    assert (Htot : total (entries m) = total (entries (lru_entries c))) by (rewrite Hm, total_app; simpl; lia).
    split; [|split; [|done]].
    + rewrite Hm. pose proof E as E'. apply assoc_split in E as (l1 & k' & l2 & El & -> & Hl1). rewrite El in *.
      rewrite without_app, (without_none _ l1 Hl1). unfold without. simpl. rewrite bool_decide_eq_true_2 by done. simpl.
      fold (without key l2). rewrite map_app in Hk. simpl in Hk. apply NoDup_app in Hk as (_ & _ & Hk).
      apply NoDup_cons in Hk as [Hl2 _]. rewrite without_none by (intros ?; by apply Hl2, list_elem_of_In).
      rewrite <- app_assoc. constructor.
    + split; simpl; unfold recency; simpl; [done|done|lia|lia|done].
  - split; [|split; [|done]].
    + rewrite Hm. constructor. intros Hin. unfold assoc in E. destruct (List.find _ _) eqn:Ef; [done|].
      apply in_map_iff in Hin as (e & <- & He). pose proof (find_none _ _ Ef e He) as Hn. simpl in Hn.
      by apply bool_decide_eq_false in Hn.
    + split; simpl; unfold recency; simpl; rewrite ?Hm; done.
Qed.

Lemma insert_refines key v n c : lru_ok c -> 0 <= n ->
  lru_spec (max_bytes c) (LruInsert key v n) (recency c) None (recency (lru_insert key v n c)) /\
  lru_ok (lru_insert key v n c) /\ max_bytes (lru_insert key v n c) = max_bytes c.
Proof.
  intros [Hk Hs Hc Hw Hb] Hn. unfold lru_insert. pose proof (total_nonneg _ Hs).
  destruct ((n >? max_bytes c) || (max_bytes c =? 0)) eqn:Eg.
  { split; [|split; [by split|done]]. constructor. apply orb_true_iff in Eg as [?%Z.gtb_lt|?%Z.eqb_eq]; [left|right]; lia. }
  apply orb_false_iff in Eg as [Eg1 Eg2%Z.eqb_neq]. rewrite Z.gtb_ltb, Z.ltb_ge in Eg1.
  unfold recency in *. destruct (entries_remove key (lru_entries c)) as [Hf Hm].
  destruct (lhm_remove key (lru_entries c)) as [previous m]. simpl in Hf, Hm.
  pose proof (total_without key _ Hk) as Ht. rewrite <- Hm in Ht.
  destruct (without_keys key _ Hk) as [Hk1 Hk2]. rewrite <- Hm in Hk1, Hk2.
  set (current := match previous with Some (_, p) => sat_sub (current_bytes c) p | None => current_bytes c end).
  assert (Hwithout : Forall (fun e => 0 <= snd (snd e)) (entries m)).
  { rewrite Hm, Forall_forall in *. intros e He%list_elem_of_In. apply without_in in He as [He _].
    by apply Hs, list_elem_of_In. }
  pose proof (total_nonneg _ Hwithout) as Hnn.
  assert (Hcur : current = total (entries m)).
  { unfold current. subst previous. destruct (assoc key _) as [[v' p]|]; simpl in Ht; unfold sat_sub; lia. }
  assert (Hbound : total (entries m) <= max_bytes c).
  { destruct (assoc key (entries (lru_entries c))) as [[v' p]|] eqn:Ea; [|lia].
    apply assoc_split in Ea as (l1 & k' & l2 & El & -> & _). rewrite El in Hs.
    apply Forall_app in Hs as [_ Hs]. apply Forall_cons in Hs as [Hp _]. simpl in *. lia. }
  set (m' := lhm_insert key (v, n) m).
  assert (Hm' : entries m' = entries m ++ [(key, (v, n))]).
  { unfold m'. rewrite entries_insert, without_none by done. done. }
  assert (Hs' : Forall (fun e => 0 <= snd (snd e)) (entries m')) by (rewrite Hm'; apply Forall_app; auto).
  assert (Hk' : NoDup (map fst (entries m'))).
  { rewrite Hm', map_app. apply NoDup_app. split; [done|]. split; [|simpl; apply NoDup_singleton].
    intros x Hx%list_elem_of_In ->%list_elem_of_singleton. done. }
  set (c' := mkByteLruCache (max_bytes c) (sat_add u64_max current n) m').
  assert (Hsum : current_bytes c' = total (recency c')).
  { unfold recency, c'. simpl. rewrite Hm', total_app. unfold sat_add. simpl. lia. }
  destruct (evict_spec (S (lhm_len m')) c') as (gone & kept & E & Hkept & Hcb & Hmax & Hfit & Hleast);
    [rewrite entries_len; unfold recency; simpl; lia|done|done|simpl; lia|].
  unfold recency in *. cbn [lru_entries max_bytes c'] in E. split; [|split; [|done]].
  - rewrite Hkept. apply (SpecInsert _ _ _ _ _ gone); [lia|done| |done|done]. by rewrite <- Hm, <- Hm', E.
  - rewrite E in Hk', Hs'. split; unfold recency; rewrite ?Hkept, ?Hcb, ?Hmax; try done.
    + by apply (suffix_keys gone).
    + by apply Forall_app in Hs' as [_ ?].
Qed.

Lemma call_refines call c : lru_ok c -> call_ok call ->
  lru_spec (max_bytes c) call (recency c) (fst (lru_call call c)) (recency (snd (lru_call call c))) /\
  lru_ok (snd (lru_call call c)) /\ max_bytes (snd (lru_call call c)) = max_bytes c.
Proof. destruct call as [key|key v n]; simpl; intros Hc Hok; [by apply get_refines|by apply insert_refines]. Qed.

Lemma calls_refine calls : forall c, lru_ok c -> Forall call_ok calls ->
  lru_spec_calls (max_bytes c) calls (recency c) (fst (lru_calls calls c)) (recency (snd (lru_calls calls c))) /\
  lru_ok (snd (lru_calls calls c)) /\ max_bytes (snd (lru_calls calls c)) = max_bytes c.
Proof.
  induction calls as [|call calls IH]; intros c Hc Hok; simpl; [by split; [constructor|]|].
  apply Forall_cons in Hok as [Hcall Hok]. destruct (call_refines call c Hc Hcall) as (Hspec & Hc' & Hmax).
  destruct (lru_call call c) as [answer c']. simpl in *. destruct (IH c' Hc' Hok) as (Hrest & Hc'' & Hmax').
  destruct (lru_calls calls c') as [answers c'']. simpl in *. rewrite Hmax in *.
  split; [by econstructor|]. split; [done|congruence].
Qed.

Lemma lru_new_ok max : 0 <= max -> 2 * max <= u64_max -> lru_ok (lru_new max).
Proof.
  intros H0 H1. split; unfold recency; simpl; rewrite ?entries_new; simpl; try done. apply NoDup_nil_2.
Qed.

(** What holds of every entry ever inserted holds of what a lookup answers. *)
Lemma forall_without {V} (P : string * V -> Prop) key l : Forall P l -> Forall P (without key l).
Proof. rewrite !List.Forall_forall. intros Hl e [He _]%without_in. auto. Qed.

Lemma lru_get_forall (P : string * (T * Z) -> Prop) key c : Forall P (recency c) ->
  Forall P (recency (snd (lru_get key c))) /\ forall v, fst (lru_get key c) = Some v -> exists n, P (key, (v, n)).
Proof.
  intros Hp. unfold lru_get, recency in *. destruct (entries_to_back key (lru_entries c)) as [Hf Hm].
  destruct (lhm_to_back key (lru_entries c)) as [found m]. simpl in *. subst found. rewrite Hm.
  destruct (assoc key _) as [[v n]|] eqn:E; [|done].
  assert (Hin : P (key, (v, n))).
  { apply assoc_split in E as (l1 & k' & l2 & El & -> & _). rewrite El in Hp. apply Forall_app in Hp as [_ Hp].
    by apply Forall_inv in Hp. }
  split; [|intros v' [= <-]; eauto]. apply Forall_app. split; [by apply forall_without|auto].
Qed.

Lemma evict_forall (P : string * (T * Z) -> Prop) fuel : forall c, Forall P (recency c) -> Forall P (recency (evict fuel c)).
Proof.
  induction fuel as [|fuel IH]; intros c Hp; [done|]. simpl. destruct (_ >? _); [|done].
  unfold recency in Hp. pose proof (entries_pop_front (lru_entries c)) as Hpop.
  destruct (entries (lru_entries c)) as [|e l] eqn:E.
  - by rewrite Hpop; unfold recency; rewrite E.
  - destruct (lhm_pop_front (lru_entries c)) as [[[k [v n]]|] m]; [|by destruct Hpop]. apply IH.
    unfold recency. simpl in *. destruct Hpop as [_ ->]. by apply Forall_inv_tail in Hp.
Qed.

Lemma lru_insert_forall (P : string * (T * Z) -> Prop) key v n c : Forall P (recency c) -> P (key, (v, n)) ->
  Forall P (recency (lru_insert key v n c)).
Proof.
  intros Hp Hv. unfold lru_insert. destruct (_ || _); [done|].
  destruct (entries_remove key (lru_entries c)) as [_ Hm]. destruct (lhm_remove key (lru_entries c)) as [previous m].
  apply evict_forall. unfold recency. simpl in *. rewrite entries_insert, Hm. apply Forall_app.
  split; [by do 2 apply forall_without|auto].
Qed.

(** C24. The cache is a least-recently-used cache with a byte budget. Over every sequence of lookups and
    insertions the answers and the entries kept are those of the specification: a lookup answers the
    last value inserted under the key unless it was given up since, and only the least recently used
    entries are given up, as few as keep the total within the budget. The running byte count of the
    cache is always the total of its entries and within the budget, and no key has two entries. *)
Theorem byte_lru_refines_spec (max : Z) (calls : list LruCall) :
  0 <= max -> 2 * max <= u64_max -> Forall call_ok calls ->
  let '(answers, c) := lru_calls calls (lru_new max) in
  lru_spec_calls max calls [] answers (recency c) /\
  current_bytes c = total (recency c) /\ total (recency c) <= max /\ NoDup (map fst (recency c)).
Proof.
  intros H0 H1 Hok. destruct (calls_refine calls (lru_new max) (lru_new_ok max H0 H1) Hok) as (Hspec & [Hk _ Hc Hw _] & Hmax).
  destruct (lru_calls calls (lru_new max)) as [answers c]. unfold recency in Hspec at 1. simpl in *.
  rewrite entries_new in Hspec. rewrite Hmax in Hw. done.
Qed.

End Cache.

(** ** The list of entries as a linked hash map *)

Section AssocMap.
Context {K V : Type} `{EqDecision K}.

#[export] Instance assoc_map : LinkedHashMap K V := {|
  lhm := list (K * V);
  lhm_new := [];
  lhm_to_back k l := match assoc k l with Some v => (Some v, without k l ++ [(k, v)]) | None => (None, l) end;
  lhm_insert k v l := without k l ++ [(k, v)];
  lhm_remove k l := (assoc k l, without k l);
  lhm_pop_front l := match l with [] => (None, []) | e :: l' => (Some e, l') end;
  lhm_len := length;
|}.

#[export] Instance assoc_map_laws : LinkedHashMapLaws K V.
Proof.
  refine {| entries := fun l => l |}; try done.
  - intros k m. simpl. by destruct (assoc k m).
  - intros m. by destruct m.
Defined.
End AssocMap.

(** The unit test of cache.rs: with six bytes, the entry used before the third insertion survives. *)
Lemma byte_lru_refines_spec_witness :
  let calls := [LruInsert "a" 1 3; LruInsert "b" 2 3; LruGet "a"; LruInsert "c" 3 3; LruGet "a"; LruGet "b"; LruGet "c"] in
  let '(answers, c) := lru_calls calls (lru_new 6) in
  answers = [None; None; Some 1; None; Some 1; None; Some 3] /\
  lru_spec_calls 6 calls [] answers (recency c) /\
  current_bytes c = total (recency c) /\ total (recency c) <= 6 /\ NoDup (map fst (recency c)).
Proof.
  intros calls. pose proof (byte_lru_refines_spec 6 calls ltac:(lia) ltac:(vm_compute; discriminate)
    ltac:(repeat constructor; simpl; lia)) as Hr.
  destruct (lru_calls calls (lru_new 6)) as [answers c] eqn:E. split; [|exact Hr].
  change answers with (fst (answers, c)). rewrite <- E. vm_compute. reflexivity.
Defined.
