(* ===== verification/Float64.v ===== *)
(** * Double-precision numbers

    Rust's [f64] through the bit-exact IEEE 754 arithmetic of the Standard Library's [SpecFloat]:
    conversions from integers, the operations the code uses and the saturating casts back. *)

From S2P Require Import Prelude.
From Stdlib Require Import SpecFloat.

Definition f64 : Type := spec_float.

(** [z as f64]. *)
Definition f64_of_Z (z : Z) : f64 := binary_normalize 53 1024 z 0 false.
Definition f64_add : f64 -> f64 -> f64 := SFadd 53 1024.
Definition f64_sub : f64 -> f64 -> f64 := SFsub 53 1024.
Definition f64_mul : f64 -> f64 -> f64 := SFmul 53 1024.
Definition f64_div : f64 -> f64 -> f64 := SFdiv 53 1024.

Definition f64_is_nan (x : f64) : bool := match x with S754_nan => true | _ => false end.
Definition f64_is_finite (x : f64) : bool := match x with S754_nan | S754_infinity _ => false | _ => true end.
Definition f64_lt (x y : f64) : bool := match SFcompare x y with Some Lt => true | _ => false end.
Definition f64_le (x y : f64) : bool := match SFcompare x y with Some Lt | Some Eq => true | _ => false end.
Definition f64_eq (x y : f64) : bool := match SFcompare x y with Some Eq => true | _ => false end.

(** [f64::min] and [f64::max]: a NaN gives way to the other operand. *)
Definition f64_min (x y : f64) : f64 :=
  if f64_is_nan x then y else if f64_is_nan y then x else if f64_lt y x then y else x.
Definition f64_max (x y : f64) : f64 :=
  if f64_is_nan x then y else if f64_is_nan y then x else if f64_lt x y then y else x.

(** [x.floor() as u32]: saturating, a NaN is zero. *)
Definition f64_floor_u32 (x : f64) : Z :=
  match x with
  | S754_finite false m e => Z.min u32_max (Z.shiftl (Z.pos m) e)
  | S754_infinity false => u32_max
  | _ => 0
  end.

(** ** Numbers as text *)

(** The digits a text starts with: how many, their value after [acc], and the text behind them. *)
Fixpoint take_digits (count acc : Z) (s : string) : Z * Z * string :=
  match s with
  | String a r => if is_ascii_digit a then take_digits (count + 1) (acc * 10 + (byte_of a - 48)) r else (count, acc, s)
  | EmptyString => (count, acc, s)
  end.

(** A leading sign: whether it is a minus, and the text behind it. *)
Definition take_sign (s : string) : bool * string :=
  match s with
  | String a r => if byte_is a 45 then (true, r) else if byte_is a 43 then (false, r) else (false, s)
  | EmptyString => (false, s)
  end.

(** The number nearest to [m * 10^e], ties to even. Past the two bounds it is zero or infinite. *)
Definition f64_of_decimal (negative : bool) (m e : Z) : f64 :=
  match m with
  | Z.pos p =>
      let magnitude := str_len (dec m) + e in
      if 310 <? magnitude then S754_infinity negative
      else if magnitude <? -330 then S754_zero negative
      else if 0 <=? e then binary_normalize 53 1024 ((if negative then -1 else 1) * (m * 10 ^ e)) 0 negative
      else let '(q, ez, rest) := SFdiv_core_binary 53 1024 m 0 (10 ^ (- e)) 0 in
           binary_round_aux 53 1024 negative q ez rest
  | _ => S754_zero negative
  end.

(** The exponent behind a mantissa, if there is one; [None] where the text goes on otherwise. *)
Definition take_exponent (s : string) : option Z :=
  match s with
  | EmptyString => Some 0
  | String a r =>
      if byte_is a 101 || byte_is a 69 then
        let '(negative, r) := take_sign r in
        let '(count, value, rest) := take_digits 0 0 r in
        if (0 <? count) && is_empty rest then Some (if negative then - value else value) else None
      else None
  end.

(** [str::parse::<f64>]. *)
Definition parse_f64 (s : string) : option f64 :=
  let '(negative, body) := take_sign s in
  let word := to_ascii_lowercase body in
  if one_of word ["inf"; "infinity"] then Some (S754_infinity negative)
  else if word == "nan" then Some S754_nan
  else
    let '(whole, m, rest) := take_digits 0 0 body in
    let '(fraction, m, rest) :=
      match rest with
      | String a r => if byte_is a 46 then take_digits 0 m r else (0, m, rest)
      | EmptyString => (0, m, rest)
      end in
    if whole + fraction <? 1 then None
    else match take_exponent rest with
         | Some e => Some (f64_of_decimal negative m (e - fraction))
         | None => None
         end.

Example parse_f64_tenth : parse_f64 "0.1" = Some (S754_finite false 7205759403792794 (-56)).
Proof. by vm_compute. Qed.

Example parse_f64_edges :
  map parse_f64 [""; "."; "1e"; "1 "; "-"; "+."] = [None; None; None; None; None; None] /\
  parse_f64 "1e400" = Some (S754_infinity false) /\ parse_f64 "-1e-400" = Some (S754_zero true) /\
  parse_f64 "5e-324" = Some (S754_finite false 1 (-1074)) /\ parse_f64 ".5E+1" = parse_f64 "5." /\
  parse_f64 "1.7976931348623157e308" = Some (S754_finite false 9007199254740991 971).
Proof. by vm_compute. Qed.
