(* ===== verification/ImageHttp.v ===== *)
(** * HTTP of the image service

    app/image-service/src/http.rs: reading a request from a connection, its query, and the
    responses. A panic of the decoder is [None]. *)

From S2P Require Import Prelude Json Http.
From Stdlib Require Import Ascii.

(** ** Requests *)

(** [Request]. *)
Record Request := mkRequest {
  rq_method : string;
  rq_path : string;
  rq_query : gmap string string;
  rq_if_none_match : string;
  rq_connection_close : bool;
}.

(** [percent_decode]; the function of main.rs word for word. *)
Definition percent_decode (value : string) : option string := decode_query_value value.

(** [parse_query]: pairs in order, a later one replaces an earlier one. *)
Fixpoint parse_pairs (parts : list string) (query : gmap string string) : option (gmap string string) :=
  match parts with
  | [] => Some query
  | part :: rest =>
      if is_empty part then parse_pairs rest query
      else
        let '(key, value) := unwrap_or (split_once "=" part) (part, "") in
        match percent_decode key, percent_decode value with
        | Some key, Some value => parse_pairs rest (<[key := value]> query)
        | _, _ => None
        end
  end.
Definition parse_query (query : string) : option (gmap string string) :=
  parse_pairs (split_byte (ascii_of_nat 38) query) ∅.

(** [request_is_complete]. *)
Definition request_is_complete (received : string) : bool :=
  match split_once blank_line received with
  | None => false
  | Some (header, _) =>
      let content_length :=
        unwrap_or (find_map (fun line =>
          match split_once ":" line with
          | Some (name, value) =>
              if eq_ignore_ascii_case name "content-length" then Some (unwrap_or (parse_u64 (trim value)) 0) else None
          | None => None
          end) (lines (from_utf8_lossy header))) 0 in
      str_len received >=? wrap_u64 (str_len header + 4 + content_length)
  end.

(** The headers [parse_request] looks at; a later one wins. *)
Fixpoint parse_headers (headers : list string) (if_none_match : string) (connection_close : bool) : string * bool :=
  match headers with
  | [] => (if_none_match, connection_close)
  | line :: rest =>
      match split_once ":" line with
      | None => parse_headers rest if_none_match connection_close
      | Some (name, value) =>
          if eq_ignore_ascii_case name "if-none-match" then parse_headers rest (trim value) connection_close
          else if eq_ignore_ascii_case name "connection"
          then parse_headers rest if_none_match (eq_ignore_ascii_case (trim value) "close")
          else parse_headers rest if_none_match connection_close
      end
  end.

(** [parse_request]. *)
Definition parse_request (received : string) : option (Result Request string) :=
  let request := from_utf8_lossy received in
  let '(first, rest) := match lines request with first :: rest => (first, rest) | [] => ("", []) end in
  match split_whitespace first with
  | method :: target :: more =>
      let http_version := match more with v :: _ => v | [] => "" end in
      let '(path, raw_query) := unwrap_or (split_once "?" target) (target, "") in
      let '(if_none_match, connection_close) := parse_headers rest "" (http_version != "HTTP/1.1") in
      match parse_query raw_query with
      | Some query => Some (Ok (mkRequest method path query if_none_match connection_close))
      | None => None
      end
  | _ => Some (Err "invalid_request")
  end.

(** What one read of the connection gives: bytes, the end, a time-out or a lost connection, or
    another failure. *)
Inductive SocketRead :=
| SocketBytes (chunk : string)
| SocketClosed
| SocketGone
| SocketFailed.

(** [read_request], with what is left of the connection. A chunk is at most the buffer long, so it is
    not empty. *)
Fixpoint read_request_go (received : string) (socket : list SocketRead)
    : option (Result (option Request) string) * list SocketRead :=
  let parse := match parse_request received with
               | Some (Ok r) => Some (Ok (Some r))
               | Some (Err e) => Some (Err e)
               | None => None
               end in
  match socket with
  | [] | SocketClosed :: _ => (if is_empty received then Some (Ok None) else parse, [])
  | SocketGone :: rest => (if is_empty received then Some (Ok None) else Some (Err "request_read_failed"), rest)
  | SocketFailed :: rest => (Some (Err "request_read_failed"), rest)
  | SocketBytes chunk :: rest =>
      let received := received +:+ chunk in
      if request_is_complete received then
        (match parse_request received with
         | Some (Ok r) => Some (Ok (Some r))
         | Some (Err e) => Some (Err e)
         | None => None
         end, rest)
      else if str_len received >? 1024 * 1024 then (Some (Err "request_too_large"), rest)
      else read_request_go received rest
  end.

(** ** Responses *)

(** [Response]; the connection headers are added when it is written. *)
Record Response := mkResponse {
  rs_head : string;
  rs_body : string;
}.

(** [Response::write_to]: the bytes sent. *)
Definition write_to (r : Response) (connection_close : bool) : string :=
  rs_head r +:+
  (if connection_close then "Connection: close" +:+ blank_line
   else "Connection: keep-alive" +:+ crlf +:+ "Keep-Alive: timeout=2, max=256" +:+ blank_line) +:+
  rs_body r.

(** [reason]. *)
Definition reason (code : Z) : string :=
  if code =? 200 then "OK"
  else if code =? 400 then "Bad Request"
  else if code =? 404 then "Not Found"
  else if code =? 413 then "Payload Too Large"
  else if code =? 422 then "Unprocessable Entity"
  else if code =? 503 then "Service Unavailable"
  else "Error".

Section Json.
Context `{JsonCodec}.

(** http.rs [json_response]. *)
Definition image_json_response (code : Z) (value : Value) : Response :=
  let body := json_print value in
  mkResponse ("HTTP/1.1 " +:+ dec code +:+ " " +:+ reason code +:+ crlf +:+
              "Content-Type: application/json; charset=utf-8" +:+ crlf +:+
              "Content-Length: " +:+ dec (str_len body) +:+ crlf) body.

(** [ok_json] and [error_json]. *)
Definition ok_json (value : Value) : Response := image_json_response 200 value.
Definition error_json (code : Z) (error : string) : Response :=
  image_json_response code (jobj [("error", JString error)]).
End Json.

(** [safe_header_value]: no header can be split by its value. *)
Fixpoint safe_header_value (value : string) : string :=
  match value with
  | EmptyString => EmptyString
  | String a r => if byte_is a 13 || byte_is a 10 then safe_header_value r else String a (safe_header_value r)
  end.

(** [binary_response]. *)
Definition binary_response (body tag if_none_match cache_control : string) (headers : list (string * string)) : Response :=
  let extra_headers := String.concat "" (map (fun '(name, value) => name +:+ ": " +:+ safe_header_value value +:+ crlf) headers) in
  if if_none_match == tag then
    mkResponse ("HTTP/1.1 304 Not Modified" +:+ crlf +:+ "ETag: " +:+ tag +:+ crlf +:+
                "Cache-Control: " +:+ cache_control +:+ crlf +:+ extra_headers) ""
  else
    mkResponse ("HTTP/1.1 200 OK" +:+ crlf +:+ "Content-Type: image/jpeg" +:+ crlf +:+
                "Content-Length: " +:+ dec (str_len body) +:+ crlf +:+ "ETag: " +:+ tag +:+ crlf +:+
                "Cache-Control: " +:+ cache_control +:+ crlf +:+ extra_headers) body.
