(* ===== verification/ImageService.v ===== *)
(** * The image service

    app/image-service/src: the catalogue of artifacts (catalog.rs), the cache of renditions in memory
    and on disk (cache.rs), the cache of decoded images (image_codec.rs), previews (rendition.rs),
    tiles (tile.rs) and the server (server.rs). Worker threads run requests at the same time: a
    request is a program of atomic steps on the shared state. SQLite, the file system and the clock
    are choices of the surroundings; SHA-256 and the [image] crate are parameters. *)

From S2P Require Import Prelude Json Http Float64 Concurrent ByteLru ImageHttp.
From Stdlib Require Import Ascii.

(** ** Third parties *)

(** What the service uses of the [image] crate. *)
Class ImageCodec := {
  Image : Type;
  image_width : Image -> Z;
  image_height : Image -> Z;
  channel_count : Image -> Z;
  image_bytes : Image -> Z;                        (* as_bytes().len() *)
  decode_file : string -> option Image;            (* open, guess the format, decode *)
  resize_exact : Image -> Z -> Z -> Image;         (* FilterType::Triangle *)
  thumbnail_exact : Image -> Z -> Z -> Image;
  resize_fit : Image -> Z -> Z -> Image;           (* resize, FilterType::Triangle *)
  crop_imm : Image -> Z -> Z -> Z -> Z -> Image;
  jpeg : Image -> option string;                   (* write_to, ImageFormat::Jpeg *)
}.

(** ** Catalogue *)

(** [ArtifactQuery] and [ArtifactKey]. *)
Record ArtifactKey := mkArtifactKey {
  ak_record_id : string;
  ak_camera_id : string;
  ak_sequence : Z;
  ak_kind : string;
}.

#[export] Instance artifact_key_eq : EqDecision ArtifactKey.
Proof. solve_decision. Defined.

(** [ArtifactSource]. *)
Record ArtifactSource := mkArtifactSource {
  blob_path : string;
  identity : string;
}.

(** [ResolveError]. *)
Inductive ResolveError := CatalogUnavailable | NotFound | InvalidReference.

(** [validated_blob_identity]. *)
Definition validated_blob_identity (path : string) : option string :=
  match strip_prefix "blobs/" (replace_byte (ascii_of_nat 92) (ascii_of_nat 47) path) with
  | None => None
  | Some identity =>
      if negb (str_len identity =? 64) || contains "/" identity || negb (all_bytes is_ascii_hexdigit identity)
      then None else Some (to_ascii_lowercase identity)
  end.

(** ** Profiles *)

Inductive Profile := Xs | Sm | Md | Lg | Xl.

Definition profile_parse (value : string) : option Profile :=
  let word := to_ascii_lowercase value in
  if word == "xs" then Some Xs else if word == "sm" then Some Sm else if word == "md" then Some Md
  else if word == "lg" then Some Lg else if word == "xl" then Some Xl else None.

Definition bounds (p : Profile) : Z * Z :=
  match p with Xs => (512, 128) | Sm => (768, 192) | Md => (1024, 256) | Lg => (1536, 384) | Xl => (2048, 512) end.

Definition profile_name (p : Profile) : string :=
  match p with Xs => "xs" | Sm => "sm" | Md => "md" | Lg => "lg" | Xl => "xl" end.

(** [Profile::select]: the first that is large enough. *)
Definition select (slot_width slot_height : Z) : Profile :=
  unwrap_or (List.find (fun p => (slot_width <=? fst (bounds p)) && (slot_height <=? snd (bounds p)))
               [Xs; Sm; Md; Lg; Xl]) Xl.

(** [requested_profile]. *)
Definition requested_profile (params : gmap string string) : Result Profile string :=
  match params !! "profile" with
  | Some value => match profile_parse value with Some p => Ok p | None => Err "profile_invalid" end
  | None =>
      let side (name : string) (default : Z) : Z :=
        unwrap_or (match params !! name with Some value => parse_u32 value | None => None end) default in
      Ok (select (Z.max (side "slotWidth" 1024) 1) (Z.max (side "slotHeight" 256) 1))
  end.

Definition RENDITION_SCHEMA : string := "steel.thumbnail.v1".
Definition ENCODER_REVISION : string := "image-jpeg-v2-adaptive-staged-triangle".

(** What [rendition_key] and [tile::serve] hash. *)
Definition rendition_material (source_identity revision : string) (key : ArtifactKey) (color_mode : string)
    (profile : Profile) : string :=
  RENDITION_SCHEMA +:+ "|" +:+ ENCODER_REVISION +:+ "|" +:+ source_identity +:+ "|" +:+ revision +:+ "|" +:+
  ak_record_id key +:+ "|" +:+ ak_camera_id key +:+ "|" +:+ dec (ak_sequence key) +:+ "|" +:+ ak_kind key +:+ "|" +:+
  color_mode +:+ "|" +:+ profile_name profile.

Definition tile_material (source_identity : string) (level x y : Z) : string :=
  "steel.legacy-tile.v1|" +:+ source_identity +:+ "|" +:+ dec level +:+ "|" +:+ dec x +:+ "|" +:+ dec y.

(** ** Sizes *)

(** [target_dimensions]. *)
Definition target_dimensions (source limits : Z * Z) : Z * Z :=
  let '(source_width, source_height) := source in
  let '(max_width, max_height) := limits in
  if (source_width =? 0) || (source_height =? 0) || (max_width =? 0) || (max_height =? 0) then (1, 1)
  else
    let scale := f64_min (f64_min (f64_div (f64_of_Z max_width) (f64_of_Z source_width))
                                  (f64_div (f64_of_Z max_height) (f64_of_Z source_height))) (f64_of_Z 1) in
    (Z.max (f64_floor_u32 (f64_mul (f64_of_Z source_width) scale)) 1,
     Z.max (f64_floor_u32 (f64_mul (f64_of_Z source_height) scale)) 1).

Section Codec.
Context `{ImageCodec}.

(** [resize_preview]. *)
Definition resize_preview (image : Image) (rendition_size : Z * Z) : Image * string :=
  let '(w, h) := rendition_size in
  let reduction := f64_max (f64_div (f64_of_Z (image_width image)) (f64_of_Z w))
                           (f64_div (f64_of_Z (image_height image)) (f64_of_Z h)) in
  let staged_threshold := f64_of_Z (if channel_count image =? 1 then 5 else 3) in
  if f64_le staged_threshold reduction then
    let intermediate := thumbnail_exact image (Z.min (sat_mul u32_max w 2) (image_width image))
                          (Z.min (sat_mul u32_max h 2) (image_height image)) in
    (resize_exact intermediate w h, "staged-triangle")
  else (resize_exact image w h, "triangle").

Definition image_size (image : Image) : Z * Z := (image_width image, image_height image).

(** The picture [render_contained_jpeg] encodes, with the size and how it was made. *)
Definition contained (image : Image) (limits : Z * Z) : Image * (Z * Z) * string :=
  let rendition_size := target_dimensions (image_size image) limits in
  if bool_decide (rendition_size = image_size image) then (image, rendition_size, "identity")
  else let '(resized, mode) := resize_preview image rendition_size in (resized, rendition_size, mode).

(** The outcome of [render_tile_jpeg] once the image is decoded: nothing outside the image. *)
Definition tile_of (image : Image) (level x y tile_size : Z) : option Image :=
  let resized :=
    if level =? 0 then image
    else
      let divisor := Z.shiftl 1 level in
      resize_fit image (Z.max (image_width image / divisor) 1) (Z.max (image_height image / divisor) 1) in
  let left := sat_mul u32_max x tile_size in
  let top := sat_mul u32_max y tile_size in
  if (left >=? image_width resized) || (top >=? image_height resized) then None
  else Some (crop_imm resized left top (Z.min tile_size (image_width resized - left))
               (Z.min tile_size (image_height resized - top))).
End Codec.

(** ** Shared state *)

(** A build lock: who holds a reference to it, and whether it is locked. *)
Record Gate := mkGate {
  strong : Z;
  locked : bool;
}.

(** [flights]: the table of weak references, and the locks it refers to. *)
Record Flights := mkFlights {
  fl_table : gmap string nat;
  fl_gates : gmap nat Gate;
  fl_next : nat;
}.

Definition no_flights : Flights := mkFlights ∅ ∅ 0.

Definition gate_of (f : Flights) (g : nat) : Gate := unwrap_or (fl_gates f !! g) (mkGate 0 false).

(** [build_lock]: dead references go, a live lock of the key is shared, or a new one is made. A
    reference that dies while the table is scanned reads as already dead. *)
Definition build_lock_section (key : string) (f : Flights) : nat * Flights :=
  let table := filter (fun entry => 0 < strong (gate_of f (snd entry))) (fl_table f) in
  match table !! key with
  | Some g =>
      (g, mkFlights table (<[g := mkGate (strong (gate_of f g) + 1) (locked (gate_of f g))]> (fl_gates f)) (fl_next f))
  | None =>
      (fl_next f, mkFlights (<[key := fl_next f]> table) (<[fl_next f := mkGate 1 false]> (fl_gates f)) (S (fl_next f)))
  end.

Definition gate_lock_section (g : nat) (f : Flights) : option (unit * Flights) :=
  if locked (gate_of f g) then None
  else Some (tt, mkFlights (fl_table f) (<[g := mkGate (strong (gate_of f g)) true]> (fl_gates f)) (fl_next f)).
Definition gate_unlock_section (g : nat) (f : Flights) : Flights :=
  mkFlights (fl_table f) (<[g := mkGate (strong (gate_of f g)) false]> (fl_gates f)) (fl_next f).
Definition gate_drop_section (g : nat) (f : Flights) : Flights :=
  mkFlights (fl_table f) (<[g := mkGate (strong (gate_of f g) - 1) (locked (gate_of f g))]> (fl_gates f)) (fl_next f).

(** What the service asks of others: the catalogue's answers, and the decoding of images for the
    decoded cache. *)
Inductive ImageEvent :=
| CatalogAnswered (key : ArtifactKey) (identity : string)
| DecodeBegun (identity : string)
| DecodeEnded (identity : string).

(** The counters of the status document. *)
Record Counters := mkCounters {
  catalog_hits : Z;
  database_queries : Z;
  memory_hits : Z;
  disk_hits : Z;
  cache_misses : Z;
  decoded_hits : Z;
  decoded_misses : Z;
}.

Inductive Counter := CatalogHits | DatabaseQueries | MemoryHits | DiskHits | CacheMisses | DecodedHits | DecodedMisses.

(** [fetch_add(1, Ordering::Relaxed)]. *)
Definition bump (c : Counter) (n : Counters) : Counters :=
  let up (c' : Counter) (v : Z) : Z :=
    match c, c' with
    | CatalogHits, CatalogHits | DatabaseQueries, DatabaseQueries | MemoryHits, MemoryHits | DiskHits, DiskHits
    | CacheMisses, CacheMisses | DecodedHits, DecodedHits | DecodedMisses, DecodedMisses => wrap_u64 (v + 1)
    | _, _ => v
    end in
  mkCounters (up CatalogHits (catalog_hits n)) (up DatabaseQueries (database_queries n)) (up MemoryHits (memory_hits n))
    (up DiskHits (disk_hits n)) (up CacheMisses (cache_misses n)) (up DecodedHits (decoded_hits n))
    (up DecodedMisses (decoded_misses n)).

Section Service.
Context `{JsonCodec} `{ImageCodec}.
Context `{!LinkedHashMap ArtifactKey ArtifactSource} `{!LinkedHashMap string (string * Z)}
        `{!LinkedHashMap string (Image * Z)}.

(** SHA-256 in hexadecimal, of the [sha2] crate. *)
Variable digest : string -> string.

(** [SourceCache]. *)
Record SourceCache := mkSourceCache {
  max_entries : Z;
  source_entries : lhm ArtifactKey ArtifactSource;
}.

(** [AppState], with the files below the rendition directory; a mutex cell is [None] when a holder
    panicked. *)
Record AppState := mkAppState {
  result_root : string;
  sources : option SourceCache;
  memory : option (@ByteLruCache string _);
  disk : gmap string string;
  rendition_flights : Flights;
  decoded : option (@ByteLruCache Image _);
  decode_flights : Flights;
  counters : Counters;
  events : list ImageEvent;
}.

Definition with_sources v (s : AppState) := mkAppState (result_root s) v (memory s) (disk s) (rendition_flights s)
  (decoded s) (decode_flights s) (counters s) (events s).
Definition with_memory v (s : AppState) := mkAppState (result_root s) (sources s) v (disk s) (rendition_flights s)
  (decoded s) (decode_flights s) (counters s) (events s).
Definition with_disk v (s : AppState) := mkAppState (result_root s) (sources s) (memory s) v (rendition_flights s)
  (decoded s) (decode_flights s) (counters s) (events s).
Definition with_decoded v (s : AppState) := mkAppState (result_root s) (sources s) (memory s) (disk s) (rendition_flights s)
  v (decode_flights s) (counters s) (events s).
Definition with_counter c (s : AppState) := mkAppState (result_root s) (sources s) (memory s) (disk s) (rendition_flights s)
  (decoded s) (decode_flights s) (bump c (counters s)) (events s).
Definition with_event e (s : AppState) := mkAppState (result_root s) (sources s) (memory s) (disk s) (rendition_flights s)
  (decoded s) (decode_flights s) (counters s) (events s ++ [e]).

(** The two tables of build locks. *)
Inductive FlightTable := Renditions | Decodes.
Definition flights (t : FlightTable) (s : AppState) : Flights :=
  match t with Renditions => rendition_flights s | Decodes => decode_flights s end.
Definition with_flights (t : FlightTable) (f : Flights) (s : AppState) : AppState :=
  match t with
  | Renditions => mkAppState (result_root s) (sources s) (memory s) (disk s) f (decoded s) (decode_flights s) (counters s) (events s)
  | Decodes => mkAppState (result_root s) (sources s) (memory s) (disk s) (rendition_flights s) (decoded s) f (counters s) (events s)
  end.

Abbreviation Action := (Prog AppState).

Definition build_lock (t : FlightTable) (key : string) : Action nat :=
  atomically (fun s => let '(g, f) := build_lock_section key (flights t s) in (g, with_flights t f s)).
Definition gate_lock (t : FlightTable) (g : nat) : Action unit :=
  when_enabled (fun s => option_map (fun '(_, f) => (tt, with_flights t f s)) (gate_lock_section g (flights t s))).
Definition gate_unlock (t : FlightTable) (g : nat) : Action unit :=
  updating (fun s => with_flights t (gate_unlock_section g (flights t s)) s).
Definition gate_drop (t : FlightTable) (g : nat) : Action unit :=
  updating (fun s => with_flights t (gate_drop_section g (flights t s)) s).

(** Everything a function does after [let gate = build_lock(key); let _guard = gate.lock()]: the guard
    and then the reference are dropped where it returns. *)
Definition with_gate {A} (t : FlightTable) (key : string) (body : Action A) : Action A :=
  let~ g := build_lock t key in
  let~ _ := gate_lock t g in
  let~ result := body in
  let~ _ := gate_unlock t g in
  let~ _ := gate_drop t g in
  Ret result.

(** *** catalog.rs *)

(** What SQLite answers to the lookup of a path. *)
Inductive CatalogAnswer := CatalogPath (path : string) | NoRows | CatalogFailed.

#[export] Instance catalog_answer_inhabited : Inhabited CatalogAnswer := populate NoRows.

Definition cached_source (key : ArtifactKey) (s : AppState) : option ArtifactSource * AppState :=
  match sources s with
  | None => (None, s)
  | Some c =>
      match lhm_to_back key (source_entries c) with
      | (Some source, m) => (Some source, with_counter CatalogHits (with_sources (Some (mkSourceCache (max_entries c) m)) s))
      | (None, m) => (None, with_sources (Some (mkSourceCache (max_entries c) m)) s)
      end
  end.

(** [while cache.entries.len() >= cache.max_entries]. *)
Fixpoint make_room (fuel : nat) (max : Z) (m : lhm ArtifactKey ArtifactSource) : lhm ArtifactKey ArtifactSource :=
  match fuel with
  | O => m
  | S n => if Z.of_nat (lhm_len m) >=? max then make_room n max (snd (lhm_pop_front m)) else m
  end.

Definition remember_source (key : ArtifactKey) (source : ArtifactSource) (s : AppState) : AppState :=
  match sources s with
  | None => s
  | Some c =>
      if max_entries c >? 0
      then with_sources (Some (mkSourceCache (max_entries c)
             (lhm_insert key source (make_room (lhm_len (source_entries c)) (max_entries c) (source_entries c))))) s
      else s
  end.

(** [ArtifactCatalog::resolve]. *)
Definition resolve (key : ArtifactKey) : Action (Result ArtifactSource ResolveError) :=
  let~ ready := choose bool in
  if negb ready then Ret (Err CatalogUnavailable)
  else
    let~ cached := atomically (cached_source key) in
    match cached with
    | Some source => Ret (Ok source)
    | None =>
        let~ _ := updating (with_counter DatabaseQueries) in
        let~ answer := choose CatalogAnswer in
        match answer with
        | CatalogFailed => Ret (Err CatalogUnavailable)
        | NoRows => Ret (Err NotFound)
        | CatalogPath path =>
            match validated_blob_identity path with
            | None => Ret (Err InvalidReference)
            | Some id =>
                let~ _ := updating (with_event (CatalogAnswered key id)) in
                let~ is_file := choose bool in
                if negb is_file then Ret (Err NotFound)
                else
                  let~ root := reading result_root in
                  let source := mkArtifactSource (root +:+ "/blobs/" +:+ id) id in
                  let~ _ := updating (remember_source key source) in
                  Ret (Ok source)
            end
        end
    end.

(** *** cache.rs *)

(** [key.get(..2).unwrap_or(..)]. *)
Definition disk_prefix (key : string) : string :=
  match key with
  | String a (String b rest) =>
      if match rest with String c _ => cont c | EmptyString => false end then "00"
      else String a (String b EmptyString)
  | _ => "00"
  end.

(** [disk_path], below the rendition directory. *)
Definition disk_path (key : string) : string := disk_prefix key +:+ "/" +:+ key +:+ ".jpg".

Definition memory_lookup (key : string) (s : AppState) : option string * AppState :=
  match memory s with
  | None => (None, s)
  | Some c =>
      let '(found, c) := lru_get key c in
      (found, (if is_some found then with_counter MemoryHits else id) (with_memory (Some c) s))
  end.

(** [insert_memory]. *)
Definition insert_memory (key value : string) : Action unit :=
  updating (fun s => with_memory (option_map (lru_insert key value (str_len value)) (memory s)) s).

(** [RenditionCache::get]; a read of the disk may fail. *)
Definition cache_get (key : string) : Action (option string) :=
  let~ found := atomically (memory_lookup key) in
  match found with
  | Some value => Ret (Some value)
  | None =>
      let~ readable := choose bool in
      let~ file := reading (fun s => disk s !! disk_path key) in
      match filter_opt (fun value => readable && negb (is_empty value)) file with
      | None => let~ _ := updating (with_counter CacheMisses) in Ret None
      | Some value =>
          let~ _ := updating (with_counter DiskHits) in
          let~ _ := insert_memory key value in
          Ret (Some value)
      end
  end.

(** [Path::is_file], which reads as false when the question fails. *)
Definition is_file (path : string) : Action bool :=
  let~ readable := choose bool in
  let~ there := reading (fun s => is_some (disk s !! path)) in
  Ret (readable && there).

(** [RenditionCache::store]; [true] is [Ok]. The temporary file has a name of its own, so that only
    the rename shows. *)
Definition store (key value : string) : Action bool :=
  let path := disk_path key in
  let~ directory := choose bool in
  if negb directory then Ret false
  else
    let~ there := is_file path in
    let~ stored :=
      (if there : bool then Ret true
       else
         let~ written := choose bool in
         if negb written then Ret false
         else
           let~ renamed := choose bool in
           if renamed : bool then let~ _ := updating (fun s => with_disk (<[path := value]> (disk s)) s) in Ret true
           else is_file path) in
    if stored : bool then let~ _ := insert_memory key value in Ret true
    else Ret false.

(** *** image_codec.rs *)

Inductive CodecError := DecodeFailed | EncodeFailed.

Definition decoded_lookup (id : string) (s : AppState) : option Image * AppState :=
  match decoded s with
  | None => (None, s)
  | Some c =>
      let '(found, c) := lru_get id c in
      (found, (if is_some found then with_counter DecodedHits else Datatypes.id) (with_decoded (Some c) s))
  end.

(** [decode]; reading the file may fail. *)
Definition decode (path : string) : Action (option Image) :=
  let~ readable := choose bool in
  Ret (if readable : bool then decode_file path else None).

(** [DecodedImageCache::load], with the status of the cache. *)
Definition load (id path : string) : Action (option (Image * string)) :=
  let~ found := atomically (decoded_lookup id) in
  match found with
  | Some image => Ret (Some (image, "hit"))
  | None =>
      with_gate Decodes id (
        let~ found := atomically (decoded_lookup id) in
        match found with
        | Some image => Ret (Some (image, "coalesced-hit"))
        | None =>
            let~ _ := updating (with_counter DecodedMisses) in
            let~ _ := updating (with_event (DecodeBegun id)) in
            let~ image := decode path in
            let~ _ := updating (with_event (DecodeEnded id)) in
            match image with
            | None => Ret None
            | Some image =>
                let~ _ := updating (fun s =>
                  with_decoded (option_map (lru_insert id image (image_bytes image)) (decoded s)) s) in
                Ret (Some (image, "miss"))
            end
        end)
  end.

(** [RenderedImage]. *)
Record RenderedImage := mkRenderedImage {
  ri_bytes : string;
  ri_source_size : Z * Z;
  ri_rendition_size : Z * Z;
  ri_decode_cache : string;
  ri_resize_mode : string;
}.

(** [render_contained_jpeg]. *)
Definition render_contained_jpeg (source : ArtifactSource) (limits : Z * Z) : Action (Result RenderedImage CodecError) :=
  let~ loaded := load (identity source) (blob_path source) in
  match loaded with
  | None => Ret (Err DecodeFailed)
  | Some (image, status) =>
      let '(picture, rendition_size, mode) := contained image limits in
      Ret (match jpeg picture with
           | None => Err EncodeFailed
           | Some text => Ok (mkRenderedImage text (image_size image) rendition_size status mode)
           end)
  end.

Definition TILE_SIZE : Z := 512.
Definition MAX_TILE_LEVEL : Z := 3.

(** [render_tile_jpeg]. *)
Definition render_tile_jpeg (path : string) (level x y : Z) : Action (Result (option string) CodecError) :=
  let~ image := decode path in
  Ret (match image with
       | None => Err DecodeFailed
       | Some image =>
           match tile_of image level x y TILE_SIZE with
           | None => Ok None
           | Some tile => match jpeg tile with Some text => Ok (Some text) | None => Err EncodeFailed end
           end
       end).

(** *** rendition.rs *)

(** What the query asks for. *)
Definition param (params : gmap string string) (name other : string) : option string :=
  or_else (params !! name) (params !! other).

Definition sequence_of (params : gmap string string) : Z :=
  unwrap_or (match param params "sequenceNo" "sequence" with Some value => parse_i64 value | None => None end) 0.

Definition rendition_key (source_identity revision : string) (key : ArtifactKey) (color_mode : string) (profile : Profile) : string :=
  digest (rendition_material source_identity revision key color_mode profile).

Definition quoted (s : string) : string := String quote (s +:+ String quote EmptyString).
Definition size_text (size : Z * Z) : string := dec (fst size) +:+ "x" +:+ dec (snd size).

(** [preview_response]; [timing] is the text of the timings. *)
Definition preview_response (value key if_none_match cache_control : string) (profile : Profile)
    (revision cache_status : string) (rendered : option RenderedImage) (timing : string) : Response :=
  binary_response value (quoted key) if_none_match cache_control
    ([("X-Steel-Rendition-Schema", RENDITION_SCHEMA);
      ("X-Steel-Rendition-Profile", profile_name profile);
      ("X-Steel-Source-Revision", revision);
      ("X-Steel-Rendition-Cache", cache_status);
      ("X-Steel-Encoder-Revision", ENCODER_REVISION);
      ("Server-Timing", timing)] ++
     match rendered with
     | None => []
     | Some r => [("X-Steel-Decode-Cache", ri_decode_cache r); ("X-Steel-Resize-Mode", ri_resize_mode r);
                  ("X-Steel-Source-Size", size_text (ri_source_size r));
                  ("X-Steel-Rendition-Size", size_text (ri_rendition_size r))]
     end).

Definition resolve_error (error : ResolveError) : Response :=
  match error with
  | CatalogUnavailable => error_json 503 "catalog_unavailable"
  | NotFound => error_json 404 "artifact_not_found"
  | InvalidReference => error_json 422 "artifact_reference_invalid"
  end.

(** A preview request whose parameters are in order. *)
Record PreviewRequest := mkPreviewRequest {
  pr_key : ArtifactKey;
  pr_color_mode : string;
  pr_profile : Profile;
  pr_live : bool;
  pr_revision : option string;
}.

(** The checks of [rendition::serve] before the catalogue. *)
Definition preview_request (params : gmap string string) : Result PreviewRequest Response :=
  match param params "recordId" "inspectionId" with
  | None => Err (error_json 400 "recordId_required")
  | Some record_id =>
      let camera_id := unwrap_or (param params "camera" "cameraId") "C1" in
      let color_mode := unwrap_or (option_map to_ascii_lowercase (params !! "colorMode")) "gray" in
      if (color_mode != "gray") && (color_mode != "jet") then Err (error_json 400 "colorMode_invalid")
      else
        let source_kind := unwrap_or (params !! "kind") (if color_mode == "jet" then "jet" else "intensity") in
        if (color_mode == "jet") && (source_kind != "jet")
        then Err (error_json 400 "jet_requires_processed_jet_artifact")
        else
          match requested_profile params with
          | Err error => Err (error_json 400 error)
          | Ok profile =>
              Ok (mkPreviewRequest (mkArtifactKey record_id camera_id (sequence_of params) source_kind) color_mode profile
                    (is_some_and (params !! "live") (fun value => one_of value ["1"; "true"])) (params !! "revision"))
          end
  end.

(** From the build lock on: look again, render, store. *)
Definition build_preview (r : PreviewRequest) (source : ArtifactSource) (key if_none_match cache_control revision : string)
    : Action Response :=
  let~ cached := (if pr_live r then Ret None else cache_get key) in
  match cached with
  | Some value =>
      let~ timing := choose string in
      Ret (preview_response value key if_none_match cache_control (pr_profile r) revision "coalesced-hit" None timing)
  | None =>
      let~ rendered := render_contained_jpeg source (bounds (pr_profile r)) in
      match rendered with
      | Err DecodeFailed => Ret (error_json 422 "image_decode_failed")
      | Err EncodeFailed => Ret (error_json 422 "preview_encode_failed")
      | Ok rendered =>
          let~ cache_status :=
            (if pr_live r then Ret "bypass"
             else
               let~ stored := store key (ri_bytes rendered) in
               if stored : bool then Ret "miss"
               else let~ _ := insert_memory key (ri_bytes rendered) in Ret "miss-memory-only") in
          let~ timing := choose string in
          Ret (preview_response (ri_bytes rendered) key if_none_match cache_control (pr_profile r) revision
                 cache_status (Some rendered) timing)
      end
  end.

(** [rendition::serve]. *)
Definition serve_preview (params : gmap string string) (if_none_match : string) : Action Response :=
  match preview_request params with
  | Err response => Ret response
  | Ok r =>
      let~ resolved := resolve (pr_key r) in
      match resolved with
      | Err error => Ret (resolve_error error)
      | Ok source =>
          let revision := unwrap_or (pr_revision r) (identity source) in
          let key := rendition_key (identity source) revision (pr_key r) (pr_color_mode r) (pr_profile r) in
          let cache_control := if pr_live r then "no-store" else "public, max-age=31536000, immutable" in
          let~ cached := (if pr_live r then Ret None else cache_get key) in
          match cached with
          | Some value =>
              let~ timing := choose string in
              Ret (preview_response value key if_none_match cache_control (pr_profile r) revision "hit" None timing)
          | None => with_gate Renditions key (build_preview r source key if_none_match cache_control revision)
          end
      end
  end.

(** *** tile.rs *)

(** [tile_response]. *)
Definition tile_response (value key if_none_match : string) : Response :=
  binary_response value (quoted key) if_none_match "public, max-age=31536000, immutable"
    [("Warning", "299 steel-image-service " +:+ quoted "legacy tile endpoint; use /internal/v1/preview")].

(** A tile request: the artifact and the place. *)
Record TileRequest := mkTileRequest {
  tr_key : ArtifactKey;
  tr_level : Z;
  tr_x : Z;
  tr_y : Z;
}.

Definition tile_request (params : gmap string string) : option TileRequest :=
  match param params "recordId" "inspectionId" with
  | None => None
  | Some record_id =>
      let number (name : string) : Z := unwrap_or (match params !! name with Some value => parse_u32 value | None => None end) 0 in
      Some (mkTileRequest
        (mkArtifactKey record_id (unwrap_or (param params "camera" "cameraId") "C1") (sequence_of params)
           (unwrap_or (params !! "kind") "intensity"))
        (Z.min (number "level") MAX_TILE_LEVEL) (number "x") (number "y"))
  end.

(** [tile::serve]. *)
Definition serve_tile (params : gmap string string) (if_none_match : string) : Action Response :=
  match tile_request params with
  | None => Ret (error_json 400 "recordId_required")
  | Some r =>
      let~ resolved := resolve (tr_key r) in
      match resolved with
      | Err error => Ret (resolve_error error)
      | Ok source =>
          let key := digest (tile_material (identity source) (tr_level r) (tr_x r) (tr_y r)) in
          let~ cached := cache_get key in
          match cached with
          | Some value => Ret (tile_response value key if_none_match)
          | None =>
              let~ rendered := render_tile_jpeg (blob_path source) (tr_level r) (tr_x r) (tr_y r) in
              match rendered with
              | Ok (Some value) =>
                  let~ _ := insert_memory key value in
                  Ret (tile_response value key if_none_match)
              | Ok None => Ret (error_json 404 "tile_not_found")
              | Err DecodeFailed => Ret (error_json 422 "image_decode_failed")
              | Err EncodeFailed => Ret (error_json 422 "tile_encode_failed")
              end
          end
      end
  end.

(** *** server.rs *)

(** The status document; the limits are those the service was started with. *)
Definition status_document (limits : Z * Z * Z) : Action Response :=
  let '(encoded_bytes, decoded_bytes, catalog_entries) := limits in
  let~ ready := choose bool in
  let~ n := reading counters in
  let~ root := reading result_root in
  Ret (ok_json (jobj
    [("schema", JString "steel.image-service.status.v3"); ("service", JString "steel-image-service");
     ("role", JString "media-artifact-rendition"); ("ready", JBool ready); ("resultRoot", JString root);
     ("previewContract", JString "steel.thumbnail.v1"); ("legacyTileCompatibility", JBool true);
     ("cacheLimits", jobj [("encodedBytes", jint encoded_bytes); ("decodedBytes", jint decoded_bytes);
                           ("catalogEntries", jint catalog_entries)]);
     ("cacheCounters", jobj [("encodedMemoryHits", jint (memory_hits n)); ("encodedDiskHits", jint (disk_hits n));
                             ("encodedMisses", jint (cache_misses n)); ("decodedHits", jint (decoded_hits n));
                             ("decodedMisses", jint (decoded_misses n)); ("catalogHits", jint (catalog_hits n));
                             ("catalogDatabaseQueries", jint (database_queries n))])])).

Variable limits : Z * Z * Z.

(** server.rs [route]. *)
Definition image_route (request : Request) : Action Response :=
  if negb (rq_method request == "GET") then Ret (error_json 404 "not_found")
  else if one_of (rq_path request) ["/api/health/live"; "/health"] then
    Ret (ok_json (jobj [("status", JString "live"); ("service", JString "steel-image-service");
                        ("schema", JString "steel.image-service.health.v1")]))
  else if rq_path request == "/internal/v1/status" then status_document limits
  else if one_of (rq_path request) ["/api/preview"; "/internal/v1/preview"]
  then serve_preview (rq_query request) (rq_if_none_match request)
  else if one_of (rq_path request) ["/api/tile"; "/internal/v1/tile"]
  then serve_tile (rq_query request) (rq_if_none_match request)
  else Ret (error_json 404 "not_found").

(** server.rs [handle_client]: up to [n] requests of one connection; what was written. *)
Fixpoint image_handle_client (n : nat) (socket : list SocketRead) : Action (list string) :=
  match n with
  | O => Ret []
  | S n' =>
      match read_request_go "" socket with
      | (None, _) => Panicked
      | (Some (Ok None), _) => Ret []
      | (Some (Err error), _) => Ret [write_to (error_json 400 error) true]
      | (Some (Ok (Some request)), rest) =>
          let connection_close := rq_connection_close request || Nat.eqb n' 0 in
          let~ response := image_route request in
          let~ written := choose bool in
          let sent := write_to response connection_close in
          if negb written || connection_close then Ret [sent]
          else let~ more := image_handle_client n' rest in Ret (sent :: more)
      end
  end.

End Service.
