(* ===== verification/ImageFacts.v ===== *)
(** * What the image service guarantees

    Over every interleaving of requests: a preview or tile is the rendition of an image the catalogue
    gave for the artifact asked for, whichever cache it came from; an image is never decoded twice at
    the same time; and the build locks cannot deadlock, so every worker ends with the answers to its
    connection, unless the query decoder panics. *)

From S2P Require Import Prelude Json Http HttpFacts Float64 Concurrent ByteLru ImageHttp ImageService.
From Stdlib Require Import Ascii.

(** ** Counting over threads *)

Section Count.
Context {X : Type}.

Definition count_if (p : X -> bool) (l : list X) : Z := foldr (fun x n => Z.b2z (p x) + n) 0 l.

Lemma count_if_nonneg p l : 0 <= count_if p l.
Proof. induction l as [|x l IH]; simpl; [lia|]. destruct (p x); simpl; lia. Qed.

Lemma count_if_app p l1 l2 : count_if p (l1 ++ l2) = count_if p l1 + count_if p l2.
Proof. induction l1 as [|x l1 IH]; simpl; lia. Qed.

Lemma count_if_insert p l i x y : l !! i = Some x -> count_if p (<[i := y]> l) = count_if p l - Z.b2z (p x) + Z.b2z (p y).
Proof. revert i. induction l as [|z l IH]; intros [|i] Hi; simplify_eq/=; [lia|]. rewrite (IH i Hi). lia. Qed.

Lemma count_if_member p l i x : l !! i = Some x -> p x = true -> 1 <= count_if p l.
Proof.
  revert i. induction l as [|z l IH]; intros [|i] Hi Hp; simplify_eq/=.
  - rewrite Hp. pose proof (count_if_nonneg p l). simpl. lia.
  - specialize (IH i Hi Hp). destruct (p z); simpl; lia.
Qed.

Lemma count_if_exists p l : 1 <= count_if p l -> exists i x, l !! i = Some x /\ p x = true.
Proof.
  induction l as [|z l IH]; simpl; [lia|]. destruct (p z) eqn:E; simpl; intros Hc.
  - by exists 0%nat, z.
  - destruct IH as (i & x & ? & ?); [lia|]. by exists (S i), x.
Qed.

Lemma count_if_two p l i j x y : l !! i = Some x -> l !! j = Some y -> i <> j -> p x = true -> p y = true -> 2 <= count_if p l.
Proof.
  intros Hi Hj Hne Hx Hy. pose proof (count_if_insert (fun z => p z) l i x x Hi) as _.
  revert i j Hi Hj Hne. induction l as [|z l IH]; intros [|i] [|j] Hi Hj Hne; simplify_eq/=; try done.
  - rewrite Hx. pose proof (count_if_member p l j y Hj Hy). simpl. lia.
  - rewrite Hy. pose proof (count_if_member p l i x Hi Hx). simpl. lia.
  - destruct (p z); simpl; specialize (IH i j Hi Hj ltac:(congruence)); lia.
Qed.
End Count.

(** ** Build locks *)

(** A thread's part in a table of build locks: the key, the lock, whether it holds it. *)
Record Slot := mkSlot {
  sl_key : string;
  sl_gate : nat;
  sl_locked : bool;
}.

Definition slot_gate (g : nat) (o : option Slot) : bool :=
  match o with Some sl => Nat.eqb (sl_gate sl) g | None => false end.
Definition slot_locks (g : nat) (o : option Slot) : bool :=
  match o with Some sl => Nat.eqb (sl_gate sl) g && sl_locked sl | None => false end.

Record flight_inv (f : Flights) (slots : list (option Slot)) : Prop := {
  fi_table : forall i sl, slots !! i = Some (Some sl) -> fl_table f !! sl_key sl = Some (sl_gate sl);
  fi_strong : forall g, strong (gate_of f g) = count_if (slot_gate g) slots;
  fi_locked : forall g, Z.b2z (locked (gate_of f g)) = count_if (slot_locks g) slots;
  fi_fresh : forall g, (fl_next f <= g)%nat -> gate_of f g = mkGate 0 false;
}.

Lemma gate_of_insert f table n g x g' :
  gate_of (mkFlights table (<[g := x]> (fl_gates f)) n) g' = if Nat.eqb g g' then x else gate_of f g'.
Proof.
  unfold gate_of. simpl. destruct (Nat.eqb_spec g g') as [->|Hne]; [by rewrite lookup_insert_eq|by rewrite lookup_insert_ne].
Qed.

Lemma slot_strong f slots i sl : flight_inv f slots -> slots !! i = Some (Some sl) -> 1 <= strong (gate_of f (sl_gate sl)).
Proof. intros Hf Hi. rewrite (fi_strong _ _ Hf). eapply count_if_member; [done|]. simpl. apply Nat.eqb_refl. Qed.

Lemma flight_start f slots : flight_inv f slots -> flight_inv f (slots ++ [None]).
Proof.
  intros [Ht Hs Hl Hn]. split; try done.
  - intros i sl [Hi|[_ Hi]]%lookup_app_Some; [by eapply Ht|]. by destruct (i - length slots)%nat as [|[|]].
  - intros g. rewrite count_if_app, Hs. simpl. lia.
  - intros g. rewrite count_if_app, Hl. simpl. lia.
Qed.

Lemma flight_build f slots i key : flight_inv f slots -> slots !! i = Some None ->
  flight_inv (snd (build_lock_section key f)) (<[i := Some (mkSlot key (fst (build_lock_section key f)) false)]> slots).
Proof.
  intros Hf Hi. pose proof Hf as [Ht Hs Hl Hn]. unfold build_lock_section.
  set (table := filter _ _).
  assert (Hkept : forall j sl, slots !! j = Some (Some sl) -> table !! sl_key sl = Some (sl_gate sl)).
  { intros j sl Hj. apply map_lookup_filter_Some. split; [by eapply Ht|]. simpl. pose proof (slot_strong _ _ _ _ Hf Hj). lia. }
  assert (Hlt : (i < length slots)%nat) by (by eapply lookup_lt_Some).
  destruct (table !! key) as [g|] eqn:Eg; simpl.
  - split; simpl.
    + intros j sl Hj. apply list_lookup_insert_Some in Hj as [(<- & [= <-] & _)|[_ Hj]]; [done|by eapply Hkept].
    + intros g'. rewrite gate_of_insert, (count_if_insert _ _ _ _ _ Hi), <- !Hs. simpl. destruct (Nat.eqb_spec g g') as [->|]; simpl; lia.
    + intros g'. rewrite gate_of_insert, (count_if_insert _ _ _ _ _ Hi), <- !Hl. simpl.
      destruct (Nat.eqb_spec g g') as [->|]; simpl; lia.
    + intros g' Hg'. rewrite gate_of_insert. destruct (Nat.eqb_spec g g') as [->|]; [|by apply Hn].
      apply map_lookup_filter_Some in Eg as [_ Hp]. simpl in Hp. rewrite (Hn g' Hg') in Hp. simpl in Hp. lia.
  - split; simpl.
    + intros j sl Hj. apply list_lookup_insert_Some in Hj as [(<- & [= <-] & _)|[_ Hj]]; simpl; [by rewrite lookup_insert_eq|].
      rewrite lookup_insert_ne; [by eapply Hkept|]. intros E. apply Hkept in Hj. congruence.
    + intros g'. rewrite gate_of_insert, (count_if_insert _ _ _ _ _ Hi), <- !Hs. simpl.
      destruct (Nat.eqb_spec (fl_next f) g') as [<-|]; simpl; [|lia]. rewrite (Hn _ (le_n _)). simpl. lia.
    + intros g'. rewrite gate_of_insert, (count_if_insert _ _ _ _ _ Hi), <- !Hl. simpl.
      destruct (Nat.eqb_spec (fl_next f) g') as [<-|]; simpl; [|lia]. rewrite (Hn _ (le_n _)). simpl. lia.
    + intros g' Hg'. rewrite gate_of_insert. destruct (Nat.eqb_spec (fl_next f) g') as [<-|]; [lia|]. apply Hn. lia.
Qed.

(** Changing the lock of a slot a thread holds: its strong count and its state follow the slot. *)
Lemma flight_change f slots i sl new st lk : flight_inv f slots -> slots !! i = Some (Some sl) ->
  (forall sl', new = Some sl' -> sl_key sl' = sl_key sl /\ sl_gate sl' = sl_gate sl) ->
  st = strong (gate_of f (sl_gate sl)) - (if is_some new then 0 else 1) ->
  Z.b2z lk = Z.b2z (locked (gate_of f (sl_gate sl))) - Z.b2z (sl_locked sl) + Z.b2z (slot_locks (sl_gate sl) new) ->
  flight_inv (mkFlights (fl_table f) (<[sl_gate sl := mkGate st lk]> (fl_gates f)) (fl_next f)) (<[i := new]> slots).
Proof.
  intros Hf Hi Hnew Hst Hlk. pose proof Hf as [Ht Hs Hl Hn]. split; simpl.
  - intros j sl' Hj. apply list_lookup_insert_Some in Hj as [(<- & -> & _)|[_ Hj]]; [|by eapply Ht].
    destruct (Hnew sl' eq_refl) as [-> ->]. by eapply Ht.
  - intros g'. rewrite gate_of_insert, (count_if_insert _ _ _ _ _ Hi), <- !Hs. simpl.
    destruct (Nat.eqb_spec (sl_gate sl) g') as [<-|Hne]; simpl.
    + destruct new as [sl'|]; simpl in *; [destruct (Hnew sl' eq_refl) as [_ ->]; rewrite Nat.eqb_refl|]; simpl; lia.
    + destruct new as [sl'|]; simpl; [|lia]. destruct (Hnew sl' eq_refl) as [_ ->].
      destruct (Nat.eqb_spec (sl_gate sl) g'); [done|]. simpl. lia.
  - intros g'. rewrite gate_of_insert, (count_if_insert _ _ _ _ _ Hi), <- !Hl. simpl.
    destruct (Nat.eqb_spec (sl_gate sl) g') as [<-|Hne]; simpl; [lia|].
    destruct new as [sl'|]; simpl; [|lia]. destruct (Hnew sl' eq_refl) as [_ ->].
    destruct (Nat.eqb_spec (sl_gate sl) g'); [done|]. simpl. lia.
  - intros g' Hg'. rewrite gate_of_insert. destruct (Nat.eqb_spec (sl_gate sl) g') as [<-|]; [|by apply Hn].
    pose proof (slot_strong _ _ _ _ Hf Hi) as H1. rewrite (Hn _ Hg') in H1. simpl in H1. lia.
Qed.

(** Two threads with a key share its lock, and at most one of them holds it. *)
Lemma flight_exclusive f slots i j sl sl' : flight_inv f slots -> slots !! i = Some (Some sl) -> slots !! j = Some (Some sl') ->
  sl_key sl = sl_key sl' -> sl_locked sl = true -> sl_locked sl' = true -> i = j.
Proof.
  intros Hf Hi Hj Hk H1 H2. destruct (decide (i = j)) as [|Hne]; [done|]. exfalso.
  pose proof (fi_table _ _ Hf _ _ Hi) as E1. pose proof (fi_table _ _ Hf _ _ Hj) as E2. rewrite Hk in E1.
  assert (Hg : sl_gate sl = sl_gate sl') by congruence.
  pose proof (fi_locked _ _ Hf (sl_gate sl)) as Hl.
  pose proof (count_if_two (slot_locks (sl_gate sl)) slots i j _ _ Hi Hj Hne) as H3. simpl in H3.
  rewrite Hg, Nat.eqb_refl, H1, H2 in H3. rewrite Hg in Hl. specialize (H3 eq_refl eq_refl).
  destruct (locked _); simpl in Hl; lia.
Qed.

(** ** What is hashed tells what it is about *)

Lemma app_same_length s s' t t' : String.length s = String.length s' -> s +:+ t = s' +:+ t' -> s = s' /\ t = t'.
Proof.
  revert s'. induction s as [|a s IH]; intros [|a' s'] Hl E; simpl in *; try lia; [done|].
  injection E as -> E. destruct (IH s') as [-> ->]; [lia|done|done].
Qed.

Lemma app_same_end s s' t t' : String.length t = String.length t' -> s +:+ t = s' +:+ t' -> s = s' /\ t = t'.
Proof.
  intros Hl E. apply app_same_length; [|done]. apply (f_equal String.length) in E. rewrite !string_length_app in E. lia.
Qed.

Lemma app_inj_l s t t' : s +:+ t = s +:+ t' -> t = t'.
Proof. intros E. by apply (app_same_length s s t t' eq_refl) in E as [_ ?]. Qed.

Definition bar : ascii := ascii_of_nat 124.

Lemma app_bar s s' t t' : lacks 124 s = true -> lacks 124 s' = true ->
  s +:+ String bar t = s' +:+ String bar t' -> s = s' /\ t = t'.
Proof.
  revert s'. induction s as [|a s IH]; intros [|a' s'] Hs Hs' E; simpl in E.
  - by injection E.
  - injection E as <- _. by apply lacks_cons in Hs' as [Hb _].
  - injection E as -> _. by apply lacks_cons in Hs as [Hb _].
  - injection E as -> E. apply lacks_cons in Hs as [_ Hs]. apply lacks_cons in Hs' as [_ Hs'].
    destruct (IH s' Hs Hs' E) as [-> ->]. done.
Qed.

(** An identity as the catalogue hands it out. *)
Definition identity_ok (id : string) : Prop := String.length id = 64%nat.

Lemma lowercase_length s : String.length (to_ascii_lowercase s) = String.length s.
Proof. induction s as [|a s IH]; simpl; lia. Qed.

Lemma validated_identity path id : validated_blob_identity path = Some id -> identity_ok id.
Proof.
  unfold validated_blob_identity. destruct (strip_prefix _ _) as [x|]; [|done].
  destruct (negb (str_len x =? 64)) eqn:E; simpl; [done|]. destruct (_ || _); [done|]. intros [= <-].
  apply negb_false_iff, Z.eqb_eq in E. unfold identity_ok. rewrite lowercase_length. unfold str_len in E. lia.
Qed.

Lemma rendition_material_inj id id' rev rev' k k' c c' p p' : identity_ok id -> identity_ok id' ->
  rendition_material id rev k c p = rendition_material id' rev' k' c' p' -> id = id' /\ p = p'.
Proof.
  unfold rendition_material. intros Hid Hid' E. do 4 apply app_inj_l in E.
  rewrite <- !string_app_assoc in E. apply app_same_end in E as [E Hp]; [|by destruct p, p'].
  rewrite !string_app_assoc in E. apply app_same_length in E as [-> _]; [|congruence].
  split; [done|]. by destruct p, p'.
Qed.

Lemma dec_lacks_bar n : 0 <= n -> lacks 124 (dec n) = true.
Proof.
  intros Hn. pose proof (dec_digits n Hn) as Hd. revert Hd. unfold lacks. induction (dec n) as [|a s IH]; [done|]. simpl.
  intros [Ha Hs]%andb_true_iff. rewrite (IH Hs), andb_true_r. apply negb_true_iff. unfold byte_is.
  unfold is_ascii_digit, byte_between in Ha. apply andb_true_iff in Ha as [_ Ha]. lia.
Qed.

Lemma tile_material_inj id id' l l' x x' y y' : identity_ok id -> identity_ok id' ->
  0 <= l -> 0 <= l' -> 0 <= x -> 0 <= x' ->
  tile_material id l x y = tile_material id' l' x' y' -> id = id' /\ l = l' /\ x = x' /\ y = y'.
Proof.
  unfold tile_material. intros Hid Hid' Hl Hl' Hx Hx' E. apply app_inj_l in E.
  apply app_same_length in E as [-> E]; [|congruence]. apply app_inj_l in E.
  apply app_bar in E as [E1 E]; [|by apply dec_lacks_bar..]. apply app_bar in E as [E2 E3]; [|by apply dec_lacks_bar..].
  apply (inj pretty) in E1, E2, E3. done.
Qed.

Lemma materials_differ id rev k c p id' l x y : rendition_material id rev k c p <> tile_material id' l x y.
Proof. unfold rendition_material, tile_material. intros E. done. Qed.

Lemma disk_prefix_length key : String.length (disk_prefix key) = 2%nat.
Proof. destruct key as [|a [|b rest]]; [done|done|]. unfold disk_prefix. by case_match. Qed.

Lemma disk_path_inj key key' : disk_path key = disk_path key' -> key = key'.
Proof.
  unfold disk_path. intros E. apply app_same_length in E as [_ E]; [|by rewrite !disk_prefix_length].
  apply app_inj_l in E. by apply app_same_end in E as [? _].
Qed.

(** ** The invariant *)

Section System.
Context `{JsonCodec} `{ImageCodec}.
Context `{!LinkedHashMap ArtifactKey ArtifactSource} `{!LinkedHashMap string (string * Z)}
        `{!LinkedHashMap string (Image * Z)}.
Context `{!LinkedHashMapLaws ArtifactKey ArtifactSource} `{!LinkedHashMapLaws string (string * Z)}
        `{!LinkedHashMapLaws string (Image * Z)}.
Variable digest : string -> string.
(** SHA-256 is taken as free of collisions. *)
Hypothesis digest_free : forall a b, digest a = digest b -> a = b.
Variable root : string.
Variable limits : Z * Z * Z.

Definition blob (id : string) : string := root +:+ "/blobs/" +:+ id.

(** The rendition of an image for a profile, and a tile of it. *)
Definition preview_of (id : string) (p : Profile) (text : string) : Prop :=
  exists image, decode_file (blob id) = Some image /\ jpeg (fst (fst (contained image (bounds p)))) = Some text.
Definition tile_text (id : string) (level x y : Z) (text : string) : Prop :=
  exists image tile, decode_file (blob id) = Some image /\ tile_of image level x y TILE_SIZE = Some tile /\ jpeg tile = Some text.

(** What the caches may hold under a key. *)
Definition meaning (key text : string) : Prop :=
  (exists id rev k c p, identity_ok id /\ key = rendition_key digest id rev k c p /\ preview_of id p text) \/
  (exists id level x y, identity_ok id /\ 0 <= level /\ 0 <= x /\ key = digest (tile_material id level x y) /\
     tile_text id level x y text).

Lemma meaning_preview id rev k c p text : identity_ok id ->
  meaning (rendition_key digest id rev k c p) text -> preview_of id p text.
Proof.
  intros Hid [(id' & rev' & k' & c' & p' & Hid' & E & Ht)|(id' & l & x & y & _ & _ & _ & E & _)].
  - apply digest_free in E. apply rendition_material_inj in E as [-> ->]; done.
  - apply digest_free in E. by apply materials_differ in E.
Qed.

Lemma meaning_tile id level x y text : identity_ok id -> 0 <= level -> 0 <= x ->
  meaning (digest (tile_material id level x y)) text -> tile_text id level x y text.
Proof.
  intros Hid Hl Hx [(id' & rev' & k' & c' & p' & Hid' & E & Ht)|(id' & l & x' & y' & Hid' & Hl' & Hx' & E & Ht)].
  - apply digest_free in E. symmetry in E. by apply materials_differ in E.
  - apply digest_free in E. apply tile_material_inj in E as (-> & -> & -> & ->); done.
Qed.

Definition source_ok (log : list ImageEvent) (key : ArtifactKey) (source : ArtifactSource) : Prop :=
  In (CatalogAnswered key (identity source)) log /\ identity_ok (identity source) /\ blob_path source = blob (identity source).

Definition sources_ok (s : AppState) : Prop :=
  forall c, sources s = Some c -> Forall (fun e => source_ok (events s) (fst e) (snd e)) (entries (source_entries c)).

Definition memory_ok (s : AppState) : Prop :=
  forall c, memory s = Some c -> Forall (fun e => meaning (fst e) (fst (snd e))) (recency c).

Definition disk_ok (s : AppState) : Prop :=
  forall key text, disk s !! disk_path key = Some text -> text <> "" -> meaning key text.

Definition decoded_ok (s : AppState) : Prop :=
  forall c, decoded s = Some c -> Forall (fun e => decode_file (blob (fst e)) = Some (fst (snd e))) (recency c).

Record data_ok (s : AppState) : Prop := {
  d_root : result_root s = root;
  d_sources : sources_ok s;
  d_memory : memory_ok s;
  d_disk : disk_ok s;
  d_decoded : decoded_ok s;
}.

(** What a thread holds and knows: its parts in the two tables of locks, whether it is decoding, and
    the source the catalogue gave it. *)
Record Held := mkHeld {
  h_rendition : option Slot;
  h_decode : option Slot;
  h_decoding : bool;
  h_source : option (ArtifactKey * string);
}.

Definition nothing : Held := mkHeld None None false None.

Definition holds_lock (o : option Slot) : bool := match o with Some sl => sl_locked sl | None => false end.
Definition rank (h : Held) : nat :=
  if holds_lock (h_decode h) then 2 else if holds_lock (h_rendition h) then 1 else 0.

Definition decodes (id : string) (h : Held) : bool :=
  h_decoding h && match h_decode h with Some sl => sl_key sl == id | None => false end.

(** Decodings begun and not ended. *)
Definition opens (id : string) (log : list ImageEvent) : Z :=
  foldr (fun e n => match e with
                    | DecodeBegun i => Z.b2z (i == id) + n
                    | DecodeEnded i => n - Z.b2z (i == id)
                    | CatalogAnswered _ _ => n
                    end) 0 log.

Record image_inv (s : AppState) (hs : list Held) : Prop := {
  iv_data : data_ok s;
  iv_renditions : flight_inv (rendition_flights s) (map h_rendition hs);
  iv_decodes : flight_inv (decode_flights s) (map h_decode hs);
  iv_opens : forall id, opens id (events s) = count_if (decodes id) hs;
  iv_decoding : forall i h, hs !! i = Some h -> h_decoding h = true -> holds_lock (h_decode h) = true;
  iv_sources : forall i h k id, hs !! i = Some h -> h_source h = Some (k, id) ->
    In (CatalogAnswered k id) (events s) /\ identity_ok id;
}.

Lemma opens_snoc id log e : opens id (log ++ [e]) = opens id log + opens id [e].
Proof. induction log as [|e' log IH]; simpl; [lia|]. destruct e'; simpl in *; lia. Qed.

(** An image is decoded by one thread at a time. *)
Lemma opens_at_most_one s hs id : image_inv s hs -> 0 <= opens id (events s) <= 1.
Proof.
  intros Hi. rewrite (iv_opens _ _ Hi). split; [apply count_if_nonneg|].
  destruct (decide (count_if (decodes id) hs <= 1)) as [|Hgt]; [done|]. exfalso.
  assert (Htwo : exists i j h h', hs !! i = Some h /\ hs !! j = Some h' /\ i <> j /\ decodes id h = true /\ decodes id h' = true).
  { clear Hi. assert (Hc : 2 <= count_if (decodes id) hs) by lia. clear Hgt. induction hs as [|h hs IH]; simpl in Hc; [lia|].
    destruct (decodes id h) eqn:E; simpl in Hc.
    - destruct (count_if_exists (decodes id) hs ltac:(lia)) as (j & h' & Hj & E'). by exists 0%nat, (S j), h, h'.
    - destruct (IH ltac:(lia)) as (i & j & h1 & h2 & ? & ? & ? & ? & ?). exists (S i), (S j), h1, h2. simpl. repeat split; try done. congruence. }
  destruct Htwo as (i & j & h & h' & Hh & Hh' & Hne & E & E'). apply Hne.
  unfold decodes in E, E'. apply andb_true_iff in E as [Ed E]. apply andb_true_iff in E' as [Ed' E'].
  pose proof (iv_decoding _ _ Hi _ _ Hh Ed) as Hl. pose proof (iv_decoding _ _ Hi _ _ Hh' Ed') as Hl'.
  destruct (h_decode h) as [sl|] eqn:Es; [|done]. destruct (h_decode h') as [sl'|] eqn:Es'; [|done].
  apply String.eqb_eq in E, E'. apply (flight_exclusive _ _ i j sl sl' (iv_decodes _ _ Hi)); try done.
  - rewrite list_lookup_fmap, Hh. simpl. by rewrite Es.
  - rewrite list_lookup_fmap, Hh'. simpl. by rewrite Es'.
  - congruence.
Qed.

Abbreviation Inv := image_inv.
Abbreviation safe' := (safe Inv rank).

(** A change of the caches only. *)
Lemma inv_data s s' hs : Inv s hs -> data_ok s' -> rendition_flights s' = rendition_flights s ->
  decode_flights s' = decode_flights s -> events s' = events s -> Inv s' hs.
Proof. intros [Hd Hr Hdc Ho Hdd Hs] Hd' E1 E2 E3. split; rewrite ?E1, ?E2, ?E3; done. Qed.

Lemma data_counter c s : data_ok s -> data_ok (with_counter c s).
Proof. intros [? ? ? ? ?]. by split. Qed.

Lemma safe_counter c h : safe' (fun h' _ => h' = h) h (updating (with_counter c)).
Proof.
  apply pool_keep. intros s hs i Hi Hl. split; [|done]. eapply inv_data; try done. by apply data_counter, (iv_data _ _ Hi).
Qed.

Lemma cached_source_ok key s : data_ok s ->
  data_ok (snd (cached_source key s)) /\ events (snd (cached_source key s)) = events s /\
  rendition_flights (snd (cached_source key s)) = rendition_flights s /\
  decode_flights (snd (cached_source key s)) = decode_flights s /\
  forall source, fst (cached_source key s) = Some source -> source_ok (events s) key source.
Proof.
  intros [Hr Hs Hm Hd Hc]. unfold cached_source. destruct (sources s) as [c|] eqn:Ec; [|by repeat split].
  specialize (Hs c Ec). destruct (entries_to_back key (source_entries c)) as [Hf Hb].
  destruct (lhm_to_back key (source_entries c)) as [found m]. simpl in Hf, Hb. subst found.
  destruct (assoc key (entries (source_entries c))) as [source|] eqn:Ea; simpl.
  - pose proof Ea as Es. apply assoc_split in Es as (l1 & k' & l2 & El & -> & _).
    assert (Hsource : source_ok (events s) key source).
    { rewrite El in Hs. apply Forall_app in Hs as [_ Hs]. by apply Forall_inv in Hs. }
    split; [|do 3 (split; [done|]); by intros source' [= <-]].
    split; try done. intros c' [= <-]. simpl. rewrite Hb. apply Forall_app. split; [|auto].
    rewrite !List.Forall_forall in *. intros e [He _]%without_in. auto.
  - split; [|by repeat split]. split; try done. intros c' [= <-]. simpl. by rewrite Hb.
Qed.

Lemma make_room_forall (P : ArtifactKey * ArtifactSource -> Prop) fuel max : forall m,
  Forall P (entries m) -> Forall P (entries (make_room fuel max m)).
Proof.
  induction fuel as [|fuel IH]; intros m Hm; [done|]. simpl. destruct (_ >=? _); [|done]. apply IH.
  pose proof (entries_pop_front m) as Hp. destruct (entries m) as [|e l] eqn:E; [by rewrite Hp; simpl; rewrite E|].
  destruct Hp as [_ ->]. by apply Forall_inv_tail in Hm.
Qed.

Lemma remember_source_ok key source s : data_ok s -> source_ok (events s) key source -> data_ok (remember_source key source s).
Proof.
  intros Hd Hs. unfold remember_source. destruct (sources s) as [c|] eqn:Ec; [|done]. destruct (_ >? _); [|done].
  pose proof (d_sources _ Hd c Ec) as Hall. destruct Hd. split; try done. intros c' [= <-]. simpl.
  rewrite entries_insert. apply Forall_app. split; [|auto].
  pose proof (make_room_forall _ (lhm_len (source_entries c)) (max_entries c) _ Hall) as Hroom.
  rewrite !List.Forall_forall in *. intros e [He _]%without_in. auto.
Qed.

(** *** The catalogue *)

Definition know (key : ArtifactKey) (id : string) (h : Held) : Held :=
  mkHeld (h_rendition h) (h_decode h) (h_decoding h) (Some (key, id)).

(** A thread learns what the log says. *)
Lemma inv_know s hs i h key id : Inv s hs -> hs !! i = Some h -> In (CatalogAnswered key id) (events s) -> identity_ok id ->
  Inv s (<[i := know key id h]> hs).
Proof.
  intros [Hd Hr Hdc Ho Hdd Hs] Hi Hin Hid.
  assert (E1 : map h_rendition (<[i := know key id h]> hs) = map h_rendition hs).
  { rewrite list_fmap_insert. apply list_insert_id. by rewrite list_lookup_fmap, Hi. }
  assert (E2 : map h_decode (<[i := know key id h]> hs) = map h_decode hs).
  { rewrite list_fmap_insert. apply list_insert_id. by rewrite list_lookup_fmap, Hi. }
  split; rewrite ?E1, ?E2; try done.
  - intros id'. rewrite (count_if_insert _ _ _ _ _ Hi), Ho. unfold decodes. simpl. lia.
  - intros j h' Hj. apply list_lookup_insert_Some in Hj as [(<- & <- & _)|[_ Hj]]; [|by eapply Hdd]. simpl. intros E. by apply (Hdd i h).
  - intros j h' k' id' Hj. apply list_lookup_insert_Some in Hj as [(<- & <- & _)|[_ Hj]]; [|intros E; by eapply Hs].
    simpl. by intros [= <- <-].
Qed.

Lemma opens_answer k id id' : opens id' [CatalogAnswered k id] = 0.
Proof. done. Qed.

Lemma inv_answer s hs k id : Inv s hs -> Inv (with_event (CatalogAnswered k id) s) hs.
Proof.
  intros [Hd Hr Hdc Ho Hdd Hs]. split; simpl; try done.
  - destruct Hd as [? Hsrc ? ? ?]. split; try done. intros c Hc. eapply Forall_impl; [by apply Hsrc|].
    intros e (Hin & ? & ?). split; [|done]. apply in_app_iff. by left.
  - intros id'. rewrite opens_snoc, Ho. simpl. lia.
  - intros i h k' id' Hh E. destruct (Hs i h k' id' Hh E) as [? ?]. split; [|done]. apply in_app_iff. by left.
Qed.

(** The answer of the catalogue is on record, and so is what the thread knows. *)
Definition resolved_ok (h : Held) (key : ArtifactKey) (h' : Held) (r : Result ArtifactSource ResolveError) : Prop :=
  match r with
  | Err _ => True
  | Ok source => h' = know key (identity source) h /\ identity_ok (identity source) /\
      blob_path source = blob (identity source)
  end.

Lemma safe_resolve key h : h_rendition h = None -> h_decode h = None ->
  safe' (fun h' r => h_rendition h' = None /\ h_decode h' = None /\ h_decoding h' = h_decoding h /\ resolved_ok h key h' r) h (resolve key).
Proof.
  intros Hn Hn2. unfold resolve. pool_choice. intros [|]; cbn [negb]; [|done].
  apply pool_bind, pool_move. intros s hs i Hi Hl.
  destruct (cached_source_ok key s (iv_data _ _ Hi)) as (Hd & He & Hf1 & Hf2 & Hsource).
  destruct (cached_source key s) as [[source|] s'] eqn:Ec; simpl in *.
  - destruct (Hsource source eq_refl) as (Hin & Hid & Hblob). exists (know key (identity source) h). split; [|done].
    apply inv_know; [by eapply inv_data| done|by rewrite He|done].
  - exists h. rewrite list_insert_id by done. split; [by eapply inv_data|].
    apply pool_bind. eapply pool_mono; [|apply safe_counter]. intros h' _ ->.
    pool_choice. intros [path| |]; try done.
    destruct (validated_blob_identity path) as [id|] eqn:Ev; [|done]. apply validated_identity in Ev.
    apply pool_bind, pool_move. intros s2 hs2 i2 Hi2 Hl2. exists (know key id h). split.
    { apply inv_know; simpl; [by apply inv_answer|done|apply in_app_iff; right; by left|done]. }
    pool_choice. intros [|]; cbn [negb]; [|done].
    apply pool_bind, pool_keep. intros s3 hs3 i3 Hi3 Hl3. split; [done|]. cbn [fst]. rewrite (d_root _ (iv_data _ _ Hi3)).
    apply pool_bind, pool_keep. intros s4 hs4 i4 Hi4 Hl4. split; [|done]. simpl.
    destruct (iv_sources _ _ Hi4 i4 _ key id Hl4 eq_refl) as [Hin _].
    eapply inv_data; try done.
    + by apply remember_source_ok; [apply (iv_data _ _ Hi4)|].
    + unfold remember_source. by repeat case_match.
    + unfold remember_source. by repeat case_match.
    + unfold remember_source. by repeat case_match.
Qed.

(** *** Build locks *)

Definition slot (t : FlightTable) (h : Held) : option Slot :=
  match t with Renditions => h_rendition h | Decodes => h_decode h end.
Definition set_slot (t : FlightTable) (o : option Slot) (h : Held) : Held :=
  match t with
  | Renditions => mkHeld o (h_decode h) (h_decoding h) (h_source h)
  | Decodes => mkHeld (h_rendition h) o (h_decoding h) (h_source h)
  end.

Lemma inv_flights t s hs : Inv s hs -> flight_inv (flights t s) (map (slot t) hs).
Proof. intros Hi. destruct t; apply Hi. Qed.

Lemma inv_slot t s hs i h f o : Inv s hs -> hs !! i = Some h -> h_decoding h = false ->
  flight_inv f (<[i := o]> (map (slot t) hs)) -> Inv (with_flights t f s) (<[i := set_slot t o h]> hs).
Proof.
  intros [Hd Hr Hdc Ho Hdd Hs] Hi Hn Hf.
  assert (Hsame : forall t', t' <> t -> map (slot t') (<[i := set_slot t o h]> hs) = map (slot t') hs).
  { intros t' Ht. rewrite list_fmap_insert. apply list_insert_id. rewrite list_lookup_fmap, Hi. by destruct t, t'. }
  assert (Hnew : map (slot t) (<[i := set_slot t o h]> hs) = <[i := o]> (map (slot t) hs)).
  { rewrite list_fmap_insert. f_equal. by destruct t. }
  split.
  - by destruct Hd, t.
  - rewrite <- Hnew in Hf. destruct t; [exact Hf|]. specialize (Hsame Renditions ltac:(done)).
    change (flight_inv (rendition_flights s) (map (slot Renditions) (<[i := set_slot Decodes o h]> hs))). by rewrite Hsame.
  - rewrite <- Hnew in Hf. destruct t; [|exact Hf]. specialize (Hsame Decodes ltac:(done)).
    change (flight_inv (decode_flights s) (map (slot Decodes) (<[i := set_slot Renditions o h]> hs))). by rewrite Hsame.
  - intros id. replace (events (with_flights t f s)) with (events s) by (by destruct t).
    rewrite (count_if_insert _ _ _ _ _ Hi), Ho. unfold decodes. destruct t; simpl; rewrite Hn; simpl; lia.
  - intros j h' Hj. apply list_lookup_insert_Some in Hj as [(<- & <- & _)|[_ Hj]]; [|by eapply Hdd].
    destruct t; simpl; congruence.
  - intros j h' k id Hj. replace (events (with_flights t f s)) with (events s) by (by destruct t).
    apply list_lookup_insert_Some in Hj as [(<- & <- & _)|[_ Hj]]; [|by eapply Hs].
    intros E. apply (Hs i h k id Hi). by destruct t.
Qed.

Lemma slot_lookup t hs i h : hs !! i = Some h -> map (slot t) hs !! i = Some (slot t h).
Proof. intros Hi. by rewrite list_lookup_fmap, Hi. Qed.

Lemma safe_build t key h : slot t h = None -> h_decoding h = false ->
  safe' (fun h' g => h' = set_slot t (Some (mkSlot key g false)) h) h (build_lock t key).
Proof.
  intros Hn Hd. apply pool_move. intros s hs i Hi Hl.
  pose proof (flight_build _ _ i key (inv_flights t s hs Hi)) as Hf.
  rewrite (slot_lookup t hs i h Hl), Hn in Hf. specialize (Hf eq_refl).
  destruct (build_lock_section key (flights t s)) as [g f]. simpl in *.
  exists (set_slot t (Some (mkSlot key g false)) h). split; [|done]. by apply inv_slot.
Qed.

Lemma safe_gate_lock t key g h : slot t h = Some (mkSlot key g false) -> h_decoding h = false ->
  (t = Renditions -> h_decode h = None) ->
  safe' (fun h' _ => h' = set_slot t (Some (mkSlot key g true)) h) h (gate_lock t g).
Proof.
  intros Hsl Hd Hr s hs i Hi Hl. pose proof (inv_flights t s hs Hi) as Hf.
  pose proof (slot_lookup t hs i h Hl) as Hsi. rewrite Hsl in Hsi.
  unfold gate_lock_section. destruct (locked (gate_of (flights t s) g)) eqn:El; simpl.
  - pose proof (fi_locked _ _ Hf g) as Hc. rewrite El in Hc. simpl in Hc.
    destruct (count_if_exists (slot_locks g) (map (slot t) hs) ltac:(lia)) as (j & o & Hj & Ho).
    rewrite list_lookup_fmap in Hj. destruct (hs !! j) as [h'|] eqn:Ej; [|done]. injection Hj as <-.
    exists j, h'. split; [done|]. assert (Hlk : holds_lock (slot t h') = true).
    { destruct (slot t h') as [sl|]; [|done]. simpl in *. by apply andb_true_iff in Ho as [_ ?]. }
    unfold rank. destruct t; simpl in *.
    + rewrite (Hr eq_refl), Hsl, Hlk. simpl. destruct (holds_lock (h_decode h')); lia.
    + rewrite Hsl, Hlk. simpl. destruct (holds_lock (h_rendition h)); lia.
  - exists (set_slot t (Some (mkSlot key g true)) h). split; [|done]. apply inv_slot; try done.
    apply (flight_change _ _ i (mkSlot key g false) (Some (mkSlot key g true)) _ true Hf Hsi); simpl.
    + intros sl' [= <-]. done.
    + lia.
    + rewrite El, Nat.eqb_refl. done.
Qed.

Lemma safe_gate_unlock t key g h : slot t h = Some (mkSlot key g true) -> h_decoding h = false ->
  safe' (fun h' _ => h' = set_slot t (Some (mkSlot key g false)) h) h (gate_unlock t g).
Proof.
  intros Hsl Hd. apply pool_move. intros s hs i Hi Hl. pose proof (inv_flights t s hs Hi) as Hf.
  pose proof (slot_lookup t hs i h Hl) as Hsi. rewrite Hsl in Hsi.
  exists (set_slot t (Some (mkSlot key g false)) h). split; [|done]. apply inv_slot; try done.
  apply (flight_change _ _ i (mkSlot key g true) (Some (mkSlot key g false)) _ false Hf Hsi); simpl.
  - intros sl' [= <-]. done.
  - lia.
  - rewrite Nat.eqb_refl. simpl. pose proof (fi_locked _ _ Hf g) as Hc.
    pose proof (count_if_member (slot_locks g) _ _ _ Hsi) as H1. simpl in H1. rewrite Nat.eqb_refl in H1.
    specialize (H1 eq_refl). destruct (locked _); simpl in *; lia.
Qed.

Lemma safe_gate_drop t key g h : slot t h = Some (mkSlot key g false) -> h_decoding h = false ->
  safe' (fun h' _ => h' = set_slot t None h) h (gate_drop t g).
Proof.
  intros Hsl Hd. apply pool_move. intros s hs i Hi Hl. pose proof (inv_flights t s hs Hi) as Hf.
  pose proof (slot_lookup t hs i h Hl) as Hsi. rewrite Hsl in Hsi.
  exists (set_slot t None h). split; [|done]. apply inv_slot; try done.
  apply (flight_change _ _ i (mkSlot key g false) None _ (locked (gate_of (flights t s) g)) Hf Hsi); simpl; [done|done|lia].
Qed.

Lemma set_slot_twice t o o' h : set_slot t o (set_slot t o' h) = set_slot t o h.
Proof. by destruct t. Qed.

Lemma set_slot_id t h : slot t h = None -> set_slot t None h = h.
Proof. by destruct t, h; simpl; intros ->. Qed.

Lemma slot_set t o h : slot t (set_slot t o h) = o.
Proof. by destruct t. Qed.

Lemma safe_with_gate {A} t key h (body : Prog AppState A) (P : A -> Prop) :
  slot t h = None -> h_decoding h = false -> (t = Renditions -> h_decode h = None) ->
  (forall g, safe' (fun h' a => h' = set_slot t (Some (mkSlot key g true)) h /\ P a)
     (set_slot t (Some (mkSlot key g true)) h) body) ->
  safe' (fun h' a => h' = h /\ P a) h (with_gate t key body).
Proof.
  intros Hn Hd Hr Hbody. unfold with_gate.
  assert (Hd' : forall o, h_decoding (set_slot t o h) = false) by (intros o; by destruct t).
  apply pool_bind. eapply pool_mono; [|by apply safe_build]. intros h1 g ->.
  apply pool_bind. eapply pool_mono; [|apply (safe_gate_lock t key g); [apply slot_set|done|]].
  2: { intros ->. simpl. by apply Hr. }
  intros h2 _ ->. rewrite set_slot_twice. apply pool_bind. eapply pool_mono; [|apply Hbody]. intros h3 a [-> Ha].
  apply pool_bind. eapply pool_mono; [|apply (safe_gate_unlock t key g); [apply slot_set|done]]. intros h4 _ ->.
  rewrite set_slot_twice. apply pool_bind.
  eapply pool_mono; [|apply (safe_gate_drop t key g); [apply slot_set|done]]. intros h5 _ ->.
  rewrite set_slot_twice, set_slot_id by done. done.
Qed.

(** *** The caches *)

Lemma memory_lookup_ok key s : data_ok s ->
  data_ok (snd (memory_lookup key s)) /\ events (snd (memory_lookup key s)) = events s /\
  rendition_flights (snd (memory_lookup key s)) = rendition_flights s /\
  decode_flights (snd (memory_lookup key s)) = decode_flights s /\
  forall text, fst (memory_lookup key s) = Some text -> meaning key text.
Proof.
  intros [Hr Hs Hm Hd Hc]. unfold memory_lookup. destruct (memory s) as [c|] eqn:Ec; [|by do 4 (split; [done|])].
  destruct (lru_get_forall _ key c (Hm c Ec)) as [Hall Hf]. destruct (lru_get key c) as [found c']. simpl in *.
  assert (Hok : data_ok (with_memory (Some c') s)) by (split; try done; by intros c'' [= <-]).
  destruct found as [text|]; simpl.
  - split; [by apply data_counter|]. do 3 (split; [done|]). intros text' [= <-]. destruct (Hf text eq_refl) as [n Hn]. done.
  - by do 4 (split; [done|]).
Qed.

Lemma safe_insert_memory key text h : meaning key text -> safe' (fun h' _ => h' = h) h (insert_memory key text).
Proof.
  intros Hm. apply pool_keep. intros s hs i Hi Hl. split; [|done]. eapply inv_data; try done.
  pose proof (iv_data _ _ Hi) as [Hr Hs Hmem Hd Hc]. split; try done. simpl. intros c. destruct (memory s) as [c0|] eqn:E; [|done].
  intros [= <-]. apply lru_insert_forall; [by apply Hmem|done].
Qed.

Lemma safe_cache_get key h : safe' (fun h' r => h' = h /\ forall text, r = Some text -> meaning key text) h (cache_get key).
Proof.
  unfold cache_get. apply pool_bind, pool_keep. intros s hs i Hi Hl.
  destruct (memory_lookup_ok key s (iv_data _ _ Hi)) as (Hd & He & Hf1 & Hf2 & Hm).
  split; [by eapply inv_data|]. destruct (fst (memory_lookup key s)) as [text|].
  { split; [done|]. intros text' [= <-]. by apply Hm. }
  pool_choice. intros readable. apply pool_bind, pool_keep. intros s2 hs2 i2 Hi2 Hl2. split; [done|]. cbn [fst].
  destruct (filter_opt _ _) as [text|] eqn:Ef.
  - assert (Hmean : meaning key text).
    { destruct (disk s2 !! disk_path key) as [text'|] eqn:Ed; [|done]. simpl in Ef.
      destruct (readable && negb (is_empty text')) eqn:Eb; [|done]. injection Ef as <-.
      apply andb_true_iff in Eb as [_ Hne%negb_true_iff]. apply (d_disk _ (iv_data _ _ Hi2)); [done|]. by intros ->. }
    apply pool_bind. eapply pool_mono; [|apply safe_counter]. intros h' _ ->.
    apply pool_bind. eapply pool_mono; [|by apply safe_insert_memory]. intros h' _ ->. split; [done|]. by intros text' [= <-].
  - apply pool_bind. eapply pool_mono; [|apply safe_counter]. intros h' _ ->. done.
Qed.

Lemma safe_is_file path h : safe' (fun h' _ => h' = h) h (is_file path).
Proof. unfold is_file. pool_choice. intros b. apply pool_bind, pool_keep. done. Qed.

Lemma safe_store key text h : meaning key text -> safe' (fun h' _ => h' = h) h (store key text).
Proof.
  intros Hm. unfold store. pool_choice. intros [|]; cbn [negb]; [|done].
  apply pool_bind. eapply pool_mono; [|apply safe_is_file]. intros h1 there ->.
  apply pool_bind. apply (pool_mono _ _ _ (fun h' _ => h' = h)).
  - intros h2 [|] ->; [|done]. apply pool_bind. eapply pool_mono; [|by apply safe_insert_memory]. by intros h3 _ ->.
  - destruct there; [done|]. pool_choice. intros [|]; cbn [negb]; [|done]. pool_choice. intros [|]; [|apply safe_is_file].
    apply pool_bind, pool_keep. intros s hs i Hi Hl. split; [|done]. eapply inv_data; try done.
    pose proof (iv_data _ _ Hi) as [Hr Hs Hmem Hd Hc]. split; try done. simpl. intros key' text' Hl' Hne.
    simpl in Hl'. destruct (decide (disk_path key = disk_path key')) as [E|E].
    + apply disk_path_inj in E as <-. rewrite lookup_insert_eq in Hl'. by injection Hl' as <-.
    + rewrite lookup_insert_ne in Hl' by done. by apply (Hd key').
Qed.

(** *** Decoding *)

Lemma decoded_lookup_ok key s : data_ok s ->
  data_ok (snd (decoded_lookup key s)) /\ events (snd (decoded_lookup key s)) = events s /\
  rendition_flights (snd (decoded_lookup key s)) = rendition_flights s /\
  decode_flights (snd (decoded_lookup key s)) = decode_flights s /\
  forall image, fst (decoded_lookup key s) = Some image -> decode_file (blob key) = Some image.
Proof.
  intros [Hr Hs Hm Hd Hc]. unfold decoded_lookup. destruct (decoded s) as [c|] eqn:Ec; [|by do 4 (split; [done|])].
  destruct (lru_get_forall _ key c (Hc c Ec)) as [Hall Hf]. destruct (lru_get key c) as [found c']. simpl in *.
  assert (Hok : data_ok (with_decoded (Some c') s)) by (split; try done; by intros c'' [= <-]).
  destruct found as [image|]; simpl.
  - split; [by apply data_counter|]. do 3 (split; [done|]). intros image' [= <-]. destruct (Hf image eq_refl) as [n Hn]. done.
  - by do 4 (split; [done|]).
Qed.

Lemma safe_decoded_lookup id h :
  safe' (fun h' r => h' = h /\ forall image, r = Some image -> decode_file (blob id) = Some image) h (atomically (decoded_lookup id)).
Proof.
  apply pool_keep. intros s hs i Hi Hl. destruct (decoded_lookup_ok id s (iv_data _ _ Hi)) as (Hd & He & Hf1 & Hf2 & Hm).
  split; [by eapply inv_data|done].
Qed.

Definition decoding (b : bool) (h : Held) : Held := mkHeld (h_rendition h) (h_decode h) b (h_source h).

(** A decoding begins or ends under the lock of its image. *)
Lemma inv_decoding s hs i h b id g : Inv s hs -> hs !! i = Some h -> h_decode h = Some (mkSlot id g true) ->
  h_decoding h = negb b ->
  Inv (with_event (if b then DecodeBegun id else DecodeEnded id) s) (<[i := decoding b h]> hs).
Proof.
  intros [Hd Hr Hdc Ho Hdd Hs] Hi Hsl Hb.
  assert (E1 : map h_rendition (<[i := decoding b h]> hs) = map h_rendition hs).
  { rewrite list_fmap_insert. apply list_insert_id. by rewrite list_lookup_fmap, Hi. }
  assert (E2 : map h_decode (<[i := decoding b h]> hs) = map h_decode hs).
  { rewrite list_fmap_insert. apply list_insert_id. by rewrite list_lookup_fmap, Hi. }
  assert (Hlog : forall k id', In (CatalogAnswered k id') (events s) ->
    In (CatalogAnswered k id') (events s ++ [if b then DecodeBegun id else DecodeEnded id])).
  { intros k id' Hin. apply in_app_iff. by left. }
  split; simpl; rewrite ?E1, ?E2; try done.
  - destruct Hd as [? Hsrc ? ? ?]. split; try done. intros c Hc. eapply Forall_impl; [by apply Hsrc|].
    intros e (Hin & ? & ?). split; [by apply Hlog|done].
  - intros id'. rewrite opens_snoc, (count_if_insert _ _ _ _ _ Hi), Ho. unfold decodes, decoding. simpl. rewrite Hsl, Hb.
    destruct b; simpl; destruct (id == id'); simpl; lia.
  - intros j h' Hj. apply list_lookup_insert_Some in Hj as [(<- & <- & _)|[_ Hj]]; [|by eapply Hdd]. simpl. by rewrite Hsl.
  - intros j h' k' id' Hj. apply list_lookup_insert_Some in Hj as [(<- & <- & _)|[_ Hj]]; simpl; intros E.
    + destruct (Hs i h k' id' Hi E) as [? ?]. split; [by apply Hlog|done].
    + destruct (Hs j h' k' id' Hj E) as [? ?]. split; [by apply Hlog|done].
Qed.

Lemma safe_decode_event b id g h : h_decode h = Some (mkSlot id g true) -> h_decoding h = negb b ->
  safe' (fun h' _ => h' = decoding b h) h (updating (with_event (if b then DecodeBegun id else DecodeEnded id))).
Proof. intros Hsl Hb. apply pool_move. intros s hs i Hi Hl. exists (decoding b h). split; [by eapply inv_decoding|done]. Qed.

Lemma safe_decode path h : safe' (fun h' r => h' = h /\ forall image, r = Some image -> decode_file path = Some image) h (decode path).
Proof. unfold decode. pool_choice. by intros [|]. Qed.

Lemma safe_remember_image id image h : decode_file (blob id) = Some image ->
  safe' (fun h' _ => h' = h) h
    (updating (fun s => with_decoded (option_map (lru_insert id image (image_bytes image)) (decoded s)) s)).
Proof.
  intros Hm. apply pool_keep. intros s hs i Hi Hl. split; [|done]. eapply inv_data; try done.
  pose proof (iv_data _ _ Hi) as [Hr Hs Hmem Hd Hc]. split; try done. simpl. intros c. destruct (decoded s) as [c0|] eqn:E; [|done].
  intros [= <-]. apply lru_insert_forall; [by apply Hc|done].
Qed.

(** A loaded image is the decoding of its blob. *)
Definition loaded_ok (id : string) (r : option (Image * string)) : Prop :=
  forall image status, r = Some (image, status) -> decode_file (blob id) = Some image.

Lemma decoding_back b h : h_decoding h = b -> forall b', decoding b (decoding b' h) = h.
Proof. destruct h; simpl. by intros <-. Qed.

Lemma safe_load id h : h_decode h = None -> h_decoding h = false ->
  safe' (fun h' r => h' = h /\ loaded_ok id r) h (load id (blob id)).
Proof.
  intros Hn Hd. unfold load. apply pool_bind. eapply pool_mono; [|apply safe_decoded_lookup].
  intros h0 [image|] [-> Hok]. { split; [done|]. intros image' status [= <- _]. by apply Hok. }
  apply safe_with_gate; try done. intros g. set (h1 := set_slot Decodes _ h).
  apply pool_bind. eapply pool_mono; [|apply safe_decoded_lookup].
  intros h2 [image|] [-> Hok']. { split; [done|]. intros image' status [= <- _]. by apply Hok'. }
  apply pool_bind. eapply pool_mono; [|apply safe_counter]. intros h2 _ ->.
  apply pool_bind. eapply pool_mono; [|by apply (safe_decode_event true id g)]. intros h2 _ ->.
  apply pool_bind. eapply pool_mono; [|apply safe_decode]. intros h2 r [-> Hr].
  apply pool_bind. eapply pool_mono; [|by apply (safe_decode_event false id g)]. intros h2 _ ->.
  rewrite decoding_back by done. destruct r as [image|]; [|done].
  apply pool_bind. eapply pool_mono; [|apply safe_remember_image; by apply Hr]. intros h2 _ ->.
  split; [done|]. intros image' status [= <- _]. by apply Hr.
Qed.

(** *** Requests *)

Lemma safe_render source limit h p : h_decode h = None -> h_decoding h = false -> blob_path source = blob (identity source) ->
  limit = bounds p ->
  safe' (fun h' r => h' = h /\ forall x, r = Ok x -> preview_of (identity source) p (ri_bytes x)) h
    (render_contained_jpeg source limit).
Proof.
  intros Hn Hd Hb ->. unfold render_contained_jpeg. rewrite Hb. apply pool_bind. eapply pool_mono; [|by apply safe_load].
  intros h' [[image status]|] [-> Hok]; [|done]. specialize (Hok image status eq_refl).
  destruct (contained image (bounds p)) as [[picture size] mode] eqn:E. split; [done|].
  destruct (jpeg picture) as [text|] eqn:Ej; [|done]. intros x [= <-]. exists image. by rewrite E.
Qed.

Lemma safe_render_tile id level x y h :
  safe' (fun h' r => h' = h /\ forall text, r = Ok (Some text) -> tile_text id level x y text) h
    (render_tile_jpeg (blob id) level x y).
Proof.
  unfold render_tile_jpeg. apply pool_bind. eapply pool_mono; [|apply safe_decode]. intros h' [image|] [-> Hok]; [|done].
  split; [done|]. specialize (Hok image eq_refl). destruct (tile_of image level x y TILE_SIZE) as [tile|] eqn:Et; [|done].
  destruct (jpeg tile) as [text|] eqn:Ej; [|done]. intros text' [= <-]. by exists image, tile.
Qed.

Definition preview_errors : list Response :=
  [error_json 503 "catalog_unavailable"; error_json 404 "artifact_not_found"; error_json 422 "artifact_reference_invalid";
   error_json 422 "image_decode_failed"; error_json 422 "preview_encode_failed"].

Definition tile_errors : list Response :=
  [error_json 503 "catalog_unavailable"; error_json 404 "artifact_not_found"; error_json 422 "artifact_reference_invalid";
   error_json 422 "image_decode_failed"; error_json 404 "tile_not_found"; error_json 422 "tile_encode_failed"].

(** What a preview request may be answered, given which identities the artifact has had. *)
Definition preview_answer (has : ArtifactKey -> string -> Prop) (params : gmap string string) (if_none_match : string)
    (response : Response) : Prop :=
  match preview_request params with
  | Err refusal => response = refusal
  | Ok r =>
      In response preview_errors \/
      exists id text status rendered timing,
        has (pr_key r) id /\ preview_of id (pr_profile r) text /\
        let revision := unwrap_or (pr_revision r) id in
        response = preview_response text (rendition_key digest id revision (pr_key r) (pr_color_mode r) (pr_profile r))
          if_none_match (if pr_live r then "no-store" else "public, max-age=31536000, immutable")
          (pr_profile r) revision status rendered timing
  end.

Definition tile_answer (has : ArtifactKey -> string -> Prop) (params : gmap string string) (if_none_match : string)
    (response : Response) : Prop :=
  match tile_request params with
  | None => response = error_json 400 "recordId_required"
  | Some r =>
      In response tile_errors \/
      exists id text, has (tr_key r) id /\ tile_text id (tr_level r) (tr_x r) (tr_y r) text /\
        response = tile_response text (digest (tile_material id (tr_level r) (tr_x r) (tr_y r))) if_none_match
  end.

Definition image_answer (has : ArtifactKey -> string -> Prop) (request : Request) (response : Response) : Prop :=
  rq_method request = "GET" ->
  (In (rq_path request) ["/api/preview"; "/internal/v1/preview"] ->
     preview_answer has (rq_query request) (rq_if_none_match request) response) /\
  (In (rq_path request) ["/api/tile"; "/internal/v1/tile"] ->
     tile_answer has (rq_query request) (rq_if_none_match request) response).

Lemma image_answer_mono (has has' : ArtifactKey -> string -> Prop) request response :
  (forall key id, has key id -> has' key id) -> image_answer has request response -> image_answer has' request response.
Proof.
  intros Hh Ha Hm. specialize (Ha Hm) as [Hp Ht]. split; intros Hin.
  - specialize (Hp Hin). unfold preview_answer in *. destruct (preview_request _) as [r|]; [|done].
    destruct Hp as [He|(id & text & status & rendered & timing & Hid & Hrest)]; [by left|]. right. eauto 10.
  - specialize (Ht Hin). unfold tile_answer in *. destruct (tile_request _) as [r|]; [|done].
    destruct Ht as [He|(id & text & Hid & Hrest)]; [by left|]. right. eauto 10.
Qed.

(** A thread is done: it holds nothing, and what it answered is about the source it was given. *)
Definition knows (h : Held) (key : ArtifactKey) (id : string) : Prop := h_source h = Some (key, id).
Definition idle (h : Held) : Prop := h_rendition h = None /\ h_decode h = None /\ h_decoding h = false.

Lemma safe_remember_status key r h : meaning key (ri_bytes r) -> forall live : bool,
  safe' (fun h' _ => h' = h) h
    (if live then Ret "bypass"
     else let~ stored := store key (ri_bytes r) in
          if stored : bool then Ret "miss" else let~ _ := insert_memory key (ri_bytes r) in Ret "miss-memory-only").
Proof.
  intros Hm [|]; [done|]. apply pool_bind. eapply pool_mono; [|by apply safe_store]. intros h' [|] ->; [done|].
  apply pool_bind. eapply pool_mono; [|by apply safe_insert_memory]. by intros h' _ ->.
Qed.

Lemma safe_cached_unless (live : bool) key h :
  safe' (fun h' r => h' = h /\ forall text, r = Some text -> meaning key text) h (if live then Ret None else cache_get key).
Proof. destruct live; [done|apply safe_cache_get]. Qed.

Section Preview.
(** A preview request and the source found for it. *)
Variable r : PreviewRequest.
Variable source : ArtifactSource.
Variable if_none_match : string.
Hypothesis id_ok : identity_ok (identity source).
Hypothesis path_ok : blob_path source = blob (identity source).
Let id := identity source.
Let revision := unwrap_or (pr_revision r) id.
Let key := rendition_key digest id revision (pr_key r) (pr_color_mode r) (pr_profile r).
Let cache_control := if pr_live r then "no-store" else "public, max-age=31536000, immutable".

Definition preview_built (response : Response) : Prop :=
  In response preview_errors \/
  exists text status rendered timing, preview_of id (pr_profile r) text /\
    response = preview_response text key if_none_match cache_control (pr_profile r) revision status rendered timing.

Lemma safe_preview_response text status rendered h : preview_of id (pr_profile r) text ->
  safe' (fun h' a => h' = h /\ preview_built a) h
    (let~ timing := choose string in
     Ret (preview_response text key if_none_match cache_control (pr_profile r) revision status rendered timing)).
Proof. intros Ht. pool_choice. intros timing. split; [done|]. right. by exists text, status, rendered, timing. Qed.

Lemma safe_build_preview h : h_decode h = None -> h_decoding h = false ->
  safe' (fun h' a => h' = h /\ preview_built a) h (build_preview r source key if_none_match cache_control revision).
Proof.
  intros Hn Hd. unfold build_preview. apply pool_bind. eapply pool_mono; [|apply safe_cached_unless].
  intros h' [text|] [-> Hm]; [by apply safe_preview_response, (meaning_preview _ revision (pr_key r) (pr_color_mode r)), Hm|].
  apply pool_bind. eapply pool_mono; [|by apply (safe_render source _ h (pr_profile r))].
  intros h' [x|e] [-> Hx]; [|destruct e; (split; [done|]; left; simpl; auto 10)].
  apply pool_bind. eapply pool_mono; [|apply safe_remember_status].
  - intros h' status ->. by apply safe_preview_response, Hx.
  - left. exists id, revision, (pr_key r), (pr_color_mode r), (pr_profile r). eauto.
Qed.
End Preview.

Lemma safe_serve_preview params if_none_match h : idle h ->
  safe' (fun h' a => idle h' /\ preview_answer (knows h') params if_none_match a) h (serve_preview digest params if_none_match).
Proof.
  intros (Hn1 & Hn2 & Hn3). unfold serve_preview, preview_answer. destruct (preview_request params) as [r|]; [|done].
  apply pool_bind. eapply pool_mono; [|by apply safe_resolve].
  intros h' [source|e] (E1 & E2 & E3 & Hres); [|split; [split; [done|split; congruence]|left; destruct e; simpl; auto]].
  destruct Hres as (Hk & Hid & Hblob). rewrite Hn3 in E3.
  assert (Hend : forall h2 a, h2 = h' /\ preview_built r source if_none_match a -> idle h2 /\
    (In a preview_errors \/ exists id text status rendered timing, knows h2 (pr_key r) id /\ preview_of id (pr_profile r) text /\
       let revision := unwrap_or (pr_revision r) id in
       a = preview_response text (rendition_key digest id revision (pr_key r) (pr_color_mode r) (pr_profile r))
          if_none_match (if pr_live r then "no-store" else "public, max-age=31536000, immutable")
          (pr_profile r) revision status rendered timing)).
  { intros h2 a [-> [Ha|(text & status & rendered & timing & Ha)]]; split; try done; [by left|].
    right. exists (identity source), text, status, rendered, timing. split; [by rewrite Hk|done]. }
  apply pool_bind. eapply pool_mono; [|apply safe_cached_unless]. intros h2 [text|] [-> Hm].
  - eapply pool_mono; [apply Hend|]. apply safe_preview_response.
    by apply (meaning_preview _ (unwrap_or (pr_revision r) (identity source)) (pr_key r) (pr_color_mode r)), Hm.
  - eapply pool_mono; [apply Hend|]. apply safe_with_gate; try done. intros g. apply (safe_build_preview r source if_none_match); done.
Qed.

Lemma tile_request_bounds params r : tile_request params = Some r -> 0 <= tr_level r /\ 0 <= tr_x r.
Proof.
  unfold tile_request. destruct (param _ _ _); [|done]. intros [= <-]. simpl.
  assert (Hn : forall name, 0 <= unwrap_or (match params !! name with Some value => parse_u32 value | None => None end) 0).
  { intros name. destruct (params !! name) as [value|]; [|done]. destruct (parse_u32 value) as [v|] eqn:E; [|done].
    apply parse_unsigned_range in E; [simpl; lia|done]. }
  split; [|apply Hn]. unfold MAX_TILE_LEVEL. pose proof (Hn "level"). simpl in *. lia.
Qed.

Lemma safe_serve_tile params if_none_match h : idle h ->
  safe' (fun h' a => idle h' /\ tile_answer (knows h') params if_none_match a) h (serve_tile digest params if_none_match).
Proof.
  intros (Hn1 & Hn2 & Hn3). unfold serve_tile, tile_answer. destruct (tile_request params) as [r|] eqn:Er; [|done].
  apply tile_request_bounds in Er as [Hlevel Hx]. apply pool_bind. eapply pool_mono; [|by apply safe_resolve].
  intros h' [source|e] (E1 & E2 & E3 & Hres); [|split; [split; [done|split; congruence]|left; destruct e; simpl; auto]].
  destruct Hres as (Hk & Hid & Hblob). rewrite Hn3 in E3.
  assert (Hend : forall text, tile_text (identity source) (tr_level r) (tr_x r) (tr_y r) text ->
    idle h' /\ (In (tile_response text (digest (tile_material (identity source) (tr_level r) (tr_x r) (tr_y r))) if_none_match) tile_errors \/
    exists id text', knows h' (tr_key r) id /\ tile_text id (tr_level r) (tr_x r) (tr_y r) text' /\
      tile_response text (digest (tile_material (identity source) (tr_level r) (tr_x r) (tr_y r))) if_none_match =
      tile_response text' (digest (tile_material id (tr_level r) (tr_x r) (tr_y r))) if_none_match)).
  { intros text Ht. split; [done|]. right. exists (identity source), text. split; [by rewrite Hk|done]. }
  apply pool_bind. eapply pool_mono; [|apply safe_cache_get]. intros h2 [text|] [-> Hm]; [by apply Hend, meaning_tile, Hm|].
  rewrite Hblob. apply pool_bind. eapply pool_mono; [|apply (safe_render_tile (identity source))].
  intros h2 [[text|]|e] [-> Ht]; [|split; [done|]; left; simpl; auto 10|destruct e; (split; [done|]; left; simpl; auto 10)].
  apply pool_bind. eapply pool_mono; [|apply safe_insert_memory].
  - intros h2 _ ->. by apply Hend, Ht.
  - right. exists (identity source), (tr_level r), (tr_x r), (tr_y r). auto 10.
Qed.

(** *** The server *)

Definition request_ended (request : Request) (h : Held) (response : Response) : Prop :=
  idle h /\ image_answer (knows h) request response.

Lemma safe_status_document h : safe' (fun h' _ => h' = h) h (status_document limits).
Proof.
  unfold status_document. destruct limits as [[e d] c]. pool_choice. intros ready.
  apply pool_bind, pool_keep. intros s hs i Hi Hl. split; [done|].
  apply pool_bind, pool_keep. intros s2 hs2 i2 Hi2 Hl2. done.
Qed.

Lemma route_other request h response : one_of (rq_path request) ["/api/preview"; "/internal/v1/preview"] = false ->
  one_of (rq_path request) ["/api/tile"; "/internal/v1/tile"] = false -> image_answer (knows h) request response.
Proof. intros Hp Ht _. split; intros Hin%one_of_In; congruence. Qed.

Lemma safe_route request h : idle h -> safe' (request_ended request) h (image_route digest limits request).
Proof.
  intros Hidle.
  unfold image_route. destruct (rq_method request == "GET") eqn:Em; cbn [negb].
  2: { split; [done|]. intros E. by rewrite E in Em. }
  destruct (one_of _ ["/api/health/live"; "/health"]) eqn:E1.
  { split; [done|]. apply one_of_In in E1 as [E|[E|[]]]; apply route_other; by rewrite <- E. }
  destruct (String.eqb_spec (rq_path request) "/internal/v1/status") as [E|_].
  { eapply pool_mono; [|apply safe_status_document]. intros h' a ->. split; [done|]. apply route_other; by rewrite E. }
  destruct (one_of _ ["/api/preview"; "/internal/v1/preview"]) eqn:E2.
  { eapply pool_mono; [|by apply safe_serve_preview]. intros h2 a [Hi Ha]. split; [done|]. intros _. split; [done|].
    intros Hin. exfalso. apply one_of_In in E2. simpl in *. intuition congruence. }
  destruct (one_of _ ["/api/tile"; "/internal/v1/tile"]) eqn:E3.
  { eapply pool_mono; [|by apply safe_serve_tile]. intros h2 a [Hi Ha]. split; [done|]. intros _. split; [|done].
    intros Hin%one_of_In. congruence. }
  split; [done|]. by apply route_other.
Qed.

(** The state the service starts with: empty caches and tables, and on disk what an earlier run left. *)
Record fresh_service (s : AppState) : Prop := {
  fs_root : result_root s = root;
  fs_sources : forall c, sources s = Some c -> entries (source_entries c) = [];
  fs_memory : forall c, memory s = Some c -> recency c = [];
  fs_disk : disk_ok s;
  fs_decoded : forall c, decoded s = Some c -> recency c = [];
  fs_renditions : rendition_flights s = no_flights;
  fs_decodes : decode_flights s = no_flights;
  fs_events : events s = [];
}.

Lemma fresh_flights : flight_inv no_flights [].
Proof. split; try done. Qed.

Lemma fresh_inv s : fresh_service s -> Inv s [].
Proof.
  intros [Hroot Hsrc Hm Hd Hdec Hr Hdf He]. split; rewrite ?Hr, ?Hdf, ?He; try apply fresh_flights; try done.
  split; try done.
  - intros c Hc. by rewrite (Hsrc c Hc).
  - intros c Hc. by rewrite (Hm c Hc).
  - intros c Hc. by rewrite (Hdec c Hc).
Qed.

Lemma inv_start s hs : Inv s hs -> Inv s (hs ++ [nothing]).
Proof.
  intros [Hd Hr Hdc Ho Hdd Hs]. split; rewrite ?map_app; simpl; try done; try by apply flight_start.
  - intros id. rewrite count_if_app, Ho. simpl. lia.
  - intros i h [Hi|[_ Hi]]%lookup_app_Some; [by eapply Hdd|]. by destruct (i - length hs)%nat as [|[|]]; simplify_eq/=.
  - intros i h k id [Hi|[_ Hi]]%lookup_app_Some; [by eapply Hs|]. by destruct (i - length hs)%nat as [|[|]]; simplify_eq/=.
Qed.

(** The threads of the service, whatever they were asked and however they interleave. *)
Definition service_reaches (s : AppState) (pool : Pool) : Prop :=
  rtc (pool_step (image_route digest limits)) (mkPool s []) pool.

Lemma service_safe s pool : fresh_service s -> service_reaches s pool ->
  pool_safe Inv rank (fun request h response => request_ended request h response) pool.
Proof.
  intros Hs Hr. eapply (pool_reachable_safe _ nothing); [apply inv_start|intros r; by apply safe_route|by apply fresh_inv|done].
Qed.

(** C28. Previews and tiles. In every run of the service, with requests interleaved in any way and
    whatever the catalogue, the disk and the caches do, the answer to a preview or tile request is
    what the request is refused for, one of the error documents, or the JPEG rendition of the
    requested profile (the requested tile) of an image that the catalogue named for the very artifact
    asked for, under the entity tag of that rendition. It never is the rendition of another artifact,
    size or place, from whichever cache it came. The digest is supposed to be free of collisions. *)
Theorem preview_coherent (s : AppState) (pool : Pool) (i : nat) (request : Request) (response : Response) :
  fresh_service s -> service_reaches s pool -> threads pool !! i = Some (request, Ret response) ->
  image_answer (fun key id => In (CatalogAnswered key id) (events (shared pool))) request response.
Proof.
  intros Hs Hr Hi. destruct (service_safe s pool Hs Hr) as (hs & Hinv & Hts).
  destruct (Forall2_lookup_l _ _ _ _ _ Hts Hi) as (h & Hh & [_ Ha]). simpl in Ha.
  eapply image_answer_mono; [|exact Ha]. intros key id Hk. by apply (iv_sources _ _ Hinv i h key id).
Qed.

(** C29. Single flight. In every run of the service, at most one decoding of an image for the decoded
    cache is under way at any time, however many requests ask for it. The digest is supposed to be free of
    collisions. *)
Theorem decode_single_flight (s : AppState) (pool : Pool) (id : string) :
  fresh_service s -> service_reaches s pool -> 0 <= opens id (events (shared pool)) <= 1.
Proof.
  intros Hs Hr. destruct (service_safe s pool Hs Hr) as (hs & Hinv & _). by eapply opens_at_most_one.
Qed.

(** *** Connections *)

(** What the requests of a connection are, read one after the other until it is closed: a request, one that
    cannot be read, or [None] where the query decoder panics. *)
Fixpoint incoming (n : nat) (socket : list SocketRead) : list (option (Result Request string)) :=
  match n with
  | O => []
  | S n' =>
      match read_request_go "" socket with
      | (None, _) => [None]
      | (Some (Ok None), _) => []
      | (Some (Err error), _) => [Some (Err error)]
      | (Some (Ok (Some request)), rest) => Some (Ok request) :: if rq_connection_close request then [] else incoming n' rest
      end
  end.

(** The answer to one of them. *)
Definition responds (read : option (Result Request string)) (sent : string) : Prop :=
  match read with
  | Some (Ok request) => exists response close, sent = write_to response close /\ image_answer (fun _ _ => True) request response
  | Some (Err error) => sent = write_to (error_json 400 error) true
  | None => False
  end.

(** The first requests of a connection are answered in their order; there is an answer if there is a request. *)
Definition conversed (n : nat) (socket : list SocketRead) (written : list string) : Prop := exists seen rest,
  incoming n socket = seen ++ rest /\ Forall2 responds seen written /\ (seen = [] -> rest = []).

Definition connection_ended (n : nat) (socket : list SocketRead) (h : Held) (outcome : option (list string)) : Prop :=
  idle h /\ match outcome with Some written => conversed n socket written | None => None ∈ incoming n socket end.

Lemma safe_connection n : forall socket h, idle h ->
  safe' (connection_ended n socket) h (caught (image_handle_client digest limits n socket)).
Proof.
  unfold connection_ended, conversed.
  induction n as [|n IH]; intros socket h Hh; cbn [image_handle_client incoming]; [split; [done|by exists [], []]|].
  destruct (read_request_go "" socket) as [[[[request|]|error]|] rest].
  2:{ split; [done|by exists [], []]. }
  2:{ split; [done|]. exists [Some (Err error)], []. split_and!; [done|by constructor|done]. }
  2:{ split; [done|]. by apply list_elem_of_singleton. }
  cbv zeta. apply safe_caught_bind. eapply pool_mono; [|by apply safe_caught, safe_route].
  intros h1 r (response & -> & Hh1 & Ha). apply safe_caught_bind. cbn [caught choose]. split; [constructor; exact true|]. intros written. apply safe_ret.
  assert (Hone : forall close, responds (Some (Ok request)) (write_to response close)).
  { intros close. exists response, close. split; [done|]. by eapply image_answer_mono; [|exact Ha]. }
  cbv beta iota. destruct (negb written || (rq_connection_close request || Nat.eqb n 0))%bool eqn:Ec.
  { split; [done|]. eexists [Some (Ok request)], _. split_and!; [done|by constructor|done]. }
  apply orb_false_iff in Ec as [_ [Ec _]%orb_false_iff]. rewrite Ec. apply safe_caught_bind.
  eapply pool_mono; [|by apply IH]. intros h2 [more|] [Hh2 Hmore]; [|split; [done|by right]].
  destruct Hmore as (seen & left & -> & Hseen & _). split; [done|]. exists (Some (Ok request) :: seen), left. split_and!; [done|by constructor|done].
Qed.

(** The workers, each with the connection it has taken. *)
Definition connections_reach (n : nat) (s : AppState) (pool : Pool) : Prop :=
  rtc (pool_step (image_handle_client digest limits n)) (mkPool s []) pool.

(** C30. Every connection is served. From every state the service can reach, whatever connections its workers
    have taken and whatever they carry (up to [n] requests each, 256 in the code), the workers come to an
    end if no connection is added; where they end none is waiting for a build lock of renditions or of
    decodings. A worker has then answered the first requests of its connection in their order, each with
    the error document of a request that cannot be read or with an answer that fits the request, and at
    least one where there is one (it stops early when a write fails); or it has panicked, and then the
    query decoder panicked on a request of this very connection. Nothing else panics. *)
Theorem image_service_answers (n : nat) (s : AppState) (pool : Pool) :
  fresh_service s -> connections_reach n s pool ->
  Acc (fun y x => pool_run x y) pool /\
  forall last, rtc pool_run pool last -> (forall next, ~ pool_run last next) ->
    Forall (fun t => (exists written, snd t = Ret written /\ conversed n (fst t) written) \/
                     snd t = Panicked /\ None ∈ incoming n (fst t)) (threads last).
Proof.
  intros Hs Hr. split; [apply pool_run_wf|]. intros last Hrun Hend.
  assert (Hlast : connections_reach n s last).
  { unfold connections_reach in *. etrans; [done|]. eapply rtc_subrel; [|done]. apply pool_run_step. }
  eapply Forall_impl; [eapply (caught_ends Inv rank _ nothing (connection_ended n)); try done|].
  - apply inv_start.
  - intros socket. by apply safe_connection.
  - intros socket h a [(E1 & E2 & _) _]. unfold rank. by rewrite E1, E2.
  - by apply fresh_inv.
  - intros [socket p] [(written & h & -> & _ & Hc)|(-> & h & _ & Hc)]; [left; by exists written|by right].
Qed.

End System.

(** ** A request that costs a worker *)

(** The query decoder slices inside a character and panics; nothing catches it, so the worker thread
    that took the connection is gone, and each such request takes one more. *)
Theorem image_query_panics `{JsonCodec} `{ImageCodec} `{!LinkedHashMap ArtifactKey ArtifactSource}
    `{!LinkedHashMap string (string * Z)} `{!LinkedHashMap string (Image * Z)} (digest : string -> string)
    (limits : Z * Z * Z) (n : nat) (rest : list SocketRead) :
  let text := "GET /health?a=%aé HTTP/1.1" +:+ blank_line in
  utf8_valid text = true /\ image_handle_client digest limits (S n) (SocketBytes text :: rest) = Panicked.
Proof.
  intros text. split; [vm_compute; reflexivity|]. cbn [image_handle_client]. unfold read_request_go.
  assert (Hc : request_is_complete ("" +:+ text) = true) by (vm_compute; reflexivity).
  assert (Hp : parse_request ("" +:+ text) = None) by (vm_compute; reflexivity).
  by rewrite Hc, Hp.
Qed.

(** ** A run *)

Module ImageRun.

(** One picture of one pixel, whose JPEG is its text. *)
#[local] Instance one_pixel : ImageCodec := {|
  Image := string;
  image_width := fun _ => 1;
  image_height := fun _ => 1;
  channel_count := fun _ => 1;
  image_bytes := fun _ => 1;
  decode_file := Some;
  resize_exact := fun image _ _ => image;
  thumbnail_exact := fun image _ _ => image;
  resize_fit := fun image _ _ => image;
  crop_imm := fun image _ _ _ _ => image;
  jpeg := Some;
|}.

#[local] Instance plain_codec : JsonCodec := {| json_print := fun _ => "{}"; json_parse := fun _ => None |}.

Definition hash64 : string := "0123456789abcdef0123456789abcdef0123456789abcdef0123456789abcdef".

Definition start : AppState := mkAppState "/data" (Some (mkSourceCache 8 [])) (Some (lru_new 1000)) ∅ no_flights
  (Some (lru_new 1000)) no_flights (mkCounters 0 0 0 0 0 0 0) [].

Definition request : Request := mkRequest "GET" "/api/preview" {["recordId" := "r1"; "live" := "1"]} "" false.

Lemma start_fresh : fresh_service id "/data" start.
Proof. split; try done; by intros c [= <-]. Qed.

Abbreviation route := (image_route id (1000, 1000, 8)).

Ltac step_section := first [eapply runs_atomically|eapply runs_section]; [vm_compute; reflexivity|cbv beta iota].
Ltac step_choice b := apply (runs_choose b); cbv beta iota; cbn [negb].

Definition the_key : ArtifactKey := mkArtifactKey "r1" "C1" 0 "intensity".
Definition the_preview : PreviewRequest := mkPreviewRequest the_key "gray" Md true None.

Lemma route_preview : route request = serve_preview id (rq_query request) "".
Proof. reflexivity. Qed.

Lemma preview_parsed : preview_request (rq_query request) = Ok the_preview.
Proof. vm_compute. reflexivity. Qed.

Ltac step_ret := change (prog_bind (Ret ?a) ?f) with (f a); cbv beta iota zeta.

(** The request is on its way, its image being decoded; then it is answered with the picture. *)
Lemma request_runs : exists s p s' response,
  runs start (route request) s p /\ opens hash64 (events s) = 1 /\
  runs s p s' (Ret response) /\ rs_body response = "/data/blobs/" +:+ hash64.
Proof.
  do 4 eexists. split; [|split; [|split]].
  - rewrite route_preview. unfold serve_preview. rewrite preview_parsed. eapply runs_bind.
    + unfold resolve. step_choice true. step_section. step_section. step_choice (CatalogPath ("blobs/" +:+ hash64)).
      change (validated_blob_identity _) with (Some hash64). cbv iota. step_section. step_choice true. step_section. step_section.
      apply RunsHere.
    + step_ret. cbn [pr_live the_preview]. step_ret. unfold with_gate. step_section. step_section.
      eapply runs_bind; [|apply RunsHere]. unfold build_preview. cbn [pr_live the_preview]. step_ret.
      eapply runs_bind; [|apply RunsHere]. unfold render_contained_jpeg. eapply runs_bind; [|apply RunsHere].
      unfold load. step_section. unfold with_gate. step_section. step_section.
      eapply runs_bind; [|apply RunsHere]. step_section. step_section. step_section. apply RunsHere.
  - vm_compute. reflexivity.
  - eapply runs_bind; [eapply runs_bind; [eapply runs_bind; [eapply runs_bind|]|]|].
    + eapply runs_bind; [unfold decode; step_choice true; apply RunsHere|]. step_ret.
      cbn [decode_file one_pixel]. step_section. cbv iota. step_section. apply RunsHere.
    + step_ret. step_section. step_section. apply RunsHere.
    + step_ret. change (contained _ _) with ("/data/blobs/" +:+ hash64, (1, 1), "identity"). cbn [jpeg one_pixel].
      apply RunsHere.
    + step_ret. cbn [pr_live the_preview]. step_ret. step_choice "total;dur=1". apply RunsHere.
    + step_ret. step_section. step_section. apply RunsHere.
  - vm_compute. reflexivity.
Qed.

Lemma reaches_of_run s p : runs start (route request) s p -> service_reaches id (1000, 1000, 8) start (mkPool s [(request, p)]).
Proof.
  intros Hr. eapply rtc_l; [apply (PoolStart _ _ _ request)|]. exact (pool_runs route start [(request, route request)] 0 request (route request) s p eq_refl Hr).
Qed.

Lemma id_free (a b : string) : id a = id b -> a = b.
Proof. done. Qed.

Lemma runs_app {S A} (s : S) (p : Prog S A) s1 p1 s2 p2 : runs s p s1 p1 -> runs s1 p1 s2 p2 -> runs s p s2 p2.
Proof. induction 1; [done|]. intros Hr. eapply RunsOn; [done|auto]. Qed.

Lemma preview_coherent_witness : exists (pool : @Pool AppState Response Request) response,
  threads pool !! 0%nat = Some (request, Ret response) /\ rs_body response = "/data/blobs/" +:+ hash64 /\
  image_answer id "/data" (fun key id => In (CatalogAnswered key id) (events (shared pool))) request response.
Proof.
  destruct request_runs as (s & p & s' & response & Hr & _ & Hr' & Hbody).
  exists (mkPool s' [(request, Ret response)]), response. do 2 (split; [done|]).
  apply (preview_coherent id id_free "/data" (1000, 1000, 8) start _ 0 request response start_fresh);
    [|reflexivity]. eapply reaches_of_run, runs_app; done.
Defined.

Lemma decode_single_flight_witness : exists pool : @Pool AppState Response Request,
  opens hash64 (events (shared pool)) = 1 /\ 0 <= opens hash64 (events (shared pool)) <= 1.
Proof.
  destruct request_runs as (s & p & _ & _ & Hr & Ho & _). exists (mkPool s [(request, p)]). split; [exact Ho|].
  apply (decode_single_flight id id_free "/data" (1000, 1000, 8) start _ hash64 start_fresh). by apply reaches_of_run.
Defined.

(** Two connections: one carries the request, the other the query that panics the decoder. *)
Definition good : list SocketRead := [SocketBytes ("GET /api/preview?recordId=r1&live=1 HTTP/1.1" +:+ blank_line)].
Definition bad : list SocketRead := [SocketBytes ("GET /health?a=%aé HTTP/1.1" +:+ blank_line)].

Abbreviation handle := (image_handle_client id (1000, 1000, 8) 256).
Definition afterwards (response : Response) : Prog AppState (list string) :=
  let~ written := choose bool in
  let sent := write_to response false in
  if negb written || false then Ret [sent] else let~ more := image_handle_client id (1000, 1000, 8) 255 [] in Ret (sent :: more).

Lemma handle_good : handle good = prog_bind (route request) afterwards.
Proof.
  assert (E : read_request_go "" good = (Some (Ok (Some request)), [])) by (vm_compute; reflexivity).
  cbn [image_handle_client]. by rewrite E.
Qed.

Lemma handle_bad : handle bad = Panicked.
Proof.
  assert (E : read_request_go "" bad = (None, [])) by (vm_compute; reflexivity). cbn [image_handle_client]. by rewrite E.
Qed.

Lemma runs_alone_in_pool {R} (s : AppState) p s' p' (r : R) (ts : list (R * Prog AppState (list string))) : runs s p s' p' ->
  rtc pool_run (mkPool s ((r, p) :: ts)) (mkPool s' ((r, p') :: ts)).
Proof. induction 1 as [|s p s1 p1 s2 p2 Hstep _ IH]; [done|]. eapply rtc_l; [|exact IH]. by exists 0%nat, r, p, p1. Qed.

(** The image of the request is being decoded when the other connection arrives; in the end one is answered
    and the other has cost its worker. *)
Lemma image_service_answers_witness : exists (pool last : @Pool AppState (list string) (list SocketRead)) sent,
  opens hash64 (events (shared pool)) = 1 /\ rtc pool_run pool last /\ threads last = [(good, Ret [sent]); (bad, Panicked)] /\
  Acc (fun y x => pool_run x y) pool /\ conversed id "/data" 256 good [sent] /\ None ∈ incoming 256 bad.
Proof.
  destruct request_runs as (s & p & s' & response & Hr & Ho & Hr' & _).
  set (pool := mkPool s [(good, prog_bind p afterwards); (bad, Panicked)]).
  set (sent := write_to response false). set (last := mkPool s' [(good, Ret [sent]); (bad, Panicked)]).
  assert (Hpool : connections_reach id (1000, 1000, 8) 256 start pool).
  { eapply rtc_l; [apply (PoolStart _ _ _ good)|]. etrans.
    - apply (pool_runs handle start [(good, handle good)] 0 good (handle good) s (prog_bind p afterwards) eq_refl).
      rewrite handle_good. eapply runs_bind; [exact Hr|apply RunsHere].
    - eapply rtc_l; [apply (PoolStart _ _ _ bad)|]. by rewrite handle_bad. }
  assert (Hlast : rtc pool_run pool last).
  { apply runs_alone_in_pool. eapply runs_bind; [exact Hr'|]. step_ret. apply (runs_choose true). apply RunsHere. }
  destruct (image_service_answers id id_free "/data" (1000, 1000, 8) 256 start pool start_fresh Hpool) as [Ha Hends].
  specialize (Hends last Hlast). apply Forall_cons in Hends as [Hgood Hends].
  - apply Forall_cons in Hends as [Hbad _]. exists pool, last, sent. split_and!; [exact Ho|exact Hlast|reflexivity|exact Ha|..].
    + destruct Hgood as [(written & [= <-] & Hw)|[Hp _]]; [exact Hw|discriminate Hp].
    + destruct Hbad as [(written & Hw & _)|[_ Hn]]; [discriminate Hw|exact Hn].
  - intros next (k & r & q & q' & Hk & Hs & _). apply step_inv in Hs. destruct k as [|[|k]]; simpl in Hk; [injection Hk as _ <-; exact Hs..|].
    discriminate Hk.
Defined.

End ImageRun.
