(* ===== verification/ResultStore.v ===== *)
(** * Publication of inspection results

    app/result-contract/src/lib.rs: [ResultPublisher::publish] and what it calls. The result root holds
    the records, the content-addressed blobs, the staging directories and the SQLite catalogue. A
    publication is a program of file-system operations, each of which may fail, and one catalogue
    transaction; several may run at the same time. SHA-256 and [serde_json] are parameters, and so are
    the source files, which nothing writes to while they are published. *)

From S2P Require Import Prelude Json Float64 Concurrent.
From Stdlib Require Import Ascii SpecFloat.

Definition RESULT_SCHEMA : string := "steel.inspection-result.v1".
Definition CATALOG_SCHEMA : string := "steel.inspection-result-catalog.v1".

(** ** Data *)

(** [ResultMaterial]. *)
Record ResultMaterial := mkResultMaterial {
  steel_type : option string;
  length_mm : option f64;
  outer_diameter_mm : option f64;
  wall_thickness_mm : option f64;
}.

(** [ResultArtifact]. *)
Record ResultArtifact := mkResultArtifact {
  ra_id : string;
  ra_camera_id : string;
  ra_sequence_no : Z;
  ra_kind : string;
  ra_path : string;
  ra_mime_type : string;
  ra_size : Z;
  ra_sha256 : string;
  ra_width : option Z;
  ra_height : option Z;
}.

(** [ResultDefect]. *)
Record ResultDefect := mkResultDefect {
  rd_id : string;
  rd_camera_id : string;
  rd_sequence_no : Z;
  rd_defect_type : string;
  rd_severity : option Z;
  rd_confidence : option f64;
  rd_artifacts : Value;
}.

(** [UnifiedResult]. *)
Record UnifiedResult := mkUnifiedResult {
  ur_schema : string;
  ur_inspection_id : string;
  ur_session_id : string;
  ur_material_id : string;
  ur_source : string;
  ur_source_record_id : string;
  ur_inspection_time : option string;
  ur_status : string;
  ur_camera_count : Z;
  ur_cameras : list string;
  ur_defect_count : Z;
  ur_material : ResultMaterial;
  ur_artifacts : list ResultArtifact;
  ur_defects : list ResultDefect;
  ur_source_hash : string;
  ur_config_hash : string;
  ur_algorithm_version : string;
  ur_published_at : string;
}.

(** [PublishInput]. *)
Record PublishInput := mkPublishInput {
  in_inspection_id : string;
  in_result : UnifiedResult;
  in_source_directory : string;
  in_source_provenance : option Value;
}.

(** [ResultStoreError]. *)
Inductive ResultStoreError :=
| StoreIo
| StoreJson
| StoreSql
| StoreInvalid (message : string).

(** *** Derived equality *)

Definition opt_eqb {A} (eqb : A -> A -> bool) (x y : option A) : bool :=
  match x, y with Some a, Some b => eqb a b | None, None => true | _, _ => false end.

Fixpoint list_eqb {A} (eqb : A -> A -> bool) (l l' : list A) : bool :=
  match l, l' with
  | [], [] => true
  | x :: l, y :: l' => eqb x y && list_eqb eqb l l'
  | _, _ => false
  end.

Definition number_eqb (x y : Number) : bool :=
  match x, y with
  | PosInt a, PosInt b | NegInt a, NegInt b => a =? b
  | Float a, Float b => f64_eq a b
  | _, _ => false
  end.

Fixpoint value_eqb (x y : Value) {struct x} : bool :=
  match x, y with
  | JNull, JNull => true
  | JBool a, JBool b => Bool.eqb a b
  | JNumber a, JNumber b => number_eqb a b
  | JString a, JString b => a == b
  | JArray l, JArray l' => list_eqb value_eqb l l'
  | JObject m, JObject m' =>
      (fix go m m' := match m, m' with
                      | [], [] => true
                      | (k, v) :: m, (k', v') :: m' => (k == k') && value_eqb v v' && go m m'
                      | _, _ => false
                      end) m m'
  | _, _ => false
  end.

Definition material_eqb (x y : ResultMaterial) : bool :=
  opt_eqb String.eqb (steel_type x) (steel_type y) && opt_eqb f64_eq (length_mm x) (length_mm y)
  && opt_eqb f64_eq (outer_diameter_mm x) (outer_diameter_mm y)
  && opt_eqb f64_eq (wall_thickness_mm x) (wall_thickness_mm y).

Definition defect_eqb (x y : ResultDefect) : bool :=
  (rd_id x == rd_id y) && (rd_camera_id x == rd_camera_id y) && (rd_sequence_no x =? rd_sequence_no y)
  && (rd_defect_type x == rd_defect_type y) && opt_eqb Z.eqb (rd_severity x) (rd_severity y)
  && opt_eqb f64_eq (rd_confidence x) (rd_confidence y) && value_eqb (rd_artifacts x) (rd_artifacts y).

(** ** Third parties *)

(** [serde_json] on the types of this crate. *)
Class ResultCodec := {
  print_result : UnifiedResult -> string;          (* to_vec_pretty *)
  parse_result : string -> option UnifiedResult;   (* from_slice *)
  print_material : ResultMaterial -> string;       (* to_string *)
  print_value : Value -> string;                   (* to_string *)
  print_pretty : Value -> string;                  (* to_vec_pretty *)
}.

(** The source files: what a path leads to, and the content of a regular file. *)
Class SourceTree := {
  canonicalize : string -> option string;
  below : string -> string -> bool;                (* Path::starts_with *)
  file_content : string -> option string;
}.

(** ** The catalogue *)

(** A row of production_inspection. *)
Record InspectionRow := mkInspectionRow {
  ir_id : string;
  ir_session_id : string;
  ir_material_id : string;
  ir_inspection_time : option string;
  ir_status : string;
  ir_defect_count : Z;
  ir_camera_count : Z;
  ir_source_hash : string;
  ir_record_path : string;
  ir_metadata_json : string;
  ir_generation : Z;
}.

(** A row of production_defect. *)
Record DefectRow := mkDefectRow {
  dr_id : string;
  dr_inspection_id : string;
  dr_camera_id : string;
  dr_sequence_no : Z;
  dr_defect_type : string;
  dr_severity : option Z;
  dr_confidence : option f64;
  dr_artifacts_json : string;
}.

(** A row of capture_file. *)
Record CaptureRow := mkCaptureRow {
  cr_id : string;
  cr_inspection_id : string;
  cr_camera_id : string;
  cr_sequence_no : Z;
  cr_kind : string;
  cr_path : string;
  cr_size : Z;
  cr_sha256 : string;
}.

Record Catalog := mkCatalog {
  production_inspection : list InspectionRow;
  production_defect : list DefectRow;
  capture_file : list CaptureRow;
}.

(** [x as i64]. *)
Definition as_signed64 (x : Z) : Z := (x - i64_min) `mod` 18446744073709551616 + i64_min.

(** SELECT COALESCE(MAX(generation), 0) + 1; a sum out of range is no integer any more. *)
Definition max_generation (rows : list InspectionRow) : Z :=
  match rows with
  | [] => 0
  | row :: rest => foldr (fun r m => Z.max (ir_generation r) m) (ir_generation row) rest
  end.
Definition next_generation (rows : list InspectionRow) : option Z :=
  let n := max_generation rows + 1 in if n <=? i64_max then Some n else None.

(** INSERT ... ON CONFLICT(id) DO UPDATE. *)
Fixpoint upsert_inspection (row : InspectionRow) (rows : list InspectionRow) : list InspectionRow :=
  match rows with
  | [] => [row]
  | r :: rest => if ir_id r == ir_id row then row :: rest else r :: upsert_inspection row rest
  end.

(** INSERT into a table with a primary key. *)
Definition insert_unique {A} (id : A -> string) (row : A) (rows : list A) : option (list A) :=
  if existsb (fun r => id r == id row) rows then None else Some (rows ++ [row]).

Fixpoint insert_all {A B} (id : B -> string) (row : A -> B) (items : list A) (rows : list B) : option (list B) :=
  match items with
  | [] => Some rows
  | item :: rest => match insert_unique id (row item) rows with
                    | Some rows => insert_all id row rest rows
                    | None => None
                    end
  end.

Section Rows.
Context `{ResultCodec}.

Definition inspection_row (r : UnifiedResult) (generation : Z) : InspectionRow :=
  mkInspectionRow (ur_inspection_id r) (ur_session_id r) (ur_material_id r) (ur_inspection_time r) (ur_status r)
    (as_signed64 (ur_defect_count r)) (as_signed64 (ur_camera_count r)) (ur_source_hash r)
    ("records/" +:+ ur_inspection_id r) (print_material (ur_material r)) generation.

Definition defect_row (r : UnifiedResult) (d : ResultDefect) : DefectRow :=
  mkDefectRow (rd_id d) (ur_inspection_id r) (rd_camera_id d) (rd_sequence_no d) (rd_defect_type d) (rd_severity d)
    (rd_confidence d) (print_value (rd_artifacts d)).

Definition capture_row (r : UnifiedResult) (a : ResultArtifact) : CaptureRow :=
  mkCaptureRow (ra_id a) (ur_inspection_id r) (ra_camera_id a) (ra_sequence_no a) (ra_kind a) (ra_path a)
    (as_signed64 (ra_size a)) (ra_sha256 a).

(** The transaction of [publish]; it takes effect as a whole or not at all. *)
Definition catalog_publish (r : UnifiedResult) (c : Catalog) : option (Z * Catalog) :=
  match next_generation (production_inspection c) with
  | None => None
  | Some generation =>
      let inspections := upsert_inspection (inspection_row r generation) (production_inspection c) in
      let defects := List.filter (fun d => negb (dr_inspection_id d == ur_inspection_id r)) (production_defect c) in
      let files := List.filter (fun f => negb (cr_inspection_id f == ur_inspection_id r)) (capture_file c) in
      match insert_all dr_id (defect_row r) (ur_defects r) defects with
      | None => None
      | Some defects =>
          match insert_all cr_id (capture_row r) (ur_artifacts r) files with
          | None => None
          | Some files => Some (wrap_u64 generation, mkCatalog inspections defects files)
          end
      end
  end.
End Rows.

(** ** Names *)

(** [validate_id]; a character is a byte where it matters. *)
Definition validate_id (value : string) : Result unit ResultStoreError :=
  if is_blank value || (str_len value >? 128)
     || any_byte (fun a => negb (is_ascii_alphanumeric a || byte_is a 45 || byte_is a 95 || byte_is a 46)) value
  then Err (StoreInvalid "invalid inspection id")
  else Ok tt.

(** The components of a relative path: empty ones are skipped, and so is a dot but in front. *)
Definition is_normal_component (leading : bool) (part : string) : bool :=
  if part == ".." then false else if part == "." then negb leading else true.

(** [safe_relative]. *)
Definition safe_relative (value : string) : Result string ResultStoreError :=
  let parts := split_byte (ascii_of_nat 47) value in
  if is_empty value || starts_with "/" value
     || negb (match parts with
              | [] => true
              | first :: rest => is_normal_component true first && forallb (is_normal_component false) rest
              end)
  then Err (StoreInvalid "path must be a relative contained path")
  else Ok value.

(** ** State *)

Definition Directory := gmap string string.

(** staging/<job>: the record being prepared, the record it replaces, and files on their way to the
    blobs. *)
Record Stage := mkStage {
  st_record : option Directory;
  st_previous : option Directory;
  st_files : Directory;
}.

Definition empty_stage : Stage := mkStage None None ∅.

(** The result root. [failures] counts the operations that did not succeed. *)
Record ResultRoot := mkResultRoot {
  records : gmap string Directory;
  blobs : gmap string string;
  staging : gmap string Stage;
  catalog : Catalog;
  failures : Z;
}.

Definition with_records v (s : ResultRoot) := mkResultRoot v (blobs s) (staging s) (catalog s) (failures s).
Definition with_blobs v (s : ResultRoot) := mkResultRoot (records s) v (staging s) (catalog s) (failures s).
Definition with_staging v (s : ResultRoot) := mkResultRoot (records s) (blobs s) v (catalog s) (failures s).
Definition with_catalog v (s : ResultRoot) := mkResultRoot (records s) (blobs s) (staging s) v (failures s).
Definition with_failure (s : ResultRoot) := mkResultRoot (records s) (blobs s) (staging s) (catalog s) (failures s + 1).

Definition stage_of (job : string) (s : ResultRoot) : Stage := unwrap_or (staging s !! job) empty_stage.
Definition set_stage (job : string) (st : Stage) (s : ResultRoot) : ResultRoot := with_staging (<[job := st]> (staging s)) s.

Abbreviation Store := (Prog ResultRoot).

(** An operation of the operating system that may fail. *)
Definition attempt : Store bool :=
  let~ ok := choose bool in
  if ok : bool then Ret true else let~ _ := updating with_failure in Ret false.

(** One that may fail and does not succeed in every state either. *)
Definition attempt_section (section : ResultRoot -> option ResultRoot) : Store bool :=
  let~ ok := attempt in
  if negb ok then Ret false
  else atomically (fun s => match section s with Some s' => (true, s') | None => (false, with_failure s) end).

(** [Path::exists], which reads as false when the question fails. *)
Definition path_exists (present : ResultRoot -> bool) : Store bool :=
  let~ ok := attempt in
  if negb ok then Ret false else reading present.

Section Publisher.
Context `{ResultCodec} `{SourceTree}.
(** SHA-256 in hexadecimal, of the [sha2] crate. *)
Variable digest : string -> string.

(** ** Unchanged results *)

Definition artifact_unchanged (old new : ResultArtifact) : bool :=
  (ra_id old == ra_id new) && (ra_camera_id old == ra_camera_id new) && (ra_sequence_no old =? ra_sequence_no new)
  && (ra_kind old == ra_kind new) && (ra_mime_type old == ra_mime_type new)
  && opt_eqb Z.eqb (ra_width old) (ra_width new) && opt_eqb Z.eqb (ra_height old) (ra_height new)
  && ((ra_size new =? 0) || (ra_size old =? ra_size new))
  && (is_empty (ra_sha256 new) || (ra_sha256 old == ra_sha256 new)).

(** The comparisons of [existing_generation_if_unchanged]. *)
Definition result_unchanged (old new : UnifiedResult) : bool :=
  (ur_schema old == ur_schema new) && (ur_session_id old == ur_session_id new) && (ur_material_id old == ur_material_id new)
  && (ur_source old == ur_source new) && (ur_source_record_id old == ur_source_record_id new)
  && opt_eqb String.eqb (ur_inspection_time old) (ur_inspection_time new)
  && (ur_source_hash old == ur_source_hash new) && (ur_config_hash old == ur_config_hash new)
  && (ur_algorithm_version old == ur_algorithm_version new) && (ur_status old == ur_status new)
  && (ur_camera_count old =? ur_camera_count new) && list_eqb String.eqb (ur_cameras old) (ur_cameras new)
  && (ur_defect_count old =? ur_defect_count new) && material_eqb (ur_material old) (ur_material new)
  && list_eqb defect_eqb (ur_defects old) (ur_defects new)
  && Nat.eqb (length (ur_artifacts old)) (length (ur_artifacts new))
  && forallb (fun '(o, n) => artifact_unchanged o n) (combine (ur_artifacts old) (ur_artifacts new)).

Definition record_file (id name : string) (s : ResultRoot) : option string :=
  match records s !! id with Some d => d !! name | None => None end.

Definition generation_of (id : string) (c : Catalog) : option Z :=
  match List.find (fun row => ir_id row == id) (production_inspection c) with
  | Some row => if ir_generation row >=? 0 then Some (ir_generation row) else None
  | None => None
  end.

(** [existing_generation_if_unchanged]. *)
Definition existing_generation_if_unchanged (input : PublishInput) : Store (Result (option Z) ResultStoreError) :=
  let id := in_inspection_id input in
  let~ there := path_exists (fun s => is_some (record_file id "result.json" s)) in
  if negb there then Ret (Ok None)
  else
    let~ readable := attempt in
    let~ text := reading (record_file id "result.json") in
    match (if readable : bool then text else None) with
    | None => Ret (Err StoreIo)
    | Some text =>
        match parse_result text with
        | None => Ret (Ok None)
        | Some existing =>
            if negb (result_unchanged existing (in_result input)) then Ret (Ok None)
            else
              let~ ok := attempt in
              if negb ok then Ret (Err StoreSql)
              else
                let~ generation := reading (fun s => generation_of id (catalog s)) in
                Ret (Ok generation)
        end
    end.

(** ** Blobs *)

Definition join (directory relative : string) : string := directory +:+ "/" +:+ relative.

Definition blob_temporary (sha256 : string) : string := "blob-" +:+ sha256 +:+ ".tmp".

(** The content of the source file of an artifact, checked to be below the source directory. *)
Definition artifact_source (directory path : string) : Store (Result string ResultStoreError) :=
  match safe_relative path with
  | Err e => Ret (Err e)
  | Ok relative =>
      let~ resolved := attempt in
      match (if resolved : bool then canonicalize (join directory relative) else None) with
      | None => Ret (Err StoreIo)
      | Some source =>
          let~ resolved := attempt in
          match (if resolved : bool then canonicalize directory else None) with
          | None => Ret (Err StoreIo)
          | Some source_root =>
              let~ seen := attempt in
              match (if seen : bool then file_content source else None) with
              | None => Ret (Err (StoreInvalid "artifact escaped source directory"))
              | Some content =>
                  if negb (below source source_root) then Ret (Err (StoreInvalid "artifact escaped source directory"))
                  else
                    let~ read := attempt in
                    Ret (if read : bool then Ok content else Err StoreIo)
              end
          end
      end
  end.

(** The copy of a file into the blobs, unless it is there. *)
Definition store_blob (job sha256 content : string) : Store (Result unit ResultStoreError) :=
  let~ there := path_exists (fun s => is_some (blobs s !! sha256)) in
  if there : bool then Ret (Ok tt)
  else
    let name := blob_temporary sha256 in
    let~ copied := attempt_section (fun s =>
      let st := stage_of job s in
      Some (set_stage job (mkStage (st_record st) (st_previous st) (<[name := content]> (st_files st))) s)) in
    if negb copied then Ret (Err StoreIo)
    else
      let~ renamed := attempt_section (fun s =>
        let st := stage_of job s in
        match st_files st !! name with
        | Some file =>
            Some (with_blobs (<[sha256 := file]> (blobs s))
                    (set_stage job (mkStage (st_record st) (st_previous st) (delete name (st_files st))) s))
        | None => None
        end) in
      if renamed : bool then Ret (Ok tt)
      else
        let~ there := path_exists (fun s => is_some (blobs s !! sha256)) in
        if negb there then Ret (Err StoreIo)
        else
          let~ _ := attempt_section (fun s =>
            let st := stage_of job s in
            Some (set_stage job (mkStage (st_record st) (st_previous st) (delete name (st_files st))) s)) in
          Ret (Ok tt).

Definition stored_artifact (a : ResultArtifact) (content : string) : ResultArtifact :=
  mkResultArtifact (ra_id a) (ra_camera_id a) (ra_sequence_no a) (ra_kind a) ("blobs/" +:+ digest content)
    (ra_mime_type a) (str_len content) (digest content) (ra_width a) (ra_height a).

Definition copy_artifact (directory job : string) (a : ResultArtifact) : Store (Result ResultArtifact ResultStoreError) :=
  let~ source := artifact_source directory (ra_path a) in
  match source with
  | Err e => Ret (Err e)
  | Ok content =>
      if negb (ra_size a =? 0) && negb (ra_size a =? str_len content)
      then Ret (Err (StoreInvalid ("artifact size mismatch: " +:+ ra_id a)))
      else if negb (is_empty (ra_sha256 a)) && negb (to_ascii_lowercase (ra_sha256 a) == digest content)
      then Ret (Err (StoreInvalid ("artifact hash mismatch: " +:+ ra_id a)))
      else
        let~ stored := store_blob job (digest content) content in
        Ret (match stored with Ok _ => Ok (stored_artifact a content) | Err e => Err e end)
  end.

Fixpoint copy_artifacts (directory job : string) (l : list ResultArtifact) : Store (Result (list ResultArtifact) ResultStoreError) :=
  match l with
  | [] => Ret (Ok [])
  | a :: rest =>
      let~ copied := copy_artifact directory job a in
      match copied with
      | Err e => Ret (Err e)
      | Ok a =>
          let~ more := copy_artifacts directory job rest in
          Ret (match more with Ok rest => Ok (a :: rest) | Err e => Err e end)
      end
  end.

(** ** The record *)

Definition opt_value {A} (f : A -> Value) (o : option A) : Value := match o with Some a => f a | None => JNull end.
Definition float_value (x : f64) : Value := if f64_is_finite x then JNumber (Float x) else JNull.

Definition defect_value (d : ResultDefect) : Value :=
  jobj [("id", JString (rd_id d)); ("cameraId", JString (rd_camera_id d)); ("sequenceNo", jint (rd_sequence_no d));
        ("defectType", JString (rd_defect_type d)); ("severity", opt_value jint (rd_severity d));
        ("confidence", opt_value float_value (rd_confidence d)); ("artifacts", rd_artifacts d)].

Definition defects_document (r : UnifiedResult) : Value :=
  jobj [("schema", JString "steel.standard-defects.v1"); ("inspectionId", JString (ur_inspection_id r));
        ("defects", JArray (map defect_value (ur_defects r)))].

(** The files of a record, in the order they are written. *)
Definition record_files (r : UnifiedResult) (provenance : option Value) : list (string * string) :=
  [("result.json", print_result r); ("record.json", print_result r)] ++
  match provenance with Some v => [("source-provenance.json", print_pretty v)] | None => [] end ++
  [("defects.json", print_pretty (defects_document r))].

Definition record_directory (r : UnifiedResult) (provenance : option Value) : Directory :=
  fold_left (fun d '(name, text) => <[name := text]> d) (record_files r provenance) ∅.

(** [fs::write] into the staged record. *)
Definition write_staged (job name text : string) : Store bool :=
  attempt_section (fun s =>
    let st := stage_of job s in
    match st_record st with
    | Some d => Some (set_stage job (mkStage (Some (<[name := text]> d)) (st_previous st) (st_files st)) s)
    | None => None
    end).

Fixpoint write_files (job : string) (files : list (string * string)) : Store bool :=
  match files with
  | [] => Ret true
  | (name, text) :: rest =>
      let~ ok := write_staged job name text in
      if negb ok then Ret false else write_files job rest
  end.

(** [validate_id] lets a dot and two dots through; [fs::rename] refuses a path that ends in one of them, so such a
    publication fails where the records are swapped. *)
Definition is_dots (id : string) : bool := one_of id ["."; ".."].

(** [fs::rename] of directories that hold files: the target must be free. *)
Definition record_to_previous (job id : string) : Store bool :=
  attempt_section (fun s =>
    let st := stage_of job s in
    if is_dots id then None else
    match records s !! id, st_previous st with
    | Some d, None => Some (with_records (delete id (records s)) (set_stage job (mkStage (st_record st) (Some d) (st_files st)) s))
    | _, _ => None
    end).
Definition previous_to_record (job id : string) : Store bool :=
  attempt_section (fun s =>
    let st := stage_of job s in
    if is_dots id then None else
    match st_previous st, records s !! id with
    | Some d, None => Some (with_records (<[id := d]> (records s)) (set_stage job (mkStage (st_record st) None (st_files st)) s))
    | _, _ => None
    end).
Definition stage_to_record (job id : string) : Store bool :=
  attempt_section (fun s =>
    let st := stage_of job s in
    if is_dots id then None else
    match st_record st, records s !! id with
    | Some d, None => Some (with_records (<[id := d]> (records s)) (set_stage job (mkStage None (st_previous st) (st_files st)) s))
    | _, _ => None
    end).

Definition record_exists (id : string) : Store bool := path_exists (fun s => is_some (records s !! id)).
Definition previous_exists (job : string) : Store bool := path_exists (fun s => is_some (st_previous (stage_of job s))).

(** [fs::remove_dir_all] of a record; when it fails some of the files may be gone. *)
Definition remove_record (id : string) : Store bool :=
  let~ ok := attempt in
  if ok : bool then let~ _ := updating (fun s => with_records (delete id (records s)) s) in Ret true
  else
    let~ left_over := choose Directory in
    let~ _ := updating (fun s => with_records (<[id := left_over]> (records s)) s) in
    Ret false.

(** [restore_previous_record]. *)
Definition restore_previous_record (job id : string) : Store bool :=
  let~ there := record_exists id in
  let~ removed := (if there : bool then remove_record id else Ret true) in
  if negb removed then Ret false
  else
    let~ kept := previous_exists job in
    if kept : bool then previous_to_record job id else Ret true.

(** The removal of a staging directory, whose outcome is not looked at. *)
Definition discard_stage (job : string) : Store unit :=
  let~ _ := attempt_section (fun s => Some (with_staging (delete job (staging s)) s)) in
  Ret tt.

Definition drop_previous (job : string) : Store unit :=
  let~ kept := previous_exists job in
  if kept : bool then
    let~ _ := attempt_section (fun s =>
      let st := stage_of job s in Some (set_stage job (mkStage (st_record st) None (st_files st)) s)) in
    Ret tt
  else Ret tt.

(** The catalogue transaction. A failure that is reported may come before it takes effect or after. *)
Definition commit_result (r : UnifiedResult) : Store (option Z) :=
  let~ ok := attempt in
  if negb ok then
    let~ effective := choose bool in
    let~ _ := (if effective : bool
               then updating (fun s => match catalog_publish r (catalog s) with Some (_, c) => with_catalog c s | None => s end)
               else Ret tt) in
    Ret None
  else atomically (fun s => match catalog_publish r (catalog s) with
                            | Some (generation, c) => (Some generation, with_catalog c s)
                            | None => (None, with_failure s)
                            end).

Definition with_artifacts (l : list ResultArtifact) (r : UnifiedResult) : UnifiedResult :=
  mkUnifiedResult (ur_schema r) (ur_inspection_id r) (ur_session_id r) (ur_material_id r) (ur_source r)
    (ur_source_record_id r) (ur_inspection_time r) (ur_status r) (ur_camera_count r) (ur_cameras r) (ur_defect_count r)
    (ur_material r) l (ur_defects r) (ur_source_hash r) (ur_config_hash r) (ur_algorithm_version r) (ur_published_at r).

(** From the staged record on: swap it in, commit, clean up. *)
Definition install_record (job id : string) (r : UnifiedResult) : Store (Result Z ResultStoreError) :=
  let~ there := record_exists id in
  let~ moved := (if there : bool then record_to_previous job id else Ret true) in
  if negb moved then Ret (Err StoreIo)
  else
    let~ installed := stage_to_record job id in
    if negb installed then
      let~ kept := previous_exists job in
      let~ _ := (if kept : bool then previous_to_record job id else Ret true) in
      Ret (Err StoreIo)
    else
      let~ committed := commit_result r in
      match committed with
      | None =>
          let~ restored := restore_previous_record job id in
          if negb restored then Ret (Err (StoreInvalid "catalog publication failed; record rollback failed"))
          else let~ _ := discard_stage job in Ret (Err StoreSql)
      | Some generation =>
          let~ _ := drop_previous job in
          let~ _ := discard_stage job in
          Ret (Ok generation)
      end.

(** The staging directory of a publication; [unique_suffix] is the clock in nanoseconds. *)
Definition job_id (input : PublishInput) (unique_suffix : Z) : string := in_inspection_id input +:+ "-" +:+ dec unique_suffix.

(** [publish]. *)
Definition publish (unique_suffix : Z) (input : PublishInput) : Store (Result Z ResultStoreError) :=
  let id := in_inspection_id input in
  match validate_id id with
  | Err e => Ret (Err e)
  | Ok _ =>
      if negb (ur_schema (in_result input) == RESULT_SCHEMA) then Ret (Err (StoreInvalid "unsupported unified result schema"))
      else if negb (ur_inspection_id (in_result input) == id) then Ret (Err (StoreInvalid "inspection id mismatch"))
      else
        let~ existing := existing_generation_if_unchanged input in
        match existing with
        | Err e => Ret (Err e)
        | Ok (Some generation) => Ret (Ok generation)
        | Ok None =>
            let job := job_id input unique_suffix in
            let~ created := attempt_section (fun s =>
              let st := stage_of job s in
              Some (set_stage job (mkStage (Some (unwrap_or (st_record st) ∅)) (st_previous st) (st_files st)) s)) in
            if negb created then Ret (Err StoreIo)
            else
              let~ copied := copy_artifacts (in_source_directory input) job (ur_artifacts (in_result input)) in
              match copied with
              | Err e => Ret (Err e)
              | Ok artifacts =>
                  let r := with_artifacts artifacts (in_result input) in
                  let~ written := write_files job (record_files r (in_source_provenance input)) in
                  if negb written then Ret (Err StoreIo) else install_record job id r
              end
        end
  end.

End Publisher.
