(* ===== verification/ResultFacts.v ===== *)
(** * What publishing a result guarantees

    A publication that runs alone ends in one of three ways: nothing to do, the new record and its
    catalogue rows in place, or an error that leaves the record as it was unless a second operation fails
    on the way back, and the catalogue unless a commit that was reported as failed took effect. Whatever publications interleave, every file the catalogue names is a blob the
    image service can find, under the hash of its content. *)

From S2P Require Import Prelude Json Http HttpFacts Float64 Concurrent ByteLru ImageHttp ImageService ResultStore.
From Stdlib Require Import Ascii.

Section Alone.
Context `{ResultCodec} `{SourceTree}.
Variable digest : string -> string.

(** ** Operations *)

Lemma alone_attempt Q s : Q s true -> Q (with_failure s) false -> alone Q s attempt.
Proof. intros Ht Hf [|]; [exact Ht|exact Hf]. Qed.

Lemma alone_updating (f : ResultRoot -> ResultRoot) (Q : ResultRoot -> unit -> Prop) s : Q (f s) tt -> alone Q s (updating f).
Proof. done. Qed.

Lemma alone_section section Q s :
  (forall s', section s = Some s' -> Q s' true) -> Q (with_failure s) false -> alone Q s (attempt_section section).
Proof.
  intros Ht Hf. unfold attempt_section. apply alone_bind, alone_attempt; cbn [negb]; [|exact Hf].
  unfold alone, atomically. destruct (section s) as [s'|]; auto.
Qed.

Lemma alone_exists present Q s : Q s (present s) -> Q (with_failure s) false -> alone Q s (path_exists present).
Proof. intros Ht Hf. unfold path_exists. apply alone_bind, alone_attempt; cbn [negb]; [exact Ht|exact Hf]. Qed.

(** ** Before the record moves *)

(** Only the staging directory and the blobs change, and a blob carries the hash of its content. *)
Record staged (job : string) (s s' : ResultRoot) : Prop := {
  sg_records : records s' = records s;
  sg_catalog : catalog s' = catalog s;
  sg_failures : failures s <= failures s';
  sg_others : forall job', job' <> job -> staging s' !! job' = staging s !! job';
  sg_kept : forall h, is_Some (blobs s !! h) -> is_Some (blobs s' !! h);
}.

#[local] Instance staged_preorder job : PreOrder (staged job).
Proof.
  split.
  - intros s. by split.
  - intros s1 s2 s3 [H1 H2 H3 H4 H5] [G1 G2 G3 G4 G5]. split; try congruence; [lia| |auto].
    intros job' Hne. rewrite G4, H4; done.
Qed.

Lemma staged_failure job s : staged job s (with_failure s).
Proof. split; try done. simpl. lia. Qed.

Lemma staged_stage job st s : staged job s (set_stage job st s).
Proof. split; try done. intros job' Hne. simpl. by rewrite lookup_insert_ne. Qed.

Lemma stage_of_set job st s : stage_of job (set_stage job st s) = st.
Proof. unfold stage_of. simpl. by rewrite lookup_insert_eq. Qed.

(** The record in preparation is left alone. *)
Definition copying (job : string) (s s' : ResultRoot) : Prop :=
  staged job s s' /\ st_record (stage_of job s') = st_record (stage_of job s) /\
  st_previous (stage_of job s') = st_previous (stage_of job s).

#[local] Instance copying_preorder job : PreOrder (copying job).
Proof.
  split.
  - intros s. by split.
  - intros s1 s2 s3 (H1 & H2 & H3) (G1 & G2 & G3). split; [by etrans|]. split; congruence.
Qed.

Lemma copying_failure job s : copying job s (with_failure s).
Proof. split; [apply staged_failure|done]. Qed.

Lemma copying_files job files s :
  copying job s (set_stage job (mkStage (st_record (stage_of job s)) (st_previous (stage_of job s)) files) s).
Proof. split; [apply staged_stage|]. by rewrite stage_of_set. Qed.

Lemma copying_blob job h c s : copying job s (with_blobs (<[h := c]> (blobs s)) s).
Proof.
  split; [|done]. split; try done. simpl. intros h' Hh. destruct (decide (h = h')) as [<-|Hne]; [by rewrite lookup_insert_eq|].
  by rewrite lookup_insert_ne.
Qed.

(** An operation from a state that copying reached. *)
Definition copied (job : string) (s : ResultRoot) {A} (P : ResultRoot -> A -> Prop) (s' : ResultRoot) (a : A) : Prop :=
  copying job s s' /\ P s' a.

Lemma copying_attempt job s0 s : copying job s0 s -> alone (copied job s0 (fun _ _ => True)) s attempt.
Proof. intros Hc. apply alone_attempt; [done|]. split; [|done]. etrans; [exact Hc|apply copying_failure]. Qed.

Lemma copying_exists job s0 s present : copying job s0 s ->
  alone (copied job s0 (fun s' b => b = true -> present s' = true)) s (path_exists present).
Proof. intros Hc. apply alone_exists; [done|]. split; [|done]. etrans; [exact Hc|apply copying_failure]. Qed.

Lemma copying_section job s0 s section (P : ResultRoot -> Prop) : copying job s0 s ->
  (forall s', section s = Some s' -> copying job s s' /\ P s') ->
  alone (copied job s0 (fun s' b => b = true -> P s')) s (attempt_section section).
Proof.
  intros Hc Hs. apply alone_section.
  - intros s' E. destruct (Hs s' E) as [H1 H2]. split; [by etrans|done].
  - split; [|done]. etrans; [exact Hc|apply copying_failure].
Qed.

(** What the source of an artifact is. *)
Definition artifact_file (directory path content : string) : Prop :=
  exists source source_root, safe_relative path = Ok path /\ canonicalize (join directory path) = Some source /\
    canonicalize directory = Some source_root /\ below source source_root = true /\ file_content source = Some content.

Lemma alone_source job directory path s0 s : copying job s0 s ->
  alone (copied job s0 (fun _ r => forall content, r = Ok content -> artifact_file directory path content)) s
    (artifact_source directory path).
Proof.
  intros Hc. unfold artifact_source. destruct (safe_relative path) as [relative|e] eqn:Er; [|by split].
  assert (relative = path) as -> by (unfold safe_relative in Er; by case_match; simplify_eq).
  apply alone_bind. eapply alone_mono; [|by apply copying_attempt]. intros s1 [|] [H1 _]; [|by split].
  destruct (canonicalize (join directory path)) as [source|] eqn:E1; [|by split].
  apply alone_bind. eapply alone_mono; [|by apply copying_attempt]. intros s2 [|] [H2 _]; [|by split].
  destruct (canonicalize directory) as [source_root|] eqn:E2; [|by split].
  apply alone_bind. eapply alone_mono; [|by apply copying_attempt]. intros s3 [|] [H3 _]; [|by split].
  destruct (file_content source) as [content|] eqn:E3; [|by split].
  destruct (below source source_root) eqn:E4; cbn [negb]; [|by split].
  apply alone_bind. eapply alone_mono; [|by apply copying_attempt]. intros s4 [|] [H4 _]; [|by split].
  split; [done|]. intros content' [= <-]. by exists source, source_root.
Qed.

Lemma alone_store_blob job h content s0 s : copying job s0 s ->
  alone (copied job s0 (fun s' r => r = Ok tt -> is_Some (blobs s' !! h))) s (store_blob job h content).
Proof.
  intros Hc. unfold store_blob. apply alone_bind. eapply alone_mono; [|by apply copying_exists].
  intros s1 [|] [H1 Hthere].
  { split; [done|]. intros _. specialize (Hthere eq_refl). by destruct (blobs s1 !! h). }
  apply alone_bind. eapply alone_mono; [|eapply (copying_section _ _ _ _ (fun _ => True)); [exact H1|]].
  2: { intros s' [= <-]. split; [apply copying_files|done]. }
  intros s2 [|] [H2 _]; cbn [negb]; [|by split]. apply alone_bind.
  eapply alone_mono; [|eapply (copying_section _ _ _ _ (fun s' => is_Some (blobs s' !! h))); [exact H2|]].
  2: { intros s'. destruct (st_files _ !! _) as [file|]; [|done]. intros [= <-]. split; [|by simpl; rewrite lookup_insert_eq].
       etrans; [apply copying_files|exact (copying_blob job h file (set_stage job _ s2))]. }
  intros s3 [|] [H3 Hb]; [split; auto|]. clear Hb.
  apply alone_bind. eapply alone_mono; [|by apply copying_exists]. intros s4 [|] [H4 Hthere4]; cbn [negb]; [|by split].
  apply alone_bind. eapply alone_mono; [|eapply (copying_section _ _ _ _ (fun _ => True)); [reflexivity|]].
  2: { intros s' [= <-]. split; [apply copying_files|done]. }
  intros s5 b [H5 _]. split; [by etrans|]. intros _. apply (sg_kept _ _ _ (proj1 H5)). specialize (Hthere4 eq_refl).
  by destruct (blobs s4 !! h).
Qed.

(** The artifact of a result and what becomes of it: its path leads to the blob of its content. *)
Record artifact_renamed (a : ResultArtifact) (content : string) (a' : ResultArtifact) : Prop := {
  rn_same : (ra_id a', ra_camera_id a', ra_sequence_no a', ra_kind a', ra_mime_type a', ra_width a', ra_height a') =
            (ra_id a, ra_camera_id a, ra_sequence_no a, ra_kind a, ra_mime_type a, ra_width a, ra_height a);
  rn_path : ra_path a' = "blobs/" +:+ digest content;
  rn_sha256 : ra_sha256 a' = digest content;
  rn_size : ra_size a' = str_len content;
}.

Definition artifact_stored (directory : string) (s : ResultRoot) (a a' : ResultArtifact) : Prop :=
  exists content, artifact_file directory (ra_path a) content /\ artifact_renamed a content a' /\
    (ra_size a = 0 \/ ra_size a = str_len content) /\
    (ra_sha256 a = "" \/ to_ascii_lowercase (ra_sha256 a) = digest content) /\ is_Some (blobs s !! digest content).

Lemma alone_copy_artifact job directory a s0 s : copying job s0 s ->
  alone (copied job s0 (fun s' r => forall a', r = Ok a' -> artifact_stored directory s' a a')) s (copy_artifact digest directory job a).
Proof.
  intros Hc. unfold copy_artifact. apply alone_bind. eapply alone_mono; [|by apply alone_source].
  intros s1 [content|e] [H1 Hf]; [|by split]. specialize (Hf content eq_refl).
  destruct (negb (ra_size a =? 0) && negb (ra_size a =? str_len content)) eqn:Es; [by split|].
  destruct (negb (is_empty (ra_sha256 a)) && _) eqn:Eh; [by split|].
  apply alone_bind. eapply alone_mono; [|by apply alone_store_blob]. intros s2 [[]|e] [H2 Hb]; [|by split].
  split; [done|]. intros a' [= <-]. exists content. split; [done|]. split; [done|]. split; [lia|]. split; [|auto].
  destruct (is_empty (ra_sha256 a)) eqn:Ee; [left; by apply is_empty_true|right].
  simpl in Eh. apply negb_false_iff, String.eqb_eq in Eh. done.
Qed.

Lemma artifact_stored_kept job directory s s' a a' : copying job s s' -> artifact_stored directory s a a' -> artifact_stored directory s' a a'.
Proof. intros [Hs _] (content & ? & ? & ? & ? & Hb). exists content. do 4 (split; [done|]). by apply (sg_kept _ _ _ Hs). Qed.

Lemma alone_copy_artifacts job directory l : forall s0 s, copying job s0 s ->
  alone (copied job s0 (fun s' r => forall l', r = Ok l' -> Forall2 (artifact_stored directory s') l l')) s
    (copy_artifacts digest directory job l).
Proof.
  induction l as [|a l IH]; intros s0 s Hc; cbn [copy_artifacts]. { split; [done|]. by intros l' [= <-]. }
  apply alone_bind. eapply alone_mono; [|by apply alone_copy_artifact]. intros s1 [a'|e] [H1 Ha]; [|by split].
  apply alone_bind. eapply alone_mono; [|by apply (IH s1 s1)]. intros s2 [l'|e] [H2 Hl]; (split; [by etrans|]); [|done].
  intros l'' [= <-]. constructor; [|by apply Hl]. by eapply artifact_stored_kept; [|apply Ha].
Qed.

(** The record is written file by file. *)
Definition writing (job : string) (s : ResultRoot) (d : Directory) (s' : ResultRoot) : Prop :=
  staged job s s' /\ stage_of job s' = mkStage (Some d) (st_previous (stage_of job s)) (st_files (stage_of job s)).

Lemma alone_write_files job files : forall d s0 s, staged job s0 s -> st_record (stage_of job s) = Some d ->
  alone (fun s' b => staged job s0 s' /\
      (b = true -> stage_of job s' = mkStage (Some (fold_left (fun d '(name, text) => <[name := text]> d) files d))
                     (st_previous (stage_of job s)) (st_files (stage_of job s)))) s
    (write_files job files).
Proof.
  induction files as [|[name text] files IH]; intros d s0 s Hs Hd; cbn [write_files fold_left].
  { split; [done|]. intros _. rewrite <- Hd. by destruct (stage_of job s). }
  apply alone_bind, alone_section; cbn [negb].
  - intros s' E. rewrite Hd in E. injection E as <-. set (s1 := set_stage job _ s).
    assert (H1 : staged job s0 s1) by (etrans; [exact Hs|apply staged_stage]).
    assert (E1 : stage_of job s1 = mkStage (Some (<[name := text]> d)) (st_previous (stage_of job s)) (st_files (stage_of job s)))
      by apply stage_of_set.
    eapply alone_mono; [|apply (IH (<[name := text]> d) s0 s1 H1); by rewrite E1].
    intros s' b [H2 H3]. split; [done|]. rewrite E1 in H3. exact H3.
  - split; [|done]. etrans; [exact Hs|apply staged_failure].
Qed.

(** ** The swap *)

Definition placed (base : gmap string Directory) (id : string) (o : option Directory) : gmap string Directory :=
  match o with Some d => <[id := d]> base | None => delete id base end.

Lemma placed_lookup base id o : placed base id o !! id = o.
Proof. destruct o; simpl; [apply lookup_insert_eq|apply lookup_delete_eq]. Qed.

Lemma placed_same base id : placed base id (base !! id) = base.
Proof. destruct (base !! id) eqn:E; simpl; [by apply insert_id|by apply delete_id]. Qed.

Lemma placed_insert base id o d : <[id := d]> (placed base id o) = placed base id (Some d).
Proof. destruct o; simpl; [apply insert_insert_eq|apply insert_delete_eq]. Qed.

Lemma placed_delete base id o : delete id (placed base id o) = placed base id None.
Proof. destruct o; simpl; [apply delete_insert_eq|apply delete_delete_eq]. Qed.

(** Where the record of a publication is, with what was prepared and what was put aside. *)
Record phase (base : gmap string Directory) (kept : gmap string string) (id job : string) (here prepared aside : option Directory) (c : Catalog) (n : Z)
    (s : ResultRoot) : Prop := {
  ph_records : records s = placed base id here;
  ph_prepared : st_record (stage_of job s) = prepared;
  ph_aside : st_previous (stage_of job s) = aside;
  ph_catalog : catalog s = c;
  ph_failures : failures s = n;
  ph_blobs : blobs s = kept;
}.

Section Swap.
Context {base : gmap string Directory} {kept : gmap string string} {id job : string}.
Abbreviation Ph := (phase base kept id job).

Lemma phase_failure here prepared aside c n s : Ph here prepared aside c n s -> Ph here prepared aside c (n + 1) (with_failure s).
Proof. intros [H1 H2 H3 H4 H5 H6]. split; try done. simpl. lia. Qed.

Lemma phase_exists here prepared aside c n s present Q : Ph here prepared aside c n s ->
  Q s (present s) -> (forall s', Ph here prepared aside c (n + 1) s' -> Q s' false) -> alone Q s (path_exists present).
Proof. intros Hp Ht Hf. apply alone_exists; [done|]. apply Hf. by apply phase_failure. Qed.

Lemma phase_record_exists here prepared aside c n s Q : Ph here prepared aside c n s ->
  (forall s', Ph here prepared aside c n s' -> Q s' (is_some here)) ->
  (forall s', Ph here prepared aside c (n + 1) s' -> Q s' false) -> alone Q s (record_exists id).
Proof.
  intros Hp Ht Hf. eapply phase_exists; [exact Hp| |exact Hf]. cbv beta. rewrite (ph_records _ _ _ _ _ _ _ _ _ _ Hp), placed_lookup. auto.
Qed.

Lemma phase_previous_exists here prepared aside c n s Q : Ph here prepared aside c n s ->
  (forall s', Ph here prepared aside c n s' -> Q s' (is_some aside)) ->
  (forall s', Ph here prepared aside c (n + 1) s' -> Q s' false) -> alone Q s (previous_exists job).
Proof.
  intros Hp Ht Hf. eapply phase_exists; [exact Hp| |exact Hf]. cbv beta. rewrite (ph_aside _ _ _ _ _ _ _ _ _ _ Hp). auto.
Qed.

Lemma phase_moved here prepared aside prepared' aside' files c n s v o : Ph here prepared aside c n s ->
  v = placed base id o ->
  Ph o prepared' aside' c n (with_records v (set_stage job (mkStage prepared' aside' files) s)).
Proof. intros [H1 H2 H3 H4 H5 H6] ->. split; try done; unfold stage_of; simpl; by rewrite lookup_insert_eq. Qed.

Lemma phase_put_aside d prepared c n s Q : Ph (Some d) prepared None c n s ->
  (forall s', Ph None prepared (Some d) c n s' -> Q s' true) ->
  (forall s', Ph (Some d) prepared None c (n + 1) s' -> Q s' false) -> alone Q s (record_to_previous job id).
Proof.
  intros Hp Ht Hf. pose proof Hp as [H1 H2 H3 H4 H5 H6]. apply alone_section; [|apply Hf; by apply phase_failure].
  intros s'. cbv beta zeta. destruct (is_dots id); [done|]. rewrite H1, placed_lookup, H2, H3. intros [= <-]. apply Ht.
  eapply phase_moved; [done|apply (placed_delete base id (Some d))].
Qed.

Lemma phase_put_back d prepared c n s Q : Ph None prepared (Some d) c n s ->
  (forall s', Ph (Some d) prepared None c n s' -> Q s' true) ->
  (forall s', Ph None prepared (Some d) c (n + 1) s' -> Q s' false) -> alone Q s (previous_to_record job id).
Proof.
  intros Hp Ht Hf. pose proof Hp as [H1 H2 H3 H4 H5 H6]. apply alone_section; [|apply Hf; by apply phase_failure].
  intros s'. cbv beta zeta. destruct (is_dots id); [done|]. rewrite H1, placed_lookup, H2, H3. intros [= <-]. apply Ht.
  eapply phase_moved; [done|apply (placed_insert base id None)].
Qed.

(** The staged record moves in, unless the place is taken. *)
Lemma phase_move_in here d aside c n s Q : Ph here (Some d) aside c n s ->
  (forall s', here = None -> Ph (Some d) None aside c n s' -> Q s' true) ->
  (forall s', Ph here (Some d) aside c (n + 1) s' -> Q s' false) -> alone Q s (stage_to_record job id).
Proof.
  intros Hp Ht Hf. pose proof Hp as [H1 H2 H3 H4 H5 H6]. apply alone_section; [|apply Hf; by apply phase_failure].
  intros s'. cbv beta zeta. destruct (is_dots id); [done|]. rewrite H1, placed_lookup, H2, H3. destruct here as [d'|]; [done|]. intros [= <-]. apply Ht; [done|].
  eapply phase_moved; [done|apply (placed_insert base id None)].
Qed.

Lemma phase_remove here prepared aside c n s Q : Ph here prepared aside c n s ->
  (forall s', Ph None prepared aside c n s' -> Q s' true) ->
  (forall s' d, Ph (Some d) prepared aside c (n + 1) s' -> Q s' false) -> alone Q s (remove_record id).
Proof.
  intros Hp Ht Hf. pose proof Hp as [H1 H2 H3 H4 H5 H6]. apply alone_bind, alone_attempt.
  - apply Ht. split; try done. simpl. rewrite H1. apply placed_delete.
  - intros d. apply (Hf _ d). split; try done; simpl; [|lia]. rewrite H1. apply placed_insert.
Qed.

(** The catalogue after a commit that is reported as failed. *)
Definition uncommitted (r : UnifiedResult) (c c' : Catalog) : Prop := c' = c \/ exists g, catalog_publish r c = Some (g, c').

(** Where an installation may end: published, or refused with the record as it was unless more than one
    operation failed. *)
Definition installed (r : UnifiedResult) (old : option Directory) (new : Directory) (c : Catalog) (n : Z)
    (s' : ResultRoot) (outcome : Result Z ResultStoreError) : Prop :=
  exists here, records s' = placed base id here /\ blobs s' = kept /\ n <= failures s' /\
  match outcome with
  | Ok g => here = Some new /\ catalog_publish r c = Some (g, catalog s')
  | Err _ => (failures s' = n -> catalog s' = c) /\ uncommitted r c (catalog s') /\ (failures s' <= n + 1 -> here = old)
  end.

Lemma phase_refused r old new c n here prepared aside m s e : Ph here prepared aside c m s -> n <= m ->
  (m <= n + 1 -> here = old) -> installed r old new c n s (Err e).
Proof.
  intros [H1 H2 H3 H4 H5 H6] Hn Hh. exists here. do 2 (split; [done|]). split; [lia|]. split; [done|]. split; [by left|]. rewrite H5. done.
Qed.

(** Operations on the staging directory that nobody looks at. *)
Lemma phase_discard here prepared aside c n s (Q : ResultRoot -> unit -> Prop) : Ph here prepared aside c n s ->
  (forall s', records s' = records s -> blobs s' = kept -> catalog s' = c -> n <= failures s' -> Q s' tt) -> alone Q s (discard_stage job).
Proof.
  intros [H1 H2 H3 H4 H5 H6] Ht. apply alone_bind, alone_section; [intros s' [= <-]|]; (apply Ht; [done|done|done|simpl; lia]).
Qed.

Lemma phase_drop_previous here prepared aside c n s (Q : ResultRoot -> unit -> Prop) : Ph here prepared aside c n s ->
  (forall s' aside' m, Ph here prepared aside' c m s' -> n <= m -> Q s' tt) -> alone Q s (drop_previous job).
Proof.
  intros Hp Ht. unfold drop_previous. apply alone_bind. eapply phase_previous_exists; [exact Hp| |].
  - intros s' Hp'. destruct (is_some aside); [|by eapply Ht]. apply alone_bind, alone_section.
    + intros s2 [= <-]. eapply (Ht _ None n); [|lia]. destruct Hp' as [H1 H2 H3 H4 H5 H6].
      split; try done; unfold stage_of; simpl; by rewrite lookup_insert_eq.
    + eapply (Ht _ aside (n + 1)); [by apply phase_failure|lia].
  - intros s' Hp'. eapply Ht; [done|lia].
Qed.

(** After a failed commit: back to the old record, unless another operation fails. *)
Definition restored (old : option Directory) (c : Catalog) (m : Z) (s' : ResultRoot) (_ : bool) : Prop :=
  exists here prepared aside k, Ph here prepared aside c k s' /\ m + 1 <= k /\ (k <= m + 1 -> here = old).

Lemma phase_restore d aside c n m s : Ph (Some d) None aside c n s -> m + 1 <= n ->
  alone (restored aside c m) s (restore_previous_record job id).
Proof.
  intros Hp Hm. unfold restore_previous_record.
  assert (Hfar : forall here prepared aside' k s' b, Ph here prepared aside' c k s' -> m + 1 < k -> restored aside c m s' b).
  { intros here prepared aside' k s' b Hp' Hk. exists here, prepared, aside', k. split; [done|]. split; lia. }
  assert (Hback : forall here k s', Ph here None aside c k s' -> m + 1 <= k -> (here = None \/ m + 1 < k) ->
    alone (restored aside c m) s' (let~ kept := previous_exists job in if kept : bool then previous_to_record job id else Ret true)).
  { intros here k s' Hp' Hk Hor. apply alone_bind. eapply phase_previous_exists; [exact Hp'| |].
    - intros s2 Hp2. destruct aside as [old|]; cbn [is_some].
      + destruct here as [d'|].
        * destruct Hor as [|Hgt]; [done|]. pose proof Hp2 as [H1 H2 H3 H4 H5 H6]. apply alone_section.
          -- intros s3. cbv beta zeta. destruct (is_dots id); [done|]. by rewrite H3, H1, placed_lookup.
          -- eapply Hfar; [by apply phase_failure|lia].
        * eapply phase_put_back; [exact Hp2| |].
          -- intros s3 Hp3. exists (Some old), None, None, k. done.
          -- intros s3 Hp3. eapply Hfar; [exact Hp3|lia].
      + exists here, None, None, k. split; [done|]. split; [done|]. intros. destruct Hor; [done|lia].
    - intros s2 Hp2. eapply Hfar; [exact Hp2|lia]. }
  apply alone_bind. eapply phase_record_exists; [exact Hp| |].
  - intros s1 Hp1. cbn [is_some]. apply alone_bind. eapply phase_remove; [exact Hp1| |].
    + intros s2 Hp2. cbn [negb]. eapply Hback; [exact Hp2|done|by left].
    + intros s2 d2 Hp2. cbn [negb]. eapply Hfar; [exact Hp2|lia].
  - intros s1 Hp1. apply alone_bind. cbn [negb]. eapply Hback; [exact Hp1|lia|right; lia].
Qed.

(** The commit, and back when it fails. *)
Lemma phase_commit r old new c n m s : Ph (Some new) None old c m s -> n <= m ->
  alone (installed r old new c n) s
    (let~ committed := commit_result r in
     match committed with
     | None =>
         let~ restored := restore_previous_record job id in
         if negb restored then Ret (Err (StoreInvalid "catalog publication failed; record rollback failed"))
         else let~ _ := discard_stage job in Ret (Err StoreSql)
     | Some generation =>
         let~ _ := drop_previous job in
         let~ _ := discard_stage job in
         Ret (Ok generation)
     end).
Proof.
  intros Hp Hm.
  assert (Hfail : forall s' c', Ph (Some new) None old c' (m + 1) s' -> uncommitted r c c' ->
    alone (installed r old new c n) s'
      (let~ restored := restore_previous_record job id in
       if negb restored then Ret (Err (StoreInvalid "catalog publication failed; record rollback failed"))
       else let~ _ := discard_stage job in Ret (Err StoreSql))).
  { intros s' c' Hp' Hc. apply alone_bind. eapply alone_mono; [|apply (phase_restore new old c' (m + 1) m); [exact Hp'|lia]].
    intros s2 b (here & prepared & aside & k & Hp2 & Hk & Hh). pose proof Hp2 as [H1 _ _ H4 H5 H6]. destruct b; cbn [negb].
    - apply alone_bind. eapply phase_discard; [exact Hp2|]. intros s3 Er Eb Ec Hf.
      exists here. split; [congruence|]. split; [done|]. split; [lia|]. split; [lia|]. rewrite Ec. split; [done|]. intros. apply Hh. lia.
    - exists here. split; [done|]. split; [done|]. split; [lia|]. split; [lia|]. rewrite H4. split; [done|]. intros. apply Hh. lia. }
  apply alone_bind. unfold commit_result. apply alone_bind, alone_attempt; cbn [negb].
  - pose proof Hp as [H1 H2 H3 H4 H5 H6]. unfold alone at 1, atomically. rewrite H4.
    destruct (catalog_publish r c) as [[g c']|] eqn:E; [|apply (Hfail _ c); [by apply phase_failure|by left]].
    assert (Hp1 : Ph (Some new) None old c' m (with_catalog c' s)) by (by split).
    apply alone_bind. eapply phase_drop_previous; [exact Hp1|]. intros s2 aside k Hp2 Hk. apply alone_bind.
    eapply phase_discard; [exact Hp2|]. intros s3 Er Eb Ec Hf. destruct Hp2 as [H1' _ _ _ _ H6'].
    exists (Some new). split; [congruence|]. split; [done|]. split; [lia|]. split; [done|]. by rewrite Ec.
  - apply phase_failure in Hp. intros [|]; [|by apply (Hfail _ c); [exact Hp|left]].
    pose proof Hp as [H1 H2 H3 H4 H5 H6]. do 2 apply alone_bind. apply alone_updating. rewrite H4.
    destruct (catalog_publish r c) as [[g c']|] eqn:E; [apply (Hfail _ c'); [by split|right; by exists g]|by apply (Hfail _ c); [exact Hp|left]].
Qed.

Lemma phase_install r old new c n s : Ph old (Some new) None c n s ->
  alone (installed r old new c n) s (install_record job id r).
Proof.
  intros Hp. unfold install_record. apply alone_bind. eapply phase_record_exists; [exact Hp| |].
  - intros s1 Hp1. destruct old as [d|]; cbn [is_some].
    + apply alone_bind. eapply phase_put_aside; [exact Hp1| |]; cbn [negb].
      * intros s2 Hp2. apply alone_bind. eapply phase_move_in; [exact Hp2| |]; cbn [negb].
        -- intros s3 _ Hp3. by eapply phase_commit.
        -- intros s3 Hp3. apply alone_bind. eapply phase_previous_exists; [exact Hp3| |]; cbn [is_some].
           ++ intros s4 Hp4. apply alone_bind. eapply phase_put_back; [exact Hp4| |].
              ** intros s5 Hp5. eapply phase_refused; [exact Hp5|lia|done].
              ** intros s5 Hp5. eapply phase_refused; [exact Hp5|lia|lia].
           ++ intros s4 Hp4. apply alone_bind. eapply phase_refused; [exact Hp4|lia|lia].
      * intros s2 Hp2. eapply phase_refused; [exact Hp2|lia|done].
    + apply alone_bind. cbn [negb]. apply alone_bind. eapply phase_move_in; [exact Hp1| |]; cbn [negb].
      * intros s3 _ Hp3. by eapply phase_commit.
      * intros s3 Hp3. apply alone_bind. eapply phase_previous_exists; [exact Hp3| |]; cbn [is_some];
          intros s4 Hp4; apply alone_bind; (eapply phase_refused; [exact Hp4|lia|done]).
  - intros s1 Hp1. apply alone_bind. cbn [negb]. apply alone_bind. eapply phase_move_in; [exact Hp1| |]; cbn [negb].
    + intros s3 -> Hp3. eapply phase_commit; [exact Hp3|lia].
    + intros s3 Hp3. apply alone_bind. eapply phase_previous_exists; [exact Hp3| |]; cbn [is_some];
        intros s4 Hp4; apply alone_bind; (eapply phase_refused; [exact Hp4|lia|done]).
Qed.
End Swap.


(** ** A whole publication *)

(** The stored record says what is to be published, and the catalogue has its generation. *)
Definition already_published (input : PublishInput) (s : ResultRoot) (g : Z) : Prop :=
  exists text old, record_file (in_inspection_id input) "result.json" s = Some text /\ parse_result text = Some old /\
    result_unchanged old (in_result input) = true /\ generation_of (in_inspection_id input) (catalog s) = Some g.

Lemma copying_record_file job s s' id name : copying job s s' -> record_file id name s' = record_file id name s.
Proof. intros [Hs _]. unfold record_file. by rewrite (sg_records _ _ _ Hs). Qed.

Lemma alone_existing job input s :
  alone (copied job s (fun _ r => forall g, r = Ok (Some g) -> already_published input s g)) s
    (existing_generation_if_unchanged input).
Proof.
  unfold existing_generation_if_unchanged. apply alone_bind. eapply alone_mono; [|by apply copying_exists].
  intros s1 [|] [H1 _]; cbn [negb]; [|by split].
  apply alone_bind. eapply alone_mono; [|by apply copying_attempt]. intros s2 readable [H2 _].
  apply alone_bind. unfold alone at 1, reading, atomically. rewrite (copying_record_file _ _ _ _ _ H2).
  destruct (if readable then _ else _) as [text|] eqn:Et; [|by split].
  destruct (parse_result text) as [old|] eqn:Ep; [|by split].
  destruct (result_unchanged old (in_result input)) eqn:Eu; cbn [negb]; [|by split].
  apply alone_bind. eapply alone_mono; [|by apply copying_attempt]. intros s3 [|] [H3 _]; cbn [negb]; [|by split].
  apply alone_bind. unfold alone at 1, reading, atomically. rewrite (sg_catalog _ _ _ (proj1 H3)).
  split; [done|]. intros g [= Eg]. destruct readable; [|done]. by exists text, old.
Qed.

(** *** The catalogue afterwards *)

(** The row of an inspection, of a defect and of a file, field by field. A count is stored as it is where it
    fits a signed integer. *)
Record inspection_of (r : UnifiedResult) (row : InspectionRow) : Prop := {
  io_texts : (ir_id row, ir_session_id row, ir_material_id row, ir_inspection_time row, ir_status row, ir_source_hash row) =
             (ur_inspection_id r, ur_session_id r, ur_material_id r, ur_inspection_time r, ur_status r, ur_source_hash r);
  io_defects : 0 <= ur_defect_count r <= i64_max -> ir_defect_count row = ur_defect_count r;
  io_cameras : 0 <= ur_camera_count r <= i64_max -> ir_camera_count row = ur_camera_count r;
  io_path : ir_record_path row = "records/" +:+ ur_inspection_id r;
  io_metadata : ir_metadata_json row = print_material (ur_material r);
}.

Record defect_of (id : string) (d : ResultDefect) (row : DefectRow) : Prop := {
  do_same : (dr_id row, dr_camera_id row, dr_sequence_no row, dr_defect_type row, dr_severity row, dr_confidence row) =
            (rd_id d, rd_camera_id d, rd_sequence_no d, rd_defect_type d, rd_severity d, rd_confidence d);
  do_inspection : dr_inspection_id row = id;
  do_artifacts : dr_artifacts_json row = print_value (rd_artifacts d);
}.

Record file_of (id : string) (a : ResultArtifact) (row : CaptureRow) : Prop := {
  fo_same : (cr_id row, cr_camera_id row, cr_sequence_no row, cr_kind row, cr_path row, cr_sha256 row) =
            (ra_id a, ra_camera_id a, ra_sequence_no a, ra_kind a, ra_path a, ra_sha256 a);
  fo_inspection : cr_inspection_id row = id;
  fo_size : 0 <= ra_size a <= i64_max -> cr_size row = ra_size a;
}.

(** The rows of a result are those of its inspection, in its order, and no other row has changed; the
    generation is above every earlier one. *)
Record catalogued (r : UnifiedResult) (g : Z) (c c' : Catalog) : Prop := {
  cg_row : exists row, List.find (fun row => ir_id row == ur_inspection_id r) (production_inspection c') = Some row /\
    inspection_of r row /\ g = ir_generation row `mod` 2 ^ 64 /\
    Forall (fun old => ir_generation old < ir_generation row) (production_inspection c);
  cg_others : List.filter (fun row => ir_id row != ur_inspection_id r) (production_inspection c') =
              List.filter (fun row => ir_id row != ur_inspection_id r) (production_inspection c);
  cg_defects : Forall2 (defect_of (ur_inspection_id r)) (ur_defects r)
                 (List.filter (fun d => dr_inspection_id d == ur_inspection_id r) (production_defect c'));
  cg_other_defects : List.filter (fun d => dr_inspection_id d != ur_inspection_id r) (production_defect c') =
                     List.filter (fun d => dr_inspection_id d != ur_inspection_id r) (production_defect c);
  cg_files : Forall2 (file_of (ur_inspection_id r)) (ur_artifacts r)
               (List.filter (fun f => cr_inspection_id f == ur_inspection_id r) (capture_file c'));
  cg_other_files : List.filter (fun f => cr_inspection_id f != ur_inspection_id r) (capture_file c') =
                   List.filter (fun f => cr_inspection_id f != ur_inspection_id r) (capture_file c);
}.

Lemma as_signed64_small x : 0 <= x <= i64_max -> as_signed64 x = x.
Proof. unfold as_signed64, i64_max, i64_min. intros Hx. rewrite Z.mod_small by lia. lia. Qed.

Lemma max_generation_above rows : Forall (fun row => ir_generation row <= max_generation rows) rows.
Proof.
  destruct rows as [|first rest]; [done|]. simpl. set (m := foldr _ _ _).
  assert (Hm : ir_generation first <= m /\ Forall (fun row => ir_generation row <= m) rest).
  { unfold m. clear m. induction rest as [|r rest [IH1 IH2]]; simpl; [split; [lia|done]|]. split; [lia|]. constructor; [lia|].
    eapply Forall_impl; [exact IH2|]. simpl. lia. }
  destruct Hm. by constructor.
Qed.

Lemma upsert_found row rows : List.find (fun r => ir_id r == ir_id row) (upsert_inspection row rows) = Some row.
Proof. induction rows as [|r rows IH]; simpl; [by rewrite String.eqb_refl|]. destruct (ir_id r == ir_id row) eqn:E; simpl; [by rewrite String.eqb_refl|by rewrite E]. Qed.

Lemma upsert_others row rows : List.filter (fun r => ir_id r != ir_id row) (upsert_inspection row rows) = List.filter (fun r => ir_id r != ir_id row) rows.
Proof.
  induction rows as [|r rows IH]; simpl; [by rewrite String.eqb_refl|]. destruct (ir_id r == ir_id row) eqn:E; simpl.
  - by rewrite String.eqb_refl.
  - by rewrite E, IH.
Qed.

Lemma insert_all_app {A B} (id : B -> string) (row : A -> B) items : forall rows rows', insert_all id row items rows = Some rows' ->
  rows' = rows ++ map row items.
Proof.
  induction items as [|a items IH]; intros rows rows' E; cbn [insert_all] in E; [injection E as <-; by rewrite app_nil_r|].
  unfold insert_unique in E. destruct (existsb _ rows); [done|]. apply IH in E as ->. by rewrite <- app_assoc.
Qed.

(** The rows a result replaces and those that stay. *)
Lemma replaced_rows {A B} (inspection : B -> string) (row : A -> B) id items rows : (forall a, inspection (row a) = id) ->
  let rows' := List.filter (fun b => negb (inspection b == id)) rows ++ map row items in
  List.filter (fun b => inspection b == id) rows' = map row items /\
  List.filter (fun b => inspection b != id) rows' = List.filter (fun b => inspection b != id) rows.
Proof.
  intros Hrow rows'. unfold rows'. rewrite !List.filter_app. split.
  - assert (List.filter (fun b => inspection b == id) (List.filter (fun b => negb (inspection b == id)) rows) = []) as ->.
    { induction rows as [|b rows IH]; simpl; [done|]. destruct (inspection b == id) eqn:E; simpl; [done|by rewrite E]. }
    simpl. induction items as [|a items IH]; simpl; [done|]. rewrite Hrow, String.eqb_refl. by f_equal.
  - assert (List.filter (fun b => inspection b != id) (map row items) = []) as ->.
    { induction items as [|a items IH]; simpl; [done|]. by rewrite Hrow, String.eqb_refl. }
    rewrite app_nil_r. induction rows as [|b rows IH]; simpl; [done|]. destruct (inspection b == id) eqn:E; simpl; [done|by rewrite E, IH].
Qed.

Lemma catalog_publish_rows r g c c' : catalog_publish r c = Some (g, c') -> catalogued r g c c'.
Proof.
  unfold catalog_publish, next_generation. destruct (_ <=? i64_max); [|done]. set (n := max_generation (production_inspection c) + 1).
  destruct (insert_all dr_id _ _ _) as [defects|] eqn:Ed; [|done]. destruct (insert_all cr_id _ _ _) as [files|] eqn:Ef; [|done].
  intros [= <- <-]. apply insert_all_app in Ed as ->. apply insert_all_app in Ef as ->.
  destruct (replaced_rows dr_inspection_id (defect_row r) (ur_inspection_id r) (ur_defects r) (production_defect c) ltac:(done)) as [D1 D2].
  destruct (replaced_rows cr_inspection_id (capture_row r) (ur_inspection_id r) (ur_artifacts r) (capture_file c) ltac:(done)) as [F1 F2].
  split; simpl; [|apply (upsert_others (inspection_row r n))|rewrite D1|exact D2|rewrite F1|exact F2].
  - exists (inspection_row r n). split; [apply (upsert_found (inspection_row r n))|]. split; [|split; [reflexivity|]].
    + split; [reflexivity|apply as_signed64_small|apply as_signed64_small|done|done].
    + eapply Forall_impl; [apply max_generation_above|]. simpl. lia.
  - apply Forall2_fmap_r, Forall_Forall2_diag, Forall_true. intros d. by split.
  - apply Forall2_fmap_r, Forall_Forall2_diag, Forall_true. intros a. split; [done..|apply as_signed64_small].
Qed.

(** *** The record afterwards *)

(** A result but for its artifacts. *)
Definition rest_of (r : UnifiedResult) :=
  (ur_schema r, ur_inspection_id r, ur_session_id r, ur_material_id r, ur_source r, ur_source_record_id r, ur_inspection_time r, ur_status r,
   (ur_camera_count r, ur_cameras r, ur_defect_count r, ur_material r, ur_defects r, ur_source_hash r, ur_config_hash r, ur_algorithm_version r,
    ur_published_at r)).

(** A defect as the file of the defects has it. *)
Definition defect_listed (d : ResultDefect) (v : Value) : Prop :=
  jget "id" v = Some (JString (rd_id d)) /\ jget "cameraId" v = Some (JString (rd_camera_id d)) /\
  jget "sequenceNo" v = Some (jint (rd_sequence_no d)) /\ jget "defectType" v = Some (JString (rd_defect_type d)) /\
  jget "artifacts" v = Some (rd_artifacts d).

(** The files of a record: the result twice, its defects, and where it came from if that is told. *)
Record record_of (r : UnifiedResult) (provenance : option Value) (d : Directory) : Prop := {
  ro_result : d !! "result.json" = Some (print_result r);
  ro_record : d !! "record.json" = Some (print_result r);
  ro_provenance : d !! "source-provenance.json" = option_map print_pretty provenance;
  ro_defects : exists v l, d !! "defects.json" = Some (print_pretty v) /\
    jget "inspectionId" v = Some (JString (ur_inspection_id r)) /\ jget "defects" v = Some (JArray l) /\ Forall2 defect_listed (ur_defects r) l;
  ro_only : forall name, is_Some (d !! name) -> In name ["result.json"; "record.json"; "source-provenance.json"; "defects.json"];
}.

Lemma record_directory_files r provenance : record_of r provenance (record_directory r provenance).
Proof.
  split.
  - destruct provenance; by vm_compute.
  - destruct provenance; by vm_compute.
  - destruct provenance; by vm_compute.
  - exists (defects_document r), (map defect_value (ur_defects r)). unfold defects_document at 2 3. rewrite !jget_jobj.
    split; [|split; [done|split; [done|]]].
    + destruct provenance; by vm_compute.
    + apply Forall2_fmap_r, Forall_Forall2_diag, Forall_true. intros d. unfold compose, defect_listed, defect_value. cbv beta. by rewrite !jget_jobj.
  - intros name [text E]. unfold record_directory, record_files in E. destruct provenance as [v|]; cbn [app fold_left] in E;
      clear -E; repeat (apply lookup_insert_Some in E as [[<- _]|[_ E]]; [simpl; by auto 10|]); done.
Qed.

(** The artifacts of a result that was already published and of the one at hand. *)
Definition artifact_agrees (old new : ResultArtifact) : Prop :=
  (ra_id old, ra_camera_id old, ra_sequence_no old, ra_kind old, ra_mime_type old) =
  (ra_id new, ra_camera_id new, ra_sequence_no new, ra_kind new, ra_mime_type new) /\
  (ra_size new = 0 \/ ra_size old = ra_size new) /\ (ra_sha256 new = "" \/ ra_sha256 old = ra_sha256 new).

Record result_agrees (old new : UnifiedResult) : Prop := {
  ag_texts : (ur_schema old, ur_session_id old, ur_material_id old, ur_source old, ur_source_record_id old, ur_status old) =
             (ur_schema new, ur_session_id new, ur_material_id new, ur_source new, ur_source_record_id new, ur_status new);
  ag_hashes : (ur_source_hash old, ur_config_hash old, ur_algorithm_version old) = (ur_source_hash new, ur_config_hash new, ur_algorithm_version new);
  ag_counts : (ur_camera_count old, ur_defect_count old) = (ur_camera_count new, ur_defect_count new);
  ag_defects : map rd_id (ur_defects old) = map rd_id (ur_defects new);
  ag_artifacts : Forall2 artifact_agrees (ur_artifacts old) (ur_artifacts new);
}.

Lemma unchanged_agrees old new : result_unchanged old new = true -> result_agrees old new.
Proof.
  unfold result_unchanged. intros Hu. repeat (apply andb_true_iff in Hu as [Hu ?]). bool_facts.
  split; try congruence.
  - match goal with E : list_eqb defect_eqb _ _ = true |- _ => revert E end. generalize (ur_defects old), (ur_defects new).
    induction l as [|d l IH]; intros [|d' l']; simpl; try done. intros [Hd Hl]%andb_true_iff. rewrite (IH l' Hl). f_equal.
    unfold defect_eqb in Hd. repeat (apply andb_true_iff in Hd as [Hd ?]). by bool_facts.
  - match goal with E : forallb _ _ = true, L : (length _ =? length _)%nat = true |- _ => revert E L end.
    generalize (ur_artifacts old), (ur_artifacts new). induction l as [|a l IH]; intros [|a' l']; simpl; try done.
    intros [Ha Hl]%andb_true_iff Hn. constructor; [|by apply IH]. unfold artifact_unchanged in Ha.
    repeat (apply andb_true_iff in Ha as [Ha ?]). bool_facts. split; [congruence|]. split; [lia|].
    match goal with E : (_ || _)%bool = true |- _ => apply orb_true_iff in E as [E|E]; [left; by apply is_empty_true|right; by bool_facts] end.
Qed.

Lemma generation_row id c g : generation_of id c = Some g -> exists row, row ∈ production_inspection c /\ ir_id row = id /\ ir_generation row = g.
Proof.
  unfold generation_of. destruct (List.find _ _) as [row|] eqn:E; [|done]. apply List.find_some in E as [Hin Hid]. bool_facts.
  destruct (_ >=? 0); [|done]. intros [= <-]. exists row. by rewrite list_elem_of_In.
Qed.

(** What a publication that runs alone leaves behind. *)
Definition publish_outcome (input : PublishInput) (s s' : ResultRoot) (outcome : Result Z ResultStoreError) : Prop :=
  let id := in_inspection_id input in
  match outcome with
  | Ok g =>
      (exists text old row, record_file id "result.json" s = Some text /\ parse_result text = Some old /\ result_agrees old (in_result input) /\
         row ∈ production_inspection (catalog s) /\ ir_id row = id /\ ir_generation row = g /\
         records s' = records s /\ catalog s' = catalog s) \/
      (exists r d, rest_of r = rest_of (in_result input) /\ ur_inspection_id r = id /\
         Forall2 (artifact_stored (in_source_directory input) s') (ur_artifacts (in_result input)) (ur_artifacts r) /\
         records s' = <[id := d]> (records s) /\ record_of r (in_source_provenance input) d /\
         catalogued r g (catalog s) (catalog s'))
  | Err _ =>
      (catalog s' = catalog s \/
       failures s < failures s' /\ exists r g, rest_of r = rest_of (in_result input) /\ catalogued r g (catalog s) (catalog s')) /\
      (failures s' <= failures s + 1 -> records s' = records s) /\
      (forall id', id' <> id -> records s' !! id' = records s !! id')
  end.

Lemma staged_refused input job s s' e : staged job s s' -> publish_outcome input s s' (Err e).
Proof. intros [H1 H2 H3 H4 H5]. split; [by left|]. split; [done|]. by rewrite H1. Qed.

Lemma stored_kept job directory s s' l l' : staged job s s' \/ blobs s' = blobs s ->
  Forall2 (artifact_stored directory s) l l' -> Forall2 (artifact_stored directory s') l l'.
Proof.
  intros Hk Hl. eapply Forall2_impl; [exact Hl|]. intros a a' (content & ? & ? & ? & ? & Hb). exists content. do 4 (split; [done|]).
  destruct Hk as [Hs| ->]; [by apply (sg_kept _ _ _ Hs)|done].
Qed.

(** The last part of a publication, from the files written into the staging directory on. *)
Lemma alone_install_written job input artifacts s s3 : let r := with_artifacts artifacts (in_result input) in
  ur_inspection_id (in_result input) = in_inspection_id input -> staged job s s3 -> st_record (stage_of job s3) = Some ∅ -> st_previous (stage_of job s3) = None ->
  Forall2 (artifact_stored (in_source_directory input) s3) (ur_artifacts (in_result input)) artifacts ->
  alone (publish_outcome input s) s3
    (let~ written := write_files job (record_files r (in_source_provenance input)) in
     if negb written then Ret (Err StoreIo) else install_record job (in_inspection_id input) r).
Proof.
  intros r Eid H3 E1 E2 Hart. set (id := in_inspection_id input). set (new := record_directory r (in_source_provenance input)).
  apply alone_bind. eapply alone_mono; [|apply (alone_write_files job _ ∅ s3 s3); [reflexivity|done]].
  intros s4 [|] [H4 Hst]; cbn [negb]; [|eapply staged_refused; by etrans]. specialize (Hst eq_refl).
  assert (Hp : phase (records s) (blobs s4) id job (records s !! id) (Some new) None (catalog s) (failures s4) s4).
  { split; rewrite ?placed_same, ?Hst; try done; [rewrite (sg_records _ _ _ H4)|rewrite (sg_catalog _ _ _ H4)]; apply H3. }
  eapply alone_mono; [|exact (phase_install r _ _ _ _ _ Hp)]. intros s5 [g|e] (here & Er & Eb & Hn & Hout).
  - destruct Hout as [-> Hc]. right. exists r, new. split; [done|]. split; [exact Eid|]. split.
    + eapply (stored_kept job); [right; exact Eb|]. eapply (stored_kept job); [left; exact H4|done].
    + split; [done|]. split; [apply record_directory_files|by apply catalog_publish_rows].
  - destruct Hout as (Hsame & Hc & Hh). pose proof (sg_failures _ _ _ H4). pose proof (sg_failures _ _ _ H3). split; [|split].
    + destruct (decide (failures s5 = failures s4)) as [E|]; [left; by apply Hsame|]. destruct Hc as [Hc|[g Hc]]; [by left|right].
      split; [lia|]. exists r, g. split; [done|]. by apply catalog_publish_rows.
    + intros Hf. rewrite Er, Hh by lia. apply placed_same.
    + intros id' Hne. rewrite Er. destruct here; simpl; [by rewrite lookup_insert_ne|by rewrite lookup_delete_ne].
Qed.

Lemma alone_publish suffix input s : staging s !! job_id input suffix = None ->
  alone (publish_outcome input s) s (publish digest suffix input).
Proof.
  intros Hfresh. unfold publish. set (job := job_id input suffix) in *.
  assert (Hno : forall e, publish_outcome input s s (Err e)) by (intros e; by apply (staged_refused _ job)).
  destruct (validate_id _) as [[]|e]; [|apply Hno]. destruct (negb _); [apply Hno|].
  destruct (ur_inspection_id (in_result input) == in_inspection_id input) eqn:Eid; cbn [negb]; [bool_facts|apply Hno].
  apply alone_bind. eapply alone_mono; [|apply (alone_existing job)]. intros s1 [[g|]|e] [H1 Hg].
  { left. destruct (Hg g eq_refl) as (text & old & E1 & E2 & Hu & Eg). apply generation_row in Eg as (row & Hrow & Er & Egen).
    exists text, old, row. split_and!; try done; [by apply unchanged_agrees|apply (sg_records _ _ _ (proj1 H1))|apply (sg_catalog _ _ _ (proj1 H1))]. }
  2: { eapply staged_refused, H1. }
  assert (E0 : stage_of job s = empty_stage) by (unfold stage_of; by rewrite Hfresh).
  destruct H1 as (H1 & E1 & E2). rewrite E0 in E1, E2.
  apply alone_bind, alone_section; cbn [negb]; [|eapply staged_refused; etrans; [exact H1|apply staged_failure]].
  intros s2 [= <-]. rewrite E1, E2. simpl unwrap_or. set (s2 := set_stage job _ s1).
  assert (H2 : staged job s s2) by (etrans; [exact H1|apply staged_stage]).
  apply alone_bind. eapply alone_mono; [|apply (alone_copy_artifacts job _ _ s2 s2); reflexivity].
  intros s3 [artifacts|e] [(H3 & F1 & F2) Hart]; [|eapply staged_refused; by etrans].
  unfold s2 in F1, F2. rewrite stage_of_set in F1, F2.
  apply alone_install_written; [done|by etrans|done|done|by apply Hart].
Qed.
End Alone.

(** ** Publications at the same time *)

Section Shared.
Context `{ResultCodec} `{SourceTree}.
Variable digest : string -> string.

(** What a row of the catalogue refers to. *)
Definition row_stored (s : ResultRoot) (row : CaptureRow) : Prop :=
  cr_path row = "blobs/" +:+ cr_sha256 row /\ exists content, blobs s !! cr_sha256 row = Some content /\ cr_sha256 row = digest content.

(** The invariant; a thread knows hashes of blobs that are there. *)
Record store_inv (s : ResultRoot) (ls : list (list string)) : Prop := {
  si_blobs : forall h c, blobs s !! h = Some c -> digest c = h;
  si_files : forall job h c, st_files (stage_of job s) !! blob_temporary h = Some c -> digest c = h;
  si_rows : Forall (row_stored s) (capture_file (catalog s));
  si_known : forall i l h, ls !! i = Some l -> In h l -> is_Some (blobs s !! h);
}.

Definition store_rank (_ : list string) : nat := 0.
Abbreviation safe' := (safe store_inv store_rank).

(** A change of records, failures and staged records only. *)
Lemma inv_kept s s' ls : store_inv s ls -> blobs s' = blobs s -> catalog s' = catalog s ->
  (forall job name c, st_files (stage_of job s') !! name = Some c -> st_files (stage_of job s) !! name = Some c) ->
  store_inv s' ls.
Proof.
  intros [Hb Hf Hr Hk] E1 E2 Hfiles. split; rewrite ?E1, ?E2; try done.
  - intros job h c Hc. eapply Hf. by apply Hfiles.
  - eapply Forall_impl; [exact Hr|]. intros row. unfold row_stored. by rewrite E1.
Qed.

Lemma stage_of_set_files job st s job' : st_files (stage_of job' (set_stage job st s)) =
  if decide (job = job') then st_files st else st_files (stage_of job' s).
Proof.
  unfold stage_of. simpl. destruct (decide (job = job')) as [<-|Hne]; [by rewrite lookup_insert_eq|by rewrite lookup_insert_ne].
Qed.

Lemma inv_failure s ls : store_inv s ls -> store_inv (with_failure s) ls.
Proof. intros Hi. by eapply inv_kept. Qed.

Lemma safe_attempt l : safe' (fun l' _ => l' = l) l attempt.
Proof.
  unfold attempt. pool_choice. intros [|]; [done|]. apply pool_bind, pool_keep. intros s ls i Hi Hl.
  split; [by apply inv_failure|done].
Qed.

(** An operation after which the thread knows more. *)
Lemma safe_section_learns section l more :
  (forall s ls i s', store_inv s ls -> ls !! i = Some l -> section s = Some s' -> store_inv s' (<[i := more ++ l]> ls)) ->
  safe' (fun l' b => l' = if b : bool then more ++ l else l) l (attempt_section section).
Proof.
  intros Hs. unfold attempt_section. apply pool_bind. eapply pool_mono; [|apply safe_attempt]. intros l1 [|] ->; cbn [negb]; [|done].
  apply pool_move. intros s ls i Hi Hl. destruct (section s) as [s'|] eqn:E; simpl.
  - exists (more ++ l). split; [by eapply Hs|done].
  - exists l. rewrite list_insert_id by done. split; [by apply inv_failure|done].
Qed.

Lemma safe_section section l : (forall s ls s', store_inv s ls -> section s = Some s' -> store_inv s' ls) ->
  safe' (fun l' _ => l' = l) l (attempt_section section).
Proof.
  intros Hs. eapply pool_mono; [|apply (safe_section_learns section l [])].
  - by intros l' [|] ->.
  - intros s ls i s' Hi Hl E. rewrite list_insert_id by done. by eapply Hs.
Qed.

Lemma safe_exists present l : safe' (fun l' _ => l' = l) l (path_exists present).
Proof.
  unfold path_exists. apply pool_bind. eapply pool_mono; [|apply safe_attempt]. intros l1 [|] ->; cbn [negb]; [|done].
  apply pool_keep. done.
Qed.

Lemma inv_learn s ls i l h : store_inv s ls -> ls !! i = Some l -> is_Some (blobs s !! h) -> store_inv s (<[i := h :: l]> ls).
Proof.
  intros [Hb Hf Hr Hk] Hl Hh. split; try done. intros j l' h' Hj Hin.
  apply list_lookup_insert_Some in Hj as [(<- & <- & _)|[_ Hj]]; [|by eapply Hk]. destruct Hin as [<-|Hin]; [done|by eapply Hk].
Qed.

Lemma safe_blob_exists h l :
  safe' (fun l' b => l' = if b : bool then h :: l else l) l (path_exists (fun s => is_some (blobs s !! h))).
Proof.
  unfold path_exists. apply pool_bind. eapply pool_mono; [|apply safe_attempt]. intros l1 [|] ->; cbn [negb]; [|done].
  apply pool_move. intros s ls i Hi Hl. simpl. destruct (blobs s !! h) as [c|] eqn:E; simpl.
  - exists (h :: l). split; [|done]. apply inv_learn; [done|done|by rewrite E].
  - exists l. by rewrite list_insert_id.
Qed.

Lemma blob_temporary_inj h h' : blob_temporary h = blob_temporary h' -> h = h'.
Proof.
  unfold blob_temporary. intros E. assert (El : String.length h = String.length h').
  { apply (f_equal String.length) in E. rewrite !string_length_app in E. lia. }
  revert h' E El. induction h as [|a h IH]; intros [|a' h'] E El; simpl in *; try done. injection E as -> E.
  f_equal. apply IH; [|lia]. by f_equal.
Qed.

(** The stages: what a thread writes there carries its hash. *)
Lemma inv_stage_files job files s ls : store_inv s ls ->
  (forall h c, files !! blob_temporary h = Some c -> digest c = h) ->
  forall rec prev, store_inv (set_stage job (mkStage rec prev files) s) ls.
Proof.
  intros [Hb Hf Hr Hk] Hfiles rec prev. split; try done. intros job' h c. rewrite stage_of_set_files.
  destruct (decide (job = job')); [apply Hfiles|apply Hf].
Qed.

#[local] Hint Resolve incl_refl : core.

(** What a thread knows only grows. *)
Definition knows_more (l : list string) {A} (P : list string -> A -> Prop) (l' : list string) (a : A) : Prop :=
  incl l l' /\ P l' a.

Lemma safe_store_blob job content l :
  safe' (knows_more l (fun l' r => r = Ok tt -> In (digest content) l')) l (store_blob job (digest content) content).
Proof.
  unfold store_blob. set (h := digest content). apply pool_bind. eapply pool_mono; [|apply safe_blob_exists].
  intros l1 [|] ->. { split; [by apply incl_tl|]. intros _. by left. }
  apply pool_bind. eapply pool_mono; [|apply safe_section].
  2: { intros s ls s' Hi [= <-]. apply inv_stage_files; [done|]. intros h' c Hc.
       apply lookup_insert_Some in Hc as [[E <-]|[_ Hc]]; [by apply blob_temporary_inj in E|].
       by eapply (si_files _ _ Hi). }
  intros l1 [|] ->; cbn [negb]; [|done]. apply pool_bind. eapply pool_mono; [|apply (safe_section_learns _ l [h])].
  2: { intros s ls i s' Hi Hl. destruct (st_files (stage_of job s) !! blob_temporary h) as [file|] eqn:Ef; [|done]. intros [= <-].
       assert (Hfile : digest file = h) by (by eapply (si_files _ _ Hi)).
       set (s1 := set_stage job _ s). assert (Hi1 : store_inv s1 ls).
       { apply inv_stage_files; [done|]. intros h' c Hc. apply lookup_delete_Some in Hc as [_ Hc]. by eapply (si_files _ _ Hi). }
       assert (Hkeep : forall h', is_Some (blobs s !! h') -> is_Some (<[h := file]> (blobs s) !! h')).
       { intros h' Hh'. destruct (decide (h = h')) as [<-|Hne]; [by rewrite lookup_insert_eq|by rewrite lookup_insert_ne]. }
       apply inv_learn; [|done|by simpl; rewrite lookup_insert_eq].
       destruct Hi1 as [Hb Hf Hr Hk]. split; simpl; try done.
       - intros h' c Hc. destruct (decide (h = h')) as [<-|Hne]; [rewrite lookup_insert_eq in Hc; by injection Hc as <-|].
         rewrite lookup_insert_ne in Hc by done. by apply Hb.
       - eapply Forall_impl; [exact Hr|]. intros row (Hp & c & Hc & Hd). split; [done|].
         simpl. destruct (decide (h = cr_sha256 row)) as [Hsame|Hne]; [exists file|exists c].
         + rewrite Hsame, lookup_insert_eq. by rewrite <- Hsame, Hfile.
         + by rewrite lookup_insert_ne.
       - intros j l' h' Hj Hin. apply Hkeep. by eapply Hk. }
  intros l1 [|] ->. { split; [by apply incl_tl|]. intros _. by left. }
  apply pool_bind. eapply pool_mono; [|apply safe_blob_exists]. intros l1 [|] ->; cbn [negb]; [|done].
  apply pool_bind. eapply pool_mono; [|apply safe_section].
  2: { intros s ls s' Hi [= <-]. apply inv_stage_files; [done|]. intros h' c Hc.
       apply lookup_delete_Some in Hc as [_ Hc]. by eapply (si_files _ _ Hi). }
  intros l1 _ ->. split; [by apply incl_tl|]. intros _. by left.
Qed.

Lemma safe_source directory path l : safe' (fun l' _ => l' = l) l (artifact_source directory path).
Proof.
  unfold artifact_source. destruct (safe_relative path) as [relative|e]; [|done].
  apply pool_bind. eapply pool_mono; [|apply safe_attempt]. intros l1 b1 ->. destruct (if b1 then _ else _) as [source|]; [|done].
  apply pool_bind. eapply pool_mono; [|apply safe_attempt]. intros l1 b2 ->. destruct (if b2 then _ else _) as [source_root|]; [|done].
  apply pool_bind. eapply pool_mono; [|apply safe_attempt]. intros l1 b3 ->. destruct (if b3 then _ else _) as [content|]; [|done].
  destruct (negb _); [done|]. apply pool_bind. eapply pool_mono; [|apply safe_attempt]. by intros l1 b4 ->.
Qed.

(** An artifact whose blob the thread knows. *)
Definition artifact_known (l : list string) (a : ResultArtifact) : Prop :=
  ra_path a = "blobs/" +:+ ra_sha256 a /\ In (ra_sha256 a) l.

Lemma safe_copy_artifact directory job a l :
  safe' (knows_more l (fun l' r => forall a', r = Ok a' -> artifact_known l' a')) l (copy_artifact digest directory job a).
Proof.
  unfold copy_artifact. apply pool_bind. eapply pool_mono; [|apply safe_source]. intros l1 [content|e] ->; [|done].
  do 2 (destruct (_ && _); [done|]). apply pool_bind. eapply pool_mono; [|apply safe_store_blob].
  intros l2 [[]|e] [Hl Hin]; (split; [done|]); [|done]. intros a' [= <-]. split; [done|by apply Hin].
Qed.

Lemma safe_copy_artifacts directory job l : forall known,
  safe' (knows_more known (fun l' r => forall l2, r = Ok l2 -> Forall (artifact_known l') l2)) known
    (copy_artifacts digest directory job l).
Proof.
  induction l as [|a l IH]; intros known; cbn [copy_artifacts]. { split; [done|]. by intros l2 [= <-]. }
  apply pool_bind. eapply pool_mono; [|apply safe_copy_artifact]. intros l1 [a'|e] [H1 Ha]; [|done].
  apply pool_bind. eapply pool_mono; [|apply (IH l1)]. intros l2 [l'|e] [H2 Hl]; (split; [by eapply incl_tran|]); [|done].
  intros l3 [= <-]. constructor; [|by apply Hl]. destruct (Ha a' eq_refl) as [Hp Hin]. split; [done|by apply H2].
Qed.

Lemma insert_all_forall {A B} (P : B -> Prop) (id : B -> string) (row : A -> B) items : forall rows rows',
  Forall P rows -> Forall (fun a => P (row a)) items -> insert_all id row items rows = Some rows' -> Forall P rows'.
Proof.
  induction items as [|a items IH]; intros rows rows' Hrows Hitems E; cbn [insert_all] in E; [by injection E as <-|].
  unfold insert_unique in E. destruct (existsb _ rows); [done|]. apply Forall_cons in Hitems as [Ha Hitems].
  eapply IH; [|done|exact E]. apply Forall_app. auto.
Qed.

Lemma inv_commit r g c s ls i l : Forall (artifact_known l) (ur_artifacts r) -> store_inv s ls -> ls !! i = Some l ->
  catalog_publish r (catalog s) = Some (g, c) -> store_inv (with_catalog c s) ls.
Proof.
  intros Hr Hi Hl E. destruct Hi as [Hb Hf Hrows Hk]. split; simpl; try done.
  unfold catalog_publish in E. destruct (next_generation _); [|done]. destruct (insert_all dr_id _ _ _); [|done].
  destruct (insert_all cr_id _ _ _) as [files|] eqn:Ei; [|done]. injection E as _ <-. simpl.
  eapply insert_all_forall; [| |exact Ei].
  - rewrite List.Forall_forall in Hrows |- *. intros row [Hin _]%filter_In. by apply Hrows.
  - eapply Forall_impl; [exact Hr|]. intros a [Hp Hin]. split; [done|]. simpl. destruct (Hk i l (ra_sha256 a) Hl Hin) as [c Hc].
    exists c. split; [done|]. symmetry. by apply Hb.
Qed.

Lemma safe_commit r l : Forall (artifact_known l) (ur_artifacts r) -> safe' (fun l' _ => l' = l) l (commit_result r).
Proof.
  intros Hr. unfold commit_result. apply pool_bind. eapply pool_mono; [|apply safe_attempt]. intros l1 [|] ->; cbn [negb].
  - apply pool_keep. intros s ls i Hi Hl. destruct (catalog_publish r (catalog s)) as [[g c]|] eqn:E; simpl; [|split; [by apply inv_failure|done]].
    split; [|done]. by eapply inv_commit.
  - pool_choice. intros [|]; [|done]. apply pool_bind, pool_keep. intros s ls i Hi Hl. split; [|done]. simpl.
    destruct (catalog_publish r (catalog s)) as [[g c]|] eqn:E; [|done]. by eapply inv_commit.
Qed.

Lemma inv_set_stage job rec prev s ls : store_inv s ls ->
  store_inv (set_stage job (mkStage rec prev (st_files (stage_of job s))) s) ls.
Proof. intros Hi. apply inv_stage_files; [done|]. intros h c. by apply (si_files _ _ Hi). Qed.

Lemma inv_records v s ls : store_inv s ls -> store_inv (with_records v s) ls.
Proof. intros Hi. by eapply inv_kept. Qed.

(** A section that moves directories about. *)
Ltac moves := apply safe_section; intros s ls s' Hi; cbv beta zeta; repeat case_match; try done; intros [= <-];
  try apply inv_records; by apply inv_set_stage.

Lemma safe_write_files job files l : safe' (fun l' _ => l' = l) l (write_files job files).
Proof.
  induction files as [|[name text] files IH]; cbn [write_files]; [done|]. apply pool_bind.
  apply (pool_mono _ _ _ (fun l' _ => l' = l)); [intros l1 [|] ->; cbn [negb]; [apply IH|done]|]. unfold write_staged. moves.
Qed.

Lemma safe_put_aside job id l : safe' (fun l' _ => l' = l) l (record_to_previous job id).
Proof. unfold record_to_previous. moves. Qed.
Lemma safe_put_back job id l : safe' (fun l' _ => l' = l) l (previous_to_record job id).
Proof. unfold previous_to_record. moves. Qed.
Lemma safe_move_in job id l : safe' (fun l' _ => l' = l) l (stage_to_record job id).
Proof. unfold stage_to_record. moves. Qed.

Lemma safe_discard job l : safe' (fun l' _ => l' = l) l (discard_stage job).
Proof.
  unfold discard_stage. apply pool_bind. eapply pool_mono; [|apply safe_section].
  - by intros l1 _ ->.
  - intros s ls s' Hi [= <-]. eapply inv_kept; try done. intros job' name c. unfold stage_of. simpl.
    destruct (decide (job = job')) as [<-|Hne]; [by rewrite lookup_delete_eq|by rewrite lookup_delete_ne].
Qed.

Lemma safe_drop_previous job l : safe' (fun l' _ => l' = l) l (drop_previous job).
Proof.
  unfold drop_previous. apply pool_bind. eapply pool_mono; [|apply safe_exists]. intros l1 [|] ->; [|done].
  apply pool_bind. apply (pool_mono _ _ _ (fun l' _ => l' = l)); [by intros l1 _ ->|]. moves.
Qed.

Lemma safe_remove id l : safe' (fun l' _ => l' = l) l (remove_record id).
Proof.
  unfold remove_record. apply pool_bind. eapply pool_mono; [|apply safe_attempt]. intros l1 [|] ->.
  - apply pool_bind, pool_keep. intros s ls i Hi Hl. split; [by apply inv_records|done].
  - pool_choice. intros d. apply pool_bind, pool_keep. intros s ls i Hi Hl. split; [by apply inv_records|done].
Qed.

Lemma safe_restore job id l : safe' (fun l' _ => l' = l) l (restore_previous_record job id).
Proof.
  unfold restore_previous_record. apply pool_bind. eapply pool_mono; [|apply safe_exists]. intros l1 there ->.
  apply pool_bind. apply (pool_mono _ _ _ (fun l' _ => l' = l)).
  - intros l1 [|] ->; cbn [negb]; [|done]. apply pool_bind. eapply pool_mono; [|apply safe_exists].
    intros l1 [|] ->; [apply safe_put_back|done].
  - destruct there; [apply safe_remove|done].
Qed.

Lemma safe_install job id r l : Forall (artifact_known l) (ur_artifacts r) -> safe' (fun _ _ => True) l (install_record job id r).
Proof.
  intros Hr. unfold install_record. apply pool_bind. eapply pool_mono; [|apply safe_exists]. intros l1 there ->.
  apply pool_bind. apply (pool_mono _ _ _ (fun l' _ => l' = l)); [|destruct there; [apply safe_put_aside|done]].
  intros l1 [|] ->; cbn [negb]; [|done]. apply pool_bind. eapply pool_mono; [|apply safe_move_in]. intros l1 [|] ->; cbn [negb].
  - apply pool_bind. eapply pool_mono; [|by apply safe_commit]. intros l1 [g|] ->.
    + apply pool_bind. eapply pool_mono; [|apply safe_drop_previous]. intros l1 _ ->.
      apply pool_bind. eapply pool_mono; [|apply safe_discard]. done.
    + apply pool_bind. eapply pool_mono; [|apply safe_restore]. intros l1 [|] ->; cbn [negb]; [|done].
      apply pool_bind. eapply pool_mono; [|apply safe_discard]. done.
  - apply pool_bind. eapply pool_mono; [|apply safe_exists]. intros l1 kept ->. apply pool_bind.
    apply (pool_mono _ _ _ (fun l' _ => l' = l)); [done|]. destruct kept; [apply safe_put_back|done].
Qed.

Lemma safe_existing input l : safe' (fun l' _ => l' = l) l (existing_generation_if_unchanged input).
Proof.
  unfold existing_generation_if_unchanged. apply pool_bind. eapply pool_mono; [|apply safe_exists].
  intros l1 [|] ->; cbn [negb]; [|done]. apply pool_bind. eapply pool_mono; [|apply safe_attempt]. intros l1 readable ->.
  apply pool_bind, pool_keep. intros s ls i Hi Hl. split; [done|]. cbn [fst]. destruct (if readable then _ else _) as [text|]; [|done].
  destruct (parse_result text) as [old|]; [|done]. destruct (negb _); [done|].
  apply pool_bind. eapply pool_mono; [|apply safe_attempt]. intros l1 [|] ->; cbn [negb]; [|done].
  apply pool_bind, pool_keep. done.
Qed.

Lemma safe_publish suffix input l : safe' (fun _ _ => True) l (publish digest suffix input).
Proof.
  unfold publish. destruct (validate_id _); [|done]. do 2 (destruct (negb _); [done|]).
  apply pool_bind. eapply pool_mono; [|apply safe_existing]. intros l1 [[g|]|e] ->; [done| |done].
  apply pool_bind. apply (pool_mono _ _ _ (fun l' _ => l' = l)); [|moves]. intros l1 [|] ->; cbn [negb]; [|done].
  apply pool_bind. eapply pool_mono; [|apply safe_copy_artifacts]. intros l2 [artifacts|e] [_ Ha]; [|done].
  apply pool_bind. eapply pool_mono; [|apply safe_write_files]. intros l3 [|] ->; cbn [negb]; [|done].
  apply safe_install. by apply Ha.
Qed.
End Shared.

(** ** Theorems *)

Section Theorems.
Context `{ResultCodec} `{SourceTree}.
Variable digest : string -> string.

(** C31. A publication settles. Run alone, with no other publication under way, in a staging directory of
    its own, and whatever operation of the operating system or the database fails, a publication comes to
    an end in one of three ways. It answers the generation of a result already published under the same
    identification, which agrees with it (in its texts, hashes and counts, its defects and its artifacts),
    and changes neither records nor catalogue. Or it answers a new generation, above every earlier one: the
    record directory holds exactly the files of the result; the catalogue has the row of the inspection, a
    row for each defect and for each artifact in their order and no other rows of this inspection, and its
    other rows are as they were; every artifact was read from below the source directory, has the size and
    hash it was announced with and is catalogued under the blob of its content, which is there. Or it fails:
    the records of other inspections are as they were, and so is the record of this one unless a second
    operation failed; the catalogue is as it was, unless an operation failed that took effect all the same
    (the commit), and then it has the rows of the result. *)
Theorem publish_settles (suffix : Z) (input : PublishInput) (s : ResultRoot) :
  staging s !! job_id input suffix = None ->
  alone (publish_outcome digest input s) s (publish digest suffix input).
Proof. apply alone_publish. Qed.

(** The text of a SHA-256 hash: 64 lower-case hexadecimal digits. *)
Definition sha256_text (h : string) : Prop :=
  String.length h = 64%nat /\ all_bytes (fun a => is_ascii_digit a || byte_between 97 102 a) h = true.

Lemma hex_lower a : is_ascii_digit a || byte_between 97 102 a = true ->
  is_ascii_hexdigit a = true /\ ascii_lower a = a /\ byte_is a 92 = false /\ byte_is a 47 = false.
Proof.
  intros Ha. unfold is_ascii_hexdigit, ascii_lower, is_ascii_uppercase, byte_is, is_ascii_digit, byte_between in *.
  repeat split; [|case_match; [lia|done]|lia|lia]. lia.
Qed.

Lemma hex_text h : all_bytes (fun a => is_ascii_digit a || byte_between 97 102 a) h = true ->
  all_bytes is_ascii_hexdigit h = true /\ to_ascii_lowercase h = h /\ contains "/" h = false /\
  replace_byte (ascii_of_nat 92) (ascii_of_nat 47) h = h.
Proof.
  induction h as [|a h IH]; [done|]. cbn [all_bytes]. intros [Ha Hh]%andb_true_iff.
  destruct (IH Hh) as (H1 & H2 & H3 & H4). apply hex_lower in Ha as (Hx & Hl & Hb & Hs).
  cbn [all_bytes to_ascii_lowercase replace_byte]. rewrite Hx, Hl, H1, H2, H4. split; [done|]. split; [done|]. split.
  - unfold contains in *. cbn [split_once strip_prefix]. rewrite bool_decide_eq_false_2.
    + destruct (split_once "/" h) as [[]|]; done.
    + intros E. by rewrite <- E in Hs.
  - rewrite bool_decide_eq_false_2; [done|]. intros E. by rewrite E in Hb.
Qed.

(** The catalogue of the image service accepts the path of a blob. *)
Lemma blob_identity h : sha256_text h -> validated_blob_identity ("blobs/" +:+ h) = Some h.
Proof.
  intros [Hl Hh]. destruct (hex_text h Hh) as (H1 & H2 & H3 & H4). unfold validated_blob_identity.
  replace (replace_byte (ascii_of_nat 92) (ascii_of_nat 47) ("blobs/" +:+ h)) with ("blobs/" +:+ h).
  - rewrite strip_prefix_app with (r := ""); [|done]. change ("" +:+ h) with h. cbv beta iota. unfold str_len. rewrite Hl, H3, H1, H2. done.
  - symmetry. change ("blobs/" +:+ replace_byte (ascii_of_nat 92) (ascii_of_nat 47) h = "blobs/" +:+ h). by rewrite H4.
Qed.

(** C32. Published artifacts can be served. Whatever publications run at the same time, in any
    interleaving and with any failures, every file the catalogue lists at any moment has a path the image
    service accepts, with the recorded hash as its identity, and the blob of that identity is there with
    a content of that hash. The source files are those of one [SourceTree]: they do not change meanwhile. *)
Theorem published_artifacts_resolve (s : ResultRoot) (pool : Pool) (row : CaptureRow) :
  (forall content, sha256_text (digest content)) ->
  store_inv digest s [] ->
  rtc (pool_step (fun '(suffix, input) => publish digest suffix input)) (mkPool s []) pool ->
  In row (capture_file (catalog (shared pool))) ->
  validated_blob_identity (cr_path row) = Some (cr_sha256 row) /\
  exists content, blobs (shared pool) !! cr_sha256 row = Some content /\ digest content = cr_sha256 row.
Proof.
  intros Hhex Hs Hr Hin.
  destruct (pool_reachable_safe (fun '(suffix, input) => publish digest suffix input) [] (store_inv digest) store_rank
    (fun _ _ _ => True)) with (s := s) (pool := pool) as (ls & Hinv & _); try done.
  - intros s1 ls [Hb Hf Hrows Hk]. split; try done. intros i l h Hl Hh.
    apply lookup_app_Some in Hl as [Hl|[_ Hl]]; [by eapply Hk|]. destruct (i - length ls)%nat as [|[|]]; by simplify_eq/=.
  - intros [suffix input]. apply safe_publish.
  - pose proof (si_rows _ _ _ Hinv) as Hrows. rewrite List.Forall_forall in Hrows.
    destruct (Hrows row Hin) as (Hp & content & Hc & Hd). split; [|by exists content].
    rewrite Hp. apply blob_identity. rewrite Hd. apply Hhex.
Qed.
End Theorems.

(** ** Runs *)

Module ResultRun.

Definition sample (source_hash : string) : UnifiedResult :=
  mkUnifiedResult RESULT_SCHEMA "r1" "s1" "m1" "capture" "r1" None "ok" 1 ["C1"] 0 (mkResultMaterial None None None None)
    [mkResultArtifact "a1" "C1" 0 "intensity" "c1.png" "image/png" 0 "" None None] [] source_hash "c" "v" "now".

(** A codec that keeps the source hash, and one source file. *)
#[local] Instance sample_codec : ResultCodec := {|
  print_result := ur_source_hash;
  parse_result := fun text => Some (sample text);
  print_material := fun _ => "{}";
  print_value := fun _ => "null";
  print_pretty := fun _ => "{}";
|}.

#[local] Instance sample_tree : SourceTree := {|
  canonicalize := Some;
  below := fun source source_root => starts_with source_root source;
  file_content := fun path => if path == "/in/c1.png" then Some "pixels" else None;
|}.

Definition hash64 : string := "0123456789abcdef0123456789abcdef0123456789abcdef0123456789abcdef".
Definition sample_digest (_ : string) : string := hash64.
Definition input (source_hash : string) : PublishInput := mkPublishInput "r1" (sample source_hash) "/in" None.
Definition empty_root : ResultRoot := mkResultRoot ∅ ∅ ∅ (mkCatalog [] [] []) 0.

Definition after (section : ResultRoot -> option ResultRoot) (s : ResultRoot) : ResultRoot := unwrap_or (section s) s.

Lemma runs_attempt {A} s (f : bool -> Store A) s' p : runs s (f true) s' p -> runs s (prog_bind attempt f) s' p.
Proof. intros Hr. unfold attempt. eapply runs_bind; [apply (runs_choose true), RunsHere|]. exact Hr. Qed.

Lemma runs_op {A} section s (f : bool -> Store A) s' p : is_some (section s) = true ->
  runs (after section s) (f true) s' p -> runs s (prog_bind (attempt_section section) f) s' p.
Proof.
  unfold after. destruct (section s) as [s1|] eqn:E; [|done]. intros _ Hr. apply (runs_bind s _ s1 (Ret true)); [|exact Hr]. unfold attempt_section.
  apply runs_attempt. cbn [negb]. eapply RunsOn; [|apply RunsHere]. unfold atomically.
  apply (ThreadSection s _ _ Ret). by rewrite E.
Qed.

Lemma runs_exists {A} present s b (f : bool -> Store A) s' p : present s = b -> runs s (f b) s' p ->
  runs s (prog_bind (path_exists present) f) s' p.
Proof.
  intros <- Hr. apply (runs_bind s _ s (Ret (present s))); [|exact Hr]. apply runs_attempt. cbn [negb]. eapply RunsOn; [|apply RunsHere].
  unfold reading, atomically. by apply (ThreadSection s _ _ Ret).
Qed.

Lemma runs_last {B} (section : ResultRoot -> B * ResultRoot) s b : fst (section s) = b ->
  runs s (atomically section) (snd (section s)) (Ret b).
Proof. intros <-. eapply RunsOn; [|apply RunsHere]. apply (ThreadSection s _ _ Ret). by destruct (section s). Qed.

Ltac ret := change (prog_bind (Ret ?a) ?f) with (f a); cbv beta iota zeta.
Ltac op := first
  [ apply runs_attempt
  | eapply runs_op; [vm_compute; reflexivity|]
  | eapply runs_exists; [vm_compute; reflexivity|]
  | eapply runs_atomically; [vm_compute; reflexivity|] ]; cbv beta iota zeta; cbn [negb].

Definition artifact : ResultArtifact := mkResultArtifact "a1" "C1" 0 "intensity" "c1.png" "image/png" 0 "" None None.

Lemma source_runs s : runs s (artifact_source "/in" "c1.png") s (Ret (Ok "pixels")).
Proof.
  unfold artifact_source. change (safe_relative _) with (@Ok string ResultStoreError "c1.png"). cbv iota.
  op. cbn [canonicalize sample_tree]. op. op. change (file_content _) with (Some "pixels"). cbv iota.
  change (below _ _) with true. cbn [negb]. op. apply RunsHere.
Qed.

Lemma copy_runs s s' job : runs s (store_blob job hash64 "pixels") s' (Ret (Ok tt)) ->
  runs s (copy_artifacts sample_digest "/in" job [artifact]) s' (Ret (Ok [stored_artifact sample_digest artifact "pixels"])).
Proof.
  intros Hb. cbn [copy_artifacts]. eapply runs_bind.
  - unfold copy_artifact. eapply runs_bind; [apply source_runs|]. ret. cbn [ra_size artifact ra_sha256 is_empty negb andb].
    change (0 =? 0) with true. cbn [negb andb]. eapply runs_bind; [exact Hb|]. ret. apply RunsHere.
  - ret. apply RunsHere.
Qed.

Lemma publish_runs : exists s, runs empty_root (publish sample_digest 1 (input "h1")) s (Ret (Ok 1)) /\
  exists row, capture_file (catalog s) = [row].
Proof.
  eexists. split.
  - unfold publish. change (validate_id _) with (@Ok unit ResultStoreError tt). cbv iota.
    change (_ == RESULT_SCHEMA) with true. change (_ == in_inspection_id _) with true. cbn [negb].
    eapply runs_bind; [unfold existing_generation_if_unchanged; op; apply RunsHere|]. ret. op.
    eapply runs_bind; [apply copy_runs; unfold store_blob; op; op; op; apply RunsHere|]. ret.
    eapply runs_bind; [cbn [write_files record_files in_source_provenance input app]; unfold write_staged; op; op; op; apply RunsHere|].
    ret. cbn [negb]. unfold install_record, record_exists, stage_to_record. op. ret. cbn [negb]. op.
    eapply runs_bind; [unfold commit_result; op; apply runs_last; vm_compute; reflexivity|]. ret.
    eapply runs_bind; [unfold drop_previous, previous_exists; op; apply RunsHere|]. ret.
    eapply runs_bind; [unfold discard_stage; op; apply RunsHere|]. ret. apply RunsHere.
  - eexists. vm_compute. reflexivity.
Qed.

Lemma publish_settles_witness : exists s',
  staging empty_root !! job_id (input "h1") 1 = None /\ publish_outcome sample_digest (input "h1") empty_root s' (Ok 1).
Proof.
  destruct publish_runs as (s' & Hr & _). exists s'. split; [reflexivity|].
  apply (alone_runs (publish sample_digest 1 (input "h1")) _ empty_root s' (Ok 1)); [|exact Hr].
  apply (publish_settles sample_digest 1 (input "h1") empty_root). reflexivity.
Defined.

Lemma empty_root_sound digest : store_inv digest empty_root [].
Proof. split; done. Qed.

Lemma published_artifacts_resolve_witness : exists (pool : @Pool ResultRoot (Result Z ResultStoreError) (Z * PublishInput)) row,
  In row (capture_file (catalog (shared pool))) /\ validated_blob_identity (cr_path row) = Some (cr_sha256 row).
Proof.
  destruct publish_runs as (s' & Hr & row & Hrow).
  exists (mkPool s' [((1, input "h1"), Ret (Ok 1))]), row.
  assert (Hin : In row (capture_file (catalog s'))) by (rewrite Hrow; by left).
  split; [exact Hin|].
  apply (published_artifacts_resolve sample_digest empty_root (mkPool s' [((1, input "h1"), Ret (Ok 1))]) row); [|apply empty_root_sound| |exact Hin].
  - intros content. split; vm_compute; reflexivity.
  - eapply rtc_l; [apply (PoolStart _ _ _ (1, input "h1"))|].
    exact (pool_runs _ empty_root [((1, input "h1"), publish sample_digest 1 (input "h1"))] 0 (1, input "h1") _ s' _ eq_refl Hr).
Defined.

(** A record published before. *)
Definition old_root : ResultRoot :=
  mkResultRoot {["r1" := {["result.json" := "h1"]}]} {[hash64 := "pixels"]} ∅
    (mkCatalog [inspection_row (sample "h1") 1] [] [capture_row (sample "h1") (stored_artifact sample_digest artifact "pixels")]) 0.

(** An interrupted publication is taken for done. When the process ends between the move of the new
    record into place and the commit, publishing the same result again finds the new record in place and
    any generation in the catalogue, answers that generation, and leaves the rows of the older result in
    the catalogue for good. *)
Theorem interrupted_publication_forgotten : exists s p s2,
  runs old_root (publish sample_digest 1 (input "h2")) s p /\
  runs s (publish sample_digest 2 (input "h2")) s2 (Ret (Ok 1)) /\
  record_file "r1" "result.json" s2 = Some "h2" /\ catalog s2 = catalog old_root /\
  map ir_source_hash (production_inspection (catalog s2)) = ["h1"].
Proof.
  do 3 eexists. split; [|split].
  - unfold publish. change (validate_id _) with (@Ok unit ResultStoreError tt). cbv iota.
    change (_ == RESULT_SCHEMA) with true. change (_ == in_inspection_id _) with true. cbn [negb].
    eapply runs_bind; [unfold existing_generation_if_unchanged; op; op; op; cbn [parse_result sample_codec]; change (result_unchanged _ _) with false; cbn [negb]; apply RunsHere|].
    ret. op. eapply runs_bind; [apply copy_runs; unfold store_blob; op; apply RunsHere|]. ret.
    eapply runs_bind; [cbn [write_files record_files in_source_provenance input app]; unfold write_staged; op; op; op; apply RunsHere|].
    ret. cbn [negb]. unfold install_record, record_exists, stage_to_record, record_to_previous. op. op. op. apply RunsHere.
  - unfold publish. change (validate_id _) with (@Ok unit ResultStoreError tt). cbv iota.
    change (_ == RESULT_SCHEMA) with true. change (_ == in_inspection_id _) with true. cbn [negb].
    eapply runs_bind.
    + unfold existing_generation_if_unchanged. op. op. op.
      cbn [parse_result sample_codec]. change (result_unchanged _ _) with true. cbn [negb]. op. op. apply RunsHere.
    + ret. apply RunsHere.
  - vm_compute. done.
Qed.
End ResultRun.
