(* ===== verification/Surface.v ===== *)
(** * The standard-surface contracts

    app/result-contract/src/surface.rs: the descriptors of frame chunks, surface tiles and tile
    manifests with their [validate] functions, and the declarative meaning of a valid one. Numbers of
    type [f32] are IEEE 754 values of the Standard Library's [SpecFloat]; only their comparisons are
    used. *)

From S2P Require Import Prelude Float64.
From Stdlib Require Import Ascii SpecFloat.

Definition FRAME_CHUNK_SCHEMA : string := "steel.frame-chunk.v1".
Definition SURFACE_TILE_SCHEMA : string := "steel.surface-tile.v1".
Definition SURFACE_MANIFEST_SCHEMA : string := "steel.surface.tiles.v1".

(** ** Descriptors *)

Inductive GeometryProfile := Plate | Cylinder.

(** [CalibrationRef]. *)
Record CalibrationRef := mkCalibrationRef {
  cal_revision : string;
  cal_sha256 : string;
}.

(** [BinaryPlaneRef]. *)
Record BinaryPlaneRef := mkBinaryPlaneRef {
  pl_path : string;
  pl_scalar_type : string;
  pl_byte_order : string;
  pl_size : Z;
  pl_sha256 : string;
}.

(** [FrameChunkDescriptor]. *)
Record FrameChunkDescriptor := mkFrameChunkDescriptor {
  fc_schema : string;
  fc_camera_id : string;
  fc_sequence : Z;
  fc_width : Z;
  fc_height : Z;
  fc_depth_c16 : BinaryPlaneRef;
  fc_intensity_u8 : option BinaryPlaneRef;
  fc_valid_bits : BinaryPlaneRef;
  fc_device_timestamp_ns : option Z;
  fc_host_monotonic_ns : Z;
  fc_encoder_position : option Z;
  fc_calibration : CalibrationRef;
  fc_complete : bool;
}.

(** [[f32; 6]]. *)
Record Bounds := mkBounds { b0 : f64; b1 : f64; b2 : f64; b3 : f64; b4 : f64; b5 : f64 }.

(** [SurfaceTileDescriptor]. *)
Record SurfaceTileDescriptor := mkSurfaceTileDescriptor {
  st_schema : string;
  st_tile_id : string;
  st_lod : Z;
  st_u0_mm : f64;
  st_v0_mm : f64;
  st_du_mm : f64;
  st_dv_mm : f64;
  st_rows : Z;
  st_cols : Z;
  st_residual_mm : BinaryPlaneRef;
  st_intensity_u8 : option BinaryPlaneRef;
  st_valid_bits : BinaryPlaneRef;
  st_geometric_error_mm : f64;
  st_bounds_mm : Bounds;
}.

(** [SurfaceTileManifest]. *)
Record SurfaceTileManifest := mkSurfaceTileManifest {
  sm_schema : string;
  sm_material_id : string;
  sm_geometry : GeometryProfile;
  sm_coordinate_unit : string;
  sm_calibration : CalibrationRef;
  sm_artifact_sha256 : string;
  sm_bounds_mm : Bounds;
  sm_tiles : list SurfaceTileDescriptor;
}.

(** ** Validation *)

Definition zero32 : f64 := S754_zero false.

(** [is_sha256]. *)
Definition is_sha256 (value : string) : bool := (str_len value =? 64) && all_bytes is_ascii_hexdigit value.

(** [u64::div_ceil]. *)
Definition div_ceil (n d : Z) : Z := if n mod d =? 0 then n / d else n / d + 1.

(** The [expected_bytes] of [validate_binary_plane]. *)
Definition plane_bytes (elements : Z) (scalar_type : string) : Result Z string :=
  if scalar_type == "bit" then Ok (div_ceil elements 8)
  else if scalar_type == "u8" then Ok elements
  else if scalar_type == "u16" then
    match checked_mul u64_max elements 2 with Some n => Ok n | None => Err "binary plane size overflow" end
  else if scalar_type == "f32" then
    match checked_mul u64_max elements 4 with Some n => Ok n | None => Err "binary plane size overflow" end
  else Err "unsupported binary plane scalar type".

(** [validate_binary_plane]. *)
Definition validate_binary_plane (plane : BinaryPlaneRef) (expected_elements : Z) (expected_scalar_type : string) : Result unit string :=
  if is_blank (pl_path plane) || negb (is_sha256 (pl_sha256 plane)) then Err "binary plane path/hash is invalid"
  else if negb (pl_byte_order plane == "little") || negb (pl_scalar_type plane == expected_scalar_type)
  then Err "binary plane scalar type/byte order is invalid"
  else
    match plane_bytes expected_elements expected_scalar_type with
    | Err e => Err e
    | Ok expected_bytes =>
        if negb (pl_size plane =? expected_bytes)
        then Err ("binary plane size mismatch: expected " +:+ dec expected_bytes +:+ ", found " +:+ dec (pl_size plane))
        else Ok tt
    end.

Definition validate_optional_plane (plane : option BinaryPlaneRef) (elements : Z) (scalar_type : string) : Result unit string :=
  match plane with Some p => validate_binary_plane p elements scalar_type | None => Ok tt end.

(** [valid_bounds]. *)
Definition valid_bounds (b : Bounds) : bool :=
  forallb f64_is_finite [b0 b; b1 b; b2 b; b3 b; b4 b; b5 b]
  && f64_le (b0 b) (b3 b) && f64_le (b1 b) (b4 b) && f64_le (b2 b) (b5 b).

(** [CalibrationRef::validate]. *)
Definition validate_calibration (c : CalibrationRef) : Result unit string :=
  if is_blank (cal_revision c) || negb (is_sha256 (cal_sha256 c)) then Err "calibration revision/hash is invalid" else Ok tt.

(** The [?] of a validation. *)
Definition and_then (r : Result unit string) (k : Result unit string) : Result unit string :=
  match r with Ok _ => k | Err e => Err e end.

(** [FrameChunkDescriptor::validate]. *)
Definition validate_frame_chunk (f : FrameChunkDescriptor) : Result unit string :=
  if negb (fc_schema f == FRAME_CHUNK_SCHEMA) || is_blank (fc_camera_id f) || (fc_width f =? 0) || (fc_height f =? 0)
     || (fc_host_monotonic_ns f =? 0)
  then Err "frame chunk schema/dimensions are invalid"
  else
    and_then (validate_calibration (fc_calibration f))
      (let elements := wrap_u64 (fc_width f * fc_height f) in
       and_then (validate_binary_plane (fc_depth_c16 f) elements "u16")
         (and_then (validate_optional_plane (fc_intensity_u8 f) elements "u8")
            (and_then (validate_binary_plane (fc_valid_bits f) elements "bit")
               (if negb (fc_complete f) then Err "incomplete frame chunks cannot enter reconstruction" else Ok tt)))).

(** [SurfaceTileDescriptor::validate]. *)
Definition validate_tile (t : SurfaceTileDescriptor) : Result unit string :=
  if negb (st_schema t == SURFACE_TILE_SCHEMA) || is_blank (st_tile_id t) || (st_rows t =? 0) || (st_cols t =? 0)
     || f64_le (st_du_mm t) zero32 || f64_le (st_dv_mm t) zero32
     || negb (f64_is_finite (st_u0_mm t)) || negb (f64_is_finite (st_v0_mm t))
     || negb (f64_is_finite (st_du_mm t)) || negb (f64_is_finite (st_dv_mm t))
     || negb (f64_is_finite (st_geometric_error_mm t)) || f64_lt (st_geometric_error_mm t) zero32
     || negb (valid_bounds (st_bounds_mm t))
  then Err "surface tile identity/dimensions are invalid"
  else
    let elements := wrap_u64 (st_rows t * st_cols t) in
    and_then (validate_binary_plane (st_residual_mm t) elements "f32")
      (and_then (validate_optional_plane (st_intensity_u8 t) elements "u8")
         (validate_binary_plane (st_valid_bits t) elements "bit")).

(** The loop over the tiles, with the ids seen so far. *)
Fixpoint validate_tiles (tiles : list SurfaceTileDescriptor) (tile_ids : gset string) : Result unit string :=
  match tiles with
  | [] => Ok tt
  | tile :: rest =>
      if bool_decide (st_tile_id tile ∈ tile_ids) then Err "surface manifest contains duplicate tile ids"
      else and_then (validate_tile tile) (validate_tiles rest ({[st_tile_id tile]} ∪ tile_ids))
  end.

(** [SurfaceTileManifest::validate]. *)
Definition validate_manifest (m : SurfaceTileManifest) : Result unit string :=
  if negb (sm_schema m == SURFACE_MANIFEST_SCHEMA) || is_blank (sm_material_id m) || negb (sm_coordinate_unit m == "mm")
     || negb (is_sha256 (sm_artifact_sha256 m)) || negb (valid_bounds (sm_bounds_mm m))
  then Err "surface manifest identity/unit/hash is invalid"
  else
    and_then (validate_calibration (sm_calibration m))
      (match sm_tiles m with [] => Err "surface manifest has no tiles" | _ => validate_tiles (sm_tiles m) ∅ end).

(** ** What a valid descriptor is *)

(** The bits an element of a scalar type takes. *)
Definition scalar_bits (scalar_type : string) : Z :=
  if scalar_type == "bit" then 1 else if scalar_type == "u8" then 8 else if scalar_type == "u16" then 16
  else if scalar_type == "f32" then 32 else 0.

(** The file of a plane: as many whole bytes as its elements need and no more. *)
Record plane_ok (p : BinaryPlaneRef) (elements : Z) (scalar_type : string) : Prop := {
  po_path : is_blank (pl_path p) = false;
  po_hash : is_sha256 (pl_sha256 p) = true;
  po_order : pl_byte_order p = "little";
  po_type : pl_scalar_type p = scalar_type;
  po_size : scalar_bits scalar_type * elements <= 8 * pl_size p < scalar_bits scalar_type * elements + 8;
  po_range : pl_size p <= u64_max;
}.

Definition optional_plane_ok (p : option BinaryPlaneRef) (elements : Z) (scalar_type : string) : Prop :=
  match p with Some p => plane_ok p elements scalar_type | None => True end.

Record bounds_ok (b : Bounds) : Prop := {
  bo_finite : Forall (fun x => f64_is_finite x = true) [b0 b; b1 b; b2 b; b3 b; b4 b; b5 b];
  bo_x : f64_le (b0 b) (b3 b) = true;
  bo_y : f64_le (b1 b) (b4 b) = true;
  bo_z : f64_le (b2 b) (b5 b) = true;
}.

(** A positive, finite step. *)
Definition positive (x : f64) : Prop := f64_is_finite x = true /\ f64_lt zero32 x = true.

Record tile_ok (t : SurfaceTileDescriptor) : Prop := {
  to_schema : st_schema t = SURFACE_TILE_SCHEMA;
  to_id : is_blank (st_tile_id t) = false;
  to_rows : 0 < st_rows t;
  to_cols : 0 < st_cols t;
  to_du : positive (st_du_mm t);
  to_dv : positive (st_dv_mm t);
  to_u0 : f64_is_finite (st_u0_mm t) = true;
  to_v0 : f64_is_finite (st_v0_mm t) = true;
  to_error : f64_is_finite (st_geometric_error_mm t) = true /\ f64_le zero32 (st_geometric_error_mm t) = true;
  to_bounds : bounds_ok (st_bounds_mm t);
  to_residual : plane_ok (st_residual_mm t) (st_rows t * st_cols t) "f32";
  to_intensity : optional_plane_ok (st_intensity_u8 t) (st_rows t * st_cols t) "u8";
  to_valid : plane_ok (st_valid_bits t) (st_rows t * st_cols t) "bit";
}.

Definition calibration_ok (c : CalibrationRef) : Prop := is_blank (cal_revision c) = false /\ is_sha256 (cal_sha256 c) = true.

Record manifest_ok (m : SurfaceTileManifest) : Prop := {
  mo_schema : sm_schema m = SURFACE_MANIFEST_SCHEMA;
  mo_material : is_blank (sm_material_id m) = false;
  mo_unit : sm_coordinate_unit m = "mm";
  mo_hash : is_sha256 (sm_artifact_sha256 m) = true;
  mo_bounds : bounds_ok (sm_bounds_mm m);
  mo_calibration : calibration_ok (sm_calibration m);
  mo_tiles : sm_tiles m <> [];
  mo_distinct : NoDup (map st_tile_id (sm_tiles m));
  mo_each : Forall tile_ok (sm_tiles m);
}.

Record frame_ok (f : FrameChunkDescriptor) : Prop := {
  fo_schema : fc_schema f = FRAME_CHUNK_SCHEMA;
  fo_camera : is_blank (fc_camera_id f) = false;
  fo_width : 0 < fc_width f;
  fo_height : 0 < fc_height f;
  fo_clock : fc_host_monotonic_ns f <> 0;
  fo_calibration : calibration_ok (fc_calibration f);
  fo_depth : plane_ok (fc_depth_c16 f) (fc_width f * fc_height f) "u16";
  fo_intensity : optional_plane_ok (fc_intensity_u8 f) (fc_width f * fc_height f) "u8";
  fo_valid : plane_ok (fc_valid_bits f) (fc_width f * fc_height f) "bit";
  fo_complete : fc_complete f = true;
}.

(** The ranges of the Rust types. *)
Definition is_u32 (n : Z) : Prop := 0 <= n <= u32_max.
Definition is_u64 (n : Z) : Prop := 0 <= n <= u64_max.
Definition plane_typed (p : BinaryPlaneRef) : Prop := is_u64 (pl_size p).
Definition optional_typed (p : option BinaryPlaneRef) : Prop := match p with Some p => plane_typed p | None => True end.
Definition tile_typed (t : SurfaceTileDescriptor) : Prop :=
  is_u32 (st_rows t) /\ is_u32 (st_cols t) /\ plane_typed (st_residual_mm t) /\ optional_typed (st_intensity_u8 t) /\
  plane_typed (st_valid_bits t).
Definition frame_typed (f : FrameChunkDescriptor) : Prop :=
  is_u32 (fc_width f) /\ is_u32 (fc_height f) /\ plane_typed (fc_depth_c16 f) /\ optional_typed (fc_intensity_u8 f) /\
  plane_typed (fc_valid_bits f).

(** ** Validation decides validity *)

Lemma and_then_ok r k : and_then r k = Ok tt <-> r = Ok tt /\ k = Ok tt.
Proof. destruct r as [[]|e]; simpl; (split; [|by intros [? ?]]); done. Qed.

Lemma elements_fit w h : is_u32 w -> is_u32 h -> wrap_u64 (w * h) = w * h.
Proof. unfold is_u32, wrap_u64, u32_max. intros Hw Hh. apply Z.mod_small. nia. Qed.

Lemma div_ceil_spec n size : 0 <= n -> size = div_ceil n 8 <-> n <= 8 * size < n + 8.
Proof.
  intros Hn. unfold div_ceil. pose proof (Z.div_mod n 8 ltac:(lia)) as Hd. pose proof (Z.mod_pos_bound n 8 ltac:(lia)).
  destruct (Z.eqb_spec (n mod 8) 0); lia.
Qed.

(** The expected size is the one size that fits. *)
Lemma plane_bytes_spec n scalar_type size : is_u64 n -> is_u64 size -> one_of scalar_type ["bit"; "u8"; "u16"; "f32"] = true ->
  plane_bytes n scalar_type = Ok size <-> scalar_bits scalar_type * n <= 8 * size < scalar_bits scalar_type * n + 8.
Proof.
  intros Hn Hs Ht. unfold plane_bytes, scalar_bits. unfold is_u64 in *.
  destruct (String.eqb_spec scalar_type "bit") as [->|N1].
  { rewrite Z.mul_1_l, <- div_ceil_spec by lia. split; [by intros [= ->]|by intros ->]. }
  destruct (String.eqb_spec scalar_type "u8") as [->|N2]. { split; [intros [= ->]; lia|intros; f_equal; lia]. }
  unfold checked_mul. destruct (String.eqb_spec scalar_type "u16") as [->|N3].
  { destruct (Z.leb_spec (n * 2) u64_max); (split; [intros E|intros E]); try done; try lia; [injection E as <-; lia|f_equal; lia]. }
  destruct (String.eqb_spec scalar_type "f32") as [->|N4].
  { destruct (Z.leb_spec (n * 4) u64_max); (split; [intros E|intros E]); try done; try lia; [injection E as <-; lia|f_equal; lia]. }
  apply one_of_In in Ht. simpl in Ht. destruct Ht as [|[|[|[|[]]]]]; congruence.
Qed.

Lemma plane_decides p n scalar_type : is_u64 n -> plane_typed p -> one_of scalar_type ["bit"; "u8"; "u16"; "f32"] = true ->
  validate_binary_plane p n scalar_type = Ok tt <-> plane_ok p n scalar_type.
Proof.
  intros Hn Hp Ht. unfold validate_binary_plane.
  destruct (is_blank (pl_path p)) eqn:E1; simpl. { split; [done|]. intros []. congruence. }
  destruct (is_sha256 (pl_sha256 p)) eqn:E2; simpl. 2: { split; [done|]. intros []. congruence. }
  destruct (String.eqb_spec (pl_byte_order p) "little") as [E3|E3]; simpl. 2: { split; [done|]. by intros []. }
  destruct (String.eqb_spec (pl_scalar_type p) scalar_type) as [E4|E4]; simpl. 2: { split; [done|]. by intros []. }
  pose proof (plane_bytes_spec n scalar_type (pl_size p) Hn Hp Ht) as Hb.
  transitivity (plane_bytes n scalar_type = Ok (pl_size p)).
  - destruct (plane_bytes n scalar_type) as [m|e]; [|done]. destruct (Z.eqb_spec (pl_size p) m) as [->|Hne]; simpl; [done|].
    split; [done|]. intros [= ->]. done.
  - rewrite Hb. unfold plane_typed, is_u64 in Hp. split; [intros; split; try done; lia|by intros []].
Qed.

Lemma optional_plane_decides p n scalar_type : is_u64 n -> optional_typed p -> one_of scalar_type ["bit"; "u8"; "u16"; "f32"] = true ->
  validate_optional_plane p n scalar_type = Ok tt <-> optional_plane_ok p n scalar_type.
Proof. intros Hn Hp Ht. destruct p as [p|]; [by apply plane_decides|done]. Qed.

Lemma calibration_decides c : validate_calibration c = Ok tt <-> calibration_ok c.
Proof.
  unfold validate_calibration, calibration_ok. destruct (is_blank _), (is_sha256 _); simpl; (split; [|by intros [? ?]]); done.
Qed.

Lemma bounds_decides b : valid_bounds b = true <-> bounds_ok b.
Proof.
  unfold valid_bounds. rewrite !andb_true_iff, forallb_forall, <- List.Forall_forall. split.
  - intros [[[? ?] ?] ?]. by split.
  - by intros [].
Qed.

(** A finite number is positive unless it is at most zero. *)
Lemma positive_decides x : f64_is_finite x = true -> f64_le x zero32 = false <-> f64_lt zero32 x = true.
Proof. destruct x as [[]|[]| |[] m e]; done. Qed.
Lemma nonnegative_decides x : f64_is_finite x = true -> f64_lt x zero32 = false <-> f64_le zero32 x = true.
Proof. destruct x as [[]|[]| |[] m e]; done. Qed.

Lemma u64_product w h : is_u32 w -> is_u32 h -> is_u64 (w * h).
Proof. unfold is_u32, is_u64, u32_max, u64_max. nia. Qed.

(** A guard that refuses, followed by more checks. *)
Lemma guarded (refused : bool) (e : string) k : (if refused then Err e else k) = Ok tt <-> refused = false /\ k = Ok tt.
Proof. destruct refused; (split; [|by intros [? ?]]); done. Qed.

Lemma tile_decides t : tile_typed t -> validate_tile t = Ok tt <-> tile_ok t.
Proof.
  intros (Hr & Hc & T1 & T2 & T3). unfold validate_tile. cbv zeta. rewrite (elements_fit _ _ Hr Hc).
  pose proof (u64_product _ _ Hr Hc) as Hn.
  rewrite guarded, !and_then_ok, plane_decides, optional_plane_decides, plane_decides by done.
  rewrite !orb_false_iff, !negb_false_iff, !Z.eqb_neq, String.eqb_eq, bounds_decides. unfold is_u32 in *. split.
  - intros [[[[[[[[[[[[[? ?] ?] ?] Hdu] Hdv] ?] ?] Fu] Fv] Fe] He] ?] (? & ? & ?)].
    rewrite positive_decides in Hdu, Hdv by done. rewrite nonnegative_decides in He by done. split; done || lia.
  - intros [? ? ? ? [Fu Hdu] [Fv Hdv] ? ? [Fe He] ? ? ? ?].
    rewrite <- positive_decides in Hdu, Hdv by done. rewrite <- nonnegative_decides in He by done. repeat match goal with |- _ /\ _ => split end; done || lia.
Qed.

Lemma frame_decides f : frame_typed f -> validate_frame_chunk f = Ok tt <-> frame_ok f.
Proof.
  intros (Hr & Hc & T1 & T2 & T3). unfold validate_frame_chunk. cbv zeta. rewrite (elements_fit _ _ Hr Hc).
  pose proof (u64_product _ _ Hr Hc) as Hn.
  rewrite guarded, !and_then_ok, calibration_decides, plane_decides, optional_plane_decides, plane_decides by done.
  rewrite guarded, !orb_false_iff, !negb_false_iff, !Z.eqb_neq, String.eqb_eq. unfold is_u32 in *. split.
  - intros [[[[[? ?] ?] ?] ?] (? & ? & ? & ? & ? & _)]. split; done || lia.
  - intros []. repeat match goal with |- _ /\ _ => split end; done || lia.
Qed.

Lemma tiles_decide tiles : forall seen, Forall tile_typed tiles ->
  validate_tiles tiles seen = Ok tt <->
  NoDup (map st_tile_id tiles) /\ Forall tile_ok tiles /\ Forall (fun t => st_tile_id t ∉ seen) tiles.
Proof.
  induction tiles as [|t tiles IH]; intros seen Ht; cbn [validate_tiles map]. { split; [|done]. by repeat constructor. }
  apply Forall_cons in Ht as [Ht Hts]. rewrite guarded, and_then_ok, tile_decides, IH by done.
  rewrite bool_decide_eq_false, !Forall_cons, NoDup_cons. split.
  - intros (H1 & H2 & H3 & H4 & H5). rewrite List.Forall_forall in H5. split; [split; [|done]|split; [done|split; [done|]]].
    + intros (t' & E & Hin)%list_elem_of_fmap. apply list_elem_of_In in Hin. specialize (H5 t' Hin). apply not_elem_of_union in H5 as [H5 _].
      apply H5, elem_of_singleton. done.
    + apply List.Forall_forall. intros t' Hin. specialize (H5 t' Hin). by apply not_elem_of_union in H5 as [_ H5].
  - intros ([H1 H2] & [H3 H4] & [H5 H6]). do 4 (split; [done|]). apply List.Forall_forall. intros t' Hin.
    rewrite List.Forall_forall in H6. specialize (H6 t' Hin). apply not_elem_of_union. split; [|done].
    intros E%elem_of_singleton. apply H1. rewrite <- E. by apply list_elem_of_fmap_2, list_elem_of_In.
Qed.

(** C33. Validation of surface data. A manifest passes validation exactly when it is well formed: its
    identity, unit, hash and bounds are in order, it has tiles, no two of the same id, and every tile has
    positive finite steps, ordered finite bounds, and planes whose files have exactly the bytes that
    rows times columns elements of their scalar type take, none of it lost to overflow. The same holds of
    a frame chunk, which in addition must be complete. *)
Theorem surface_validation_decides (m : SurfaceTileManifest) (f : FrameChunkDescriptor) :
  Forall tile_typed (sm_tiles m) -> frame_typed f ->
  (validate_manifest m = Ok tt <-> manifest_ok m) /\ (validate_frame_chunk f = Ok tt <-> frame_ok f).
Proof.
  intros Ht Hf. split; [|by apply frame_decides]. unfold validate_manifest.
  rewrite guarded, and_then_ok, calibration_decides. rewrite !orb_false_iff, !negb_false_iff, !String.eqb_eq, bounds_decides.
  destruct (sm_tiles m) as [|t tiles] eqn:E. { split; [by intros (_ & _ & ?)|]. intros []. congruence. }
  rewrite tiles_decide by done. rewrite <- E. split.
  - intros ([[[[? ?] ?] ?] ?] & ? & ? & ? & _). split; try done. by rewrite E.
  - intros []. repeat match goal with |- _ /\ _ => split end; try done. apply List.Forall_forall. intros t' _. apply not_elem_of_empty.
Qed.

Module SurfaceSample.
Definition hash64 : string := "0123456789abcdef0123456789abcdef0123456789abcdef0123456789abcdef".
Definition plane (scalar_type : string) (size : Z) : BinaryPlaneRef := mkBinaryPlaneRef "p.bin" scalar_type "little" size hash64.
Definition box : Bounds := mkBounds zero32 zero32 zero32 (f64_of_Z 1) (f64_of_Z 1) (f64_of_Z 1).
Definition tile : SurfaceTileDescriptor := mkSurfaceTileDescriptor SURFACE_TILE_SCHEMA "t0" 0 zero32 zero32 (f64_of_Z 1) (f64_of_Z 1)
  3 3 (plane "f32" 36) None (plane "bit" 2) zero32 box.
Definition manifest : SurfaceTileManifest := mkSurfaceTileManifest SURFACE_MANIFEST_SCHEMA "m1" Plate "mm"
  (mkCalibrationRef "1" hash64) hash64 box [tile].
Definition frame : FrameChunkDescriptor := mkFrameChunkDescriptor FRAME_CHUNK_SCHEMA "C1" 0 3 3 (plane "u16" 18) None (plane "bit" 1)
  None 1 None (mkCalibrationRef "1" hash64) true.

Lemma surface_validation_decides_witness : manifest_ok manifest /\ ~ frame_ok frame.
Proof.
  destruct (surface_validation_decides manifest frame) as [Hm Hf].
  - repeat constructor; vm_compute; discriminate.
  - repeat split; vm_compute; discriminate.
  - split; [apply Hm; vm_compute; reflexivity|]. intros Ho. apply Hf in Ho. vm_compute in Ho. discriminate.
Defined.
End SurfaceSample.
