(* ===== verification/RelyGuarantee.v ===== *)
(** * What a thread knows

    A logic for programs of [Concurrent] whose critical sections never wait. The shared state keeps an
    invariant [I], every step of every thread moves it along a preorder [G], and what a thread knows is
    a predicate on the state that steps along [G] cannot falsify. So knowledge, once gained, is kept
    whatever the other threads do. *)

From S2P Require Import Prelude Concurrent.

Section Logic.
Context {S : Type} (I : S -> Prop) (G : S -> S -> Prop).

Definition stable (P : S -> Prop) : Prop := forall s s', I s -> I s' -> G s s' -> P s -> P s'.

Lemma stable_pure (P : Prop) : stable (fun _ => P).
Proof. by intros s s' _ _ _. Qed.

Lemma stable_and P Q : stable P -> stable Q -> stable (fun s => P s /\ Q s).
Proof. intros HP HQ s s' Hs Hs' HG [? ?]. split; [apply (HP s s'); done|apply (HQ s s'); done]. Qed.

Lemma stable_forall {X} (P : X -> S -> Prop) : (forall x, stable (P x)) -> stable (fun s => forall x, P x s).
Proof. intros HP s s' Hs Hs' HG H x. apply (HP x s s'); auto. Qed.

Lemma stable_impl (P : Prop) Q : (P -> stable Q) -> stable (fun s => P -> Q s).
Proof. intros HQ s s' Hs Hs' HG H HP. apply (HQ HP s s'); auto. Qed.

(** The state with what each thread knows of it. *)
Definition knowing (s : S) (ls : list (S -> Prop)) : Prop := I s /\ Forall (fun l => stable l /\ l s) ls.

(** Something is known of a state there is. *)
Definition known (l : S -> Prop) : Prop := exists s, I s /\ l s.

(** A thread that knows [l] and runs [m] keeps the invariant, moves along [G], does not panic, and at the
    end knows [l] still and [Q] of the answer. *)
Definition ensures {A} (l : S -> Prop) (m : Prog S A) (Q : A -> S -> Prop) : Prop :=
  known l ->
  safe knowing (fun _ => 0%nat) (fun l' a => known l' /\ (forall s, l' s -> l s) /\ (forall s, l' s -> Q a s)) l m.

(** What is known of every state may be used. *)
Lemma ensures_knowing {A} l (m : Prog S A) (Q : A -> S -> Prop) :
  (forall s, I s -> l s -> ensures l m Q) -> ensures l m Q.
Proof. intros Hm Hl. destruct Hl as (s & Hs & Hl). apply (Hm s Hs Hl). by exists s. Qed.

Lemma ensures_ret {A} l (a : A) (Q : A -> S -> Prop) : (forall s, l s -> Q a s) -> ensures l (Ret a) Q.
Proof. intros HQ Hl. by split_and!. Qed.

Lemma ensures_bind {A B} l (m : Prog S A) (f : A -> Prog S B) (Q : A -> S -> Prop) (Q' : B -> S -> Prop) :
  ensures l m Q ->
  (forall a l', (forall s, l' s -> l s) -> (forall s, l' s -> Q a s) -> ensures l' (f a) Q') ->
  ensures l (prog_bind m f) Q'.
Proof.
  intros Hm Hf Hk. apply pool_bind. eapply pool_mono; [|exact (Hm Hk)]. intros l' a (Hk' & Hl & HQ).
  eapply pool_mono; [|exact (Hf a l' Hl HQ Hk')]. intros l'' b (Hk'' & Hl' & HQ'). split_and!; eauto.
Qed.

Lemma ensures_weaken {A} l (m : Prog S A) (Q Q' : A -> S -> Prop) :
  ensures l m Q -> (forall a s, l s -> Q a s -> Q' a s) -> ensures l m Q'.
Proof. intros Hm HQ Hk. eapply pool_mono; [|exact (Hm Hk)]. intros l' a (Hk' & Hl & H). split_and!; eauto. Qed.

Lemma ensures_choose {A} `{Inhabited A} l (Q : A -> S -> Prop) :
  (forall a s, l s -> Q a s) -> ensures l (choose A) Q.
Proof. intros HQ Hk. apply pool_choose; [apply _|]. intros a. split_and!; auto. Qed.

Lemma ensures_atomically {A} l (section : S -> A * S) (Q : A -> S -> Prop) :
  (forall a, stable (Q a)) ->
  (forall s, I s -> l s -> I (snd (section s)) /\ G s (snd (section s)) /\ Q (fst (section s)) (snd (section s))) ->
  ensures l (atomically section) Q.
Proof.
  intros HQ Hs _. apply pool_move. intros s ls i [Hi Hls] Hl.
  destruct (Forall_lookup_1 _ _ _ _ Hls Hl) as [Hst Hls'].
  destruct (Hs s Hi Hls') as (Hi' & HG & Ha). destruct (section s) as [a s']. simpl in *.
  assert (Hl' : l s') by by apply (Hst s s').
  exists (fun s => l s /\ Q a s). split; [|split_and!; [by exists s'|by intros ? []..]]. split; [done|]. apply Forall_insert.
  - eapply Forall_impl; [exact Hls|]. intros l' [Hst' Hl'']. split; [done|]. apply (Hst' s s'); auto.
  - split; [by apply stable_and|done].
Qed.

(** Reading teaches what the state shows, as long as it lasts. *)
Lemma ensures_reading {A} l (read : S -> A) (Q : A -> S -> Prop) `{!Reflexive G} :
  (forall a, stable (Q a)) -> (forall s, I s -> l s -> Q (read s) s) -> ensures l (reading read) Q.
Proof. intros HQ Hr. apply ensures_atomically; [done|]. intros s Hs Hl. simpl. split_and!; auto. Qed.

(** The invariant holds wherever a pool of such programs gets, no thread panics, and one that has ended has
    the answer it was promised. *)
Lemma rg_reachable {A R} (program : R -> Prog S A) (Q : R -> A -> Prop) s pool : I s ->
  (forall r, ensures (fun _ => True) (program r) (fun a _ => Q r a)) ->
  rtc (pool_step program) (mkPool s []) pool ->
  I (shared pool) /\ Forall (fun t => snd t <> Panicked /\ forall a, snd t = Ret a -> Q (fst t) a) (threads pool).
Proof.
  intros Hs Hp Hr.
  destruct (pool_reachable_safe program (fun _ => True) knowing (fun _ => 0%nat) (fun r l' a => known l' /\ (forall s, l' s -> True) /\ (forall s, l' s -> Q r a))) with s pool as (ls & [Hi _] & Hts); try done.
  - intros s' ls [Hi Hls]. split; [done|]. apply Forall_app. split; [done|]. constructor; [|done]. split; [apply stable_pure|done].
  - intros r. apply (Hp r). by exists s.
  - split; [done|]. eapply Forall2_Forall_l; [exact Hts|]. apply Forall_true. intros l [r p] Hsafe. simpl in *.
    split; [intros ->; done|]. intros a ->. destruct Hsafe as ((s' & _ & Hl) & _ & HQ). by apply (HQ s').
Qed.

End Logic.

#[global] Arguments ensures : simpl never.
