(* ===== verification/FileTree.v ===== *)
(** * A tree of files

    What the code uses of [std::fs] and [std::path] on a POSIX system: a tree of regular files,
    directories and symbolic links, absolute paths as lists of names, canonicalisation through links,
    and the two removals. The lemmas say that canonical paths lead to themselves and that removals
    never make a path lead anywhere else. *)

From S2P Require Import Prelude.
From Stdlib Require Import Ascii.

(** An absolute path without links and dots; the root is the empty one. *)
Abbreviation Path := (list string).

Inductive Node :=
| NFile (content : string)
| NDir
| NLink (target : string).

#[global] Instance node_eq_dec : EqDecision Node.
Proof. solve_decision. Defined.

(** What is below the root. *)
Abbreviation Tree := (gmap Path Node).

(** ** Paths as text *)

Definition slash : ascii := ascii_of_nat 47.

(** [Path::is_absolute]. *)
Definition is_absolute (text : string) : bool := starts_with "/" text.

Definition pieces (text : string) : list string := split_byte slash text.

(** [Path::components] of an absolute path, without the root. *)
Definition components (text : string) : list string :=
  List.filter (fun piece => negb (one_of piece [""; "."])) (pieces text).

(** The components that are names: [Component::Normal]. *)
Definition normal_components (text : string) : list string :=
  List.filter (fun piece => negb (piece == "..")) (components text).

(** [Path::parent] of an absolute path, as its components. *)
Definition parent_components (text : string) : option (list string) :=
  match components text with [] => None | names => Some (removelast names) end.

(** [Path::display] of a canonical path. *)
Fixpoint slashed (p : Path) : string :=
  match p with [] => "" | name :: rest => "/" +:+ name +:+ slashed rest end.
Definition display (p : Path) : string := match p with [] => "/" | _ => slashed p end.

(** [Path::starts_with] on canonical paths. *)
Fixpoint path_starts_with (p root : Path) : bool :=
  match root, p with
  | [], _ => true
  | name :: root, name' :: p => (name == name') && path_starts_with p root
  | _ :: _, [] => false
  end.

(** ** Canonicalisation *)

Definition is_dir_at (t : Tree) (p : Path) : bool :=
  match p with
  | [] => true
  | _ => match t !! p with Some NDir => true | _ => false end
  end.

(** Walks the pieces of a path; [links] more links may be followed. *)
Fixpoint canonical_from (links : nat) (t : Tree) : Path -> list string -> option Path :=
  fix walk (cur : Path) (todo : list string) : option Path :=
  match todo with
  | [] => Some cur
  | name :: rest =>
      if negb (is_dir_at t cur) then None
      else if one_of name [""; "."] then walk cur rest
      else if name == ".." then walk (removelast cur) rest
      else
        match t !! (cur ++ [name]) with
        | None => None
        | Some (NLink target) =>
            match links with
            | O => None
            | S links => canonical_from links t (if is_absolute target then [] else cur) (pieces target ++ rest)
            end
        | Some _ => walk (cur ++ [name]) rest
        end
  end.

(** The links Linux follows before it gives up. *)
Definition MAXSYMLINKS : nat := 40.

(** [std::fs::canonicalize] in the working directory [cwd]. *)
Definition fs_canonicalize (cwd : Path) (t : Tree) (text : string) : option Path :=
  if is_empty text then None
  else canonical_from MAXSYMLINKS t (if is_absolute text then [] else cwd) (pieces text).

(** The node a path leads to, through links. *)
Definition node_at (t : Tree) (p : Path) : option Node := match p with [] => Some NDir | _ => t !! p end.
Definition stat (cwd : Path) (t : Tree) (text : string) : option Node :=
  match fs_canonicalize cwd t text with Some p => node_at t p | None => None end.

(** ** Directories and removals *)

(** The entries of a directory. *)
Definition last_name (p q : Path) : option string :=
  match q with [] => None | _ => if bool_decide (removelast q = p) then last q else None end.
Definition children (t : Tree) (p : Path) : list (string * Node) :=
  omap (fun '(q, node) => option_map (fun name => (name, node)) (last_name p q)) (map_to_list t).

(** [std::fs::remove_file] of a path whose parents are directories. *)
Definition remove_file (t : Tree) (p : Path) : option Tree :=
  match t !! p with
  | Some (NFile _) | Some (NLink _) => Some (delete p t)
  | _ => None
  end.

(** [std::fs::remove_dir] of a path whose parents are directories. *)
Definition remove_dir (t : Tree) (p : Path) : option Tree :=
  match t !! p with
  | Some NDir => match children t p with [] => Some (delete p t) | _ => None end
  | _ => None
  end.

(** ** Well-formed trees *)

Definition name_ok (name : string) : Prop :=
  name <> "" /\ name <> "." /\ name <> ".." /\ all_bytes (fun a => negb (bool_decide (a = slash))) name = true.

(** Names are names, and what has something below it is a directory. *)
Definition tree_ok (t : Tree) : Prop :=
  t !! [] = None /\
  forall p name, is_Some (t !! (p ++ [name])) -> name_ok name /\ is_dir_at t p = true.

(** A path that leads to itself. *)
Definition is_real (t : Tree) (p : Path) : Prop :=
  match p with [] => True | _ => t !! p = Some NDir \/ exists content, t !! p = Some (NFile content) end.

Lemma is_dir_real t p : is_dir_at t p = true -> is_real t p.
Proof. destruct p; simpl; [done|]. destruct (t !! _) as [[| |]|]; try done. by left. Qed.

Lemma is_dir_lookup t p : p <> [] -> is_dir_at t p = true <-> t !! p = Some NDir.
Proof. intros Hp. destruct p; [done|]. simpl. destruct (t !! _) as [[| |]|]; split; congruence. Qed.

Lemma real_node t p : is_real t p -> p <> [] -> exists node, t !! p = Some node /\ (node = NDir \/ exists c, node = NFile c).
Proof. destruct p; [done|]. intros [H|[c H]] _; eauto. Qed.

Lemma is_dir_mono t t' p : t' ⊆ t -> is_dir_at t' p = true -> is_dir_at t p = true.
Proof.
  intros Hsub. destruct p as [|n p]; [done|]. rewrite !is_dir_lookup by done. intros H. by eapply lookup_weaken.
Qed.

Lemma real_mono t t' p : t' ⊆ t -> is_real t' p -> is_real t p.
Proof.
  intros Hsub. destruct p as [|n p]; [done|]. intros [H|[c H]]; [left|right; exists c]; by eapply lookup_weaken.
Qed.

Lemma tree_ok_parent t p name : tree_ok t -> is_real t (p ++ [name]) -> name_ok name /\ is_dir_at t p = true.
Proof.
  intros [_ Hok] Hr. apply Hok. assert (E : exists a q, p ++ [name] = a :: q) by (destruct p; simpl; eauto).
  destruct E as (a & q & E). rewrite E in *. destruct Hr as [H|[c H]]; eauto.
Qed.

Lemma removelast_real t p : tree_ok t -> is_dir_at t p = true -> is_dir_at t (removelast p) = true.
Proof.
  intros Hok Hp. destruct (decide (p = [])) as [->|Hne]; [done|].
  destruct (exists_last Hne) as (q & name & ->). rewrite removelast_last.
  eapply tree_ok_parent; [done|]. by apply is_dir_real.
Qed.

(** Unfolding one step of the walk. *)
Lemma canonical_from_nil links t cur : canonical_from links t cur [] = Some cur.
Proof. by destruct links. Qed.

Lemma canonical_from_cons links t cur name rest :
  canonical_from links t cur (name :: rest) =
  if negb (is_dir_at t cur) then None
  else if one_of name [""; "."] then canonical_from links t cur rest
  else if name == ".." then canonical_from links t (removelast cur) rest
  else
    match t !! (cur ++ [name]) with
    | None => None
    | Some (NLink target) =>
        match links with
        | O => None
        | S links => canonical_from links t (if is_absolute target then [] else cur) (pieces target ++ rest)
        end
    | Some _ => canonical_from links t (cur ++ [name]) rest
    end.
Proof. by destruct links. Qed.

(** Where a walk ends is real. *)
Lemma canonical_from_real links t cur todo p : tree_ok t -> is_real t cur ->
  canonical_from links t cur todo = Some p -> is_real t p.
Proof.
  intros Hok. revert cur todo p. induction links as [|links IH]; intros cur todo p;
    (revert cur; induction todo as [|name rest IHt]; intros cur Hc;
     [rewrite canonical_from_nil; by intros [= <-]|];
     rewrite canonical_from_cons; destruct (is_dir_at t cur) eqn:Hd; [cbn [negb]|done];
     destruct (one_of name _); [by apply IHt|]; destruct (name == ".."); [by apply IHt, is_dir_real, removelast_real|];
     destruct (t !! (cur ++ [name])) as [[content| |target]|] eqn:E; try done).
  1,2,3,4: apply IHt; destruct (cur ++ [name]) eqn:Ec; [by destruct cur|simpl]; eauto.
  apply IH. by destruct (is_absolute target).
Qed.

(** What a walk finds in a smaller tree it finds in the larger one. *)
Lemma canonical_from_mono links t t' cur todo p : t' ⊆ t ->
  canonical_from links t' cur todo = Some p -> canonical_from links t cur todo = Some p.
Proof.
  intros Hsub. revert cur todo p. induction links as [|links IH]; intros cur todo p;
    (revert cur; induction todo as [|name rest IHt]; intros cur;
     [by rewrite !canonical_from_nil|];
     rewrite !canonical_from_cons; destruct (is_dir_at t' cur) eqn:Hd; [|done];
     rewrite (is_dir_mono t t' cur Hsub Hd); cbn [negb];
     destruct (one_of name _); [by apply IHt|]; destruct (name == ".."); [by apply IHt|];
     destruct (t' !! (cur ++ [name])) as [node|] eqn:E; [|done];
     rewrite (lookup_weaken _ _ _ _ E Hsub); destruct node; try done; auto).
Qed.

Lemma append_empty (s : string) : s +:+ "" = s.
Proof. induction s as [|a s IH]; [done|]. change (String a s +:+ "") with (String a (s +:+ "")). by rewrite IH. Qed.

(** Names split at slashes. *)
Lemma split_no_slash name : all_bytes (fun a => negb (bool_decide (a = slash))) name = true ->
  split_byte slash name = [name].
Proof.
  induction name as [|a name IH]; simpl; [done|]. rewrite andb_true_iff, negb_true_iff. intros [Ha Hn].
  by rewrite Ha, IH.
Qed.

Lemma split_slash name rest : all_bytes (fun a => negb (bool_decide (a = slash))) name = true ->
  split_byte slash (name +:+ "/" +:+ rest) = name :: split_byte slash rest.
Proof.
  induction name as [|a name IH]; simpl; [done|]. rewrite andb_true_iff, negb_true_iff. intros [Ha Hn].
  rewrite Ha. change (String.append name (String "/" rest)) with (name +:+ "/" +:+ rest). by rewrite IH.
Qed.

Lemma split_lead rest : split_byte slash ("/" +:+ rest) = "" :: split_byte slash rest.
Proof. done. Qed.

Lemma pieces_slashed p : p <> [] -> Forall name_ok p -> pieces (slashed p) = "" :: p.
Proof.
  unfold pieces. induction p as [|name p IH]; [done|]. intros _ Hp. inversion Hp as [|? ? (_ & _ & _ & Hs) Hp']; subst.
  cbn [slashed]. rewrite split_lead. f_equal. destruct p as [|next p].
  - cbn [slashed]. rewrite append_empty. by apply split_no_slash.
  - specialize (IH ltac:(done) Hp'). cbn [slashed] in *. rewrite split_lead in IH. rewrite split_slash by done.
    by injection IH as ->.
Qed.

(** The names of a real path. *)
Lemma real_names t p : tree_ok t -> is_real t p -> Forall name_ok p.
Proof.
  intros Hok. induction p as [|name p IH] using rev_ind; [done|]. intros Hr.
  apply tree_ok_parent in Hr as [Hn Hd]; [|done]. apply Forall_app. split; [by apply IH, is_dir_real|by constructor].
Qed.

Lemma real_prefix_dir t p q : tree_ok t -> q <> [] -> is_real t (p ++ q) -> is_dir_at t p = true.
Proof.
  intros Hok. induction q as [|name q IH] using rev_ind; [done|]. intros _ Hr. rewrite app_assoc in Hr.
  apply tree_ok_parent in Hr as [_ Hd]; [|done].
  destruct (decide (q = [])) as [->|Hne]; [by rewrite app_nil_r in Hd|]. by apply IH, is_dir_real.
Qed.

Lemma name_ok_plain name : name_ok name -> one_of name [""; "."] = false /\ (name == "..") = false.
Proof.
  intros (H1 & H2 & H3 & _). split; [|by apply str_eqb_false].
  unfold one_of. simpl. rewrite (proj2 (str_eqb_false _ _) H1), (proj2 (str_eqb_false _ _) H2). done.
Qed.

(** A walk down a real path arrives. *)
Lemma canonical_from_down links t p q : tree_ok t -> is_real t (p ++ q) -> canonical_from links t p q = Some (p ++ q).
Proof.
  intros Hok. revert p. induction q as [|name q IH]; intros p Hr.
  { by rewrite canonical_from_nil, app_nil_r. }
  pose proof (real_names t _ Hok Hr) as Hn. apply Forall_app in Hn as [_ Hn]. apply Forall_cons in Hn as [Hn _].
  apply name_ok_plain in Hn as [H1 H2]. rewrite canonical_from_cons, (real_prefix_dir t p (name :: q)) by done.
  rewrite H1, H2. cbn [negb]. replace (p ++ name :: q) with ((p ++ [name]) ++ q) in * by by rewrite <- app_assoc.
  assert (Hc : is_real t (p ++ [name])).
  { destruct (decide (q = [])) as [->|Hne]; [by rewrite app_nil_r in Hr|]. by eapply is_dir_real, real_prefix_dir. }
  apply real_node in Hc as (node & -> & [->|[c ->]]); [by apply IH..|by destruct p].
Qed.

(** ** Canonical paths lead to themselves *)

Lemma slashed_absolute name p : is_absolute (slashed (name :: p)) = true.
Proof. unfold is_absolute, starts_with. simpl. by destruct (name +:+ slashed p). Qed.

Lemma canonicalize_display cwd t p : tree_ok t -> is_real t p -> fs_canonicalize cwd t (display p) = Some p.
Proof.
  intros Hok Hr. unfold fs_canonicalize. destruct p as [|name p]; [done|].
  assert (Hn : Forall name_ok (name :: p)) by by eapply real_names.
  change (display (name :: p)) with (slashed (name :: p)). rewrite pieces_slashed by done.
  change (is_empty (slashed (name :: p))) with false. rewrite slashed_absolute. cbv iota.
  rewrite canonical_from_cons. change (is_dir_at t []) with true. change (one_of "" [""; "."]) with true. cbn [negb].
  apply (canonical_from_down MAXSYMLINKS t [] (name :: p)); done.
Qed.

Lemma canonicalize_real cwd t text p : tree_ok t -> fs_canonicalize cwd t text = Some p -> is_real t p.
Proof.
  intros Hok. unfold fs_canonicalize. destruct (is_empty text); [done|]. set (start := if is_absolute text then _ else _).
  destruct (is_dir_at t start) eqn:Hd; [by apply canonical_from_real; [|apply is_dir_real]|].
  destruct (pieces text) as [|piece rest] eqn:Ep; [|by rewrite canonical_from_cons, Hd].
  unfold pieces in Ep. destruct text; simpl in Ep; [done|]. repeat case_match; done.
Qed.

Lemma canonicalize_mono cwd t t' text p : t' ⊆ t -> fs_canonicalize cwd t' text = Some p ->
  fs_canonicalize cwd t text = Some p.
Proof. intros Hsub. unfold fs_canonicalize. destruct (is_empty text); [done|]. by apply canonical_from_mono. Qed.

(** The components of a canonical path are its names. *)
Lemma components_display p : Forall name_ok p -> components (display p) = p.
Proof.
  intros Hp. destruct p as [|name p]; [done|]. unfold components.
  change (display (name :: p)) with (slashed (name :: p)). rewrite pieces_slashed by done.
  assert (E : forall q, Forall name_ok q -> List.filter (fun piece => negb (one_of piece [""; "."])) q = q); [|exact (E _ Hp)].
  induction 1 as [|n q Hn _ IH]; [done|]. cbn [List.filter]. by rewrite (proj1 (name_ok_plain n Hn)), IH.
Qed.

Lemma normal_components_display p : Forall name_ok p -> normal_components (display p) = p.
Proof.
  intros Hp. unfold normal_components. rewrite components_display by done.
  induction Hp as [|n q Hn _ IH]; [done|]. cbn [List.filter]. by rewrite (proj2 (name_ok_plain n Hn)), IH.
Qed.

Lemma display_inj p q : Forall name_ok p -> Forall name_ok q -> display p = display q -> p = q.
Proof. intros Hp Hq E. by rewrite <- (components_display p Hp), E, components_display. Qed.

Lemma display_absolute p : is_absolute (display p) = true.
Proof. destruct p; [done|]. apply slashed_absolute. Qed.

(** ** Removals keep trees well-formed *)

Lemma elem_children t p name node : p ++ [name] <> [] -> t !! (p ++ [name]) = Some node -> (name, node) ∈ children t p.
Proof.
  intros _ E. unfold children. apply list_elem_of_omap. exists (p ++ [name], node). split; [by apply elem_of_map_to_list|].
  unfold last_name. destruct (p ++ [name]) eqn:Ep; [by destruct p|]. rewrite <- Ep, removelast_last, last_snoc.
  by rewrite bool_decide_eq_true_2.
Qed.

Lemma children_elem t p name node : (name, node) ∈ children t p -> t !! (p ++ [name]) = Some node.
Proof.
  unfold children. rewrite list_elem_of_omap. intros ([q node'] & Hq & E). apply elem_of_map_to_list in Hq.
  unfold last_name in E. destruct q as [|a q]; [done|]. case_bool_decide as Er; [|done].
  destruct (last (a :: q)) as [name'|] eqn:El; [|done]. injection E as <- <-. apply last_Some in El as [l El].
  rewrite <- Er, El, removelast_last. by rewrite <- El.
Qed.

Lemma delete_ok t p : tree_ok t -> (forall name, t !! (p ++ [name]) = None) -> tree_ok (delete p t).
Proof.
  intros [Hr Hok] Hp. split; [by apply lookup_delete_None; right|]. intros q name [node Hq].
  apply lookup_delete_Some in Hq as [Hne Hq]. destruct (Hok q name ltac:(eauto)) as [Hn Hd]. split; [done|].
  destruct q as [|a q]; [done|]. apply is_dir_lookup in Hd; [|done]. apply is_dir_lookup; [done|].
  apply lookup_delete_Some. split; [|done]. intros ->. by rewrite Hp in Hq.
Qed.

Lemma remove_file_ok t p t' : tree_ok t -> remove_file t p = Some t' ->
  t' = delete p t /\ tree_ok t' /\ is_Some (t !! p).
Proof.
  intros Hok. unfold remove_file. destruct (t !! p) as [node|] eqn:E; [|done]. intros H.
  assert (node <> NDir /\ t' = delete p t) as [Hn ->] by (destruct node; by simplify_eq).
  split_and!; [done| |done]. apply delete_ok; [done|]. intros name. apply eq_None_not_Some. intros Hs.
  apply (proj2 Hok) in Hs as [_ Hd]. destruct p as [|a p]; [by rewrite (proj1 Hok) in E|].
  apply is_dir_lookup in Hd; [|done]. congruence.
Qed.

Lemma remove_dir_ok t p t' : tree_ok t -> remove_dir t p = Some t' ->
  t' = delete p t /\ tree_ok t' /\ t !! p = Some NDir /\ children t p = [].
Proof.
  intros Hok. unfold remove_dir. destruct (t !! p) as [[| |]|] eqn:E; try done.
  destruct (children t p) eqn:Ec; [|done]. intros [= <-]. split_and!; try done. apply delete_ok; [done|].
  intros name. apply eq_None_not_Some. intros [node Hn].
  assert (Hin : (name, node) ∈ children t p) by (apply elem_children; [by destruct p|done]). rewrite Ec in Hin. by apply not_elem_of_nil in Hin.
Qed.

(** A path text that leads nowhere now leads nowhere later; one that names a removed path leads nowhere. *)
Lemma canonicalize_gone cwd t t' text : t' ⊆ t -> fs_canonicalize cwd t text = None -> fs_canonicalize cwd t' text = None.
Proof.
  intros Hsub Hn. destruct (fs_canonicalize cwd t' text) as [p|] eqn:E; [|done].
  rewrite (canonicalize_mono cwd t t' _ _ Hsub E) in Hn. congruence.
Qed.

(** Without a regular file, walks to directories go on as before. *)
Lemma canonical_from_fileless links t p content cur todo d : t !! p = Some (NFile content) ->
  canonical_from links t cur todo = Some d -> is_dir_at t d = true -> canonical_from links (delete p t) cur todo = Some d.
Proof.
  intros Hp. assert (Hdir : forall q, is_dir_at t q = true -> is_dir_at (delete p t) q = true).
  { intros [|a q]; [done|]. rewrite !is_dir_lookup by done. intros E. rewrite lookup_delete_ne; congruence. }
  revert cur todo d. induction links as [|links IH]; intros cur todo d;
    (revert cur; induction todo as [|name rest IHt]; intros cur;
     [rewrite !canonical_from_nil; by intros|];
     rewrite !canonical_from_cons; destruct (is_dir_at t cur) eqn:Hd; [|done]; rewrite (Hdir cur Hd); cbn [negb];
     destruct (one_of name _); [by apply IHt|]; destruct (name == ".."); [by apply IHt|];
     destruct (t !! (cur ++ [name])) as [node|] eqn:E; [|done];
     destruct (decide (p = cur ++ [name])) as [->|Hne];
     [rewrite Hp in E; injection E as <-; intros Hw Hdd;
      assert (Hf : is_dir_at t (cur ++ [name]) = false) by (destruct (is_dir_at t (cur ++ [name])) eqn:Ed; [|done]; apply is_dir_lookup in Ed; [congruence|by destruct cur]);
      destruct rest as [|next rest]; [rewrite canonical_from_nil in Hw; injection Hw as <-; congruence|
      rewrite canonical_from_cons, Hf in Hw; done]|];
     rewrite lookup_delete_ne, E by done; destruct node; try done; auto).
Qed.
