(* ===== verification/Cleanup.v ===== *)
(** * Deletion of inspection records and their files

    app/service/src/artifact_cleanup.rs, the cleanup table of db/mod.rs and the routes of main.rs that
    delete records. A deletion freezes a plan (every file with its size and hash) in the database,
    deletes the files one by one and records progress after each, removes the emptied cache
    directories and only then deletes the rows. Each call of the file system and of the database is a
    step of its own that may fail, and any number of requests run at the same time. *)

From S2P Require Import Prelude Json Http Db Concurrent FileTree.
From Stdlib Require Import Ascii SpecFloat.

Definition CLEANUP_SCHEMA : string := "steel.record-artifact-cleanup.v1".

(** ** Data *)

Record CleanupEntry := mkCleanupEntry {
  ce_path : string;
  ce_kind : string;
  ce_size_bytes : Z;
  ce_sha256 : string;
  ce_status : string;
  ce_error : string;
}.

Record CleanupManifest := mkCleanupManifest {
  cm_schema : string;
  cm_record_id : string;
  cm_material_id : string;
  cm_session_id : string;
  cm_entries : list CleanupEntry;
  cm_directories : list string;
}.

Record CleanupExecution := mkCleanupExecution {
  cx_cleanup_id : string;
  cx_record_id : string;
  cx_material_id : string;
  cx_files_planned : Z;
  cx_files_deleted : Z;
  cx_files_missing : Z;
  cx_bytes_planned : Z;
  cx_bytes_deleted : Z;
  cx_defects_deleted : Z;
  cx_capture_files_deleted : Z;
}.

(** *** Rows (db/entities.rs) *)

(** [record_cleanup::Model]. *)
Record RecordCleanup := mkRecordCleanup {
  rc_id : string;
  rc_record_id : string;
  rc_material_id : string;
  rc_status : string;
  rc_actor : string;
  rc_reason : string;
  rc_manifest_json : string;
  rc_files_planned : Z;
  rc_files_deleted : Z;
  rc_files_missing : Z;
  rc_bytes_planned : Z;
  rc_bytes_deleted : Z;
  rc_error : string;
  rc_created_at : string;
  rc_updated_at : string;
  rc_completed_at : string;
}.

(** [production_defect::Model], the columns that are read here. *)
Record ProductionDefect := mkProductionDefect {
  pd_id : string;
  pd_inspection_id : string;
  pd_camera_id : string;
  pd_severity : string;
  pd_y_mm : spec_float;
}.

(** [AdminInspectionRecord] and [AdminInspectionRecordDetail]. *)
Record AdminInspectionRecord := mkAdminInspectionRecord {
  inspection : ProductionInspection;
  session : option MaterialSession;
  severe_count : Z;
  review_count : Z;
  minor_count : Z;
}.

Record AdminInspectionRecordDetail := mkAdminInspectionRecordDetail {
  record : AdminInspectionRecord;
  defects : list ProductionDefect;
  capture_files : list CaptureFile;
}.

(** [DeleteInspectionRecordResult]. *)
Record DeleteInspectionRecordResult := mkDeleteInspectionRecordResult {
  dd_id : string;
  dd_material_id : string;
  dd_defects_deleted : Z;
  dd_capture_files_deleted : Z;
}.

(** ** State *)

(** The files and the tables the requests share. [failures] counts the operations that the system failed,
    [stat_failures] those of them that asked whether a path exists and what it is; [ticks] counts the
    questions to the surroundings. *)
Record CleanupState := mkCleanupState {
  files : Tree;
  record_cleanup : list RecordCleanup;
  production_inspection : list ProductionInspection;
  production_defect : list ProductionDefect;
  capture_file : list CaptureFile;
  session_rows : list MaterialSession;
  task_rows : list Task;
  audit_rows : list AuditRow;
  failures : Z;
  stat_failures : Z;
  ticks : nat;
}.

Definition with_files v (s : CleanupState) :=
  mkCleanupState v (record_cleanup s) (production_inspection s) (production_defect s) (capture_file s)
    (session_rows s) (task_rows s) (audit_rows s) (failures s) (stat_failures s) (ticks s).
Definition with_cleanups v (s : CleanupState) :=
  mkCleanupState (files s) v (production_inspection s) (production_defect s) (capture_file s)
    (session_rows s) (task_rows s) (audit_rows s) (failures s) (stat_failures s) (ticks s).
Definition with_records cleanups inspections defects captures (s : CleanupState) :=
  mkCleanupState (files s) cleanups inspections defects captures
    (session_rows s) (task_rows s) (audit_rows s) (failures s) (stat_failures s) (ticks s).
Definition with_audits v (s : CleanupState) :=
  mkCleanupState (files s) (record_cleanup s) (production_inspection s) (production_defect s) (capture_file s)
    (session_rows s) (task_rows s) v (failures s) (stat_failures s) (ticks s).
Definition with_failure (stats : Z) (s : CleanupState) :=
  mkCleanupState (files s) (record_cleanup s) (production_inspection s) (production_defect s) (capture_file s)
    (session_rows s) (task_rows s) (audit_rows s) (failures s + 1) (stat_failures s + stats) (ticks s).
Definition with_tick (s : CleanupState) :=
  mkCleanupState (files s) (record_cleanup s) (production_inspection s) (production_defect s) (capture_file s)
    (session_rows s) (task_rows s) (audit_rows s) (failures s) (stat_failures s) (S (ticks s)).

Abbreviation Cleanup := (Prog CleanupState).

(** ** Surroundings *)

(** The working directory, STEEL_ARTIFACT_ALLOWED_ROOTS (empty when it is not set), the directory of the
    inspection-world cache, a bound on the depth of directories, SHA-256 in hexadecimal ([sha2]) and the
    text of a manifest ([serde_json]); and the answers to the questions the requests put to the
    surroundings, in the order they are put: whether an operation of the file system fails, the fate of a
    statement, the clock, the text of an error, the order of a directory. *)
Class CleanupEnv := {
  cwd : Path;
  allowed_roots_text : string;
  world_cache_root : string;
  depth_fuel : nat;
  sha256 : string -> string;
  manifest_print : CleanupManifest -> string;
  manifest_read : string -> option CleanupManifest;
  fault_at : nat -> option string;
  fate_at : nat -> Fate;
  time_at : nat -> Z;
  text_at : nat -> string;
  order_at : nat -> list (string * Node);
}.

(** What is documented of them: a digest is 64 characters long, and a manifest is read back as it was
    written, its sizes being 64-bit. *)
Definition sizes_fit (m : CleanupManifest) : Prop := Forall (fun e => 0 <= ce_size_bytes e <= u64_max) (cm_entries m).

Class CleanupEnvLaws (env : CleanupEnv) : Prop := {
  sha256_not_empty : forall content, sha256 content <> "";
  manifest_read_print : forall m, sizes_fit m -> manifest_read (manifest_print m) = Some m;
}.

Section Program.
Context `{CleanupEnv} `{JsonCodec}.

Definition ask {A} (answer : nat -> A) : Cleanup A := atomically (fun s => (answer (ticks s), with_tick s)).

(** ** The operating system *)

(** An operation fails with a message or goes on. *)
Definition attempt (stats : Z) : Cleanup (option string) :=
  let~ fault := ask fault_at in
  match fault with
  | None => Ret None
  | Some message => let~ _ := updating (with_failure stats) in Ret (Some message)
  end.

(** A question to the file system; where it has no answer the message is the system's. *)
Definition fs_read {A} (f : Tree -> option A) : Cleanup (Result A string) :=
  let~ fault := attempt 0 in
  match fault with
  | Some message => Ret (Err message)
  | None =>
      let~ answer := reading (fun s => f (files s)) in
      match answer with
      | Some a => Ret (Ok a)
      | None => let~ message := ask text_at in Ret (Err message)
      end
  end.

(** A removal. *)
Definition fs_remove (f : Tree -> option Tree) : Cleanup (Result unit string) :=
  let~ fault := attempt 0 in
  match fault with
  | Some message => Ret (Err message)
  | None =>
      let~ done := atomically (fun s => match f (files s) with
                                        | Some t => (true, with_files t s)
                                        | None => (false, s)
                                        end) in
      if done : bool then Ret (Ok tt) else let~ message := ask text_at in Ret (Err message)
  end.

(** ** The database *)

Definition statement {A} (f : CleanupState -> Result (A * CleanupState) string) : Cleanup (Result A string) :=
  let~ fate := ask fate_at in
  match fate with
  | Works => atomically (fun s => match f s with Ok (a, s') => (Ok a, s') | Err e => (Err e, s) end)
  | FailsBefore message => let~ _ := updating (with_failure 0) in Ret (Err message)
  | FailsAfter message =>
      let~ _ := updating (fun s => with_failure 0 (match f s with Ok (_, s') => s' | Err _ => s end)) in
      Ret (Err message)
  end.

Definition select {A} (f : CleanupState -> A) : Cleanup (Result A string) := statement (fun s => Ok (f s, s)).

(** db/mod.rs [now_millis_string] and [now_nanos_string]. *)
Definition clock : Cleanup string := let~ now := ask time_at in Ret (dec (Z.max 0 now)).

Definition record_not_found (what : string) : string := "RecordNotFound Error: " +:+ what.

Definition open_cleanup (record_id : string) (row : RecordCleanup) : bool :=
  (rc_record_id row == record_id) && one_of (rc_status row) ["planned"; "deleting"; "failed"].

Definition latest_open_cleanup (record_id : string) (rows : list RecordCleanup) : option RecordCleanup :=
  head (order_desc (fun row => (rc_created_at row, "")) (List.filter (open_cleanup record_id) rows)).

(** db/mod.rs [find_record_cleanup]. *)
Definition find_record_cleanup (id : string) : Cleanup (Result (option RecordCleanup) string) :=
  select (fun s => List.find (fun row => rc_id row == id) (record_cleanup s)).

(** db/mod.rs [find_open_record_cleanup_for_record]. *)
Definition find_open_record_cleanup_for_record (record_id : string) : Cleanup (Result (option RecordCleanup) string) :=
  select (fun s => latest_open_cleanup record_id (record_cleanup s)).

(** db/mod.rs [RecordCleanupInput]. *)
Record RecordCleanupInput := mkRecordCleanupInput {
  ri_record_id : string;
  ri_material_id : string;
  ri_actor : string;
  ri_reason : string;
  ri_manifest_json : string;
  ri_files_planned : Z;
  ri_bytes_planned : Z;
}.

(** db/mod.rs [create_or_load_record_cleanup]. *)
Definition create_or_load_record_cleanup (input : RecordCleanupInput) : Cleanup (Result RecordCleanup string) :=
  let~? existing := select (fun s => latest_open_cleanup (ri_record_id input) (record_cleanup s)) in
  match existing with
  | Some row => Ret (Ok row)
  | None =>
      let~ now := clock in
      let~ nanos := clock in
      let row := mkRecordCleanup ("CLEAN-" +:+ nanos) (ri_record_id input) (ri_material_id input) "planned"
                   (ri_actor input) (ri_reason input) (ri_manifest_json input) (ri_files_planned input) 0 0
                   (ri_bytes_planned input) 0 "" now now "" in
      statement (fun s =>
        if existsb (fun r => rc_id r == rc_id row) (record_cleanup s) then Err "UNIQUE constraint failed: record_cleanup.id"
        else Ok (row, with_cleanups (record_cleanup s ++ [row]) s))
  end.

(** db/mod.rs [update_record_cleanup_progress]: the row is read and then updated by its id. *)
Definition progressed (status manifest_json : string) (files_deleted files_missing bytes_deleted : Z) (error now : string)
    (row : RecordCleanup) : RecordCleanup :=
  mkRecordCleanup (rc_id row) (rc_record_id row) (rc_material_id row) status (rc_actor row) (rc_reason row) manifest_json
    (rc_files_planned row) files_deleted files_missing (rc_bytes_planned row) bytes_deleted error (rc_created_at row) now
    (rc_completed_at row).

Definition update_record_cleanup_progress (id status manifest_json : string)
    (files_deleted files_missing bytes_deleted : Z) (error : string) : Cleanup (Result RecordCleanup string) :=
  let~? found := find_record_cleanup id in
  match found with
  | None => Ret (Err (record_not_found ("record cleanup " +:+ id)))
  | Some model =>
      let~ now := clock in
      let update := progressed status manifest_json files_deleted files_missing bytes_deleted error now in
      statement (fun s =>
        if existsb (fun row => rc_id row == id) (record_cleanup s)
        then Ok (update model, with_cleanups (update_where (fun row => rc_id row == id) update (record_cleanup s)) s)
        else Err (db_err_text RecordNotUpdated))
  end.

(** db/mod.rs [complete_record_cleanup]: a query, and a transaction that takes effect whole or not at all. *)
Definition completed (manifest_json : string) (files_deleted files_missing bytes_deleted : Z) (now : string)
    (row : RecordCleanup) : RecordCleanup :=
  mkRecordCleanup (rc_id row) (rc_record_id row) (rc_material_id row) "completed" (rc_actor row) (rc_reason row)
    manifest_json (rc_files_planned row) files_deleted files_missing (rc_bytes_planned row) bytes_deleted ""
    (rc_created_at row) now now.

Definition complete_record_cleanup (cleanup_id record_id manifest_json : string)
    (files_deleted files_missing bytes_deleted : Z) : Cleanup (Result DeleteInspectionRecordResult string) :=
  let~? found := select (fun s => List.find (fun row => pi_id row == record_id) (production_inspection s)) in
  match found with
  | None => Ret (Err (record_not_found ("production inspection " +:+ record_id)))
  | Some row =>
      let~ now := clock in
      statement (fun s =>
        let of_record := fun d => pd_inspection_id d == record_id in
        let file_of_record := fun f => cf_inspection_id f == record_id in
        let this := fun i => pi_id i == record_id in
        if negb (count_where this (production_inspection s) =? 1)
        then Err "Custom Error: record cleanup lost inspection ownership"
        else if negb (existsb (fun row => rc_id row == cleanup_id) (record_cleanup s))
        then Err (record_not_found ("record cleanup " +:+ cleanup_id))
        else
          Ok (mkDeleteInspectionRecordResult (pi_id row) (pi_material_id row)
                (count_where of_record (production_defect s)) (count_where file_of_record (capture_file s)),
              with_records
                (update_where (fun row => rc_id row == cleanup_id)
                   (completed manifest_json files_deleted files_missing bytes_deleted now) (record_cleanup s))
                (List.filter (fun i => negb (this i)) (production_inspection s))
                (List.filter (fun d => negb (of_record d)) (production_defect s))
                (List.filter (fun f => negb (file_of_record f)) (capture_file s)) s))
  end.

(** db/mod.rs [admin_production_record]. *)
Definition admin_production_record (row : ProductionInspection) : Cleanup (Result AdminInspectionRecord string) :=
  let~? found := select (fun s => List.find (fun m => m_id m == pi_session_id row) (session_rows s)) in
  let~? rows := select (fun s => List.filter (fun d => pd_inspection_id d == pi_id row) (production_defect s)) in
  let count severity := count_where (fun d => pd_severity d == severity) rows in
  Ret (Ok (mkAdminInspectionRecord row found (count "severe") (count "review") (count "minor"))).

(** ORDER BY camera_id, y_mm and ORDER BY camera_id, sequence_no. *)
Definition defect_le (x y : ProductionDefect) : Prop :=
  if pd_camera_id x == pd_camera_id y then SFleb (pd_y_mm x) (pd_y_mm y) = true
  else String.le (pd_camera_id x) (pd_camera_id y).
#[global] Instance defect_le_dec : RelDecision defect_le.
Proof. intros x y. unfold defect_le. destruct (_ == _); apply _. Defined.

Definition capture_le (x y : CaptureFile) : Prop :=
  if cf_camera_id x == cf_camera_id y then cf_sequence_no x <= cf_sequence_no y
  else String.le (cf_camera_id x) (cf_camera_id y).
#[global] Instance capture_le_dec : RelDecision capture_le.
Proof. intros x y. unfold capture_le. destruct (_ == _); apply _. Defined.

(** db/mod.rs [find_inspection_record_detail]. *)
Definition find_inspection_record_detail (id : string) : Cleanup (Result (option AdminInspectionRecordDetail) string) :=
  let~? found := select (fun s => List.find (fun row => pi_id row == id) (production_inspection s)) in
  match found with
  | None => Ret (Ok None)
  | Some row =>
      let~? defect_rows := select (fun s =>
        merge_sort defect_le (List.filter (fun d => pd_inspection_id d == id) (production_defect s))) in
      let~? file_rows := select (fun s =>
        merge_sort capture_le (List.filter (fun f => cf_inspection_id f == id) (capture_file s))) in
      let~? found := admin_production_record row in
      Ret (Ok (Some (mkAdminInspectionRecordDetail found defect_rows file_rows)))
  end.

(** db/mod.rs [count_unresolved_production_tasks_for_session]. *)
Definition count_unresolved_tasks (session_id : string) : Cleanup (Result Z string) :=
  select (fun s => count_where (fun t =>
    (t_session_id t == session_id)
    && one_of (t_status t) ["queued"; "running"; "failed"; "interrupted"; "blocked"]) (task_rows s)).

(** db/mod.rs [append_audit_log]; the requests ignore its answer. *)
Definition append_audit (actor action target detail level : string) : Cleanup (Result unit string) :=
  let~ nanos := clock in
  let~ now := clock in
  let id := "AUD-" +:+ nanos in
  statement (fun s =>
    if existsb (fun r => a_id r == id) (audit_rows s) then Err "UNIQUE constraint failed: audit_log.id"
    else Ok (tt, with_audits (audit_rows s ++ [mkAuditRow id actor action target detail level now]) s)).

(** [x as i64]. *)
Definition as_i64_cast (x : Z) : Z := (x - i64_min) `mod` 18446744073709551616 + i64_min.

(** ** Paths *)

(** [path_key], not on Windows. *)
Definition path_key (text : string) : string := replace_byte slash (ascii_of_nat 92) text.

(** [is_forbidden_maintenance_path]. *)
Definition forbidden_name (name : string) : bool :=
  one_of (to_ascii_lowercase name) ["maintenance"; "calibration"; "calibrations"; "config"; "profiles"].
Definition is_forbidden_maintenance_path (text : string) : bool := existsb forbidden_name (normal_components text).

Definition within (roots : list Path) (p : Path) : bool := existsb (path_starts_with p) roots.

(** [Path::exists], [is_dir] and [is_file] ask for the metadata and read as false when that fails. *)
Definition metadata_of (text : string) : Cleanup (option Node) :=
  let~ fault := attempt 1 in
  match fault with
  | Some _ => Ret None
  | None => reading (fun s => stat cwd (files s) text)
  end.
Definition path_exists (text : string) : Cleanup bool := let~ node := metadata_of text in Ret (is_some node).
Definition path_is_dir (p : Path) : Cleanup bool :=
  let~ node := metadata_of (display p) in Ret (match node with Some NDir => true | _ => false end).
Definition path_is_file (p : Path) : Cleanup bool :=
  let~ node := metadata_of (display p) in Ret (match node with Some (NFile _) => true | _ => false end).

(** [fs::canonicalize]. *)
Definition canonicalize (text : string) : Cleanup (Result Path string) := fs_read (fun t => fs_canonicalize cwd t text).

(** [canonical_allowed_roots_from_text]; the paths are separated as on POSIX systems. *)
Fixpoint collect_roots (texts : list string) (roots : list Path) : Cleanup (Result (list Path) string) :=
  match texts with
  | [] => Ret (Ok roots)
  | root :: rest =>
      if negb (is_absolute root) then Ret (Err "artifact cleanup roots must be absolute")
      else
        let~? canonical := map_error (fun e => "artifact cleanup root unavailable: " +:+ e) (canonicalize root) in
        let~ directory := path_is_dir canonical in
        if negb directory then Ret (Err "artifact cleanup root is not a directory")
        else if existsb (fun existing => path_key (display existing) == path_key (display canonical)) roots
        then collect_roots rest roots
        else collect_roots rest (roots ++ [canonical])
  end.

Definition canonical_allowed_roots_from_text (text : string) : Cleanup (Result (list Path) string) :=
  let~? roots := collect_roots (split_byte (ascii_of_nat 58) text) [] in
  match roots with
  | [] => Ret (Err "STEEL_ARTIFACT_ALLOWED_ROOTS is required for artifact cleanup")
  | _ => Ret (Ok roots)
  end.

Definition configured_allowed_roots : Cleanup (Result (list Path) string) :=
  canonical_allowed_roots_from_text allowed_roots_text.

Definition configured_roots_for_planning : Cleanup (Result string string) :=
  let~? _ := configured_allowed_roots in
  Ret (Ok allowed_roots_text).

(** [canonical_file_within_roots]. *)
Definition canonical_file_within_roots (path : string) (roots : list Path) : Cleanup (Result (option Path) string) :=
  if negb (is_absolute path) || is_forbidden_maintenance_path path
  then Ret (Err "artifact path is outside the deletable production namespace")
  else
    let~ there := path_exists path in
    if negb there then
      match parent_components path with
      | None => Ret (Err "artifact path has no parent")
      | Some parent =>
          let~? canonical_parent := map_error (fun _ => "missing artifact parent cannot be verified")
            (fs_read (fun t => canonical_from MAXSYMLINKS t [] parent)) in
          if within roots canonical_parent then Ret (Ok None)
          else Ret (Err "missing artifact path is outside allowed roots")
      end
    else
      let~? canonical := map_error (fun e => "artifact path cannot be canonicalized: " +:+ e) (canonicalize path) in
      if negb (within roots canonical) then Ret (Err "artifact path escapes allowed roots")
      else
        let~ regular := path_is_file canonical in
        if negb regular then Ret (Err "artifact cleanup only deletes regular files")
        else Ret (Ok (Some canonical)).

(** [fs::metadata(..).len()], a 64-bit number. *)
Definition file_len (content : string) : Z := wrap_u64 (str_len content).
Definition metadata_len (p : Path) : Cleanup (Result Z string) :=
  fs_read (fun t => match stat cwd t (display p) with
                    | Some (NFile content) => Some (file_len content)
                    | Some _ => Some 0
                    | None => None
                    end).

(** [sha256_file]: what was opened stays readable when the name is removed. *)
Definition sha256_file (p : Path) : Cleanup (Result string string) :=
  let~? content := map_error (fun e => "artifact open failed: " +:+ e)
    (fs_read (fun t => match stat cwd t (display p) with Some (NFile content) => Some content | _ => None end)) in
  let~ fault := attempt 0 in
  match fault with
  | Some e => Ret (Err ("artifact hash read failed: " +:+ e))
  | None => Ret (Ok (sha256 content))
  end.

(** [collect_summary_paths]. *)
Fixpoint collect_summary_paths (value : Value) : list string :=
  match value with
  | JString text => if is_absolute text && negb (contains "://" text) then [text] else []
  | JArray items => flat_map collect_summary_paths items
  | JObject items => flat_map (fun '(_, item) => collect_summary_paths item) items
  | _ => []
  end.

(** ** Planning *)

(** Entries, and the keys already taken. *)
Definition Candidates : Type := list CleanupEntry * gset string.

Definition push_entry (entry : CleanupEntry) (c : Candidates) : Candidates :=
  if decide (path_key (ce_path entry) ∈ snd c) then c
  else (fst c ++ [entry], {[path_key (ce_path entry)]} ∪ snd c).

(** [add_candidate]. *)
Definition add_candidate (raw_path kind : string) (roots : list Path) (c : Candidates) : Cleanup Candidates :=
  if is_blank raw_path || contains "://" raw_path then Ret c
  else
    let~ result := canonical_file_within_roots raw_path roots in
    let~ entry :=
      match result with
      | Ok (Some canonical) =>
          let~ len := metadata_len canonical in
          match len with
          | Ok len =>
              let~ hash := sha256_file canonical in
              match hash with
              | Ok hash => Ret (mkCleanupEntry (display canonical) kind len hash "planned" "")
              | Err error => Ret (mkCleanupEntry (display canonical) kind 0 "" "rejected" error)
              end
          | Err error =>
              Ret (mkCleanupEntry (display canonical) kind 0 "" "rejected" ("artifact metadata failed: " +:+ error))
          end
      | Ok None => Ret (mkCleanupEntry raw_path kind 0 "" "missing" "")
      | Err error => Ret (mkCleanupEntry raw_path kind 0 "" "rejected" error)
      end in
    Ret (push_entry entry c).

Fixpoint add_candidates (paths : list (string * string)) (roots : list Path) (c : Candidates) : Cleanup Candidates :=
  match paths with
  | [] => Ret c
  | (path, kind) :: rest =>
      let~ c := add_candidate path kind roots c in
      add_candidates rest roots c
  end.

(** What the summary of a record refers to: nothing when it cannot be read. *)
Definition read_summary (summary_path : string) (roots : list Path) : Cleanup (list string) :=
  if is_empty summary_path then Ret []
  else
    let~ found := canonical_file_within_roots summary_path roots in
    match found with
    | Ok (Some canonical) =>
        let~ text := fs_read (fun t => match stat cwd t (display canonical) with
                                       | Some (NFile content) => Some content
                                       | _ => None
                                       end) in
        match text with
        | Ok text => Ret (match json_parse text with Some value => collect_summary_paths value | None => [] end)
        | Err _ => Ret []
        end
    | _ => Ret []
    end.

(** [build_manifest]. *)
Definition build_manifest (detail : AdminInspectionRecordDetail) (roots_text : string) :
    Cleanup (Result CleanupManifest string) :=
  match session (record detail) with
  | None => Ret (Err "record cleanup requires a retained material session")
  | Some session =>
      if m_status session != "finished" then Ret (Err "record cleanup requires a finished material session")
      else
        let~? roots := canonical_allowed_roots_from_text roots_text in
        let row := inspection (record detail) in
        let~ c := add_candidates (flat_map (fun f => [(cf_path f, "capture"); (cf_metadata_path f, "metadata")])
                                    (capture_files detail)) roots ([], ∅) in
        let summary_path := trim (pi_summary_path row) in
        let~ c := add_candidate summary_path "summary" roots c in
        let~ referenced := read_summary summary_path roots in
        let~ c := add_candidates (map (fun path => (path, "summary-reference")) referenced) roots c in
        Ret (Ok (mkCleanupManifest CLEANUP_SCHEMA (pi_id row) (pi_material_id row) (pi_session_id row) (fst c) []))
  end.

(** *** The cache of a record *)

Definition CacheWalk : Type := Candidates * list string.

(** The loop of [collect_cache_tree] over the entries of a directory. *)
Fixpoint collect_entries (visit : string -> CacheWalk -> Cleanup (Result CacheWalk string)) (directory : Path)
    (roots : list Path) (items : list (string * Node)) (w : CacheWalk) : Cleanup (Result CacheWalk string) :=
  match items with
  | [] => Ret (Ok w)
  | (name, node) :: rest =>
      let~ fault := attempt 0 in
      match fault with
      | Some e => Ret (Err ("cache entry read failed: " +:+ e))
      | None =>
          let~ fault := attempt 0 in
          match fault with
          | Some e => Ret (Err ("cache entry type failed: " +:+ e))
          | None =>
              let path := display (directory ++ [name]) in
              match node with
              | NLink _ => Ret (Err "cache tree contains a symbolic link")
              | NDir =>
                  let~? w := visit path w in
                  collect_entries visit directory roots rest w
              | NFile _ =>
                  let~ c := add_candidate path "inspection-world-cache" roots (fst w) in
                  collect_entries visit directory roots rest (c, snd w)
              end
          end
      end
  end.

(** The entries of a directory, in an order of the system's. *)
Definition read_dir (p : Path) : Cleanup (Result (list (string * Node)) string) :=
  let~? items := fs_read (fun t => match stat cwd t (display p) with Some NDir => Some (children t p) | _ => None end) in
  let~ order := ask order_at in
  Ret (Ok (if decide (order ≡ₚ items) then order else items)).

(** [collect_cache_tree]. *)
Fixpoint collect_cache_tree (fuel : nat) (roots : list Path) (directory : string) (w : CacheWalk) :
    Cleanup (Result CacheWalk string) :=
  match fuel with
  | O => Panicked
  | S fuel =>
      let~? canonical := map_error (fun e => "cache directory unavailable: " +:+ e) (canonicalize directory) in
      let~ is_directory := path_is_dir canonical in
      if negb is_directory || is_forbidden_maintenance_path (display canonical) || negb (within roots canonical)
      then Ret (Err "cache directory is outside allowed roots")
      else
        let~? items := map_error (fun e => "cache directory read failed: " +:+ e) (read_dir canonical) in
        collect_entries (collect_cache_tree fuel roots) canonical roots items (fst w, snd w ++ [display canonical])
  end.

(** [sort_by_key], stable, and [dedup]. *)
Definition depth (text : string) : nat := length (components text).
Fixpoint insert_by_depth (text : string) (sorted : list string) : list string :=
  match sorted with
  | [] => [text]
  | next :: rest => if (depth text <=? depth next)%nat then text :: sorted else next :: insert_by_depth text rest
  end.
Definition sort_by_depth (texts : list string) : list string := foldr insert_by_depth [] texts.
Fixpoint dedup (texts : list string) : list string :=
  match texts with
  | x :: rest => match dedup rest with
                 | y :: rest' => if x == y then y :: rest' else x :: y :: rest'
                 | [] => [x]
                 end
  | [] => []
  end.

(** [append_cache_tree]. *)
Definition append_cache_tree (manifest : CleanupManifest) (cache_record_root roots_text : string) :
    Cleanup (Result CleanupManifest string) :=
  let~ there := path_exists cache_record_root in
  if negb there then Ret (Ok manifest)
  else
    let~? roots := canonical_allowed_roots_from_text roots_text in
    let seen := list_to_set (map (fun e => path_key (ce_path e)) (cm_entries manifest)) in
    let~? w := collect_cache_tree depth_fuel roots cache_record_root ((cm_entries manifest, seen), cm_directories manifest) in
    Ret (Ok (mkCleanupManifest (cm_schema manifest) (cm_record_id manifest) (cm_material_id manifest)
               (cm_session_id manifest) (fst (fst w)) (dedup (sort_by_depth (snd w))))).

(** inspection_world.rs [cache_component] and [record_cache_root]. *)
Definition cache_component (value label : string) : Result string string :=
  let normalized := trim value in
  if is_empty normalized || (str_len normalized >? 128)
     || negb (all_bytes (fun a => is_ascii_alphanumeric a || byte_is a 45 || byte_is a 95) normalized)
  then Err ("Artifact(" +:+ String quote (label +:+ " is not a safe cache identity" +:+ String quote ")"))
  else Ok normalized.

Definition path_join (base part : string) : string :=
  if is_absolute part then part
  else if is_empty base || ends_with "/" base then base +:+ part
  else base +:+ "/" +:+ part.

Definition record_cache_root (cache_root record_id : string) : Result string string :=
  let? component := cache_component record_id "recordId" in
  Ok (path_join (path_join cache_root "inspection-world-v3") component).

(** ** Counting *)

Definition with_status (status : string) (m : CleanupManifest) : list CleanupEntry :=
  List.filter (fun e => ce_status e == status) (cm_entries m).
Definition sum_bytes (entries : list CleanupEntry) : Z :=
  fold_left (fun total e => as_i64_cast (total + as_i64_cast (ce_size_bytes e))) entries 0.

(** [manifest_counts] and [manifest_plan_counts]. *)
Definition manifest_counts (m : CleanupManifest) : Z * Z * Z :=
  (wrap_i32 (Z.of_nat (length (with_status "deleted" m))), wrap_i32 (Z.of_nat (length (with_status "missing" m))),
   sum_bytes (with_status "deleted" m)).
Definition manifest_plan_counts (m : CleanupManifest) : Z * Z :=
  (wrap_i32 (Z.of_nat (length (cm_entries m))), sum_bytes (cm_entries m)).

(** [parse_manifest]. *)
Definition parse_manifest (text : string) : Cleanup (Result CleanupManifest string) :=
  match manifest_read text with
  | None => let~ message := ask text_at in Ret (Err message)
  | Some m => if cm_schema m != CLEANUP_SCHEMA then Ret (Err "unsupported cleanup manifest schema") else Ret (Ok m)
  end.

(** ** Execution *)

Definition settled_entry (status : string) (e : CleanupEntry) : CleanupEntry :=
  mkCleanupEntry (ce_path e) (ce_kind e) (ce_size_bytes e) (ce_sha256 e) status "".
Definition failed_entry (error : string) (e : CleanupEntry) : CleanupEntry :=
  mkCleanupEntry (ce_path e) (ce_kind e) (ce_size_bytes e) (ce_sha256 e) "failed" error.

(** [execute_entry]: the entry as it is left, or the error. *)
Definition execute_entry (entry : CleanupEntry) (roots : list Path) : Cleanup (Result CleanupEntry string) :=
  if one_of (ce_status entry) ["deleted"; "missing"] then Ret (Ok entry)
  else if ce_status entry == "rejected" then Ret (Err (ce_error entry))
  else
    let~? found := canonical_file_within_roots (ce_path entry) roots in
    match found with
    | None => Ret (Ok (settled_entry "missing" entry))
    | Some canonical =>
        let~? len := map_error (fun e => "artifact metadata changed: " +:+ e) (metadata_len canonical) in
        let changed := Ret (Err "artifact changed after cleanup plan was frozen") in
        if negb (len =? ce_size_bytes entry) then changed
        else
          let~? hash := sha256_file canonical in
          if hash != ce_sha256 entry then changed
          else
            let~? _ := map_error (fun e => "artifact delete failed: " +:+ e) (fs_remove (fun t => remove_file t canonical)) in
            Ret (Ok (settled_entry "deleted" entry))
    end.

Definition with_entries (entries : list CleanupEntry) (m : CleanupManifest) : CleanupManifest :=
  mkCleanupManifest (cm_schema m) (cm_record_id m) (cm_material_id m) (cm_session_id m) entries (cm_directories m).

Definition record_progress (id status : string) (m : CleanupManifest) (error : string) : Cleanup (Result RecordCleanup string) :=
  let '(deleted, missing, bytes_deleted) := manifest_counts m in
  update_record_cleanup_progress id status (manifest_print m) deleted missing bytes_deleted error.

(** The loop over the entries: those in front are done. *)
Fixpoint execute_entries (roots : list Path) (id : string) (m : CleanupManifest) (front rest : list CleanupEntry) :
    Cleanup (Result CleanupManifest string) :=
  match rest with
  | [] => Ret (Ok (with_entries front m))
  | entry :: rest =>
      let~ result := execute_entry entry roots in
      match result with
      | Err error =>
          let~? _ := record_progress id "failed" (with_entries (front ++ failed_entry error entry :: rest) m) error in
          Ret (Err error)
      | Ok entry =>
          let~? _ := record_progress id "deleting" (with_entries (front ++ entry :: rest) m) "" in
          execute_entries roots id m (front ++ [entry]) rest
      end
  end.

(** The loop over the directories. *)
Fixpoint remove_directories (roots : list Path) (directories : list string) : Cleanup (Result unit string) :=
  match directories with
  | [] => Ret (Ok tt)
  | directory :: rest =>
      let~ there := path_exists directory in
      if negb there then remove_directories roots rest
      else
        let~? canonical := map_error (fun e => "cache directory changed: " +:+ e) (canonicalize directory) in
        let~ is_directory := path_is_dir canonical in
        if negb is_directory || is_forbidden_maintenance_path (display canonical) || negb (within roots canonical)
        then Ret (Err "cache directory changed after cleanup plan was frozen")
        else
          let~? _ := map_error (fun e => "cache directory is not empty after cleanup: " +:+ e)
                       (fs_remove (fun t => remove_dir t canonical)) in
          remove_directories roots rest
  end.

(** [execute_persisted_cleanup]. *)
Definition execute_persisted_cleanup (cleanup : RecordCleanup) : Cleanup (Result CleanupExecution string) :=
  let~? roots := configured_allowed_roots in
  let~? manifest := parse_manifest (rc_manifest_json cleanup) in
  if cm_record_id manifest != rc_record_id cleanup then Ret (Err "cleanup manifest record mismatch")
  else
    let~? manifest := execute_entries roots (rc_id cleanup) manifest [] (cm_entries manifest) in
    let~? _ := remove_directories roots (rev (cm_directories manifest)) in
    let '(files_deleted, files_missing, bytes_deleted) := manifest_counts manifest in
    let~? deleted := complete_record_cleanup (rc_id cleanup) (rc_record_id cleanup) (manifest_print manifest)
                       files_deleted files_missing bytes_deleted in
    Ret (Ok (mkCleanupExecution (rc_id cleanup) (dd_id deleted) (dd_material_id deleted) (rc_files_planned cleanup)
               files_deleted files_missing (rc_bytes_planned cleanup) bytes_deleted (dd_defects_deleted deleted)
               (dd_capture_files_deleted deleted))).

(** ** Routes *)

Abbreviation CleanupFailure := (string * option string)%type.

(** main.rs [execute_record_artifact_cleanup]. *)
Definition execute_record_artifact_cleanup (record_id actor reason : string) : Cleanup (Result CleanupExecution CleanupFailure) :=
  let early {A} (m : Cleanup (Result A string)) : Cleanup (Result A CleanupFailure) := map_error (fun e => (e, None)) m in
  let execute cleanup := map_error (fun e => (e, Some (rc_id cleanup))) (execute_persisted_cleanup cleanup) in
  let~? existing := early (find_open_record_cleanup_for_record record_id) in
  match existing with
  | Some cleanup => execute cleanup
  | None =>
      let~? detail := early (find_inspection_record_detail record_id) in
      match detail with
      | None => Ret (Err ("record not found", None))
      | Some detail =>
          let row := inspection (record detail) in
          let~? unresolved := early (count_unresolved_tasks (pi_session_id row)) in
          if unresolved >? 0 then Ret (Err ("record cleanup is blocked by unresolved production tasks", None))
          else
            let~? roots_text := early configured_roots_for_planning in
            let~? manifest := early (build_manifest detail roots_text) in
            let~? cache_record_root := early (Ret (record_cache_root world_cache_root record_id)) in
            let~? manifest := early (append_cache_tree manifest cache_record_root roots_text) in
            let '(files_planned, bytes_planned) := manifest_plan_counts manifest in
            let~? cleanup := early (create_or_load_record_cleanup
              (mkRecordCleanupInput (pi_id row) (pi_material_id row) actor reason (manifest_print manifest)
                 files_planned bytes_planned)) in
            execute cleanup
      end
  end.

(** main.rs [record_cleanup_failure_response]. *)
Definition record_cleanup_failure_response (error : string) (cleanup_id : option string) : string :=
  let configuration_missing := contains "STEEL_ARTIFACT_ALLOWED_ROOTS" error in
  let not_found := error == "record not found" in
  let status := if configuration_missing then "503 Service Unavailable"
                else if not_found then "404 Not Found" else "409 Conflict" in
  let code := if configuration_missing then 503 else if not_found then 404 else 409 in
  json_response status
    (jobj [("code", jint code); ("error", JString "record_artifact_cleanup_failed"); ("message", JString error);
           ("cleanupId", from_option JString JNull cleanup_id); ("retryable", JBool (negb not_found))]).

(** main.rs [record_cleanup_json]. *)
Definition record_cleanup_json (model : RecordCleanup) : Value :=
  jobj [("id", JString (rc_id model)); ("recordId", JString (rc_record_id model));
        ("materialId", JString (rc_material_id model)); ("status", JString (rc_status model));
        ("actor", JString (rc_actor model)); ("reason", JString (rc_reason model));
        ("manifest", unwrap_or (json_parse (rc_manifest_json model)) JNull);
        ("filesPlanned", jint (rc_files_planned model)); ("filesDeleted", jint (rc_files_deleted model));
        ("filesMissing", jint (rc_files_missing model)); ("bytesPlanned", jint (rc_bytes_planned model));
        ("bytesDeleted", jint (rc_bytes_deleted model)); ("error", JString (rc_error model));
        ("createdAt", JString (rc_created_at model)); ("updatedAt", JString (rc_updated_at model));
        ("completedAt", JString (rc_completed_at model))].

Definition error_response (status : string) (code : Z) (error : string) : string :=
  json_response status (jobj [("code", jint code); ("error", JString error)]).
Definition bad_request (error : string) : string := error_response "400 Bad Request" 400 error.
Definition server_error (error : string) : string := error_response "500 Internal Server Error" 500 error.

(** main.rs [read_record_cleanup_response]; [None] is a panic of the query decoder. *)
Definition read_record_cleanup_response (query : string) : Cleanup (option string) :=
  match query_value query "id" with
  | None => Ret None
  | Some id =>
      match filter_opt (fun value => negb (is_blank value)) id with
      | None => Ret (Some (bad_request "cleanup id required"))
      | Some id =>
          let~ found := find_record_cleanup id in
          Ret (Some (match found with
                     | Ok (Some model) => json_response "200 OK" (jobj [("code", jint 0); ("cleanup", record_cleanup_json model)])
                     | Ok None => error_response "404 Not Found" 404 "cleanup not found"
                     | Err error => server_error error
                     end))
      end
  end.

(** main.rs [retry_record_cleanup_response]. *)
Definition retry_record_cleanup_response (body actor : string) : Cleanup string :=
  let payload := unwrap_or (json_parse body) JNull in
  let id := match or_else (jget "cleanupId" payload) (jget "id" payload) with Some v => as_str v | None => None end in
  match filter_opt (fun value => negb (is_blank value)) id with
  | None => Ret (bad_request "cleanup id required")
  | Some id =>
      let~ found := find_record_cleanup id in
      match found with
      | Ok None => Ret (error_response "404 Not Found" 404 "cleanup not found")
      | Err error => Ret (server_error error)
      | Ok (Some cleanup) =>
          if rc_status cleanup == "completed"
          then Ret (json_response "200 OK"
                      (jobj [("code", jint 0); ("cleanup", record_cleanup_json cleanup); ("replayed", JBool true)]))
          else
            let~ result := execute_persisted_cleanup cleanup in
            match result with
            | Ok result =>
                let~ _ := append_audit actor "record.cleanup.retry.completed" (cx_record_id result)
                            ("cleanup " +:+ cx_cleanup_id result +:+ " completed on retry") "warning" in
                Ret (json_response "200 OK"
                       (jobj [("code", jint 0); ("cleanupId", JString (cx_cleanup_id result));
                              ("recordId", JString (cx_record_id result)); ("filesDeleted", jint (cx_files_deleted result));
                              ("filesMissing", jint (cx_files_missing result)); ("bytesDeleted", jint (cx_bytes_deleted result))]))
            | Err error => Ret (record_cleanup_failure_response error (Some (rc_id cleanup)))
            end
      end
  end.

(** main.rs [delete_admin_record_response]. *)
Definition delete_detail (x : CleanupExecution) : string :=
  "完成清理 " +:+ cx_cleanup_id x +:+ "：生产检测记录 " +:+ cx_record_id x +:+ "，材料 " +:+ cx_material_id x
  +:+ "，物理文件 " +:+ dec (cx_files_deleted x) +:+ "/" +:+ dec (cx_files_planned x) +:+ "，缺失 " +:+ dec (cx_files_missing x)
  +:+ "，删除字节 " +:+ dec (cx_bytes_deleted x) +:+ "，缺陷 " +:+ dec (cx_defects_deleted x) +:+ " 条、采集文件索引 "
  +:+ dec (cx_capture_files_deleted x) +:+ " 条；流程会话保留".

Definition delete_admin_record_response (query actor : string) : Cleanup (option string) :=
  match query_value query "id" with
  | None => Ret None
  | Some None => Ret (Some (bad_request "record id required"))
  | Some (Some value) =>
      let id := trim value in
      if is_empty id then Ret (Some (bad_request "record id required"))
      else
        let~ result := execute_record_artifact_cleanup id actor "manual-record-delete" in
        match result with
        | Ok x =>
            let~ _ := append_audit actor "record.cleanup.completed" (cx_record_id x) (delete_detail x) "warning" in
            Ret (Some (json_response "200 OK"
              (jobj [("code", jint 0); ("deleted", JBool true); ("cleanupId", JString (cx_cleanup_id x));
                     ("recordId", JString (cx_record_id x)); ("plateNo", JString (cx_material_id x));
                     ("materialId", JString (cx_material_id x)); ("filesPlanned", jint (cx_files_planned x));
                     ("filesDeleted", jint (cx_files_deleted x)); ("filesMissing", jint (cx_files_missing x));
                     ("bytesPlanned", jint (cx_bytes_planned x)); ("bytesDeleted", jint (cx_bytes_deleted x));
                     ("defectsDeleted", jint (cx_defects_deleted x));
                     ("captureFilesDeleted", jint (cx_capture_files_deleted x)); ("plateDeleted", JBool false)])))
        | Err (error, cleanup_id) => Ret (Some (record_cleanup_failure_response error cleanup_id))
        end
  end.

(** *** Retention *)

Definition ADMIN_RECORD_RETENTION_MIN_DAYS : Z := 1.
Definition ADMIN_RECORD_RETENTION_MAX_DAYS : Z := 3650.

(** db/mod.rs [inspection_record_retention_cutoff]. *)
Definition inspection_record_retention_cutoff (retention_days : Z) : Cleanup string :=
  let~ now := clock in
  Ret (dec (sat_sub (unwrap_or (parse_unsigned u128_max now) 0) (sat_mul u128_max retention_days (24 * 60 * 60 * 1000)))).

(** The loop of db/mod.rs [inspection_records_before]. *)
Fixpoint retention_candidates (cutoff : Z) (rows : list ProductionInspection) : Cleanup (Result (list string) string) :=
  match rows with
  | [] => Ret (Ok [])
  | row :: rest =>
      let finished_at := unwrap_or (parse_unsigned u128_max (pi_finished_at row)) u128_max in
      if is_empty (pi_finished_at row) || (finished_at >=? cutoff) then retention_candidates cutoff rest
      else
        let~? found := select (fun s => List.find (fun m => m_id m == pi_session_id row) (session_rows s)) in
        let~? ids := retention_candidates cutoff rest in
        Ret (Ok (if is_none_or found (fun m => m_status m == "finished") then pi_id row :: ids else ids))
  end.

(** db/mod.rs [inspection_record_ids_before]. *)
Definition inspection_record_ids_before (retention_days : Z) : Cleanup (Result (list string) string) :=
  let~ cutoff := inspection_record_retention_cutoff retention_days in
  let~? rows := select (fun s =>
    List.filter (fun i => one_of (pi_status i) ["algorithm-complete"; "completed"; "finished"]) (production_inspection s)) in
  retention_candidates (unwrap_or (parse_unsigned u128_max cutoff) 0) rows.

(** What [apply_record_retention_response] adds up. *)
Record Retention := mkRetention {
  rt_deleted_records : Z;
  rt_deleted_defects : Z;
  rt_deleted_capture_files : Z;
  rt_files_planned : Z;
  rt_files_deleted : Z;
  rt_files_missing : Z;
  rt_bytes_planned : Z;
  rt_bytes_deleted : Z;
  rt_cleanup_ids : list string;
  rt_failures : list Value;
}.
Definition no_retention : Retention := mkRetention 0 0 0 0 0 0 0 0 [] [].

Definition sat_i64 (x : Z) : Z := clamp x i64_min i64_max.

Definition retention_failure (fields : list (string * Value)) (r : Retention) : Retention :=
  mkRetention (rt_deleted_records r) (rt_deleted_defects r) (rt_deleted_capture_files r) (rt_files_planned r)
    (rt_files_deleted r) (rt_files_missing r) (rt_bytes_planned r) (rt_bytes_deleted r) (rt_cleanup_ids r)
    (rt_failures r ++ [jobj fields]).
Definition retention_planned (count bytes : Z) (r : Retention) : Retention :=
  mkRetention (rt_deleted_records r) (rt_deleted_defects r) (rt_deleted_capture_files r) (rt_files_planned r + count)
    (rt_files_deleted r) (rt_files_missing r) (sat_i64 (rt_bytes_planned r + bytes)) (rt_bytes_deleted r)
    (rt_cleanup_ids r) (rt_failures r).
Definition retention_deleted (x : CleanupExecution) (r : Retention) : Retention :=
  mkRetention (rt_deleted_records r + 1) (rt_deleted_defects r + cx_defects_deleted x)
    (rt_deleted_capture_files r + cx_capture_files_deleted x) (rt_files_planned r + cx_files_planned x)
    (rt_files_deleted r + cx_files_deleted x) (rt_files_missing r + cx_files_missing x)
    (sat_i64 (rt_bytes_planned r + cx_bytes_planned x)) (sat_i64 (rt_bytes_deleted r + cx_bytes_deleted x))
    (rt_cleanup_ids r ++ [cx_cleanup_id x]) (rt_failures r).

(** The loop of a dry run. *)
Fixpoint preview_retention (roots_text : string) (ids : list string) (r : Retention) : Cleanup Retention :=
  match ids with
  | [] => Ret r
  | id :: rest =>
      let failed error := retention_failure [("recordId", JString id); ("error", JString error)] r in
      let~ detail := find_inspection_record_detail id in
      match detail with
      | Ok None => preview_retention roots_text rest r
      | Err error => preview_retention roots_text rest (failed error)
      | Ok (Some detail) =>
          let~ manifest := build_manifest detail roots_text in
          match manifest with
          | Err error => preview_retention roots_text rest (failed error)
          | Ok manifest =>
              match record_cache_root world_cache_root id with
              | Err error => preview_retention roots_text rest (failed error)
              | Ok root =>
                  let~ appended := append_cache_tree manifest root roots_text in
                  match appended with
                  | Err error => preview_retention roots_text rest (failed error)
                  | Ok manifest =>
                      let '(count, bytes) := manifest_plan_counts manifest in
                      preview_retention roots_text rest (retention_planned count bytes r)
                  end
              end
          end
      end
  end.

(** The loop of a purge. *)
Fixpoint purge_retention (actor : string) (ids : list string) (r : Retention) : Cleanup Retention :=
  match ids with
  | [] => Ret r
  | id :: rest =>
      let~ result := execute_record_artifact_cleanup id actor "record-retention" in
      match result with
      | Ok x => purge_retention actor rest (retention_deleted x r)
      | Err (error, cleanup_id) =>
          purge_retention actor rest
            (retention_failure [("recordId", JString id); ("cleanupId", from_option JString JNull cleanup_id);
                                ("error", JString error)] r)
      end
  end.

(** main.rs [record_retention_detail]. *)
Definition record_retention_detail (retention_days : Z) (cutoff_at : string) (matched : Z) (r : Retention) (dry_run : bool) : string :=
  let failures := dec (Z.of_nat (length (rt_failures r))) in
  if dry_run then
    "预览检测记录保留策略：保留 " +:+ dec retention_days +:+ " 天，截止 " +:+ cutoff_at +:+ "，可清理 " +:+ dec matched
    +:+ " 条记录，计划物理文件 " +:+ dec (rt_files_planned r) +:+ " 个，规划失败 " +:+ failures +:+ " 条"
  else
    "执行检测记录保留策略：保留 " +:+ dec retention_days +:+ " 天，截止 " +:+ cutoff_at +:+ "，清理生产记录 "
    +:+ dec (rt_deleted_records r) +:+ " / " +:+ dec matched +:+ " 条，物理文件 " +:+ dec (rt_files_deleted r) +:+ " / "
    +:+ dec (rt_files_planned r) +:+ " 个，缺失 " +:+ dec (rt_files_missing r) +:+ " 个，删除字节 " +:+ dec (rt_bytes_deleted r)
    +:+ "，失败 " +:+ failures +:+ " 条，缺陷 " +:+ dec (rt_deleted_defects r) +:+ " 条，采集文件索引 "
    +:+ dec (rt_deleted_capture_files r) +:+ " 条；生产会话保留".

Definition retention_response (retention_days : Z) (cutoff_at : string) (matched : Z) (r : Retention) (dry_run : bool) : string :=
  let clean := match rt_failures r with [] => true | _ => false end in
  json_response (if clean then "200 OK" else "207 Multi-Status")
    (jobj [("code", jint (if clean then 0 else 207)); ("retentionDays", jint retention_days); ("cutoffAt", JString cutoff_at);
           ("matched", jint matched); ("deletedRecords", jint (rt_deleted_records r));
           ("deletedDefects", jint (rt_deleted_defects r)); ("deletedCaptureFiles", jint (rt_deleted_capture_files r));
           ("deletedPlates", jint 0); ("filesPlanned", jint (rt_files_planned r)); ("filesDeleted", jint (rt_files_deleted r));
           ("filesMissing", jint (rt_files_missing r)); ("bytesPlanned", jint (rt_bytes_planned r));
           ("bytesDeleted", jint (rt_bytes_deleted r)); ("cleanupIds", JArray (map JString (rt_cleanup_ids r)));
           ("failures", JArray (rt_failures r)); ("dryRun", JBool dry_run)]).

(** main.rs [apply_record_retention_response]. *)
Definition apply_record_retention_response (body actor : string) : Cleanup string :=
  match json_parse (trim body) with
  | None => Ret (bad_request "invalid record retention json")
  | Some payload =>
      match (match or_else (jget "retentionDays" payload) (jget "retention_days" payload) with
             | Some v => as_u64 v | None => None end) with
      | None => Ret (bad_request "record retention days required")
      | Some retention_days =>
          if negb ((ADMIN_RECORD_RETENTION_MIN_DAYS <=? retention_days) && (retention_days <=? ADMIN_RECORD_RETENTION_MAX_DAYS))
          then Ret (bad_request "invalid record retention days")
          else
            let dry_run := unwrap_or (match or_else (jget "dryRun" payload) (jget "dry_run" payload) with
                                      | Some v => as_bool v | None => None end) true in
            let~ cutoff_at := inspection_record_retention_cutoff retention_days in
            let~ ids := inspection_record_ids_before retention_days in
            match ids with
            | Err error => Ret (server_error error)
            | Ok ids =>
                let~ counted :=
                  if dry_run then
                    let~ roots_text := configured_roots_for_planning in
                    match roots_text with
                    | Err error => Ret (Err (record_cleanup_failure_response error None))
                    | Ok roots_text => let~ r := preview_retention roots_text ids no_retention in Ret (Ok r)
                    end
                  else let~ r := purge_retention actor ids no_retention in Ret (Ok r) in
                match counted with
                | Err response => Ret response
                | Ok r =>
                    let matched := Z.of_nat (length ids) in
                    let~ _ := append_audit actor (if dry_run then "record.retention.preview" else "record.retention.purge")
                                "production_inspection" (record_retention_detail retention_days cutoff_at matched r dry_run)
                                (if dry_run then "info" else "warning") in
                    Ret (retention_response retention_days cutoff_at matched r dry_run)
                end
            end
      end
  end.

(** ** The requests *)

Inductive CleanupRequest :=
| ReadCleanup (query : string)
| RetryCleanup (body actor : string)
| DeleteRecord (query actor : string)
| ApplyRetention (body actor : string).

(** Each runs on a thread of its own. A thread whose query panics the decoder ends there: the answer is [None]. *)
Definition cleanup_program (r : CleanupRequest) : Cleanup (option string) :=
  match r with
  | ReadCleanup query => read_record_cleanup_response query
  | RetryCleanup body actor => let~ response := retry_record_cleanup_response body actor in Ret (Some response)
  | DeleteRecord query actor => delete_admin_record_response query actor
  | ApplyRetention body actor => let~ response := apply_record_retention_response body actor in Ret (Some response)
  end.

End Program.
