(* ===== verification/CleanupFacts.v ===== *)
(** * What deleting records guarantees

    Whatever requests run at the same time and whatever fails: nothing is deleted but files that a
    finished record without open work refers to, inside the allowed directories and outside the
    maintenance ones, and the cache directories of such records; and a record is forgotten only when
    nothing it refers to is left on the disk, unless the question whether a file exists itself failed or
    a name has a backslash in it. *)

From S2P Require Import Prelude Json Http Db Concurrent RelyGuarantee FileTree Cleanup.
From Stdlib Require Import Ascii.

Section Guarantees.
Context `{CleanupEnv} `{JsonCodec} `{!CleanupEnvLaws _}.

(** The state the requests start from. *)
Variable s0 : CleanupState.
Hypothesis tree0 : tree_ok (files s0).
Hypothesis inspections0 : NoDup (map pi_id (production_inspection s0)).
Hypothesis fuel0 : (0 < depth_fuel)%nat.
Hypothesis depth0 : forall p, is_Some (files s0 !! p) -> (length p < depth_fuel)%nat.

(** ** What may be deleted *)

(** Where a path led at the start. *)
Definition leads (text : string) (p : Path) : Prop := fs_canonicalize cwd (files s0) text = Some p.

(** Below one of the configured directories. *)
Definition allowed (p : Path) : Prop :=
  exists text root, text ∈ split_byte (ascii_of_nat 58) allowed_roots_text /\ leads text root /\ path_starts_with p root = true.

(** No name on the path is one of the maintenance directories. *)
Definition production_path (p : Path) : Prop := existsb forbidden_name p = false.

(** The files a record names itself. *)
Inductive artifact_of (r : string) : string -> Prop :=
| ArtCapture f : f ∈ capture_file s0 -> cf_inspection_id f = r -> artifact_of r (cf_path f)
| ArtMetadata f : f ∈ capture_file s0 -> cf_inspection_id f = r -> artifact_of r (cf_metadata_path f)
| ArtSummary row : row ∈ production_inspection s0 -> pi_id row = r -> artifact_of r (trim (pi_summary_path row)).

(** These, what its summary mentions, and what is in its cache. *)
Inductive reference_of (r : string) : string -> Prop :=
| RefArtifact raw : artifact_of r raw -> reference_of r raw
| RefSummary row p content v path : row ∈ production_inspection s0 -> pi_id row = r ->
    leads (trim (pi_summary_path row)) p -> node_at (files s0) p = Some (NFile content) -> json_parse content = Some v ->
    path ∈ collect_summary_paths v -> reference_of r path
| RefCache root d p : record_cache_root world_cache_root r = Ok root -> leads root d -> path_starts_with p d = true ->
    is_Some (files s0 !! p) -> reference_of r (display p).

(** A record whose session is finished and has no open task. *)
Definition unresolved (session_id : string) (t : Task) : bool :=
  (t_session_id t == session_id) && one_of (t_status t) ["queued"; "running"; "failed"; "interrupted"; "blocked"].
Definition eligible (r : string) : Prop :=
  exists row m, row ∈ production_inspection s0 /\ pi_id row = r /\ m ∈ session_rows s0 /\ m_id m = pi_session_id row /\
    m_status m = "finished" /\ count_where (unresolved (pi_session_id row)) (task_rows s0) = 0.

Definition expendable_file (p : Path) : Prop :=
  exists r raw, eligible r /\ reference_of r raw /\ leads raw p /\ allowed p /\ production_path p.
Definition expendable_dir (p : Path) : Prop :=
  exists r root d, eligible r /\ record_cache_root world_cache_root r = Ok root /\ leads root d /\
    path_starts_with p d = true /\ allowed p /\ production_path p.
Definition expendable (p : Path) : Prop :=
  match files s0 !! p with
  | Some (NFile _) => expendable_file p
  | Some NDir => expendable_dir p
  | _ => False
  end.

(** ** Facts that last *)

Definition no_stat_failed (s : CleanupState) : Prop := stat_failures s = stat_failures s0.
(** A path that leads nowhere, unless a question failed. *)
Definition gone (text : string) (s : CleanupState) : Prop := no_stat_failed s -> fs_canonicalize cwd (files s) text = None.
Definition forgotten (r : string) (s : CleanupState) : Prop := forall row, row ∈ production_inspection s -> pi_id row <> r.
(** The rows with the id of a plan are plans of one record. *)
Definition owned (id r : string) (s : CleanupState) : Prop :=
  (exists row, row ∈ record_cleanup s /\ rc_id row = id) /\
  forall row, row ∈ record_cleanup s -> rc_id row = id -> rc_record_id row = r.

(** ** Plans *)

(** No backslash: keys of paths are then as different as the paths. *)
Definition plain (text : string) : Prop := all_bytes (fun a => negb (bool_decide (a = ascii_of_nat 92))) text = true.
Definition plain_names : Prop :=
  (forall r raw, reference_of r raw -> plain raw) /\ (forall p, is_Some (files s0 !! p) -> Forall plain p).

(** A hash in the plan is that of a file the record refers to, under its canonical path. *)
Record entry_ok (r : string) (e : CleanupEntry) : Prop := {
  eo_size : 0 <= ce_size_bytes e <= u64_max;
  eo_hash : ce_sha256 e <> "" ->
    exists raw p, ce_path e = display p /\ reference_of r raw /\ leads raw p;
  eo_path : reference_of r (ce_path e) \/ exists p, ce_path e = display p /\ is_real (files s0) p;
}.

Definition dir_ok (r text : string) : Prop :=
  exists root d p, record_cache_root world_cache_root r = Ok root /\ leads root d /\ path_starts_with p d = true /\
    text = display p /\ is_real (files s0) p.

Definition is_settled (e : CleanupEntry) : bool := one_of (ce_status e) ["deleted"; "missing"].

Definition accounts_for (entries : list CleanupEntry) (raw : string) : Prop :=
  is_blank raw = false -> contains "://" raw = false ->
  exists e, e ∈ entries /\ (ce_path e = raw \/ exists p, leads raw p /\ ce_path e = display p).

Definition entries_ok (r : string) (entries : list CleanupEntry) (s : CleanupState) : Prop :=
  Forall (entry_ok r) entries /\ (forall e, e ∈ entries -> is_settled e = true -> gone (ce_path e) s).

Definition complete_for (r : string) (entries : list CleanupEntry) (s : CleanupState) : Prop :=
  plain_names -> forgotten r s \/ forall raw, artifact_of r raw -> accounts_for entries raw.

Definition draft_ok (r : string) (m : CleanupManifest) (s : CleanupState) : Prop :=
  Forall (dir_ok r) (cm_directories m) /\ entries_ok r (cm_entries m) s /\ complete_for r (cm_entries m) s.

Definition plan_ok (r : string) (m : CleanupManifest) (s : CleanupState) : Prop := eligible r /\ draft_ok r m s.

Definition stored (row : RecordCleanup) (s : CleanupState) : Prop :=
  exists m, manifest_read (rc_manifest_json row) = Some m /\ plan_ok (rc_record_id row) m s.

(** ** The invariant and the guarantee *)

Definition artifacts_gone (r : string) (s : CleanupState) : Prop :=
  plain_names -> no_stat_failed s -> forall raw, artifact_of r raw -> is_blank raw = false -> contains "://" raw = false ->
  fs_canonicalize cwd (files s) raw = None.

Record Inv (s : CleanupState) : Prop := {
  inv_tree : tree_ok (files s);
  inv_files : files s ⊆ files s0;
  inv_removed : forall p, is_Some (files s0 !! p) -> files s !! p = None -> expendable p;
  inv_sessions : session_rows s = session_rows s0;
  inv_tasks : task_rows s = task_rows s0;
  inv_inspections : forall row, row ∈ production_inspection s -> row ∈ production_inspection s0;
  inv_captures : forall f, f ∈ capture_file s -> f ∈ capture_file s0;
  inv_captured : forall f, f ∈ capture_file s0 -> f ∈ capture_file s \/ forgotten (cf_inspection_id f) s;
  inv_stats : stat_failures s0 <= stat_failures s;
  inv_ids : NoDup (map rc_id (record_cleanup s));
  inv_plans : forall row, row ∈ record_cleanup s -> rc_status row = "completed" \/ stored row s;
  inv_forgotten : forall row, row ∈ production_inspection s0 -> forgotten (pi_id row) s -> artifacts_gone (pi_id row) s;
}.

Record Guar (s s' : CleanupState) : Prop := {
  g_files : files s' ⊆ files s;
  g_stats : stat_failures s <= stat_failures s';
  g_inspections : forall row, row ∈ production_inspection s' -> row ∈ production_inspection s;
  g_owned : forall id r, owned id r s -> owned id r s';
}.

#[local] Instance guar_preorder : PreOrder Guar.
Proof.
  split.
  - intros s. by split.
  - intros s1 s2 s3 [] []. split; [by etrans|lia|auto..].
Qed.

Abbreviation Stable := (stable Inv Guar).
Abbreviation Ensures := (ensures Inv Guar).

(** Knowledge moves along. *)
Lemma gone_mono text s s' : stat_failures s0 <= stat_failures s -> Guar s s' -> gone text s -> gone text s'.
Proof.
  intros Hs HG Hg Hn. unfold no_stat_failed in *. pose proof (g_stats _ _ HG).
  eapply canonicalize_gone; [apply (g_files _ _ HG)|]. apply Hg. unfold no_stat_failed. lia.
Qed.

Lemma forgotten_mono r s s' : Guar s s' -> forgotten r s -> forgotten r s'.
Proof. intros HG Hf row Hr. by apply Hf, (g_inspections _ _ HG). Qed.

Lemma plan_mono r m s s' : stat_failures s0 <= stat_failures s -> Guar s s' -> plan_ok r m s -> plan_ok r m s'.
Proof.
  intros Hs HG (He & Hd & [Hf Hg] & Hc). split; [done|]. split; [done|]. split; [split; [done|]|].
  - intros e Hin Hst. eapply gone_mono; [done..|]. by apply Hg.
  - intros Hp. destruct (Hc Hp) as [Hr|]; [left|by right]. by eapply forgotten_mono.
Qed.

Lemma stored_mono row s s' : stat_failures s0 <= stat_failures s -> Guar s s' -> stored row s -> stored row s'.
Proof. intros Hs HG (m & Hm & Hp). exists m. split; [done|]. by eapply plan_mono. Qed.

Lemma artifacts_gone_mono r s s' : stat_failures s0 <= stat_failures s -> Guar s s' -> artifacts_gone r s -> artifacts_gone r s'.
Proof.
  intros Hs HG Ha Hp Hn raw H1 H2 H3. eapply canonicalize_gone; [apply (g_files _ _ HG)|]. apply Ha; try done.
  unfold no_stat_failed in *. pose proof (g_stats _ _ HG). lia.
Qed.

Lemma stable_gone text : Stable (gone text).
Proof. intros s s' Hs _ HG. apply gone_mono; [apply (inv_stats s Hs)|done]. Qed.

Lemma stable_forgotten r : Stable (forgotten r).
Proof. intros s s' _ _. apply forgotten_mono. Qed.

Lemma stable_owned id r : Stable (owned id r).
Proof. intros s s' _ _ HG. apply (g_owned _ _ HG). Qed.

Lemma stable_plan r m : Stable (plan_ok r m).
Proof. intros s s' Hs _. apply plan_mono, (inv_stats s Hs). Qed.

Lemma stable_stored row : Stable (stored row).
Proof. intros s s' Hs _. apply stored_mono, (inv_stats s Hs). Qed.

Lemma stable_entries r entries : Stable (entries_ok r entries).
Proof.
  apply stable_and; [apply stable_pure|]. intros s s' Hs Hs' HG Hg e He Hd. apply (stable_gone _ s s' Hs Hs' HG). by apply Hg.
Qed.

(** ** Answers that may be errors *)

Definition on_ok {A E} (Q : A -> CleanupState -> Prop) (r : Result A E) (s : CleanupState) : Prop :=
  match r with Ok a => Q a s | Err _ => True end.

Lemma stable_on_ok {A E} (Q : A -> CleanupState -> Prop) (r : Result A E) : (forall a, Stable (Q a)) -> Stable (on_ok Q r).
Proof. intros HQ. destruct r; [apply HQ|apply stable_pure]. Qed.

Lemma ens_err {A E} l (e : E) (Q : A -> CleanupState -> Prop) : Ensures l (Ret (Err e)) (on_ok Q).
Proof. by apply ensures_ret. Qed.

Lemma ens_ok {A E} l (a : A) (Q : A -> CleanupState -> Prop) : (forall s, l s -> Q a s) -> Ensures l (Ret (@Ok A E a)) (on_ok Q).
Proof. intros HQ. by apply ensures_ret. Qed.

Lemma ens_try {A B E} l (m : Cleanup (Result A E)) (f : A -> Cleanup (Result B E)) Q Q' :
  Ensures l m (on_ok Q) ->
  (forall a l', (forall s, l' s -> l s) -> (forall s, l' s -> Q a s) -> Ensures l' (f a) (on_ok Q')) ->
  Ensures l (try_bind m f) (on_ok Q').
Proof.
  intros Hm Hf. eapply ensures_bind; [exact Hm|]. intros [a|e] l' Hl HQ; [by apply Hf|apply ens_err].
Qed.

Lemma ens_map_error {A E F} l (g : E -> F) (m : Cleanup (Result A E)) Q :
  Ensures l m (on_ok Q) -> Ensures l (map_error g m) (on_ok Q).
Proof.
  intros Hm. eapply ensures_bind; [exact Hm|]. intros [a|e] l' Hl HQ; apply ensures_ret; [exact HQ|done].
Qed.

(** ** Operations *)

(** A step that leaves files and tables alone. *)
Lemma inv_frame s s' : Inv s -> Guar s s' -> files s' = files s -> record_cleanup s' = record_cleanup s ->
  production_inspection s' = production_inspection s -> capture_file s' = capture_file s ->
  session_rows s' = session_rows s -> task_rows s' = task_rows s -> Inv s'.
Proof.
  intros Hs HG Ef Er Ei Ec Es Et. pose proof (inv_stats s Hs) as Hst. pose proof (g_stats _ _ HG).
  destruct Hs. split; rewrite ?Ef, ?Er, ?Ei, ?Ec, ?Es, ?Et; try done; [|lia|..].
  - intros f Hf. destruct (inv_captured0 f Hf) as [|]; [by left|right]. by eapply forgotten_mono.
  - intros row Hr. destruct (inv_plans0 row Hr) as [|]; [by left|right]. by eapply stored_mono.
  - intros row Hr Hf. eapply artifacts_gone_mono; [done..|]. apply inv_forgotten0; [done|].
    intros row' Hr'. apply Hf. by rewrite Ei.
Qed.

Lemma guar_frame s s' : files s' = files s -> stat_failures s <= stat_failures s' -> record_cleanup s' = record_cleanup s ->
  production_inspection s' = production_inspection s -> Guar s s'.
Proof. intros Ef Hst Er Ei. split; [by rewrite Ef|done|by rewrite Ei|]. intros id r. unfold owned. by rewrite Er. Qed.

Lemma ens_ask {A} l (answer : nat -> A) : Ensures l (ask answer) (fun _ _ => True).
Proof.
  apply ensures_atomically; [intros a; apply stable_pure|]. intros s Hs _.
  assert (HG : Guar s (with_tick s)) by by apply guar_frame. split; [by apply (inv_frame s)|done].
Qed.

Lemma ens_fail l n : 0 <= n ->
  Ensures l (updating (with_failure n)) (fun _ s => 0 < n -> ~ no_stat_failed s).
Proof.
  intros Hn. apply ensures_atomically.
  - intros _ s s' Hs Hs' HG Hf Hpos Hstat. unfold no_stat_failed in *. apply Hf; [done|]. pose proof (inv_stats s Hs).
    pose proof (g_stats _ _ HG). lia.
  - intros s Hs _. cbn [fst snd]. assert (HG : Guar s (with_failure n s)) by (apply guar_frame; simpl; [done|lia|done..]).
    split; [by apply (inv_frame s)|]. split; [done|]. intros Hpos. unfold no_stat_failed. simpl. pose proof (inv_stats s Hs). lia.
Qed.

Lemma ens_attempt l n : 0 <= n ->
  Ensures l (attempt n) (fun r s => 0 < n -> r <> None -> ~ no_stat_failed s).
Proof.
  intros Hn. eapply ensures_bind; [apply ens_ask|]. intros [message|] l' Hl _.
  - eapply ensures_bind; [by apply ens_fail|]. intros u l'' Hl' HQ. apply ensures_ret. intros s Hs Hpos _. by apply HQ.
  - by apply ensures_ret.
Qed.

(** A question to the files, answered from a part of the first tree. *)
Lemma ens_fs_read {A} (l : CleanupState -> Prop) (f : Tree -> option A) (P : A -> Prop) :
  (forall t a, t ⊆ files s0 -> tree_ok t -> f t = Some a -> P a) -> Ensures l (fs_read f) (on_ok (fun a _ => P a)).
Proof.
  intros HP. eapply ensures_bind; [by apply ens_attempt|]. intros [message|] l1 _ _; [apply ens_err|].
  eapply ensures_bind; [apply (ensures_reading _ _ _ _ (fun a _ => forall x, a = Some x -> P x))|].
  - intros a. apply stable_pure.
  - intros s Hs _ x E. eapply HP; [apply (inv_files s Hs)|apply (inv_tree s Hs)|exact E].
  - intros [a|] l2 _ Ha; [apply ens_ok; intros s Hs; by apply (Ha s)|].
    eapply ensures_bind; [apply ens_ask|]. intros message l3 _ _. apply ens_err.
Qed.

Lemma stat_leads t text node : t ⊆ files s0 -> stat cwd t text = Some node ->
  exists p, leads text p /\ node_at (files s0) p = Some node.
Proof.
  intros Hsub. unfold stat. destruct (fs_canonicalize cwd t text) as [p|] eqn:E; [|done]. intros Hn. exists p.
  split; [by eapply canonicalize_mono|]. destruct p; [done|]. by eapply lookup_weaken.
Qed.

(** The metadata of a path, or the knowledge that it leads nowhere. *)
Lemma ens_metadata l text :
  Ensures l (metadata_of text) (fun r s => match r with
                                           | Some node => exists p, leads text p /\ node_at (files s0) p = Some node
                                           | None => gone text s
                                           end).
Proof.
  eapply ensures_bind; [by apply (ens_attempt _ 1)|]. intros [message|] l1 _ Hf.
  - apply ensures_ret. intros s Hs Hn. by destruct (Hf s Hs ltac:(lia) ltac:(done)).
  - apply ensures_reading; [apply _|intros [node|]; [apply stable_pure|apply stable_gone]|].
    intros s Hs _. destruct (stat cwd (files s) text) as [node|] eqn:E; [by eapply stat_leads; [apply (inv_files s Hs)|]|].
    intros _. unfold stat in E. destruct (fs_canonicalize cwd (files s) text) as [p|] eqn:Ep; [|done].
    pose proof (canonicalize_real _ _ _ _ (inv_tree s Hs) Ep) as Hr. destruct p as [|a p]; [done|].
    apply real_node in Hr as (node & Hn & _); [|done]. simpl in E. congruence.
Qed.

Lemma ens_exists l text : Ensures l (path_exists text) (fun r s => r = false -> gone text s).
Proof.
  eapply ensures_bind; [apply ens_metadata|]. intros r l' _ HQ. apply ensures_ret. intros s Hs. destruct r; [done|].
  intros _. by apply HQ.
Qed.

Lemma ens_is_dir l p : Ensures l (path_is_dir p)
  (fun r _ => r = true -> exists q, leads (display p) q /\ node_at (files s0) q = Some NDir).
Proof.
  eapply ensures_bind; [apply ens_metadata|]. intros r l' _ HQ. apply ensures_ret. intros s Hs Hr.
  destruct r as [[| |]|]; try done. by apply (HQ s).
Qed.

Lemma ens_is_file l p : Ensures l (path_is_file p)
  (fun r _ => r = true -> exists q content, leads (display p) q /\ node_at (files s0) q = Some (NFile content)).
Proof.
  eapply ensures_bind; [apply ens_metadata|]. intros r l' _ HQ. apply ensures_ret. intros s Hs Hr.
  destruct r as [[content| |]|]; try done. destruct (HQ s Hs) as (q & H1 & H2). eauto.
Qed.

(** A statement of the database. *)
Lemma ens_statement {A} l (f : CleanupState -> Result (A * CleanupState) string) Q :
  (forall a, Stable (Q a)) ->
  (forall s a s', Inv s -> l s -> f s = Ok (a, s') -> Inv s' /\ Guar s s' /\ Q a s') ->
  Ensures l (statement f) (on_ok Q).
Proof.
  intros HQ Hf. eapply ensures_bind; [apply ens_ask|].
  intros [|message|message] l1 Hl _.
  - apply ensures_atomically; [intros a; by apply stable_on_ok|]. intros s Hs Hls.
    destruct (f s) as [[a s']|e] eqn:E; simpl; [by eapply Hf; [| |exact E]; auto|]. by split_and!.
  - eapply ensures_bind; [by apply ens_fail|]. intros u l2 _ _. apply ens_err.
  - eapply ensures_bind; [apply (ensures_atomically _ _ _ _ (fun _ _ => True)); [intros _; apply stable_pure|]|].
    2: { intros u l2 _ _. apply ens_err. }
    intros s Hs Hls. simpl. destruct (f s) as [[a s']|e] eqn:E.
    + destruct (Hf s a s' Hs (Hl s Hls) E) as (Hi & HG & _).
      assert (HF : Guar s' (with_failure 0 s')) by (apply guar_frame; simpl; [done|lia|done..]).
      split; [by apply (inv_frame s')|]. split; [by etrans|done].
    + assert (HF : Guar s (with_failure 0 s)) by (apply guar_frame; simpl; [done|lia|done..]).
      split; [by apply (inv_frame s)|]. by split.
Qed.

Lemma ens_select {A} l (f : CleanupState -> A) Q :
  (forall a, Stable (Q a)) -> (forall s, Inv s -> l s -> Q (f s) s) -> Ensures l (select f) (on_ok Q).
Proof. intros HQ Hf. apply ens_statement; [done|]. intros s a s' Hs Hl [= <- <-]. split_and!; [done..|by apply Hf]. Qed.

Lemma ens_clock l : Ensures l clock (fun _ _ => True).
Proof.
  eapply ensures_bind; [apply ens_ask|]. intros now l1 _ _. by apply ensures_ret.
Qed.

(** ** Paths *)

Lemma leads_real text p : leads text p -> is_real (files s0) p.
Proof. by apply canonicalize_real. Qed.

Lemma leads_display p q : is_real (files s0) p -> leads (display p) q -> q = p.
Proof. intros Hr Hq. unfold leads in Hq. rewrite canonicalize_display in Hq by done. by injection Hq. Qed.

Lemma forbidden_display p : is_real (files s0) p -> is_forbidden_maintenance_path (display p) = false -> production_path p.
Proof.
  intros Hr. unfold is_forbidden_maintenance_path. rewrite normal_components_display; [done|]. by eapply real_names.
Qed.

(** Configured directories. *)
Definition root_ok (root : Path) : Prop := exists text, text ∈ split_byte (ascii_of_nat 58) allowed_roots_text /\ leads text root.

Lemma within_allowed roots p : Forall root_ok roots -> within roots p = true -> allowed p.
Proof.
  intros Hr. unfold within. rewrite existsb_exists. intros (root & Hin & Hp). apply list_elem_of_In in Hin.
  rewrite Forall_forall in Hr. destruct (Hr root Hin) as (text & H1 & H2). by exists text, root.
Qed.

Lemma ens_canonicalize l text : Ensures l (canonicalize text) (on_ok (fun p _ => leads text p)).
Proof. apply ens_fs_read. intros t p Hsub _. by apply canonicalize_mono. Qed.

Lemma ens_collect_roots l texts roots :
  (forall text, text ∈ texts -> text ∈ split_byte (ascii_of_nat 58) allowed_roots_text) -> Forall root_ok roots ->
  Ensures l (collect_roots texts roots) (on_ok (fun rs _ => Forall root_ok rs)).
Proof.
  revert l roots. induction texts as [|text texts IH]; intros l roots Ht Hr; cbn [collect_roots]; [by apply ens_ok|].
  destruct (is_absolute text); [cbn [negb]|apply ens_err].
  eapply ens_try; [apply ens_map_error, ens_canonicalize|]. intros root l1 _ Hroot.
  eapply ensures_bind; [apply ens_is_dir|]. intros [|] l2 Hl _; cbn [negb]; [|apply ens_err].
  destruct (existsb _ roots).
  - apply IH; [|done]. intros x Hx. apply Ht. set_solver.
  - apply ensures_knowing. intros s _ Hs. apply IH; [intros x Hx; apply Ht; set_solver|]. apply Forall_app. split; [done|]. constructor; [|done].
    exists text. split; [apply Ht; set_solver|]. by apply (Hroot s), Hl.
Qed.

Lemma ens_roots l : Ensures l (canonical_allowed_roots_from_text allowed_roots_text) (on_ok (fun rs _ => Forall root_ok rs)).
Proof.
  eapply ens_try; [by apply ens_collect_roots|]. intros [|root roots] l1 _ Hr; [apply ens_err|]. by apply ens_ok.
Qed.

(** A file inside the configured directories, or the knowledge that there is none. *)
Lemma ens_canonical_file l path roots :
  Ensures l (canonical_file_within_roots path roots)
    (on_ok (fun r s => match r with
                       | Some p => leads path p /\ within roots p = true /\ is_forbidden_maintenance_path path = false
                       | None => gone path s
                       end)).
Proof.
  unfold canonical_file_within_roots. destruct (negb (is_absolute path) || _) eqn:Ef; [apply ens_err|].
  apply orb_false_iff in Ef as [_ Ef]. eapply ensures_bind; [apply ens_exists|]. intros [|] l1 _ Hg; cbn [negb].
  - eapply ens_try; [apply ens_map_error, ens_canonicalize|]. intros p l2 _ Hp.
    destruct (within roots p) eqn:Ew; [cbn [negb]|apply ens_err].
    eapply ensures_bind; [apply ens_is_file|]. intros [|] l3 Hl3 _; cbn [negb]; [|apply ens_err].
    apply ens_ok. intros s Hs. split_and!; [by apply (Hp s), Hl3|done..].
  - destruct (parent_components path) as [parent|]; [|apply ens_err].
    eapply ens_try; [apply ens_map_error, (ens_fs_read _ _ (fun _ => True)); done|]. intros p l2 Hl2 _.
    destruct (within roots p); [|apply ens_err]. apply ens_ok. intros s Hs. by apply Hg; [apply Hl2|].
Qed.

Lemma ens_metadata_len l p : Ensures l (metadata_len p) (on_ok (fun len _ => 0 <= len <= u64_max)).
Proof.
  apply ens_fs_read. intros t len _ _. unfold file_len, wrap_u64, u64_max.
  destruct (stat _ _ _) as [[content| |]|]; intros [= <-]; try lia.
  pose proof (Z.mod_pos_bound (str_len content) 18446744073709551616). lia.
Qed.

Lemma ens_sha256 l p : Ensures l (sha256_file p) (on_ok (fun hash _ => hash <> "")).
Proof.
  eapply ens_try; [apply ens_map_error, (ens_fs_read _ _ (fun _ => True)); done|]. intros content l1 _ _.
  eapply ensures_bind; [by apply ens_attempt|]. intros [e|] l2 _ _; [apply ens_err|]. apply ens_ok. intros s _.
  apply sha256_not_empty.
Qed.

(** ** Keys *)

Lemma replace_injective s t : plain s -> plain t ->
  replace_byte slash (ascii_of_nat 92) s = replace_byte slash (ascii_of_nat 92) t -> s = t.
Proof.
  unfold plain. revert t. induction s as [|a s IH]; intros [|b t]; simpl; try done.
  rewrite !andb_true_iff, !negb_true_iff, !bool_decide_eq_false. intros [Ha Hs] [Hb Ht] E. injection E as Eab Est.
  f_equal; [|by apply IH]. repeat case_bool_decide; congruence.
Qed.

Lemma plain_slashed p : Forall plain p -> plain (slashed p).
Proof.
  unfold plain. induction 1 as [|name p Hn _ IH]; [done|]. cbn [slashed]. rewrite !all_bytes_app, Hn, IH. done.
Qed.

Lemma plain_display p : plain_names -> is_real (files s0) p -> plain (display p).
Proof.
  intros [_ Hn] Hr. destruct p as [|a p]; [done|]. apply plain_slashed, Hn.
  apply real_node in Hr as (node & E & _); [|done]. by exists node.
Qed.

Lemma plain_entry r e : plain_names -> entry_ok r e -> plain (ce_path e).
Proof.
  intros Hp He. destruct (eo_path r e He) as [Hr|(p & -> & Hr)]; [by eapply (proj1 Hp)|by apply plain_display].
Qed.

(** ** Candidates *)

Definition candidates_ok (r : string) (c : Candidates) (s : CleanupState) : Prop :=
  entries_ok r (fst c) s /\ forall k, k ∈ snd c -> exists e, e ∈ fst c /\ path_key (ce_path e) = k.

(** [c'] has what [c] has and accounts for [raw]. *)
Definition extends (c c' : Candidates) : Prop := forall e, e ∈ fst c -> e ∈ fst c'.

#[local] Instance extends_preorder : PreOrder extends.
Proof. split; [by intros c e|intros c1 c2 c3 H1 H2 e He; auto]. Qed.

Lemma accounts_extends c c' raw : extends c c' -> accounts_for (fst c) raw -> accounts_for (fst c') raw.
Proof. intros Hx Ha Hb Hs. destruct (Ha Hb Hs) as (e & He & Hp). exists e. split; [by apply Hx|done]. Qed.

Lemma stable_candidates r c : Stable (candidates_ok r c).
Proof. apply stable_and; [apply stable_entries|apply stable_pure]. Qed.

(** An entry made for a path. *)
Definition entry_for (r raw : string) (e : CleanupEntry) (s : CleanupState) : Prop :=
  entry_ok r e /\ (is_settled e = true -> gone (ce_path e) s) /\
  (ce_path e = raw \/ exists p, leads raw p /\ ce_path e = display p).

Lemma push_entry_ok r raw e c s : candidates_ok r c s -> entry_for r raw e s ->
  candidates_ok r (push_entry e c) s /\ extends c (push_entry e c) /\ (plain_names -> accounts_for (fst (push_entry e c)) raw).
Proof.
  intros [[Hf Hg] Hk] (He & Hge & Hp). unfold push_entry. destruct (decide _) as [Hin|Hin].
  - split; [done|]. split; [done|]. intros Hpl _ _. destruct (Hk _ Hin) as (e' & He' & Hkey). exists e'. split; [done|].
    assert (E : ce_path e' = ce_path e); [|by rewrite E]. rewrite Forall_forall in Hf.
    eapply replace_injective; [eapply plain_entry; [done|by apply Hf]|by eapply plain_entry|done].
  - split; [split; [split|]|split].
    + apply Forall_app. by split; [|constructor].
    + intros e' [He'|He']%elem_of_app; [by apply Hg|]. apply list_elem_of_singleton in He' as ->. exact Hge.
    + intros k. simpl. rewrite elem_of_union, elem_of_singleton. intros [->|(e' & ? & ?)%Hk].
      * exists e. split; [|done]. apply elem_of_app. right. by apply list_elem_of_singleton.
      * exists e'. split; [|done]. apply elem_of_app. by left.
    + intros e' He'. apply elem_of_app. by left.
    + intros _ _ _. exists e. split; [|done]. apply elem_of_app. right. by apply list_elem_of_singleton.
Qed.

(** Entries without a hash. *)
Lemma entry_unhashed r raw path kind status error : reference_of r raw ->
  (path = raw \/ exists p, leads raw p /\ path = display p) ->
  entry_ok r (mkCleanupEntry path kind 0 "" status error).
Proof.
  intros Hr Hp. split; simpl; [unfold u64_max; lia|done|]. destruct Hp as [->|(p & Hl & ->)]; [by left|right].
  exists p. split; [done|]. by eapply leads_real.
Qed.

Lemma ens_add_candidate l r raw kind roots c :
  reference_of r raw -> (forall s, l s -> candidates_ok r c s) ->
  Ensures l (add_candidate raw kind roots c)
    (fun c' s => candidates_ok r c' s /\ extends c c' /\ (plain_names -> accounts_for (fst c') raw)).
Proof.
  intros Hr Hc. unfold add_candidate. destruct (is_blank raw || contains "://" raw) eqn:Eb.
  { apply ensures_ret. intros s Hs. split; [by apply Hc|]. split; [done|]. intros _ H1 H2. by rewrite H1, H2 in Eb. }
  eapply ensures_bind; [apply ens_canonical_file|]. intros result l1 Hl1 Hres.
  eapply (ensures_bind _ _ _ _ _ (fun e s => entry_for r raw e s)).
  - destruct result as [[p|]|error].
    + apply ensures_knowing. intros s1 _ Hs1. destruct (Hres s1 Hs1) as (Hp & _ & _).
      eapply ensures_bind; [apply ens_metadata_len|]. intros [len|error] l2 _ Hlen.
      * eapply ensures_bind; [apply ens_sha256|]. intros [hash|error] l3 Hl3 Hhash; apply ensures_ret; intros s Hs.
        -- split; [|split; [done|right; by exists p]]. split; simpl; [by apply (Hlen s), Hl3| |].
           ++ intros _. by exists raw, p.
           ++ right. exists p. split; [done|]. by eapply leads_real.
        -- split; [|split; [done|right; by exists p]]. eapply entry_unhashed; [done|]. right. by exists p.
      * apply ensures_ret. intros s Hs. split; [|split; [done|right; by exists p]]. eapply entry_unhashed; [done|]. right. by exists p.
    + apply ensures_ret. intros s Hs. split; [|split; [intros _; by apply Hres|by left]]. eapply entry_unhashed; [done|by left].
    + apply ensures_ret. intros s Hs. split; [|split; [done|by left]]. eapply entry_unhashed; [done|by left].
  - intros e l2 Hl2 He. apply ensures_ret. intros s Hs. apply push_entry_ok; [by apply Hc, Hl1, Hl2|by apply He].
Qed.

Lemma ens_add_candidates l r paths roots c :
  (forall raw kind, (raw, kind) ∈ paths -> reference_of r raw) -> (forall s, l s -> candidates_ok r c s) ->
  Ensures l (add_candidates paths roots c)
    (fun c' s => candidates_ok r c' s /\ extends c c' /\
                 (plain_names -> forall raw kind, (raw, kind) ∈ paths -> accounts_for (fst c') raw)).
Proof.
  revert l c. induction paths as [|[raw kind] paths IH]; intros l c Hr Hc; cbn [add_candidates].
  { apply ensures_ret. intros s Hs. split; [by apply Hc|]. split; [done|]. intros _ raw kind Hin. by apply not_elem_of_nil in Hin. }
  eapply ensures_bind; [apply (ens_add_candidate l r); [eapply Hr; by left|done]|]. intros c1 l1 Hl1 H1.
  eapply ensures_weaken; [apply IH; [intros raw' kind' Hin; eapply Hr; by right|intros s Hs; by apply (H1 s Hs)]|].
  intros c2 s Hs (H2 & Hx & Ha). destruct (H1 s Hs) as (_ & Hx1 & Ha1). split; [done|]. split; [by etrans|].
  intros Hp raw' kind' [E|Hin]%elem_of_cons; [injection E as -> ->|by eapply Ha].
  eapply accounts_extends; [exact Hx|]. by apply Ha1.
Qed.

(** ** Planning *)

Definition detail_ok (id : string) (d : AdminInspectionRecordDetail) (s : CleanupState) : Prop :=
  (inspection (record d) ∈ production_inspection s0 /\ pi_id (inspection (record d)) = id /\
   (forall m, session (record d) = Some m -> m ∈ session_rows s0 /\ m_id m = pi_session_id (inspection (record d))) /\
   (forall f, f ∈ capture_files d -> f ∈ capture_file s0 /\ cf_inspection_id f = id)) /\
  (forgotten id s \/ forall f, f ∈ capture_file s0 -> cf_inspection_id f = id -> f ∈ capture_files d).

Lemma stable_or_forgotten id (P : Prop) : Stable (fun s => forgotten id s \/ P).
Proof. intros s s' _ _ HG [Hf|]; [left|by right]. by eapply forgotten_mono. Qed.

Lemma elem_filter {A} (f : A -> bool) l x : x ∈ List.filter f l <-> x ∈ l /\ f x = true.
Proof. by rewrite !list_elem_of_In, filter_In. Qed.

(** Rows with one primary key are one row. *)
Lemma same_id {A} (key : A -> string) (rows : list A) x y : NoDup (map key rows) -> x ∈ rows -> y ∈ rows -> key x = key y -> x = y.
Proof.
  intros Hn Hx Hy E. apply list_elem_of_lookup_1 in Hx as [i Hi]. apply list_elem_of_lookup_1 in Hy as [j Hj].
  assert (i = j) as ->; [|congruence]. apply (NoDup_lookup _ _ _ (key x) Hn); rewrite list_lookup_fmap; [by rewrite Hi|rewrite Hj; simpl; by rewrite E].
Qed.

Lemma ens_find_inspection l id : Ensures l (select (fun s => List.find (fun row => pi_id row == id) (production_inspection s)))
  (on_ok (fun r _ => forall row, r = Some row -> row ∈ production_inspection s0 /\ pi_id row = id)).
Proof.
  apply ens_select; [intros r; apply stable_pure|]. intros s Hs _ row E.
  apply find_elem in E as [Hin Hid%str_eqb_true]. split; [by apply (inv_inspections s Hs)|done].
Qed.

Lemma ens_admin_record l row : Ensures l (admin_production_record row)
  (on_ok (fun x _ => inspection x = row /\
                     forall m, session x = Some m -> m ∈ session_rows s0 /\ m_id m = pi_session_id row)).
Proof.
  eapply ens_try; [apply (ens_select _ _ (fun r _ => forall m, r = Some m -> m ∈ session_rows s0 /\ m_id m = pi_session_id row));
    [intros r; apply stable_pure|]|].
  - intros s Hs _ m E. apply find_elem in E as [Hin Hid%str_eqb_true]. by rewrite <- (inv_sessions s Hs).
  - intros found l1 Hl1 Hm. eapply ens_try; [by apply (ens_select _ _ (fun _ _ => True)); [intros _; apply stable_pure|]|].
    intros rows l2 Hl2 _. apply ens_ok. intros s Hs. split; [done|]. by apply (Hm s), Hl2.
Qed.

Lemma ens_find_detail l id : Ensures l (find_inspection_record_detail id)
  (on_ok (fun r s => forall d, r = Some d -> detail_ok id d s)).
Proof.
  eapply ens_try; [apply ens_find_inspection|]. intros [row|] l1 Hl1 Hrow; [|by apply ens_ok].
  eapply ens_try; [by apply (ens_select _ _ (fun _ _ => True)); [intros _; apply stable_pure|]|]. intros ds l2 Hl2 _.
  eapply ens_try; [apply (ens_select _ _ (fun fs s =>
    (forall f, f ∈ fs -> f ∈ capture_file s0 /\ cf_inspection_id f = id) /\
    (forgotten id s \/ forall f, f ∈ capture_file s0 -> cf_inspection_id f = id -> f ∈ fs)))|].
  - intros fs. apply stable_and; [apply stable_pure|apply stable_or_forgotten].
  - intros s Hs _. split.
    + intros f. rewrite merge_sort_Permutation, elem_filter. intros [Hf Hid%str_eqb_true].
      split; [by apply (inv_captures s Hs)|done].
    + destruct (decide (Exists (fun f => f ∉ capture_file s) (List.filter (fun f => cf_inspection_id f == id) (capture_file s0))))
        as [He|He].
      * left. apply Exists_exists in He as (f & [Hf Hid%str_eqb_true]%elem_filter & Hn).
        destruct (inv_captured s Hs f Hf) as [|Hg]; [done|]. by rewrite Hid in Hg.
      * right. intros f Hf Hid. rewrite merge_sort_Permutation, elem_filter. split; [|by apply str_eqb_true].
        destruct (decide (f ∈ capture_file s)) as [|Hn]; [done|]. destruct He. apply Exists_exists. exists f. split; [|done].
        apply elem_filter. split; [done|by apply str_eqb_true].
  - intros fs l3 Hl3 Hfs. eapply ens_try; [apply ens_admin_record|]. intros x l4 Hl4 Hx. apply ens_ok.
    intros s Hs d [= <-]. destruct (Hx s Hs) as [E Hm]. destruct (Hfs s (Hl4 s Hs)) as [Hf1 Hf2].
    destruct (Hrow s ltac:(auto 20) row eq_refl) as [Hin Hid]. split; [|done]. simpl. rewrite E. by split_and!.
Qed.

Lemma ens_read_summary l row roots : row ∈ production_inspection s0 ->
  Ensures l (read_summary (trim (pi_summary_path row)) roots) (fun paths _ => forall path, path ∈ paths -> reference_of (pi_id row) path).
Proof.
  intros Hrow. assert (Hnil : forall l', Ensures l' (Ret []) (fun paths _ => forall path, path ∈ paths -> reference_of (pi_id row) path)).
  { intros l'. apply ensures_ret. intros s _ path Hin. by apply not_elem_of_nil in Hin. }
  unfold read_summary. destruct (is_empty _); [apply Hnil|]. eapply ensures_bind; [apply ens_canonical_file|].
  intros [[p|]|e] l1 _ Hp; [|apply Hnil..]. eapply ensures_bind.
  { apply (ens_fs_read _ _ (fun content => exists q, leads (display p) q /\ node_at (files s0) q = Some (NFile content))).
    intros t content Hsub _ E. destruct (stat cwd t (display p)) as [[c| |]|] eqn:Es; try done. injection E as <-.
    by eapply stat_leads. }
  intros [content|e] l2 Hl2 Hc; [|apply Hnil]. apply ensures_ret. intros s Hs path Hin.
  destruct (Hp s (Hl2 s Hs)) as (Hl & _ & _). destruct (Hc s Hs) as (q & Hq & Hn).
  apply leads_display in Hq as ->; [|by eapply leads_real].
  destruct (json_parse content) as [v|] eqn:Ev; [|by apply not_elem_of_nil in Hin]. by eapply RefSummary.
Qed.

Lemma no_candidates r s : candidates_ok r ([], ∅) s.
Proof.
  split; [split; [done|intros e He; by apply not_elem_of_nil in He]|]. intros k Hk. by apply not_elem_of_empty in Hk.
Qed.

Lemma ens_build_manifest l id d : (forall s, l s -> detail_ok id d s) ->
  Ensures l (build_manifest d allowed_roots_text)
    (on_ok (fun m s => draft_ok id m s /\ cm_directories m = [] /\
                       exists ses, session (record d) = Some ses /\ m_status ses = "finished")).
Proof.
  intros Hd. unfold build_manifest. destruct (session (record d)) as [ses|] eqn:Eses; [|apply ens_err].
  destruct (String.eqb_spec (m_status ses) "finished") as [Efin|]; cbn [negb]; [|apply ens_err].
  apply ensures_knowing. intros s1 _ Hs1. destruct (Hd s1 Hs1) as ((Hrow & Hid & _ & Hcap) & _).
  set (row := inspection (record d)) in *.
  eapply ens_try; [apply ens_roots|]. intros roots l1 Hl1 _.
  eapply ensures_bind; [apply (ens_add_candidates _ id); [|intros s _; apply no_candidates]|].
  { intros raw kind Hin. apply list_elem_of_In, in_flat_map in Hin as (f & Hf & Hin). apply list_elem_of_In, Hcap in Hf as [Hf Hfid].
    destruct Hin as [E|[E|[]]]; injection E as <- <-; apply RefArtifact; by econstructor. }
  intros c1 l2 Hl2 Hc1. eapply ensures_bind; [apply (ens_add_candidate _ id); [|intros s Hs; by apply (Hc1 s Hs)]|].
  { apply RefArtifact. by apply ArtSummary. }
  intros c2 l3 Hl3 Hc2. eapply ensures_bind; [by apply ens_read_summary|]. intros paths l4 Hl4 Hpaths.
  apply ensures_knowing. intros s4 _ Hs4.
  eapply ensures_bind; [apply (ens_add_candidates _ id); [|intros s Hs; by apply (Hc2 s), Hl4]|].
  { intros raw kind Hin. apply list_elem_of_In, in_map_iff in Hin as (path & E & Hin). injection E as <- <-.
    rewrite <- Hid. apply (Hpaths s4 Hs4). by apply list_elem_of_In. }
  intros c3 l5 Hl5 Hc3. apply ens_ok. intros s Hs. destruct (Hc3 s Hs) as ([Hent _] & Hx3 & _).
  destruct (Hc2 s ltac:(auto 20)) as (_ & Hx2 & Ha2). destruct (Hc1 s ltac:(auto 20)) as (_ & _ & Ha1).
  split; [|split; [done|by exists ses]]. split; [done|]. split; [done|]. intros Hp.
  destruct (Hd s ltac:(auto 20)) as [_ [Hf|Hall]]; [by left|right]. intros raw Hraw.
  assert (Hx : forall f kind raw, f ∈ capture_files d -> In (raw, kind) [(cf_path f, "capture"); (cf_metadata_path f, "metadata")] ->
    accounts_for (fst c3) raw).
  { intros f kind raw' Hf Hin. eapply accounts_extends; [exact Hx3|]. eapply accounts_extends; [exact Hx2|].
    apply (Ha1 Hp raw' kind). apply list_elem_of_In, in_flat_map. exists f. split; [by apply list_elem_of_In|done]. }
  destruct Hraw as [f Hf Hfid|f Hf Hfid|row' Hrow' Hid'].
  - eapply (Hx f); [by apply Hall|by left].
  - eapply (Hx f); [by apply Hall|right; by left].
  - assert (row' = row) as -> by (eapply same_id; [exact inspections0|done..|congruence]).
    eapply accounts_extends; [exact Hx3|]. by apply Ha2.
Qed.

(** *** The cache of a record *)

Definition walk_ok (r : string) (w : CacheWalk) (s : CleanupState) : Prop :=
  candidates_ok r (fst w) s /\ Forall (dir_ok r) (snd w).

Lemma starts_with_refl p : path_starts_with p p = true.
Proof. induction p as [|a p IH]; [done|]. simpl. by rewrite String.eqb_refl. Qed.

Lemma starts_with_app p q d : path_starts_with p d = true -> path_starts_with (p ++ q) d = true.
Proof.
  revert p. induction d as [|a d IH]; intros p; [by destruct (p ++ q)|]. destruct p as [|b p]; [done|]. simpl.
  rewrite !andb_true_iff. intros [H1 H2]. split; [done|by apply IH].
Qed.

Lemma ens_read_dir l p : Ensures l (read_dir p)
  (on_ok (fun items _ => forall name node, (name, node) ∈ items -> files s0 !! (p ++ [name]) = Some node)).
Proof.
  eapply ens_try; [apply (ens_fs_read _ _ (fun items => forall name node, (name, node) ∈ items -> files s0 !! (p ++ [name]) = Some node))|].
  - intros t items Hsub _ E name node Hin. destruct (stat _ _ _) as [[| |]|]; try done. injection E as <-.
    apply children_elem in Hin. by eapply lookup_weaken.
  - intros items l1 _ Hi. eapply ensures_bind; [apply ens_ask|]. intros order l2 Hl2 _.
    apply ens_ok. intros s Hs name node. destruct (decide _) as [->|]; apply (Hi s (Hl2 s Hs)).
Qed.

Section Cache.
Variables (r root : string).
Hypothesis Hroot : record_cache_root world_cache_root r = Ok root.

(** What visiting a directory achieves. *)
Definition visits (w : CacheWalk) (w' : CacheWalk) (s : CleanupState) : Prop := walk_ok r w' s /\ extends (fst w) (fst w').

Lemma ens_collect_entries d visit directory roots items w l : leads root d ->
  (forall l name w, files s0 !! (directory ++ [name]) = Some NDir -> (forall s, l s -> walk_ok r w s) ->
     Ensures l (visit (display (directory ++ [name])) w) (on_ok (visits w))) ->
  path_starts_with directory d = true ->
  (forall name node, (name, node) ∈ items -> files s0 !! (directory ++ [name]) = Some node) ->
  (forall s, l s -> walk_ok r w s) -> Ensures l (collect_entries visit directory roots items w) (on_ok (visits w)).
Proof.
  intros Hd Hv Hp. revert w l. induction items as [|[name node] items IH]; intros w l Hi Hw; cbn [collect_entries].
  { apply ens_ok. intros s Hs. split; [by apply Hw|done]. }
  eapply ensures_bind; [by apply ens_attempt|]. intros [e|] l1 Hl1 _; [apply ens_err|].
  eapply ensures_bind; [by apply ens_attempt|]. intros [e|] l2 Hl2 _; [apply ens_err|].
  assert (Hi' : forall name node, (name, node) ∈ items -> files s0 !! (directory ++ [name]) = Some node)
    by (intros ? ? ?; apply Hi; by right).
  specialize (Hi name node ltac:(by left)). destruct node as [content| |target]; [| |apply ens_err].
  - eapply ensures_bind; [apply (ens_add_candidate _ r); [|intros s Hs; apply (Hw s); auto]|].
    { eapply RefCache; [exact Hroot|exact Hd|by apply starts_with_app|by rewrite Hi]. }
    intros c l3 Hl3 Hc. eapply ensures_weaken; [apply IH; [done|]|].
    + intros s Hs. split; [by apply (Hc s)|]. apply (Hw s). auto.
    + intros [w'|e] s Hs; [|done]. intros [Hw' Hx]. split; [done|]. etrans; [|exact Hx]. by apply (Hc s).
  - eapply ens_try; [apply Hv; [done|intros s Hs; apply Hw; auto]|]. intros w1 l3 Hl3 Hw1.
    eapply ensures_weaken; [apply IH; [done|intros s Hs; by apply (Hw1 s)]|].
    intros [w'|e] s Hs; [|done]. intros [Hw' Hx]. split; [done|]. etrans; [|exact Hx]. by apply (Hw1 s).
Qed.

Lemma ens_collect_cache_tree fuel roots directory w l :
  (0 < fuel)%nat -> (forall p q, leads directory p -> is_Some (files s0 !! q) -> (length q < length p + fuel)%nat) ->
  (forall p, leads directory p -> exists d, leads root d /\ path_starts_with p d = true) -> (forall s, l s -> walk_ok r w s) ->
  Ensures l (collect_cache_tree fuel roots directory w) (on_ok (visits w)).
Proof.
  revert directory w l. induction fuel as [|fuel IH]; intros directory w l Hpos Hfuel Hstart Hw; [lia|]. cbn [collect_cache_tree].
  eapply ens_try; [apply ens_map_error, ens_canonicalize|]. intros p l1 Hl1 Hlead. apply ensures_knowing. intros s1 _ Hs1.
  specialize (Hlead s1 Hs1). destruct (Hstart p Hlead) as (d & Hd & Hp). pose proof (leads_real _ _ Hlead) as Hreal.
  eapply ensures_bind; [apply ens_is_dir|]. intros b l2 Hl2 _. destruct (negb b || _ || _); [apply ens_err|].
  eapply ens_try; [apply ens_map_error, ens_read_dir|]. intros items l3 Hl3 Hitems.
  apply ensures_knowing. intros s3 _ Hs3. specialize (Hitems s3 Hs3).
  eapply ensures_weaken; [apply (ens_collect_entries d); [done| |done|done|]|].
  - intros l' name w' Hn Hw'. assert (Hr : is_real (files s0) (p ++ [name])).
    { destruct (p ++ [name]) eqn:E; [by destruct p|]. by left. }
    assert (Hlen : (length (p ++ [name]) < length p + S fuel)%nat) by (apply Hfuel; [done|by rewrite Hn]).
    rewrite length_app in Hlen. simpl in Hlen. apply IH; [lia|..|done].
    + intros q q' Hq%leads_display Hq'; [|done]. subst q. rewrite length_app. simpl. specialize (Hfuel p q' Hlead Hq'). lia.
    + intros q Hq%leads_display; [|done]. subst q. exists d. split; [done|]. by apply starts_with_app.
  - intros s Hs. split; [apply (Hw s); auto|]. simpl. apply Forall_app. split; [apply (Hw s); auto|]. constructor; [|done].
    by exists root, d, p.
  - intros [w'|e] s Hs HQ; [exact HQ|done].
Qed.
End Cache.

Lemma insert_by_depth_elem x y texts : x ∈ insert_by_depth y texts -> x = y \/ x ∈ texts.
Proof.
  induction texts as [|z texts IH]; simpl; [set_solver|]. destruct (depth y <=? depth z)%nat; [set_solver|].
  rewrite elem_of_cons. intros [->|Hx]; [set_solver|]. destruct (IH Hx); set_solver.
Qed.

Lemma sort_by_depth_elem x texts : x ∈ sort_by_depth texts -> x ∈ texts.
Proof.
  unfold sort_by_depth. induction texts as [|y texts IH]; simpl; [done|]. intros [->|Hx]%insert_by_depth_elem; set_solver.
Qed.

Lemma dedup_elem x texts : x ∈ dedup texts -> x ∈ texts.
Proof.
  induction texts as [|y texts IH]; cbn [dedup]; [done|]. destruct (dedup texts) as [|z rest]; [set_solver|].
  destruct (y == z); set_solver.
Qed.

Lemma complete_extends r entries entries' s : (forall e, e ∈ entries -> e ∈ entries') ->
  complete_for r entries s -> complete_for r entries' s.
Proof.
  intros Hx Hc Hp. destruct (Hc Hp) as [|Ha]; [by left|right]. intros raw Hraw.
  by apply (accounts_extends (entries, ∅) (entries', ∅)), Ha.
Qed.

Lemma ens_append_cache_tree l r m root : record_cache_root world_cache_root r = Ok root ->
  (forall s, l s -> draft_ok r m s) ->
  Ensures l (append_cache_tree m root allowed_roots_text) (on_ok (fun m' s => draft_ok r m' s)).
Proof.
  intros Hroot Hm. unfold append_cache_tree. eapply ensures_bind; [apply ens_exists|]. intros there l1 Hl1 _.
  destruct (negb there); [apply ens_ok; intros s Hs; by apply Hm, Hl1|].
  eapply ens_try; [apply ens_roots|]. intros roots l2 Hl2 _.
  eapply ens_try; [apply (ens_collect_cache_tree r root Hroot); [done|..]|].
  - intros p q _ Hq. specialize (depth0 q Hq). lia.
  - intros p Hp. exists p. split; [done|apply starts_with_refl].
  - intros s Hs. destruct (Hm s ltac:(auto 20)) as (Hdirs & Hent & _). split; [split; [done|]|done].
    intros k. simpl. rewrite elem_of_list_to_set, list_elem_of_fmap. intros (e & -> & He). by exists e.
  - intros w l3 Hl3 Hw. apply ens_ok. intros s Hs. destruct (Hw s Hs) as [[[Hent _] Hdirs] Hx].
    destruct (Hm s ltac:(auto 20)) as (_ & _ & Hc). split_and!; [|done|by eapply complete_extends].
    simpl. rewrite Forall_forall in *. intros x Hin. by apply Hdirs, sort_by_depth_elem, dedup_elem.
Qed.

(** ** The table of plans *)

Lemma plan_sizes r m s : plan_ok r m s -> sizes_fit m.
Proof. intros (_ & _ & [He _] & _). unfold sizes_fit. eapply Forall_impl; [exact He|]. intros e. apply eo_size. Qed.

Lemma elem_update_where {A} p (f : A -> A) l x : x ∈ update_where p f l -> exists y, y ∈ l /\ x = if p y then f y else y.
Proof. unfold update_where. rewrite list_elem_of_fmap. intros (y & -> & Hy). eauto. Qed.

Lemma owned_elem s row : Inv s -> row ∈ record_cleanup s -> owned (rc_id row) (rc_record_id row) s.
Proof.
  intros Hs Hr. split; [by exists row|]. intros row' Hr' E. f_equal. eapply same_id; [apply (inv_ids s Hs)|done..].
Qed.

(** The table is replaced by one with the same keys, or more, whose open plans are good. *)
Lemma inv_cleanups s rows : Inv s -> NoDup (map rc_id rows) ->
  (forall row, row ∈ rows -> rc_status row = "completed" \/ stored row s) ->
  (forall id r, owned id r s -> owned id r (with_cleanups rows s)) ->
  Inv (with_cleanups rows s) /\ Guar s (with_cleanups rows s).
Proof.
  intros Hs Hn Hr Ho. assert (HG : Guar s (with_cleanups rows s)) by by split. split; [|done].
  by destruct Hs.
Qed.

Lemma inv_insert s row : Inv s -> existsb (fun r => rc_id r == rc_id row) (record_cleanup s) = false -> stored row s ->
  Inv (with_cleanups (record_cleanup s ++ [row]) s) /\ Guar s (with_cleanups (record_cleanup s ++ [row]) s).
Proof.
  intros Hs He Hr. assert (Hf : forall x, x ∈ record_cleanup s -> rc_id x <> rc_id row).
  { intros x Hx E. assert (Ht : existsb (fun r => rc_id r == rc_id row) (record_cleanup s) = true); [|congruence].
    apply existsb_exists. exists x. split; [by apply list_elem_of_In|by apply str_eqb_true]. }
  apply inv_cleanups; [done|..].
  - rewrite map_app. apply NoDup_app. split; [apply (inv_ids s Hs)|]. split; [|apply NoDup_singleton].
    intros x Hx Hx'. apply list_elem_of_singleton in Hx'. apply list_elem_of_fmap in Hx as (y & -> & Hy). by apply (Hf y).
  - intros x [Hx|Hx]%elem_of_app; [by apply (inv_plans s Hs)|]. apply list_elem_of_singleton in Hx as ->. by right.
  - intros id r [(x & Hx & Hid) Hall]. split; simpl.
    + exists x. split; [|done]. apply elem_of_app. by left.
    + intros y [Hy|Hy]%elem_of_app Ey; [by apply Hall|]. apply list_elem_of_singleton in Hy as ->. destruct (Hf x Hx). congruence.
Qed.

Lemma update_ids id f rows : (forall row, rc_id (f row) = rc_id row) ->
  map rc_id (update_where (fun row => rc_id row == id) f rows) = map rc_id rows.
Proof.
  intros Hf. unfold update_where. rewrite map_map. apply map_ext. intros row. destruct (_ == _); [apply Hf|done].
Qed.

Lemma owned_update id0 f s s' : record_cleanup s' = update_where (fun row => rc_id row == id0) f (record_cleanup s) ->
  (forall row, rc_id (f row) = rc_id row /\ rc_record_id (f row) = rc_record_id row) ->
  forall id r, owned id r s -> owned id r s'.
Proof.
  intros E Hf id r [(x & Hx & Hid) Hall]. unfold owned. rewrite E. split.
  - exists (if rc_id x == id0 then f x else x). split; [|destruct (_ == _); [by rewrite (proj1 (Hf x))|done]].
    unfold update_where. apply list_elem_of_fmap. by exists x.
  - intros y Hy. apply elem_update_where in Hy as (z & Hz & ->). destruct (_ == _); [|by apply Hall].
    rewrite (proj1 (Hf z)), (proj2 (Hf z)). by apply Hall.
Qed.

Lemma inv_update s id f : Inv s -> (forall row, rc_id (f row) = rc_id row /\ rc_record_id (f row) = rc_record_id row) ->
  (forall row, row ∈ record_cleanup s -> rc_id row = id -> rc_status (f row) = "completed" \/ stored (f row) s) ->
  Inv (with_cleanups (update_where (fun row => rc_id row == id) f (record_cleanup s)) s) /\
  Guar s (with_cleanups (update_where (fun row => rc_id row == id) f (record_cleanup s)) s).
Proof.
  intros Hs Hf Hr. apply inv_cleanups; [done|..].
  - rewrite update_ids; [apply (inv_ids s Hs)|]. intros row. apply Hf.
  - intros x Hx. apply elem_update_where in Hx as (y & Hy & ->). destruct (String.eqb_spec (rc_id y) id) as [E|].
    + by apply Hr.
    + by apply (inv_plans s Hs).
  - by eapply (owned_update id f).
Qed.

(** A plan that is read. *)
Definition loaded (row : RecordCleanup) (s : CleanupState) : Prop :=
  stored row s /\ owned (rc_id row) (rc_record_id row) s.

Lemma stable_loaded row : Stable (loaded row).
Proof. apply stable_and; [apply stable_stored|apply stable_owned]. Qed.

Lemma latest_open_ok s record_id row : Inv s -> latest_open_cleanup record_id (record_cleanup s) = Some row ->
  loaded row s /\ rc_record_id row = record_id.
Proof.
  intros Hs E. unfold latest_open_cleanup in E. apply head_Some_elem_of in E. unfold order_desc in E.
  rewrite merge_sort_Permutation in E. apply elem_filter in E as [Hin Ho]. unfold open_cleanup in Ho. bool_facts.
  split; [|done]. split; [|by apply owned_elem]. destruct (inv_plans s Hs row Hin) as [Ec|]; [|done].
  match goal with H : one_of _ _ = true |- _ => rewrite Ec in H; discriminate H end.
Qed.

Lemma ens_latest l record_id : Ensures l (select (fun s => latest_open_cleanup record_id (record_cleanup s)))
  (on_ok (fun r s => forall row, r = Some row -> loaded row s /\ rc_record_id row = record_id)).
Proof.
  apply ens_select; [|intros s Hs _ row E; by apply latest_open_ok]. intros r. apply stable_forall. intros row.
  apply stable_impl. intros _. apply stable_and; [apply stable_loaded|apply stable_pure].
Qed.

Lemma ens_find_cleanup l id : Ensures l (find_record_cleanup id)
  (on_ok (fun r s => forall row, r = Some row -> rc_status row <> "completed" -> loaded row s)).
Proof.
  apply ens_select.
  - intros r. apply stable_forall. intros row. apply stable_impl. intros _. apply stable_impl. intros _. apply stable_loaded.
  - intros s Hs _ row E Hc. apply find_elem in E as [Hin _]. split; [|by apply owned_elem].
    by destruct (inv_plans s Hs row Hin).
Qed.

Lemma ens_create_or_load l input m : ri_manifest_json input = manifest_print m ->
  (forall s, l s -> plan_ok (ri_record_id input) m s) ->
  Ensures l (create_or_load_record_cleanup input) (on_ok loaded).
Proof.
  intros Hj Hm. eapply ens_try; [apply ens_latest|]. intros [row|] l1 Hl1 Hrow.
  { apply ens_ok. intros s Hs. by apply (Hrow s Hs row). }
  eapply ensures_bind; [apply ens_clock|]. intros now l2 Hl2 _. eapply ensures_bind; [apply ens_clock|]. intros nanos l3 Hl3 _.
  apply ens_statement; [apply stable_loaded|]. intros s a s' Hs Hl E. destruct (existsb _ _) eqn:Ex; [done|].
  injection E as <- <-. match goal with |- context [record_cleanup s ++ [?x]] => set (row := x) in * end.
  assert (Hst : stored row s).
  { exists m. pose proof (Hm s ltac:(auto 20)) as Hp. split; [|done]. simpl. rewrite Hj. eapply manifest_read_print, plan_sizes, Hp. }
  destruct (inv_insert s row Hs Ex Hst) as [Hi HG]. split; [done|]. split; [done|]. split.
  - eapply stored_mono; [apply (inv_stats s Hs)|done..].
  - apply (owned_elem _ row Hi). simpl. apply elem_of_app. right. by apply list_elem_of_singleton.
Qed.

Lemma ens_progress l id r status m error :
  (forall s, l s -> owned id r s /\ plan_ok r m s) ->
  Ensures l (record_progress id status m error) (on_ok (fun _ _ => True)).
Proof.
  intros Hk. unfold record_progress. destruct (manifest_counts m) as [[deleted missing] bytes].
  eapply ens_try; [apply ens_find_cleanup|]. intros [row|] l1 Hl1 _; [|apply ens_err].
  eapply ensures_bind; [apply ens_clock|]. intros now l2 Hl2 _. apply ens_statement; [intros _; apply stable_pure|].
  intros s a s' Hs Hl E. destruct (existsb _ _); [|done]. injection E as <- <-.
  destruct (Hk s ltac:(auto 20)) as [[_ Ho] Hp]. apply and_assoc. split; [|done]. apply inv_update; [done|done|].
  intros x Hx Hid. right. exists m. simpl. rewrite (Ho x Hx Hid). split; [|done]. eapply manifest_read_print, plan_sizes, Hp.
Qed.

(** ** Execution *)

(** Removing something expendable. *)
Lemma inv_remove s p : Inv s -> tree_ok (delete p (files s)) -> is_Some (files s !! p) -> expendable p ->
  Inv (with_files (delete p (files s)) s) /\ Guar s (with_files (delete p (files s)) s).
Proof.
  intros Hs Hok Hp Hx. assert (HG : Guar s (with_files (delete p (files s)) s)).
  { split; simpl; [apply delete_subseteq|done..]. }
  split; [|done]. pose proof (inv_stats s Hs). destruct Hs. split; [exact Hok| | |exact inv_sessions0|exact inv_tasks0|
    exact inv_inspections0|exact inv_captures0|exact inv_captured0|exact inv_stats0|exact inv_ids0| | ]; cbn [files with_files].
  - etrans; [apply delete_subseteq|done].
  - intros q Hq. rewrite lookup_delete_None. intros [<-|]; [done|by apply inv_removed0].
  - intros row Hrow. destruct (inv_plans0 row Hrow) as [|]; [by left|right]. by eapply stored_mono.
  - intros row Hrow Hf. eapply artifacts_gone_mono; [done..|]. by apply inv_forgotten0.
Qed.

Lemma ens_fs_remove (l : CleanupState -> Prop) (f : Tree -> option Tree) (Q : CleanupState -> Prop) : Stable Q ->
  (forall s t, Inv s -> l s -> f (files s) = Some t ->
     exists p, t = delete p (files s) /\ tree_ok t /\ is_Some (files s !! p) /\ expendable p /\ Q (with_files t s)) ->
  Ensures l (fs_remove f) (on_ok (fun _ s => Q s)).
Proof.
  intros HQ Hf. eapply ensures_bind; [by apply ens_attempt|]. intros [e|] l1 Hl1 _; [apply ens_err|].
  eapply ensures_bind; [apply (ensures_atomically _ _ _ _ (fun b s => b = true -> Q s))|].
  - intros b. by apply stable_impl.
  - intros s Hs Hl. destruct (f (files s)) as [t|] eqn:E; simpl; [|by split_and!].
    destruct (Hf s t Hs (Hl1 s Hl) E) as (p & -> & Hok & Hp & Hx & Hq). destruct (inv_remove s p Hs Hok Hp Hx). by split_and!.
  - intros [|] l2 Hl2 Hq; [apply ens_ok; intros s Hs; by apply (Hq s)|].
    eapply ensures_bind; [apply ens_ask|]. intros m l3 _ _. apply ens_err.
Qed.

(** A canonical path that was removed leads nowhere. *)
Lemma gone_deleted s p : Inv s -> is_real (files s0) p -> files s !! p = None -> p <> [] ->
  fs_canonicalize cwd (files s) (display p) = None.
Proof.
  intros Hs Hr Hp Hne. destruct (fs_canonicalize cwd (files s) (display p)) as [q|] eqn:E; [|done].
  pose proof (canonicalize_real _ _ _ _ (inv_tree s Hs) E) as Hq.
  assert (q = p) as ->. { eapply leads_display; [done|]. eapply canonicalize_mono; [apply (inv_files s Hs)|done]. }
  apply real_node in Hq as (node & En & _); [congruence|done].
Qed.

(** An entry as [execute_entry] leaves it. *)
Definition entry_done (r : string) (e e' : CleanupEntry) (s : CleanupState) : Prop :=
  entry_ok r e' /\ is_settled e' = true /\ gone (ce_path e') s /\ ce_path e' = ce_path e.

Lemma ens_execute_entry l r e roots : eligible r -> Forall root_ok roots -> entry_ok r e ->
  (forall s, l s -> is_settled e = true -> gone (ce_path e) s) ->
  Ensures l (execute_entry e roots) (on_ok (entry_done r e)).
Proof.
  intros Hel Hroots He Hg. unfold execute_entry. destruct (one_of (ce_status e) ["deleted"; "missing"]) eqn:Est.
  { apply ens_ok. intros s Hs. split_and!; [done..|by apply Hg|done]. }
  destruct (ce_status e == "rejected"); [apply ens_err|].
  assert (Hok : forall status, entry_ok r (settled_entry status e)) by (intros status; by destruct He).
  eapply ens_try; [apply ens_canonical_file|]. intros [p|] l1 Hl1 Hp.
  2: { apply ens_ok. intros s Hs. split_and!; [done..|by apply Hp|done]. }
  eapply ens_try; [apply ens_map_error, ens_metadata_len|]. intros len l2 Hl2 _.
  destruct (len =? ce_size_bytes e); cbn [negb]; [|apply ens_err].
  eapply ens_try; [apply ens_sha256|]. intros hash l3 Hl3 Hh.
  destruct (String.eqb_spec hash (ce_sha256 e)) as [Ehash|]; cbn [negb]; [|apply ens_err].
  apply ensures_knowing. intros s3 _ Hs3. destruct (Hp s3 ltac:(auto 20)) as (Hlead & Hw & Hforb).
  specialize (Hh s3 Hs3). subst hash. destruct (eo_hash r e He Hh) as (raw & q & Epath & Href & Hraw).
  pose proof (leads_real _ _ Hraw) as Hreal. rewrite Epath in Hlead, Hforb. apply leads_display in Hlead as ->; [|done].
  eapply ens_try; [apply ens_map_error, (ens_fs_remove _ _ (gone (display q))); [apply stable_gone|]|].
  - intros s t Hs _ Ht. pose proof Ht as Ht'. apply remove_file_ok in Ht as (-> & Htok & Hsome); [|apply (inv_tree s Hs)].
    exists q. assert (Hfile : exists content, files s0 !! q = Some (NFile content)).
    { unfold remove_file in Ht'. destruct Hsome as [node Hn]. rewrite Hn in Ht'. pose proof (lookup_weaken _ _ _ _ Hn (inv_files s Hs)) as Hn0.
      destruct (decide (q = [])) as [->|Hne]; [by rewrite (proj1 tree0) in Hn0|].
      apply real_node in Hreal as (node' & En & [->|[c ->]]); [|by exists c|done]. rewrite Hn0 in En. simplify_eq. }
    assert (Hexp : expendable q).
    { unfold expendable. destruct Hfile as [content ->]. exists r, raw. split_and!; try done; [by eapply within_allowed|by eapply forbidden_display]. }
    destruct (inv_remove s q Hs Htok Hsome Hexp) as [Hi _]. split_and!; try done. intros _. apply gone_deleted; [done|done|apply lookup_delete_eq|].
    intros ->. destruct Hfile as [c Hc]. by rewrite (proj1 tree0) in Hc.
  - intros u l4 Hl4 Hgone. apply ens_ok. intros s Hs. split_and!; [done..| |done]. simpl. rewrite Epath. by apply Hgone.
Qed.

(** Replacing an entry by one with the same path. *)
Lemma accounts_replace front e e' rest raw : ce_path e' = ce_path e ->
  accounts_for (front ++ e :: rest) raw -> accounts_for (front ++ e' :: rest) raw.
Proof.
  intros E Ha Hb Hs. destruct (Ha Hb Hs) as (x & Hx & Hp). apply elem_of_app in Hx as [Hx|[->|Hx]%elem_of_cons].
  - exists x. split; [apply elem_of_app; by left|done].
  - exists e'. rewrite E. split; [apply elem_of_app; right; by left|done].
  - exists x. split; [apply elem_of_app; right; by right|done].
Qed.

Lemma plan_replace r m front e e' rest s : plan_ok r (with_entries (front ++ e :: rest) m) s -> ce_path e' = ce_path e ->
  entry_ok r e' -> (is_settled e' = true -> gone (ce_path e') s) -> plan_ok r (with_entries (front ++ e' :: rest) m) s.
Proof.
  intros (Hel & Hd & [Hf Hg] & Hc) Ep Hok Hgone. split; [done|]. split; [done|]. split; [split|].
  - simpl in *. apply Forall_app in Hf as [H1 H2]. apply Forall_cons in H2 as [_ H2]. apply Forall_app. split; [done|by constructor].
  - simpl in *. intros x Hx. apply elem_of_app in Hx as [Hx|[->|Hx]%elem_of_cons]; [..|done|].
    + apply Hg, elem_of_app. by left.
    + apply Hg, elem_of_app. right. by right.
  - intros Hp. destruct (Hc Hp) as [|Ha]; [by left|right]. intros raw Hraw. eapply accounts_replace; [done|]. by apply Ha.
Qed.

Lemma plan_entry r m front e rest s : plan_ok r (with_entries (front ++ e :: rest) m) s ->
  entry_ok r e /\ (is_settled e = true -> gone (ce_path e) s).
Proof.
  intros (_ & _ & [Hf Hg] & _). simpl in *. apply Forall_app in Hf as [_ Hf]. apply Forall_cons in Hf as [Hf _].
  split; [done|]. apply Hg, elem_of_app. right. by left.
Qed.

Lemma ens_execute_entries roots id r m rest : Forall root_ok roots -> forall front l, Forall (fun e => is_settled e = true) front ->
  (forall s, l s -> owned id r s /\ plan_ok r (with_entries (front ++ rest) m) s) ->
  Ensures l (execute_entries roots id m front rest)
    (on_ok (fun m' s => plan_ok r m' s /\ Forall (fun e => is_settled e = true) (cm_entries m') /\ cm_directories m' = cm_directories m)).
Proof.
  intros Hroots. induction rest as [|e rest IH]; intros front l Hfront Hk; cbn [execute_entries].
  { apply ens_ok. intros s Hs. destruct (Hk s Hs) as [_ Hp]. rewrite app_nil_r in Hp. by split_and!. }
  apply ensures_knowing. intros s1 _ Hs1. destruct (Hk s1 Hs1) as [_ Hp1]. pose proof (plan_entry _ _ _ _ _ _ Hp1) as [He _].
  pose proof (proj1 Hp1) as Hel.
  eapply ensures_bind; [apply (ens_execute_entry _ r); [done..|]|].
  { intros s Hs. destruct (Hk s Hs) as [_ Hp]. eapply plan_entry, Hp. }
  intros [e'|error] l1 Hl1 He'.
  - assert (Hp' : forall s, l1 s -> owned id r s /\ plan_ok r (with_entries (front ++ e' :: rest) m) s).
    { intros s Hs. destruct (Hk s ltac:(auto 20)) as [Ho Hp]. split; [done|]. destruct (He' s Hs) as (H1 & H2 & H3 & H4).
      eapply plan_replace; [exact Hp|done..]. }
    eapply ens_try; [by apply (ens_progress _ _ r)|]. intros u l2 Hl2 _. apply ensures_knowing. intros s2 _ Hs2.
    apply IH.
    + apply Forall_app. split; [done|]. constructor; [|done]. by apply (He' s2), Hl2.
    + intros s Hs. rewrite <- app_assoc. simpl. apply Hp'. auto.
  - eapply ens_try; [apply (ens_progress _ _ r)|].
    + intros s Hs. destruct (Hk s ltac:(auto 20)) as [Ho Hp]. split; [done|].
      eapply plan_replace; [exact Hp|done| |done]. by destruct He.
    + intros u l2 _ _. apply ens_err.
Qed.

Lemma ens_remove_directories l r roots dirs : eligible r -> Forall root_ok roots -> Forall (dir_ok r) dirs ->
  Ensures l (remove_directories roots dirs) (on_ok (fun _ _ => True)).
Proof.
  intros Hel Hroots Hdirs. revert l. induction Hdirs as [|text dirs Hdir _ IH]; intros l; cbn [remove_directories]; [by apply ens_ok|].
  eapply ensures_bind; [apply ens_exists|]. intros [|] l1 _ _; cbn [negb]; [|apply IH].
  eapply ens_try; [apply ens_map_error, ens_canonicalize|]. intros p l2 _ Hp. apply ensures_knowing. intros s2 _ Hs2.
  specialize (Hp s2 Hs2). destruct Hdir as (root & d & q & Hroot & Hd & Hstart & -> & Hreal).
  apply leads_display in Hp as ->; [|done].
  eapply ensures_bind; [apply ens_is_dir|]. intros b l3 _ _. destruct (negb b || _ || _) eqn:Eg; [apply ens_err|].
  apply orb_false_iff in Eg as [Eg Ew]. apply orb_false_iff in Eg as [_ Ef]. apply negb_false_iff in Ew.
  eapply ens_try; [apply ens_map_error, (ens_fs_remove _ _ (fun _ => True)); [apply stable_pure|]|]; [|intros u l4 _ _; apply IH].
  intros s t Hs _ Ht. apply remove_dir_ok in Ht as (-> & Htok & Hsome & _); [|apply (inv_tree s Hs)].
  exists q. split_and!; try done. unfold expendable. rewrite (lookup_weaken _ _ _ _ Hsome (inv_files s Hs)).
  exists r, root, d. split_and!; try done; [by eapply within_allowed|by eapply forbidden_display].
Qed.

(** ** Completion *)

Lemma plan_artifacts_gone s r m row : Inv s -> plan_ok r m s -> Forall (fun e => is_settled e = true) (cm_entries m) ->
  row ∈ production_inspection s0 -> pi_id row = r -> artifacts_gone r s.
Proof.
  intros Hs (_ & _ & [_ Hg] & Hc) Hset Hrow Hid Hplain Hn raw Hraw Hb Hu.
  destruct (Hc Hplain) as [Hf|Ha]; [subst r; by apply (inv_forgotten s Hs row)|].
  destruct (Ha raw Hraw Hb Hu) as (e & He & Hpath). rewrite Forall_forall in Hset. specialize (Hg e He (Hset e He) Hn).
  destruct Hpath as [<-|(p & Hp & Ep)]; [done|]. destruct (fs_canonicalize cwd (files s) raw) as [q|] eqn:E; [|done].
  pose proof (canonicalize_mono _ _ _ _ _ (inv_files s Hs) E) as Hq. unfold leads in Hp. rewrite Hp in Hq. injection Hq as <-.
  rewrite Ep, canonicalize_display in Hg; [done|apply (inv_tree s Hs)|]. eapply canonicalize_real; [apply (inv_tree s Hs)|exact E].
Qed.

(** What the transaction writes. *)
Definition finished_record (id r json : string) (a b c : Z) (now : string) (s : CleanupState) : CleanupState :=
  with_records (update_where (fun row => rc_id row == id) (completed json a b c now) (record_cleanup s))
    (List.filter (fun i => negb (pi_id i == r)) (production_inspection s))
    (List.filter (fun d => negb (pd_inspection_id d == r)) (production_defect s))
    (List.filter (fun f => negb (cf_inspection_id f == r)) (capture_file s)) s.

Lemma inv_complete s id r m json a b c now row : Inv s -> plan_ok r m s -> Forall (fun e => is_settled e = true) (cm_entries m) ->
  row ∈ production_inspection s0 -> pi_id row = r ->
  Inv (finished_record id r json a b c now s) /\ Guar s (finished_record id r json a b c now s).
Proof.
  intros Hs Hp Hset Hrow Hid. set (s' := finished_record id r json a b c now s).
  assert (HG : Guar s s').
  { split; [done|done| |].
    - intros x. unfold s', finished_record. simpl. rewrite elem_filter. by intros [].
    - by eapply (owned_update id (completed json a b c now)). }
  assert (Hforgot : forgotten r s').
  { intros x. unfold s', finished_record. simpl. rewrite elem_filter, negb_true_iff, str_eqb_false. by intros []. }
  split; [|done]. pose proof (plan_artifacts_gone s r m row Hs Hp Hset Hrow Hid) as Hgone. pose proof (inv_stats s Hs) as Hst.
  destruct Hs as [H1 H2 H3 H4 H5 H6 H7 H8 H9 H10 H11 H12].
  split; [exact H1|exact H2|exact H3|exact H4|exact H5| | | |exact H9| | | ].
  - intros x. unfold s', finished_record. simpl. rewrite elem_filter. intros []. auto.
  - intros x. unfold s', finished_record. simpl. rewrite elem_filter. intros []. auto.
  - intros f Hf. destruct (H8 f Hf) as [Hin|Hg]; [|right; by eapply forgotten_mono].
    destruct (decide (cf_inspection_id f = r)) as [->|Hne]; [by right|left]. unfold s', finished_record. simpl.
    apply elem_filter. split; [done|]. by rewrite negb_true_iff, str_eqb_false.
  - unfold s', finished_record. simpl. by rewrite update_ids.
  - intros x Hx. unfold s', finished_record in Hx. simpl in Hx. apply elem_update_where in Hx as (y & Hy & ->).
    destruct (_ == _); [by left|]. destruct (H11 y Hy) as [|]; [by left|right]. by eapply stored_mono.
  - intros x Hx Hf. eapply artifacts_gone_mono; [done..|]. destruct (decide (pi_id x = r)) as [->|Hne]; [done|].
    apply H12; [done|]. intros y Hy E. apply (Hf y); [|done]. unfold s', finished_record. simpl. apply elem_filter.
    split; [done|]. rewrite negb_true_iff, str_eqb_false. congruence.
Qed.

Lemma ens_complete l id r m json a b c :
  (forall s, l s -> plan_ok r m s) -> Forall (fun e => is_settled e = true) (cm_entries m) ->
  Ensures l (complete_record_cleanup id r json a b c) (on_ok (fun _ _ => True)).
Proof.
  intros Hp Hset. eapply ens_try; [apply ens_find_inspection|]. intros [row|] l1 Hl1 Hrow; [|apply ens_err].
  eapply ensures_bind; [apply ens_clock|]. intros now l2 Hl2 _. apply ens_statement; [intros _; apply stable_pure|].
  intros s x s' Hs Hl E. cbv zeta in E. do 2 (case_match; [done|]). injection E as <- <-.
  destruct (Hrow s ltac:(auto 20) row eq_refl) as [Hin Hid]. apply and_assoc. split; [|done].
  apply (inv_complete s id r m json a b c now row); auto 20.
Qed.

Lemma ens_execute_persisted l cleanup : (forall s, l s -> loaded cleanup s) ->
  Ensures l (execute_persisted_cleanup cleanup) (on_ok (fun _ _ => True)).
Proof.
  intros Hk. apply ensures_knowing. intros s1 _ Hs1. destruct (Hk s1 Hs1) as [(m & Hm & _) _].
  unfold execute_persisted_cleanup. eapply ens_try; [apply ens_roots|]. intros roots l1 Hl1 Hroots.
  unfold parse_manifest. rewrite Hm. destruct (cm_schema m != CLEANUP_SCHEMA); cbn [try_bind prog_bind]; [apply ens_err|].
  eapply (ens_try _ _ _ (fun m' _ => m' = m)); [by apply ens_ok|]. intros m' l2 Hl2 Em. apply ensures_knowing. intros s2 _ Hs2.
  rewrite (Em s2 Hs2). specialize (Hroots s2 (Hl2 s2 Hs2)). destruct (_ != _); [apply ens_err|].
  assert (Hp : forall s, l2 s -> owned (rc_id cleanup) (rc_record_id cleanup) s /\ plan_ok (rc_record_id cleanup) m s).
  { intros s Hs. destruct (Hk s ltac:(auto 20)) as [(m0 & Hm0 & Hp) Ho]. split; [done|]. by simplify_eq. }
  eapply ens_try; [apply (ens_execute_entries _ _ (rc_record_id cleanup)); [done|done|]|].
  { intros s Hs. simpl. destruct m. by apply Hp. }
  intros m2 l3 Hl3 Hm2. apply ensures_knowing. intros s3 _ Hs3. destruct (Hm2 s3 Hs3) as (Hp3 & Hset & _).
  eapply ens_try; [apply (ens_remove_directories _ (rc_record_id cleanup)); [apply Hp3|done|]|].
  { apply Forall_rev. apply Hp3. }
  intros u l4 Hl4 _. destruct (manifest_counts m2) as [[fd fm] bd].
  eapply ens_try; [apply (ens_complete _ _ _ m2); [|done]|].
  { intros s Hs. apply (Hm2 s). auto. }
  intros x l5 _ _. by apply ens_ok.
Qed.

(** ** Requests *)

Lemma ens_unresolved l session_id : Ensures l (count_unresolved_tasks session_id)
  (on_ok (fun n _ => n = count_where (unresolved session_id) (task_rows s0))).
Proof. apply ens_select; [intros n; apply stable_pure|]. intros s Hs _. by rewrite (inv_tasks s Hs). Qed.

Lemma ens_roots_for_planning l : Ensures l configured_roots_for_planning (on_ok (fun text _ => text = allowed_roots_text)).
Proof. eapply ens_try; [apply ens_roots|]. intros roots l1 _ _. by apply ens_ok. Qed.

Lemma ens_execute_record l record_id actor reason :
  Ensures l (execute_record_artifact_cleanup record_id actor reason) (on_ok (fun _ _ => True)).
Proof.
  unfold execute_record_artifact_cleanup. eapply ens_try; [apply ens_map_error, ens_latest|]. intros [cleanup|] l1 Hl1 Hrow.
  { apply ens_map_error, ens_execute_persisted. intros s Hs. by apply (Hrow s Hs cleanup). }
  eapply ens_try; [apply ens_map_error, ens_find_detail|]. intros [d|] l2 Hl2 Hd; [|apply ens_err].
  eapply ens_try; [apply ens_map_error, ens_unresolved|]. intros n l3 Hl3 Hn. destruct (n >? 0) eqn:En; [apply ens_err|].
  eapply ens_try; [apply ens_map_error, ens_roots_for_planning|]. intros text l4 Hl4 Htext.
  apply ensures_knowing. intros s4 _ Hs4. rewrite (Htext s4 Hs4).
  assert (Hd4 : forall s, l4 s -> detail_ok record_id d s) by (intros s Hs; by apply (Hd s); auto).
  eapply ens_try; [by apply ens_map_error, (ens_build_manifest _ record_id)|]. intros m l5 Hl5 Hm.
  destruct (record_cache_root world_cache_root record_id) as [root|e] eqn:Eroot;
    (eapply (ens_try _ _ _ (fun r _ => Ok r = record_cache_root world_cache_root record_id));
     [apply ens_map_error, ensures_ret; intros s _; by rewrite Eroot|]); intros root' l6 Hl6 Hroot;
    apply ensures_knowing; intros s6 _ Hs6; specialize (Hroot s6 Hs6); rewrite Eroot in Hroot; [|done].
  injection Hroot as ->. eapply ens_try; [apply ens_map_error, (ens_append_cache_tree _ record_id m); [done|]|].
  { intros s Hs. by apply (Hm s); auto. }
  intros m' l7 Hl7 Hm'. destruct (manifest_plan_counts m') as [files_planned bytes_planned].
  destruct (Hd4 s4 Hs4) as ((Hrow1 & Hid & Hses & _) & _).
  destruct (Hm s6 ltac:(auto 20)) as (_ & _ & ses & Eses & Efin). destruct (Hses ses Eses) as [Hses1 Hses2].
  assert (Hel : eligible record_id).
  { exists (inspection (record d)), ses. split_and!; try done. specialize (Hn s4 ltac:(auto 20)). rewrite <- Hn.
    assert (0 <= n); [rewrite Hn; unfold count_where; lia|]. rewrite Z.gtb_ltb in En. apply Z.ltb_ge in En. lia. }
  eapply ens_try; [apply ens_map_error, (ens_create_or_load _ _ m'); [done|]|].
  { intros s Hs. simpl. rewrite Hid. split; [done|]. by apply Hm'. }
  intros cleanup l8 Hl8 Hc. apply ens_map_error, ens_execute_persisted. exact Hc.
Qed.

Lemma ens_append_audit l actor action target detail level : Ensures l (append_audit actor action target detail level) (fun _ _ => True).
Proof.
  eapply ensures_bind; [apply ens_clock|]. intros nanos l1 _ _. eapply ensures_bind; [apply ens_clock|]. intros now l2 _ _.
  eapply ensures_weaken; [apply (ens_statement _ _ (fun _ _ => True)); [intros _; apply stable_pure|]|done].
  intros s a s' Hs _ E. destruct (existsb _ _); [done|]. injection E as <- <-.
  assert (HG : Guar s (with_audits (audit_rows s ++ [mkAuditRow ("AUD-" +:+ nanos) actor action target detail level now]) s))
    by by apply guar_frame.
  split; [by apply (inv_frame s)|done].
Qed.

Lemma ens_candidates l cutoff rows : Ensures l (retention_candidates cutoff rows) (on_ok (fun _ _ => True)).
Proof.
  revert l. induction rows as [|row rows IH]; intros l; cbn [retention_candidates]; [by apply ens_ok|].
  destruct (_ || _); [apply IH|]. eapply ens_try; [by apply (ens_select _ _ (fun _ _ => True)); [intros _; apply stable_pure|]|].
  intros found l1 _ _. eapply ens_try; [apply IH|]. intros ids l2 _ _. by apply ens_ok.
Qed.

Lemma ens_cutoff l days : Ensures l (inspection_record_retention_cutoff days) (fun _ _ => True).
Proof. eapply ensures_bind; [apply ens_clock|]. intros now l1 _ _. by apply ensures_ret. Qed.

Lemma ens_ids_before l days : Ensures l (inspection_record_ids_before days) (on_ok (fun _ _ => True)).
Proof.
  eapply ensures_bind; [apply ens_cutoff|]. intros cutoff l1 _ _.
  eapply ens_try; [by apply (ens_select _ _ (fun _ _ => True)); [intros _; apply stable_pure|]|]. intros rows l2 _ _. apply ens_candidates.
Qed.

Lemma ens_preview l ids r : Ensures l (preview_retention allowed_roots_text ids r) (fun _ _ => True).
Proof.
  revert l r. induction ids as [|id ids IH]; intros l r; cbn [preview_retention]; [by apply ensures_ret|].
  eapply ensures_bind; [apply ens_find_detail|]. intros [[d|]|e] l1 _ Hd; [|apply IH..].
  eapply ensures_bind; [apply (ens_build_manifest _ id); intros s Hs; by apply (Hd s Hs d)|]. intros [m|e] l2 Hl2 Hm; [|apply IH].
  destruct (record_cache_root world_cache_root id) as [root|e] eqn:Eroot; [|apply IH].
  eapply ensures_bind; [apply (ens_append_cache_tree _ id); [done|intros s Hs; by apply (Hm s)]|]. intros [m'|e] l3 _ _; [|apply IH].
  destruct (manifest_plan_counts m'). apply IH.
Qed.

Lemma ens_purge l actor ids r : Ensures l (purge_retention actor ids r) (fun _ _ => True).
Proof.
  revert l r. induction ids as [|id ids IH]; intros l r; cbn [purge_retention]; [by apply ensures_ret|].
  eapply ensures_bind; [apply ens_execute_record|]. intros [x|[e cleanup_id]] l1 _ _; apply IH.
Qed.

Lemma ens_retry l body actor : Ensures l (retry_record_cleanup_response body actor) (fun _ _ => True).
Proof.
  unfold retry_record_cleanup_response. destruct (filter_opt _ _) as [id|]; [|by apply ensures_ret].
  eapply ensures_bind; [apply ens_find_cleanup|]. intros [[cleanup|]|e] l1 _ Hc; [|by apply ensures_ret..].
  destruct (String.eqb_spec (rc_status cleanup) "completed") as [|Hne]; [by apply ensures_ret|].
  eapply ensures_bind; [apply ens_execute_persisted; intros s Hs; by apply (Hc s Hs cleanup)|].
  intros [x|e] l2 _ _; [|by apply ensures_ret].
  eapply ensures_bind; [apply ens_append_audit|]. intros a l3 _ _. by apply ensures_ret.
Qed.

Lemma ens_delete l query actor :
  Ensures l (delete_admin_record_response query actor) (fun a _ => a = None <-> query_value query "id" = None).
Proof.
  unfold delete_admin_record_response. destruct (query_value query "id") as [[id|]|]; [|by apply ensures_ret..].
  destruct (is_empty (trim id)); [by apply ensures_ret|]. eapply ensures_bind; [apply ens_execute_record|].
  intros [x|[e cleanup_id]] l1 _ _; [|by apply ensures_ret].
  eapply ensures_bind; [apply ens_append_audit|]. intros a l3 _ _. by apply ensures_ret.
Qed.

Lemma ens_retention l body actor : Ensures l (apply_record_retention_response body actor) (fun _ _ => True).
Proof.
  unfold apply_record_retention_response. destruct (json_parse (trim body)) as [payload|]; [|by apply ensures_ret].
  destruct (match or_else _ _ with Some v => as_u64 v | None => None end) as [days|]; [|by apply ensures_ret].
  destruct (negb _); [by apply ensures_ret|]. eapply ensures_bind; [apply ens_cutoff|]. intros cutoff l1 _ _.
  eapply ensures_bind; [apply ens_ids_before|]. intros [ids|e] l2 _ _; [|by apply ensures_ret].
  set (dry := unwrap_or _ true). eapply (ensures_bind _ _ _ _ _ (fun _ _ => True)).
  - destruct dry.
    + eapply ensures_bind; [apply ens_roots_for_planning|]. intros [text|e] l3 _ Ht; [|by apply ensures_ret].
      apply ensures_knowing. intros s _ Hs. rewrite (Ht s Hs). eapply ensures_bind; [apply ens_preview|]. intros r l4 _ _. by apply ensures_ret.
    + eapply ensures_bind; [apply ens_purge|]. intros r l4 _ _. by apply ensures_ret.
  - intros [r|response] l3 _ _; [|by apply ensures_ret]. eapply ensures_bind; [apply ens_append_audit|]. intros a l4 _ _. by apply ensures_ret.
Qed.

(** The thread of a request ends without an answer when the decoder of its query panics, and only then. *)
Definition decoder_panics (r : CleanupRequest) : Prop :=
  match r with ReadCleanup query | DeleteRecord query _ => query_value query "id" = None | _ => False end.

Lemma ens_program r : Ensures (fun _ => True) (cleanup_program r) (fun a _ => a = None <-> decoder_panics r).
Proof.
  destruct r as [query|body actor|query actor|body actor]; cbn [cleanup_program decoder_panics].
  - unfold read_record_cleanup_response. destruct (query_value query "id") as [id|]; [|by apply ensures_ret].
    destruct (filter_opt _ id); [|by apply ensures_ret]. eapply ensures_bind; [apply ens_find_cleanup|]. intros r l1 _ _. by apply ensures_ret.
  - eapply ensures_bind; [apply ens_retry|]. intros r l1 _ _. by apply ensures_ret.
  - apply ens_delete.
  - eapply ensures_bind; [apply ens_retention|]. intros r l1 _ _. by apply ensures_ret.
Qed.

(** The start: the plans left from before are completed ones. *)
Hypothesis cleanups0 : NoDup (map rc_id (record_cleanup s0)) /\ Forall (fun row => rc_status row = "completed") (record_cleanup s0).

Lemma cleanup_inv_start : Inv s0.
Proof.
  destruct cleanups0 as [Hn Hc]. rewrite Forall_forall in Hc. split; try done.
  - intros p [node Hp] E. congruence.
  - intros f Hf. by left.
  - intros row Hr. left. by apply Hc.
  - intros row Hr Hf. by destruct (Hf row Hr).
Qed.

Lemma cleanup_reachable pool : rtc (pool_step cleanup_program) (mkPool s0 []) pool ->
  Inv (shared pool) /\
  Forall (fun t => snd t <> Panicked /\ forall a, snd t = Ret a -> a = None <-> decoder_panics (fst t)) (threads pool).
Proof. intros Hr. eapply (rg_reachable _ _ _ (fun r a => a = None <-> decoder_panics r)); [apply cleanup_inv_start|apply ens_program|exact Hr]. Qed.

End Guarantees.

(** ** The theorems *)

(** What a start must be like: a well-formed tree no deeper than the fuel of the cache walk, primary keys
    that are keys, and no plan left open. *)
Record start_ok `{CleanupEnv} (s : CleanupState) : Prop := {
  so_tree : tree_ok (files s);
  so_fuel : (0 < depth_fuel)%nat;
  so_depth : forall p, is_Some (files s !! p) -> (length p < depth_fuel)%nat;
  so_inspections : NoDup (map pi_id (production_inspection s));
  so_ids : NoDup (map rc_id (record_cleanup s));
  so_cleanups : Forall (fun row => rc_status row = "completed") (record_cleanup s);
}.

(** C25. Only what is expendable is deleted. From a start with no plan left open: however many deletions,
    retries, retention runs and queries run at the same time, and whatever operation of the file system or
    the database fails or loses its answer, the files never become anything but fewer; a file that is gone
    was referred to by a record of a finished session without open tasks, lies below a configured directory
    and below no maintenance, calibration, configuration or profile directory; a directory that is gone
    belonged to the cache of such a record; symbolic links are never removed. No request panics in the work
    itself, and the walk over the cache ends; a thread ends without an answer exactly when the decoder of
    its query panics, which [cleanup_program] writes as the answer [None], before it has done anything. *)
Theorem cleanup_deletes_only_expendable `{CleanupEnv} `{JsonCodec} `{!CleanupEnvLaws _} (s0 : CleanupState)
    (pool : @Pool CleanupState (option string) CleanupRequest) :
  start_ok s0 -> rtc (pool_step cleanup_program) (mkPool s0 []) pool ->
  files (shared pool) ⊆ files s0 /\
  (forall p, is_Some (files s0 !! p) -> files (shared pool) !! p = None -> expendable s0 p) /\
  Forall (fun t => snd t <> Panicked /\ forall a, snd t = Ret a -> a = None <-> decoder_panics (fst t)) (threads pool).
Proof.
  intros [] Hr. destruct (cleanup_reachable s0) with pool as [Hi Hp]; try done.
  split_and!; [apply (inv_files _ _ Hi)|apply (inv_removed _ _ Hi)|done].
Qed.

(** C26. A record is forgotten only when nothing is left of it. Whatever requests run at the same time and
    whatever fails: when the row of a record has been deleted, a file it named (a capture, its metadata, a
    summary) by a reference that is neither blank nor a URL cannot be reached any more, however the paths
    were written and through whatever links. Three things are supposed: from the start on no plan is open; no
    question whether a path exists failed on the way; and no reference and no file name has a backslash in
    it. The last is needed: the plan keeps one entry per [path_key], which turns slashes into backslashes. *)
Theorem forgotten_records_leave_no_files `{CleanupEnv} `{JsonCodec} `{!CleanupEnvLaws _} (s0 : CleanupState)
    (pool : @Pool CleanupState (option string) CleanupRequest) (row : ProductionInspection) (raw : string) :
  start_ok s0 -> plain_names s0 -> rtc (pool_step cleanup_program) (mkPool s0 []) pool ->
  row ∈ production_inspection s0 -> forgotten (pi_id row) (shared pool) ->
  stat_failures (shared pool) = stat_failures s0 -> artifact_of s0 (pi_id row) raw ->
  is_blank raw = false -> contains "://" raw = false ->
  fs_canonicalize cwd (files (shared pool)) raw = None.
Proof.
  intros [] Hplain Hr Hrow Hf Hstat Hraw Hb Hu. destruct (cleanup_reachable s0) with pool as [Hi _]; try done.
  exact (inv_forgotten _ _ Hi row Hrow Hf Hplain Hstat raw Hraw Hb Hu).
Qed.
