(* ===== verification/CleanupResume.v ===== *)
(** * Carrying out a plan of deletion

    A file of the plan is deleted only as it was planned: whatever happened to the disk since, and whatever
    fails, size and hash of what is deleted are those of the plan.

    From every state in which the plan of a record can be carried out, a retry in which no operation fails
    deletes what is left of the plan, empties and removes the cache directories, deletes the rows and
    marks the plan completed. Files that an earlier attempt deleted without recording it are found missing. *)

From S2P Require Import Prelude Json Http Db Concurrent FileTree Cleanup.
From Stdlib Require Import Ascii.

(** ** Runs in which nothing goes wrong *)

Section Unless.
Context {S : Type} (bad : S -> Prop).

(** Wherever a program that runs alone ends without having been in a bad state, [Q] holds; it does end. *)
Fixpoint unless {A} (Q : S -> A -> Prop) (s : S) (p : Prog S A) : Prop :=
  match p with
  | Ret a => Q s a
  | Panicked => False
  | Step section k => match section s with Some (b, s') => bad s' \/ unless Q s' (k b) | None => False end
  | Choose k => forall b, unless Q s (k b)
  end.

Lemma unless_bind {A B} (m : Prog S A) (f : A -> Prog S B) Q s :
  unless (fun s' a => unless Q s' (f a)) s m -> unless Q s (prog_bind m f).
Proof.
  revert s. induction m as [a| |C section k IH|C k IH]; intros s Hm; unfold prog_bind; simpl in *; fold (@prog_bind S A B); [done|done| |auto].
  destruct (section s) as [[b s']|]; [|done]. destruct Hm as [|Hm]; [by left|right]. auto.
Qed.

Lemma unless_mono {A} (p : Prog S A) (Q Q' : S -> A -> Prop) s :
  (forall s' a, Q s' a -> Q' s' a) -> unless Q s p -> unless Q' s p.
Proof.
  intros HQ. revert s. induction p as [a| |C section k IH|C k IH]; intros s Hp; simpl in *; [auto|done| |auto].
  destruct (section s) as [[b s']|]; [|done]. destruct Hp as [|Hp]; [by left|right]. auto.
Qed.

Lemma unless_atomically {A} (section : S -> A * S) Q s :
  Q (snd (section s)) (fst (section s)) -> unless Q s (atomically section).
Proof. intros HQ. unfold atomically. simpl. destruct (section s) as [b s']. by right. Qed.

(** A bad state has been reached, or the program went as [Q] says. *)
Lemma unless_runs {A} (p : Prog S A) (Q : S -> A -> Prop) s s' a : unless Q s p -> runs s p s' (Ret a) ->
  Q s' a \/ exists s1 p1, runs s p s1 p1 /\ bad s1.
Proof.
  intros Hp Hr. remember (Ret a) as last eqn:E. revert Hp E. induction Hr as [s p|s p s1 p1 s2 p2 Hstep _ IH]; intros Hp E.
  - subst p. by left.
  - assert (Hcase : bad s1 \/ unless Q s1 p1).
    { destruct Hstep as [s C section k b s1 Es|s C k b]; simpl in Hp; [by rewrite Es in Hp|right; apply Hp]. }
    destruct Hcase as [Hb|Hu]; [right; exists s1, p1; split; [|done]; eapply RunsOn; [done|apply RunsHere]|].
    destruct (IH Hu E) as [|(s3 & p3 & Hr & Hb)]; [by left|right]. exists s3, p3. split; [|done]. by eapply RunsOn.
Qed.
End Unless.

#[global] Arguments unless : simpl never.

Section Resume.
Context `{CleanupEnv} `{JsonCodec}.

(** The failures counted at the start. *)
Variable f0 : Z.
Definition failed (s : CleanupState) : Prop := failures s <> f0.

(** The same state a number of questions later. *)
Definition at_tick (n : nat) (s : CleanupState) : CleanupState :=
  mkCleanupState (files s) (record_cleanup s) (production_inspection s) (production_defect s) (capture_file s)
    (session_rows s) (task_rows s) (audit_rows s) (failures s) (stat_failures s) n.

Definition later (s s' : CleanupState) : Prop := exists n, s' = at_tick n s.

Lemma later_refl s : later s s.
Proof. exists (ticks s). by destruct s. Qed.

Lemma later_trans s1 s2 s3 : later s1 s2 -> later s2 s3 -> later s1 s3.
Proof. intros [n ->] [m ->]. by exists m. Qed.

Abbreviation Unless := (unless failed).

(** ** Operations *)

Lemma un_ask {A} (answer : nat -> A) Q s : failures s = f0 ->
  (forall a, Q (with_tick s) a) -> Unless Q s (ask answer).
Proof. intros _ HQ. apply unless_atomically. apply HQ. Qed.

Lemma un_attempt n Q s : failures s = f0 -> (forall s', later s s' -> Q s' None) -> Unless Q s (attempt n).
Proof.
  intros Hf HQ. apply unless_bind, un_ask; [done|]. intros [message|]; [|apply HQ; by exists (S (ticks s))].
  apply unless_bind. unfold unless, updating, atomically. left. unfold failed. simpl. lia.
Qed.

Lemma un_read {A} (f : Tree -> option A) Q s a : failures s = f0 -> f (files s) = Some a ->
  (forall s', later s s' -> Q s' (Ok a)) -> Unless Q s (fs_read f).
Proof.
  intros Hf E HQ. apply unless_bind, un_attempt; [done|]. intros s1 [n ->]. apply unless_bind, unless_atomically. simpl.
  rewrite E. apply HQ. by exists n.
Qed.

Lemma un_metadata text Q s : failures s = f0 -> (forall s', later s s' -> Q s' (stat cwd (files s) text)) ->
  Unless Q s (metadata_of text).
Proof.
  intros Hf HQ. apply unless_bind, un_attempt; [done|]. intros s1 [n ->]. apply unless_atomically. simpl. apply HQ. by exists n.
Qed.

Lemma un_exists text Q s : failures s = f0 -> (forall s', later s s' -> Q s' (is_some (stat cwd (files s) text))) ->
  Unless Q s (path_exists text).
Proof. intros Hf HQ. apply unless_bind, un_metadata; [done|]. intros s' Hs'. by apply HQ. Qed.

Lemma un_statement {A} (f : CleanupState -> Result (A * CleanupState) string) Q s : failures s = f0 ->
  (forall s1 a s2, f s1 = Ok (a, s2) -> failures s2 = failures s1) ->
  (forall s', later s s' -> match f s' with Ok (a, s2) => Q s2 (Ok a) | Err e => Q s' (Err e) end) -> Unless Q s (statement f).
Proof.
  intros Hf Hk HQ. apply unless_bind, un_ask; [done|].
  assert (Hl : later s (with_tick s)) by by exists (S (ticks s)). specialize (HQ _ Hl).
  intros [|message|message].
  - apply unless_atomically. destruct (f (with_tick s)) as [[a s2]|e]; exact HQ.
  - apply unless_bind. unfold unless, updating, atomically. left. unfold failed. simpl. lia.
  - apply unless_bind. unfold unless, updating, atomically. left. unfold failed. simpl.
    destruct (f (with_tick s)) as [[a s2]|e] eqn:E; [apply Hk in E|]; simpl in *; lia.
Qed.

Lemma un_select {A} (f : CleanupState -> A) Q s : failures s = f0 ->
  (forall s', later s s' -> Q s' (Ok (f s'))) -> Unless Q s (select f).
Proof. intros Hf HQ. apply un_statement; [done|intros s1 a s2 [= _ <-]; done|]. intros s' Hs'. by apply HQ. Qed.

Lemma un_clock Q s : failures s = f0 -> (forall s' now, later s s' -> Q s' now) -> Unless Q s clock.
Proof. intros Hf HQ. apply unless_bind, un_ask; [done|]. intros now. apply HQ. by exists (S (ticks s)). Qed.

(** The question mark on an answer that is no error. *)
Lemma un_try {A B E} (m : Cleanup (Result A E)) (f : A -> Cleanup (Result B E)) Q s :
  Unless (fun s' r => exists a, r = Ok a /\ Unless Q s' (f a)) s m -> Unless Q s (try_bind m f).
Proof. intros Hm. apply unless_bind. eapply unless_mono; [|exact Hm]. by intros s' r (a & -> & Ha). Qed.

Lemma un_map_error {A E F} (g : E -> F) (m : Cleanup (Result A E)) Q s :
  Unless (fun s' r => exists a, r = Ok a /\ Q s' (Ok a)) s m -> Unless Q s (map_error g m).
Proof. intros Hm. apply unless_bind. eapply unless_mono; [|exact Hm]. by intros s' r (a & -> & Ha). Qed.

(** ** Plans that can be carried out *)

Definition is_done (e : CleanupEntry) : bool := one_of (ce_status e) ["deleted"; "missing"].

(** A file as it was planned. *)
Definition present (roots : list Path) (t : Tree) (e : CleanupEntry) : Prop :=
  exists p content, ce_path e = display p /\ t !! p = Some (NFile content) /\ file_len content = ce_size_bytes e /\
    sha256 content = ce_sha256 e /\ within roots p = true.
(** A file that is not there, in a directory that is. *)
Definition absent (roots : list Path) (t : Tree) (e : CleanupEntry) : Prop :=
  fs_canonicalize cwd t (ce_path e) = None /\
  exists parent d, parent_components (ce_path e) = Some parent /\ canonical_from MAXSYMLINKS t [] parent = Some d /\
    is_dir_at t d = true /\ within roots d = true.

Definition entry_ready (roots : list Path) (t : Tree) (e : CleanupEntry) : Prop :=
  is_done e = true \/
  (ce_status e <> "rejected" /\ is_absolute (ce_path e) = true /\ is_forbidden_maintenance_path (ce_path e) = false /\
   (present roots t e \/ absent roots t e)).

Definition dir_ready (roots : list Path) (t : Tree) (text : string) : Prop :=
  exists p, text = display p /\ Forall name_ok p /\ (fs_canonicalize cwd t text = None \/ t !! p = Some NDir) /\
    is_forbidden_maintenance_path text = false /\ within roots p = true.

(** In the order of removal, a directory holds nothing but directories that come before it and files of the plan. *)
Definition dirs_closed (t : Tree) (entries : list CleanupEntry) (order : list string) : Prop :=
  forall before p after name node, order = before ++ display p :: after -> t !! (p ++ [name]) = Some node ->
    (node = NDir /\ display (p ++ [name]) ∈ before) \/
    (exists content e, node = NFile content /\ e ∈ entries /\ is_done e = false /\ ce_path e = display (p ++ [name])).

Record ready (roots : list Path) (t : Tree) (m : CleanupManifest) : Prop := {
  rd_tree : tree_ok t;
  rd_roots : Forall (fun root => is_dir_at t root = true) roots;
  rd_entries : Forall (entry_ready roots t) (cm_entries m);
  rd_dirs : Forall (dir_ready roots t) (cm_directories m);
  rd_closed : dirs_closed t (cm_entries m) (rev (cm_directories m));
}.

(** *** Deleting a file of the plan *)

Lemma gone_after_delete t p : tree_ok t -> is_real t p -> p <> [] -> tree_ok (delete p t) ->
  fs_canonicalize cwd (delete p t) (display p) = None.
Proof.
  intros Hok Hr Hne Hok'. destruct (fs_canonicalize cwd (delete p t) (display p)) as [q|] eqn:E; [|done].
  pose proof (canonicalize_real _ _ _ _ Hok' E) as Hq. pose proof (canonicalize_mono _ _ _ _ _ (delete_subseteq t p) E) as Hq'.
  rewrite canonicalize_display in Hq' by done. injection Hq' as <-. apply real_node in Hq as (node & En & _); [|done].
  by rewrite lookup_delete_eq in En.
Qed.

Lemma starts_with_parent root p name : path_starts_with (p ++ [name]) root = true -> root <> p ++ [name] ->
  path_starts_with p root = true.
Proof.
  revert p. induction root as [|a root IH]; intros p; [by destruct p|]. destruct p as [|b p]; simpl.
  - rewrite andb_true_iff, str_eqb_true. intros [-> Hr] Hne. destruct root; [done|by destruct name].
  - rewrite !andb_true_iff, str_eqb_true. intros [-> Hr] Hne. split; [done|]. apply IH; [done|]. congruence.
Qed.

Lemma within_parent roots t p name content : Forall (fun root => is_dir_at t root = true) roots ->
  t !! (p ++ [name]) = Some (NFile content) -> within roots (p ++ [name]) = true -> within roots p = true.
Proof.
  intros Hroots Hf. unfold within. rewrite !existsb_exists. intros (root & Hin & Hs). exists root. split; [done|].
  apply (starts_with_parent root p name); [done|]. intros ->. rewrite Forall_forall in Hroots.
  assert (Hd : is_dir_at t (p ++ [name]) = true) by by apply Hroots, list_elem_of_In.
  apply is_dir_lookup in Hd; [congruence|by destruct p].
Qed.

Lemma absent_after_delete roots t p e content : tree_ok t -> Forall (fun root => is_dir_at t root = true) roots ->
  t !! p = Some (NFile content) -> tree_ok (delete p t) -> ce_path e = display p -> within roots p = true ->
  absent roots (delete p t) e.
Proof.
  intros Hok Hroots Hp Hok' Epath Hw. assert (Hne : p <> []) by (intros ->; rewrite (proj1 Hok) in Hp; done).
  assert (Hr : is_real t p) by (destruct p; [done|right; by exists content]).
  pose proof (real_names t p Hok Hr) as Hn. destruct (exists_last Hne) as (d & name & ->).
  split; [rewrite Epath; by apply gone_after_delete|].
  destruct (tree_ok_parent t d name Hok Hr) as [_ Hd]. exists d, d. rewrite Epath. split_and!.
  - unfold parent_components. rewrite components_display by done. destruct (d ++ [name]) eqn:E; [by destruct d|].
    rewrite <- E. by rewrite removelast_last.
  - eapply canonical_from_fileless; [done| |done]. apply (canonical_from_down MAXSYMLINKS t [] d); [done|]. by apply is_dir_real.
  - destruct d as [|a d]; [done|]. rewrite is_dir_lookup in Hd |- * by done. rewrite lookup_delete_ne; [done|]. intros E. rewrite E in Hp. congruence.
  - by eapply within_parent.
Qed.

Lemma entry_ready_delete roots t p e content : tree_ok t -> Forall (fun root => is_dir_at t root = true) roots ->
  t !! p = Some (NFile content) -> tree_ok (delete p t) -> entry_ready roots t e -> entry_ready roots (delete p t) e.
Proof.
  intros Hok Hroots Hp Hok' [|(Hst & Ha & Hf & Hpres)]; [by left|right]. split_and!; try done.
  destruct Hpres as [(q & c & Eq & Hq & H1 & H2 & H3)|(Hg & parent & d & H1 & H2 & H3 & H4)].
  - destruct (decide (q = p)) as [->|Hne]; [right; by eapply absent_after_delete|left].
    exists q, c. split_and!; try done. by rewrite lookup_delete_ne.
  - right. split; [eapply canonicalize_gone; [apply delete_subseteq|done]|]. exists parent, d. split; [exact H1|]. split; [exact (canonical_from_fileless _ _ _ _ _ _ _ Hp H2 H3)|]. split; [|exact H4].
    destruct d as [|a d]; [done|]. rewrite is_dir_lookup in H3 |- * by done. rewrite lookup_delete_ne; [done|]. congruence.
Qed.

(** ** Carrying out an entry *)

Lemma stat_display t p node : tree_ok t -> t !! p = Some node -> (node = NDir \/ exists c, node = NFile c) ->
  stat cwd t (display p) = Some node.
Proof.
  intros Hok Hp Hn. assert (Hne : p <> []) by (intros ->; rewrite (proj1 Hok) in Hp; done).
  unfold stat. rewrite canonicalize_display; [by destruct p|done|]. destruct p; [done|].
  destruct Hn as [->|[c ->]]; [by left|right; by exists c].
Qed.

Lemma un_is_file p content Q s : failures s = f0 -> tree_ok (files s) -> files s !! p = Some (NFile content) ->
  (forall s', later s s' -> Q s' true) -> Unless Q s (path_is_file p).
Proof.
  intros Hf Hok Hp HQ. apply unless_bind, un_metadata; [done|]. intros s' Hs'. rewrite (stat_display _ p (NFile content)); eauto.
  by apply HQ.
Qed.

Lemma un_is_dir p Q s : failures s = f0 -> tree_ok (files s) -> is_dir_at (files s) p = true ->
  (forall s', later s s' -> Q s' true) -> Unless Q s (path_is_dir p).
Proof.
  intros Hf Hok Hp HQ. apply unless_bind, un_metadata; [done|]. intros s' Hs'. destruct p as [|a p]; [by apply HQ|].
  rewrite (stat_display _ (a :: p) NDir); [by apply HQ|done| |by left]. by apply is_dir_lookup.
Qed.

Lemma un_canonicalize text p Q s : failures s = f0 -> fs_canonicalize cwd (files s) text = Some p ->
  (forall s', later s s' -> Q s' (Ok p)) -> Unless Q s (canonicalize text).
Proof. intros Hf E HQ. by eapply un_read. Qed.

Lemma file_real t p content : tree_ok t -> t !! p = Some (NFile content) -> is_real t p.
Proof. intros Hok Hp. destruct p; [done|right; by exists content]. Qed.

Lemma un_find_present roots p content Q s : failures s = f0 -> tree_ok (files s) -> files s !! p = Some (NFile content) ->
  within roots p = true -> is_forbidden_maintenance_path (display p) = false ->
  (forall s', later s s' -> Q s' (Ok (Some p))) -> Unless Q s (canonical_file_within_roots (display p) roots).
Proof.
  intros Hf Hok Hp Hw Hforb HQ. unfold canonical_file_within_roots. rewrite display_absolute, Hforb. cbn [negb orb].
  apply unless_bind, un_exists; [done|]. intros s1 [n1 ->]. rewrite (stat_display _ p (NFile content)); eauto. cbn [is_some negb].
  apply un_try, un_map_error. eapply un_canonicalize; [done|by eapply canonicalize_display, file_real|].
  intros s2 [n2 ->]. eexists. split; [done|]. eexists. split; [done|]. rewrite Hw. cbn [negb].
  apply unless_bind. eapply un_is_file; [done..|]. intros s3 [n3 ->]. cbn [negb]. apply HQ. by exists n3.
Qed.

Lemma un_find_absent roots e Q s : failures s = f0 -> is_absolute (ce_path e) = true ->
  is_forbidden_maintenance_path (ce_path e) = false -> absent roots (files s) e ->
  (forall s', later s s' -> Q s' (Ok None)) -> Unless Q s (canonical_file_within_roots (ce_path e) roots).
Proof.
  intros Hf Ha Hforb (Hg & parent & d & Hpar & Hd & _ & Hw) HQ. unfold canonical_file_within_roots. rewrite Ha, Hforb. cbn [negb orb].
  apply unless_bind, un_exists; [done|]. intros s1 [n1 ->]. unfold stat. rewrite Hg. cbn [is_some negb]. rewrite Hpar.
  apply un_try, un_map_error. eapply un_read; [done|exact Hd|]. intros s2 [n2 ->]. eexists. split; [done|]. eexists. split; [done|].
  rewrite Hw. apply HQ. by exists n2.
Qed.

(** What deleting planned files does to the tree. *)
Definition thinned (t t' : Tree) : Prop := t' = t \/ exists p content, t !! p = Some (NFile content) /\ t' = delete p t.

Lemma un_execute_entry roots e Q s : failures s = f0 -> tree_ok (files s) ->
  Forall (fun root => is_dir_at (files s) root = true) roots -> entry_ready roots (files s) e ->
  (forall s' e' t', later (with_files t' s) s' -> thinned (files s) t' -> tree_ok t' -> is_done e' = true -> ce_path e' = ce_path e ->
     (is_done e = false -> fs_canonicalize cwd t' (ce_path e) = None) -> Q s' (Ok e')) ->
  Unless Q s (execute_entry e roots).
Proof.
  intros Hf Hok Hroots Hready HQ. unfold execute_entry. change (one_of (ce_status e) ["deleted"; "missing"]) with (is_done e).
  destruct (is_done e) eqn:Ed.
  { apply (HQ s e (files s)); try done; [destruct s; apply later_refl|by left]. }
  destruct Hready as [|(Hst & Habs & Hforb & Hpres)]; [congruence|]. rewrite (proj2 (str_eqb_false _ _) Hst).
  destruct Hpres as [(p & content & Ep & Hp & Hlen & Hsha & Hw)|Habsent].
  - rewrite Ep in *. apply un_try. eapply un_find_present; [done..|]. intros s1 [n1 ->]. eexists. split; [done|].
    apply un_try, un_map_error. eapply un_read; [done|cbn [files at_tick]; rewrite (stat_display _ p (NFile content)); eauto|].
    intros s2 [n2 ->]. eexists. split; [done|]. eexists. split; [done|]. rewrite Hlen, Z.eqb_refl. cbn [negb].
    apply un_try. unfold sha256_file. apply un_try, un_map_error.
    eapply un_read; [done|cbn [files at_tick]; rewrite (stat_display _ p (NFile content)); eauto|].
    intros s3 [n3 ->]. eexists. split; [done|]. eexists. split; [done|]. apply unless_bind, un_attempt; [done|].
    intros s4 [n4 ->]. eexists. split; [done|]. rewrite Hsha, String.eqb_refl. cbn [negb].
    apply un_try, un_map_error. unfold fs_remove. apply unless_bind, un_attempt; [done|]. intros s5 [n5 ->].
    destruct (remove_file (files s) p) as [t|] eqn:Er; [|unfold remove_file in Er; by rewrite Hp in Er].
    apply unless_bind, unless_atomically. cbn [files at_tick]. rewrite Er. cbn [fst snd]. eexists. split; [done|]. eexists. split; [done|].
    apply remove_file_ok in Er as (-> & Hok' & _); [|done].
    apply (HQ _ _ (delete p (files s))); try done; [by exists n5|right; by exists p, content|].
    intros _. apply gone_after_delete; try done; [by eapply file_real|]. intros ->. by rewrite (proj1 Hok) in Hp.
  - apply un_try. eapply un_find_absent; [done..|]. intros s1 [n1 ->]. eexists. split; [done|].
    apply (HQ _ _ (files s)); try done; [exists n1; by destruct s|by left|]. intros _. apply Habsent.
Qed.

(** ** Recording progress *)

(** The tables a deletion depends on. *)
Record kept (s s' : CleanupState) : Prop := {
  k_failures : failures s' = failures s;
  k_inspections : production_inspection s' = production_inspection s;
  k_cleanups : map rc_id (record_cleanup s') = map rc_id (record_cleanup s);
}.

Lemma kept_trans s1 s2 s3 : kept s1 s2 -> kept s2 s3 -> kept s1 s3.
Proof. intros [] []. split; congruence. Qed.

Lemma kept_later s t s' : later (with_files t s) s' -> kept s s'.
Proof. by intros [n ->]. Qed.

Lemma existsb_ids (rows rows' : list RecordCleanup) id : map rc_id rows' = map rc_id rows ->
  existsb (fun row => rc_id row == id) rows' = existsb (fun row => rc_id row == id) rows.
Proof.
  revert rows'. induction rows as [|r rows IH]; intros [|r' rows'] E; try done. simpl in *. injection E as -> E. by rewrite IH.
Qed.

Lemma un_progress id status m error Q s : failures s = f0 -> existsb (fun row => rc_id row == id) (record_cleanup s) = true ->
  (forall s' row, kept s s' -> files s' = files s -> Q s' (Ok row)) -> Unless Q s (record_progress id status m error).
Proof.
  intros Hf Hid HQ. unfold record_progress. destruct (manifest_counts m) as [[a b] c]. apply un_try, un_select; [done|].
  intros s1 [n1 ->]. simpl. destruct (List.find _ _) as [model|] eqn:Ef.
  - eexists. split; [done|]. apply unless_bind, un_clock; [done|]. intros s2 now [n2 ->]. apply un_statement; [done|..].
    + intros x y z E. simpl in E. case_match; [|done]. by injection E as _ <-.
    + intros s3 [n3 ->]. simpl. rewrite Hid. apply HQ; [|done]. split; [done|done|]. simpl. unfold update_where. rewrite map_map.
      apply map_ext. intros row. by destruct (_ == _).
  - apply existsb_exists in Hid as (row & Hin & Hr). pose proof (find_none _ _ Ef row Hin) as Hn. simpl in Hn. congruence.
Qed.

Lemma un_execute_entries roots id m rest : forall front Q s, failures s = f0 ->
  existsb (fun row => rc_id row == id) (record_cleanup s) = true -> tree_ok (files s) ->
  Forall (fun root => is_dir_at (files s) root = true) roots -> Forall (entry_ready roots (files s)) rest ->
  (forall s' m', kept s s' -> rtc thinned (files s) (files s') -> tree_ok (files s') -> cm_directories m' = cm_directories m ->
     (forall e, e ∈ rest -> is_done e = false -> fs_canonicalize cwd (files s') (ce_path e) = None) -> Q s' (Ok m')) ->
  Unless Q s (execute_entries roots id m front rest).
Proof.
  induction rest as [|e rest IH]; intros front Q s Hf Hid Hok Hroots Hready HQ; cbn [execute_entries].
  { apply HQ; [by split|done..| |]; [done|]. intros e He. by apply not_elem_of_nil in He. }
  apply Forall_cons in Hready as [He Hrest]. apply unless_bind. eapply un_execute_entry; [done..|].
  intros s1 e' t1 Hl Hthin Hok1 Hdone Epath Hgone. pose proof (kept_later _ _ _ Hl) as Hk1. destruct Hl as [n1 ->].
  apply un_try. apply un_progress; [done|done|]. intros s2 row Hk2 Ef2. simpl in Ef2. eexists. split; [done|].
  pose proof (kept_trans _ _ _ Hk1 Hk2) as Hk.
  assert (Hroots1 : Forall (fun root => is_dir_at t1 root = true) roots).
  { destruct Hthin as [->|(p & c & Hp & ->)]; [done|]. eapply Forall_impl; [exact Hroots|]. intros [|a root]; [done|].
    rewrite !is_dir_lookup by done. intros E. rewrite lookup_delete_ne; congruence. }
  assert (Hrest1 : Forall (entry_ready roots t1) rest).
  { destruct Hthin as [->|(p & c & Hp & ->)]; [done|]. eapply Forall_impl; [exact Hrest|]. intros x. by eapply entry_ready_delete. }
  apply IH.
  - rewrite (k_failures _ _ Hk). done.
  - by rewrite (existsb_ids (record_cleanup s)) by apply (k_cleanups _ _ Hk).
  - by rewrite Ef2.
  - by rewrite Ef2.
  - by rewrite Ef2.
  - intros s' m' Hk' Hthin' Hok' Edirs Hg. apply HQ; [by eapply kept_trans| |done|done|].
    + rewrite Ef2 in Hthin'. by eapply rtc_l.
    + intros x [->|Hx]%elem_of_cons Hd; [|by apply Hg]. eapply canonicalize_gone; [|by apply Hgone].
      assert (Hsub : forall t t', rtc thinned t t' -> t' ⊆ t).
      { induction 1 as [|t a b [->|(p & c & _ & ->)] _ IHr]; [done|done|]. etrans; [exact IHr|apply delete_subseteq]. }
      rewrite <- Ef2. by apply Hsub.
Qed.

(** ** Removing the directories *)

Lemma dir_real t p : t !! p = Some NDir -> is_real t p.
Proof. intros Hp. destruct p; [done|by left]. Qed.

Lemma no_children t p : (forall name node, t !! (p ++ [name]) = Some node -> False) -> children t p = [].
Proof.
  intros Hn. destruct (children t p) as [|[name node] rest] eqn:E; [done|]. destruct (Hn name node).
  apply children_elem. rewrite E. by left.
Qed.

(** The first directory of the order is empty, and without it the rest is in order. *)
Lemma closed_head t p order : dirs_closed t [] (display p :: order) -> children t p = [].
Proof.
  intros Hc. apply no_children. intros name node E. destruct (Hc [] p order name node eq_refl E) as [[_ Hin]|(c & e & _ & He & _)].
  - by apply not_elem_of_nil in Hin.
  - by apply not_elem_of_nil in He.
Qed.

Lemma closed_tail t t' text order : t' ⊆ t -> tree_ok t' ->
  (forall p, display p = text -> t' !! p = Some NDir -> Forall name_ok p -> False) ->
  dirs_closed t [] (text :: order) -> dirs_closed t' [] order.
Proof.
  intros Hsub Hok Hgone Hc before p after name node -> E. pose proof (lookup_weaken _ _ _ _ E Hsub) as E0.
  destruct (Hc (text :: before) p after name node eq_refl E0) as [[-> Hin]|(c & e & _ & He & _)]; [left|by apply not_elem_of_nil in He].
  split; [done|]. apply elem_of_cons in Hin as [Hd|Hin]; [|done]. destruct (Hgone _ Hd E).
  eapply real_names; [exact Hok|]. by apply dir_real.
Qed.

Lemma dir_ready_delete roots t p q : tree_ok t -> tree_ok (delete p t) -> t !! p = Some NDir ->
  dir_ready roots t q -> dir_ready roots (delete p t) q.
Proof.
  intros Hok Hok' Hp (d & Ed & Hn & Hex & Hf & Hw). exists d. split; [done|]. split; [done|]. split; [|done].
  destruct Hex as [Hg|Hd]; [left; eapply canonicalize_gone; [apply delete_subseteq|done]|].
  destruct (decide (d = p)) as [->|Hne]; [left|right; by rewrite lookup_delete_ne].
  rewrite Ed. apply gone_after_delete; [done|by apply dir_real| |done]. intros ->. rewrite (proj1 Hok) in Hp. done.
Qed.

Lemma un_remove_directories roots order : forall Q s, failures s = f0 -> tree_ok (files s) -> Forall (dir_ready roots (files s)) order ->
  dirs_closed (files s) [] order ->
  (forall s', kept s s' -> files s' ⊆ files s -> (forall d, d ∈ order -> fs_canonicalize cwd (files s') d = None) -> Q s' (Ok tt)) ->
  Unless Q s (remove_directories roots order).
Proof.
  induction order as [|text order IH]; intros Q s Hf Hok Hready Hclosed HQ; cbn [remove_directories].
  { apply HQ; [by split|done|]. intros d Hd. by apply not_elem_of_nil in Hd. }
  apply Forall_cons in Hready as [(p & Ep & Hn & Hex & Hforb & Hw) Hrest]. apply unless_bind, un_exists; [done|].
  intros s1 [n1 ->]. destruct Hex as [Hg|Hp].
  - unfold stat. rewrite Hg. cbn [is_some negb]. apply IH; [done|done|done| |].
    + eapply (closed_tail (files s) (files s) text); [done|done| |done]. intros q Eq Hq _. rewrite <- Eq in Hg.
      rewrite canonicalize_display in Hg; [done|done|by apply dir_real].
    + intros s' Hk Hsub Hgone. apply HQ; [eapply kept_trans; [|exact Hk]; by split|done|].
      intros d [->|Hd]%elem_of_cons; [|by apply Hgone]. eapply canonicalize_gone; [exact Hsub|done].
  - subst text. rewrite (stat_display _ p NDir); [|done|done|by left]. cbn [is_some negb].
    apply un_try, un_map_error. eapply un_canonicalize; [done|apply canonicalize_display; [done|by apply dir_real]|].
    intros s2 [n2 ->]. eexists. split; [done|]. eexists. split; [done|].
    apply unless_bind, un_is_dir; [done|done|apply is_dir_lookup; [|done]; intros ->; by rewrite (proj1 Hok) in Hp|].
    intros s3 [n3 ->]. rewrite Hforb, Hw. cbn [negb orb]. apply un_try, un_map_error. unfold fs_remove.
    apply unless_bind, un_attempt; [done|]. intros s4 [n4 ->].
    destruct (remove_dir (files s) p) as [t|] eqn:Er; [|unfold remove_dir in Er; by rewrite Hp, (closed_head _ _ _ Hclosed) in Er].
    apply unless_bind, unless_atomically. cbn [files at_tick]. rewrite Er. cbn [fst snd]. eexists. split; [done|]. eexists. split; [done|].
    apply remove_dir_ok in Er as (-> & Hok' & _ & _); [|done].
    assert (Hgone0 : fs_canonicalize cwd (delete p (files s)) (display p) = None).
    { apply gone_after_delete; [done|by apply dir_real| |done]. intros ->. by rewrite (proj1 Hok) in Hp. }
    apply IH; [done|done| | |].
    + cbn [files with_files]. eapply Forall_impl; [exact Hrest|]. intros q. by apply dir_ready_delete.
    + cbn [files with_files]. eapply (closed_tail (files s) _ (display p)); [apply delete_subseteq|done| |done].
      intros q Eq Hq _. rewrite <- Eq in Hgone0. rewrite canonicalize_display in Hgone0; [done|done|by apply dir_real].
    + intros s' Hk Hsub Hgone. apply HQ; [eapply kept_trans; [|exact Hk]; by split| |].
      * etrans; [exact Hsub|apply delete_subseteq].
      * intros d [->|Hd]%elem_of_cons; [|by apply Hgone]. eapply canonicalize_gone; [exact Hsub|done].
Qed.

(** ** Roots *)

Lemma un_collect_roots rest : forall roots Q s, failures s = f0 -> tree_ok (files s) ->
  Forall (fun root => is_dir_at (files s) root = true) rest ->
  NoDup (map (fun root => path_key (display root)) (roots ++ rest)) ->
  (forall s', later s s' -> Q s' (Ok (roots ++ rest))) -> Unless Q s (collect_roots (map display rest) roots).
Proof.
  induction rest as [|root rest IH]; intros roots Q s Hf Hok Hdirs Hn HQ; cbn [map collect_roots].
  { rewrite app_nil_r in HQ. apply HQ, later_refl. }
  apply Forall_cons in Hdirs as [Hd Hdirs]. rewrite display_absolute. cbn [negb]. apply un_try, un_map_error.
  eapply un_canonicalize; [done|apply canonicalize_display; [done|by apply is_dir_real]|]. intros s1 [n1 ->].
  eexists. split; [done|]. eexists. split; [done|]. apply unless_bind, un_is_dir; [done..|]. intros s2 [n2 ->]. cbn [negb].
  destruct (existsb _ roots) eqn:Ex.
  - apply existsb_exists in Ex as (x & Hx & E%str_eqb_true). exfalso. rewrite map_app in Hn. apply NoDup_app in Hn as (_ & Hn & _).
    apply (Hn (path_key (display x))); [apply list_elem_of_fmap; exists x; by rewrite list_elem_of_In|]. simpl. rewrite E. by left.
  - apply IH; [done|done|done|by rewrite <- app_assoc|]. intros s' [n ->]. rewrite <- app_assoc. apply HQ. by exists n.
Qed.

(** ** Completion *)

Lemma find_none_filter {A} (f : A -> bool) l : List.find f l = None -> List.filter f l = [].
Proof. induction l as [|x l IH]; [done|]. simpl. destruct (f x); [done|apply IH]. Qed.

Lemma un_complete id r json a b c Q s : failures s = f0 ->
  count_where (fun i => pi_id i == r) (production_inspection s) = 1 ->
  existsb (fun row => rc_id row == id) (record_cleanup s) = true ->
  (forall s' x, files s' = files s -> (forall row, row ∈ production_inspection s' -> pi_id row <> r) ->
     (forall row, row ∈ record_cleanup s' -> rc_id row = id -> rc_status row = "completed") -> Q s' (Ok x)) ->
  Unless Q s (complete_record_cleanup id r json a b c).
Proof.
  intros Hf Hcount Hid HQ. apply un_try, un_select; [done|]. intros s1 [n1 ->]. simpl.
  destruct (List.find _ _) as [row|] eqn:Ef.
  - eexists. split; [done|]. apply unless_bind, un_clock; [done|]. intros s2 now [n2 ->]. apply un_statement; [done|..].
    + intros x y z E. cbv zeta in E. do 2 (case_match; [done|]). by injection E as _ <-.
    + intros s3 [n3 ->]. cbv zeta. simpl. rewrite Hcount. simpl. rewrite Hid. simpl. apply HQ; [done|..].
      * simpl. intros x Hx. rewrite list_elem_of_In, filter_In in Hx. destruct Hx as [_ Hx]. by rewrite negb_true_iff, str_eqb_false in Hx.
      * simpl. intros x Hx. unfold update_where in Hx. apply list_elem_of_fmap in Hx as (y & -> & _).
        destruct (String.eqb_spec (rc_id y) id); done.
  - exfalso. unfold count_where in Hcount. apply find_none_filter in Ef. by rewrite Ef in Hcount.
Qed.

End Resume.

(** ** The theorem *)

(** A plan in the database that can be carried out: its text is the manifest of its record, every file of it is
    as planned or already gone, and its directories hold nothing else. *)
Record resumable `{CleanupEnv} (s : CleanupState) (cleanup : RecordCleanup) (m : CleanupManifest) (roots : list Path) : Prop := {
  rs_manifest : manifest_read (rc_manifest_json cleanup) = Some m;
  rs_schema : cm_schema m = CLEANUP_SCHEMA;
  rs_record : cm_record_id m = rc_record_id cleanup;
  rs_row : existsb (fun row => rc_id row == rc_id cleanup) (record_cleanup s) = true;
  rs_inspection : count_where (fun i => pi_id i == rc_record_id cleanup) (production_inspection s) = 1;
  rs_roots : split_byte (ascii_of_nat 58) allowed_roots_text = map display roots;
  rs_keys : NoDup (map (fun root => path_key (display root)) roots);
  rs_ready : ready roots (files s) m;
}.

(** What is left when a deletion is complete. *)
Record carried_out `{CleanupEnv} (cleanup : RecordCleanup) (m : CleanupManifest) (s : CleanupState) : Prop := {
  co_files : forall e, e ∈ cm_entries m -> is_done e = false -> fs_canonicalize cwd (files s) (ce_path e) = None;
  co_directories : forall d, d ∈ cm_directories m -> fs_canonicalize cwd (files s) d = None;
  co_inspection : forall row, row ∈ production_inspection s -> pi_id row <> rc_record_id cleanup;
  co_plan : forall row, row ∈ record_cleanup s -> rc_id row = rc_id cleanup -> rc_status row = "completed";
}.

Lemma thinned_dirs t t' q : rtc thinned t t' -> t !! q = Some NDir -> t' !! q = Some NDir.
Proof.
  induction 1 as [|t a b [->|(p & c & Hp & ->)] _ IH]; [done|done|]. intros Hq. apply IH. rewrite lookup_delete_ne; congruence.
Qed.

Lemma thinned_sub t t' : rtc thinned t t' -> t' ⊆ t.
Proof. induction 1 as [|t a b [->|(p & c & _ & ->)] _ IH]; [done|done|]. etrans; [exact IH|apply delete_subseteq]. Qed.

(** After the files only directories are left in the directories. *)
Lemma closed_without_files `{CleanupEnv} t t' entries order : rtc thinned t t' -> tree_ok t' -> dirs_closed t entries order ->
  (forall e, e ∈ entries -> is_done e = false -> fs_canonicalize cwd t' (ce_path e) = None) -> dirs_closed t' [] order.
Proof.
  intros Ht Hok Hc Hgone before p after name node E El. pose proof (lookup_weaken _ _ _ _ El (thinned_sub _ _ Ht)) as El0.
  destruct (Hc before p after name node E El0) as [|(c & e & -> & He & Hd & Ep)]; [by left|]. exfalso.
  specialize (Hgone e He Hd). rewrite Ep, canonicalize_display in Hgone; [done|done|by eapply file_real].
Qed.

(** C27. An interrupted deletion can be finished. From every state in which the plan of a record can be
    carried out (each file of it unchanged since it was planned, or gone, whether or not an earlier attempt
    got to record that), an attempt that runs alone either meets an operation that fails or comes to an
    end: with success, every file and directory of the plan gone, the record deleted and the plan
    marked completed. *)
Theorem interrupted_cleanup_resumes `{CleanupEnv} `{JsonCodec} (s : CleanupState) (cleanup : RecordCleanup)
    (m : CleanupManifest) (roots : list Path) :
  resumable s cleanup m roots ->
  unless (fun s' => failures s' <> failures s) (fun s' r => is_ok r = true /\ carried_out cleanup m s')
    s (execute_persisted_cleanup cleanup).
Proof.
  intros [Hm Hschema Hrec Hrow Hins Hroots Hkeys [Hok Hdirs Hent Hdready Hclosed]].
  unfold execute_persisted_cleanup. apply un_try. unfold configured_allowed_roots, canonical_allowed_roots_from_text.
  apply un_try. rewrite Hroots. apply un_collect_roots; [done|done|done|done|]. intros s1 [n1 ->]. eexists. split; [done|].
  rewrite app_nil_l. destruct roots as [|root roots']; [|set (roots := root :: roots') in *].
  { simpl in Hroots. destruct allowed_roots_text; simpl in Hroots; [done|]. by repeat case_match. }
  eexists. split; [done|]. apply un_try. unfold parse_manifest. rewrite Hm, Hschema, String.eqb_refl. cbn [negb].
  eexists. split; [done|]. rewrite Hrec, String.eqb_refl. cbn [negb]. apply un_try.
  apply un_execute_entries; [done..|]. intros s2 m' Hk Hthin Hok2 Edirs Hgone. eexists. split; [done|].
  assert (Hready2 : Forall (dir_ready roots (files s2)) (rev (cm_directories m'))).
  { rewrite Edirs. apply Forall_rev. eapply Forall_impl; [exact Hdready|]. intros d (p & Ep & Hn & Hex & Hf & Hw).
    exists p. split; [done|]. split; [done|]. split; [|done].
    destruct Hex as [Hg|Hd]; [left; eapply canonicalize_gone; [by apply thinned_sub|done]|right; by eapply thinned_dirs]. }
  apply un_try. apply un_remove_directories; [by rewrite (k_failures _ _ Hk)|done|done| |].
  { rewrite Edirs. by eapply closed_without_files. }
  intros s3 Hk3 Hsub3 Hgone3. eexists. split; [done|]. destruct (manifest_counts m') as [[fd fm] bd].
  pose proof (kept_trans _ _ _ Hk Hk3) as Hk'. apply un_try. apply un_complete.
  - rewrite (k_failures _ _ Hk'). done.
  - rewrite (k_inspections _ _ Hk'). done.
  - by rewrite (existsb_ids (record_cleanup s)) by apply (k_cleanups _ _ Hk').
  - intros s4 x Ef Hi Hc. eexists. split; [done|]. split; [done|]. split; [| |exact Hi|exact Hc]; rewrite Ef.
    + intros e He Hd. eapply canonicalize_gone; [exact Hsub3|]. by apply Hgone.
    + intros d Hd. apply Hgone3. rewrite Edirs. rewrite list_elem_of_In, <- in_rev, <- list_elem_of_In. done.
Qed.

(** ** A file is deleted as it was planned *)

Section Exact.
Context `{CleanupEnv} `{JsonCodec}.

Lemma al_ask {A} (answer : nat -> A) Q s : (forall s' a, files s' = files s -> Q s' a) -> alone Q s (ask answer).
Proof. intros HQ. unfold alone, ask, atomically. by apply HQ. Qed.

Lemma al_attempt n Q s : (forall s' r, files s' = files s -> Q s' r) -> alone Q s (attempt n).
Proof.
  intros HQ. apply alone_bind, al_ask. intros s1 [message|] E; [|by apply HQ]. apply alone_bind. unfold alone, updating, atomically.
  by apply HQ.
Qed.

Lemma al_read {A} (f : Tree -> option A) Q s : (forall s' r, files s' = files s -> (forall a, r = Ok a -> f (files s) = Some a) -> Q s' r) ->
  alone Q s (fs_read f).
Proof.
  intros HQ. apply alone_bind, al_attempt. intros s1 [message|] E1; [by apply HQ|]. apply alone_bind. unfold reading, atomically.
  unfold alone at 1. rewrite E1. destruct (f (files s)) as [a|] eqn:Ef; [apply HQ; [done|by intros ? [= <-]]|].
  apply alone_bind, al_ask. intros s2 message E2. apply HQ; [congruence|done].
Qed.

Lemma al_metadata text Q s : (forall s' r, files s' = files s -> (forall node, r = Some node -> stat cwd (files s) text = Some node) -> Q s' r) ->
  alone Q s (metadata_of text).
Proof.
  intros HQ. apply alone_bind, al_attempt. intros s1 [message|] E1; [by apply HQ|]. unfold reading, atomically, alone. simpl.
  rewrite E1. by apply HQ.
Qed.

Lemma al_map_error {A E F} (g : E -> F) (m : Cleanup (Result A E)) Q s :
  alone (fun s' r => match r with Ok a => Q s' (Ok a) | Err e => forall e', Q s' (Err e') end) s m -> alone Q s (map_error g m).
Proof. intros Hm. apply alone_bind. eapply alone_mono; [|exact Hm]. intros s' [a|e] Ha; [exact Ha|apply Ha]. Qed.

Lemma al_try {A B E} (m : Cleanup (Result A E)) (f : A -> Cleanup (Result B E)) Q s :
  alone (fun s' r => match r with Ok a => alone Q s' (f a) | Err e => Q s' (Err e) end) s m -> alone Q s (try_bind m f).
Proof. intros Hm. apply alone_bind. eapply alone_mono; [|exact Hm]. by intros s' [a|e] Ha. Qed.

(** A file that was found is where the path leads, inside the directories, and regular. *)
Definition found (path : string) (roots : list Path) (t : Tree) (r : Result (option Path) string) : Prop :=
  match r with
  | Ok (Some p) => fs_canonicalize cwd t path = Some p /\ within roots p = true /\ is_forbidden_maintenance_path path = false /\
                   exists content, stat cwd t (display p) = Some (NFile content)
  | _ => True
  end.

Lemma al_canonical_file path roots Q s : (forall s' r, files s' = files s -> found path roots (files s) r -> Q s' r) ->
  alone Q s (canonical_file_within_roots path roots).
Proof.
  intros HQ. unfold canonical_file_within_roots. destruct (negb (is_absolute path) || _) eqn:Ef; [by apply HQ|].
  apply orb_false_iff in Ef as [_ Ef]. apply alone_bind. apply alone_bind, al_metadata. intros s1 node E1 _.
  destruct (is_some node); cbn [negb].
  - apply al_try, al_map_error, al_read. intros s2 [p|e] E2 Hp; [|intros e'; apply HQ; [congruence|done]].
    destruct (within roots p) eqn:Ew; [cbn [negb]|apply HQ; [congruence|done]].
    apply alone_bind. apply alone_bind, al_metadata. intros s3 node' E3 Hn.
    destruct node' as [[content| |]|]; try (apply HQ; [congruence|done]). apply HQ; [congruence|].
    rewrite E2, E1 in Hn. specialize (Hp p eq_refl). rewrite E1 in Hp. split_and!; [exact Hp|done|done|]. exists content. by apply Hn.
  - destruct (parent_components path) as [parent|]; [|apply HQ; [congruence|done]].
    apply al_try, al_map_error, al_read. intros s2 [p|e] E2 _; [|intros e'; apply HQ; [congruence|done]].
    destruct (within roots p); apply HQ; try congruence; done.
Qed.

(** A file is deleted only as it was planned. Whatever has happened to the disk since the plan was made,
    and whatever operation fails: carrying out an entry leaves the files as they are, or it deletes
    exactly one, to which the path of the entry leads, with the size and the hash of the entry, below
    one of the given directories, the path of the entry touching no maintenance directory; and then the
    entry says so. *)
Theorem entry_deleted_as_planned (s : CleanupState) (e : CleanupEntry) (roots : list Path) :
  tree_ok (files s) ->
  alone (fun s' r =>
    files s' = files s \/
    exists p content, fs_canonicalize cwd (files s) (ce_path e) = Some p /\ files s !! p = Some (NFile content) /\
      file_len content = ce_size_bytes e /\ sha256 content = ce_sha256 e /\ within roots p = true /\
      is_forbidden_maintenance_path (ce_path e) = false /\ files s' = delete p (files s) /\ r = Ok (settled_entry "deleted" e))
    s (execute_entry e roots).
Proof.
  intros Hok. unfold execute_entry. destruct (one_of _ _); [by left|]. destruct (_ == "rejected"); [by left|].
  apply al_try, al_canonical_file. intros s1 [[p|]|error] E1 Hf; [|by left..]. destruct Hf as (Hp & Hw & Hforb & content & Hst).
  assert (Hfile : files s !! p = Some (NFile content)).
  { unfold stat in Hst. rewrite canonicalize_display in Hst; [|done|by eapply canonicalize_real]. by destruct p. }
  apply al_try, al_map_error, al_read. intros s2 [len|error] E2 Hlen; [|intros e'; left; congruence].
  assert (El : len = file_len content).
  { specialize (Hlen len eq_refl). rewrite E1, Hst in Hlen. by injection Hlen. }
  destruct (Z.eqb_spec len (ce_size_bytes e)) as [Esize|]; cbn [negb]; [|left; congruence].
  apply al_try. unfold sha256_file. apply al_try, al_map_error, al_read.
  intros s3 [content'|error] E3 Hc; [|intros e'; left; congruence].
  assert (content' = content) as ->. { specialize (Hc content' eq_refl). rewrite E2, E1, Hst in Hc. by injection Hc. }
  apply alone_bind, al_attempt. intros s4 [error|] E4; [left; congruence|].
  unfold alone at 1. cbv beta iota zeta. destruct (String.eqb_spec (sha256 content) (ce_sha256 e)) as [Esha|]; cbn [negb]; [|left; congruence].
  apply al_try, al_map_error. unfold fs_remove. apply alone_bind, al_attempt. intros s5 [error|] E5; [intros e'; left; congruence|].
  apply alone_bind. unfold atomically. unfold alone at 1. assert (E : files s5 = files s) by congruence. rewrite E.
  unfold remove_file. rewrite Hfile. right. exists p, content. split; [exact Hp|]. split; [exact Hfile|]. split; [congruence|]. split; [exact Esha|].
  by split_and!.
Qed.
End Exact.
