(* ===== verification/CleanupRuns.v ===== *)
(** * Deletions on a concrete disk

    A disk with two files, a record that refers to one of them, and runs of the requests on it: a
    deletion from end to end, and the histories in which the code does not do what it means to. *)

From S2P Require Import Prelude Json Http Db Concurrent RelyGuarantee FileTree Cleanup CleanupFacts CleanupResume.
From Stdlib Require Import Ascii.

Module CleanupRun.

(** ** A text form of manifests *)

Fixpoint write_text (s : string) : string :=
  match s with EmptyString => "." | String a rest => String "x" (String a (write_text rest)) end.

Fixpoint read_text (t : string) : option (string * string) :=
  match t with
  | String "." rest => Some ("", rest)
  | String "x" (String a rest) =>
      match read_text rest with Some (s, rest) => Some (String a s, rest) | None => None end
  | _ => None
  end.

Lemma read_write_text s rest : read_text (write_text s +:+ rest) = Some (s, rest).
Proof. induction s as [|a s IH]; [done|]. simpl. change (String.append (write_text s) rest) with (write_text s +:+ rest). by rewrite IH. Qed.

Fixpoint write_all (l : list string) : string := match l with [] => "" | s :: l => write_text s +:+ write_all l end.
Fixpoint read_all (fuel : nat) (t : string) : option (list string) :=
  match t, fuel with
  | EmptyString, _ => Some []
  | _, O => None
  | _, S fuel => match read_text t with
                 | Some (s, rest) => option_map (cons s) (read_all fuel rest)
                 | None => None
                 end
  end.

Lemma write_text_not_empty s rest : exists a t, write_text s +:+ rest = String a t.
Proof. destruct s; simpl; eauto. Qed.

Lemma read_write_all l : forall fuel, (String.length (write_all l) <= fuel)%nat -> read_all fuel (write_all l) = Some l.
Proof.
  induction l as [|s l IH]; intros fuel Hf; [by destruct fuel|]. cbn [write_all] in *.
  pose proof (read_write_text s (write_all l)) as Hr. destruct (write_text_not_empty s (write_all l)) as (a & t & E).
  rewrite E in *. destruct fuel as [|fuel]; [simpl in Hf; lia|]. cbn [read_all]. rewrite Hr. rewrite IH; [done|].
  assert (Hlen : String.length (write_text s +:+ write_all l) = (String.length (write_text s) + String.length (write_all l))%nat).
  { clear. induction (write_text s) as [|b u IHu]; [done|]. simpl. change (String.append u (write_all l)) with (u +:+ write_all l). by rewrite IHu. }
  rewrite E in Hlen. simpl in Hlen, Hf. assert (0 < String.length (write_text s))%nat; [destruct s; simpl; lia|]. lia.
Qed.

Definition entry_fields (e : CleanupEntry) : list string :=
  ["e"; ce_path e; ce_kind e; dec (ce_size_bytes e); ce_sha256 e; ce_status e; ce_error e].
Definition manifest_fields (m : CleanupManifest) : list string :=
  cm_schema m :: cm_record_id m :: cm_material_id m :: cm_session_id m ::
  concat (map entry_fields (cm_entries m)) ++ concat (map (fun d => ["d"; d]) (cm_directories m)).

Fixpoint read_items (l : list string) : option (list CleanupEntry * list string) :=
  match l with
  | [] => Some ([], [])
  | tag :: text :: rest =>
      if tag == "d" then option_map (fun '(es, ds) => (es, text :: ds)) (read_items rest)
      else match rest with
           | kind :: size :: hash :: status :: error :: rest =>
               match parse_unsigned u64_max size with
               | Some size => option_map (fun '(es, ds) => (mkCleanupEntry text kind size hash status error :: es, ds)) (read_items rest)
               | None => None
               end
           | _ => None
           end
  | _ => None
  end.

Definition read_manifest (t : string) : option CleanupManifest :=
  match read_all (String.length t) t with
  | Some (schema :: record_id :: material_id :: session_id :: items) =>
      option_map (fun '(es, ds) => mkCleanupManifest schema record_id material_id session_id es ds) (read_items items)
  | _ => None
  end.

Lemma read_directories ds : read_items (concat (map (fun d => ["d"; d]) ds)) = Some ([], ds).
Proof. induction ds as [|d ds IH]; [done|]. simpl in *. by rewrite IH. Qed.

Lemma read_entries es ds : Forall (fun e => 0 <= ce_size_bytes e <= u64_max) es ->
  read_items (concat (map entry_fields es) ++ concat (map (fun d => ["d"; d]) ds)) = Some (es, ds).
Proof.
  induction 1 as [|e es He _ IH]; [apply read_directories|]. cbn [map concat entry_fields app read_items].
  change ("e" == "d") with false. cbv iota. rewrite parse_unsigned_dec by done. rewrite IH. by destruct e.
Qed.

Lemma read_write_manifest m : sizes_fit m -> read_manifest (write_all (manifest_fields m)) = Some m.
Proof.
  intros Hm. unfold read_manifest. rewrite read_write_all by lia. unfold manifest_fields. rewrite read_entries by done. by destruct m.
Qed.

(** ** The disk *)

Definition disk : Tree :=
  {[ ["data"] := NDir; ["data"; "cam"] := NDir; ["data"; "cam"; "a.png"] := NFile "pixels"; ["data"; "keep.png"] := NFile "other" ]}.

(** SHA-256 is stood in for by a tag. *)
Definition sample_env (faults : nat -> option string) : CleanupEnv := {|
  cwd := [];
  allowed_roots_text := "/data";
  world_cache_root := "/cache";
  depth_fuel := 5;
  sha256 := fun content => "h" +:+ content;
  manifest_print := fun m => write_all (manifest_fields m);
  manifest_read := read_manifest;
  fault_at := faults;
  fate_at := fun _ => Works;
  time_at := Z.of_nat;
  text_at := fun _ => "No such file or directory (os error 2)";
  order_at := fun _ => [];
|}.

#[local] Instance sample_laws faults : CleanupEnvLaws (sample_env faults).
Proof. split; [by intros content|apply read_write_manifest]. Qed.

(** A codec for the bodies of the retry route: the text is the id. *)
#[local] Instance sample_codec : JsonCodec := {|
  json_print := fun _ => "";
  json_parse := fun text => Some (jobj [("cleanupId", JString text)]);
|}.

Definition f0 := SpecFloat.S754_zero false.
Definition session1 : MaterialSession := mkMaterialSession "S1" "M1" "" "finished" "" "" "" f0 f0 f0 "" "" "" "" "" "" "".
Definition record1 : ProductionInspection :=
  mkProductionInspection "R1" "M1" "S1" "finished" "" "" "0" "0" 1 0 "" "" "" "" "" false true "".
Definition file1 : CaptureFile := mkCaptureFile "F1" "R1" "S1" "M1" "C1" "" "" 0 "png" "/data/cam/a.png" "" "0".
Definition start : CleanupState := mkCleanupState disk [] [record1] [] [file1] [session1] [] [] 0 0 0.

(** *** A deletion *)

Definition smooth : CleanupEnv := sample_env (fun _ => None).
Definition delete_program {env : CleanupEnv} : Cleanup (option string) := cleanup_program (DeleteRecord "id=R1" "op").

Definition after_deletion : CleanupState :=
  match finish start (@delete_program smooth) with Some (_, s) => s | None => start end.

(** The file of the record is on the disk. *)
Definition file_left (s : CleanupState) : bool := is_some (files s !! ["data"; "cam"; "a.png"]).
Definition summary_of (s : CleanupState) : bool * list string * list (string * string) :=
  (file_left s, map pi_id (production_inspection s), map (fun row => (rc_status row, rc_error row)) (record_cleanup s)).

(** The surroundings in which the [n]-th question to the file system is answered with a failure. *)
Definition one_fault (n : nat) : CleanupEnv := sample_env (fun i => if (i =? n)%nat then Some "EIO" else None).

Definition state_of {A} (s : CleanupState) (r : option (A * CleanupState)) : CleanupState :=
  match r with Some (_, s') => s' | None => s end.

Definition retry_program (id : string) : Cleanup (option string) := @cleanup_program smooth _ (RetryCleanup id "op").
Definition retried (id : string) (s : CleanupState) : CleanupState := state_of s (finish s (retry_program id)).

(** *** The start is a start *)

Lemma disk_lookup p node : disk !! p = Some node ->
  p = ["data"] /\ node = NDir \/ p = ["data"; "cam"] /\ node = NDir \/
  p = ["data"; "cam"; "a.png"] /\ node = NFile "pixels" \/ p = ["data"; "keep.png"] /\ node = NFile "other".
Proof.
  unfold disk. rewrite !lookup_insert_Some, lookup_singleton_Some.
  intros [[<- <-]|[_ [[<- <-]|[_ [[<- <-]|[_ [<- <-]]]]]]]; auto 10.
Qed.

Lemma disk_ok : tree_ok disk.
Proof.
  split; [reflexivity|]. intros p name [node E%disk_lookup].
  assert (Hn : forall x, x ∈ ["data"; "cam"; "a.png"; "keep.png"] -> name_ok x).
  { intros x Hx. repeat (apply elem_of_cons in Hx as [->|Hx]; [by repeat split|]). by apply not_elem_of_nil in Hx. }
  destruct E as [[E _]|[[E _]|[[E _]|[E _]]]];
    [change ["data"] with ([] ++ ["data"]) in E|change ["data"; "cam"] with (["data"] ++ ["cam"]) in E
    |change ["data"; "cam"; "a.png"] with (["data"; "cam"] ++ ["a.png"]) in E|change ["data"; "keep.png"] with (["data"] ++ ["keep.png"]) in E];
    apply app_inj_tail in E as [-> ->]; (split; [apply Hn; set_solver|reflexivity]).
Qed.

Lemma start_is_ok faults : @start_ok (sample_env faults) start.
Proof.
  split; try done; [apply disk_ok|simpl; lia| |apply NoDup_singleton|apply NoDup_nil_2].
  intros p [node E]. apply disk_lookup in E as [[-> _]|[[-> _]|[[-> _]|[-> _]]]]; simpl; lia.
Qed.

(** A request that runs from end to end. *)
Definition one_request (env : CleanupEnv) (r : CleanupRequest) (s : CleanupState) : @Pool CleanupState (option string) CleanupRequest :=
  match finish s (@cleanup_program env _ r) with Some (a, s') => mkPool s' [(r, Ret a)] | None => mkPool s [] end.

Lemma one_request_reachable env r s :
  rtc (pool_step (@cleanup_program env _)) (mkPool s []) (one_request env r s).
Proof.
  unfold one_request. destruct (finish s (@cleanup_program env _ r)) as [[a s']|] eqn:E; [|reflexivity].
  eapply rtc_l; [apply (PoolStart _ _ _ r)|].
  exact (pool_runs _ s [(r, @cleanup_program env _ r)] 0 r _ s' _ eq_refl (finish_runs _ _ _ _ E)).
Qed.

Definition deletion : CleanupRequest := DeleteRecord "id=R1" "op".

(** The deletion of the record removes its file and nothing else. *)
Lemma cleanup_deletes_only_expendable_witness :
  files (shared (one_request smooth deletion start)) !! ["data"; "cam"; "a.png"] = None /\
  files (shared (one_request smooth deletion start)) !! ["data"; "keep.png"] = Some (NFile "other") /\
  @expendable smooth _ start ["data"; "cam"; "a.png"].
Proof.
  split; [vm_compute; reflexivity|]. split; [vm_compute; reflexivity|].
  apply (@cleanup_deletes_only_expendable smooth _ (sample_laws _) start (one_request smooth deletion start));
    [apply start_is_ok|apply one_request_reachable|vm_compute; by eexists|vm_compute; reflexivity].
Defined.

Lemma start_plain : @plain_names smooth _ start.
Proof.
  assert (Hart : forall r raw, artifact_of start r raw -> plain raw).
  { intros r raw [f Hf _|f Hf _|row Hrow _]; simpl in *; apply list_elem_of_singleton in Hf || apply list_elem_of_singleton in Hrow;
      subst; reflexivity. }
  split.
  - intros r raw [raw' Hr|row p content v path Hrow _ Hp|root d p _ _ _ Hp]; [by eapply Hart|..].
    + apply list_elem_of_singleton in Hrow as ->. discriminate Hp.
    + destruct Hp as [node E]. apply disk_lookup in E as [[-> _]|[[-> _]|[[-> _]|[-> _]]]]; reflexivity.
  - intros p [node E]. apply disk_lookup in E as [[-> _]|[[-> _]|[[-> _]|[-> _]]]]; repeat constructor; reflexivity.
Qed.

(** Afterwards the file the record named cannot be reached. *)
Lemma forgotten_records_leave_no_files_witness :
  file_left (shared (one_request smooth deletion start)) = false /\
  @fs_canonicalize [] (files (shared (one_request smooth deletion start))) "/data/cam/a.png" = None.
Proof.
  split; [vm_compute; reflexivity|].
  apply (@forgotten_records_leave_no_files smooth _ (sample_laws _) start (one_request smooth deletion start) record1 "/data/cam/a.png");
    [apply start_is_ok|apply start_plain|apply one_request_reachable|by apply list_elem_of_singleton| |vm_compute; reflexivity
    |by apply (ArtCapture start "R1" file1); [apply list_elem_of_singleton|]|reflexivity|reflexivity].
  intros row Hrow. replace (production_inspection _) with (@nil ProductionInspection) in Hrow by (vm_compute; reflexivity).
  by apply not_elem_of_nil in Hrow.
Defined.

(** *** An interrupted deletion *)

Definition planned_entry (status error : string) : CleanupEntry :=
  mkCleanupEntry "/data/cam/a.png" "capture" 6 "hpixels" status error.
Definition plan1 (status error : string) : CleanupManifest :=
  mkCleanupManifest CLEANUP_SCHEMA "R1" "M1" "S1" [planned_entry status error] [].
Definition cleanup1 : RecordCleanup :=
  mkRecordCleanup "CLEAN-20" "R1" "M1" "failed" "op" "manual-record-delete"
    (write_all (manifest_fields (plan1 "failed" "artifact delete failed: EIO"))) 1 0 0 6 0 "artifact delete failed: EIO" "19" "32" "".

(** The removal of the file failed; the plan is in the database. *)
Definition paused : CleanupState := mkCleanupState disk [cleanup1] [record1] [] [file1] [session1] [] [] 0 0 0.

Lemma paused_resumable : @resumable smooth paused cleanup1 (plan1 "failed" "artifact delete failed: EIO") [["data"]].
Proof.
  split; try (vm_compute; reflexivity).
  - apply NoDup_singleton.
  - split; [apply disk_ok|by constructor| |done|].
    + constructor; [|done]. right. split; [done|]. split; [done|]. split; [reflexivity|]. left.
      exists ["data"; "cam"; "a.png"], "pixels". repeat (split; [vm_compute; reflexivity|]). vm_compute. reflexivity.
    + intros before p after name node E. by destruct before.
Qed.

(** The next attempt finishes it, if nothing fails. *)
Lemma interrupted_cleanup_resumes_witness :
  unless (fun s' => failures s' <> failures paused)
    (fun s' r => is_ok r = true /\ @carried_out smooth cleanup1 (plan1 "failed" "artifact delete failed: EIO") s')
    paused (@execute_persisted_cleanup smooth cleanup1).
Proof. apply (@interrupted_cleanup_resumes smooth sample_codec paused cleanup1 _ [["data"]]), paused_resumable. Defined.

Definition after_entry : CleanupState :=
  state_of start (finish start (@execute_entry smooth (planned_entry "planned" "") [["data"]])).

Lemma entry_runs : finish start (@execute_entry smooth (planned_entry "planned" "") [["data"]]) =
  Some (Ok (planned_entry "deleted" ""), after_entry).
Proof. vm_compute. reflexivity. Qed.

Lemma entry_deleted_as_planned_witness : tree_ok (files start) /\ file_left after_entry = false /\
  (files after_entry = files start \/ files after_entry = delete ["data"; "cam"; "a.png"] (files start)).
Proof.
  split; [apply disk_ok|]. split; [vm_compute; reflexivity|].
  destruct (alone_runs _ _ _ _ _ (@entry_deleted_as_planned smooth start (planned_entry "planned" "") [["data"]] disk_ok)
    (finish_runs _ _ _ _ entry_runs)) as [|(p & content & Hp & _ & _ & _ & _ & _ & Hd & _)]; [by left|right].
  assert (Hq : fs_canonicalize [] disk "/data/cam/a.png" = Some ["data"; "cam"; "a.png"]) by (vm_compute; reflexivity).
  change (fs_canonicalize [] disk "/data/cam/a.png" = Some p) in Hp. rewrite Hq in Hp. injection Hp as <-. exact Hd.
Defined.

(** ** Where the code does not do what it means to *)

(** A failed question whether a file exists counts as the answer no: the deletion reports success and
    deletes the record, and the file stays behind with nothing that refers to it. *)
Theorem failed_question_orphans_file : exists s a,
  runs start (@cleanup_program (one_fault 24) _ deletion) s (Ret a) /\
  summary_of s = (true, [], [("completed", "")]).
Proof.
  destruct (finish start (@cleanup_program (one_fault 24) _ deletion)) as [[a s]|] eqn:E; [|vm_compute in E; discriminate].
  exists s, a. split; [by apply finish_runs|]. vm_compute in E. injection E as _ <-. vm_compute. reflexivity.
Qed.

(** Two files of a record whose paths differ in a slash and a backslash have one key, so the plan names the
    first only. Nothing fails, the deletion reports success and the record is deleted; the second file stays. *)
Definition folded : CleanupState :=
  mkCleanupState (<[ ["data"; "cam\a.png"] := NFile "more" ]> disk) [] [record1] []
    [file1; mkCaptureFile "F2" "R1" "S1" "M1" "C2" "" "" 0 "png" "/data/cam\a.png" "" "0"] [session1] [] [] 0 0 0.

Theorem folded_names_orphan_a_file : exists s a,
  runs folded (@cleanup_program smooth _ deletion) s (Ret a) /\ summary_of s = (false, [], [("completed", "")]) /\
  stat_failures s = stat_failures folded /\ files s !! ["data"; "cam\a.png"] = Some (NFile "more").
Proof.
  destruct (finish folded (@cleanup_program smooth _ deletion)) as [[a s]|] eqn:E; [|vm_compute in E; discriminate].
  exists s, a. split; [by apply finish_runs|]. vm_compute in E. injection E as _ <-. vm_compute. repeat split.
Qed.

(** A failure while planning is frozen into the plan: the file is listed without size and hash, and no
    retry can ever match it, though nothing is wrong with it any more. *)
Definition rejected : CleanupState := state_of start (finish start (@cleanup_program (one_fault 14) _ deletion)).

Theorem planning_failure_is_permanent :
  let stuck := (true, ["R1"], [("failed", "artifact changed after cleanup plan was frozen")]) in
  summary_of rejected = (true, ["R1"], [("failed", "artifact metadata failed: EIO")]) /\
  summary_of (retried "CLEAN-18" rejected) = stuck /\
  summary_of (retried "CLEAN-18" (retried "CLEAN-18" rejected)) = stuck.
Proof. vm_compute. repeat split. Qed.

(** Progress is written without a look at the status: of two retries at the same time, one completes the
    deletion and the other opens the plan again, for a record that is no longer there. It stays open. *)
Definition interrupted : CleanupState := state_of start (finish start (@cleanup_program (one_fault 30) _ deletion)).
Definition overtaken : CleanupState * Cleanup (option string) := advance 4 interrupted (retry_program "CLEAN-20").
Definition reopened : CleanupState :=
  state_of start (finish (retried "CLEAN-20" (fst overtaken)) (snd overtaken)).

Theorem completed_cleanup_is_reopened :
  summary_of (retried "CLEAN-20" (fst overtaken)) = (false, [], [("completed", "")]) /\
  summary_of reopened = (false, [], [("deleting", "")]) /\
  summary_of (retried "CLEAN-20" reopened) = (false, [], [("deleting", "")]).
Proof. vm_compute. repeat split. Qed.

End CleanupRun.
