(* ===== verification/Serial.v ===== *)
(** * Requests that run one at a time

    Requests that hold one mutex from their first statement to their last: at most one program of
    [Concurrent] is under way. The process may be killed at any step of it, which leaves the shared
    state as it is, and what runs next starts from there. [keeps] is what such a program does at
    every point of its run, whatever its surroundings decide; [serial_reachable] carries it to every
    history of requests and kills. *)

From S2P Require Import Prelude Concurrent.

Section Serial.
Context {S A R : Type}.
Variable program : R -> Prog S A.

(** The shared state, and what is left of the request that holds the lock. *)
Record Serial := mkSerial {
  serial_state : S;
  serial_running : option (Prog S A);
}.

Inductive serial_step : Serial -> Serial -> Prop :=
| SerialStart s r : serial_step (mkSerial s None) (mkSerial s (Some (program r)))
| SerialRun s p s' p' : thread_step s p s' p' -> serial_step (mkSerial s (Some p)) (mkSerial s' (Some p'))
| SerialEnd s a : serial_step (mkSerial s (Some (Ret a))) (mkSerial s None)
| SerialKill s p : serial_step (mkSerial s (Some p)) (mkSerial s None).
End Serial.

Section Keeps.
Context {S : Type} (I : S -> Prop) (G : S -> S -> Prop) `{!PreOrder G}.

(** From a state of [I]: every step ends in [I] and is one [G] allows, and where the program ends [Q]
    holds of the state and the answer. *)
Fixpoint keeps {A} (Q : S -> A -> Prop) (s : S) (p : Prog S A) : Prop :=
  match p with
  | Ret a => Q s a
  | Panicked => False
  | Step section k => match section s with Some (b, s') => I s' /\ G s s' /\ keeps Q s' (k b) | None => False end
  | Choose k => forall b, keeps Q s (k b)
  end.

Lemma keeps_ret {A} (Q : S -> A -> Prop) s a : Q s a -> keeps Q s (Ret a).
Proof. done. Qed.

Lemma keeps_bind {A B} (m : Prog S A) (f : A -> Prog S B) Q s :
  keeps (fun s' a => keeps Q s' (f a)) s m -> keeps Q s (prog_bind m f).
Proof.
  revert s. induction m as [a| |C section k IH|C k IH]; intros s Hm; simpl in *; [done|done| |auto].
  destruct (section s) as [[b s']|]; [|done]. destruct Hm as (Hi & Hg & Hm). auto.
Qed.

(** What is known of the end of a program besides [Q]: that it keeps [I] and got there by [G]. *)
Lemma keeps_mono {A} (p : Prog S A) (Q Q' : S -> A -> Prop) s : I s ->
  (forall s' a, I s' -> G s s' -> Q s' a -> Q' s' a) -> keeps Q s p -> keeps Q' s p.
Proof.
  revert s. induction p as [a| |C section k IH|C k IH]; intros s Hs HQ Hp; simpl in *; [by apply HQ|done| |eauto].
  destruct (section s) as [[b s']|]; [|done]. destruct Hp as (Hi & Hg & Hp). split_and!; [done..|].
  apply (IH b s' Hi); [|done]. intros s2 a Hs2 Hg2. apply HQ; [done|by etrans].
Qed.

Lemma keeps_post {A} (p : Prog S A) (Q Q' : S -> A -> Prop) s :
  keeps Q s p -> (forall s' a, Q s' a -> Q' s' a) -> keeps Q' s p.
Proof.
  intros Hp HQ. revert s Hp. induction p as [a| |C section k IH|C k IH]; intros s Hp; simpl in *; [auto|done| |auto].
  destruct (section s) as [[b s']|]; [|done]. destruct Hp as (? & ? & ?). auto.
Qed.

(** Sequencing where only the invariant and the answer matter. *)
Lemma keeps_seq {A B} (m : Prog S A) (f : A -> Prog S B) (P : S -> A -> Prop) Q s : I s ->
  keeps P s m -> (forall s' a, I s' -> G s s' -> P s' a -> keeps Q s' (f a)) -> keeps Q s (prog_bind m f).
Proof. intros Hs Hm Hf. apply keeps_bind. by eapply keeps_mono. Qed.

Lemma keeps_try {A B E} (m : Prog S (Result A E)) (f : A -> Prog S (Result B E)) (P : S -> A -> Prop) Q s : I s ->
  keeps (fun s' r => match r with Ok a => P s' a | Err _ => True end) s m ->
  (forall s' e, I s' -> G s s' -> Q s' (Err e)) ->
  (forall s' a, I s' -> G s s' -> P s' a -> keeps Q s' (f a)) -> keeps Q s (try_bind m f).
Proof.
  intros Hs Hm He Hf. eapply keeps_seq; [done|exact Hm|]. intros s' [a|e] Hi Hg HP; [by apply Hf|by apply He].
Qed.

Lemma keeps_atomically {A} (section : S -> A * S) Q s : I (snd (section s)) -> G s (snd (section s)) ->
  Q (snd (section s)) (fst (section s)) -> keeps Q s (atomically section).
Proof. intros Hi Hg HQ. unfold atomically. simpl. by destruct (section s) as [a s']. Qed.

Lemma keeps_reading {A} (read : S -> A) Q s : I s -> Q s (read s) -> keeps Q s (reading read).
Proof. intros Hi HQ. by apply keeps_atomically. Qed.

Lemma keeps_runs {A} (p : Prog S A) (Q : S -> A -> Prop) s s' a : keeps Q s p -> runs s p s' (Ret a) -> Q s' a.
Proof.
  intros Hp Hr. remember (Ret a) as last eqn:E. revert Hp E. induction Hr as [s p|s p s1 p1 s2 p2 Hstep _ IH]; intros Hp E.
  - subst p. exact Hp.
  - apply IH; [|done]. destruct Hstep as [s C section k b s1 Es|s C k b]; simpl in Hp; [rewrite Es in Hp; apply Hp|apply Hp].
Qed.

Lemma keeps_ends {A} (p : Prog S A) (Q : S -> A -> Prop) s s' a : I s -> keeps Q s p -> runs s p s' (Ret a) -> I s' /\ G s s' /\ Q s' a.
Proof.
  intros Hs Hp. apply (keeps_runs p (fun s' a => I s' /\ G s s' /\ Q s' a)). eapply keeps_mono; [done| |exact Hp]. done.
Qed.

(** What is left of the request under way keeps [I] and [G]. *)
Definition serial_safe {A} (s0 : S) (x : @Serial S A) : Prop :=
  I (serial_state x) /\ G s0 (serial_state x) /\
  match serial_running x with Some p => keeps (fun _ _ => True) (serial_state x) p | None => True end.

(** In every history of requests and kills. *)
Lemma serial_reachable {A R} (program : R -> Prog S A) s x : I s ->
  (forall r s', I s' -> keeps (fun _ _ => True) s' (program r)) ->
  rtc (serial_step program) (mkSerial s None) x -> I (serial_state x) /\ G s (serial_state x).
Proof.
  intros Hs Hp Hr. cut (serial_safe s x); [by intros (? & ? & _)|].
  assert (H0 : serial_safe s (@mkSerial S A s None)) by by split_and!.
  revert H0. induction Hr as [|x y z Hxy _ IH]; [done|]. intros (Hi & Hg & Hrun). apply IH.
  destruct Hxy as [s' r|s' p s2 p' Hstep|s' a|s' p]; simpl in *; unfold serial_safe; simpl; [by eauto| |done..].
  destruct Hstep as [s' C section k b s2 E|s' C k b]; simpl in Hrun; [|eauto].
  rewrite E in Hrun. destruct Hrun as (Hi' & Hg' & Hk). split_and!; [done|by etrans|done].
Qed.
End Keeps.

Section Combine.
Context {S A : Type} (I I' : S -> Prop) (G G' : S -> S -> Prop).
Implicit Types (Q : S -> A -> Prop) (p : Prog S A).

Lemma keeps_weaken Q s p : (forall s, I s -> I' s) -> (forall s s', G s s' -> G' s s') -> keeps I G Q s p -> keeps I' G' Q s p.
Proof.
  intros HI HG. revert s. induction p as [a| |C section k IH|C k IH]; intros s Hp; simpl in *; [done|done| |intros b; apply IH, Hp].
  destruct (section s) as [[b s']|]; [|done]. destruct Hp as (H1 & H2 & H3). split_and!; [by apply HI|by apply HG|by apply IH].
Qed.

(** A program has one run for each behaviour of its surroundings: what two arguments show of it holds at once. *)
Lemma keeps_conj Q Q' s p : keeps I G Q s p -> keeps I' G' Q' s p ->
  keeps (fun s => I s /\ I' s) (fun s s' => G s s' /\ G' s s') (fun s a => Q s a /\ Q' s a) s p.
Proof.
  revert s. induction p as [a| |C section k IH|C k IH]; intros s Hp Hp'; simpl in *; [done|done| |intros b; by apply IH].
  destruct (section s) as [[b s']|]; [|done]. destruct Hp as (H1 & H2 & H3), Hp' as (K1 & K2 & K3). split_and!; [done..|by apply IH].
Qed.
End Combine.

(** No condition on steps. *)
Definition anyway {S} (_ _ : S) : Prop := True.
#[global] Instance anyway_preorder S : PreOrder (@anyway S).
Proof. by split. Qed.

#[global] Arguments keeps : simpl never.
