(* ===== verification/ProductionStore.v ===== *)
(** * Sessions, flows, inspections and images of the line

    The tables of db/mod.rs that production events and capture commits write: [material_session],
    [steel_flow], [production_inspection], [trigger_event], [steel_flow_image], [capture_file],
    [secondary_data] and [audit_log]. Every statement is a step that can fail before or after taking
    effect; a request is a program of such steps. *)

From S2P Require Import Prelude Json Http Db DeviceGuard Concurrent Float64.
From Stdlib Require Import Ascii SpecFloat.

(** ** Rows (db/entities.rs) *)

(** [steel_flow::Model]. *)
Record SteelFlow := mkSteelFlow {
  fl_flow_no : Z;
  fl_flow_code : string;
  fl_session_id : string;
  fl_material_id : string;
  fl_source : string;
  fl_status : string;
  fl_next_image_no : Z;
  fl_image_count : Z;
  fl_storage_root : string;
  fl_started_at : string;
  fl_finished_at : string;
  fl_updated_at : string;
  fl_raw_payload : string;
}.

(** [steel_flow_image::Model]. *)
Record FlowImage := mkFlowImage {
  im_flow_no : Z;
  im_image_no : Z;
  im_inspection_id : string;
  im_session_id : string;
  im_material_id : string;
  im_camera_id : string;
  im_camera_ip : string;
  im_camera_sequence_no : Z;
  im_depth_path : string;
  im_intensity_path : string;
  im_metadata_path : string;
  im_width : Z;
  im_height : Z;
  im_mean_intensity : f64;
  im_captured_at : string;
  im_created_at : string;
}.

(** [trigger_event::Model]. *)
Record TriggerEvent := mkTriggerEvent {
  te_id : string;
  te_material_id : string;
  te_session_id : string;
  te_source : string;
  te_mode : string;
  te_event_type : string;
  te_command : string;
  te_value : Z;
  te_payload : string;
  te_provider_code : Z;
  te_provider_response : string;
  te_created_at : string;
}.

(** [secondary_data::Model]. *)
Record SecondaryData := mkSecondaryData {
  sd_id : string;
  sd_material_id : string;
  sd_session_id : string;
  sd_source : string;
  sd_payload_type : string;
  sd_payload : string;
  sd_received_at : string;
}.

(** ** State *)

(** The tables. [flow_seq] is the counter of the AUTOINCREMENT column [steel_flow.flow_no]: the largest
    number the table has ever had. *)
Record Tables := mkTables {
  sessions : list MaterialSession;
  flows : list SteelFlow;
  flow_seq : Z;
  inspections : list ProductionInspection;
  images : list FlowImage;
  captures : list CaptureFile;
  triggers : list TriggerEvent;
  secondary : list SecondaryData;
  audits : list AuditRow;
}.

(** Besides the tables: the bodies handed to the capture provider with their event, the summary files
    written, the number of operations that failed and of questions put to the surroundings. *)
Record LineState := mkLineState {
  tables : Tables;
  posted : list (string * Value);
  summaries : list (string * string);
  failed : Z;
  asked : nat;
}.

Definition with_sessions v (t : Tables) :=
  mkTables v (flows t) (flow_seq t) (inspections t) (images t) (captures t) (triggers t) (secondary t) (audits t).
Definition with_flows v seq (t : Tables) :=
  mkTables (sessions t) v seq (inspections t) (images t) (captures t) (triggers t) (secondary t) (audits t).
Definition with_inspections v (t : Tables) :=
  mkTables (sessions t) (flows t) (flow_seq t) v (images t) (captures t) (triggers t) (secondary t) (audits t).
Definition with_images v (t : Tables) :=
  mkTables (sessions t) (flows t) (flow_seq t) (inspections t) v (captures t) (triggers t) (secondary t) (audits t).
Definition with_captures v (t : Tables) :=
  mkTables (sessions t) (flows t) (flow_seq t) (inspections t) (images t) v (triggers t) (secondary t) (audits t).
Definition with_triggers v (t : Tables) :=
  mkTables (sessions t) (flows t) (flow_seq t) (inspections t) (images t) (captures t) v (secondary t) (audits t).
Definition with_secondary v (t : Tables) :=
  mkTables (sessions t) (flows t) (flow_seq t) (inspections t) (images t) (captures t) (triggers t) v (audits t).
Definition with_audits v (t : Tables) :=
  mkTables (sessions t) (flows t) (flow_seq t) (inspections t) (images t) (captures t) (triggers t) (secondary t) v.

Definition with_tables v (s : LineState) := mkLineState v (posted s) (summaries s) (failed s) (asked s).
Definition with_posted v (s : LineState) := mkLineState (tables s) v (summaries s) (failed s) (asked s).
Definition with_summaries v (s : LineState) := mkLineState (tables s) (posted s) v (failed s) (asked s).
Definition with_failed (s : LineState) := mkLineState (tables s) (posted s) (summaries s) (failed s + 1) (asked s).
Definition with_asked (s : LineState) := mkLineState (tables s) (posted s) (summaries s) (failed s) (S (asked s)).

Abbreviation Line := (Prog LineState).

(** ** Surroundings *)

(** An entry of a directory: its name if it is UTF-8, and whether it is a directory if that is known. *)
Record DirEntry := mkDirEntry { de_name : option string; de_is_dir : option bool }.

(** What is fixed for a process: the source mode set at start-up, whether it runs on simulated
    acquisition, and the pretty printer of [serde_json]; and the answers to its questions, in the order they
    are put: the fate of a statement, the clock, the text of an error, the rows of the task table, the
    health of the storage, a directory, the body of a successful answer of the capture provider, and
    whether an operation on a file fails. *)
Class LineEnv := {
  runtime_mode_cell : option string;
  simulation : bool;
  value_pretty : Value -> string;
  fate_of : nat -> Fate;
  time_of : nat -> Z;
  text_of : nat -> string;
  tasks_of : nat -> list Task;
  storage_of : nat -> bool * Value;
  listing_of : nat -> option (list (option DirEntry));
  provider_of : nat -> option string;
  fault_of : nat -> option string;
}.

Section Store.
Context `{LineEnv} `{JsonCodec}.

Definition ask {A} (answer : nat -> A) : Line A := atomically (fun s => (answer (asked s), with_asked s)).

Definition statement {A} (f : Tables -> Result (A * Tables) string) : Line (Result A string) :=
  let~ fate := ask fate_of in
  match fate with
  | Works => atomically (fun s => match f (tables s) with Ok (a, t) => (Ok a, with_tables t s) | Err e => (Err e, s) end)
  | FailsBefore message => let~ _ := updating with_failed in Ret (Err message)
  | FailsAfter message =>
      let~ _ := updating (fun s => with_failed (match f (tables s) with Ok (_, t) => with_tables t s | Err _ => s end)) in
      Ret (Err message)
  end.

Definition select {A} (f : Tables -> A) : Line (Result A string) := statement (fun t => Ok (f t, t)).

(** db/mod.rs [now_millis_string] and [now_nanos_string]; main.rs [current_time_millis] and
    [current_time_string]. *)
Definition clock : Line string := let~ now := ask time_of in Ret (dec (Z.max 0 now)).

(** What an UPDATE by primary key answers: the row as it is now. *)
Definition updated {R} (rows : list R) (p : R -> bool) (f : R -> R) : Result (R * list R) string :=
  match List.find p rows with
  | Some row => Ok (f row, update_where p f rows)
  | None => Err "None of the records are updated"
  end.

(** db/mod.rs [append_audit_log]. *)
Definition append_audit_log (actor action target detail level : string) : Line (Result unit string) :=
  let~ nanos := clock in
  let~ now := clock in
  let row := mkAuditRow ("AUD-" +:+ nanos) actor action target detail level now in
  statement (fun t =>
    if existsb (fun r => a_id r == a_id row) (audits t) then Err "UNIQUE constraint failed: audit_log.id"
    else Ok (tt, with_audits (audits t ++ [row]) t)).

(** db/mod.rs [count_open_production_tasks]. *)
Definition count_open_tasks : Line (Result Z string) :=
  let~ rows := ask tasks_of in
  statement (fun t => Ok (count_where (fun task => one_of (t_status task) ["queued"; "running"]) rows, t)).

(** ** Sessions *)

(** db/mod.rs [latest_open_material_session]. *)
Definition session_open (m : MaterialSession) : bool := m_status m != "finished".

Definition latest_open_session (rows : list MaterialSession) : option MaterialSession :=
  head (order_desc (fun m => (m_updated_at m, m_id m)) (List.filter session_open rows)).

Definition latest_open_material_session : Line (Result (option MaterialSession) string) :=
  select (fun t => latest_open_session (sessions t)).

(** db/mod.rs [find_material_session]. *)
Definition find_material_session (id : string) : Line (Result (option MaterialSession) string) :=
  select (fun t => List.find (fun m => m_id m == id) (sessions t)).

(** db/mod.rs [MaterialSessionInput]. *)
Record MaterialSessionInput := mkMaterialSessionInput {
  mi_id : string;
  mi_material_id : string;
  mi_source : string;
  mi_status : string;
  mi_control_mode : string;
  mi_trigger_mode : string;
  mi_steel_type : string;
  mi_width_mm : f64;
  mi_length_mm : f64;
  mi_thickness_mm : f64;
  mi_client : string;
  mi_hard : string;
  mi_storage_root : string;
  mi_started_at : string;
  mi_finished_at : string;
  mi_raw_payload : string;
}.

(** The columns the UPDATE of [upsert_material_session] sets. *)
Definition session_set (i : MaterialSessionInput) (now : string) (m : MaterialSession) : MaterialSession :=
  mkMaterialSession (m_id m) (mi_material_id i) (mi_source i) (mi_status i) (mi_control_mode i) (mi_trigger_mode i)
    (mi_steel_type i) (mi_width_mm i) (mi_length_mm i) (mi_thickness_mm i) (mi_client i) (mi_hard i)
    (mi_storage_root i)
    (if is_empty (m_started_at m) && negb (is_empty (mi_started_at i)) then mi_started_at i else m_started_at m)
    (mi_finished_at i) now (mi_raw_payload i).

Definition session_new (i : MaterialSessionInput) (now : string) : MaterialSession :=
  mkMaterialSession (mi_id i) (mi_material_id i) (mi_source i) (mi_status i) (mi_control_mode i) (mi_trigger_mode i)
    (mi_steel_type i) (mi_width_mm i) (mi_length_mm i) (mi_thickness_mm i) (mi_client i) (mi_hard i)
    (mi_storage_root i) (if is_empty (mi_started_at i) then now else mi_started_at i)
    (mi_finished_at i) now (mi_raw_payload i).

(** db/mod.rs [upsert_material_session]. *)
Definition upsert_material_session (i : MaterialSessionInput) : Line (Result MaterialSession string) :=
  let~ now := clock in
  let~? existing := find_material_session (mi_id i) in
  match existing with
  | Some model =>
      statement (fun t =>
        match updated (sessions t) (fun m => m_id m == m_id model) (session_set i now) with
        | Ok (row, rows) => Ok (row, with_sessions rows t)
        | Err e => Err e
        end)
  | None =>
      statement (fun t =>
        if existsb (fun m => m_id m == mi_id i) (sessions t) then Err "UNIQUE constraint failed: material_session.id"
        else Ok (session_new i now, with_sessions (sessions t ++ [session_new i now]) t))
  end.

(** db/mod.rs [TriggerEventInput]. *)
Record TriggerEventInput := mkTriggerEventInput {
  ti_material_id : string;
  ti_session_id : string;
  ti_source : string;
  ti_mode : string;
  ti_event_type : string;
  ti_command : string;
  ti_value : Z;
  ti_payload : string;
  ti_provider_code : Z;
  ti_provider_response : string;
}.

(** db/mod.rs [append_trigger_event]. *)
Definition append_trigger_event (i : TriggerEventInput) : Line (Result TriggerEvent string) :=
  let~ nanos := clock in
  let~ now := clock in
  let row := mkTriggerEvent ("TRG-" +:+ nanos) (ti_material_id i) (ti_session_id i) (ti_source i) (ti_mode i)
               (ti_event_type i) (ti_command i) (ti_value i) (ti_payload i) (ti_provider_code i)
               (ti_provider_response i) now in
  statement (fun t =>
    if existsb (fun r => te_id r == te_id row) (triggers t) then Err "UNIQUE constraint failed: trigger_event.id"
    else Ok (row, with_triggers (triggers t ++ [row]) t)).

(** db/mod.rs [SecondaryDataInput]. *)
Record SecondaryDataInput := mkSecondaryDataInput {
  si_material_id : string;
  si_session_id : string;
  si_source : string;
  si_payload_type : string;
  si_payload : string;
}.

(** db/mod.rs [append_secondary_data]. *)
Definition append_secondary_data (i : SecondaryDataInput) : Line (Result SecondaryData string) :=
  let~ nanos := clock in
  let~ now := clock in
  let row := mkSecondaryData ("L2-" +:+ nanos) (si_material_id i) (si_session_id i) (si_source i)
               (si_payload_type i) (si_payload i) now in
  statement (fun t =>
    if existsb (fun r => sd_id r == sd_id row) (secondary t) then Err "UNIQUE constraint failed: secondary_data.id"
    else Ok (row, with_secondary (secondary t ++ [row]) t)).

(** ** Where an inspection comes from *)

(** db/mod.rs [set_runtime_source_mode]: what the cell holds after the first call with [mode]. *)
Definition source_mode_setting (mode : string) : string :=
  let word := to_ascii_lowercase (trim mode) in
  if word == "online" then "online" else if word == "simulation" then "simulation" else "legacy_unknown".

(** db/mod.rs [runtime_source_mode]. *)
Definition runtime_source_mode : string := unwrap_or runtime_mode_cell "legacy_unknown".

(** db/mod.rs [ProductionSourceEvidence]. *)
Record SourceEvidence := mkSourceEvidence {
  ev_source_mode : string;
  ev_source_mode_explicit : bool;
  ev_source_dataset_id : string;
  ev_source_run_id : string;
  ev_source_session_id : string;
  ev_source_content_hash : string;
  ev_replayed : bool;
  ev_production_eligible : bool;
}.

(** [s.chars().take(n)] on UTF-8: a byte that is not a continuation starts a character. *)
Definition continuation_byte (a : ascii) : bool := byte_between 128 191 a.
Fixpoint take_chars (n : nat) (s : string) : string :=
  match s with
  | EmptyString => EmptyString
  | String a r =>
      if continuation_byte a then String a (take_chars n r)
      else match n with O => EmptyString | S k => String a (take_chars k r) end
  end.

(** db/mod.rs [bounded_source_value]. *)
Definition bounded_source_value (value : option string) (maximum : nat) : string :=
  take_chars maximum (trim (unwrap_or value "")).

(** db/mod.rs [collect_source_provenance]; [levels] is nine less the depth. *)
Fixpoint collect_source_provenance (levels : nat) (value : Value) (output : list Value) : list Value :=
  match levels with
  | O => output
  | S below =>
      if (32 <=? length output)%nat then output
      else match value with
           | JObject m =>
               let output := match mget "sourceProvenance" m with Some p => output ++ [p] | None => output end in
               fold_left (fun out child => collect_source_provenance below child out) (firstn 64 (map snd m)) output
           | JArray items =>
               fold_left (fun out child => collect_source_provenance below child out) (firstn 32 items) output
           | _ => output
           end
  end.

(** db/mod.rs [source_string], [source_bool] and [source_acquisition_mode]. *)
Definition source_string (values : list Value) (keys : list string) : option string :=
  find_map (fun value =>
    filter_opt (fun s => negb (is_empty s)) (option_map trim (find_map (fun key => get_str key value) keys))) values.

Definition source_bool (values : list Value) (keys : list string) : option bool :=
  find_map (fun value => find_map (fun key => get_bool key value) keys) values.

Definition source_acquisition_mode (values : list Value) : option string :=
  find_map (fun value =>
    find_map (fun key =>
      filter_opt (fun mode => one_of (to_ascii_lowercase mode) ["online"; "offline"; "simulation"])
        (option_map trim (get_str key value))) ["sourceMode"; "runtimeMode"; "acquisitionMode"]) values.

(** db/mod.rs [production_source_evidence]. *)
Definition production_source_evidence (raw_payload : string) : SourceEvidence :=
  let payload := unwrap_or (json_parse raw_payload) JNull in
  let values := collect_source_provenance 9 payload [payload] in
  let replayed := unwrap_or (source_bool values ["replayed"]) false || (runtime_source_mode == "simulation") in
  let declared := source_acquisition_mode values in
  let explicit := replayed || is_some declared in
  let declared_mode := to_ascii_lowercase (unwrap_or declared runtime_source_mode) in
  let source_mode :=
    if replayed || (declared_mode == "simulation") then "simulation"
    else if declared_mode == "online" then "online" else "legacy_unknown" in
  let provenance := tail values in
  let either key short := or_else (source_string values [key]) (source_string provenance [short]) in
  mkSourceEvidence source_mode explicit
    (bounded_source_value (either "sourceDatasetId" "datasetId") 128)
    (bounded_source_value (either "sourceRunId" "runId") 128)
    (bounded_source_value (source_string values ["sourceSessionId"]) 128)
    (bounded_source_value (either "sourceContentHash" "contentHash") 128)
    replayed ((source_mode != "simulation") && negb replayed).

(** ** Inspections *)

(** db/mod.rs [ProductionInspectionInput]. *)
Record InspectionInput := mkInspectionInput {
  ii_id : string;
  ii_material_id : string;
  ii_session_id : string;
  ii_status : string;
  ii_storage_root : string;
  ii_summary_path : string;
  ii_started_at : string;
  ii_finished_at : string;
  ii_capture_count : Z;
  ii_defect_count : Z;
  ii_raw_payload : string;
}.

(** db/mod.rs [find_production_inspection]. *)
Definition find_production_inspection (id : string) : Line (Result (option ProductionInspection) string) :=
  select (fun t => List.find (fun r => pi_id r == id) (inspections t)).

(** Replay provenance, once there, is immutable. *)
Definition protected_provenance (r : ProductionInspection) : bool := pi_replayed r || negb (pi_production_eligible r).

Definition conflicts (current incoming : string) : bool :=
  negb (is_empty current) && negb (is_empty incoming) && (current != incoming).

Definition provenance_conflict (r : ProductionInspection) (e : SourceEvidence) : bool :=
  protected_provenance r &&
  ((ev_source_mode_explicit e && (ev_source_mode e != "legacy_unknown") && conflicts (pi_source_mode r) (ev_source_mode e))
   || conflicts (pi_source_dataset_id r) (ev_source_dataset_id e)
   || conflicts (pi_source_run_id r) (ev_source_run_id e)
   || conflicts (pi_source_session_id r) (ev_source_session_id e)
   || conflicts (pi_source_content_hash r) (ev_source_content_hash e)).

(** The columns the UPDATE of [upsert_production_inspection] sets, computed from the row [r] read before. *)
Definition inspection_set (i : InspectionInput) (e : SourceEvidence) (r row : ProductionInspection) : ProductionInspection :=
  let kept current incoming :=
    if is_empty incoming || (protected_provenance r && negb (is_empty current)) then current else incoming in
  mkProductionInspection (pi_id row) (ii_material_id i) (ii_session_id i) (ii_status i) (ii_storage_root i)
    (ii_summary_path i) (pi_started_at row) (ii_finished_at i) (ii_capture_count i) (ii_defect_count i)
    (if protected_provenance r && (pi_source_mode r != "legacy_unknown") then pi_source_mode r
     else if (ev_source_mode e == "legacy_unknown")
             || (negb (ev_source_mode_explicit e) && (pi_source_mode r == "legacy_unknown")) then pi_source_mode r
     else ev_source_mode e)
    (kept (pi_source_dataset_id r) (ev_source_dataset_id e))
    (kept (pi_source_run_id r) (ev_source_run_id e))
    (kept (pi_source_session_id r) (ev_source_session_id e))
    (kept (pi_source_content_hash r) (ev_source_content_hash e))
    (pi_replayed r || ev_replayed e) (pi_production_eligible r && ev_production_eligible e) (ii_raw_payload i).

Definition inspection_new (i : InspectionInput) (e : SourceEvidence) : ProductionInspection :=
  mkProductionInspection (ii_id i) (ii_material_id i) (ii_session_id i) (ii_status i) (ii_storage_root i)
    (ii_summary_path i) (ii_started_at i) (ii_finished_at i) (ii_capture_count i) (ii_defect_count i)
    (ev_source_mode e) (ev_source_dataset_id e) (ev_source_run_id e) (ev_source_session_id e)
    (ev_source_content_hash e) (ev_replayed e) (ev_production_eligible e) (ii_raw_payload i).

(** db/mod.rs [upsert_production_inspection]. *)
Definition upsert_production_inspection (i : InspectionInput) : Line (Result ProductionInspection string) :=
  let evidence := production_source_evidence (ii_raw_payload i) in
  let~? existing := find_production_inspection (ii_id i) in
  match existing with
  | Some model =>
      if provenance_conflict model evidence
      then Ret (Err "Custom Error: production_source_provenance_conflict: replay provenance is immutable")
      else
        statement (fun t =>
          match updated (inspections t) (fun r => pi_id r == pi_id model) (inspection_set i evidence model) with
          | Ok (row, rows) => Ok (row, with_inspections rows t)
          | Err e => Err e
          end)
  | None =>
      statement (fun t =>
        if existsb (fun r => pi_id r == ii_id i) (inspections t) then Err "UNIQUE constraint failed: production_inspection.id"
        else Ok (inspection_new i evidence, with_inspections (inspections t ++ [inspection_new i evidence]) t))
  end.

(** ** Flows *)

(** db/mod.rs [SteelFlowInput]. *)
Record SteelFlowInput := mkSteelFlowInput {
  fi_session_id : string;
  fi_material_id : string;
  fi_minimum_flow_no : Z;
  fi_source : string;
  fi_status : string;
  fi_storage_root : string;
  fi_started_at : string;
  fi_raw_payload : string;
}.

(** db/mod.rs [find_steel_flow_by_session]. *)
Definition flow_of_session (id : string) (t : Tables) : option SteelFlow :=
  List.find (fun f => fl_session_id f == id) (flows t).

Definition find_steel_flow_by_session (id : string) : Line (Result (option SteelFlow) string) :=
  select (flow_of_session id).

(** db/mod.rs [find_steel_flow_by_no]. *)
Definition find_steel_flow_by_no (flow_no : Z) : Line (Result (option SteelFlow) string) :=
  select (fun t => List.find (fun f => fl_flow_no f =? flow_no) (flows t)).

(** The row with the largest number. *)
Definition latest_flow (rows : list SteelFlow) : option SteelFlow :=
  fold_left (fun best row =>
    match best with
    | Some b => if fl_flow_no b <? fl_flow_no row then Some row else best
    | None => Some row
    end) rows None.

(** db/mod.rs [latest_steel_flow]. *)
Definition latest_steel_flow : Line (Result (option SteelFlow) string) := select (fun t => latest_flow (flows t)).

(** The INSERT into [steel_flow], whose number, code and session are unique; without a number the next one
    of the counter is taken. *)
Definition insert_flow (flow_no : option Z) (row : Z -> SteelFlow) (t : Tables) : Result (SteelFlow * Tables) string :=
  let number := unwrap_or flow_no (flow_seq t + 1) in
  if i64_max <? number then Err "database or disk is full"
  else if existsb (fun f => fl_flow_no f =? number) (flows t) then Err "UNIQUE constraint failed: steel_flow.flow_no"
  else if existsb (fun f => fl_flow_code f == fl_flow_code (row number)) (flows t)
  then Err "UNIQUE constraint failed: steel_flow.flow_code"
  else if existsb (fun f => fl_session_id f == fl_session_id (row number)) (flows t)
  then Err "UNIQUE constraint failed: steel_flow.session_id"
  else Ok (row number, with_flows (flows t ++ [row number]) (Z.max (flow_seq t) number) t).

(** An UPDATE of [steel_flow] by number; a code set by it must not be another flow's. *)
Definition update_flow (flow_no : Z) (f : SteelFlow -> SteelFlow) (t : Tables) : Result (SteelFlow * Tables) string :=
  match updated (flows t) (fun row => fl_flow_no row =? flow_no) f with
  | Ok (row, rows) =>
      if existsb (fun r => negb (fl_flow_no r =? flow_no) && (fl_flow_code r == fl_flow_code row)) (flows t)
      then Err "UNIQUE constraint failed: steel_flow.flow_code"
      else Ok (row, with_flows rows (flow_seq t) t)
  | Err e => Err e
  end.

(** The columns set for a flow that is there already. *)
Definition flow_restarted (i : SteelFlowInput) (now : string) (f : SteelFlow) : SteelFlow :=
  mkSteelFlow (fl_flow_no f) (fl_flow_code f) (fl_session_id f)
    (if is_blank (fi_material_id i) then fl_material_id f else fi_material_id i)
    (fi_source i) (fi_status i) (fl_next_image_no f) (fl_image_count f)
    (if is_blank (fi_storage_root i) then fl_storage_root f else fi_storage_root i)
    (fl_started_at f) (fl_finished_at f) now (fi_raw_payload i).

Definition flow_new (i : SteelFlowInput) (now : string) (flow_no : Z) : SteelFlow :=
  mkSteelFlow flow_no "" (fi_session_id i) (fi_material_id i) (fi_source i) (fi_status i) 1 0 (fi_storage_root i)
    (if is_blank (fi_started_at i) then now else fi_started_at i) "" now (fi_raw_payload i).

Definition flow_code (flow_no : Z) : string := "FLOW-" +:+ pad_zero 10 (dec flow_no).

(** The columns set once the number is known. *)
Definition flow_coded (i : SteelFlowInput) (now : string) (number : Z) (f : SteelFlow) : SteelFlow :=
  mkSteelFlow (fl_flow_no f) (flow_code number) (fl_session_id f)
    (if is_blank (fi_material_id i) then dec number else fl_material_id f)
    (fl_source f) (fl_status f) (fl_next_image_no f) (fl_image_count f) (fl_storage_root f)
    (fl_started_at f) (fl_finished_at f) now (fl_raw_payload f).

(** db/mod.rs [start_steel_flow]. *)
Definition start_steel_flow (i : SteelFlowInput) : Line (Result SteelFlow string) :=
  let~ now := clock in
  let~? existing := find_steel_flow_by_session (fi_session_id i) in
  match existing with
  | Some model => statement (update_flow (fl_flow_no model) (flow_restarted i now))
  | None =>
      let~? flow_no :=
        if 0 <? fi_minimum_flow_no i then
          let~? latest := latest_steel_flow in
          let last := from_option fl_flow_no 0 latest in
          Ret (Ok (Some (Z.max (fi_minimum_flow_no i) (sat_add i64_max last 1))))
        else Ret (Ok None) in
      let~? inserted := statement (insert_flow flow_no (flow_new i now)) in
      let number := fl_flow_no inserted in
      statement (update_flow number (flow_coded i now number))
  end.

(** db/mod.rs [update_steel_flow_status]. *)
Definition flow_with_status (status finished_at now raw_payload : string) (f : SteelFlow) : SteelFlow :=
  mkSteelFlow (fl_flow_no f) (fl_flow_code f) (fl_session_id f) (fl_material_id f) (fl_source f) status
    (fl_next_image_no f) (fl_image_count f) (fl_storage_root f) (fl_started_at f) finished_at now raw_payload.

Definition update_steel_flow_status (session_id status finished_at raw_payload : string) :
    Line (Result (option SteelFlow) string) :=
  let~? found := find_steel_flow_by_session session_id in
  match found with
  | None => Ret (Ok None)
  | Some model =>
      let~ now := clock in
      let~? row := statement (update_flow (fl_flow_no model) (flow_with_status status finished_at now raw_payload)) in
      Ret (Ok (Some row))
  end.

(** ** Images *)

(** db/mod.rs [SteelFlowImageInput] and [SteelFlowImageAppend]. *)
Record FlowImageInput := mkFlowImageInput {
  gi_inspection_id : string;
  gi_session_id : string;
  gi_material_id : string;
  gi_camera_id : string;
  gi_camera_ip : string;
  gi_camera_sequence_no : Z;
  gi_depth_path : string;
  gi_intensity_path : string;
  gi_metadata_path : string;
  gi_width : Z;
  gi_height : Z;
  gi_mean_intensity : f64;
  gi_captured_at : string;
}.

Record FlowImageAppend := mkFlowImageAppend { ap_image : FlowImage; ap_inserted : bool }.

(** The camera and its sequence number identify an image of a flow. *)
Definition image_key (g : FlowImage) : string * Z := (im_camera_id g, im_camera_sequence_no g).
Definition input_key (i : FlowImageInput) : string * Z := (gi_camera_id i, gi_camera_sequence_no i).
Definition key_eqb (a b : string * Z) : bool := (fst a == fst b) && (snd a =? snd b).

Definition new_image (flow_no image_no : Z) (i : FlowImageInput) (now : string) : FlowImage :=
  mkFlowImage flow_no image_no (gi_inspection_id i) (gi_session_id i) (gi_material_id i) (gi_camera_id i)
    (gi_camera_ip i) (gi_camera_sequence_no i) (gi_depth_path i) (gi_intensity_path i) (gi_metadata_path i)
    (gi_width i) (gi_height i) (gi_mean_intensity i) (if is_blank (gi_captured_at i) then now else gi_captured_at i) now.

(** The images known so far by their key, those to insert, the next number and the answer. *)
Record Numbering := mkNumbering {
  nb_known : list FlowImage;
  nb_models : list FlowImage;
  nb_next : Z;
  nb_answer : list FlowImageAppend;
}.

Definition known_image (key : string * Z) (known : list FlowImage) : option FlowImage :=
  List.find (fun g => key_eqb (image_key g) key) known.

(** The loop of [append_steel_flow_images]. *)
Fixpoint number_images (flow_no : Z) (inputs : list FlowImageInput) (n : Numbering) : Line Numbering :=
  match inputs with
  | [] => Ret n
  | i :: rest =>
      match known_image (input_key i) (nb_known n) with
      | Some g => number_images flow_no rest (mkNumbering (nb_known n) (nb_models n) (nb_next n) (nb_answer n ++ [mkFlowImageAppend g false]))
      | None =>
          let~ now := clock in
          let g := new_image flow_no (nb_next n) i now in
          number_images flow_no rest
            (mkNumbering (g :: nb_known n) (nb_models n ++ [g]) (nb_next n + 1) (nb_answer n ++ [mkFlowImageAppend g true]))
      end
  end.

(** The images of a batch in the table. *)
Definition existing_images (flow_no : Z) (inputs : list FlowImageInput) (rows : list FlowImage) : list FlowImage :=
  List.filter (fun g => (im_flow_no g =? flow_no) && one_of (im_camera_id g) (map gi_camera_id inputs)
                        && existsb (Z.eqb (im_camera_sequence_no g)) (map gi_camera_sequence_no inputs)) rows.

(** Whether new images respect the primary key and the index on (flow, camera, sequence). *)
Definition image_clash (a b : FlowImage) : bool :=
  (im_flow_no a =? im_flow_no b) && ((im_image_no a =? im_image_no b) || key_eqb (image_key a) (image_key b)).
Fixpoint insert_images (rows new : list FlowImage) : option (list FlowImage) :=
  match new with
  | [] => Some rows
  | g :: rest => if existsb (image_clash g) rows then None else insert_images (rows ++ [g]) rest
  end.

Definition flow_with_images (next : Z) (now : string) (f : SteelFlow) : SteelFlow :=
  mkSteelFlow (fl_flow_no f) (fl_flow_code f) (fl_session_id f) (fl_material_id f) (fl_source f) (fl_status f)
    next (next - 1) (fl_storage_root f) (fl_started_at f) (fl_finished_at f) now (fl_raw_payload f).

(** db/mod.rs [append_steel_flow_images]: a transaction, whose writes become visible when it commits. *)
Definition append_steel_flow_images (inputs : list FlowImageInput) : Line (Result (list FlowImageAppend) string) :=
  match inputs with
  | [] => Ret (Ok [])
  | first :: _ =>
      let session_id := gi_session_id first in
      if existsb (fun i => gi_session_id i != session_id) inputs
      then Ret (Err "Custom Error: steel flow image batch must use one session_id")
      else
        let~? found := find_steel_flow_by_session session_id in
        match found with
        | None => Ret (Err ("Custom Error: steel flow is missing for capture session " +:+ session_id))
        | Some flow =>
            let~? existing := select (fun t => existing_images (fl_flow_no flow) inputs (images t)) in
            let~ n := number_images (fl_flow_no flow) inputs
                        (mkNumbering (List.rev existing) [] (Z.max (fl_next_image_no flow) 1) []) in
            match nb_models n with
            | [] => let~? _ := statement (fun t => Ok (tt, t)) in Ret (Ok (nb_answer n))
            | _ :: _ =>
                let~ now := clock in
                let~? _ := statement (fun t =>
                  match insert_images (images t) (nb_models n) with
                  | None => Err "UNIQUE constraint failed: steel_flow_image"
                  | Some rows =>
                      match update_flow (fl_flow_no flow) (flow_with_images (nb_next n) now) t with
                      | Ok (_, t') => Ok (tt, with_images rows t')
                      | Err e => Err e
                      end
                  end) in
                Ret (Ok (nb_answer n))
            end
        end
  end.

(** ** Files of captures *)

(** db/mod.rs [CaptureFileInput]. *)
Record CaptureFileInput := mkCaptureFileInput {
  ci_inspection_id : string;
  ci_session_id : string;
  ci_material_id : string;
  ci_camera_id : string;
  ci_camera_ip : string;
  ci_data_name : string;
  ci_sequence_no : Z;
  ci_file_type : string;
  ci_path : string;
  ci_metadata_path : string;
}.

(** A camera, a sequence number and a kind of data identify a file of an inspection. *)
Definition capture_key (r : CaptureFile) : string * Z * string := (cf_camera_id r, cf_sequence_no r, cf_data_name r).
Definition capture_input_key (i : CaptureFileInput) : string * Z * string :=
  (ci_camera_id i, ci_sequence_no i, ci_data_name i).
Definition key3_eqb (a b : string * Z * string) : bool := bool_decide (a = b).

Definition new_capture (id : string) (i : CaptureFileInput) (now : string) : CaptureFile :=
  mkCaptureFile id (ci_inspection_id i) (ci_session_id i) (ci_material_id i) (ci_camera_id i) (ci_camera_ip i)
    (ci_data_name i) (ci_sequence_no i) (ci_file_type i) (ci_path i) (ci_metadata_path i) now.

Definition capture_set (i : CaptureFileInput) (now : string) (r : CaptureFile) : CaptureFile :=
  mkCaptureFile (cf_id r) (cf_inspection_id r) (ci_session_id i) (ci_material_id i) (cf_camera_id r) (ci_camera_ip i)
    (cf_data_name r) (cf_sequence_no r) (ci_file_type i) (ci_path i) (ci_metadata_path i) now.

(** db/mod.rs [append_capture_file]. *)
Definition append_capture_file (i : CaptureFileInput) : Line (Result CaptureFile string) :=
  let~? existing := select (fun t =>
    List.find (fun r => (cf_inspection_id r == ci_inspection_id i) && key3_eqb (capture_key r) (capture_input_key i))
      (captures t)) in
  match existing with
  | Some model =>
      let~ now := clock in
      statement (fun t =>
        match updated (captures t) (fun r => cf_id r == cf_id model) (capture_set i now) with
        | Ok (row, rows) => Ok (row, with_captures rows t)
        | Err e => Err e
        end)
  | None =>
      let~ nanos := clock in
      let~ now := clock in
      let row := new_capture ("CAP-" +:+ nanos) i now in
      statement (fun t =>
        if existsb (fun r => cf_id r == cf_id row) (captures t) then Err "UNIQUE constraint failed: capture_file.id"
        else Ok (row, with_captures (captures t ++ [row]) t))
  end.

(** The loop of [append_capture_files]: the rows to insert, those known by their key left out. *)
Fixpoint number_captures (position : nat) (keys : list (string * Z * string)) (inputs : list CaptureFileInput) : Line (list CaptureFile) :=
  match inputs with
  | [] => Ret []
  | i :: rest =>
      if existsb (key3_eqb (capture_input_key i)) keys then number_captures (S position) keys rest
      else
        let~ nanos := clock in
        let~ now := clock in
        let~ models := number_captures (S position) (capture_input_key i :: keys) rest in
        Ret (new_capture ("CAP-" +:+ nanos +:+ "-" +:+ dec (Z.of_nat position)) i now :: models)
  end.

Definition existing_captures (inspection_id : string) (inputs : list CaptureFileInput) (rows : list CaptureFile) : list CaptureFile :=
  List.filter (fun r => (cf_inspection_id r == inspection_id) && one_of (cf_camera_id r) (map ci_camera_id inputs)
                        && existsb (Z.eqb (cf_sequence_no r)) (map ci_sequence_no inputs)
                        && one_of (cf_data_name r) (map ci_data_name inputs)) rows.

Fixpoint insert_captures (rows new : list CaptureFile) : option (list CaptureFile) :=
  match new with
  | [] => Some rows
  | c :: rest => if existsb (fun r => cf_id r == cf_id c) rows then None else insert_captures (rows ++ [c]) rest
  end.

(** db/mod.rs [append_capture_files]. *)
Definition append_capture_files (inputs : list CaptureFileInput) : Line (Result Z string) :=
  match inputs with
  | [] => Ret (Ok 0)
  | first :: _ =>
      let inspection_id := ci_inspection_id first in
      if existsb (fun i => ci_inspection_id i != inspection_id) inputs
      then Ret (Err "Custom Error: capture file batch must use one inspection_id")
      else
        let~? existing := select (fun t => existing_captures inspection_id inputs (captures t)) in
        let~ models := number_captures 0 (map capture_key existing) inputs in
        let~? _ := statement (fun t =>
          match insert_captures (captures t) models with
          | Some rows => Ok (tt, with_captures rows t)
          | None => Err "UNIQUE constraint failed: capture_file.id"
          end) in
        Ret (Ok (Z.of_nat (length models)))
  end.

(** db/mod.rs [capture_files_for_inspection]: by camera, sequence number and kind of data. *)
Definition capture_le (a b : CaptureFile) : Prop :=
  if cf_camera_id a == cf_camera_id b then
    if cf_sequence_no a =? cf_sequence_no b then String.le (cf_data_name a) (cf_data_name b)
    else cf_sequence_no a <= cf_sequence_no b
  else String.le (cf_camera_id a) (cf_camera_id b).

#[local] Instance capture_le_dec : RelDecision capture_le.
Proof. intros a b. unfold capture_le. destruct (_ == _); [destruct (_ =? _)|]; apply _. Defined.

Definition capture_files_for_inspection (id : string) : Line (Result (list CaptureFile) string) :=
  select (fun t => merge_sort capture_le (List.filter (fun r => cf_inspection_id r == id) (captures t))).

End Store.
