(* ===== verification/ProductionEvents.v ===== *)
(** * Production events

    The routes of main.rs that tell the service what happens on the line: steel-info, steel-in,
    steel-out and trigger-event ([write_production_event_response]), capture summaries and commits,
    and data from the plant's other systems. Each holds [production_command_lock] while it runs. *)

From S2P Require Import Prelude Json Http Db DeviceGuard Concurrent Float64 ProductionStore.
From Stdlib Require Import Ascii SpecFloat.

(** ** Readers *)

(** main.rs [value_f64_or]. *)
Definition value_f64_or (payload : Value) (keys : list string) (fallback : f64) : f64 :=
  let picked := find_map (fun key => jget key payload) keys in
  let number :=
    match picked with
    | None => None
    | Some value =>
        or_else (as_f64 value) (match as_str value with Some text => parse_f64 (trim text) | None => None end)
    end in
  unwrap_or number fallback.

(** main.rs [EmptyStringDefault::if_empty]. *)
Definition if_empty (s fallback : string) : string := if is_blank s then fallback else s.

(** main.rs [normalize_capture_output_mode]. *)
Definition normalize_capture_output_mode (value : string) : option string :=
  let word := to_ascii_lowercase (trim value) in
  if one_of word ["continuous"; "auto"; "automatic"] then Some "continuous"
  else if one_of word ["on-demand"; "on_demand"; "ondemand"; "manual"] then Some "on-demand"
  else if one_of word ["disabled"; "off"; "stop"] then Some "disabled"
  else None.

(** main.rs [provider_code_from_response]. *)
Definition provider_code_from_response (provider : Value) (fallback : Z) : Z :=
  unwrap_or (filter_opt (fun v => (i32_min <=? v) && (v <=? i32_max)) (get_i64 "code" provider)) fallback.

(** main.rs [minimum_unused_storage_flow_no], on what [read_dir] gives. *)
Definition storage_flow_no (entry : option DirEntry) : option Z :=
  match entry with
  | Some (mkDirEntry (Some name) (Some true)) => filter_opt (fun n => 0 <? n) (parse_i64 name)
  | _ => None
  end.

Definition minimum_unused_storage_flow_no (entries : option (list (option DirEntry))) : Z :=
  match entries with
  | None => 0
  | Some entries =>
      let largest := fold_left (fun best e =>
        match storage_flow_no e, best with
        | Some n, Some b => Some (Z.max b n)
        | Some n, None => Some n
        | None, _ => best
        end) entries None in
      match largest with
      | Some n => unwrap_or (checked_add i64_max n 1) 0
      | None => 0
      end
  end.

(** ** Targets *)

(** main.rs [ProductionEventTarget] and [ProductionTransitionConflict]. *)
Record EventTarget := mkEventTarget { tg_material_id : string; tg_session_id : string }.

Inductive TransitionConflict :=
| ActiveSessionRequired
| ActiveSessionMismatch (active_material_id active_session_id requested_material_id requested_session_id : string).

(** main.rs [resolve_production_event_target]. *)
Definition resolve_production_event_target (payload : Value) (event : string) (active : option (string * string))
    (generated_at : string) : Result EventTarget TransitionConflict :=
  let requested_material_id := material_id_from_payload payload "" in
  let requested_session_id := value_string payload ["sessionId"; "session_id"] in
  let mismatch :=
    match active with
    | Some (active_material_id, active_session_id) =>
        one_of event ["steel-in"; "steel-out"] &&
        ((negb (is_empty requested_material_id) && (requested_material_id != active_material_id))
         || (negb (is_empty requested_session_id) && (requested_session_id != active_session_id)))
    | None => false
    end in
  match active, (event == "steel-out"), mismatch with
  | None, true, _ => Err ActiveSessionRequired
  | Some (active_material_id, active_session_id), _, true =>
      Err (ActiveSessionMismatch active_material_id active_session_id requested_material_id requested_session_id)
  | _, _, _ =>
      let material_id :=
        if is_empty requested_material_id then from_option fst "unknown-material" active else requested_material_id in
      let session_id :=
        if is_empty requested_session_id then
          from_option snd (material_id +:+ "-" +:+ generated_at)
            (filter_opt (fun a => (event == "steel-out") || (fst a == material_id)) active)
        else requested_session_id in
      Ok (mkEventTarget material_id session_id)
  end.

(** [payload.get(a).or_else(|| payload.get(b)).and_then(Value::as_bool)]. *)
Definition first_bool (a b : string) (payload : Value) : option bool :=
  match or_else (jget a payload) (jget b payload) with Some v => as_bool v | None => None end.

Definition discard_black_frames (payload : Value) : bool :=
  unwrap_or (first_bool "discardBlackFrames" "discard_black_frames" payload) true.

Section Events.
Context `{LineEnv} `{JsonCodec}.

(** main.rs [production_transition_conflict_response]. *)
Definition production_transition_conflict_response (conflict : TransitionConflict) : string :=
  json_response "409 Conflict"
    (match conflict with
     | ActiveSessionRequired =>
         jobj [("code", jint 409); ("error", JString "active_session_required");
               ("message", JString "steel-out requires an active steel-in session")]
     | ActiveSessionMismatch active_material_id active_session_id requested_material_id requested_session_id =>
         jobj [("code", jint 409); ("error", JString "active_session_conflict");
               ("message", JString "the requested production session does not match the active session");
               ("activeMaterialId", JString active_material_id); ("activeSessionId", JString active_session_id);
               ("requestedMaterialId", JString requested_material_id);
               ("requestedSessionId", JString requested_session_id)]
     end).

(** main.rs [production_database_error_response]. *)
Definition production_database_error_response (operation error : string) : string :=
  json_response "500 Internal Server Error"
    (jobj [("code", jint 500); ("error", JString "production_state_persistence_failed");
           ("operation", JString operation); ("detail", JString error)]).

Definition invalid_json_response (error : string) : string :=
  json_response "400 Bad Request" (jobj [("code", jint 400); ("error", JString error)]).

(** [serde_json::from_str(body.trim())]; the text of an error is the library's. *)
Definition parse_body (body : string) : Line (Result Value string) :=
  match json_parse (trim body) with
  | Some payload => Ret (Ok payload)
  | None => let~ error := ask text_of in Ret (Err (invalid_json_response error))
  end.

(** A database call of a handler that answers 500 when it fails. *)
Definition or_500 {A} (operation : string) (m : Line (Result A string)) : Line (Result A string) :=
  map_error (production_database_error_response operation) m.

(** main.rs [new_session_storage_admission_response]. *)
Definition new_session_storage_admission_response (event : string) (existing_session storage_ok : bool) (storage : Value) : option string :=
  if existing_session || negb (one_of event ["steel-info"; "steel-in"]) || storage_ok then None
  else Some (json_response "503 Service Unavailable"
    (jobj [("code", jint 503); ("error", JString "storage_not_ready_for_new_session");
           ("storageReason", unwrap_or (jget "reason" storage) JNull); ("retryable", JBool true)])).

(** ** The final summary *)

Definition capture_item (f : CaptureFile) : Value :=
  jobj [("id", JString (cf_id f)); ("cameraId", JString (cf_camera_id f)); ("cameraIp", JString (cf_camera_ip f));
        ("dataName", JString (cf_data_name f)); ("sequenceNo", jint (cf_sequence_no f));
        ("fileType", JString (cf_file_type f)); ("path", JString (cf_path f));
        ("metadataPath", JString (cf_metadata_path f)); ("createdAt", JString (cf_created_at f))].

Definition count_data (p : string -> bool) (files : list CaptureFile) : Z := count_where (fun f => p (cf_data_name f)) files.

Definition session_summary (m : MaterialSession) : Value :=
  jobj [("id", JString (m_id m)); ("materialId", JString (m_material_id m)); ("status", JString (m_status m));
        ("controlMode", JString (m_control_mode m)); ("triggerMode", JString (m_trigger_mode m));
        ("steelType", JString (m_steel_type m)); ("widthMm", jfloat (m_width_mm m)); ("lengthMm", jfloat (m_length_mm m));
        ("thicknessMm", jfloat (m_thickness_mm m)); ("startedAt", JString (m_started_at m));
        ("finishedAt", JString (m_finished_at m)); ("updatedAt", JString (m_updated_at m))].

Definition inspection_summary (r : ProductionInspection) : Value :=
  jobj [("id", JString (pi_id r)); ("materialId", JString (pi_material_id r)); ("sessionId", JString (pi_session_id r));
        ("status", JString (pi_status r)); ("storageRoot", JString (pi_storage_root r));
        ("summaryPath", JString (pi_summary_path r)); ("startedAt", JString (pi_started_at r));
        ("finishedAt", JString (pi_finished_at r)); ("captureCount", jint (pi_capture_count r));
        ("defectCount", jint (pi_defect_count r))].

Definition not_ok (fields : list (string * Value)) : Value := jobj (("ok", JBool false) :: fields).

(** An operation on a file that is not modelled further: it works or fails with a message. *)
Definition file_operation : Line (Result unit string) :=
  let~ fault := ask fault_of in
  match fault with
  | Some message => let~ _ := updating with_failed in Ret (Err message)
  | None => Ret (Ok tt)
  end.

(** [Path::parent]: whether there is one. *)
Definition has_parent (path : string) : bool := negb (all_bytes (fun a => byte_is a 47) path).

(** main.rs [write_final_production_summary_file]. *)
Definition write_final_production_summary_file (material_id session_id inspection_id : string) (provider : Value) : Line Value :=
  let~ found := find_production_inspection inspection_id in
  match found with
  | Err error => Ret (not_ok [("error", JString error); ("inspectionId", JString inspection_id)])
  | Ok None => Ret (not_ok [("error", JString "production_inspection_not_found"); ("inspectionId", JString inspection_id)])
  | Ok (Some inspection) =>
      let summary_path := trim (pi_summary_path inspection) in
      if is_empty summary_path
      then Ret (not_ok [("error", JString "summary_path_empty"); ("inspectionId", JString inspection_id)])
      else
        let~ session := find_material_session session_id in
        let session := match session with Ok m => m | Err _ => None end in
        let~ files := capture_files_for_inspection inspection_id in
        match files with
        | Err error => Ret (not_ok [("error", JString error); ("inspectionId", JString inspection_id); ("path", JString summary_path)])
        | Ok files =>
            let depth := count_data (String.eqb "depth") files in
            let intensity := count_data (String.eqb "intensity") files in
            let metadata := count_data (String.eqb "metadata") files in
            let sdk_derived := count_data (starts_with "sdk-derived") files in
            let counts := [("depth", jint depth); ("intensity", jint intensity); ("metadata", jint metadata);
                           ("sdkDerived", jint sdk_derived)] in
            let~ written_at := clock in
            let summary :=
              jobj [("schema", JString "steel.production.summary.v1"); ("writtenAt", JString written_at);
                    ("materialId", JString material_id); ("sessionId", JString session_id);
                    ("inspectionId", JString inspection_id); ("session", jopt session_summary session);
                    ("inspection", inspection_summary inspection);
                    ("captureFiles", jobj (("count", jint (Z.of_nat (length files))) :: counts ++
                                           [("items", JArray (map capture_item files))]));
                    ("provider", provider)] in
            let~ made := (if has_parent summary_path then file_operation else Ret (Ok tt)) in
            match made with
            | Err error => Ret (not_ok [("error", JString error); ("path", JString summary_path)])
            | Ok _ =>
                let~ written := file_operation in
                match written with
                | Err error => Ret (not_ok [("error", JString error); ("path", JString summary_path)])
                | Ok _ =>
                    let~ _ := updating (fun s => with_summaries (summaries s ++ [(summary_path, value_pretty summary)]) s) in
                    Ret (jobj (("ok", JBool true) :: ("path", JString summary_path)
                               :: ("fileCount", jint (Z.of_nat (length files))) :: counts))
                end
            end
        end
  end.

(** ** Events *)

(** The defaults and statuses that depend on the event. *)
Definition event_command (event : string) (payload : Value) : string :=
  if_empty (value_string payload ["cmd"; "command"; "event"; "type"])
    (if event == "steel-info" then "rcvSteelInfo" else "steelIn").

Definition event_value (event : string) (payload : Value) : Z :=
  if event == "steel-out" then 0
  else if event == "steel-info" then value_i32 payload ["value"] 0
  else value_i32 payload ["value"; "present"] 1.

Definition event_status (event : string) : string :=
  if event == "steel-out" then "finishing"
  else if event == "steel-info" then "info-pending"
  else if event == "steel-in" then "starting"
  else "active".

Definition final_status (active failed event : string) (succeeded : bool) : string :=
  if event == "steel-in" then (if succeeded then active else "start-failed")
  else if event == "steel-out" then (if succeeded then "finished" else "exit-failed")
  else if event == "steel-info" then (if succeeded then "info-ready" else "info-failed")
  else if succeeded then active else failed.
Definition final_session_status : string -> bool -> string := final_status "active" "event-failed".
Definition final_inspection_status : string -> bool -> string := final_status "running" "event-failed".

(** What an admitted event is about. *)
Record Admission := mkAdmission {
  ad_payload : Value;
  ad_target : EventTarget;
  ad_previous : option MaterialSession;
}.

Definition session_not_exit_ready (m : MaterialSession) : string :=
  json_response "409 Conflict"
    (jobj [("code", jint 409); ("error", JString "production_session_not_exit_ready");
           ("materialId", JString (m_material_id m)); ("sessionId", JString (m_id m)); ("status", JString (m_status m));
           ("allowedStatuses", JArray [JString "active"; JString "finishing"; JString "exit-failed"])]).

Definition tasks_in_progress (open_tasks : Z) : string :=
  json_response "409 Conflict"
    (jobj [("code", jint 409); ("error", JString "production_tasks_in_progress"); ("queueDepth", jint open_tasks);
           ("retryable", JBool true)]).

(** [write_production_event_response] up to the point where the event is admitted: the open tasks (unless
    the worker itself runs the event), the open session, the target and the storage. *)
Definition admit_event (worker : bool) (body event actor : string) : Line (Result Admission string) :=
  let~? payload := parse_body body in
  let~? _ :=
    if worker then Ret (Ok tt)
    else let~? open_tasks := or_500 "count_open_production_tasks" count_open_tasks in
         Ret (if 0 <? open_tasks then Err (tasks_in_progress open_tasks) else Ok tt) in
  let~? latest_open := or_500 "load_active_session" latest_open_material_session in
  let~? _ :=
    Ret (match latest_open with
         | Some session =>
             if (event == "steel-out") && negb (one_of (m_status session) ["active"; "finishing"; "exit-failed"])
             then Err (session_not_exit_ready session) else Ok tt
         | None => Ok tt
         end) in
  let~ generated_at := clock in
  match resolve_production_event_target payload event (option_map (fun m => (m_material_id m, m_id m)) latest_open) generated_at with
  | Err conflict => Ret (Err (production_transition_conflict_response conflict))
  | Ok target =>
      let previous := filter_opt (fun m => (m_id m == tg_session_id target) && (m_material_id m == tg_material_id target)) latest_open in
      if one_of event ["steel-info"; "steel-in"] && is_none previous then
        let~ health := ask storage_of in
        match new_session_storage_admission_response event false (fst health) (snd health) with
        | Some response =>
            let reason := unwrap_or (get_str "reason" (snd health)) "storage_unavailable" in
            let~ _ := append_audit_log actor "production.session.rejected.storage" (tg_material_id target)
                        ("new " +:+ event +:+ " session rejected: " +:+ reason) "warning" in
            Ret (Err response)
        | None => Ret (Ok (mkAdmission payload target previous))
        end
      else Ret (Ok (mkAdmission payload target previous))
  end.

(** What is known of an event once its rows are written. *)
Record Registered := mkRegistered {
  rg_input : MaterialSessionInput;
  rg_capture_mode : option string;
  rg_now : string;
  rg_flow : option SteelFlow;
  rg_session : MaterialSession;
  rg_inspection : ProductionInspection;
}.

Definition invalid_capture_mode : string :=
  json_response "400 Bad Request"
    (jobj [("code", jint 400); ("error", JString "invalid_capture_mode");
           ("message", JString "captureMode must be continuous, on-demand, or disabled")]).

(** The flow of an event: a steel-in starts it, a steel-out looks it up. *)
Definition event_flow (event : string) (input : Z -> SteelFlowInput) : Line (Result (option SteelFlow) string) :=
  if event == "steel-in" then
    let~ minimum := (if is_empty (fi_material_id (input 0)) then let~ entries := ask listing_of in Ret (minimum_unused_storage_flow_no entries)
                     else Ret 0) in
    let~? flow := or_500 "start_steel_flow" (start_steel_flow (input minimum)) in
    Ret (Ok (Some flow))
  else if event == "steel-out" then or_500 "load_steel_flow" (find_steel_flow_by_session (fi_session_id (input 0)))
  else Ret (Ok None).

(** The rows that are written before the capture provider hears of the event: flow, session, inspection. *)
Definition register_event (event : string) (a : Admission) : Line (Result Registered string) :=
  let payload := ad_payload a in
  let session_id := tg_session_id (ad_target a) in
  let previous {A} (f : MaterialSession -> A) (d : A) : A := from_option f d (ad_previous a) in
  let requested_material_id := material_id_from_payload payload "" in
  let source := if_empty (value_string payload ["source"]) (previous m_source "api") in
  let mode := if_empty (value_string payload ["mode"; "controlMode"; "control_mode"]) (previous m_control_mode "api") in
  let trigger_mode := if_empty (value_string payload ["triggerMode"; "trigger_mode"]) (previous m_trigger_mode mode) in
  let requested_capture_mode := value_string payload ["captureMode"; "capture_mode"] in
  let~? capture_mode :=
    Ret (if is_empty requested_capture_mode then Ok None
         else match normalize_capture_output_mode requested_capture_mode with
              | Some mode => Ok (Some mode)
              | None => Err invalid_capture_mode
              end) in
  let~ now := clock in
  let storage_root := if_empty (value_string payload ["storageRoot"; "storage_root"]) (previous m_storage_root "") in
  let started_at := unwrap_or (filter_opt (fun v => negb (is_blank v)) (option_map m_started_at (ad_previous a))) now in
  let~? flow := event_flow event (fun minimum =>
    mkSteelFlowInput session_id requested_material_id minimum source "starting" storage_root started_at (json_print payload)) in
  let material_id :=
    match flow with
    | Some f => if is_empty requested_material_id then fl_material_id f else tg_material_id (ad_target a)
    | None => tg_material_id (ad_target a)
    end in
  let input :=
    mkMaterialSessionInput session_id material_id source (event_status event) mode trigger_mode
       (if_empty (value_string payload ["steelType"; "steel_type"; "type"]) (previous m_steel_type ""))
       (value_f64_or payload ["width"; "widthMm"; "width_mm"] (previous m_width_mm (S754_zero false)))
       (value_f64_or payload ["length"; "len"; "lengthMm"; "length_mm"] (previous m_length_mm (S754_zero false)))
       (value_f64_or payload ["thick"; "thickness"; "thicknessMm"; "thickness_mm"] (previous m_thickness_mm (S754_zero false)))
       (if_empty (value_string payload ["client"]) (previous m_client ""))
       (if_empty (value_string payload ["hard"]) (previous m_hard ""))
       storage_root started_at "" (json_print payload) in
  let~? session := or_500 "upsert_material_session" (upsert_material_session input) in
  let inspection_id := "INSP-" +:+ session_id in
  let~? existing := or_500 "load_production_inspection" (find_production_inspection inspection_id) in
  let known {A} (f : ProductionInspection -> A) (d : A) : A := from_option f d existing in
  let~? inspection := or_500 "upsert_production_inspection" (upsert_production_inspection
    (mkInspectionInput inspection_id material_id session_id (event_status event)
       (if_empty (value_string payload ["storageRoot"; "storage_root"]) (known pi_storage_root ""))
       (if_empty (value_string payload ["summaryPath"; "summary_path"]) (known pi_summary_path ""))
       (unwrap_or (filter_opt (fun v => negb (is_blank v)) (option_map pi_started_at existing)) now) ""
       (value_i32 payload ["captureCount"; "capture_count"] (known pi_capture_count 0))
       (value_i32 payload ["defectCount"; "defect_count"] (known pi_defect_count 0))
       (json_print payload))) in
  Ret (Ok (mkRegistered input capture_mode now flow session inspection)).

(** The body of the request to the capture provider: the fields every event has. *)
Definition provider_payload_base (event : string) (payload : Value) (r : Registered) : Value :=
  let i := rg_input r in
  let capture_flow_id := from_option (fun f => dec (fl_flow_no f)) (mi_material_id i) (rg_flow r) in
    jobj [("cmd", JString (event_command event payload)); ("value", jint (event_value event payload));
          ("id", JString capture_flow_id); ("materialId", JString capture_flow_id); ("steelId", JString capture_flow_id);
          ("steelNo", JString (mi_material_id i)); ("businessMaterialId", JString (mi_material_id i));
          ("sessionId", JString (mi_id i)); ("inspectionId", JString ("INSP-" +:+ mi_id i));
          ("steelType", JString (mi_steel_type i)); ("length", jfloat (mi_length_mm i)); ("width", jfloat (mi_width_mm i));
          ("thick", jfloat (mi_thickness_mm i)); ("client", JString (mi_client i)); ("hard", JString (mi_hard i));
          ("acquisitionMode",
             JString (if_empty (value_string payload ["acquisitionMode"; "acquisition_mode"; "triggerSource"; "trigger_source"])
                        (mi_trigger_mode i)));
          ("captureSaveState",
             JString (if event == "steel-in" then "save" else if event == "steel-out" then "discard" else "idle"));
          ("saveEnabled", JBool (event == "steel-in")); ("saveSdkDerived", JBool false);
          ("discardBlackFrames", JBool (discard_black_frames payload));
          ("lines", jint (clamp (value_i32 payload ["lines"; "depthLines"; "depth_lines"] 1280) 1 100000));
          ("intervalMs", jint (clamp (value_i32 payload ["intervalMs"; "interval_ms"] 0) 0 600000));
          ("algorithmPhase", JString "pending")].

Definition jinsert (k : string) (v o : Value) : Value := match o with JObject m => JObject (minsert k v m) | _ => o end.

(** The whole body. *)
Definition provider_payload (event : string) (payload : Value) (r : Registered) : Value :=
  let base := provider_payload_base event payload r in
  let base :=
    match rg_flow r with
    | Some f => jinsert "flowCode" (JString (fl_flow_code f)) (jinsert "flowNo" (jint (fl_flow_no f)) base)
    | None => base
    end in
  let base :=
    match first_bool "autoCapture" "auto_capture" payload with
    | Some flag => jinsert "autoCapture" (JBool flag) base
    | None => base
    end in
  match rg_capture_mode r with
  | Some mode => jinsert "captureMode" (JString mode) base
  | None => base
  end.

(** [capture.proxy("POST", "/api/steel/event", ..)] and the reading of its answer; in simulation mode the
    provider is not called. *)
Definition tell_provider (event : string) (body : Value) : Line Value :=
  if simulation then
    Ret (jobj [("code", jint 0); ("provider", JString "simulation-replay-coordinator"); ("runtimeMode", JString "simulation");
               ("databaseRegisteredBeforeLocalCapture", JBool true)])
  else
    let~ _ := updating (fun s => with_posted (posted s ++ [(event, body)]) s) in
    let~ answer := ask provider_of in
    Ret (unwrap_or (match answer with Some text => json_parse text | None => None end)
           (jobj [("code", jint 503); ("error", JString "capture_provider_offline")])).

Definition session_finalized (i : MaterialSession) (status finished_at raw_payload : string) : MaterialSessionInput :=
  mkMaterialSessionInput (m_id i) (m_material_id i) (m_source i) status (m_control_mode i) (m_trigger_mode i)
    (m_steel_type i) (m_width_mm i) (m_length_mm i) (m_thickness_mm i) (m_client i) (m_hard i) (m_storage_root i)
    (m_started_at i) finished_at raw_payload.

Definition inspection_finalized (r : ProductionInspection) (status finished_at raw_payload : string) : InspectionInput :=
  mkInspectionInput (pi_id r) (pi_material_id r) (pi_session_id r) status (pi_storage_root r) (pi_summary_path r)
    (pi_started_at r) finished_at (pi_capture_count r) (pi_defect_count r) raw_payload.

(** The provider hears of the event, and its answer is recorded. *)
Definition dispatch_event (event actor : string) (payload : Value) (r : Registered) : Line (Result string string) :=
  let i := rg_input r in
  let material_id := mi_material_id i in
  let session_id := mi_id i in
  let inspection_id := "INSP-" +:+ session_id in
  let~ provider := tell_provider event (provider_payload event payload r) in
  let provider_code := provider_code_from_response provider 503 in
  let~ trigger := append_trigger_event
    (mkTriggerEventInput material_id session_id (mi_source i) (mi_control_mode i) event (event_command event payload)
       (event_value event payload) (json_print payload) provider_code (json_print provider)) in
  let succeeded := provider_code =? 0 in
  let left := (event == "steel-out") && succeeded in
  let finished_at := if left then rg_now r else "" in
  let~? _ := or_500 "finalize_material_session" (upsert_material_session
    (session_finalized (rg_session r) (final_session_status event succeeded) finished_at (json_print payload))) in
  let~? _ := or_500 "finalize_production_inspection" (upsert_production_inspection
    (inspection_finalized (rg_inspection r) (final_inspection_status event succeeded) finished_at (json_print payload))) in
  let~? flow :=
    match rg_flow r with
    | Some _ => or_500 "finalize_steel_flow"
                  (update_steel_flow_status session_id (final_session_status event succeeded) finished_at (json_print payload))
    | None => Ret (Ok None)
    end in
  let~ _ := append_audit_log actor "production.trigger_event" material_id
    (event +:+ " from " +:+ mi_source i +:+ " mode=" +:+ mi_control_mode i +:+ " providerCode=" +:+ dec provider_code)
    (if succeeded then "info" else "warning") in
  let~ final_summary := (if left then write_final_production_summary_file material_id session_id inspection_id provider else Ret JNull) in
  Ret (Ok (match trigger with
           | Ok row =>
               json_response "200 OK"
                 (jobj [("code", jint provider_code); ("materialId", JString material_id); ("sessionId", JString session_id);
                        ("inspectionId", JString inspection_id); ("flowNo", jopt (fun f => jint (fl_flow_no f)) flow);
                        ("flowCode", jopt (fun f => JString (fl_flow_code f)) flow); ("triggerEventId", JString (te_id row));
                        ("mode", JString (mi_control_mode i)); ("triggerMode", JString (mi_trigger_mode i));
                        ("flow", jobj [("recordWrittenBeforeCapture", JBool true);
                                       ("captureSaveState",
                                          JString (if event == "steel-in" then "save" else if event == "steel-out" then "discard" else "idle"));
                                       ("saveEnabled", JBool (event == "steel-in"));
                                       ("discardBlackFrames", JBool (discard_black_frames payload));
                                       ("algorithmPhase", JString "pending")]);
                        ("provider", provider); ("finalSummary", final_summary)])
           | Err error =>
               json_response "500 Internal Server Error"
                 (jobj [("code", jint 500); ("error", JString error); ("provider", provider); ("finalSummary", final_summary)])
           end)).

(** main.rs [write_production_event_response]. *)
Definition write_production_event_response (worker : bool) (body event actor : string) : Line string :=
  let~ answer :=
    let~? a := admit_event worker body event actor in
    let~? r := register_event event a in
    dispatch_event event actor (ad_payload a) r in
  Ret (match answer with Ok response => response | Err response => response end).

(** ** Data of the plant *)

(** The material and the session a payload is about, given the open session. *)
Definition payload_session (payload : Value) (latest_open : option MaterialSession) (now : string) : string * string :=
  let material_id := material_id_from_payload payload (from_option m_material_id "unknown-material" latest_open) in
  let explicit := value_string payload ["sessionId"; "session_id"] in
  let session_id :=
    if is_empty explicit then
      from_option m_id (material_id +:+ "-" +:+ now) (filter_opt (fun m => m_material_id m == material_id) latest_open)
    else explicit in
  (material_id, session_id).

(** main.rs [active_session_for_payload]. *)
Definition active_session_for_payload (payload : Value) : Line (string * string) :=
  let~ latest_open := latest_open_material_session in
  let~ now := clock in
  Ret (payload_session payload (match latest_open with Ok m => m | Err _ => None end) now).

(** main.rs [write_secondary_data_response]. *)
Definition write_secondary_data_response (body actor : string) : Line string :=
  let~ answer :=
    let~? payload := parse_body body in
    let~ target := active_session_for_payload payload in
    let '(material_id, session_id) := target in
    let source := if_empty (value_string payload ["source"]) "l2" in
    let payload_type := if_empty (value_string payload ["payloadType"; "payload_type"; "type"]) "secondary" in
    let~ result := append_secondary_data (mkSecondaryDataInput material_id session_id source payload_type (json_print payload)) in
    match result with
    | Ok row =>
        let~ _ := append_audit_log actor "production.secondary_data" material_id
                    ("secondary data from " +:+ source +:+ " for " +:+ material_id) "info" in
        Ret (Ok (json_response "200 OK"
          (jobj [("code", jint 0); ("materialId", JString material_id); ("sessionId", JString session_id);
                 ("secondaryDataId", JString (sd_id row))])))
    | Err error => Ret (Err (json_response "500 Internal Server Error" (jobj [("code", jint 500); ("error", JString error)])))
    end in
  Ret (match answer with Ok response => response | Err response => response end).

(** ** Captures *)

(** [Path::file_name] and [Path::extension] of a POSIX path. *)
Definition file_name (path : string) : option string :=
  match last (List.filter (fun c => negb (is_empty c) && (c != ".")) (split_byte "/" path)) with
  | Some name => if name == ".." then None else Some name
  | None => None
  end.

(** The text behind the last dot, and the text before it if there is a dot; [s] is reversed. *)
Fixpoint split_last_dot (s after : string) : option (string * string) :=
  match s with
  | EmptyString => None
  | String a r => if byte_is a 46 then Some (String.rev r, after) else split_last_dot r (String a after)
  end.

Definition path_extension (path : string) : option string :=
  match file_name path with
  | None => None
  | Some name =>
      match split_last_dot (String.rev name) "" with
      | Some (before, after) => if is_empty before then None else Some after
      | None => None
      end
  end.

(** main.rs [capture_file_inputs_from_result]. *)
Definition capture_file_inputs_from_result (inspection_id session_id material_id : string) (result : Value) : list CaptureFileInput :=
  let camera_ip := value_string result ["ip"; "cameraIp"; "camera_ip"] in
  let camera_id := if_empty (value_string result ["cameraId"; "camera_id"]) camera_ip in
  let sequence_no := value_i32 result ["attempt"; "sequenceNo"; "sequence_no"] 0 in
  let metadata_path := value_string result ["metadataOutput"; "metadata_path"; "metadataPath"] in
  let outputs :=
    [("depth", value_string result ["depthOutput"; "output"], value_bool result ["depthExists"] true);
     ("intensity", value_string result ["intensityOutput"], value_bool result ["intensityExists"] true);
     ("metadata", metadata_path, value_bool result ["metadataExists"] true);
     ("sdk-derived", value_string result ["sdkOutput"], value_bool result ["sdkExists"] true);
     ("sdk-derived-depth", value_string result ["sdkDepthOutput"], value_bool result ["sdkDepthExists"] true);
     ("sdk-derived-intensity", value_string result ["sdkIntensityOutput"], value_bool result ["sdkIntensityExists"] true)] in
  flat_map (fun '(data_name, path, exists_) =>
    if is_blank path || negb exists_ then []
    else [mkCaptureFileInput inspection_id session_id material_id camera_id camera_ip data_name sequence_no
            (to_ascii_lowercase (unwrap_or (path_extension path) "bin")) path metadata_path]) outputs.

(** main.rs [capture_file_rows_from_result]. *)
Fixpoint append_each (inputs : list CaptureFileInput) : Line (Result unit string) :=
  match inputs with
  | [] => Ret (Ok tt)
  | i :: rest => let~? _ := append_capture_file i in append_each rest
  end.

Definition capture_file_rows_from_result (inspection_id session_id material_id : string) (result : Value) : Line (Result Z string) :=
  let inputs := capture_file_inputs_from_result inspection_id session_id material_id result in
  let~? _ := append_each inputs in
  Ret (Ok (Z.of_nat (length inputs))).

Fixpoint append_results (inspection_id session_id material_id : string) (results : list Value) (rows : Z) : Line (Result Z string) :=
  match results with
  | [] => Ret (Ok rows)
  | result :: rest =>
      let~? count := capture_file_rows_from_result inspection_id session_id material_id result in
      append_results inspection_id session_id material_id rest (rows + count)
  end.

(** [payload.get("results").and_then(Value::as_array)]. *)
Definition results_of (payload : Value) : option (list Value) :=
  match jget "results" payload with Some v => as_array v | None => None end.

(** main.rs [write_capture_summary_response]. *)
Definition write_capture_summary_response (body actor : string) : Line string :=
  let failed_with error := json_response "500 Internal Server Error" (jobj [("code", jint 500); ("error", JString error)]) in
  let~ answer :=
    let~? payload := parse_body body in
    let~ target := active_session_for_payload payload in
    let '(material_id, session_id) := target in
    let inspection_id := if_empty (value_string payload ["inspectionId"; "inspection_id"]) ("INSP-" +:+ session_id) in
    let~ now := clock in
    let~? _ := map_error failed_with (upsert_production_inspection
      (mkInspectionInput inspection_id material_id session_id
         (if value_i32 payload ["failures"] 0 =? 0 then "captured" else "capture-warning")
         (value_string payload ["storageRoot"; "storage_root"])
         (value_string payload ["summaryOutput"; "summary_path"; "summaryPath"])
         (if_empty (value_string payload ["startedAt"; "started_at"]) now)
         (value_string payload ["finishedAt"; "finished_at"])
         (value_i32 payload ["attempts"; "captureCount"; "capture_count"] 0)
         (value_i32 payload ["defectCount"; "defect_count"] 0) (json_print payload))) in
    let~? file_rows := map_error failed_with
      (append_results inspection_id session_id material_id (unwrap_or (results_of payload) []) 0) in
    let~ _ := append_audit_log actor "production.capture_summary" material_id
                ("capture summary files=" +:+ dec file_rows +:+ " inspection=" +:+ inspection_id) "info" in
    Ret (Ok (json_response "200 OK"
      (jobj [("code", jint 0); ("materialId", JString material_id); ("sessionId", JString session_id);
             ("inspectionId", JString inspection_id); ("captureFileRows", jint file_rows)]))) in
  Ret (match answer with Ok response => response | Err response => response end).

(** The results of a commit that are whole frames, as images and as files. *)
Definition committed (inspection_id session_id material_id : string) (result : Value) : option (FlowImageInput * list CaptureFileInput) :=
  if negb (provider_code_from_response result 500 =? 0) || negb (value_bool result ["completeFrame"] false)
     || value_bool result ["discarded"] false then None
  else
    let camera_ip := value_string result ["ip"; "cameraIp"; "camera_ip"] in
    let camera_id := if_empty (value_string result ["cameraId"; "camera_id"]) camera_ip in
    let sequence_no := value_i32 result ["attempt"; "sequenceNo"; "sequence_no"] 0 in
    if is_empty camera_id || (sequence_no <=? 0) then None
    else
      Some (mkFlowImageInput inspection_id session_id material_id camera_id camera_ip sequence_no
              (value_string result ["depthOutput"; "output"]) (value_string result ["intensityOutput"])
              (value_string result ["metadataOutput"; "metadata_path"; "metadataPath"])
              (value_i32 result ["width"] 0) (value_i32 result ["lines"; "height"] 0)
              (value_f64_or result ["meanIntensity"] (S754_zero false)) (value_string result ["capturedAt"; "captured_at"]),
            capture_file_inputs_from_result inspection_id session_id material_id result).

Definition appended_value (a : FlowImageAppend) : Value :=
  jobj [("flowNo", jint (im_flow_no (ap_image a))); ("imageNo", jint (im_image_no (ap_image a)));
        ("cameraId", JString (im_camera_id (ap_image a)));
        ("cameraSequenceNo", jint (im_camera_sequence_no (ap_image a))); ("inserted", JBool (ap_inserted a))].

(** main.rs [write_capture_commit_response]. *)
Definition write_capture_commit_response (body : string) : Line string :=
  let~ answer :=
    let~? payload := parse_body body in
    let session_id := value_string payload ["sessionId"; "session_id"] in
    if is_empty session_id
    then Ret (Err (json_response "400 Bad Request" (jobj [("code", jint 400); ("error", JString "session_id_required")])))
    else
      let~? found := or_500 "load_capture_steel_flow" (find_steel_flow_by_session session_id) in
      match found with
      | None => Ret (Err (json_response "409 Conflict"
                  (jobj [("code", jint 409); ("error", JString "steel_flow_not_found"); ("sessionId", JString session_id)])))
      | Some flow =>
          let inspection_id := if_empty (value_string payload ["inspectionId"; "inspection_id"]) ("INSP-" +:+ session_id) in
          match results_of payload with
          | None => Ret (Err (json_response "400 Bad Request"
                      (jobj [("code", jint 400); ("error", JString "capture_results_required")])))
          | Some results =>
              let frames := omap (committed inspection_id session_id (fl_material_id flow)) results in
              let~? appended := or_500 "append_steel_flow_images" (append_steel_flow_images (map fst frames)) in
              let~? file_rows := or_500 "append_capture_files" (append_capture_files (flat_map snd frames)) in
              let~ current := find_steel_flow_by_session session_id in
              let current := match current with Ok (Some f) => f | _ => flow end in
              Ret (Ok (json_response "200 OK"
                (jobj [("code", jint 0); ("flowNo", jint (fl_flow_no current)); ("flowCode", JString (fl_flow_code current));
                       ("sessionId", JString session_id); ("imageCount", jint (fl_image_count current));
                       ("captureFileRows", jint file_rows); ("images", JArray (map appended_value appended))])))
          end
      end in
  Ret (match answer with Ok response => response | Err response => response end).

(** main.rs [capture_requires_open_session] and [validate_capture_open_session]. *)
Definition capture_requires_open_session (payload : Value) : bool :=
  value_bool payload ["steelStateAware"; "steel_state_aware"] true
  && value_bool payload ["requireSteelPresent"; "require_steel_present"] true.

Definition validate_capture_open_session (payload : Value) : Line (Result unit string) :=
  if negb (capture_requires_open_session payload) then Ret (Ok tt)
  else
    let requested_material := value_string payload ["materialId"; "material_id"; "steelId"; "id"] in
    let requested_session := value_string payload ["sessionId"; "session_id"] in
    let~? open_session := map_error (fun error => json_response "500 Internal Server Error" (jobj [("code", jint 500); ("error", JString error)]))
      (if is_empty requested_session then latest_open_material_session else find_material_session requested_session) in
    match open_session with
    | None =>
        Ret (Err (json_response "409 Conflict"
          (jobj [("code", jint 409); ("error", JString "steel_not_present");
                 ("message", JString "capture requires an active steel-in session before saving images");
                 ("requireSteelPresent", JBool true)])))
    | Some session =>
        if m_status session != "active" then
          Ret (Err (json_response "409 Conflict"
            (jobj [("code", jint 409); ("error", JString "production_session_not_capture_ready");
                   ("message", JString "capture requires a production session whose steel-in command completed successfully");
                   ("materialId", JString (m_material_id session)); ("sessionId", JString (m_id session));
                   ("sessionStatus", JString (m_status session)); ("requireSteelPresent", JBool true)])))
        else if negb (is_empty requested_material) && (m_material_id session != requested_material) then
          Ret (Err (json_response "409 Conflict"
            (jobj [("code", jint 409); ("error", JString "steel_session_mismatch");
                   ("message", JString "capture material does not match the active steel-in session");
                   ("requestedMaterialId", JString requested_material); ("activeMaterialId", JString (m_material_id session));
                   ("activeSessionId", JString (m_id session)); ("requireSteelPresent", JBool true)])))
        else Ret (Ok tt)
    end.

(** ** Requests *)

(** What takes [production_command_lock] and writes these tables; [worker] says whether the task worker runs
    the event. *)
Inductive Request :=
| Event (worker : bool) (event body actor : string)
| Secondary (body actor : string)
| CaptureSummary (body actor : string)
| CaptureCommit (body : string).

Definition serve (r : Request) : Line string :=
  match r with
  | Event worker event body actor => write_production_event_response worker body event actor
  | Secondary body actor => write_secondary_data_response body actor
  | CaptureSummary body actor => write_capture_summary_response body actor
  | CaptureCommit body => write_capture_commit_response body
  end.

End Events.
