(* ===== verification/ProductionFacts.v ===== *)
(** * What production requests keep

    The tables of [ProductionStore] under every history of requests, whatever statement fails and
    wherever the process is killed: identities stay unique, flows are numbered once and for all, the
    images of a flow are numbered without gaps, replay provenance is never lost, and the capture
    provider only hears of what is in the database. *)

From S2P Require Import Prelude Json Http Db DeviceGuard Concurrent Serial Float64 ProductionStore ProductionEvents.
From Stdlib Require Import Ascii SpecFloat.

(** ** Invariant *)

Definition images_of (gs : list FlowImage) (flow_no : Z) : list FlowImage :=
  List.filter (fun g => im_flow_no g =? flow_no) gs.

(** A flow: its code is that of its number or has not been set yet, and its images are numbered from one
    on, each camera frame once. *)
Record flow_ok (seq : Z) (gs : list FlowImage) (f : SteelFlow) : Prop := {
  flow_number : 1 <= fl_flow_no f <= seq;
  flow_coded_ok : fl_flow_code f = "" \/ fl_flow_code f = flow_code (fl_flow_no f);
  flow_count : fl_next_image_no f = fl_image_count f + 1;
  flow_count_pos : 0 <= fl_image_count f;
  flow_numbering : map im_image_no (images_of gs (fl_flow_no f)) = seqZ 1 (fl_image_count f);
  flow_frames : NoDup (map image_key (images_of gs (fl_flow_no f)));
}.

Definition image_owned (fs : list SteelFlow) (g : FlowImage) : Prop :=
  exists f, f ∈ fs /\ fl_flow_no f = im_flow_no g /\ fl_session_id f = im_session_id g.

Record tables_ok (t : Tables) : Prop := {
  ok_sessions : NoDup (map m_id (sessions t));
  ok_inspections : NoDup (map pi_id (inspections t));
  ok_numbers : NoDup (map fl_flow_no (flows t));
  ok_codes : NoDup (map fl_flow_code (flows t));
  ok_flow_sessions : NoDup (map fl_session_id (flows t));
  ok_seq : 0 <= flow_seq t <= i64_max;
  ok_flows : Forall (flow_ok (flow_seq t) (images t)) (flows t);
  ok_images : Forall (image_owned (flows t)) (images t);
}.

(** What no request undoes. *)

(** A replayed or ineligible inspection stays so, and what is known of its source stays as it is. *)
Record sticky (r r' : ProductionInspection) : Prop := {
  sticky_replayed : pi_replayed r = true -> pi_replayed r' = true;
  sticky_eligible : pi_production_eligible r' = true -> pi_production_eligible r = true;
  sticky_source : protected_provenance r = true ->
    (pi_source_mode r <> "legacy_unknown" -> pi_source_mode r' = pi_source_mode r) /\
    (pi_source_dataset_id r <> "" -> pi_source_dataset_id r' = pi_source_dataset_id r) /\
    (pi_source_run_id r <> "" -> pi_source_run_id r' = pi_source_run_id r) /\
    (pi_source_session_id r <> "" -> pi_source_session_id r' = pi_source_session_id r) /\
    (pi_source_content_hash r <> "" -> pi_source_content_hash r' = pi_source_content_hash r);
}.

(** The number and the session of a flow never change, nor does its code once it has one. *)
Record flow_step (f f' : SteelFlow) : Prop := {
  step_number : fl_flow_no f' = fl_flow_no f;
  step_session : fl_session_id f' = fl_session_id f;
  step_code : fl_flow_code f <> "" -> fl_flow_code f' = fl_flow_code f;
  step_count : fl_image_count f <= fl_image_count f';
}.

(** Rows are not removed: each is there later, related by [R]. *)
Definition persist {A} (R : A -> A -> Prop) (l l' : list A) : Prop := forall a, a ∈ l -> exists a', a' ∈ l' /\ R a a'.

Record grows (t t' : Tables) : Prop := {
  grow_sessions : persist (fun m m' => m_id m' = m_id m) (sessions t) (sessions t');
  grow_inspections : persist (fun r r' => pi_id r' = pi_id r /\ sticky r r') (inspections t) (inspections t');
  grow_flows : persist flow_step (flows t) (flows t');
  grow_images : images t `prefix_of` images t';
}.

Lemma sticky_protected r r' : sticky r r' -> protected_provenance r = true -> protected_provenance r' = true.
Proof.
  intros [Hr He _]. unfold protected_provenance. intros [H|H]%orb_true_iff; apply orb_true_iff; [left; auto|right].
  destruct (pi_production_eligible r'); [|done]. rewrite He in H; done.
Qed.

#[global] Instance sticky_preorder : PreOrder sticky.
Proof.
  split; [intros r; by constructor|]. intros r1 r2 r3 H12 H23. pose proof (sticky_protected _ _ H12) as Hp.
  destruct H12 as [Ha Hb Hc], H23 as [Ha' Hb' Hc']. constructor; [auto..|]. intros Hpr.
  destruct (Hc Hpr) as (C1 & C2 & C3 & C4 & C5), (Hc' (Hp Hpr)) as (D1 & D2 & D3 & D4 & D5).
  split_and!; intros Hn;
    [rewrite <- (C1 Hn) in Hn |- *|rewrite <- (C2 Hn) in Hn |- *|rewrite <- (C3 Hn) in Hn |- *
    |rewrite <- (C4 Hn) in Hn |- *|rewrite <- (C5 Hn) in Hn |- *]; auto.
Qed.

#[global] Instance flow_step_preorder : PreOrder flow_step.
Proof.
  split; [intros f; constructor; [done..|lia]|]. intros f1 f2 f3 [A1 A2 A3 A4] [B1 B2 B3 B4]. constructor; [congruence..| |lia].
  intros Hn. pose proof (A3 Hn) as E. rewrite <- E. apply B3. by rewrite E.
Qed.

Lemma persist_refl {A} (R : A -> A -> Prop) l : Reflexive R -> persist R l l.
Proof. intros HR a Ha. eauto. Qed.
Lemma persist_trans {A} (R : A -> A -> Prop) l1 l2 l3 : Transitive R -> persist R l1 l2 -> persist R l2 l3 -> persist R l1 l3.
Proof. intros HR H1 H2 a (b & Hb & Hab)%H1. destruct (H2 b Hb) as (c & Hc & Hbc). exists c. split; [done|by etrans]. Qed.

#[global] Instance grows_preorder : PreOrder grows.
Proof.
  split.
  - intros t. constructor; [apply persist_refl..|done]; [done|intros r; by split|apply flow_step_preorder].
  - intros t1 t2 t3 [A1 A2 A3 A4] [B1 B2 B3 B4]. constructor.
    + eapply persist_trans; [|done..]. intros x y z; simpl; congruence.
    + eapply persist_trans; [|done..]. intros x y z [E1 S1] [E2 S2]. split; [congruence|by etrans].
    + eapply persist_trans; [apply flow_step_preorder|done..].
    + by etrans.
Qed.

(** ** Tables *)

Lemma existsb_none {A} (p : A -> bool) l a : existsb p l = false -> a ∈ l -> p a = false.
Proof.
  intros E Ha. destruct (p a) eqn:Ep; [|done]. rewrite <- E. symmetry. apply existsb_exists. exists a. by rewrite <- list_elem_of_In.
Qed.

Section Rows.
Context {A : Type}.
Implicit Types (p : A -> bool) (f : A -> A) (l : list A).

Lemma elem_update p f l a : a ∈ update_where p f l -> exists b, b ∈ l /\ a = if p b then f b else b.
Proof. unfold update_where. rewrite list_elem_of_fmap. intros (b & -> & Hb). eauto. Qed.

Lemma update_elem p f l a : a ∈ l -> (if p a then f a else a) ∈ update_where p f l.
Proof. intros Ha. unfold update_where. apply list_elem_of_fmap. eauto. Qed.

Lemma map_update {B} (k : A -> B) p f l : (forall a, a ∈ l -> p a = true -> k (f a) = k a) -> map k (update_where p f l) = map k l.
Proof.
  intros Hk. unfold update_where. rewrite map_map. apply map_ext_in. intros a Ha. destruct (p a) eqn:E; [|done].
  apply Hk; [by apply list_elem_of_In|done].
Qed.

Lemma persist_update (R : A -> A -> Prop) p f l : Reflexive R -> (forall a, a ∈ l -> p a = true -> R a (f a)) -> persist R l (update_where p f l).
Proof.
  intros HR Hf a Ha. exists (if p a then f a else a). split; [by apply update_elem|]. destruct (p a) eqn:E; [auto|done].
Qed.

Lemma persist_app (R : A -> A -> Prop) l l' : Reflexive R -> persist R l (l ++ l').
Proof. intros HR a Ha. exists a. split; [by apply elem_of_app; left|done]. Qed.

Lemma nodup_snoc {B} (k : A -> B) l a : NoDup (map k l) -> (forall b, b ∈ l -> k b <> k a) -> NoDup (map k (l ++ [a])).
Proof.
  intros Hl Ha. rewrite map_app. apply NoDup_app. split_and!; [done| |apply NoDup_singleton].
  intros x (b & -> & Hb)%list_elem_of_fmap Hx. apply list_elem_of_singleton in Hx. by apply (Ha b).
Qed.

(** A column stays unique when one row gets a value no other row has. *)
Lemma nodup_update {B} (k : A -> B) p f l : NoDup (map k l) ->
  (forall a a', a ∈ l -> a' ∈ l -> p a = true -> p a' = true -> a = a') ->
  (forall a b, a ∈ l -> b ∈ l -> p a = true -> p b = false -> k (f a) <> k b) ->
  NoDup (map k (update_where p f l)).
Proof.
  induction l as [|a l IH]; [done|]. intros [Hn Hl]%NoDup_cons Hone Hnew. simpl. apply NoDup_cons. split.
  - intros (b & E & (c & Hc & ->)%elem_update)%list_elem_of_fmap.
    assert (Hca : c <> a) by (intros ->; apply Hn, list_elem_of_fmap; eauto).
    destruct (p a) eqn:Ea, (p c) eqn:Ec.
    + apply Hca. apply Hone; [by right|by left|done..].
    + apply (Hnew a c); [by left|by right|done..].
    + apply (Hnew c a); [by right|by left|done..].
    + apply Hn, list_elem_of_fmap. eauto.
  - apply IH; [done| |]; intros; [apply Hone|apply Hnew]; try done; by right.
Qed.

Lemma nodup_eq {B} (k : A -> B) l a b : NoDup (map k l) -> a ∈ l -> b ∈ l -> k a = k b -> a = b.
Proof.
  induction l as [|c l IH]; [by intros _ ?%elem_of_nil|]. intros [Hn Hl]%NoDup_cons [->|Ha]%elem_of_cons [->|Hb]%elem_of_cons E; [done| | |by apply IH].
  - destruct Hn. rewrite E. apply list_elem_of_fmap. eauto.
  - destruct Hn. rewrite <- E. apply list_elem_of_fmap. eauto.
Qed.
End Rows.

Lemma updated_ok {A} (rows : list A) p f row rows' : updated rows p f = Ok (row, rows') ->
  exists r, r ∈ rows /\ p r = true /\ row = f r /\ rows' = update_where p f rows.
Proof.
  unfold updated. destruct (List.find p rows) as [r|] eqn:E; [|done]. intros [= <- <-].
  apply find_elem in E as [Hr Hp]. eauto.
Qed.

(** *** One statement *)

Definition keeps_tables (t t' : Tables) : Prop := tables_ok t' /\ grows t t'.

Lemma keeps_same t : tables_ok t -> keeps_tables t t.
Proof. by split. Qed.

(** Tables nothing is said about here. *)
Lemma keeps_other t t' : tables_ok t -> sessions t' = sessions t -> flows t' = flows t -> flow_seq t' = flow_seq t ->
  inspections t' = inspections t -> images t' = images t -> keeps_tables t t'.
Proof.
  intros [? ? ? ? ? ? ? ?] E1 E2 E3 E4 E5. split.
  - constructor; rewrite ?E1, ?E2, ?E3, ?E4, ?E5; done.
  - constructor; rewrite ?E1, ?E2, ?E3, ?E4, ?E5; [apply persist_refl..|done]; [done|intros r; by split|apply flow_step_preorder].
Qed.

Lemma keeps_sessions t rows : tables_ok t -> NoDup (map m_id rows) ->
  persist (fun m m' => m_id m' = m_id m) (sessions t) rows -> keeps_tables t (with_sessions rows t).
Proof.
  intros Hok Hn Hp. split; [by destruct Hok; constructor|]. constructor; [done|apply persist_refl..|done]; [intros r; by split|apply flow_step_preorder].
Qed.

Lemma keeps_inspections t rows : tables_ok t -> NoDup (map pi_id rows) ->
  persist (fun r r' => pi_id r' = pi_id r /\ sticky r r') (inspections t) rows -> keeps_tables t (with_inspections rows t).
Proof.
  intros Hok Hn Hp. split; [by destruct Hok; constructor|]. constructor; [by apply persist_refl|done|apply persist_refl|done]. apply flow_step_preorder.
Qed.

(** What the columns set by an UPDATE keep of a flow. *)
Record flow_same (f f' : SteelFlow) : Prop := {
  same_number : fl_flow_no f' = fl_flow_no f;
  same_session : fl_session_id f' = fl_session_id f;
  same_next : fl_next_image_no f' = fl_next_image_no f;
  same_count : fl_image_count f' = fl_image_count f;
  same_code : fl_flow_code f' = fl_flow_code f \/ (fl_flow_code f = "" /\ fl_flow_code f' = flow_code (fl_flow_no f));
}.

Lemma flow_same_step f f' : flow_same f f' -> flow_step f f'.
Proof. intros [? ? ? E [|[]]]; constructor; try done; rewrite E; done. Qed.

Lemma flow_same_ok seq gs f f' : flow_same f f' -> flow_ok seq gs f -> flow_ok seq gs f'.
Proof.
  intros [E1 E2 E3 E4 Hc] [? H0 ? ? ? ?]. constructor; rewrite ?E1, ?E2, ?E3, ?E4; try done.
  destruct Hc as [->|[_ ->]]; [done|by right].
Qed.

Lemma image_owned_mono fs fs' g : persist flow_step fs fs' -> image_owned fs g -> image_owned fs' g.
Proof.
  intros Hp (f & Hf & En & Es). destruct (Hp f Hf) as (f' & Hf' & [E1 E2 _ _]). exists f'. split_and!; congruence.
Qed.

(** The rows an UPDATE by number leaves are as unique as before. *)
Lemma update_flow_unique t flow_no f row t' : tables_ok t -> (forall r, fl_flow_no r = flow_no -> fl_flow_no (f r) = fl_flow_no r /\ fl_session_id (f r) = fl_session_id r) ->
  update_flow flow_no f t = Ok (row, t') ->
  exists r, r ∈ flows t /\ fl_flow_no r = flow_no /\ row = f r /\
    t' = with_flows (update_where (fun r => fl_flow_no r =? flow_no) f (flows t)) (flow_seq t) t /\
    NoDup (map fl_flow_no (flows t')) /\ NoDup (map fl_session_id (flows t')) /\ NoDup (map fl_flow_code (flows t')).
Proof.
  intros Hok Hf. unfold update_flow. destruct (updated _ _ _) as [[row0 rows]|] eqn:E; [|done].
  destruct (existsb _ _) eqn:Ex; [done|]. intros [= <- <-]. apply updated_ok in E as (r & Hr & Hp & -> & ->). bool_facts.
  assert (Hone : forall a, a ∈ flows t -> (fl_flow_no a =? flow_no) = true -> a = r).
  { intros a Ha Ea. bool_facts. apply (nodup_eq fl_flow_no (flows t)); [apply Hok|done..|congruence]. }
  exists r. split_and!; [done..| | |].
  - simpl. rewrite map_update; [apply Hok|]. intros a Ha Ea. bool_facts. by apply Hf.
  - simpl. rewrite map_update; [apply Hok|]. intros a Ha Ea. bool_facts. by apply Hf.
  - apply nodup_update; [apply Hok| |].
    + intros a a' Ha Ha' E1 E2. rewrite (Hone a), (Hone a'); done.
    + intros a b Ha Hb Ea Eb Ec. rewrite (Hone a Ha Ea) in Ec. pose proof (existsb_none _ _ b Ex Hb) as Hx.
      simpl in Hx. rewrite Eb in Hx. simpl in Hx. bool_facts. by destruct Hx.
Qed.

Lemma keeps_update_flow t flow_no f row t' : tables_ok t -> (forall r, r ∈ flows t -> fl_flow_no r = flow_no -> flow_same r (f r)) ->
  (forall r, fl_flow_no r = flow_no -> fl_flow_no (f r) = fl_flow_no r /\ fl_session_id (f r) = fl_session_id r) ->
  update_flow flow_no f t = Ok (row, t') ->
  keeps_tables t t' /\ row ∈ flows t' /\ exists r, r ∈ flows t /\ fl_flow_no r = flow_no /\ row = f r.
Proof.
  intros Hok Hsame Hf E. destruct (update_flow_unique _ _ _ _ _ Hok Hf E) as (r & Hr & Hn & -> & -> & N1 & N2 & N3).
  assert (Hp : persist flow_step (flows t) (update_where (fun r => fl_flow_no r =? flow_no) f (flows t))).
  { apply persist_update; [apply flow_step_preorder|]. intros a Ha Ea. bool_facts. apply flow_same_step. auto. }
  split; [split|split; [|by exists r]].
  - destruct Hok. constructor; try done.
    + apply Forall_forall. intros a (b & Hb & ->)%elem_update. pose proof (proj1 (Forall_forall _ _) ok_flows0 b Hb) as Hb'.
      destruct (_ =? _) eqn:Eb; [|done]. bool_facts. by apply (flow_same_ok _ _ b); [apply Hsame|].
    + eapply Forall_impl; [exact ok_images0|]. intros g. by apply image_owned_mono.
  - constructor; [by apply persist_refl|apply persist_refl; intros ?; by split|done|done].
  - simpl. pose proof (update_elem (fun r => fl_flow_no r =? flow_no) f (flows t) r Hr) as H. simpl in H. by rewrite (proj2 (Z.eqb_eq _ _) Hn) in H.
Qed.

Lemma images_of_elem gs n g : g ∈ images_of gs n <-> g ∈ gs /\ im_flow_no g = n.
Proof. unfold images_of. rewrite !list_elem_of_In, filter_In, Z.eqb_eq. done. Qed.

Lemma images_of_app gs gs' n : images_of (gs ++ gs') n = images_of gs n ++ images_of gs' n.
Proof. apply List.filter_app. Qed.

Lemma images_of_all gs n : Forall (fun g => im_flow_no g = n) gs -> images_of gs n = gs.
Proof.
  induction 1 as [|g gs Hg _ IH]; [done|]. unfold images_of in *. simpl. by rewrite (proj2 (Z.eqb_eq _ _) Hg), IH.
Qed.

Lemma images_of_none gs n : Forall (fun g => im_flow_no g <> n) gs -> images_of gs n = [].
Proof.
  induction 1 as [|g gs Hg _ IH]; [done|]. unfold images_of in *. simpl. by rewrite (proj2 (Z.eqb_neq _ _) Hg), IH.
Qed.

Lemma keeps_insert_flow t no row f t' : tables_ok t ->
  (forall n, fl_flow_no (row n) = n /\ fl_flow_code (row n) = "" /\ fl_next_image_no (row n) = 1 /\ fl_image_count (row n) = 0) ->
  from_option (fun n => 1 <= n) True no -> insert_flow no row t = Ok (f, t') ->
  keeps_tables t t' /\ f ∈ flows t' /\ f = row (fl_flow_no f).
Proof.
  intros Hok Hrow Hno. unfold insert_flow. cbv zeta. set (n := unwrap_or no (flow_seq t + 1)).
  destruct (i64_max <? n) eqn:E1; [done|].
  destruct (existsb (fun f => fl_flow_no f =? n) _) eqn:E2; [done|].
  destruct (existsb (fun f => fl_flow_code f == _) _) eqn:E3; [done|].
  destruct (existsb (fun f => fl_session_id f == _) _) eqn:E4; [done|]. intros [= <- <-]. destruct (Hrow n) as (R1 & R2 & R3 & R4). rewrite R1.
  assert (Hn : 1 <= n) by (destruct Hok; subst n; destruct no; simpl in *; lia). bool_facts.
  assert (Hfree : forall a, a ∈ flows t -> fl_flow_no a <> n).
  { intros a Ha. pose proof (existsb_none _ _ a E2 Ha). simpl in *. by bool_facts. }
  assert (Hp : persist flow_step (flows t) (flows t ++ [row n])) by (apply persist_app, flow_step_preorder).
  destruct Hok. split_and!; [split|by apply elem_of_app; right; left|done].
  - constructor; simpl; try done.
    + apply nodup_snoc; [done|]. intros b Hb. rewrite R1. by apply Hfree.
    + apply nodup_snoc; [done|]. intros b Hb. pose proof (existsb_none _ _ b E3 Hb). simpl in *. by bool_facts.
    + apply nodup_snoc; [done|]. intros b Hb. pose proof (existsb_none _ _ b E4 Hb). simpl in *. by bool_facts.
    + lia.
    + apply Forall_app. split.
      * eapply Forall_impl; [exact ok_flows0|]. intros a [? ? ? ? ? ?]. constructor; try done. lia.
      * apply Forall_singleton. constructor; rewrite ?R1, ?R2, ?R3, ?R4; [lia|by left|done|lia|..];
          (rewrite (images_of_none (images t) n); [simpl; first [done|constructor]|]);
          (eapply Forall_impl; [exact ok_images0|]); intros g (a & Ha & <- & _); by apply Hfree.
    + eapply Forall_impl; [exact ok_images0|]. intros g. by apply image_owned_mono.
  - constructor; [by apply persist_refl|apply persist_refl; intros ?; by split|done|done].
Qed.

(** *** Numbering images *)

(** The numbers a batch gets, after those it was given: consecutive, for frames not known before. *)
Record numbered (flow_no next : Z) (known : list FlowImage) (done : list FlowImageInput) (n : Numbering) : Prop := {
  nb_known_ok : nb_known n = List.rev (nb_models n) ++ known;
  nb_next_ok : nb_next n = next + Z.of_nat (length (nb_models n));
  nb_numbers : map im_image_no (nb_models n) = seqZ next (Z.of_nat (length (nb_models n)));
  nb_flow : Forall (fun g => im_flow_no g = flow_no) (nb_models n);
  nb_keys : NoDup (map image_key (nb_models n));
  nb_fresh : forall g k, g ∈ nb_models n -> k ∈ known -> image_key g <> image_key k;
  nb_inputs : Forall (fun g => exists i, i ∈ done /\ input_key i = image_key g /\ im_session_id g = gi_session_id i) (nb_models n);
  nb_answers : Forall2 (fun i a => image_key (ap_image a) = input_key i /\
    if ap_inserted a then ap_image a ∈ nb_models n else ap_image a ∈ nb_models n \/ ap_image a ∈ known) done (nb_answer n);
}.

Lemma key_eqb_true a b : key_eqb a b = true <-> a = b.
Proof.
  unfold key_eqb. destruct a as [a1 a2], b as [b1 b2]. simpl. split; [intros; bool_facts; congruence|].
  intros [= -> ->]. by rewrite String.eqb_refl, Z.eqb_refl.
Qed.

Lemma known_image_none key known g : known_image key known = None -> g ∈ known -> image_key g <> key.
Proof.
  unfold known_image. intros E Hg Hk. apply list_elem_of_In in Hg. pose proof (List.find_none _ _ E g Hg) as Hn. simpl in Hn.
  apply key_eqb_true in Hk. congruence.
Qed.

Lemma elem_rev {A} (l : list A) a : a ∈ List.rev l <-> a ∈ l.
Proof. by rewrite !list_elem_of_In, <- in_rev. Qed.

Lemma numbered_known flow_no next known done n i g : numbered flow_no next known done n ->
  known_image (input_key i) (nb_known n) = Some g ->
  numbered flow_no next known (done ++ [i])
    (mkNumbering (nb_known n) (nb_models n) (nb_next n) (nb_answer n ++ [mkFlowImageAppend g false])).
Proof.
  intros [] [Hg Hk]%find_elem. apply key_eqb_true in Hk. constructor; simpl; try done.
  - eapply Forall_impl; [exact nb_inputs0|]. intros a (j & Hj & ?). exists j. split; [by apply elem_of_app; left|done].
  - apply Forall2_app; [done|]. constructor; [|constructor]. simpl. split; [done|].
    rewrite nb_known_ok0 in Hg. apply elem_of_app in Hg as [Hg|Hg]; [left|by right]. by apply elem_rev.
Qed.

Lemma numbered_new flow_no next known done n i now : numbered flow_no next known done n ->
  known_image (input_key i) (nb_known n) = None ->
  let g := new_image flow_no (nb_next n) i now in
  numbered flow_no next known (done ++ [i])
    (mkNumbering (g :: nb_known n) (nb_models n ++ [g]) (nb_next n + 1) (nb_answer n ++ [mkFlowImageAppend g true])).
Proof.
  intros Hn Hk g. assert (Hnew : forall a, a ∈ nb_models n \/ a ∈ known -> image_key a <> image_key g).
  { intros a Ha. apply (known_image_none (input_key i) (nb_known n)); [done|]. rewrite (nb_known_ok _ _ _ _ _ Hn).
    apply elem_of_app. by rewrite elem_rev. }
  destruct Hn. constructor; simpl.
  - rewrite List.rev_app_distr. simpl. by rewrite nb_known_ok0.
  - rewrite length_app. simpl. lia.
  - rewrite length_app, Nat.add_1_r, seqZ_S, map_app, nb_numbers0. simpl. by rewrite nb_next_ok0.
  - by apply Forall_app; split; [|constructor].
  - apply nodup_snoc; [done|]. intros a Ha. by apply Hnew; left.
  - intros a k [Ha| ->%list_elem_of_singleton]%elem_of_app Hk'; [by apply nb_fresh0|]. intros E. by apply (Hnew k); [right|].
  - apply Forall_app. split; [|constructor; [|constructor]].
    + eapply Forall_impl; [exact nb_inputs0|]. intros a (j & Hj & ?). exists j. split; [by apply elem_of_app; left|done].
    + exists i. split_and!; [by apply elem_of_app; right; left|done..].
  - apply Forall2_app; [|constructor; [|constructor]].
    + eapply Forall2_impl; [exact nb_answers0|]. intros j a [Hj Ha]. split; [done|].
      destruct (ap_inserted a); [by apply elem_of_app; left|destruct Ha; [left; by apply elem_of_app; left|by right]].
    + simpl. split; [done|]. by apply elem_of_app; right; left.
Qed.

(** ** The line *)

Definition has_session (id : string) (t : Tables) : Prop := exists m, m ∈ sessions t /\ m_id m = id.
Definition has_inspection (id : string) (t : Tables) : Prop := exists r, r ∈ inspections t /\ pi_id r = id.
Definition has_flow (session_id : string) (flow_no : Z) (t : Tables) : Prop :=
  exists f, f ∈ flows t /\ fl_session_id f = session_id /\ fl_flow_no f = flow_no.

(** What the provider was told is in the database: the session and its inspection, and where frames are to be
    saved the flow, whose number is the identity they are saved under. *)
Definition recorded (t : Tables) (told : string * Value) : Prop := exists id,
  get_str "sessionId" (snd told) = Some id /\ has_session id t /\
  get_str "inspectionId" (snd told) = Some ("INSP-" +:+ id) /\ has_inspection ("INSP-" +:+ id) t /\
  (get_bool "saveEnabled" (snd told) = Some true ->
     exists flow_no, has_flow id flow_no t /\ get_str "id" (snd told) = Some (dec flow_no)).

Record line_ok (s : LineState) : Prop := {
  line_tables : tables_ok (tables s);
  line_recorded : Forall (recorded (tables s)) (posted s);
}.

Record line_grows (s s' : LineState) : Prop := {
  line_grow : grows (tables s) (tables s');
  line_posted : posted s `prefix_of` posted s';
}.

#[global] Instance line_grows_preorder : PreOrder line_grows.
Proof. split; [by intros s; split|]. intros s1 s2 s3 [] []. split; by etrans. Qed.

Lemma has_session_mono id t t' : grows t t' -> has_session id t -> has_session id t'.
Proof. intros Hg (m & Hm & <-). destruct (grow_sessions _ _ Hg m Hm) as (m' & Hm' & <-). by exists m'. Qed.
Lemma has_inspection_mono id t t' : grows t t' -> has_inspection id t -> has_inspection id t'.
Proof. intros Hg (r & Hr & <-). destruct (grow_inspections _ _ Hg r Hr) as (r' & Hr' & <- & _). by exists r'. Qed.
Lemma has_flow_mono id no t t' : grows t t' -> has_flow id no t -> has_flow id no t'.
Proof.
  intros Hg (f & Hf & <- & <-). destruct (grow_flows _ _ Hg f Hf) as (f' & Hf' & [<- <- _ _]). by exists f'.
Qed.

Lemma recorded_mono t t' told : grows t t' -> recorded t told -> recorded t' told.
Proof.
  intros Hg (id & E1 & Hs & E2 & Hi & Hf). exists id. split_and!; [done|by eapply has_session_mono|done|by eapply has_inspection_mono|].
  intros Hsave. destruct (Hf Hsave) as (no & Hno & E). exists no. split; [by eapply has_flow_mono|done].
Qed.

Create HintDb line discriminated.
#[export] Hint Resolve has_session_mono has_inspection_mono has_flow_mono recorded_mono : line.

(** An answer that is not an error satisfies [P]. *)
Definition on_ok {A E} (P : LineState -> A -> Prop) (s : LineState) (r : Result A E) : Prop :=
  match r with Ok a => P s a | Err _ => True end.

(** The same tables and posts as before. *)
Definition unmoved (s s' : LineState) : Prop := tables s' = tables s /\ posted s' = posted s.

Lemma line_ok_unmoved s s' : unmoved s s' -> line_ok s -> line_ok s'.
Proof. intros [E1 E2] []. constructor; rewrite E1, ?E2; done. Qed.
Lemma grows_unmoved s s' : unmoved s s' -> line_grows s s'.
Proof. intros [E1 E2]. constructor; by rewrite ?E1, ?E2. Qed.

Lemma line_ok_step s t : line_ok s -> keeps_tables (tables s) t -> forall s', tables s' = t -> posted s' = posted s ->
  line_ok s' /\ line_grows s s'.
Proof.
  intros [Hok Hr] [Hok' Hg] s' <- Ep. split; constructor; rewrite ?Ep; try done.
  eapply Forall_impl; [exact Hr|]. intros told. by apply recorded_mono.
Qed.

Abbreviation Keeps := (keeps line_ok line_grows).

Section Logic.
Context `{LineEnv} `{JsonCodec}.

Lemma keeps_ask {A} (answer : nat -> A) Q s : line_ok s -> (forall s' a, unmoved s s' -> Q s' a) -> Keeps Q s (ask answer).
Proof.
  intros Hs HQ. unfold ask. apply keeps_atomically; simpl; [by apply (line_ok_unmoved s)|by apply grows_unmoved|by apply HQ].
Qed.

Lemma keeps_clock Q s : line_ok s -> (forall s' a, unmoved s s' -> Q s' a) -> Keeps Q s clock.
Proof.
  intros Hs HQ. unfold clock. apply keeps_bind, keeps_ask; [done|]. intros s' now Hs'. apply keeps_ret. by apply HQ.
Qed.

Lemma keeps_statement {A} f (P : LineState -> A -> Prop) s : line_ok s ->
  (forall a t, f (tables s) = Ok (a, t) -> keeps_tables (tables s) t /\
     forall s', tables s' = t -> posted s' = posted s -> P s' a) ->
  Keeps (on_ok P) s (statement f).
Proof.
  intros Hs Hf. unfold statement. apply keeps_bind, keeps_ask; [done|]. intros s1 fate Hu.
  pose proof (line_ok_unmoved _ _ Hu Hs) as Hs1. destruct Hu as [Et Ep]. rewrite <- Et in Hf.
  assert (Hdone : forall a t s2, f (tables s1) = Ok (a, t) -> tables s2 = t -> posted s2 = posted s1 ->
    line_ok s2 /\ line_grows s1 s2 /\ P s2 a).
  { intros a t s2 E Et2 Ep2. destruct (Hf a t E) as [Hk HP].
    destruct (line_ok_step s1 t Hs1 Hk s2 Et2 Ep2). split_and!; [done..|]. apply HP; congruence. }
  destruct fate as [|message|message].
  - apply keeps_atomically; destruct (f (tables s1)) as [[a t]|e] eqn:E; simpl; try done;
      by apply (Hdone a t (with_tables t s1)).
  - apply keeps_bind, keeps_atomically; simpl; [by apply (line_ok_unmoved s1)|by apply grows_unmoved|by apply keeps_ret].
  - apply keeps_bind, keeps_atomically; simpl; [| |by apply keeps_ret];
      (destruct (f (tables s1)) as [[a t]|e] eqn:E; [by apply (Hdone a t)|]);
      [by apply (line_ok_unmoved s1)|by apply grows_unmoved].
Qed.

Lemma keeps_select {A} (f : Tables -> A) s : line_ok s ->
  Keeps (on_ok (fun s' a => unmoved s s' /\ a = f (tables s))) s (select f).
Proof.
  intros Hs. apply keeps_statement; [done|]. intros a t [= <- <-]. split; [apply keeps_same, Hs|]. by intros s' Et Ep.
Qed.

(** Writing a table nothing is said about. *)
Lemma keeps_log {A} f s : line_ok s ->
  (forall a t, f (tables s) = Ok (a, t) -> sessions t = sessions (tables s) /\ flows t = flows (tables s) /\
     flow_seq t = flow_seq (tables s) /\ inspections t = inspections (tables s) /\ images t = images (tables s)) ->
  Keeps (on_ok (fun _ (_ : A) => True)) s (statement f).
Proof.
  intros Hs Hf. apply keeps_statement; [done|]. intros a t E. destruct (Hf a t E) as (? & ? & ? & ? & ?).
  split; [|done]. by apply keeps_other; [apply Hs|..].
Qed.

(** Programs whose answer does not matter. *)
Lemma keeps_any {A} (Q : LineState -> A -> Prop) s p : line_ok s -> Keeps Q s p -> Keeps (fun _ _ => True) s p.
Proof. intros Hs HK. by eapply keeps_mono; [apply _|done| |exact HK]. Qed.

Lemma keeps_map_error {A E F} (g : E -> F) (m : Line (Result A E)) P s : line_ok s ->
  Keeps (on_ok P) s m -> Keeps (on_ok P) s (map_error g m).
Proof.
  intros Hs Hm. unfold map_error. eapply keeps_seq; [apply _|done|exact Hm|]. intros s' [a|e] _ _ HP; by apply keeps_ret.
Qed.

Lemma keeps_try_ok {A B E} (m : Line (Result A E)) (f : A -> Line (Result B E)) P P' s : line_ok s ->
  Keeps (on_ok P) s m ->
  (forall s' a, line_ok s' -> line_grows s s' -> P s' a -> Keeps (on_ok P') s' (f a)) -> Keeps (on_ok P') s (try_bind m f).
Proof. intros Hs Hm Hf. by eapply keeps_try; [apply _|done|exact Hm|done|]. Qed.

(** Sequencing with the questions, reads and calls the programs are made of. *)
Lemma keeps_let_ask {A B} (answer : nat -> A) (k : A -> Line B) Q s : line_ok s ->
  (forall s' a, line_ok s' -> unmoved s s' -> Keeps Q s' (k a)) -> Keeps Q s (prog_bind (ask answer) k).
Proof. intros Hs Hk. apply keeps_bind, keeps_ask; [done|]. intros s' a Hu. by apply Hk; [apply (line_ok_unmoved s)|]. Qed.

Lemma keeps_let_clock {B} (k : string -> Line B) Q s : line_ok s ->
  (forall s' now, line_ok s' -> unmoved s s' -> Keeps Q s' (k now)) -> Keeps Q s (prog_bind clock k).
Proof. intros Hs Hk. apply keeps_bind, keeps_clock; [done|]. intros s' a Hu. by apply Hk; [apply (line_ok_unmoved s)|]. Qed.

Lemma keeps_try_select {A B} (f : Tables -> A) (k : A -> Line (Result B string)) P s : line_ok s ->
  (forall s', line_ok s' -> unmoved s s' -> Keeps (on_ok P) s' (k (f (tables s)))) -> Keeps (on_ok P) s (try_bind (select f) k).
Proof.
  intros Hs Hk. eapply keeps_try_ok; [done|by apply keeps_select|]. intros s' a Hs' _ [Hu ->]. by apply Hk.
Qed.

Lemma keeps_let {A B} (m : Line A) (k : A -> Line B) P Q s : line_ok s -> Keeps P s m ->
  (forall s' a, line_ok s' -> line_grows s s' -> P s' a -> Keeps Q s' (k a)) -> Keeps Q s (prog_bind m k).
Proof. intros Hs. by apply keeps_seq; [apply _|]. Qed.

Lemma keeps_audit actor action target detail level s : line_ok s ->
  Keeps (fun _ _ => True) s (append_audit_log actor action target detail level).
Proof.
  intros Hs. apply keeps_let_clock; [done|]. intros s1 nanos Hs1 _. apply keeps_let_clock; [done|]. intros s2 now Hs2 _.
  eapply keeps_any; [done|]. apply keeps_log; [done|]. intros a t. by case_match; intros [= <- <-].
Qed.

(** *** Operations *)

Lemma keeps_upsert_session i s : line_ok s ->
  Keeps (on_ok (fun s' m => m ∈ sessions (tables s') /\ m_id m = mi_id i /\ m_status m = mi_status i)) s (upsert_material_session i).
Proof.
  intros Hs. apply keeps_let_clock; [done|]. intros s1 now Hs1 _. apply keeps_try_select; [done|]. intros s2 Hs2 [Et _]. rewrite <- Et.
  destruct (List.find _ _) as [model|] eqn:E.
  - apply find_elem in E as [Hm Em]. apply keeps_statement; [done|]. intros m t. destruct (updated _ _ _) as [[row rows]|] eqn:Eu; [|done].
    intros [= <- <-]. apply updated_ok in Eu as (r & Hr & Er & -> & ->). bool_facts. split.
    + apply keeps_sessions; [apply Hs2|by rewrite map_update; [apply Hs2|]|by apply persist_update].
    + intros s' -> _. split; [|split; [simpl; congruence|done]].
      pose proof (update_elem (fun m => m_id m == m_id model) (session_set i now) _ _ Hr) as Hin. simpl in Hin.
      by rewrite (proj2 (String.eqb_eq _ _) Er) in Hin.
  - apply keeps_statement; [done|]. intros m t. destruct (existsb _ _) eqn:Ex; [done|]. intros [= <- <-]. split.
    + apply keeps_sessions; [apply Hs2| |by apply persist_app]. apply nodup_snoc; [apply Hs2|].
      intros b Hb. pose proof (existsb_none _ _ b Ex Hb). simpl in *. by bool_facts.
    + intros s' -> _. split; [by apply elem_of_app; right; left|done].
Qed.

(** What an upsert sets never loses replay provenance. *)
Lemma inspection_set_sticky i e r : provenance_conflict r e = false -> sticky r (inspection_set i e r r).
Proof.
  intros Hc. constructor; simpl.
  - by intros ->.
  - by intros [? _]%andb_true_iff.
  - intros Hp. rewrite Hp. simpl. split_and!; intros Hn; apply String.eqb_neq in Hn;
      [by rewrite Hn|..]; (rewrite orb_comm; destruct (is_empty _) eqn:Ee; [bool_facts; by rewrite Ee in Hn|done]).
Qed.

Lemma keeps_upsert_inspection i s : line_ok s ->
  Keeps (on_ok (fun s' r => r ∈ inspections (tables s') /\ pi_id r = ii_id i /\ pi_status r = ii_status i)) s (upsert_production_inspection i).
Proof.
  intros Hs. apply keeps_try_select; [done|]. intros s2 Hs2 [Et _]. rewrite <- Et.
  destruct (List.find _ _) as [model|] eqn:E; [destruct (provenance_conflict _ _) eqn:Ec; [by apply keeps_ret|]|].
  - apply find_elem in E as [Hm Em]. bool_facts. apply keeps_statement; [done|]. intros m t.
    destruct (updated _ _ _) as [[row rows]|] eqn:Eu; [|done]. intros [= <- <-].
    apply updated_ok in Eu as (r & Hr & Er & -> & ->). bool_facts.
    assert (Hone : forall a, a ∈ inspections (tables s2) -> (pi_id a == pi_id model) = true -> a = model).
    { intros a Ha Ea. bool_facts. apply (nodup_eq pi_id (inspections (tables s2))); [apply Hs2|done..]. }
    split.
    + apply keeps_inspections; [apply Hs2|by rewrite map_update; [apply Hs2|]|]. apply persist_update; [by intros ?; split|].
      intros a Ha Ea. rewrite (Hone a Ha Ea). split; [done|]. by apply inspection_set_sticky.
    + intros s' -> _. split; [|split; [simpl; congruence|done]].
      pose proof (update_elem (fun r => pi_id r == pi_id model) (inspection_set i (production_source_evidence (ii_raw_payload i)) model) _ _ Hr) as Hin.
      simpl in Hin. by rewrite (proj2 (String.eqb_eq _ _) Er) in Hin.
  - apply keeps_statement; [done|]. intros m t. destruct (existsb _ _) eqn:Ex; [done|]. intros [= <- <-]. split.
    + apply keeps_inspections; [apply Hs2| |by apply persist_app; intros ?; split]. apply nodup_snoc; [apply Hs2|].
      intros b Hb. pose proof (existsb_none _ _ b Ex Hb). simpl in *. by bool_facts.
    + intros s' -> _. split; [by apply elem_of_app; right; left|done].
Qed.

Lemma keeps_update_flow_by model f (session_id : string) s : line_ok s -> model ∈ flows (tables s) -> fl_session_id model = session_id ->
  (forall r, r ∈ flows (tables s) -> fl_flow_no r = fl_flow_no model -> flow_same r (f r)) ->
  (forall r, fl_flow_no (f r) = fl_flow_no r /\ fl_session_id (f r) = fl_session_id r) ->
  Keeps (on_ok (fun s' row => row ∈ flows (tables s') /\ fl_session_id row = session_id /\ exists r, row = f r)) s
    (statement (update_flow (fl_flow_no model) f)).
Proof.
  intros Hs Hm Es Hsame Hf. apply keeps_statement; [done|]. intros row t E.
  destruct (keeps_update_flow _ _ _ _ _ (line_tables _ Hs) Hsame (fun r _ => Hf r) E) as (Hk & Hrow & r & Hr & En & ->).
  split; [done|]. intros s' -> _. split; [done|split; [|by exists r]]. rewrite (proj2 (Hf r)), <- Es. f_equal.
  apply (nodup_eq fl_flow_no (flows (tables s))); [apply Hs|done..].
Qed.

(** The row, without where its columns come from. *)
Lemma keeps_row {A} (P P' : LineState -> A -> Prop) s (m : Line (Result A string)) :
  (forall s a, P s a -> P' s a) -> Keeps (on_ok P) s m -> Keeps (on_ok P') s m.
Proof. intros HP Hm. eapply keeps_post; [exact Hm|]. intros s' [a|e]; [apply HP|done]. Qed.

Lemma keeps_start_flow i s : line_ok s ->
  Keeps (on_ok (fun s' f => f ∈ flows (tables s') /\ fl_session_id f = fi_session_id i)) s (start_steel_flow i).
Proof.
  intros Hs. apply keeps_let_clock; [done|]. intros s1 now Hs1 _. apply keeps_try_select; [done|]. intros s2 Hs2 [Et _]. rewrite <- Et.
  destruct (flow_of_session _ _) as [model|] eqn:E.
  { apply find_elem in E as [Hm Em]. bool_facts. eapply keeps_row; [|apply keeps_update_flow_by with (session_id := fi_session_id i); try done]; [by intros s' f (? & ? & _)|].
    intros r _ _. constructor; [done..|by left]. }
  eapply keeps_try_ok with (P := fun _ no => from_option (fun n => 1 <= n) True no); [done| |].
  { destruct (0 <? fi_minimum_flow_no i) eqn:Em; [|by apply keeps_ret]. bool_facts. apply keeps_try_select; [done|]. intros s3 _ _.
    apply keeps_ret. simpl. lia. }
  intros s3 no Hs3 _ Hno. eapply keeps_try_ok with (P := fun s' f => f ∈ flows (tables s') /\ fl_session_id f = fi_session_id i); [done| |].
  { apply keeps_statement; [done|]. intros f t Ei. destruct (keeps_insert_flow _ _ (flow_new i now) _ _ (line_tables _ Hs3) ltac:(done) Hno Ei) as (Hk & Hf & Ef).
    split; [done|]. intros s' -> _. split; [done|]. by rewrite Ef. }
  intros s4 f Hs4 _ [Hf Es]. eapply keeps_row; [|apply keeps_update_flow_by with (session_id := fi_session_id i); try done]; [by intros s' g (? & ? & _)|].
  intros r Hr En. constructor; try done.
  pose proof (proj1 (Forall_forall _ _) (ok_flows _ (line_tables _ Hs4)) r Hr) as Hok. simpl. rewrite <- En.
  destruct (flow_coded_ok _ _ _ Hok) as [Ec|Ec]; [by right|by left].
Qed.

Lemma keeps_flow_status session_id status finished_at raw s : line_ok s ->
  Keeps (on_ok (fun s' flow => match flow with
                               | Some f => f ∈ flows (tables s') /\ fl_session_id f = session_id /\ fl_status f = status
                               | None => forall n, ~ has_flow session_id n (tables s)
                               end)) s (update_steel_flow_status session_id status finished_at raw).
Proof.
  intros Hs. apply keeps_try_select; [done|]. intros s2 Hs2 [Et _]. rewrite <- Et.
  destruct (flow_of_session _ _) as [model|] eqn:E.
  2: { apply keeps_ret. intros n (f & Hf & Ef & _). rewrite list_elem_of_In in Hf.
       pose proof (List.find_none _ _ E f Hf) as Hx. simpl in Hx. by bool_facts. }
  apply find_elem in E as [Hm Em]. bool_facts. apply keeps_let_clock; [done|]. intros s3 now Hs3 [Et3 _]. rewrite <- Et3 in Hm.
  eapply keeps_try_ok with (P := fun s' f => f ∈ flows (tables s') /\ fl_session_id f = session_id /\ fl_status f = status);
    [done| |intros; by apply keeps_ret].
  eapply keeps_row; [|apply keeps_update_flow_by with (session_id := session_id); try done]; [by intros s' f (? & ? & r & ->)|].
  intros r _ _. constructor; [done..|by left].
Qed.

Lemma keeps_number flow_no next known inputs done n s : line_ok s -> numbered flow_no next known done n ->
  Keeps (fun s' n' => unmoved s s' /\ numbered flow_no next known (done ++ inputs) n') s (number_images flow_no inputs n).
Proof.
  revert done n s. induction inputs as [|i inputs IH]; intros done n s Hs Hn; simpl.
  { apply keeps_ret. by rewrite app_nil_r. }
  replace (done ++ i :: inputs) with ((done ++ [i]) ++ inputs) by by rewrite <- app_assoc.
  destruct (known_image _ _) as [g|] eqn:E; [by apply IH, numbered_known|].
  apply keeps_let_clock; [done|]. intros s1 now Hs1 [Et Ep].
  eapply keeps_mono; [apply _|done| |apply IH; [done|by apply numbered_new]].
  intros s' n' _ _ [[Et' Ep'] Hn']. split; [split; congruence|done].
Qed.

Lemma insert_images_some rows new rows' : insert_images rows new = Some rows' ->
  rows' = rows ++ new /\ forall g h, g ∈ new -> h ∈ rows -> image_clash g h = false.
Proof.
  revert rows. induction new as [|g new IH]; simpl; intros rows; [intros [= <-]; rewrite app_nil_r; split; [done|by intros ? ? ?%elem_of_nil]|].
  destruct (existsb _ _) eqn:E; [done|]. intros [-> Hc]%IH. rewrite <- app_assoc. split; [done|].
  intros a h [->|Ha]%elem_of_cons Hh; [by eapply existsb_none|]. apply Hc; [done|]. by apply elem_of_app; left.
Qed.

(** A batch of images goes into the table. *)
Lemma keeps_images t flow session_id inputs n now rows row t' : tables_ok t -> flow ∈ flows t -> fl_session_id flow = session_id ->
  Forall (fun i => gi_session_id i = session_id) inputs ->
  numbered (fl_flow_no flow) (Z.max (fl_next_image_no flow) 1) (List.rev (existing_images (fl_flow_no flow) inputs (images t))) inputs n ->
  insert_images (images t) (nb_models n) = Some rows ->
  update_flow (fl_flow_no flow) (flow_with_images (nb_next n) now) t = Ok (row, t') -> keeps_tables t (with_images rows t').
Proof.
  intros Hok Hflow Es Hin Hn [-> Hclash]%insert_images_some Eu.
  destruct (update_flow_unique _ _ (flow_with_images (nb_next n) now) _ _ Hok ltac:(done) Eu) as (r & Hr & Er & -> & -> & N1 & N2 & N3).
  assert (r = flow) as -> by (apply (nodup_eq fl_flow_no (flows t)); [apply Hok|done..]). clear Er Hr.
  pose proof (proj1 (Forall_forall _ _) (ok_flows _ Hok) flow Hflow) as Hfl.
  assert (Hone : forall a, a ∈ flows t -> fl_flow_no a = fl_flow_no flow -> a = flow).
  { intros a Ha Ea. by apply (nodup_eq fl_flow_no (flows t)); [apply Hok|..]. }
  assert (Enext : Z.max (fl_next_image_no flow) 1 = fl_image_count flow + 1) by (destruct Hfl; lia). rewrite Enext in Hn.
  set (f := flow_with_images (nb_next n) now) in *.
  assert (Hp : persist flow_step (flows t) (update_where (fun r => fl_flow_no r =? fl_flow_no flow) f (flows t))).
  { apply persist_update; [apply flow_step_preorder|]. intros a Ha Ea. bool_facts. rewrite (Hone a Ha Ea). constructor; [done..|]. simpl.
    rewrite (nb_next_ok _ _ _ _ _ Hn). lia. }
  assert (Hnum : forall a, a ∈ flows t -> fl_flow_no a <> fl_flow_no flow -> images_of (nb_models n) (fl_flow_no a) = []).
  { intros a Ha Ea. apply images_of_none. eapply Forall_impl; [exact (nb_flow _ _ _ _ _ Hn)|]. intros g ->. by intros E'. }
  split; [|by constructor; [apply persist_refl|apply persist_refl; intros ?; split|done|eexists]].
  destruct Hok. constructor; try done; simpl.
  - apply Forall_forall. intros a (b & Hb & ->)%elem_update. pose proof (proj1 (Forall_forall _ _) ok_flows0 b Hb) as Hb'.
    destruct (fl_flow_no b =? fl_flow_no flow) eqn:Eb; bool_facts.
    + rewrite (Hone b Hb Eb). clear b Hb Hb' Eb. destruct Hfl, Hn. constructor; simpl; rewrite ?images_of_app; try done.
      * lia.
      * lia.
      * rewrite (images_of_all (nb_models n)) by done. rewrite map_app, flow_numbering0, nb_numbers0, nb_next_ok0.
        rewrite (Z.add_comm (fl_image_count flow) 1), <- seqZ_app by lia. f_equal. lia.
      * rewrite (images_of_all (nb_models n)), map_app by done. apply NoDup_app. split_and!; [done| |done].
        intros k (g & -> & Hg)%list_elem_of_fmap (h & Ek & Hh)%list_elem_of_fmap. apply images_of_elem in Hg as [Hg Eg].
        pose proof (Hclash h g Hh Hg) as Hc. unfold image_clash in Hc. rewrite (proj1 (Forall_forall _ _) nb_flow0 h Hh), Eg, Z.eqb_refl in Hc.
        simpl in Hc. apply orb_false_iff in Hc as [_ Hc]. symmetry in Ek. apply key_eqb_true in Ek. congruence.
    + destruct Hb'. constructor; simpl; rewrite ?images_of_app, ?(Hnum b Hb Eb), ?app_nil_r; done.
  - apply Forall_app. split.
    + eapply Forall_impl; [exact ok_images0|]. intros g. by apply image_owned_mono.
    + apply Forall_forall. intros g Hg. apply (image_owned_mono (flows t)); [done|]. exists flow. split; [done|].
      split; [symmetry; apply (proj1 (Forall_forall _ _) (nb_flow _ _ _ _ _ Hn) g Hg)|].
      destruct (proj1 (Forall_forall _ _) (nb_inputs _ _ _ _ _ Hn) g Hg) as (i & Hi & _ & ->).
      rewrite Es. symmetry. apply (proj1 (Forall_forall _ _) Hin i Hi).
Qed.

Lemma numbered_start flow_no next known : numbered flow_no next known [] (mkNumbering known [] next []).
Proof. constructor; simpl; try done; [lia|constructor|by intros ? ? ?%elem_of_nil]. Qed.

Lemma batch_session inputs session_id : existsb (fun i => gi_session_id i != session_id) inputs = false ->
  Forall (fun i => gi_session_id i = session_id) inputs.
Proof. intros E. apply Forall_forall. intros i Hi. pose proof (existsb_none _ _ i E Hi) as Hx. simpl in Hx. by bool_facts. Qed.

Lemma keeps_append_images inputs s : line_ok s -> Keeps (on_ok (fun _ _ => True)) s (append_steel_flow_images inputs).
Proof.
  intros Hs. unfold append_steel_flow_images. destruct inputs as [|first rest] eqn:Ei; [by apply keeps_ret|]. rewrite <- Ei. clear Ei rest.
  set (session_id := gi_session_id first). destruct (existsb _ inputs) eqn:Eb; [by apply keeps_ret|]. apply batch_session in Eb.
  apply keeps_try_select; [done|]. intros s1 Hs1 [Et1 _]. rewrite <- Et1.
  destruct (flow_of_session _ _) as [flow|] eqn:Ef; [|by apply keeps_ret]. apply find_elem in Ef as [Hflow Es]. bool_facts.
  apply keeps_try_select; [done|]. intros s2 Hs2 [Et2 _]. rewrite <- Et2 in *.
  eapply keeps_let; [done|apply (keeps_number _ _ _ inputs [] _ s2 Hs2 (numbered_start _ _ _))|].
  intros s3 n Hs3 _ [[Et3 _] Hn]. rewrite <- Et3 in *. destruct (nb_models n) as [|g gs] eqn:Em; [|rewrite <- Em; clear Em g gs].
  - eapply keeps_try_ok; [done|by apply keeps_log; [|intros a t [= _ <-]]|intros; by apply keeps_ret].
  - apply keeps_let_clock; [done|]. intros s4 now Hs4 [Et4 _]. rewrite <- Et4 in *.
    eapply keeps_try_ok with (P := fun _ _ => True); [done| |intros; by apply keeps_ret]. apply keeps_statement; [done|]. intros a t.
    destruct (insert_images _ _) as [rows|] eqn:Er; [|done]. destruct (update_flow _ _ _) as [[row t']|] eqn:Eu; [|done].
    intros [= <- <-]. split; [|done]. eapply keeps_images; try done; [apply Hs4|..]; done.
Qed.

Lemma keeps_number_captures position keys inputs s : line_ok s ->
  Keeps (fun s' _ => unmoved s s') s (number_captures position keys inputs).
Proof.
  revert position keys s. induction inputs as [|i inputs IH]; intros position keys s Hs; simpl; [by apply keeps_ret|].
  destruct (existsb _ _); [by apply IH|]. apply keeps_let_clock; [done|]. intros s1 nanos Hs1 [Et1 Ep1].
  apply keeps_let_clock; [done|]. intros s2 now Hs2 [Et2 Ep2]. eapply keeps_let; [done|by apply IH|].
  intros s3 models Hs3 _ [Et3 Ep3]. apply keeps_ret. split; congruence.
Qed.

Lemma keeps_append_captures inputs s : line_ok s -> Keeps (on_ok (fun _ _ => True)) s (append_capture_files inputs).
Proof.
  intros Hs. unfold append_capture_files. destruct inputs as [|first rest] eqn:Ei; [by apply keeps_ret|]. rewrite <- Ei. clear Ei rest.
  destruct (existsb _ inputs); [by apply keeps_ret|]. apply keeps_try_select; [done|]. intros s1 Hs1 _.
  eapply keeps_let; [done|by apply keeps_number_captures|]. intros s2 models Hs2 _ _.
  eapply keeps_try_ok with (P := fun _ _ => True); [done| |intros; by apply keeps_ret].
  apply keeps_log; [done|]. intros a t. by case_match; intros [= <- <-].
Qed.

Lemma keeps_append_capture i s : line_ok s -> Keeps (on_ok (fun _ _ => True)) s (append_capture_file i).
Proof.
  intros Hs. apply keeps_try_select; [done|]. intros s1 Hs1 _. destruct (List.find _ _).
  - apply keeps_let_clock; [done|]. intros s2 now Hs2 _. apply keeps_log; [done|]. intros a t.
    destruct (updated _ _ _) as [[row rows]|]; [|done]. by intros [= <- <-].
  - apply keeps_let_clock; [done|]. intros s2 nanos Hs2 _. apply keeps_let_clock; [done|]. intros s3 now Hs3 _.
    apply keeps_log; [done|]. intros a t. by case_match; intros [= <- <-].
Qed.

Lemma keeps_trigger i s : line_ok s -> Keeps (fun _ _ => True) s (append_trigger_event i).
Proof.
  intros Hs. apply keeps_let_clock; [done|]. intros s1 nanos Hs1 _. apply keeps_let_clock; [done|]. intros s2 now Hs2 _.
  eapply keeps_any; [done|]. apply keeps_log; [done|]. intros a t. by case_match; intros [= <- <-].
Qed.

Lemma keeps_secondary i s : line_ok s -> Keeps (fun _ _ => True) s (append_secondary_data i).
Proof.
  intros Hs. apply keeps_let_clock; [done|]. intros s1 nanos Hs1 _. apply keeps_let_clock; [done|]. intros s2 now Hs2 _.
  eapply keeps_any; [done|]. apply keeps_log; [done|]. intros a t. by case_match; intros [= <- <-].
Qed.

Lemma keeps_count s : line_ok s -> Keeps (on_ok (fun _ _ => True)) s count_open_tasks.
Proof. intros Hs. apply keeps_let_ask; [done|]. intros s1 rows Hs1 _. apply keeps_log; [done|]. by intros a t [= _ <-]. Qed.

Lemma keeps_parse body s : line_ok s -> Keeps (on_ok (fun s' _ => unmoved s s')) s (parse_body body).
Proof.
  intros Hs. unfold parse_body. destruct (json_parse _); [by apply keeps_ret|]. apply keeps_let_ask; [done|]. intros s1 text Hs1 _. by apply keeps_ret.
Qed.

(** *** Requests *)

Lemma jget_insert_ne k k' v o : k <> k' -> jget k (jinsert k' v o) = jget k o.
Proof. intros Hne. destruct o; try done. by apply mget_minsert_ne. Qed.

Lemma payload_fields event payload r :
  get_str "sessionId" (provider_payload event payload r) = Some (mi_id (rg_input r)) /\
  get_str "inspectionId" (provider_payload event payload r) = Some ("INSP-" +:+ mi_id (rg_input r)) /\
  get_bool "saveEnabled" (provider_payload event payload r) = Some (event == "steel-in") /\
  get_str "id" (provider_payload event payload r) = Some (from_option (fun f => dec (fl_flow_no f)) (mi_material_id (rg_input r)) (rg_flow r)).
Proof.
  assert (Hf : forall k, one_of k ["flowCode"; "flowNo"; "autoCapture"; "captureMode"] = false ->
    jget k (provider_payload event payload r) = jget k (provider_payload_base event payload r)).
  { intros k Hk. simpl in Hk. bool_facts. unfold provider_payload.
    destruct (rg_flow r), (first_bool _ _ _), (rg_capture_mode r); by rewrite ?jget_insert_ne. }
  unfold get_str, get_bool. rewrite !Hf by reflexivity. unfold provider_payload_base. rewrite !jget_jobj. by split_and!.
Qed.

Definition registered (event : string) (t : Tables) (r : Registered) : Prop :=
  let id := mi_id (rg_input r) in
  has_session id t /\ has_inspection ("INSP-" +:+ id) t /\
  (event = "steel-in" -> exists f, rg_flow r = Some f /\ has_flow id (fl_flow_no f) t) /\
  m_id (rg_session r) = id /\ pi_id (rg_inspection r) = "INSP-" +:+ id.

Lemma keeps_admit worker body event actor s : line_ok s -> Keeps (on_ok (fun _ _ => True)) s (admit_event worker body event actor).
Proof.
  intros Hs. eapply keeps_try_ok; [done|by apply keeps_parse|]. intros s1 payload Hs1 _ _.
  eapply keeps_try_ok with (P := fun _ _ => True); [done| |].
  { destruct worker; [by apply keeps_ret|]. eapply keeps_try_ok; [done|by apply keeps_map_error, keeps_count|].
    intros s2 n Hs2 _ _. apply keeps_ret. by destruct (0 <? n). }
  intros s2 u Hs2 _ _. eapply keeps_try_ok; [done|by apply keeps_map_error, keeps_select|]. intros s3 open Hs3 _ _.
  eapply keeps_try_ok with (P := fun _ _ => True); [done|by apply keeps_ret; repeat case_match|]. intros s4 u' Hs4 _ _.
  apply keeps_let_clock; [done|]. intros s5 now Hs5 _. destruct (resolve_production_event_target _ _ _ _) as [target|]; [|by apply keeps_ret].
  cbv zeta. destruct (one_of event _ && _)%bool; [|by apply keeps_ret]. apply keeps_let_ask; [done|]. intros s6 health Hs6 _.
  destruct (new_session_storage_admission_response _ _ _ _); [|by apply keeps_ret].
  eapply keeps_let; [done|by apply keeps_audit|intros; by apply keeps_ret].
Qed.

Lemma keeps_event_flow event input s : line_ok s ->
  Keeps (on_ok (fun s' flow => event = "steel-in" -> exists f, flow = Some f /\ exists n, has_flow (fi_session_id (input n)) (fl_flow_no f) (tables s'))) s
    (event_flow event input).
Proof.
  intros Hs. unfold event_flow. destruct (event == "steel-in") eqn:E; bool_facts.
  - eapply keeps_let with (P := fun _ _ => True); [done| |].
    { destruct (is_empty _); [|by apply keeps_ret]. apply keeps_let_ask; [done|]. intros; by apply keeps_ret. }
    intros s1 minimum Hs1 _ _. eapply keeps_try_ok; [done|by apply keeps_map_error, keeps_start_flow|].
    intros s2 f Hs2 _ [Hf Es]. apply keeps_ret. intros _. exists f. split; [done|]. by exists minimum, f.
  - destruct (event == "steel-out"); [|by apply keeps_ret; intros Ein; destruct (E Ein)].
    eapply keeps_mono; [apply _|done| |by apply keeps_map_error, keeps_select]. intros s' [flow|e] _ _ _; [|done]. intros Ein. by destruct (E Ein).
Qed.

Lemma keeps_register event a s : line_ok s -> Keeps (on_ok (fun s' r => registered event (tables s') r)) s (register_event event a).
Proof.
  intros Hs. eapply keeps_try_ok with (P := fun _ _ => True); [done|by apply keeps_ret; repeat case_match|]. intros s1 capture Hs1 _ _.
  apply keeps_let_clock; [done|]. intros s2 now Hs2 _.
  eapply keeps_try_ok; [done|by apply keeps_event_flow|]. intros s3 flow Hs3 _ Hflow.
  eapply keeps_try_ok; [done|by apply keeps_map_error, keeps_upsert_session|]. intros s4 session Hs4 [G4 _] (Hm & Em & _).
  eapply keeps_try_ok; [done|by apply keeps_map_error, keeps_select|]. intros s5 existing Hs5 [G5 _] _.
  eapply keeps_try_ok; [done|by apply keeps_map_error, keeps_upsert_inspection|]. intros s6 inspection Hs6 [G6 _] (Hi & Ei & _).
  apply keeps_ret. simpl. split_and!; [|by exists inspection| |done..].
  - apply (has_session_mono _ (tables s4)); [by etrans|]. by exists session.
  - intros Hin. destruct (Hflow Hin) as (f & -> & n & Hf). exists f. split; [done|].
    eapply has_flow_mono; [|exact Hf]. etrans; [exact G4|by etrans].
Qed.

Lemma keeps_tell event payload r s : line_ok s -> registered event (tables s) r ->
  Keeps (fun _ _ => True) s (tell_provider event (provider_payload event payload r)).
Proof.
  intros Hs (Hm & Hi & Hf & _). unfold tell_provider. destruct simulation; [by apply keeps_ret|].
  destruct (payload_fields event payload r) as (F1 & F2 & F3 & F4).
  eapply keeps_let with (P := fun _ _ => True); [done| |intros s1 _ Hs1 _ _; apply keeps_let_ask; [done|intros; by apply keeps_ret]].
  apply keeps_atomically; [|constructor; [done|by apply prefix_app_r]|done]. constructor; [apply Hs|]. simpl. apply Forall_app. split; [apply Hs|].
  apply Forall_singleton. exists (mi_id (rg_input r)). simpl. split_and!; [done..|]. rewrite F3. intros [= E%String.eqb_eq].
  destruct (Hf E) as (f & Ef & Hflow). exists (fl_flow_no f). split; [done|]. by rewrite F4, Ef.
Qed.

Lemma keeps_file s : line_ok s -> Keeps (on_ok (fun _ _ => True)) s file_operation.
Proof.
  intros Hs. apply keeps_let_ask; [done|]. intros s1 [message|] Hs1 _; [|by apply keeps_ret].
  apply keeps_bind, keeps_atomically; [by apply (line_ok_unmoved s1)|by apply grows_unmoved|by apply keeps_ret].
Qed.

Lemma keeps_summary material_id session_id inspection_id provider s : line_ok s ->
  Keeps (fun _ _ => True) s (write_final_production_summary_file material_id session_id inspection_id provider).
Proof.
  intros Hs. eapply keeps_let; [done|by apply keeps_select|]. intros s1 [[inspection|]|e] Hs1 _ _; [|by apply keeps_ret..].
  cbv zeta. destruct (is_empty _); [by apply keeps_ret|]. eapply keeps_let; [done|by apply keeps_select|]. intros s2 session Hs2 _ _.
  eapply keeps_let; [done|by apply keeps_select|]. intros s3 [files|e] Hs3 _ _; [|by apply keeps_ret].
  apply keeps_let_clock; [done|]. intros s4 now Hs4 _.
  eapply keeps_let with (P := fun _ _ => True); [done|by destruct (has_parent (trim (pi_summary_path inspection))); [eapply keeps_any, keeps_file|apply keeps_ret]|].
  intros s5 [u|e] Hs5 _ _; [|by apply keeps_ret]. eapply keeps_let; [done|by apply keeps_file|]. intros s6 [u'|e] Hs6 _ _; [|by apply keeps_ret].
  apply keeps_bind, keeps_atomically; [by apply (line_ok_unmoved s6)|by apply grows_unmoved|by apply keeps_ret].
Qed.

Lemma keeps_dispatch event actor payload r s : line_ok s -> registered event (tables s) r ->
  Keeps (on_ok (fun _ _ => True)) s (dispatch_event event actor payload r).
Proof.
  intros Hs Hr. eapply keeps_let; [done|by apply keeps_tell|]. intros s1 provider Hs1 _ _.
  eapply keeps_let; [done|by apply keeps_trigger|]. intros s2 trigger Hs2 _ _.
  eapply keeps_try_ok; [done|by apply keeps_map_error, keeps_upsert_session|]. intros s3 m Hs3 _ _.
  eapply keeps_try_ok; [done|by apply keeps_map_error, keeps_upsert_inspection|]. intros s4 i Hs4 _ _.
  eapply keeps_try_ok with (P := fun _ _ => True); [done|by destruct (rg_flow r); [eapply keeps_row; [|apply keeps_map_error, keeps_flow_status]|apply keeps_ret]|].
  intros s5 flow Hs5 _ _. eapply keeps_let; [done|by apply keeps_audit|]. intros s6 u Hs6 _ _.
  eapply keeps_let with (P := fun _ _ => True); [done|by destruct (_ && _)%bool; [apply keeps_summary|apply keeps_ret]|]. intros; by apply keeps_ret.
Qed.

(** A handler answers with the response of its body, whichever way that ends. *)
Lemma keeps_answer (m : Line (Result string string)) P s : line_ok s -> Keeps (on_ok P) s m ->
  Keeps (fun _ _ => True) s (prog_bind m (fun answer => Ret (match answer with Ok response => response | Err response => response end))).
Proof. intros Hs Hm. eapply keeps_let; [done|exact Hm|]. intros; by apply keeps_ret. Qed.

Lemma keeps_event worker body event actor s : line_ok s ->
  Keeps (fun _ _ => True) s (write_production_event_response worker body event actor).
Proof.
  intros Hs. apply (keeps_answer _ (fun _ _ => True)); [done|]. eapply keeps_try_ok; [done|by apply keeps_admit|]. intros s1 a Hs1 _ _.
  eapply keeps_try_ok; [done|by apply keeps_register|]. intros s2 r Hs2 _ Hr. by apply keeps_dispatch.
Qed.

Lemma keeps_active_session payload s : line_ok s -> Keeps (fun _ _ => True) s (active_session_for_payload payload).
Proof.
  intros Hs. eapply keeps_let; [done|by apply keeps_select|]. intros s1 open Hs1 _ _. apply keeps_let_clock; [done|].
  intros; by apply keeps_ret.
Qed.

Lemma keeps_secondary_data body actor s : line_ok s -> Keeps (fun _ _ => True) s (write_secondary_data_response body actor).
Proof.
  intros Hs. apply (keeps_answer _ (fun _ _ => True)); [done|]. eapply keeps_try_ok; [done|by apply keeps_parse|]. intros s1 payload Hs1 _ _.
  eapply keeps_let; [done|by apply keeps_active_session|]. intros s2 [material_id session_id] Hs2 _ _.
  eapply keeps_let; [done|by apply keeps_secondary|]. intros s3 [row|e] Hs3 _ _; [|by apply keeps_ret].
  eapply keeps_let; [done|by apply keeps_audit|intros; by apply keeps_ret].
Qed.

Lemma keeps_append_each inputs s : line_ok s -> Keeps (on_ok (fun _ _ => True)) s (append_each inputs).
Proof.
  revert s. induction inputs as [|i inputs IH]; intros s Hs; simpl; [by apply keeps_ret|].
  eapply keeps_try_ok; [done|by apply keeps_append_capture|]. intros; by apply IH.
Qed.

Lemma keeps_append_results inspection_id session_id material_id results rows s : line_ok s ->
  Keeps (on_ok (fun _ _ => True)) s (append_results inspection_id session_id material_id results rows).
Proof.
  revert rows s. induction results as [|result results IH]; intros rows s Hs; simpl; [by apply keeps_ret|].
  eapply keeps_try_ok with (P := fun _ _ => True); [done| |intros; by apply IH].
  eapply keeps_try_ok; [done|by apply keeps_append_each|intros; by apply keeps_ret].
Qed.

Lemma keeps_capture_summary body actor s : line_ok s -> Keeps (fun _ _ => True) s (write_capture_summary_response body actor).
Proof.
  intros Hs. apply (keeps_answer _ (fun _ _ => True)); [done|]. eapply keeps_try_ok; [done|by apply keeps_parse|]. intros s1 payload Hs1 _ _.
  eapply keeps_let; [done|by apply keeps_active_session|]. intros s2 [material_id session_id] Hs2 _ _. cbv zeta.
  apply keeps_let_clock; [done|]. intros s3 now Hs3 _.
  eapply keeps_try_ok; [done|by apply keeps_map_error, keeps_upsert_inspection|]. intros s4 r Hs4 _ _.
  eapply keeps_try_ok; [done|by apply keeps_map_error, keeps_append_results|]. intros s5 rows Hs5 _ _.
  eapply keeps_let; [done|by apply keeps_audit|intros; by apply keeps_ret].
Qed.

Lemma keeps_capture_commit body s : line_ok s -> Keeps (fun _ _ => True) s (write_capture_commit_response body).
Proof.
  intros Hs. apply (keeps_answer _ (fun _ _ => True)); [done|]. eapply keeps_try_ok; [done|by apply keeps_parse|]. intros s1 payload Hs1 _ _.
  cbv zeta. destruct (is_empty _); [by apply keeps_ret|]. eapply keeps_try_ok; [done|by apply keeps_map_error, keeps_select|].
  intros s2 [flow|] Hs2 _ _; [|by apply keeps_ret]. destruct (results_of payload); [|by apply keeps_ret].
  eapply keeps_try_ok; [done|by apply keeps_map_error, keeps_append_images|]. intros s3 appended Hs3 _ _.
  eapply keeps_try_ok; [done|by apply keeps_map_error, keeps_append_captures|]. intros s4 rows Hs4 _ _.
  eapply keeps_let; [done|by apply keeps_select|intros; by apply keeps_ret].
Qed.

Lemma keeps_serve r s : line_ok s -> Keeps (fun _ _ => True) s (serve r).
Proof.
  destruct r; simpl; [apply keeps_event|apply keeps_secondary_data|apply keeps_capture_summary|apply keeps_capture_commit].
Qed.

(** A history of requests and kills that leads from one state of the line to another. *)
Definition history (s s' : LineState) : Prop := exists p, rtc (serial_step serve) (mkSerial s None) (mkSerial s' p).

Lemma history_keeps s s' : history s s' -> line_ok s -> line_ok s' /\ line_grows s s'.
Proof.
  intros [p Hr] Hs. apply (serial_reachable line_ok line_grows serve s (mkSerial s' p)); [done| |done]. intros r s2 Hs2. by apply keeps_serve.
Qed.

End Logic.

(** A database without rows. *)
Definition no_rows : Tables := mkTables [] [] 0 [] [] [] [] [] [].
Definition line_start : LineState := mkLineState no_rows [] [] 0 0.

Lemma line_start_ok : line_ok line_start.
Proof. repeat constructor; simpl; try lia. done. Qed.

(** ** Theorems *)

Section Theorems.
Context `{LineEnv} `{JsonCodec}.

(** C17. Recorded before captured. In every history of production requests, with any statement failing
    before or after taking effect and the process killed at any step: whatever body was handed to the
    capture provider, the session and the inspection it names are in the database, and if it switches
    saving on, the identity it gives the frames is the number of that session's flow. *)
Theorem captured_after_recorded (s : LineState) (told : string * Value) :
  history line_start s -> told ∈ posted s -> recorded (tables s) told.
Proof.
  intros Hh Ht. destruct (history_keeps _ _ Hh line_start_ok) as [Hok _].
  apply (proj1 (Forall_forall _ _) (line_recorded _ Hok) told Ht).
Qed.

(** C19. Replay provenance. Along every history, an inspection that was once marked as a replay stays
    marked, one that was not eligible for production never becomes eligible, and as long as it is either
    of the two, what is recorded of its source (mode, data set, run, session, content hash) never
    changes, and the row is not lost. *)
Theorem replay_provenance_survives (s1 s2 : LineState) (r : ProductionInspection) :
  history line_start s1 -> history s1 s2 -> r ∈ inspections (tables s1) ->
  exists r', r' ∈ inspections (tables s2) /\ pi_id r' = pi_id r /\ sticky r r'.
Proof.
  intros H1 H2 Hr. destruct (history_keeps _ _ H1 line_start_ok) as [Hok _]. destruct (history_keeps _ _ H2 Hok) as [_ [Hg _]].
  exact (grow_inspections _ _ Hg r Hr).
Qed.

(** C20. Flows and their images. Along every history a flow keeps its number, its session and, once it
    has one, its code, and no two flows share any of the three; its images are numbered 1, 2, ... up
    to its image count without gaps, no camera frame is there twice, and images are only added. *)
Theorem flow_identity_and_images (s1 s2 : LineState) (f : SteelFlow) :
  history line_start s1 -> history s1 s2 -> f ∈ flows (tables s1) ->
  exists f', f' ∈ flows (tables s2) /\ flow_step f f' /\
    (forall g, g ∈ flows (tables s2) ->
       fl_flow_no g = fl_flow_no f' \/ fl_session_id g = fl_session_id f' \/ fl_flow_code g = fl_flow_code f' -> g = f') /\
    map im_image_no (images_of (images (tables s2)) (fl_flow_no f')) = seqZ 1 (fl_image_count f') /\
    NoDup (map image_key (images_of (images (tables s2)) (fl_flow_no f'))) /\
    images_of (images (tables s1)) (fl_flow_no f) `prefix_of` images_of (images (tables s2)) (fl_flow_no f').
Proof.
  intros H1 H2 Hf. destruct (history_keeps _ _ H1 line_start_ok) as [Hok _].
  destruct (history_keeps _ _ H2 Hok) as [[Hok2 _] [[_ _ Hflows [gs Hgs]] _]]. destruct (Hflows f Hf) as (f' & Hf' & Hstep).
  pose proof (proj1 (Forall_forall _ _) (ok_flows _ Hok2) f' Hf') as Hflow. exists f'. split_and!; [done..| | | |].
  - intros g Hg [E|[E|E]]; [apply (nodup_eq fl_flow_no (flows (tables s2)))|apply (nodup_eq fl_session_id (flows (tables s2)))
      |apply (nodup_eq fl_flow_code (flows (tables s2)))]; try done; apply Hok2.
  - apply Hflow.
  - apply Hflow.
  - rewrite Hgs, images_of_app, (step_number _ _ Hstep). by apply prefix_app_r.
Qed.

End Theorems.
