(* ===== verification/ProductionOutcome.v ===== *)
(** * What a production request leaves behind

    Steel-in and steel-out open at most one session; an event answered with 200 is recorded with the
    outcome the provider gave; a capture commit that is sent again finds its images. Each holds
    whatever statement fails. *)

From S2P Require Import Prelude Json Http Db DeviceGuard Concurrent Serial Float64 ProductionStore ProductionEvents ProductionFacts.
From Stdlib Require Import Ascii SpecFloat.

(** ** What a program does not touch *)

Section Still.
Context {X : Type} (proj : LineState -> X).

(** At every point of a run of [p] the projection is what it was at the start. *)
Definition still {A} (p : Line A) : Prop := forall s, keeps (fun s' => proj s' = proj s) anyway (fun s' _ => proj s' = proj s) s p.

Lemma still_ret {A} (a : A) : still (Ret a).
Proof. done. Qed.

Lemma still_bind {A B} (m : Line A) (f : A -> Line B) : still m -> (forall a, still (f a)) -> still (prog_bind m f).
Proof.
  intros Hm Hf s. eapply keeps_seq; [apply _|done|apply Hm|]. intros s' a E _ _. pose proof (Hf a s') as H. rewrite E in H. exact H.
Qed.

Lemma still_try {A B E} (m : Line (Result A E)) (f : A -> Line (Result B E)) : still m -> (forall a, still (f a)) -> still (try_bind m f).
Proof. intros Hm Hf. apply still_bind; [done|]. intros [a|e]; [apply Hf|apply still_ret]. Qed.

Lemma still_map_error {A E F} (g : E -> F) (m : Line (Result A E)) : still m -> still (map_error g m).
Proof. intros Hm. apply still_bind; [done|]. intros r. apply still_ret. Qed.

Lemma still_updating f : (forall s, proj (f s) = proj s) -> still (updating f).
Proof. intros Hf s. by apply keeps_atomically; simpl. Qed.

Context `{LineEnv} `{JsonCodec}.
Hypothesis asked_still : forall s, proj (with_asked s) = proj s.
Hypothesis failed_still : forall s, proj (with_failed s) = proj s.

Lemma still_ask {A} (answer : nat -> A) : still (ask answer).
Proof. intros s. apply keeps_atomically; simpl; [apply asked_still|done|apply asked_still]. Qed.

Lemma still_clock : still clock.
Proof. apply still_bind; [apply still_ask|]. intros now. apply still_ret. Qed.

Lemma still_statement {A} f : (forall s (a : A) t, f (tables s) = Ok (a, t) -> proj (with_tables t s) = proj s) -> still (statement f).
Proof.
  intros Hf. apply still_bind; [apply still_ask|]. intros [|message|message].
  - intros s. apply keeps_atomically; destruct (f (tables s)) as [[a t]|e] eqn:E; simpl; done || by eapply Hf.
  - apply still_bind; [by apply still_updating|]. intros u. apply still_ret.
  - apply still_bind; [|intros u; apply still_ret]. apply still_updating. intros s. rewrite failed_still.
    destruct (f (tables s)) as [[a t]|e] eqn:E; eauto.
Qed.
End Still.

(** Decomposes a program into its statements; what is left says that a statement leaves the projection. *)
Ltac still_step :=
  first
    [ apply still_ret
    | apply still_ask; reflexivity
    | apply still_clock; reflexivity
    | apply still_map_error
    | apply still_try; [|intros ?]
    | apply still_statement; [reflexivity|reflexivity|]
    | apply still_updating; reflexivity
    | apply still_bind; [|intros ?]
    | match goal with
      | |- still _ (match ?x with _ => _ end) => destruct x
      | |- still _ (let _ := _ in _) => cbv zeta
      end ].

(** Statements of the shapes the store has. *)
Ltac still_rows :=
  intros ? ? ?; unfold update_flow, insert_flow; cbv zeta;
  repeat (case_match; try done); intros ?; simplify_eq; reflexivity.

(** An invariant on what a program does not touch. *)
Lemma still_keeps {X A} (proj : LineState -> X) (p : Line A) (I : LineState -> Prop) s : still proj p ->
  (forall s s', proj s' = proj s -> I s -> I s') -> I s -> keeps I anyway (fun s' _ => proj s' = proj s) s p.
Proof. intros Hp HI Hs. eapply keeps_weaken; [| |apply Hp]; [|done]. intros s' E. by apply (HI s). Qed.

(** A statement under an invariant on a table. *)
Lemma keeps_stmt `{LineEnv} {A} (I : Tables -> Prop) f (P : LineState -> A -> Prop) s : I (tables s) ->
  (forall t a t', I t -> f t = Ok (a, t') -> I t' /\ forall s', tables s' = t' -> P s' a) ->
  keeps (fun s => I (tables s)) anyway (on_ok P) s (statement f).
Proof.
  intros Hs Hf. unfold statement. apply keeps_bind, keeps_atomically; [done..|]. simpl. destruct (fate_of (asked s)).
  - apply keeps_atomically; simpl; destruct (f (tables s)) as [[a t]|e] eqn:E; simpl; try done; by apply (Hf (tables s) a t).
  - by apply keeps_bind, keeps_atomically.
  - apply keeps_bind, keeps_atomically; simpl; [|done|by apply keeps_ret]. destruct (f (tables s)) as [[a t]|e] eqn:E; simpl; [|done]. by apply (Hf (tables s) a t).
Qed.

(** ** One session at a time *)

Definition open_ids (rows : list MaterialSession) : list string := map m_id (List.filter session_open rows).

Lemma elem_open_ids rows id : id ∈ open_ids rows <-> exists m, m ∈ rows /\ session_open m = true /\ m_id m = id.
Proof.
  unfold open_ids. rewrite list_elem_of_fmap. split.
  - intros (m & -> & Hm). apply list_elem_of_In, filter_In in Hm as [Hm Ho]. exists m. by rewrite list_elem_of_In.
  - intros (m & Hm & Ho & <-). exists m. split; [done|]. apply list_elem_of_In, filter_In. by rewrite <- list_elem_of_In.
Qed.

(** At most the session [id] is open besides those open before. *)
Record only (id : string) (before : list string) (rows : list MaterialSession) : Prop := {
  only_unique : NoDup (map m_id rows);
  only_open : forall m, m ∈ rows -> session_open m = true -> m_id m = id \/ m_id m ∈ before;
}.

Lemma only_start id rows : NoDup (map m_id rows) -> only id (open_ids rows) rows.
Proof. intros Hn. constructor; [done|]. intros m Hm Ho. right. apply elem_open_ids. eauto. Qed.

Lemma only_update id before rows p f : only id before rows -> (forall m, p m = true -> m_id m = id) -> (forall m, m_id (f m) = m_id m) ->
  only id before (update_where p f rows).
Proof.
  intros [Hn Ho] Hp Hf. constructor; [by rewrite map_update|]. intros m (b & Hb & ->)%elem_update. destruct (p b) eqn:E; [|by apply Ho].
  intros _. left. by rewrite Hf, (Hp b E).
Qed.

Lemma only_insert id before rows m : only id before rows -> m_id m = id -> existsb (fun r => m_id r == id) rows = false ->
  only id before (rows ++ [m]).
Proof.
  intros [Hn Ho] E Hx. constructor.
  - apply nodup_snoc; [done|]. intros b Hb. pose proof (existsb_none _ _ b Hx Hb). simpl in *. bool_facts. congruence.
  - intros b [Hb| ->%list_elem_of_singleton]%elem_of_app; [by apply Ho|by left].
Qed.

Lemma latest_open_some rows m : latest_open_session rows = Some m -> m_id m ∈ open_ids rows.
Proof.
  unfold latest_open_session, order_desc. intros E%head_Some_elem_of. rewrite merge_sort_Permutation in E.
  unfold open_ids. apply list_elem_of_fmap. eauto.
Qed.

Lemma latest_open_none rows : latest_open_session rows = None -> open_ids rows = [].
Proof.
  unfold latest_open_session, order_desc. intros E%head_None. unfold open_ids.
  pose proof (merge_sort_Permutation (desc_le (fun m => (m_updated_at m, m_id m))) (List.filter session_open rows)) as Hp.
  rewrite E in Hp. apply Permutation_nil_l in Hp. by rewrite <- Hp.
Qed.

(** The session of a steel-in or steel-out is the open one. *)
Lemma resolve_active payload event m id now target : event = "steel-in" \/ event = "steel-out" ->
  resolve_production_event_target payload event (Some (m, id)) now = Ok target -> tg_session_id target = id.
Proof.
  intros He. unfold resolve_production_event_target.
  assert (one_of event ["steel-in"; "steel-out"] = true) as -> by (destruct He as [->| ->]; reflexivity).
  set (rm := material_id_from_payload payload ""). set (rs := value_string payload ["sessionId"; "session_id"]). rewrite andb_true_l.
  destruct (_ || _)%bool eqn:E; [by destruct (event == "steel-out")|]. apply orb_false_iff in E as [Em Es].
  intros [= <-]. simpl. destruct (is_empty rs) eqn:Ers; simpl in Es; [|bool_facts; by symmetry].
  destruct (is_empty rm); simpl in *; [|bool_facts; rewrite Em]; by rewrite String.eqb_refl, orb_true_r.
Qed.

Section Outcome.
Context `{LineEnv} `{JsonCodec}.

Ltac still_all := repeat still_step; still_rows.

Definition line_sessions (s : LineState) : list MaterialSession := sessions (tables s).

Lemma still_parse body : still line_sessions (parse_body body).
Proof. unfold parse_body. still_all. Qed.
Lemma still_count : still line_sessions count_open_tasks.
Proof. unfold count_open_tasks. still_all. Qed.
Lemma still_audit actor action target detail level : still line_sessions (append_audit_log actor action target detail level).
Proof. unfold append_audit_log. still_all. Qed.
Lemma still_event_flow event input : still line_sessions (event_flow event input).
Proof. unfold event_flow, or_500, start_steel_flow, latest_steel_flow, find_steel_flow_by_session, select. still_all. Qed.
Lemma still_upsert_inspection i : still line_sessions (upsert_production_inspection i).
Proof. unfold upsert_production_inspection, find_production_inspection, select. still_all. Qed.
Lemma still_flow_status session_id status finished_at raw : still line_sessions (update_steel_flow_status session_id status finished_at raw).
Proof. unfold update_steel_flow_status, find_steel_flow_by_session, select. still_all. Qed.
Lemma still_tell event body : still line_sessions (tell_provider event body).
Proof. unfold tell_provider. still_all. Qed.
Lemma still_trigger i : still line_sessions (append_trigger_event i).
Proof. unfold append_trigger_event. still_all. Qed.
Lemma still_summary material_id session_id inspection_id provider :
  still line_sessions (write_final_production_summary_file material_id session_id inspection_id provider).
Proof.
  unfold write_final_production_summary_file, file_operation, find_production_inspection, find_material_session,
    capture_files_for_inspection, select. still_all.
Qed.

Lemma select_value {A} (f : Tables -> A) s :
  keeps (fun s' => line_sessions s' = line_sessions s) anyway (on_ok (fun s' a => a = f (tables s))) s (select f).
Proof.
  unfold select, statement. apply keeps_bind. apply keeps_atomically; [done..|]. simpl.
  destruct (fate_of (asked s)); [by apply keeps_atomically|apply keeps_bind; by apply keeps_atomically..].
Qed.

Lemma keeps_map_value {S A E F} (I : S -> Prop) (g : E -> F) (m : Prog S (Result A E)) (P : S -> A -> Prop) s : 
  keeps I anyway (fun s r => match r with Ok a => P s a | Err _ => True end) s m ->
  keeps I anyway (fun s r => match r with Ok a => P s a | Err _ => True end) s (map_error g m).
Proof. intros Hm. unfold map_error. apply keeps_bind. eapply keeps_post; [exact Hm|]. by intros s' [a|e]. Qed.

(** Chaining programs under an invariant on the sessions. *)
Section Sessions.
Context (I : list MaterialSession -> Prop).
Abbreviation KeepsI := (keeps (fun s => I (line_sessions s)) anyway).

Lemma sessions_let {A B} (m : Line A) (k : A -> Line B) Q s : I (line_sessions s) -> still line_sessions m ->
  (forall s' a, I (line_sessions s') -> KeepsI Q s' (k a)) -> KeepsI Q s (prog_bind m k).
Proof.
  intros Hs Hm Hk. eapply keeps_seq; [apply _|done|apply (still_keeps line_sessions); [done| |done]|].
  - intros s1 s2 E. by rewrite E.
  - intros s' a Hs' _ _. by apply Hk.
Qed.

Lemma sessions_try {A B E} (m : Line (Result A E)) (k : A -> Line (Result B E)) P s : I (line_sessions s) -> still line_sessions m ->
  (forall s' a, I (line_sessions s') -> KeepsI (on_ok P) s' (k a)) -> KeepsI (on_ok P) s (try_bind m k).
Proof. intros Hs Hm Hk. apply sessions_let; [done..|]. intros s' [a|e] Hs'; [by apply Hk|by apply keeps_ret]. Qed.
End Sessions.

Lemma only_upsert id before i s : only id before (line_sessions s) -> mi_id i = id ->
  keeps (fun s => only id before (line_sessions s)) anyway (on_ok (fun _ m => m_id m = id)) s (upsert_material_session i).
Proof.
  intros Hs Ei. apply sessions_let; [done|by apply still_clock|]. intros s1 now Hs1.
  eapply keeps_seq; [apply _|done|eapply keeps_weaken; [| |apply select_value]|]; [by intros s' ->|done|].
  intros s2 [existing|e] Hs2 _ Ev; [|by apply keeps_ret]. simpl in Ev. destruct existing as [model|].
  - symmetry in Ev. apply find_elem in Ev as [Hm Em]. bool_facts.
    apply (keeps_stmt (fun t => only id before (sessions t)) _ (fun _ m => m_id m = id)); [done|]. intros t m t' Ht.
    destruct (updated _ _ _) as [[row rows]|] eqn:Eu; [|done]. intros [= <- <-].
    apply updated_ok in Eu as (r & Hr & Er & -> & ->). bool_facts. split; [|simpl; congruence].
    apply only_update; [done| |done]. intros m Hm'. bool_facts. congruence.
  - apply (keeps_stmt (fun t => only id before (sessions t)) _ (fun _ m => m_id m = id)); [done|]. intros t m t' Ht.
    destruct (existsb _ _) eqn:Ex; [done|]. intros [= <- <-]. split; [|done]. apply only_insert; [done..|]. by rewrite <- Ei.
Qed.

(** The session of an admitted steel-in or steel-out is the open one, if one is open. *)
Lemma admit_target worker body event actor s : event = "steel-in" \/ event = "steel-out" ->
  keeps (fun s' => line_sessions s' = line_sessions s) anyway
    (on_ok (fun s' a => line_sessions s' = line_sessions s /\
       (tg_session_id (ad_target a) ∈ open_ids (line_sessions s) \/ open_ids (line_sessions s) = []))) s
    (admit_event worker body event actor).
Proof.
  intros He. apply (sessions_try (fun rows => rows = line_sessions s)); [done|apply still_parse|]. intros s1 payload Hs1.
  apply (sessions_try (fun rows => rows = line_sessions s)); [done| |].
  { destruct worker; [apply still_ret|]. apply still_try; [apply still_map_error, still_count|intros n; apply still_ret]. }
  intros s2 u Hs2. eapply keeps_seq; [apply _|done|eapply keeps_weaken; [| |apply keeps_map_value, select_value]|];
    [intros s' ->; exact Hs2|done|].
  intros s3 [latest|e] Hs3 _ Ev; [|by apply keeps_ret]. simpl in Ev. fold (line_sessions s2) in Ev. rewrite Hs2 in Ev.
  apply (sessions_try (fun rows => rows = line_sessions s)); [done|repeat still_step|]. intros s4 u' Hs4.
  apply (sessions_let (fun rows => rows = line_sessions s)); [done|by apply still_clock|]. intros s5 now Hs5.
  destruct (resolve_production_event_target _ _ _ _) as [target|] eqn:Et; [|by apply keeps_ret]. cbv zeta.
  assert (Hopen : tg_session_id target ∈ open_ids (line_sessions s) \/ open_ids (line_sessions s) = []).
  { destruct latest as [m|]; [left|right; by apply latest_open_none]. simpl in Et.
    rewrite (resolve_active _ _ _ _ _ _ He Et). by apply latest_open_some. }
  destruct (one_of event _ && _)%bool; [|by apply keeps_ret].
  apply (sessions_let (fun rows => rows = line_sessions s)); [done|by apply still_ask|]. intros s6 health Hs6.
  destruct (new_session_storage_admission_response _ _ _ _); [|by apply keeps_ret].
  apply (sessions_let (fun rows => rows = line_sessions s)); [done|apply still_audit|]. intros; by apply keeps_ret.
Qed.

Lemma only_register event a before s : only (tg_session_id (ad_target a)) before (line_sessions s) ->
  keeps (fun s => only (tg_session_id (ad_target a)) before (line_sessions s)) anyway
    (on_ok (fun _ r => m_id (rg_session r) = tg_session_id (ad_target a))) s (register_event event a).
Proof.
  set (id := tg_session_id (ad_target a)). intros Hs. unfold register_event. cbv zeta.
  apply (sessions_try (only id before)); [done|repeat still_step|]. intros s1 capture Hs1.
  apply (sessions_let (only id before)); [done|by apply still_clock|]. intros s2 now Hs2.
  apply (sessions_try (only id before)); [done|apply still_event_flow|]. intros s3 flow Hs3.
  eapply keeps_seq; [apply _|done|by apply keeps_map_value, only_upsert|]. intros s4 [session|e] Hs4 _ Em; [|by apply keeps_ret].
  apply (sessions_try (only id before)); [done|unfold find_production_inspection, select, or_500; repeat still_step; still_rows|]. intros s5 existing Hs5.
  apply (sessions_try (only id before)); [done|apply still_map_error, still_upsert_inspection|]. intros; by apply keeps_ret.
Qed.

Lemma only_dispatch event actor payload r before s : only (m_id (rg_session r)) before (line_sessions s) ->
  keeps (fun s => only (m_id (rg_session r)) before (line_sessions s)) anyway (fun _ _ => True) s (dispatch_event event actor payload r).
Proof.
  intros Hs. unfold dispatch_event. cbv zeta.
  apply (sessions_let (only _ before)); [done|apply still_tell|]. intros s1 provider Hs1.
  apply (sessions_let (only _ before)); [done|apply still_trigger|]. intros s2 trigger Hs2.
  eapply keeps_seq; [apply _|done|by apply keeps_map_value, only_upsert|]. intros s3 [m|e] Hs3 _ _; [|by apply keeps_ret].
  apply (sessions_let (only _ before)); [done|apply still_map_error, still_upsert_inspection|]. intros s4 [i|e] Hs4; [|by apply keeps_ret].
  apply (sessions_let (only _ before)); [done|by destruct (rg_flow r); [apply still_map_error, still_flow_status|apply still_ret]|].
  intros s5 [flow|e] Hs5; [|by apply keeps_ret]. apply (sessions_let (only _ before)); [done|apply still_audit|]. intros s6 u Hs6.
  apply (sessions_let (only _ before)); [done|by destruct (_ && _)%bool; [apply still_summary|apply still_ret]|]. intros; by apply keeps_ret.
Qed.

Definition at_most_one (rows : list MaterialSession) : Prop := NoDup (map m_id rows) /\ (length (open_ids rows) <= 1)%nat.

Lemma nodup_filter_map {A B} (k : A -> B) p l : NoDup (map k l) -> NoDup (map k (List.filter p l)).
Proof.
  induction l as [|a l IH]; [done|]. intros [Hn Hl]%NoDup_cons. simpl. destruct (p a); [|by apply IH].
  apply NoDup_cons. split; [|by apply IH]. intros (b & E & Hb)%list_elem_of_fmap. apply Hn, list_elem_of_fmap. exists b. split; [done|].
  apply list_elem_of_In, filter_In in Hb as [Hb _]. by apply list_elem_of_In.
Qed.

Lemma nodup_one {A} (l : list A) x : NoDup l -> (forall y, y ∈ l -> y = x) -> (length l <= 1)%nat.
Proof.
  intros Hn Hx. destruct l as [|a [|b l]]; simpl; [lia..|]. apply NoDup_cons in Hn as [Hab _].
  destruct Hab. rewrite (Hx a), (Hx b) by set_solver. by left.
Qed.

Lemma only_at_most_one id rows0 rows : at_most_one rows0 -> id ∈ open_ids rows0 \/ open_ids rows0 = [] ->
  only id (open_ids rows0) rows -> at_most_one rows.
Proof.
  intros [_ Hlen] Hid [Hn Ho]. split; [done|]. apply (nodup_one _ id); [by apply nodup_filter_map|].
  intros y (m & Hm & Hopen & <-)%elem_open_ids. destruct (Ho m Hm Hopen) as [|Hb]; [done|].
  destruct Hid as [Hid|Hid]; [|rewrite Hid in Hb; by apply elem_of_nil in Hb].
  destruct (open_ids rows0) as [|x [|y l]]; simpl in *; [by apply elem_of_nil in Hb| |lia].
  apply list_elem_of_singleton in Hb, Hid. congruence.
Qed.

Lemma one_session_event worker body event actor s : event = "steel-in" \/ event = "steel-out" -> at_most_one (line_sessions s) ->
  keeps (fun s => at_most_one (line_sessions s)) anyway (fun _ _ => True) s (write_production_event_response worker body event actor).
Proof.
  intros He Hs. unfold write_production_event_response. apply keeps_bind.
  apply (keeps_post _ _ _ (fun _ _ => True)); [|intros s' a _; by apply keeps_ret].
  eapply keeps_seq; [apply _|done|eapply keeps_weaken; [| |apply admit_target, He]|]; [intros s' ->; exact Hs|done|].
  intros s1 [a|e] _ _ Ha; [|by apply keeps_ret]. destruct Ha as [E1 Hid].
  eapply keeps_weaken with (G := anyway); [intros s'; by apply (only_at_most_one _ _ _ Hs Hid)|done|].
  assert (Hs1 : only (tg_session_id (ad_target a)) (open_ids (line_sessions s)) (line_sessions s1)) by (rewrite E1; apply only_start, Hs).
  eapply keeps_seq; [apply _|done|by apply only_register|]. intros s2 [r|e] Hs2 _ Er; [|by apply keeps_ret].
  simpl in Er. rewrite <- Er in *. eapply keeps_post; [by apply only_dispatch|done].
Qed.

Lemma still_append_each inputs : still line_sessions (append_each inputs).
Proof. induction inputs as [|i inputs IH]; simpl; [apply still_ret|]. apply still_try; [|done]. unfold append_capture_file, select. still_all. Qed.

Lemma still_append_results inspection_id session_id material_id results rows :
  still line_sessions (append_results inspection_id session_id material_id results rows).
Proof.
  revert rows. induction results as [|result results IH]; intros rows; simpl; [apply still_ret|]. apply still_try; [|done].
  apply still_try; [apply still_append_each|intros u; apply still_ret].
Qed.

Lemma still_number flow_no inputs n : still line_sessions (number_images flow_no inputs n).
Proof. revert n. induction inputs as [|i inputs IH]; intros n; simpl; [apply still_ret|]. destruct (known_image _ _); [apply IH|]. by apply still_bind; [apply still_clock|]. Qed.

Lemma still_number_captures position keys inputs : still line_sessions (number_captures position keys inputs).
Proof.
  revert position keys. induction inputs as [|i inputs IH]; intros position keys; simpl; [apply still_ret|]. destruct (existsb _ _); [apply IH|].
  apply still_bind; [by apply still_clock|intros nanos]. apply still_bind; [by apply still_clock|intros now]. apply still_bind; [apply IH|intros models; apply still_ret].
Qed.

Lemma still_secondary body actor : still line_sessions (write_secondary_data_response body actor).
Proof.
  unfold write_secondary_data_response, parse_body, active_session_for_payload, latest_open_material_session, append_secondary_data,
    append_audit_log, select. still_all.
Qed.

Lemma still_capture_summary body actor : still line_sessions (write_capture_summary_response body actor).
Proof.
  apply still_bind; [|intros r; apply still_ret]. apply still_try; [apply still_parse|intros payload].
  apply still_bind; [unfold active_session_for_payload, latest_open_material_session, select; still_all|intros [material_id session_id]].
  cbv zeta. apply still_bind; [by apply still_clock|intros now]. apply still_try; [apply still_map_error, still_upsert_inspection|intros r].
  apply still_try; [apply still_map_error, still_append_results|intros rows]. apply still_bind; [apply still_audit|intros u; apply still_ret].
Qed.

Lemma still_append_images inputs : still line_sessions (append_steel_flow_images inputs).
Proof.
  unfold append_steel_flow_images, find_steel_flow_by_session, select. destruct inputs as [|first rest]; [apply still_ret|]. cbv zeta.
  destruct (existsb _ _); [apply still_ret|]. apply still_try; [still_all|intros [flow|]; [|apply still_ret]].
  apply still_try; [still_all|intros existing]. apply still_bind; [apply still_number|intros n]. still_all.
Qed.

Lemma still_append_captures inputs : still line_sessions (append_capture_files inputs).
Proof.
  unfold append_capture_files, select. destruct inputs as [|first rest]; [apply still_ret|]. cbv zeta.
  destruct (existsb _ _); [apply still_ret|]. apply still_try; [still_all|intros existing].
  apply still_bind; [apply still_number_captures|intros models]. still_all.
Qed.

Lemma still_capture_commit body : still line_sessions (write_capture_commit_response body).
Proof.
  apply still_bind; [|intros r; apply still_ret]. apply still_try; [apply still_parse|intros payload]. cbv zeta.
  destruct (is_empty _); [apply still_ret|]. unfold find_steel_flow_by_session, select, or_500.
  apply still_try; [still_all|intros [flow|]; [|apply still_ret]]. destruct (results_of payload); [|apply still_ret].
  apply still_try; [apply still_map_error, still_append_images|intros appended].
  apply still_try; [apply still_map_error, still_append_captures|intros rows]. still_all.
Qed.

(** Requests of which the events are steel-in and steel-out. *)
Definition plain (r : Request) : Prop :=
  match r with Event _ event _ _ => event = "steel-in" \/ event = "steel-out" | _ => True end.

Lemma one_session_serve r s : plain r -> at_most_one (line_sessions s) ->
  keeps (fun s => at_most_one (line_sessions s)) anyway (fun _ _ => True) s (serve r).
Proof.
  assert (Hstill : forall A (p : Line A), still line_sessions p -> at_most_one (line_sessions s) ->
    keeps (fun s => at_most_one (line_sessions s)) anyway (fun _ _ => True) s p).
  { intros A p Hp Hs. eapply keeps_post; [eapply (still_keeps line_sessions); [done| |done]|done]. intros s1 s2 E. by rewrite E. }
  destruct r; simpl; intros Hr Hs; [by apply one_session_event|apply Hstill; [|done]..];
    [apply still_secondary|apply still_capture_summary|apply still_capture_commit].
Qed.

(** C18. One plate at a time. From a database with at most one open session, in every history of steel-in and
    steel-out events (from the worker or from routes), capture summaries, capture commits and secondary
    data, whatever fails and wherever the process is killed, at most one session is open at every point. *)
Theorem one_plate_at_a_time (s : LineState) (x : Serial) :
  at_most_one (sessions (tables s)) ->
  rtc (serial_step (fun r : {r | plain r} => serve (`r))) (mkSerial s None) x ->
  at_most_one (sessions (tables (serial_state x))).
Proof.
  intros Hs Hr.
  apply (serial_reachable (fun s => at_most_one (line_sessions s)) anyway (fun r : {r | plain r} => serve (`r)) s x Hs); [|done].
  intros [r Hplain] s' Hs'. by apply one_session_serve.
Qed.

(** ** Answers *)

(** The status of a response. *)
Definition answered (status response : string) : bool := starts_with ("HTTP/1.1 " +:+ status) response.

(** Everything but the audit log, the summaries and the counters. *)
Definition core (s : LineState) :=
  (sessions (tables s), flows (tables s), inspections (tables s), images (tables s), captures (tables s), triggers (tables s),
   secondary (tables s), posted s).

Lemma still_admit worker body event actor : still core (admit_event worker body event actor).
Proof. unfold admit_event, parse_body, or_500, count_open_tasks, latest_open_material_session, append_audit_log, select. still_all. Qed.

(** A program that ends, whatever its surroundings do. *)
Definition ends {A} (p : Line A) : Prop := still (fun _ => tt) p.

Lemma answer_500 {A} operation (m : Line (Result A string)) s : ends m ->
  keeps (fun _ => True) anyway (fun _ r => match r with Ok _ => True | Err e => answered "500" e = true end) s (or_500 operation m).
Proof.
  intros Hm. apply keeps_bind. eapply keeps_weaken with (G := anyway); [done|done|]. eapply keeps_post; [apply Hm|]. by intros s' [a|e] _.
Qed.

(** Where a call that answers 500 on failure is followed by a program that answers 500 or 200. *)
Definition after_writing {A} (s : LineState) (r : Result A string) : Prop :=
  match r with Ok _ => True | Err e => answered "500" e = true end.

Lemma try_500 {A B} operation (m : Line (Result A string)) (k : A -> Line (Result B string)) s : ends m ->
  (forall s a, keeps (fun _ => True) anyway after_writing s (k a)) ->
  keeps (fun _ => True) anyway after_writing s (try_bind (or_500 operation m) k).
Proof.
  intros Hm Hk. eapply keeps_seq; [apply _|done|by apply answer_500|]. intros s' [a|e] _ _ He; [apply Hk|by apply keeps_ret].
Qed.

Lemma ends_upsert_session i : ends (upsert_material_session i).
Proof. unfold ends, upsert_material_session, find_material_session, select. still_all. Qed.
Lemma ends_upsert_inspection i : ends (upsert_production_inspection i).
Proof. unfold ends, upsert_production_inspection, find_production_inspection, select. still_all. Qed.
Lemma ends_find_inspection id : ends (find_production_inspection id).
Proof. unfold ends, find_production_inspection, select. still_all. Qed.

Lemma event_flow_500 event input s : keeps (fun _ => True) anyway after_writing s (event_flow event input).
Proof.
  unfold event_flow. destruct (event == "steel-in"); [|destruct (event == "steel-out"); [|by apply keeps_ret]].
  - eapply keeps_seq; [apply _|done|apply (still_keeps (fun _ => tt)); [|done..]; destruct (is_empty _); repeat still_step|].
    intros s1 minimum _ _ _. apply try_500; [|intros; by apply keeps_ret].
    unfold ends, start_steel_flow, find_steel_flow_by_session, latest_steel_flow, select. still_all.
  - eapply keeps_post; [apply answer_500; unfold ends, find_steel_flow_by_session, select; still_all|]. by intros s' [flow|e].
Qed.

(** A registration that fails without a 500 has not begun. *)
Lemma register_answer event a s :
  keeps (fun _ => True) anyway (fun s' r => match r with Ok _ => True | Err e => answered "500" e = true \/ core s' = core s end) s (register_event event a).
Proof.
  unfold register_event. cbv zeta. apply keeps_bind, keeps_ret.
  destruct (if is_empty _ then _ else _) as [capture|e]; [|apply keeps_ret; by right].
  eapply keeps_post with (Q := after_writing); [|intros s' [r|e]; [done|by left]].
  eapply keeps_seq; [apply _|done|apply (still_keeps (fun _ => tt)); [by apply still_clock|done..]|]. intros s1 now _ _ _.
  eapply keeps_seq; [apply _|done|apply event_flow_500|]. intros s2 [flow|e] _ _ He; [|by apply keeps_ret].
  apply try_500; [apply ends_upsert_session|]. intros s3 session. apply try_500; [apply ends_find_inspection|]. intros s4 existing.
  apply try_500; [apply ends_upsert_inspection|]. intros; by apply keeps_ret.
Qed.

Lemma dispatch_answer event actor payload r s :
  keeps (fun _ => True) anyway (fun _ answer => match answer with Ok e => answered "200" e = true \/ answered "500" e = true | Err e => answered "500" e = true end) s
    (dispatch_event event actor payload r).
Proof.
  assert (Hk : forall A B (m : Line A) (k : A -> Line B) Q s, ends m -> (forall s a, keeps (fun _ => True) anyway Q s (k a)) ->
    keeps (fun _ => True) anyway Q s (prog_bind m k)).
  { intros A B m k Q s0 Hm Hk. eapply keeps_seq; [apply _|done|apply (still_keeps (fun _ => tt)); [exact Hm|done..]|]. intros; by apply Hk. }
  assert (H5 : forall A B op (m : Line (Result A string)) (k : A -> Line (Result B string)) (Q : LineState -> Result B string -> Prop) s, ends m ->
    (forall s e, answered "500" e = true -> Q s (Err e)) -> (forall s a, keeps (fun _ => True) anyway Q s (k a)) ->
    keeps (fun _ => True) anyway Q s (try_bind (or_500 op m) k)).
  { intros A B op m k Q s0 Hm He Hk'. eapply keeps_seq; [apply _|done|by apply answer_500|]. intros s' [a|e] _ _ H'; [apply Hk'|apply keeps_ret, He, H']. }
  unfold dispatch_event. cbv zeta. apply Hk; [unfold ends, tell_provider; still_all|]. intros s1 provider.
  apply Hk; [unfold ends, append_trigger_event; still_all|]. intros s2 trigger.
  apply H5; [apply ends_upsert_session|done|]. intros s3 m. apply H5; [apply ends_upsert_inspection|done|]. intros s4 i.
  apply keeps_bind. eapply keeps_post with (Q := after_writing).
  { destruct (rg_flow r); [|by apply keeps_ret]. eapply keeps_post; [apply answer_500|by intros s' [flow|e]].
    unfold ends, update_steel_flow_status, find_steel_flow_by_session, select. still_all. }
  intros s5 [flow|e] He; [|by apply keeps_ret]. apply Hk; [unfold ends, append_audit_log; still_all|]. intros s6 u.
  apply Hk.
  { destruct (_ && _)%bool; [|apply still_ret]. unfold ends, write_final_production_summary_file, file_operation, find_production_inspection,
      find_material_session, capture_files_for_inspection, select. still_all. }
  intros s7 summary. apply keeps_ret. destruct trigger; [by left|by right].
Qed.

(** C21. A refused event. Whatever fails: an event that is answered neither with 200 nor with 500 (a body
    that is not JSON, open tasks, a session that is not the active one or not ready to leave, a capture
    mode that is unknown, storage that is not ready) has changed no session, flow, inspection, image,
    file or trigger row, and the capture provider has not heard of it. *)
Theorem refused_event_changes_nothing (worker : bool) (body event actor : string) (s s' : LineState) (response : string) :
  runs s (write_production_event_response worker body event actor) s' (Ret response) ->
  answered "200" response = false -> answered "500" response = false -> core s' = core s.
Proof.
  assert (Hk : keeps (fun _ => True) anyway (fun s' response => answered "200" response = true \/ answered "500" response = true \/ core s' = core s) s
    (write_production_event_response worker body event actor)).
  { apply keeps_bind. eapply keeps_seq; [apply _|done|apply (still_keeps core); [apply still_admit|done..]|].
    intros s1 [a|e] _ _ E1; [|apply keeps_ret; simpl; by right; right].
    eapply keeps_seq; [apply _|done|apply register_answer|]. intros s2 [r|e] _ _ He; [|do 2 apply keeps_ret; rewrite <- E1; tauto].
    eapply keeps_post; [apply dispatch_answer|]. intros s3 [e|e] H3; apply keeps_ret; tauto. }
  intros Hr E2 E5. destruct (keeps_runs _ _ _ _ _ _ _ Hk Hr) as [E|[E|E]]; congruence.
Qed.

(** *** Accepted events *)








Definition line_flows (s : LineState) : list SteelFlow := flows (tables s).


Lemma flows_trigger i : still line_flows (append_trigger_event i).
Proof. unfold append_trigger_event. still_all. Qed.





















(** ** Commits that are sent again *)

(** The images a batch was answered with are in the table, under the flow of the session. *)
Definition holds_images (session_id : string) (inputs : list FlowImageInput) (appended : list FlowImageAppend) (t : Tables) : Prop :=
  exists flow_no, has_flow session_id flow_no t /\
    Forall2 (fun i a => image_key (ap_image a) = input_key i /\ ap_image a ∈ images t /\ im_flow_no (ap_image a) = flow_no) inputs appended.

Lemma holds_images_mono session_id inputs appended t t' : grows t t' -> holds_images session_id inputs appended t -> holds_images session_id inputs appended t'.
Proof.
  intros Hg (n & Hf & Ha). exists n. split; [by eapply has_flow_mono|]. eapply Forall2_impl; [exact Ha|].
  intros i a (E & Hin & En). split_and!; [done| |done]. destruct (grow_images _ _ Hg) as [gs ->]. by apply elem_of_app; left.
Qed.

Lemma existing_elem flow_no inputs rows g : g ∈ existing_images flow_no inputs rows <->
  g ∈ rows /\ im_flow_no g = flow_no /\ (exists i, i ∈ inputs /\ gi_camera_id i = im_camera_id g) /\
  (exists i, i ∈ inputs /\ gi_camera_sequence_no i = im_camera_sequence_no g).
Proof.
  unfold existing_images. rewrite list_elem_of_In, filter_In, <- list_elem_of_In, !andb_true_iff, one_of_In, existsb_exists, in_map_iff, Z.eqb_eq.
  setoid_rewrite in_map_iff. split.
  - intros (Hg & [En (i & Ei & Hi)] & x & (j & <- & Hj) & Ex%Z.eqb_eq). split_and!; [done..|exists i|exists j]; by rewrite list_elem_of_In.
  - intros (Hg & En & (i & Hi & Ei) & (j & Hj & Ej)). rewrite list_elem_of_In in Hi, Hj.
    split_and!; [done..|by exists i|]. exists (gi_camera_sequence_no j). split; [by exists j|]. by rewrite Ej, Z.eqb_refl.
Qed.

Definition batch_of (inputs : list FlowImageInput) : string := from_option gi_session_id "" (head inputs).

Lemma append_images_hold inputs s : line_ok s -> inputs <> [] ->
  Keeps (on_ok (fun s' appended => holds_images (batch_of inputs) inputs appended (tables s'))) s (append_steel_flow_images inputs).
Proof.
  intros Hs Hne. unfold append_steel_flow_images. destruct inputs as [|first rest] eqn:Ei; [done|]. change (batch_of (first :: rest)) with (gi_session_id first).
  rewrite <- Ei. clear Ei rest Hne. set (session_id := gi_session_id first).
  destruct (existsb _ inputs) eqn:Eb; [by apply keeps_ret|]. apply batch_session in Eb.
  apply keeps_try_select; [done|]. intros s1 Hs1 [Et1 _]. rewrite <- Et1.
  destruct (flow_of_session _ _) as [flow|] eqn:Ef; [|by apply keeps_ret]. apply find_elem in Ef as [Hflow Es]. bool_facts.
  apply keeps_try_select; [done|]. intros s2 Hs2 [Et2 _]. rewrite <- Et2 in *.
  eapply keeps_let; [done|apply (keeps_number _ _ _ inputs [] _ s2 Hs2 (numbered_start _ _ _))|].
  intros s3 n Hs3 _ [[Et3 _] Hn]. rewrite <- Et3 in *.
  assert (Hhold : forall t', grows (tables s3) t' -> images t' = images (tables s3) ++ nb_models n -> holds_images session_id inputs (nb_answer n) t').
  { intros t' Hg Ei. exists (fl_flow_no flow). split; [eapply has_flow_mono; [exact Hg|]; by exists flow|]. rewrite Ei.
    eapply Forall2_impl; [exact (nb_answers _ _ _ _ _ Hn)|]. intros i a [Ek Ha].
    assert (Hcase : ap_image a ∈ nb_models n \/ ap_image a ∈ existing_images (fl_flow_no flow) inputs (images (tables s3))).
    { destruct (ap_inserted a); [by left|]. destruct Ha as [|Ha]; [by left|right]. by apply elem_rev. }
    destruct Hcase as [Hc|Hc].
    - split_and!; [done|by apply elem_of_app; right|]. apply (proj1 (Forall_forall _ _) (nb_flow _ _ _ _ _ Hn) _ Hc).
    - apply existing_elem in Hc as (Hin & En & _). split_and!; [done|by apply elem_of_app; left|done]. }
  destruct (nb_models n) as [|g gs] eqn:Em; [|rewrite <- Em in *; clear Em g gs].
  - eapply keeps_try_ok with (P := fun s' _ => tables s' = tables s3); [done| |intros s4 u Hs4 [Hg _] E4; apply keeps_ret, Hhold; [done|by rewrite E4, app_nil_r]].
    apply keeps_statement; [done|]. intros a t [= _ <-]. split; [apply keeps_same, Hs3|done].
  - apply keeps_let_clock; [done|]. intros s4 now Hs4 [Et4 _]. rewrite <- Et4 in *.
    eapply keeps_try_ok with (P := fun s' _ => images (tables s') = images (tables s4) ++ nb_models n);
      [done| |intros s5 u Hs5 [Hg _] E5; by apply keeps_ret, Hhold]. apply keeps_statement; [done|]. intros a t.
    destruct (insert_images _ _) as [rows|] eqn:Er; [|done]. destruct (update_flow _ _ _) as [[row t']|] eqn:Eu; [|done].
    intros [= <- <-]. split; [eapply keeps_images; try done; [apply Hs4|..]; done|]. intros s' -> _. simpl.
    by apply insert_images_some in Er as [-> _].
Qed.

Lemma number_known flow_no inputs appended n :
  Forall2 (fun i a => known_image (input_key i) (nb_known n) = Some (ap_image a)) inputs appended ->
  number_images flow_no inputs n = Ret (mkNumbering (nb_known n) (nb_models n) (nb_next n)
    (nb_answer n ++ map (fun a => mkFlowImageAppend (ap_image a) false) appended)).
Proof.
  revert appended n. induction inputs as [|i inputs IH]; intros appended n Ha; inversion Ha as [|? a ? appended' Hk Ha']; subst; simpl.
  { rewrite app_nil_r. by destruct n. }
  rewrite Hk. rewrite (IH appended') by done. simpl. by rewrite <- app_assoc.
Qed.

(** A frame of a flow is one row. *)
Lemma frame_unique t flow g h : tables_ok t -> flow ∈ flows t -> g ∈ images t -> h ∈ images t ->
  im_flow_no g = fl_flow_no flow -> im_flow_no h = fl_flow_no flow -> image_key g = image_key h -> g = h.
Proof.
  intros Hok Hf Hg Hh Eg Eh Ek. pose proof (proj1 (Forall_forall _ _) (ok_flows _ Hok) flow Hf) as Hflow.
  apply (nodup_eq image_key (images_of (images t) (fl_flow_no flow))); [apply Hflow|by apply images_of_elem..|done].
Qed.

Lemma known_again t flow inputs appended : tables_ok t -> flow ∈ flows t ->
  Forall2 (fun i a => image_key (ap_image a) = input_key i /\ ap_image a ∈ images t /\ im_flow_no (ap_image a) = fl_flow_no flow) inputs appended ->
  Forall2 (fun i a => known_image (input_key i) (List.rev (existing_images (fl_flow_no flow) inputs (images t))) = Some (ap_image a)) inputs appended.
Proof.
  intros Hok Hf Ha. apply Forall2_same_length_lookup. pose proof (proj1 (Forall2_same_length_lookup _ _ _) Ha) as [Hlen Hl]. split; [done|].
  intros k i a Hi Hka. destruct (Hl k i a Hi Hka) as (Ek & Hin & En). apply list_elem_of_lookup_2 in Hi. unfold image_key, input_key in Ek.
  assert (Hex : ap_image a ∈ existing_images (fl_flow_no flow) inputs (images t)).
  { apply existing_elem. injection Ek as E1 E2. split_and!; [done..|by exists i|by exists i]. }
  unfold known_image. destruct (List.find _ _) as [g|] eqn:E.
  - apply find_elem in E as [Hg Eg]. apply key_eqb_true in Eg. apply elem_rev, existing_elem in Hg as (Hg & Egn & _). f_equal.
    by apply (frame_unique t flow); try done; rewrite Eg.
  - pose proof (List.find_none _ _ E (ap_image a)) as Hn. rewrite <- list_elem_of_In, elem_rev in Hn. specialize (Hn Hex). simpl in Hn.
    assert (key_eqb (image_key (ap_image a)) (input_key i) = true) by by apply key_eqb_true. congruence.
Qed.

(** A read, run alone: it is answered, or fails and is counted. *)
Lemma finish_select {A B} (f : Tables -> A) (k : A -> Line (Result B string)) s :
  finish s (try_bind (select f) k) =
    match fate_of (asked s) with
    | Works => finish (with_asked s) (k (f (tables s)))
    | FailsBefore message | FailsAfter message => Some (Err message, with_failed (with_asked s))
    end.
Proof. unfold select, statement. simpl. by destruct (fate_of (asked s)). Qed.

(** A run that leaves the database alone and is answered [a] unless a statement failed. *)
Definition answers_again {A} (a : A) (s : LineState) (p : Line (Result A string)) : Prop := exists result s',
  finish s p = Some (result, s') /\ tables s' = tables s /\ posted s' = posted s /\
  (if failed s' =? failed s then result = Ok a else exists message, result = Err message).

Lemma again_select {A B} (f : Tables -> A) (k : A -> Line (Result B string)) b s :
  answers_again b (with_asked s) (k (f (tables s))) -> answers_again b s (try_bind (select f) k).
Proof.
  intros (result & s' & E & Ht & Hp & Ha). unfold answers_again. rewrite finish_select. destruct (fate_of (asked s)) as [|message|message].
  - by exists result, s'.
  - eexists (Err message), _. split_and!; [done..|]. simpl. rewrite (proj2 (Z.eqb_neq _ _)) by lia. eauto.
  - eexists (Err message), _. split_and!; [done..|]. simpl. rewrite (proj2 (Z.eqb_neq _ _)) by lia. eauto.
Qed.

Lemma again_ret {A} (a : A) s : answers_again a s (Ret (Ok a)).
Proof. exists (Ok a), s. by rewrite Z.eqb_refl. Qed.

(** A batch that is accepted is of one session. *)
Lemma appended_batch inputs s s' appended : runs s (append_steel_flow_images inputs) s' (Ret (Ok appended)) ->
  existsb (fun i => gi_session_id i != batch_of inputs) inputs = false.
Proof.
  destruct inputs as [|first rest] eqn:Ei; [done|]. change (batch_of (first :: rest)) with (gi_session_id first).
  unfold append_steel_flow_images. destruct (existsb _ _); [|done]. intros Hr. inversion Hr as [|? ? ? ? ? ? Hstep]; subst. inversion Hstep.
Qed.

Lemma append_again inputs appended s : line_ok s -> inputs <> [] -> existsb (fun i => gi_session_id i != batch_of inputs) inputs = false ->
  holds_images (batch_of inputs) inputs appended (tables s) ->
  answers_again (map (fun a => mkFlowImageAppend (ap_image a) false) appended) s (append_steel_flow_images inputs).
Proof.
  intros Hs Hne Hb (flow_no & (flow & Hflow & Es & <-) & Ha). unfold append_steel_flow_images. destruct inputs as [|first rest] eqn:Ei; [done|].
  change (batch_of (first :: rest)) with (gi_session_id first) in *. rewrite <- Ei in *. clear Ei rest Hne. rewrite Hb.
  apply again_select. destruct (flow_of_session _ _) as [flow'|] eqn:Ef.
  2:{ rewrite list_elem_of_In in Hflow. pose proof (List.find_none _ _ Ef flow Hflow) as Hx. simpl in Hx. by bool_facts. }
  apply find_elem in Ef as [Hflow' Es']. bool_facts.
  assert (flow' = flow) as -> by (apply (nodup_eq fl_session_id (flows (tables s))); [apply Hs|done|done|congruence]).
  apply again_select. rewrite (number_known _ inputs appended) by (simpl; apply known_again; [apply Hs|done..]). simpl.
  apply (again_select (fun _ => tt)), again_ret.
Qed.

(** C23. A commit that is sent again. Once a batch of images has been appended to the flow of its session,
    appending the same batch again, after any history of requests and kills, comes to its end and changes no
    table; when no statement of it fails it is answered with the same images under the same numbers, none of
    them new, and when one fails it is answered with an error. *)
Theorem repeated_commit_is_idempotent (inputs : list FlowImageInput) (s s1 s2 : LineState) (appended : list FlowImageAppend) :
  line_ok s -> runs s (append_steel_flow_images inputs) s1 (Ret (Ok appended)) -> history s1 s2 ->
  exists result s3, finish s2 (append_steel_flow_images inputs) = Some (result, s3) /\ tables s3 = tables s2 /\ posted s3 = posted s2 /\
    (if failed s3 =? failed s2 then result = Ok (map (fun a => mkFlowImageAppend (ap_image a) false) appended)
     else exists message, result = Err message).
Proof.
  intros Hs Hr Hh. destruct (decide (inputs = [])) as [->|Hne].
  { inversion Hr as [|? ? ? ? ? ? Hstep]; subst; [apply again_ret|inversion Hstep]. }
  destruct (keeps_ends _ _ _ _ _ _ _ Hs (append_images_hold inputs s Hs Hne) Hr) as (Hs1 & _ & Hhold).
  destruct (history_keeps _ _ Hh Hs1) as [Hs2 [Hg _]].
  apply append_again; [done..|by eapply appended_batch|by eapply holds_images_mono].
Qed.

End Outcome.
