(* ===== verification/ProductionRuns.v ===== *)
(** * Runs of production requests

    Concrete histories: the theorems of [ProductionFacts] and [ProductionOutcome] applied to them, and the
    runs that show what the code does wrong. Bodies are read by a small codec: a word is a material, and some
    words stand for other payloads. *)

From S2P Require Import Prelude Json Http Db Concurrent Serial Float64 ProductionStore ProductionEvents ProductionFacts ProductionOutcome.
From Stdlib Require Import Ascii SpecFloat.

Module ProductionRun.

(** A frame of one camera, and the commit of it for the session of the first steel-in of material A. *)
Definition frame (sequence_no : Z) : Value :=
  jobj [("code", jint 0); ("completeFrame", JBool true); ("cameraId", JString "C1"); ("sequenceNo", jint sequence_no);
        ("intensityOutput", JString "/data/1.PNG")].

#[export] Instance words : JsonCodec := {|
  json_print v := if unwrap_or (get_bool "replayed" v) false then "replay" else "{}";
  json_parse text :=
    if text == "" then None
    else if text == "{}" then Some (jobj [])
    else if text == "ok" then Some (jobj [("code", jint 0)])
    else if text == "replay" then Some (jobj [("materialId", JString "R"); ("replayed", JBool true); ("sourceDatasetId", JString "D1")])
    else if text == "commit" then
      Some (jobj [("sessionId", JString "A-1001"); ("results", JArray [frame 1; frame 2; frame 1])])
    else Some (jobj [("materialId", JString text)])
|}.

(** Surroundings in which the statements fail as [fate] says, the clock ticks with every question, there are no
    other tasks, the storage is healthy and the provider answers. *)
Definition surroundings (fate : nat -> Fate) : LineEnv := {|
  runtime_mode_cell := Some "online";
  simulation := false;
  value_pretty := json_print;
  fate_of := fate;
  time_of n := 1000 + Z.of_nat n;
  text_of _ := "error";
  tasks_of _ := [];
  storage_of _ := (true, JNull);
  listing_of _ := None;
  provider_of _ := Some "ok";
  fault_of _ := None;
|}.
#[local] Instance smooth : LineEnv := surroundings (fun _ => Works).

Definition event (kind body : string) : Request := Event true kind body "op".

(** One request, run to its end. *)
Definition after (s : LineState) (r : Request) : LineState := match finish s (serve r) with Some (_, s') => s' | None => s end.
Definition answer (s : LineState) (r : Request) : string := match finish s (serve r) with Some (a, _) => a | None => "" end.
Definition after_all (s : LineState) (rs : list Request) : LineState := fold_left after rs s.

Lemma serial_runs {S A R} (program : R -> Prog S A) s p s' p' : runs s p s' p' ->
  rtc (serial_step program) (mkSerial s (Some p)) (mkSerial s' (Some p')).
Proof. induction 1 as [|s p s1 p1 s2 p2 Hstep _ IH]; [done|]. eapply rtc_l; [by apply SerialRun|done]. Qed.

Lemma serial_request {S A R} (program : R -> Prog S A) s r a s' : finish s (program r) = Some (a, s') ->
  rtc (serial_step program) (mkSerial s None) (mkSerial s' None).
Proof.
  intros E%finish_runs. eapply rtc_l; [apply (SerialStart program s r)|]. eapply rtc_r; [by apply serial_runs|apply SerialEnd].
Qed.

Lemma after_history s r : history s (after s r).
Proof.
  exists None. unfold after. destruct (finish s (serve r)) as [[a s']|] eqn:E; [|done]. by eapply serial_request.
Qed.

Lemma history_after s1 s2 r : history s1 s2 -> history s1 (after s2 r).
Proof.
  intros [p Hp]. destruct (after_history s2 r) as [q Hq]. exists q. etrans; [exact Hp|].
  destruct p as [p|]; [|done]. eapply rtc_l; [apply SerialKill|done].
Qed.

Lemma after_all_history s rs : history s (after_all s rs).
Proof.
  assert (H0 : history s s) by by exists None. revert H0. unfold after_all. generalize s at 2 4. induction rs as [|r rs IH]; intros s' Hs; [done|].
  simpl. apply IH. by apply history_after.
Qed.

(** ** A plate *)

Definition plate : LineState := after_all line_start [event "steel-in" "A"].

Example plate_rows :
  map (fun m => (m_id m, m_status m)) (sessions (tables plate)) = [("A-1001", "active")] /\
  map (fun f => (fl_flow_no f, fl_flow_code f, fl_status f)) (flows (tables plate)) = [(1, "FLOW-0000000001", "active")] /\
  map (fun r => (pi_id r, pi_status r)) (inspections (tables plate)) = [("INSP-A-1001", "running")].
Proof. by vm_compute. Qed.

(** A plate whose frames are committed, and a replayed plate that has left. *)
Definition captured : LineState := after_all plate [CaptureCommit "commit"].
Definition replayed : LineState := after_all line_start [event "steel-in" "replay"].
Definition left_again : LineState := after_all replayed [event "steel-out" "replay"].

Example captured_rows : map im_image_no (images (tables captured)) = [1; 2] /\
  map fl_image_count (flows (tables captured)) = [2] /\ map cf_file_type (captures (tables captured)) = ["png"; "png"].
Proof. by vm_compute. Qed.

Lemma captured_after_recorded_witness :
  history line_start plate /\ exists told, told ∈ posted plate /\ recorded (tables plate) told.
Proof.
  assert (Hh : history line_start plate) by apply after_all_history. split; [exact Hh|].
  destruct (posted plate) as [|told rest] eqn:E; [by vm_compute in E|]. assert (Ht : told ∈ posted plate) by (rewrite E; left).
  exists told. split; [left|]. exact (captured_after_recorded plate told Hh Ht).
Defined.

Lemma replay_provenance_survives_witness :
  history line_start replayed /\ history replayed left_again /\
  exists r r', r ∈ inspections (tables replayed) /\ pi_replayed r = true /\ r' ∈ inspections (tables left_again) /\ pi_id r' = pi_id r /\ sticky r r'.
Proof.
  assert (H1 : history line_start replayed) by apply after_all_history. assert (H2 : history replayed left_again) by apply after_all_history.
  split; [exact H1|]. split; [exact H2|]. destruct (inspections (tables replayed)) as [|r rest] eqn:E; [by vm_compute in E|].
  assert (Hr : r ∈ inspections (tables replayed)) by (rewrite E; left). destruct (replay_provenance_survives replayed left_again r H1 H2 Hr) as (r' & Hr' & Hs).
  exists r, r'. split; [left|]. split; [vm_compute in E; by injection E as <- _|]. split; [exact Hr'|exact Hs].
Defined.

Lemma flow_identity_and_images_witness :
  history line_start plate /\ history plate captured /\ exists f f', f ∈ flows (tables plate) /\ f' ∈ flows (tables captured) /\
    flow_step f f' /\ map im_image_no (images_of (images (tables captured)) (fl_flow_no f')) = seqZ 1 (fl_image_count f').
Proof.
  assert (H1 : history line_start plate) by apply after_all_history. assert (H2 : history plate captured) by apply after_all_history.
  split; [exact H1|]. split; [exact H2|]. destruct (flows (tables plate)) as [|f rest] eqn:E; [by vm_compute in E|].
  assert (Hf : f ∈ flows (tables plate)) by (rewrite E; left).
  destruct (flow_identity_and_images plate captured f H1 H2 Hf) as (f' & Hf' & Hstep & _ & Hn & _).
  exists f, f'. split; [left|]. split; [exact Hf'|]. split; [exact Hstep|exact Hn].
Defined.

(** The same requests where every event is a steel-in or a steel-out. *)
Lemma plain_after s r (Hr : plain r) :
  rtc (serial_step (fun r : {r | plain r} => serve (`r))) (mkSerial s None) (mkSerial (after s r) None).
Proof.
  unfold after. destruct (finish s (serve r)) as [[a s']|] eqn:E; [|done].
  by apply (serial_request (fun r : {r | plain r} => serve (`r)) s (exist plain r Hr) a s').
Qed.

Lemma one_plate_at_a_time_witness :
  at_most_one (sessions (tables line_start)) /\
  rtc (serial_step (fun r : {r | plain r} => serve (`r))) (mkSerial line_start None) (mkSerial plate None) /\
  at_most_one (sessions (tables (serial_state (mkSerial plate (@None (Line string)))))) /\ open_ids (sessions (tables plate)) = ["A-1001"].
Proof.
  assert (H0 : at_most_one (sessions (tables line_start))) by (split; [constructor|simpl; lia]).
  assert (Hr : rtc (serial_step (fun r : {r | plain r} => serve (`r))) (mkSerial line_start None) (mkSerial plate None)).
  { change plate with (after line_start (event "steel-in" "A")). exact (plain_after line_start (event "steel-in" "A") (or_introl eq_refl)). }
  split; [exact H0|]. split; [exact Hr|]. split; [exact (one_plate_at_a_time line_start (mkSerial plate None) H0 Hr)|]. by vm_compute.
Defined.

Definition refusal : string := answer line_start (event "steel-out" "A").

Lemma run_of s r a s' : finish s (serve r) = Some (a, s') -> runs s (serve r) s' (Ret a).
Proof. apply finish_runs. Qed.

Lemma refused_event_changes_nothing_witness :
  answered "409" refusal = true /\ exists s', finish line_start (serve (event "steel-out" "A")) = Some (refusal, s') /\ core s' = core line_start.
Proof.
  split; [vm_compute; reflexivity|]. unfold refusal, answer. destruct (finish line_start (serve (event "steel-out" "A"))) as [[a s']|] eqn:E; [|by vm_compute in E].
  exists s'. split; [reflexivity|]. apply (refused_event_changes_nothing true "A" "steel-out" "op" line_start s' a); [exact (run_of _ _ _ _ E)|..];
    vm_compute in E; injection E as <- _; vm_compute; reflexivity.
Defined.


(** The images of the commit, appended and appended again. *)
Definition frames : list FlowImageInput :=
  match json_parse "commit" with
  | Some payload => map fst (omap (committed "INSP-A-1001" "A-1001" "A") (unwrap_or (results_of payload) []))
  | None => []
  end.

Lemma plate_ok : line_ok plate.
Proof. by apply (history_keeps line_start plate (after_all_history _ _)), line_start_ok. Qed.

Lemma repeated_commit_is_idempotent_witness :
  line_ok plate /\ exists s1 s3 appended, finish plate (append_steel_flow_images frames) = Some (Ok appended, s1) /\ length appended = 3%nat /\
    finish s1 (append_steel_flow_images frames) = Some (Ok (map (fun a => mkFlowImageAppend (ap_image a) false) appended), s3) /\
    failed s3 = failed s1 /\ tables s3 = tables s1.
Proof.
  split; [exact plate_ok|]. destruct (finish plate (append_steel_flow_images frames)) as [[[appended|] s1]|] eqn:E1; [|by vm_compute in E1..].
  destruct (repeated_commit_is_idempotent frames plate s1 s1 appended plate_ok (finish_runs _ _ _ _ E1) ltac:(by exists None)) as (again & s3 & E3 & Et & _ & Ha).
  assert (Ef : failed s3 = failed s1) by (vm_compute in E1; injection E1 as <- <-; vm_compute in E3; by injection E3 as _ <-).
  rewrite Ef, Z.eqb_refl in Ha. subst again. exists s1, s3, appended. split_and!; [done| |done..]. vm_compute in E1. by injection E1 as <- _.
Defined.

(** ** What goes wrong *)

(** The UPDATE that gives a new flow its code fails once. The flow without a code stays in the table, and since
    codes are unique every steel-in of another session is answered with 500 from then on, although nothing
    fails any more; sending the first one again does not help, for its flow is found and keeps the empty code. *)
Definition coding_fails : LineEnv := surroundings (fun n => if (n =? 7)%nat then FailsBefore "locked" else Works).
Definition uncoded : LineState :=
  match finish line_start (@serve coding_fails _ (Event true "steel-in" "A" "op")) with Some (_, s) => s | None => line_start end.

Theorem uncoded_flow_blocks_the_line :
  map (fun f => (fl_session_id f, fl_flow_code f)) (flows (tables uncoded)) = [("A-1001", "")] /\
  answered "500" (answer uncoded (event "steel-in" "B")) = true /\
  let later := after_all uncoded [event "steel-in" "B"; event "steel-in" "A"] in
  answered "500" (answer later (event "steel-in" "C")) = true /\ sessions (tables later) = [].
Proof. by vm_compute. Qed.

(** No flow can be inserted next to one without a code. *)
Lemma no_flow_beside_uncoded no i now t f : f ∈ flows t -> fl_flow_code f = "" -> exists e, insert_flow no (flow_new i now) t = Err e.
Proof.
  intros Hf Ec. unfold insert_flow. cbv zeta. destruct (i64_max <? _); [eauto|]. destruct (existsb (fun f => fl_flow_no f =? _) _); [eauto|].
  assert (existsb (fun g => fl_flow_code g == fl_flow_code (flow_new i now (unwrap_or no (flow_seq t + 1)))) (flows t) = true) as ->; [|eauto].
  apply existsb_exists. exists f. split; [by apply list_elem_of_In|]. by rewrite Ec.
Qed.

(** The data of the next plate arrive while one is on the line: its session is now the latest open one, and the
    exit of the plate on the line is refused. *)
Definition next_announced : LineState := after_all plate [event "steel-info" "B"].

Theorem steel_info_blocks_steel_out :
  map (fun m => (m_material_id m, m_status m)) (sessions (tables next_announced)) = [("A", "active"); ("B", "info-ready")] /\
  answered "409" (answer next_announced (event "steel-out" "A")) = true /\ answered "200" (answer plate (event "steel-out" "A")) = true.
Proof. by vm_compute. Qed.

(** A trigger event for a material no steel-in was ever seen of makes its session active, and capturing is then
    allowed as if a steel-in had completed. *)
Definition triggered : LineState := after_all line_start [event "trigger-event" "A"].

Theorem trigger_event_admits_capture :
  flows (tables triggered) = [] /\ map m_status (sessions (tables triggered)) = ["active"] /\
  option_map fst (finish triggered (validate_capture_open_session (jobj [("materialId", JString "A")]))) = Some (Ok tt) /\
  (exists e, option_map fst (finish line_start (validate_capture_open_session (jobj [("materialId", JString "A")]))) = Some (Err e)).
Proof. split; [by vm_compute|]. split; [by vm_compute|]. split; [by vm_compute|]. eexists. by vm_compute. Qed.

(** The identity the provider is given is the material when the session has no flow. *)
Theorem material_is_capture_identity :
  map (fun told => get_str "id" (snd told)) (posted (after_all triggered [event "steel-out" "A"])) = [Some "A"; Some "A"] /\
  map (fun told => get_str "id" (snd told)) (posted plate) = [Some "1"].
Proof. by vm_compute. Qed.

End ProductionRun.
