(* ===== verification/Float32.v ===== *)
(** * Single-precision numbers

    Rust's [f32] on the Standard Library's [SpecFloat], at precision 24: the operations the surface code
    uses, bit patterns and little-endian bytes. The facts are that arithmetic stays inside the format (for
    any precision), that bit patterns can be read back, and that [f32::total_cmp] is an order. *)

From S2P Require Import Prelude Float64.
From Stdlib Require Import SpecFloat Sorted.
From coqutil Require Import Byte Word.LittleEndianList.

(** ** Arithmetic stays inside a format *)

Section Format.
Context (prec emax : Z) (Hprec : 0 < prec).

Local Abbreviation fexp := (fexp prec emax).

(** The binary digits of a number. *)
Lemma digits2_log2 p : Z.pos (digits2_pos p) = Z.log2 (Z.pos p) + 1.
Proof.
  induction p as [p IH|p IH|]; simpl digits2_pos; [..|done]; rewrite Pos2Z.inj_succ, IH.
  - change (Z.pos p~1) with (2 * Z.pos p + 1). rewrite Z.log2_succ_double by lia. lia.
  - change (Z.pos p~0) with (2 * Z.pos p). rewrite Z.log2_double by lia. lia.
Qed.

Lemma digits_pos m : 0 < m -> Zdigits2 m = Z.log2 m + 1.
Proof. destruct m; try lia. intros _. apply digits2_log2. Qed.

Lemma digits_nonneg m : 0 <= Zdigits2 m.
Proof. by destruct m. Qed.

Lemma digits_bound m k : 0 < m -> m < 2 ^ k -> Zdigits2 m <= k.
Proof.
  intros Hm Hk. rewrite digits_pos by done. destruct (decide (0 <= k)).
  - pose proof (proj1 (Z.log2_lt_pow2 m k Hm) Hk). lia.
  - rewrite Z.pow_neg_r in Hk by lia. lia.
Qed.

Lemma digits_shift m n : 0 < m -> 0 <= n -> Zdigits2 (m ≫ n) = Z.max 0 (Zdigits2 m - n).
Proof.
  intros Hm Hn. pose proof (digits_pos m Hm) as E. destruct (decide (Z.log2 m < n)) as [Hlt|Hge].
  - rewrite Z.shiftr_eq_0 by lia. simpl. lia.
  - assert (0 < m ≫ n) by (rewrite Z.shiftr_div_pow2 by done; apply Z.div_str_pos;
      pose proof (Z.log2_spec m Hm); pose proof (Z.pow_le_mono_r 2 n (Z.log2 m)); lia).
    rewrite digits_pos, Z.log2_shiftr by done. lia.
Qed.

Lemma digits_succ m : 0 <= m -> Zdigits2 m <= Zdigits2 (m + 1) <= Zdigits2 m + 1.
Proof.
  intros Hm. destruct (decide (m = 0)) as [->|]; [done|]. rewrite !digits_pos by lia.
  pose proof (Z.log2_succ_le m) as H1. unfold Z.succ in H1. pose proof (Z.log2_le_mono m (m + 1)). lia.
Qed.

Lemma shr_1_m r : 0 <= shr_m r -> shr_m (shr_1 r) = shr_m r ≫ 1.
Proof. destruct r as [m r s]. destruct m as [|[p|p|]|p]; simpl; done. Qed.

Lemma iter_shr n r : 0 <= shr_m r -> shr_m (iter_pos shr_1 n r) = shr_m r ≫ Z.pos n.
Proof.
  revert r. induction n as [n IH|n IH|]; intros r Hr; simpl.
  - assert (0 <= shr_m (shr_1 r)) by (rewrite shr_1_m by done; by apply Z.shiftr_nonneg).
    rewrite !IH, shr_1_m, !Z.shiftr_shiftr by (try done; try lia; rewrite IH by done; by apply Z.shiftr_nonneg).
    f_equal. lia.
  - rewrite !IH, Z.shiftr_shiftr by (try done; try lia; rewrite IH by done; by apply Z.shiftr_nonneg). f_equal. lia.
  - by apply shr_1_m.
Qed.

Lemma shr_record_m m l : shr_m (shr_record_of_loc m l) = m.
Proof. by destruct l as [|[]]. Qed.

(** What a shift to the exponent of the format does where it is not to the left. *)
Lemma shr_fexp_spec m e l : 0 <= m -> e <= fexp (Zdigits2 m + e) ->
  shr_m (fst (shr_fexp prec emax m e l)) = m ≫ (fexp (Zdigits2 m + e) - e) /\
  snd (shr_fexp prec emax m e l) = fexp (Zdigits2 m + e).
Proof.
  intros Hm He. unfold shr_fexp, shr. destruct (fexp _ - e) as [|p|p] eqn:E; simpl; rewrite ?shr_record_m.
  - rewrite Z.shiftr_0_r. split; [done|]. lia.
  - rewrite iter_shr by (by rewrite shr_record_m). rewrite shr_record_m. split; [done|lia].
  - lia.
Qed.

Lemma binary_round_aux_valid sx mx ex lx : 0 <= mx -> ex <= fexp (Zdigits2 mx + ex) ->
  valid_binary prec emax (binary_round_aux prec emax sx mx ex lx) = true.
Proof.
  intros Hm He. unfold binary_round_aux.
  destruct (shr_fexp_spec mx ex lx Hm He) as [Hm1 He1]. destruct (shr_fexp prec emax mx ex lx) as [r1 e1]. simpl in Hm1, He1.
  set (m2 := round_nearest_even _ _).
  assert (Hr : 0 <= shr_m r1) by (rewrite Hm1; by apply Z.shiftr_nonneg).
  assert (H2 : 0 <= m2 /\ (m2 = shr_m r1 \/ m2 = shr_m r1 + 1)) by (unfold m2, round_nearest_even;
    destruct (loc_of_shr_record r1) as [|[]]; [| destruct (Z.even _)|..]; lia).
  assert (He2 : e1 <= fexp (Zdigits2 m2 + e1)).
  { assert (Hd : Zdigits2 (shr_m r1) <= Zdigits2 m2).
    { destruct H2 as [_ [->| ->]]; [done|]. by apply digits_succ. }
    assert (Hs : mx = 0 \/ Zdigits2 (shr_m r1) = Z.max 0 (Zdigits2 mx - (e1 - ex))).
    { destruct (decide (mx = 0)); [by left|right]. rewrite Hm1, He1. apply digits_shift; lia. }
    pose proof (digits_nonneg (shr_m r1)). unfold SpecFloat.fexp in *.
    destruct Hs as [->|Hs]; [simpl in *; lia|]. pose proof (digits_nonneg mx). lia. }
  destruct (shr_fexp_spec m2 e1 loc_Exact (proj1 H2) He2) as [Hm3 He3].
  destruct (shr_fexp prec emax m2 e1 loc_Exact) as [r3 e3]. simpl in Hm3, He3.
  destruct (shr_m r3) as [|m|m] eqn:E; [done| |done].
  destruct (Z.leb _ _) eqn:El; [|done]. simpl. unfold bounded. apply andb_true_intro. split; [|done].
  unfold canonical_mantissa. apply Z.eqb_eq.
  assert (0 < m2) by (destruct (decide (m2 = 0)) as [E0|]; [rewrite E0, Z.shiftr_0_l in Hm3; lia|lia]).
  change (Z.pos (digits2_pos m)) with (Zdigits2 (Z.pos m)). rewrite Hm3, digits_shift by lia.
  assert (0 < Zdigits2 m2 - (fexp (Zdigits2 m2 + e1) - e1)).
  { destruct (decide (0 < Zdigits2 m2 - (fexp (Zdigits2 m2 + e1) - e1))); [done|].
    exfalso. assert (Ez : Zdigits2 (Z.pos m) = 0) by (rewrite Hm3, digits_shift by lia; lia). simpl in Ez. lia. }
  rewrite He3. rewrite Z.max_r by lia. f_equal. lia.
Qed.

Lemma binary_round_valid sx mx ex : valid_binary prec emax (binary_round prec emax sx mx ex) = true.
Proof.
  unfold binary_round, shl_align. change (Z.pos (digits2_pos mx)) with (Zdigits2 (Z.pos mx)).
  destruct (SpecFloat.fexp prec emax _ - ex) as [|p|p] eqn:E; apply binary_round_aux_valid; try lia.
  assert (Ep : Z.pos (Pos.iter xO mx p) = Z.pos mx * 2 ^ Z.pos p).
  { clear. induction p as [|p IH] using Pos.peano_ind; [simpl; lia|].
    rewrite Pos.iter_succ, Pos2Z.inj_succ, Z.pow_succ_r, Pos2Z.inj_xO, IH by lia. lia. }
  rewrite Ep, (digits_pos (Z.pos mx * _)), Z.log2_mul_pow2 by lia. rewrite (digits_pos (Z.pos mx)) in E |- * by lia.
  set (d := Z.log2 (Z.pos mx)) in *. unfold SpecFloat.fexp in *. lia.
Qed.

Lemma binary_normalize_valid m e z : valid_binary prec emax (binary_normalize prec emax m e z) = true.
Proof. destruct m; [done|apply binary_round_valid..]. Qed.

(** A shift to the right over zeros loses nothing. *)
Lemma iter_shr_exact n m : 0 <= m -> iter_pos shr_1 n (Build_shr_record (m * 2 ^ Z.pos n) false false) = Build_shr_record m false false.
Proof.
  assert (H1 : forall k, 0 <= k -> shr_1 (Build_shr_record (k * 2) false false) = Build_shr_record k false false)
    by (intros k Hk; rewrite Z.mul_comm; destruct k; done || lia).
  revert m. induction n as [n IH|n IH|]; intros m Hm; cbn [iter_pos].
  - replace (m * 2 ^ Z.pos n~1) with (m * 2 ^ Z.pos n * 2 ^ Z.pos n * 2) by (replace (Z.pos n~1) with (Z.pos n + Z.pos n + 1) by lia; rewrite !Z.pow_add_r, Z.pow_1_r by lia; lia).
    rewrite H1, !IH by nia. done.
  - replace (m * 2 ^ Z.pos n~0) with (m * 2 ^ Z.pos n * 2 ^ Z.pos n) by (replace (Z.pos n~0) with (Z.pos n + Z.pos n) by lia; rewrite !Z.pow_add_r by lia; lia).
    rewrite !IH by nia. done.
  - by apply H1.
Qed.

Lemma digits_mul_pow m j : 0 < m -> 0 <= j -> Zdigits2 (m * 2 ^ j) = Zdigits2 m + j.
Proof. intros Hm Hj. rewrite !digits_pos, Z.log2_mul_pow2 by (clear Hprec; nia). lia. Qed.

Lemma shr_fexp_exact m e j : 0 <= j -> bounded prec emax m e = true ->
  shr_fexp prec emax (Z.pos m * 2 ^ j) (e - j) loc_Exact = (Build_shr_record (Z.pos m) false false, e).
Proof.
  intros Hj Hb. apply andb_prop in Hb as [Hc _]. apply Z.eqb_eq in Hc. change (Z.pos (digits2_pos m)) with (Zdigits2 (Z.pos m)) in Hc.
  unfold shr_fexp. rewrite digits_mul_pow by lia. replace (Zdigits2 (Z.pos m) + j + (e - j)) with (Zdigits2 (Z.pos m) + e) by lia. rewrite Hc.
  replace (e - (e - j)) with j by lia. unfold shr. destruct j as [|j|]; [|simpl shr_record_of_loc|lia].
  - simpl shr_record_of_loc. f_equal; [f_equal|]; lia.
  - rewrite iter_shr_exact by lia. f_equal. lia.
Qed.

(** A number that the format has is not rounded. *)
Lemma binary_round_exact s p q m e j : 0 <= j -> bounded prec emax m e = true ->
  (Z.pos p = Z.pos m * 2 ^ j /\ q = e - j) \/ (Z.pos m = Z.pos p * 2 ^ j /\ e = q - j) -> binary_round prec emax s p q = S754_finite s m e.
Proof.
  intros Hj Hb Hp.
  assert (Haux : forall j, 0 <= j -> binary_round_aux prec emax s (Z.pos m * 2 ^ j) (e - j) loc_Exact = S754_finite s m e).
  { clear j Hj Hp. intros j Hj. unfold binary_round_aux. rewrite shr_fexp_exact by done. simpl round_nearest_even.
    pose proof (shr_fexp_exact m e 0 ltac:(lia) Hb) as E0. rewrite Z.mul_1_r, Z.sub_0_r in E0. rewrite E0. simpl.
    apply andb_prop in Hb as [_ Hb]. by rewrite Hb. }
  pose proof (andb_prop _ _ Hb) as [Hc _]. apply Z.eqb_eq in Hc. change (Z.pos (digits2_pos m)) with (Zdigits2 (Z.pos m)) in Hc.
  unfold binary_round, shl_align. change (Z.pos (digits2_pos p)) with (Zdigits2 (Z.pos p)).
  assert (E : Zdigits2 (Z.pos p) + q = Zdigits2 (Z.pos m) + e) by (destruct Hp as [[-> ->]|[-> ->]]; rewrite digits_mul_pow by lia; lia).
  rewrite E, Hc. destruct Hp as [[Em ->]|[Em ->]].
  - replace (e - (e - j)) with j by lia. destruct j as [|j|j]; [rewrite Em; apply (Haux 0); lia|rewrite Em; apply (Haux (Z.pos j)); lia|lia].
  - replace (q - j - q) with (- j) by lia. destruct j as [|j|j]; [| |lia].
    + rewrite Z.mul_1_r in Em. injection Em as ->. specialize (Haux 0). rewrite Z.mul_1_r, !Z.sub_0_r in Haux. rewrite Z.sub_0_r. by apply Haux.
    + change (binary_round_aux prec emax s (Z.pos (Pos.iter xO p j)) (q - Z.pos j) loc_Exact = S754_finite s m (q - Z.pos j)).
      assert (Ep : Z.pos (Pos.iter xO p j) = Z.pos p * 2 ^ Z.pos j).
      { clear. induction j as [|j IH] using Pos.peano_ind; [simpl; lia|].
        rewrite Pos.iter_succ, Pos2Z.inj_succ, Z.pow_succ_r, Pos2Z.inj_xO, IH by lia. lia. }
      rewrite Ep, <- Em. specialize (Haux 0). rewrite Z.mul_1_r, Z.sub_0_r in Haux. by apply Haux.
Qed.
Lemma opp_valid x : valid_binary prec emax x = true -> valid_binary prec emax (SFopp x) = true.
Proof. by destruct x. Qed.

Lemma abs_valid x : valid_binary prec emax x = true -> valid_binary prec emax (SFabs x) = true.
Proof. by destruct x. Qed.

Lemma add_valid x y : valid_binary prec emax x = true -> valid_binary prec emax y = true ->
  valid_binary prec emax (SFadd prec emax x y) = true.
Proof.
  destruct x as [[]|[]| |sx mx ex], y as [[]|[]| |sy my ey]; simpl; try done; intros _ _; apply binary_normalize_valid.
Qed.

Lemma sub_valid x y : valid_binary prec emax x = true -> valid_binary prec emax y = true ->
  valid_binary prec emax (SFsub prec emax x y) = true.
Proof.
  destruct x as [[]|[]| |sx mx ex], y as [[]|[]| |sy my ey]; simpl; try done; intros _ _; apply binary_normalize_valid.
Qed.

Lemma canonical_digits m e : bounded prec emax m e = true ->
  Zdigits2 (Z.pos m) = prec \/ e = emin prec emax /\ Zdigits2 (Z.pos m) <= prec.
Proof. unfold bounded, canonical_mantissa, SpecFloat.fexp. intros [He _]%andb_prop. apply Z.eqb_eq in He. simpl. lia. Qed.

Lemma mul_valid x y : emin prec emax <= 0 -> valid_binary prec emax x = true -> valid_binary prec emax y = true ->
  valid_binary prec emax (SFmul prec emax x y) = true.
Proof.
  intros Hemin. destruct x as [[]|[]| |sx mx ex], y as [[]|[]| |sy my ey]; try done. intros Hx Hy. unfold SFmul.
  apply binary_round_aux_valid; [lia|]. simpl in Hx, Hy.
  assert (Hlog : Z.log2 (Z.pos mx) + Z.log2 (Z.pos my) <= Z.log2 (Z.pos (mx * my))) by (rewrite Pos2Z.inj_mul; by apply Z.log2_mul_below).
  apply canonical_digits in Hx, Hy. rewrite digits_pos in * by lia. unfold SpecFloat.fexp in *.
  pose proof (Z.log2_nonneg (Z.pos mx)). pose proof (Z.log2_nonneg (Z.pos my)). lia.
Qed.

Lemma digits_quotient a b : 0 < a -> 0 < b -> Zdigits2 a - Zdigits2 b <= Zdigits2 (a / b).
Proof.
  intros Ha Hb. rewrite (digits_pos a), (digits_pos b) by done. set (k := Z.log2 a - Z.log2 b - 1).
  destruct (decide (0 <= k)) as [Hk|]; [|pose proof (digits_nonneg (a / b)); lia].
  assert (H2 : 2 ^ k <= a / b).
  { apply Z.div_le_lower_bound; [done|]. pose proof (Z.log2_spec a Ha) as [Ha' _]. pose proof (Z.log2_spec b Hb) as [_ Hb'].
    replace (Z.log2 a) with (Z.succ (Z.log2 b) + k) in Ha' by lia. pose proof (Z.log2_nonneg b). rewrite Z.pow_add_r in Ha' by lia.
    pose proof (Z.pow_pos_nonneg 2 k). nia. }
  pose proof (Z.pow_pos_nonneg 2 k). rewrite digits_pos by lia. pose proof (Z.log2_le_mono _ _ H2) as H3.
  rewrite Z.log2_pow2 in H3 by done. lia.
Qed.

Lemma div_valid x y : valid_binary prec emax x = true -> valid_binary prec emax y = true ->
  valid_binary prec emax (SFdiv prec emax x y) = true.
Proof.
  destruct x as [[]|[]| |sx mx ex], y as [[]|[]| |sy my ey]; try done. intros _ _. unfold SFdiv, SFdiv_core_binary.
  set (f := SpecFloat.fexp prec emax _). set (e := Z.min f (ex - ey)). set (m := match _ with Z0 => _ | Z.pos _ => _ | Z.neg _ => _ end).
  assert (Hm : m = Z.pos mx * 2 ^ (ex - ey - e)).
  { unfold m. destruct (ex - ey - e) as [|p|p] eqn:E; [lia|rewrite Z.shiftl_mul_pow2; lia|lia]. }
  assert (H2 : 0 < 2 ^ (ex - ey - e)) by (apply Z.pow_pos_nonneg; lia).
  pose proof (Z.div_mod m (Z.pos my)) as Hdiv. unfold Z.div, Z.modulo in Hdiv.
  assert (Hq : m / Z.pos my = fst (Z.div_eucl m (Z.pos my))) by (unfold Z.div; by destruct (Z.div_eucl _ _)).
  clearbody m. destruct (Z.div_eucl m (Z.pos my)) as [q r]. simpl in Hq. apply binary_round_aux_valid.
  - rewrite <- Hq. apply Z.div_pos; lia.
  - pose proof (digits_quotient m (Z.pos my)) as Hd. rewrite <- Hq.
    assert (Zdigits2 m = Zdigits2 (Z.pos mx) + (ex - ey - e)).
    { rewrite Hm, !digits_pos, Z.log2_mul_pow2 by lia. lia. }
    unfold f, SpecFloat.fexp in *. lia.
Qed.

End Format.

(** ** The numbers and their operations *)

Definition f32 : Type := spec_float.
Definition f32_valid (x : f32) : bool := valid_binary 24 128 x.

(** [z as f32]. *)
Definition f32_of_Z (z : Z) : f32 := binary_normalize 24 128 z 0 false.
(** A literal [n / d], both of at most 24 bits: the nearest number. *)
Definition f32_ratio (n d : Z) : f32 := SFdiv 24 128 (f32_of_Z n) (f32_of_Z d).
Definition f32_add : f32 -> f32 -> f32 := SFadd 24 128.
Definition f32_sub : f32 -> f32 -> f32 := SFsub 24 128.
Definition f32_mul : f32 -> f32 -> f32 := SFmul 24 128.
Definition f32_div : f32 -> f32 -> f32 := SFdiv 24 128.
Definition f32_neg : f32 -> f32 := SFopp.
Definition f32_abs : f32 -> f32 := SFabs.

Definition f32_is_nan : f32 -> bool := f64_is_nan.
Definition f32_is_finite : f32 -> bool := f64_is_finite.
Definition f32_lt : f32 -> f32 -> bool := f64_lt.
Definition f32_le : f32 -> f32 -> bool := f64_le.
Definition f32_eq : f32 -> f32 -> bool := f64_eq.
Definition f32_min : f32 -> f32 -> f32 := f64_min.
Definition f32_max : f32 -> f32 -> f32 := f64_max.

(** [f32::clamp], for bounds in order. *)
Definition f32_clamp (x lo hi : f32) : f32 :=
  if f32_lt x lo then lo else if f32_lt hi x then hi else x.

(** [f64::from(x)], exact. *)
Definition f64_of_f32 (x : f32) : f64 :=
  match x with
  | S754_finite s m e => binary_normalize 53 1024 (if s then Z.neg m else Z.pos m) e s
  | _ => x
  end.

(** [x as f32]. *)
Definition f32_of_f64 (x : f64) : f32 :=
  match x with
  | S754_finite s m e => binary_normalize 24 128 (if s then Z.neg m else Z.pos m) e s
  | _ => x
  end.

Definition f32_zero : f32 := S754_zero false.
Definition f32_epsilon : f32 := S754_finite false 8388608 (-46).

(** ** Bit patterns *)

(** [f32::from_bits]; every NaN is one. *)
Definition f32_of_bits (b : Z) : f32 :=
  let s := Z.testbit b 31 in
  let e := (b / 2 ^ 23) `mod` 256 in
  let m := b `mod` 2 ^ 23 in
  if e =? 255 then if m =? 0 then S754_infinity s else S754_nan
  else if e =? 0 then match m with Z.pos p => S754_finite s p (-149) | _ => S754_zero s end
  else S754_finite s (Z.to_pos (m + 2 ^ 23)) (e - 150).

(** [f32::to_bits]; which NaN an operation makes is left to the machine. *)
Class NanBits := { nan_bits : Z; nan_bits_nan : 0 <= nan_bits < 2 ^ 32 /\ f32_of_bits nan_bits = S754_nan }.

Definition sign_bit (s : bool) : Z := if s then 2 ^ 31 else 0.

Definition f32_to_bits `{NanBits} (x : f32) : Z :=
  match x with
  | S754_zero s => sign_bit s
  | S754_infinity s => sign_bit s + 255 * 2 ^ 23
  | S754_nan => nan_bits
  | S754_finite s m e => sign_bit s + (if Z.pos m <? 2 ^ 23 then Z.pos m else (e + 150) * 2 ^ 23 + (Z.pos m - 2 ^ 23))
  end.

(** [f32::to_le_bytes] and [f32::from_le_bytes]. *)
Definition f32_to_le_bytes `{NanBits} (x : f32) : list byte := le_split 4 (f32_to_bits x).
Definition f32_of_le_bytes (l : list byte) : f32 := f32_of_bits (le_combine l).

Lemma f32_finite_range s m e : f32_valid (S754_finite s m e) = true ->
  Z.pos m < 2 ^ 24 /\ -149 <= e <= 104 /\ (Z.pos m < 2 ^ 23 -> e = -149).
Proof.
  unfold f32_valid, valid_binary. intros Hb. pose proof (canonical_digits 24 128 m e Hb) as Hd.
  unfold bounded, canonical_mantissa, fexp in Hb. apply andb_prop in Hb as [Hc He]. apply Z.leb_le in He. apply Z.eqb_eq in Hc.
  change (Z.pos (digits2_pos m)) with (Zdigits2 (Z.pos m)) in *. unfold emin in *. rewrite digits_pos in * by lia.
  pose proof (Z.log2_spec (Z.pos m)) as [Hl Hu]; [lia|].
  pose proof (Z.pow_le_mono_r 2 (Z.succ (Z.log2 (Z.pos m))) 24). split_and!; [lia..|].
  intros Hm. pose proof (proj1 (Z.log2_lt_pow2 (Z.pos m) 23 ltac:(lia)) Hm). lia.
Qed.

Lemma sign_bit_bits s b : 0 <= b < 2 ^ 31 ->
  Z.testbit (sign_bit s + b) 31 = s /\ ((sign_bit s + b) / 2 ^ 23) `mod` 256 = b / 2 ^ 23 /\ (sign_bit s + b) `mod` 2 ^ 23 = b `mod` 2 ^ 23.
Proof.
  intros Hb. split_and!.
  - rewrite Z.testbit_odd, Z.shiftr_div_pow2 by lia. destruct s; unfold sign_bit.
    + rewrite Z.add_comm, <- (Z.mul_1_l (2 ^ 31)), Z.div_add, Z.div_small by lia. done.
    + by rewrite Z.div_small by lia.
  - destruct s; unfold sign_bit; [|rewrite Z.mod_small; [done|]; split; [apply Z.div_pos; lia|apply Z.div_lt_upper_bound; lia]].
    change (2 ^ 31) with (256 * 2 ^ 23). rewrite Z.add_comm, Z.div_add by lia.
    change 256 with (1 * 256) at 1. rewrite Z.mod_add by lia. apply Z.mod_small. split; [apply Z.div_pos; lia|apply Z.div_lt_upper_bound; lia].
  - destruct s; unfold sign_bit; [|done]. change (2 ^ 31) with (256 * 2 ^ 23). by rewrite Z.add_comm, Z.mod_add by lia.
Qed.

Section Bits.
Context `{NanBits}.

Lemma f32_to_bits_range x : f32_valid x = true -> 0 <= f32_to_bits x < 2 ^ 32.
Proof.
  destruct x as [[]|[]| |s m e]; try (intros _; simpl; unfold sign_bit; lia); [intros _; apply nan_bits_nan|].
  intros (Hm & He & _)%f32_finite_range. unfold f32_to_bits. destruct (Z.ltb_spec (Z.pos m) (2 ^ 23)), s; unfold sign_bit; lia.
Qed.

Lemma f32_bits_round_trip x : f32_valid x = true -> f32_of_bits (f32_to_bits x) = x.
Proof.
  intros Hv. destruct x as [s|s| |s m e].
  - by destruct s.
  - by destruct s.
  - apply nan_bits_nan.
  - apply f32_finite_range in Hv as (Hm & He & Hsub). unfold f32_to_bits, f32_of_bits.
    destruct (Z.ltb_spec (Z.pos m) (2 ^ 23)) as [Hlt|Hge].
    + destruct (sign_bit_bits s (Z.pos m)) as (-> & -> & ->); [lia|]. rewrite Z.div_small, Z.mod_small by lia. simpl.
      by rewrite Hsub.
    + set (b := (e + 150) * 2 ^ 23 + (Z.pos m - 2 ^ 23)). destruct (sign_bit_bits s b) as (-> & -> & ->); [lia|].
      assert (E1 : b / 2 ^ 23 = e + 150) by (unfold b; rewrite Z.div_add_l, Z.div_small by lia; lia).
      assert (E2 : b `mod` 2 ^ 23 = Z.pos m - 2 ^ 23) by (unfold b; rewrite Z.add_comm, Z.mod_add, Z.mod_small by lia; lia).
      rewrite E1, E2. destruct (Z.eqb_spec (e + 150) 255); [lia|]. destruct (Z.eqb_spec (e + 150) 0); [lia|].
      f_equal; [|lia]. replace (Z.pos m - 2 ^ 23 + 2 ^ 23) with (Z.pos m) by lia. done.
Qed.

(** A number written and read back is the number. *)
Lemma f32_le_bytes_round_trip x : f32_valid x = true -> f32_of_le_bytes (f32_to_le_bytes x) = x.
Proof.
  intros Hv. unfold f32_of_le_bytes, f32_to_le_bytes. rewrite le_combine_split, Z.mod_small; [by apply f32_bits_round_trip|].
  apply (f32_to_bits_range x Hv).
Qed.

Lemma f32_to_le_bytes_length x : length (f32_to_le_bytes x) = 4%nat.
Proof. apply length_le_split. Qed.
End Bits.

Lemma f32_of_bits_valid b : f32_valid (f32_of_bits b) = true.
Proof.
  unfold f32_of_bits. destruct (Z.eqb_spec ((b / 2 ^ 23) `mod` 256) 255) as [|H1]; [by destruct (_ =? 0)|].
  pose proof (Z.mod_pos_bound b (2 ^ 23)). pose proof (Z.mod_pos_bound (b / 2 ^ 23) 256).
  assert (Hc : forall m e, 0 < Z.pos m < 2 ^ 24 -> -149 <= e <= 104 -> (Z.pos m < 2 ^ 23 -> e = -149) -> bounded 24 128 m e = true).
  { intros m e Hm He Hs. unfold bounded, canonical_mantissa, fexp. apply andb_true_intro. split; [|apply Z.leb_le; lia].
    change (Z.pos (digits2_pos m)) with (Zdigits2 (Z.pos m)). apply Z.eqb_eq. unfold emin.
    pose proof (digits_bound (Z.pos m) 24 ltac:(lia) ltac:(lia)).
    destruct (decide (Z.pos m < 2 ^ 23)) as [Hlt|Hge]; [rewrite Hs by done; lia|].
    rewrite digits_pos in * by lia. pose proof (Z.log2_le_pow2 (Z.pos m) 23). lia. }
  destruct (Z.eqb_spec ((b / 2 ^ 23) `mod` 256) 0) as [|Hz].
  - destruct (b `mod` 2 ^ 23) as [|p|p] eqn:E; [done| |done]. apply Hc; lia.
  - unfold f32_valid, valid_binary. apply Hc; rewrite ?Z2Pos.id by lia; lia.
Qed.

Create HintDb f32.
#[export] Hint Resolve f32_of_bits_valid : f32.

(** A single becomes a double and comes back. *)
Lemma f32_f64_round_trip x : f32_valid x = true -> f32_of_f64 (f64_of_f32 x) = x.
Proof.
  destruct x as [s|s| |s m e]; try done. intros Hv. destruct (f32_finite_range _ _ _ Hv) as (Hm & He & _).
  set (j := 53 - Zdigits2 (Z.pos m)).
  assert (Hd : 0 < Zdigits2 (Z.pos m) <= 24) by (split; [done|]; by apply digits_bound).
  assert (Em : Z.pos (Z.to_pos (Z.pos m * 2 ^ j)) = Z.pos m * 2 ^ j) by (apply Z2Pos.id; lia).
  assert (Hb : bounded 53 1024 (Z.to_pos (Z.pos m * 2 ^ j)) (e - j) = true).
  { apply andb_true_intro. split; [|apply Z.leb_le; lia]. apply Z.eqb_eq. change (Z.pos (digits2_pos ?p)) with (Zdigits2 (Z.pos p)).
    rewrite Em, digits_mul_pow by lia. unfold SpecFloat.fexp, emin. lia. }
  assert (E64 : f64_of_f32 (S754_finite s m e) = S754_finite s (Z.to_pos (Z.pos m * 2 ^ j)) (e - j)).
  { simpl. unfold binary_normalize. destruct s; simpl; apply (binary_round_exact _ _ _ _ _ _ _ j); try lia; done || right; lia. }
  rewrite E64. simpl. unfold binary_normalize. destruct s; simpl; apply (binary_round_exact _ _ _ _ _ _ _ j); try lia; done || left; lia.
Qed.

Lemma f32_add_valid x y : f32_valid x = true -> f32_valid y = true -> f32_valid (f32_add x y) = true.
Proof. by apply add_valid. Qed.
Lemma f32_sub_valid x y : f32_valid x = true -> f32_valid y = true -> f32_valid (f32_sub x y) = true.
Proof. by apply sub_valid. Qed.
Lemma f32_mul_valid x y : f32_valid x = true -> f32_valid y = true -> f32_valid (f32_mul x y) = true.
Proof. by apply mul_valid. Qed.
Lemma f32_div_valid x y : f32_valid x = true -> f32_valid y = true -> f32_valid (f32_div x y) = true.
Proof. by apply div_valid. Qed.
Lemma f32_neg_valid x : f32_valid x = true -> f32_valid (f32_neg x) = true.
Proof. by apply opp_valid. Qed.
Lemma f32_abs_valid x : f32_valid x = true -> f32_valid (f32_abs x) = true.
Proof. by apply abs_valid. Qed.
Lemma f32_of_Z_valid z : f32_valid (f32_of_Z z) = true.
Proof. by apply binary_normalize_valid. Qed.
Lemma f32_ratio_valid n d : f32_valid (f32_ratio n d) = true.
Proof. apply f32_div_valid; apply f32_of_Z_valid. Qed.
Lemma f32_clamp_valid x lo hi : f32_valid x = true -> f32_valid lo = true -> f32_valid hi = true -> f32_valid (f32_clamp x lo hi) = true.
Proof. unfold f32_clamp. by destruct (f32_lt x lo), (f32_lt hi x). Qed.
Lemma f32_max_valid x y : f32_valid x = true -> f32_valid y = true -> f32_valid (f32_max x y) = true.
Proof. unfold f32_max, f64_max. by destruct (f64_is_nan x), (f64_is_nan y), (f64_lt x y). Qed.

#[export] Hint Resolve f32_add_valid f32_sub_valid f32_mul_valid f32_div_valid f32_neg_valid f32_abs_valid f32_of_Z_valid
  f32_ratio_valid f32_clamp_valid f32_max_valid : f32.

(** ** The total order *)

Section Order.
Context `{NanBits}.

(** [f32::total_cmp] compares these keys: the bit pattern, with all bits but the sign flipped for negative
    numbers. *)
Definition total_key (x : f32) : Z := let b := f32_to_bits x in if b <? 2 ^ 31 then b else 2 ^ 31 - 1 - b.

Definition total_le (x y : f32) : Prop := total_key x <= total_key y.

#[export] Instance total_le_dec x y : Decision (total_le x y).
Proof. apply Z.le_dec. Defined.

(** [values.sort_by(f32::total_cmp)]. *)
Definition sort_total (values : list f32) : list f32 := merge_sort total_le values.

Lemma total_key_inj x y : f32_valid x = true -> f32_valid y = true -> total_key x = total_key y -> x = y.
Proof.
  intros Hx Hy E. rewrite <- (f32_bits_round_trip x Hx), <- (f32_bits_round_trip y Hy). f_equal.
  pose proof (f32_to_bits_range x Hx). pose proof (f32_to_bits_range y Hy). unfold total_key in E.
  destruct (Z.ltb_spec (f32_to_bits x) (2 ^ 31)), (Z.ltb_spec (f32_to_bits y) (2 ^ 31)); lia.
Qed.

#[export] Instance total_le_total : Total total_le.
Proof. intros x y. unfold total_le. lia. Qed.
#[export] Instance total_le_trans : Transitive total_le.
Proof. intros x y z. unfold total_le. lia. Qed.

Lemma sort_total_perm l : sort_total l ≡ₚ l.
Proof. apply merge_sort_Permutation. Qed.

Lemma sort_total_sorted l : StronglySorted total_le (sort_total l).
Proof. apply StronglySorted_merge_sort; apply _. Qed.

Lemma sort_total_elem l x : x ∈ sort_total l <-> x ∈ l.
Proof. by rewrite sort_total_perm. Qed.

(** What is sorted does not depend on the order it came in. *)
Lemma sort_total_unique l l' : Forall (fun x => f32_valid x = true) l -> l ≡ₚ l' -> sort_total l = sort_total l'.
Proof.
  intros Hl Hp.
  assert (Hu : forall k k', StronglySorted total_le k -> StronglySorted total_le k' -> k ≡ₚ k' ->
    Forall (fun x => f32_valid x = true) k -> k = k').
  { clear. induction k as [|x k IH]; intros k' Hk Hk' Hp Hv; [by apply Permutation_nil_l in Hp|].
    destruct k' as [|y k']; [by apply Permutation_nil_r in Hp|].
    assert (Hvy : f32_valid y = true) by (rewrite Hp in Hv; by apply Forall_cons_1 in Hv as [? _]).
    apply Forall_cons_1 in Hv as [Hvx Hv]. apply StronglySorted_inv in Hk as [Hk Hx]. apply StronglySorted_inv in Hk' as [Hk' Hy].
    assert (E : x = y).
    { apply total_key_inj; [done..|]. assert (Hyx : y ∈ x :: k) by (rewrite Hp; left). assert (Hxy : x ∈ y :: k') by (rewrite <- Hp; left).
      rewrite Forall_forall in Hx, Hy. unfold total_le in Hx, Hy. apply elem_of_cons in Hyx as [->|Hyx]; [done|]. apply elem_of_cons in Hxy as [->|Hxy]; [done|].
      specialize (Hx y Hyx). specialize (Hy x Hxy). lia. }
    subst y. f_equal. apply IH; try done. by eapply Permutation_cons_inv. }
  apply Hu; [apply sort_total_sorted..| |].
  - by rewrite !sort_total_perm.
  - by rewrite sort_total_perm.
Qed.
End Order.
