(* ===== verification/MeshFormat.v ===== *)
(** * The mesh format

    BSMESH01, the binary surface model the service writes and the client and the algorithm core read, as
    app/algorithm-core/README.md lays it out: a reader that accepts exactly that layout, and the lemma that
    whatever is written section by section in this order is read back. *)

From S2P Require Import Prelude Float64 Float32.
From Stdlib Require Import SpecFloat.
From coqutil Require Import Byte Word.LittleEndianList.

Record Mesh := mkMesh {
  mesh_rows : Z;
  mesh_cols_per_camera : Z;
  mesh_camera_count : Z;
  mesh_calibrated_count : Z;
  mesh_positions : list f32;
  mesh_uvs : list f32;
  mesh_colors : list f32;
  mesh_indices : list Z;
  mesh_valid : option (list byte);
  mesh_calibrated : option (list byte);
}.

#[export] Instance byte_eq_dec : EqDecision byte := Byte.byte_eq_dec.

Definition bsmesh01 : list byte := String.list_byte_of_string "BSMESH01".

(** The next [n] bytes and what is behind them. *)
Definition split_bytes (n : Z) (l : list byte) : option (list byte * list byte) :=
  if n <=? Z.of_nat (length l) then Some (take (Z.to_nat n) l, drop (Z.to_nat n) l) else None.

(** Little-endian 32-bit words. *)
Fixpoint words (l : list byte) : option (list Z) :=
  match l with
  | [] => Some []
  | a :: b :: c :: d :: rest => ws ← words rest; Some (le_combine [a; b; c; d] :: ws)
  | _ => None
  end.

Definition read_words (n : Z) (l : list byte) : option (list Z * list byte) :=
  '(section, rest) ← split_bytes (n * 4) l; ws ← words section; Some (ws, rest).

Definition read_floats (n : Z) (l : list byte) : option (list f32 * list byte) :=
  '(ws, rest) ← read_words n l; Some (map f32_of_bits ws, rest).

Definition read_mask (present : bool) (n : Z) (l : list byte) : option (option (list byte) * list byte) :=
  if present then '(section, rest) ← split_bytes n l; Some (Some section, rest) else Some (None, l).

Definition read_mesh (l : list byte) : option Mesh :=
  '(magic, l) ← split_bytes 8 l;
  if negb (bool_decide (magic = bsmesh01)) then None else
  '(head, l) ← read_words 8 l;
  match head with
  | [version; vertices; indices; flags; rows; cols; cameras; calibrated] =>
      if negb (version =? 1) then None else
      '(positions, l) ← read_floats (vertices * 3) l;
      '(uvs, l) ← read_floats (vertices * 2) l;
      '(colors, l) ← read_floats (vertices * 3) l;
      '(index, l) ← read_words indices l;
      '(valid, l) ← read_mask (Z.testbit flags 1) vertices l;
      '(masked, l) ← read_mask (Z.testbit flags 2) vertices l;
      match l with [] => Some (mkMesh rows cols cameras calibrated positions uvs colors index valid masked) | _ => None end
  | _ => None
  end.

(** ** Writing *)

Definition words_bytes (ws : list Z) : list byte := ws ≫= le_split 4.

Definition floats_bytes `{NanBits} (fs : list f32) : list byte := fs ≫= f32_to_le_bytes.

(** The sections of a mesh in their order. *)
Definition mesh_bytes `{NanBits} (m : Mesh) (valid calibrated : list byte) : list byte :=
  bsmesh01
  ++ words_bytes [1; Z.of_nat (length valid); Z.of_nat (length (mesh_indices m)); 6; mesh_rows m; mesh_cols_per_camera m;
                  mesh_camera_count m; mesh_calibrated_count m]
  ++ floats_bytes (mesh_positions m) ++ floats_bytes (mesh_uvs m) ++ floats_bytes (mesh_colors m)
  ++ words_bytes (mesh_indices m) ++ valid ++ calibrated.

Definition word_ok (z : Z) : Prop := 0 <= z < 2 ^ 32.

Lemma split_bytes_app n l rest : n = Z.of_nat (length l) -> split_bytes n (l ++ rest) = Some (l, rest).
Proof.
  intros ->. unfold split_bytes. rewrite length_app, (proj2 (Z.leb_le _ _)) by lia.
  rewrite Nat2Z.id, take_app_length, drop_app_length. done.
Qed.

Lemma words_app4 bs rest : length bs = 4%nat -> words (bs ++ rest) = (ws ← words rest; Some (le_combine bs :: ws)).
Proof. destruct bs as [|a [|b [|c [|d [|]]]]]; try done. Qed.

Lemma words_of_words ws : Forall word_ok ws -> words (words_bytes ws) = Some ws.
Proof.
  induction 1 as [|z ws Hz _ IH]; [done|].
  change (words_bytes (z :: ws)) with (le_split 4 z ++ words_bytes ws). rewrite words_app4, IH by done. cbn [mbind option_bind].
  rewrite le_combine_split, Z.mod_small by (simpl; exact Hz). done.
Qed.

Lemma words_bytes_length ws : length (words_bytes ws) = (4 * length ws)%nat.
Proof.
  induction ws as [|z ws IH]; [done|].
  change (words_bytes (z :: ws)) with (le_split 4 z ++ words_bytes ws). rewrite length_app, IH, length_le_split. simpl. lia.
Qed.

Lemma floats_bytes_words `{NanBits} fs : floats_bytes fs = words_bytes (map f32_to_bits fs).
Proof.
  induction fs as [|f fs IH]; [done|]. change (floats_bytes (f :: fs)) with (f32_to_le_bytes f ++ floats_bytes fs). by rewrite IH.
Qed.

Lemma floats_of_floats `{NanBits} fs : Forall (fun f => f32_valid f = true) fs ->
  map f32_of_bits (map f32_to_bits fs) = fs /\ Forall word_ok (map f32_to_bits fs).
Proof.
  induction 1 as [|f fs Hf _ [IH1 IH2]]; [done|]. simpl. rewrite IH1, f32_bits_round_trip by done.
  split; [done|]. constructor; [by apply f32_to_bits_range|done].
Qed.

Lemma read_words_app n ws rest : n = Z.of_nat (length ws) -> Forall word_ok ws -> read_words n (words_bytes ws ++ rest) = Some (ws, rest).
Proof.
  intros -> Hws. unfold read_words. rewrite split_bytes_app by (rewrite words_bytes_length; lia). simpl. by rewrite words_of_words.
Qed.

Lemma read_floats_app `{NanBits} n fs rest : n = Z.of_nat (length fs) -> Forall (fun f => f32_valid f = true) fs ->
  read_floats n (floats_bytes fs ++ rest) = Some (fs, rest).
Proof.
  intros -> Hfs. destruct (floats_of_floats fs Hfs) as [E Hws]. unfold read_floats. rewrite floats_bytes_words.
  rewrite read_words_app by (rewrite ?length_map; done). simpl. by rewrite E.
Qed.

(** A mesh that fits the format. *)
Record mesh_ok (m : Mesh) (valid calibrated : list byte) : Prop := mkMeshOk {
  ok_valid : mesh_valid m = Some valid;
  ok_calibrated : mesh_calibrated m = Some calibrated;
  ok_masks : length calibrated = length valid;
  ok_positions : length (mesh_positions m) = (length valid * 3)%nat;
  ok_uvs : length (mesh_uvs m) = (length valid * 2)%nat;
  ok_colors : length (mesh_colors m) = (length valid * 3)%nat;
  ok_floats : Forall (fun f => f32_valid f = true) (mesh_positions m ++ mesh_uvs m ++ mesh_colors m);
  ok_words : Forall word_ok (mesh_indices m);
  ok_head : Forall word_ok [Z.of_nat (length valid); Z.of_nat (length (mesh_indices m)); mesh_rows m; mesh_cols_per_camera m;
                            mesh_camera_count m; mesh_calibrated_count m];
}.

(** What is written is read back. *)
Lemma read_mesh_bytes `{NanBits} (m : Mesh) valid calibrated : mesh_ok m valid calibrated -> read_mesh (mesh_bytes m valid calibrated) = Some m.
Proof.
  intros Hm. pose proof (ok_floats _ _ _ Hm) as Hf. rewrite !Forall_app in Hf. destruct Hf as (Hp & Hu & Hc).
  pose proof (ok_head _ _ _ Hm) as Hh. rewrite !Forall_cons in Hh. destruct Hh as (H1 & H2 & H3 & H4 & H5 & H6 & _).
  unfold read_mesh, mesh_bytes, read_mask. rewrite split_bytes_app by done. cbn [mbind option_bind].
  rewrite bool_decide_eq_true_2 by done. cbn [negb].
  rewrite read_words_app; [|done|by repeat (constructor; [done|])]. cbn [mbind option_bind].
  change (negb (1 =? 1)) with false. change (Z.testbit 6 1) with true. change (Z.testbit 6 2) with true. cbv iota.
  rewrite read_floats_app by (rewrite ?(ok_positions _ _ _ Hm); try done; lia). cbn [mbind option_bind].
  rewrite read_floats_app by (rewrite ?(ok_uvs _ _ _ Hm); try done; lia). cbn [mbind option_bind].
  rewrite read_floats_app by (rewrite ?(ok_colors _ _ _ Hm); try done; lia). cbn [mbind option_bind].
  rewrite read_words_app by (try done; apply Hm). cbn [mbind option_bind].
  rewrite split_bytes_app by done. cbn [mbind option_bind].
  rewrite <- (app_nil_r calibrated) at 1. rewrite split_bytes_app by (by rewrite (ok_masks _ _ _ Hm)). cbn [mbind option_bind].
  rewrite <- (ok_valid _ _ _ Hm), <- (ok_calibrated _ _ _ Hm). by destruct m.
Qed.
