(* ===== verification/SurfaceGrid.v ===== *)
(** * Grids of depth samples

    What the two surface reconstructions (npz_surface.rs and the D3IMG half of bkv_online.rs) share: the
    rows and columns they visit, evenly spaced source positions, medians, the display scale, colours, and
    the triangles between the vertices of a grid that is closed around the bar, with the proof that they
    form a closed, connected surface. Indexing that may be out of range is [None], a panic. *)

From S2P Require Import Prelude Float64 Float32.
From Stdlib Require Import SpecFloat.

Definition SURFACE_ROWS : Z := 1024.
Definition COLS_PER_CAMERA : Z := 64.

(** [l[i]]. *)
Definition at_index {A} (l : list A) (i : Z) : option A := if i <? 0 then None else l !! Z.to_nat i.

(** The positions of a grid row by row. *)
Definition grid (rows cols : Z) : list (Z * Z) := seqZ 0 rows ≫= fun r => pair r <$> seqZ 0 cols.

(** The source position of the [target]-th of [count] samples over [size] positions. *)
Definition evenly (count size target : Z) : Z := target * (size - 1) / (count - 1).

Section Stats.
Context `{NanBits}.

(** npz_surface.rs [median], bkv_online.rs [median_f32]. *)
Definition median (values : list f32) : option f32 :=
  let sorted := sort_total values in
  let n := Z.of_nat (length sorted) in
  let middle := n / 2 in
  if n =? 0 then None
  else if Z.even n then
    a ← at_index sorted (middle - 1); b ← at_index sorted middle; Some (f32_mul (f32_add a b) (f32_ratio 1 2))
  else at_index sorted middle.

(** The residual below which 95 of 100 lie, at least epsilon. *)
Definition robust_residual (residuals : list f32) : f32 :=
  let sorted := sort_total (List.filter f32_is_finite residuals) in
  f32_max (unwrap_or (at_index sorted (sat_sub (Z.of_nat (length sorted)) 1 * 95 / 100)) (f32_of_Z 1)) f32_epsilon.
End Stats.

(** The colour of a vertex: the tone of its residual, or dark where nothing was measured. *)
Definition tone_color (tone : f32) : list f32 :=
  if f32_le f32_zero tone then
    [f32_add (f32_ratio 45 100) (f32_mul tone (f32_ratio 50 100));
     f32_sub (f32_ratio 68 100) (f32_mul tone (f32_ratio 30 100));
     f32_sub (f32_ratio 72 100) (f32_mul tone (f32_ratio 45 100))]
  else
    let magnitude := f32_neg tone in
    [f32_sub (f32_ratio 45 100) (f32_mul magnitude (f32_ratio 28 100));
     f32_add (f32_ratio 68 100) (f32_mul magnitude (f32_ratio 18 100));
     f32_add (f32_ratio 72 100) (f32_mul magnitude (f32_ratio 25 100))].

Definition invalid_color : list f32 := [f32_ratio 3 100; f32_ratio 6 100; f32_ratio 8 100].

Definition vertex_color (sample : option f32) (residual robust : f32) : list f32 :=
  match sample with
  | Some _ => tone_color (f32_clamp (f32_div residual robust) (f32_of_Z (-1)) (f32_of_Z 1))
  | None => invalid_color
  end.

(** [std::f32::consts::TAU * column as f32 / columns as f32]. *)
Definition f32_tau : f32 := f32_of_bits 0x40c90fdb.
Definition vertex_angle (column columns : Z) : f32 := f32_div (f32_mul f32_tau (f32_of_Z column)) (f32_of_Z columns).

(** [f32::cos] and [f32::sin] of the platform. *)
Class Trig := {
  f32_cos : f32 -> f32;
  f32_sin : f32 -> f32;
  f32_cos_valid x : f32_valid x = true -> f32_valid (f32_cos x) = true;
  f32_sin_valid x : f32_valid x = true -> f32_valid (f32_sin x) = true;
}.

(** ** Triangles *)

(** The two triangles of the quad right of and below a vertex; the last column is followed by the first. *)
Definition quad_indices (columns : Z) (at_ : Z * Z) : list Z :=
  let '(row, column) := at_ in
  let next_column := (column + 1) `mod` columns in
  let a := row * columns + column in
  let b := row * columns + next_column in
  let c := (row + 1) * columns + column in
  let d := (row + 1) * columns + next_column in
  [a; c; b; b; c; d].

Definition grid_indices (rows columns : Z) : list Z := grid (rows - 1) columns ≫= quad_indices columns.

(** What a renderer makes of an index list. *)
Fixpoint triangles (l : list Z) : list (Z * Z * Z) :=
  match l with
  | x :: y :: z :: rest => (x, y, z) :: triangles rest
  | _ => []
  end.

Definition triangle_edges (t : Z * Z * Z) : list (Z * Z) := let '(x, y, z) := t in [(x, y); (y, z); (z, x)].

Definition mesh_edges (l : list Z) : list (Z * Z) := triangles l ≫= triangle_edges.

(** ** Grids and sampling *)

Lemma grid_length rows cols : length (grid rows cols) = (Z.to_nat rows * Z.to_nat cols)%nat.
Proof.
  unfold grid. assert (Hl : forall l : list Z, length (l ≫= fun r => pair r <$> seqZ 0 cols) = (length l * Z.to_nat cols)%nat).
  { induction l as [|r l IH]; [done|]. rewrite bind_cons, length_app, length_fmap, length_seqZ, IH. done. }
  by rewrite Hl, length_seqZ.
Qed.

Lemma elem_of_grid rows cols r c : (r, c) ∈ grid rows cols <-> 0 <= r < rows /\ 0 <= c < cols.
Proof.
  unfold grid. rewrite list_elem_of_bind. split.
  - intros (r' & Hc & Hr). apply list_elem_of_fmap in Hc as (c' & [= -> ->] & Hc). rewrite elem_of_seqZ in *. lia.
  - intros [Hr Hc]. exists r. rewrite list_elem_of_fmap, elem_of_seqZ. split; [|lia]. exists c. rewrite elem_of_seqZ. split; [done|lia].
Qed.

Lemma grid_NoDup rows cols : NoDup (grid rows cols).
Proof.
  unfold grid. apply NoDup_bind.
  - intros r1 r2 [r c] _ _ H1 H2. apply list_elem_of_fmap in H1 as (? & [= <- <-] & _), H2 as (? & [= <- <-] & _). done.
  - intros r _. apply NoDup_fmap_2; [by intros ? ? [=]|apply NoDup_seqZ].
  - apply NoDup_seqZ.
Qed.

Lemma bind_lookup_uniform {A B} (f : A -> list B) k l i j x : (forall x, length (f x) = k) -> (j < k)%nat -> l !! i = Some x ->
  (l ≫= f) !! (i * k + j)%nat = f x !! j.
Proof.
  intros Hf Hj. revert i. induction l as [|y l IH]; intros [|i] Hx; [done..| |]; rewrite bind_cons.
  - injection Hx as ->. by rewrite lookup_app_l by (rewrite Hf; lia).
  - simpl in Hx. rewrite lookup_app_r by (rewrite Hf; lia). rewrite Hf. rewrite <- (IH i Hx). f_equal. lia.
Qed.

Lemma grid_lookup rows cols r c : 0 <= r < rows -> 0 <= c < cols -> grid rows cols !! Z.to_nat (r * cols + c) = Some (r, c).
Proof.
  intros Hr Hc. unfold grid. replace (Z.to_nat (r * cols + c)) with (Z.to_nat r * Z.to_nat cols + Z.to_nat c)%nat by lia.
  rewrite (bind_lookup_uniform _ (Z.to_nat cols) _ _ _ r); [|by intros; rewrite length_fmap, length_seqZ|lia|].
  - rewrite list_lookup_fmap, lookup_seqZ_lt by lia. simpl. do 2 f_equal. lia.
  - rewrite lookup_seqZ_lt by lia. f_equal. lia.
Qed.

Lemma at_index_some {A} (l : list A) i : 0 <= i < Z.of_nat (length l) -> exists x, at_index l i = Some x /\ x ∈ l.
Proof.
  intros Hi. unfold at_index. rewrite (proj2 (Z.ltb_ge _ _)) by lia.
  destruct (lookup_lt_is_Some_2 l (Z.to_nat i)) as [x Hx]; [lia|]. exists x. split; [done|]. by eapply list_elem_of_lookup_2.
Qed.

(** Evenly spaced positions: in range, in order, from the first to the last. *)
Lemma evenly_range count size target : 1 < count -> 0 < size -> 0 <= target < count -> 0 <= evenly count size target < size.
Proof.
  intros Hc Hs Ht. unfold evenly. split; [apply Z.div_pos; nia|]. apply Z.div_lt_upper_bound; [lia|]. nia.
Qed.

Lemma evenly_mono count size t1 t2 : 1 < count -> 0 < size -> t1 <= t2 -> evenly count size t1 <= evenly count size t2.
Proof. intros Hc Hs Ht. unfold evenly. apply Z.div_le_mono; [lia|]. nia. Qed.

Lemma evenly_ends count size : 1 < count -> evenly count size 0 = 0 /\ evenly count size (count - 1) = size - 1.
Proof. intros Hc. unfold evenly. split; [by rewrite Z.mul_0_l, Z.div_0_l by lia|]. rewrite Z.mul_comm. apply Z.div_mul. lia. Qed.

(** Where there are at least as many positions as samples, no position is visited twice. *)
Lemma evenly_strict count size t1 t2 : 1 < count <= size -> t1 < t2 -> evenly count size t1 < evenly count size t2.
Proof.
  intros Hc Ht. unfold evenly. assert (H1 : (t1 * (size - 1) + (count - 1) * 1) / (count - 1) <= t2 * (size - 1) / (count - 1)).
  { apply Z.div_le_mono; [lia|]. nia. }
  replace (t1 * (size - 1) + (count - 1) * 1) with (t1 * (size - 1) + 1 * (count - 1)) in H1 by lia.
  rewrite Z.div_add in H1 by lia. lia.
Qed.

Lemma bind_length {A B} (f : A -> list B) k l : Forall (fun x => length (f x) = k) l -> length (l ≫= f) = (length l * k)%nat.
Proof. induction 1 as [|x l Hx _ IH]; [done|]. rewrite bind_cons, length_app, Hx, IH. simpl. lia. Qed.

Lemma grid_indices_length rows cols : Z.of_nat (length (grid_indices rows cols)) = Z.max 0 (rows - 1) * Z.max 0 cols * 6.
Proof.
  unfold grid_indices. rewrite (bind_length _ 6) by (apply Forall_forall; by intros [r c] _). rewrite grid_length. lia.
Qed.

Lemma grid_indices_range rows cols i : i ∈ grid_indices rows cols -> 0 <= i < rows * cols.
Proof.
  unfold grid_indices. intros ([r c] & Hi & Hin)%list_elem_of_bind. apply elem_of_grid in Hin. simpl in Hi.
  pose proof (Z.mod_pos_bound (c + 1) cols ltac:(lia)). rewrite !elem_of_cons, elem_of_nil in Hi.
  destruct Hi as [->|[->|[->|[->|[->|[->|[]]]]]]]; nia.
Qed.

(** ** Medians *)

Section StatsFacts.
Context `{NanBits}.

Lemma median_some values : values <> [] -> Forall (fun x => f32_valid x = true) values -> exists m, median values = Some m /\ f32_valid m = true.
Proof.
  intros Hne Hv. unfold median. assert (Hlen : length (sort_total values) = length values) by (by rewrite sort_total_perm).
  destruct values as [|v0 values]; [done|]. simpl length in Hlen. rewrite Hlen. set (n := Z.of_nat _).
  assert (0 < n) by lia. rewrite (proj2 (Z.eqb_neq _ _)) by lia.
  assert (Hat : forall i, 0 <= i < n -> exists x, at_index (sort_total (v0 :: values)) i = Some x /\ f32_valid x = true).
  { intros i Hi. destruct (at_index_some (sort_total (v0 :: values)) i) as (x & Hx & Hin); [lia|]. exists x. split; [done|].
    rewrite sort_total_elem in Hin. rewrite Forall_forall in Hv. by apply Hv. }
  pose proof (Z.div_mod n 2 ltac:(lia)) as Hd. pose proof (Z.mod_pos_bound n 2 ltac:(lia)).
  destruct (Z.even n) eqn:Ev.
  - rewrite Zeven_mod in Ev. apply Z.eqb_eq in Ev.
    destruct (Hat (n / 2 - 1)) as (x & -> & Hx); [lia|]. destruct (Hat (n / 2)) as (y & -> & Hy); [lia|]. simpl. eauto 8 with f32.
  - destruct (Hat (n / 2)) as (x & -> & Hx); [lia|]. eauto.
Qed.

Lemma median_none values : median values = None -> Forall (fun x => f32_valid x = true) values -> values = [].
Proof. intros E Hv. destruct values as [|v l]; [done|]. destruct (median_some (v :: l)) as (m & E' & _); [done..|]. congruence. Qed.

(** A median does not depend on the order in which the samples are taken. *)
Lemma median_perm l l' : Forall (fun x => f32_valid x = true) l -> l ≡ₚ l' -> median l = median l'.
Proof. intros Hl Hp. unfold median. by rewrite (sort_total_unique l l'). Qed.

Lemma robust_residual_valid residuals : Forall (fun x => f32_valid x = true) residuals -> f32_valid (robust_residual residuals) = true.
Proof.
  intros Hv. unfold robust_residual. apply f32_max_valid; [|done]. unfold at_index.
  destruct (_ <? 0); [done|]. destruct (sort_total _ !! _) as [x|] eqn:E; [|done]. simpl.
  apply list_elem_of_lookup_2 in E. rewrite sort_total_elem, list_elem_of_In, filter_In, <- list_elem_of_In in E.
  destruct E as [E _]. rewrite Forall_forall in Hv. by apply Hv.
Qed.
End StatsFacts.

Lemma tone_color_valid tone : f32_valid tone = true -> Forall (fun x => f32_valid x = true) (tone_color tone).
Proof. intros Ht. unfold tone_color. destruct (f32_le _ _); repeat constructor; auto 10 with f32. Qed.

Lemma vertex_color_valid sample residual robust : f32_valid residual = true -> f32_valid robust = true ->
  Forall (fun x => f32_valid x = true) (vertex_color sample residual robust).
Proof. intros. destruct sample; [apply tone_color_valid; auto 10 with f32|]. by repeat constructor. Qed.

Lemma vertex_color_length sample residual robust : length (vertex_color sample residual robust) = 3%nat.
Proof. destruct sample; [|done]. simpl. unfold tone_color. by destruct (f32_le _ _). Qed.

Lemma vertex_angle_valid column columns : f32_valid (vertex_angle column columns) = true.
Proof. unfold vertex_angle, f32_tau. auto 10 with f32. Qed.

(** ** The triangles close around the bar *)

(** Membership in a list that is written out. *)
Ltac in_list := repeat (rewrite elem_of_cons; first [left; reflexivity|right]).

Section Cylinder.
Context (rows cols : Z) (Hrows : 2 <= rows) (Hcols : 3 <= cols).

Abbreviation Position := (Z * Z)%type.

Definition vertex_no (p : Position) : Z := fst p * cols + snd p.
Definition edge_no (e : Position * Position) : Z * Z := (vertex_no (fst e), vertex_no (snd e)).
Definition on_grid (p : Position) : Prop := 0 <= fst p < rows /\ 0 <= snd p < cols.

(** The directed edges of a quad. *)
Definition quad_edges (p : Position) : list (Position * Position) :=
  let '(r, c) := p in
  let n := (c + 1) `mod` cols in
  [((r, c), (r + 1, c)); ((r + 1, c), (r, n)); ((r, n), (r, c)); ((r, n), (r + 1, c)); ((r + 1, c), (r + 1, n)); ((r + 1, n), (r, n))].

Lemma next_column c : 0 <= c < cols -> (c + 1) `mod` cols = if c + 1 =? cols then 0 else c + 1.
Proof. intros Hc. destruct (Z.eqb_spec (c + 1) cols) as [->|]; [by apply Z.mod_same; lia|apply Z.mod_small; lia]. Qed.

Lemma next_onto c : 0 <= c < cols -> exists c', 0 <= c' < cols /\ (c' + 1) `mod` cols = c.
Proof.
  intros Hc. exists (if c =? 0 then cols - 1 else c - 1). destruct (Z.eqb_spec c 0); (split; [lia|]); rewrite next_column by lia.
  - rewrite (proj2 (Z.eqb_eq _ _)); lia.
  - rewrite (proj2 (Z.eqb_neq _ _)); lia.
Qed.

Lemma vertex_no_inj p q : on_grid p -> on_grid q -> vertex_no p = vertex_no q -> p = q.
Proof.
  destruct p as [r c], q as [r' c']. unfold on_grid, vertex_no. simpl. intros [_ Hc] [_ Hc'] E.
  assert (r = r') as -> by nia. f_equal. lia.
Qed.

Lemma mesh_edges_quads : mesh_edges (grid_indices rows cols) = edge_no <$> (grid (rows - 1) cols ≫= quad_edges).
Proof.
  unfold mesh_edges, grid_indices. induction (grid (rows - 1) cols) as [|[r c] l IH]; [done|]. rewrite !bind_cons, fmap_app, <- IH. done.
Qed.

(** An edge tells the quad it belongs to, and its place there. *)
Lemma quad_edges_disjoint p q e : snd p < cols -> snd q < cols -> 0 <= snd p -> 0 <= snd q -> e ∈ quad_edges p -> e ∈ quad_edges q -> p = q.
Proof.
  destruct p as [r c], q as [r' c']. simpl. intros Hc Hc' H0 H0'. rewrite !next_column by lia.
  repeat setoid_rewrite elem_of_cons. setoid_rewrite elem_of_nil. intros He He'.
  destruct (Z.eqb_spec (c + 1) cols), (Z.eqb_spec (c' + 1) cols);
    destruct He as [->|[->|[->|[->|[->|[->|[]]]]]]]; destruct He' as [E|[E|[E|[E|[E|[E|[]]]]]]];
    injection E; intros; (f_equal; lia) || (exfalso; lia).
Qed.

Lemma quad_edges_NoDup p : 0 <= snd p < cols -> NoDup (quad_edges p).
Proof.
  destruct p as [r c]. simpl. intros Hc. rewrite next_column by lia.
  destruct (Z.eqb_spec (c + 1) cols); 
    repeat (apply NoDup_cons; split; [rewrite ?elem_of_cons, elem_of_nil; intros Hin;
      repeat (destruct Hin as [Hin|Hin]; [injection Hin; intros; lia|]); try done; injection Hin; intros; lia|]); apply NoDup_nil_2.
Qed.

Lemma elem_quads e : e ∈ (grid (rows - 1) cols ≫= quad_edges) <-> exists r c, e ∈ quad_edges (r, c) /\ 0 <= r < rows - 1 /\ 0 <= c < cols.
Proof.
  rewrite list_elem_of_bind. split.
  - intros ([r c] & He & Hin). apply elem_of_grid in Hin. by exists r, c.
  - intros (r & c & He & Hr & Hc). exists (r, c). by rewrite elem_of_grid.
Qed.

Lemma quad_on_grid r c e : e ∈ quad_edges (r, c) -> 0 <= r < rows - 1 -> 0 <= c < cols -> on_grid (fst e) /\ on_grid (snd e).
Proof.
  simpl. intros He Hr Hc. pose proof (Z.mod_pos_bound (c + 1) cols ltac:(lia)). rewrite !elem_of_cons, elem_of_nil in He.
  destruct He as [->|[->|[->|[->|[->|[->|[]]]]]]]; unfold on_grid; simpl; lia.
Qed.

Lemma quads_NoDup : NoDup (grid (rows - 1) cols ≫= quad_edges).
Proof.
  apply NoDup_bind; [| |apply grid_NoDup].
  - intros p q e Hp Hq. destruct p, q. apply elem_of_grid in Hp, Hq. apply quad_edges_disjoint; simpl; lia.
  - intros [r c] Hp%elem_of_grid. apply quad_edges_NoDup. simpl. lia.
Qed.

(** Every edge has its opposite, except those of the first and of the last ring. *)
Lemma quads_closed u v : (u, v) ∈ (grid (rows - 1) cols ≫= quad_edges) ->
  (v, u) ∈ (grid (rows - 1) cols ≫= quad_edges) \/ fst u = fst v /\ (fst u = 0 \/ fst u = rows - 1).
Proof.
  intros (r & c & He & Hr & Hc)%elem_quads. pose proof (Z.mod_pos_bound (c + 1) cols ltac:(lia)) as Hn.
  destruct (next_onto c Hc) as (c' & Hc' & En). set (n := (c + 1) `mod` cols) in *.
  assert (Hin : forall r' c' e, 0 <= r' < rows - 1 -> 0 <= c' < cols -> e ∈ quad_edges (r', c') -> e ∈ (grid (rows - 1) cols ≫= quad_edges)).
  { intros r1 c1 e ? ? ?. apply elem_quads. eauto. }
  simpl in He. rewrite !elem_of_cons, elem_of_nil in He. destruct He as [[= -> ->]|[[= -> ->]|[[= -> ->]|[[= -> ->]|[[= -> ->]|[[= -> ->]|[]]]]]]].
  - left. apply (Hin r c'); [done..|]. simpl. rewrite En. in_list.
  - left. apply (Hin r c); [done..|]. simpl. in_list.
  - destruct (decide (r = 0)) as [->|]; [by right; simpl; auto|]. left. apply (Hin (r - 1) c); [lia|done|].
    simpl. replace (r - 1 + 1) with r by lia. in_list.
  - left. apply (Hin r c); [done..|]. simpl. in_list.
  - destruct (decide (r = rows - 2)) as [->|]; [right; simpl; lia|]. left. apply (Hin (r + 1) c); [lia|done|]. simpl. in_list.
  - left. apply (Hin r n); [done..|]. simpl. in_list.
Qed.

Definition adjacent (u v : Position) : Prop :=
  (u, v) ∈ (grid (rows - 1) cols ≫= quad_edges) \/ (v, u) ∈ (grid (rows - 1) cols ≫= quad_edges).

(** Neighbours: in the same column, or around the ring. *)
Lemma quads_connected p : on_grid p -> rtc adjacent (0, 0) p.
Proof.
  destruct p as [r c]. unfold on_grid. simpl. intros [Hr Hc]. trans (r, 0).
  - assert (Hk : forall k : nat, Z.of_nat k < rows -> rtc adjacent (0, 0) (Z.of_nat k, 0)).
    { induction k as [|k IH]; intros Hk; [done|]. eapply rtc_r; [apply IH; lia|]. left. apply elem_quads. exists (Z.of_nat k), 0.
      split; [|lia]. simpl. replace (Z.of_nat (S k)) with (Z.of_nat k + 1) by lia. in_list. }
    specialize (Hk (Z.to_nat r)). rewrite Z2Nat.id in Hk by lia. apply Hk. lia.
  - assert (Hk : forall k : nat, Z.of_nat k < cols -> rtc adjacent (r, 0) (r, Z.of_nat k)).
    { induction k as [|k IH]; intros Hk; [done|]. eapply rtc_r; [apply IH; lia|].
      assert (En : (Z.of_nat k + 1) `mod` cols = Z.of_nat (S k)) by (rewrite Z.mod_small; lia).
      destruct (decide (r = 0)) as [->|].
      - right. apply elem_quads. exists 0, (Z.of_nat k). split; [|lia]. simpl. rewrite En. in_list.
      - left. apply elem_quads. exists (r - 1), (Z.of_nat k). split; [|lia]. simpl. rewrite En. replace (r - 1 + 1) with r by lia. in_list. }
    specialize (Hk (Z.to_nat c)). rewrite Z2Nat.id in Hk by lia. apply Hk. lia.
Qed.

Lemma edges_on_grid e : e ∈ (grid (rows - 1) cols ≫= quad_edges) -> on_grid (fst e) /\ on_grid (snd e).
Proof. intros (r & c & He & Hr & Hc)%elem_quads. by eapply quad_on_grid. Qed.

Lemma elem_mesh_edges u v : on_grid u -> on_grid v ->
  (vertex_no u, vertex_no v) ∈ mesh_edges (grid_indices rows cols) <-> (u, v) ∈ (grid (rows - 1) cols ≫= quad_edges).
Proof.
  intros Hu Hv. rewrite mesh_edges_quads, list_elem_of_fmap. split; [|by intros; exists (u, v)].
  intros ([u' v'] & [= E1 E2] & He). destruct (edges_on_grid _ He) as [Hu' Hv']. simpl in *.
  apply vertex_no_inj in E1, E2; [|done..]. by subst.
Qed.

Lemma vertex_no_row p : on_grid p -> vertex_no p / cols = fst p.
Proof. intros [_ Hc]. unfold vertex_no. rewrite Z.div_add_l, Z.div_small by lia. lia. Qed.

Lemma vertex_no_onto i : 0 <= i < rows * cols -> exists p, on_grid p /\ vertex_no p = i.
Proof.
  intros Hi. exists (i / cols, i `mod` cols). unfold on_grid, vertex_no. simpl. pose proof (Z.div_mod i cols ltac:(lia)).
  pose proof (Z.mod_pos_bound i cols ltac:(lia)). split; [|lia]. split; [|done].
  split; [apply Z.div_pos; lia|apply Z.div_lt_upper_bound; lia].
Qed.

(** Indices that name vertices of the grid; no edge is used twice in one direction, so the triangles agree
    on the side they face; every edge is used in both directions except around the two ends of the bar; and
    every vertex is connected with every other. *)
Definition closed_surface (indices : list Z) : Prop :=
  Forall (fun i => 0 <= i < rows * cols) indices /\
  NoDup (mesh_edges indices) /\
  (forall u v, (u, v) ∈ mesh_edges indices -> (v, u) ∈ mesh_edges indices \/ u / cols = v / cols /\ (u / cols = 0 \/ u / cols = rows - 1)) /\
  (forall i, 0 <= i < rows * cols -> rtc (fun u v => (u, v) ∈ mesh_edges indices \/ (v, u) ∈ mesh_edges indices) 0 i).

Lemma grid_indices_closed : closed_surface (grid_indices rows cols).
Proof.
  split_and!.
  - apply Forall_forall, grid_indices_range.
  - rewrite mesh_edges_quads. apply NoDup_fmap_2_strong; [|apply quads_NoDup].
    intros [u v] [u' v'] [Hu Hv]%edges_on_grid [Hu' Hv']%edges_on_grid [= E1 E2]. simpl in *.
    apply vertex_no_inj in E1, E2; [|done..]. by subst.
  - intros u v Huv. rewrite mesh_edges_quads in Huv. apply list_elem_of_fmap in Huv as ([p q] & [= -> ->] & He).
    destruct (edges_on_grid _ He) as [Hp Hq]. simpl in *. rewrite elem_mesh_edges, !vertex_no_row by done. by apply quads_closed.
  - intros i Hi. destruct (vertex_no_onto i Hi) as (p & Hp & <-). change 0 with (vertex_no (0, 0)).
    assert (H0 : on_grid (0, 0)) by (unfold on_grid; simpl; lia).
    assert (Hr : rtc adjacent (0, 0) p) by (by apply quads_connected). clear Hi.
    induction Hr as [x|x y z Hxy _ IH]; [done|].
    assert (Hy : on_grid x /\ on_grid y) by (destruct Hxy as [Hxy|Hxy]; apply edges_on_grid in Hxy; naive_solver).
    eapply rtc_l; [|apply IH; [done|apply Hy]]. simpl. rewrite !elem_mesh_edges by apply Hy. exact Hxy.
Qed.

End Cylinder.
