(* ===== verification/NpzSurface.v ===== *)
(** * Surfaces from NPZ captures

    npz_surface.rs: reading the depth array out of an NPZ archive, sampling every frame of every camera on
    one grid, the baselines of the columns, and the mesh that is written for the client. A panic is
    [None]. *)

From S2P Require Import Prelude Json Http Float64 Float32 MeshFormat SurfaceGrid.
From Stdlib Require Import SpecFloat Ascii.
From coqutil Require Import Byte Word.LittleEndianList.

Definition MAX_NPY_BYTES : Z := 64 * 1024 * 1024.
Definition INVALID_DEPTH_FLOOR : f32 := f32_of_Z (-999999).
Definition DISPLAY_P95_RADIAL_OFFSET : f32 := f32_ratio 2 100.
Definition RECONSTRUCTION_REVISION : string := "npz-cylinder-column-profile-v5-hires-mm".

(** A computation that may panic. *)
Abbreviation Run A := (option (Result A string)).
Definition run_bind {A B} (m : Run A) (k : A -> Run B) : Run B :=
  match m with Some (Ok a) => k a | Some (Err e) => Some (Err e) | None => None end.
Notation "'let!' x := m 'in' k" := (run_bind m (fun x => k)) (at level 200, x pattern, right associativity) : rust_scope.

(** ** The depth array *)

Record DepthArray := mkDepthArray { da_rows : Z; da_columns : Z; da_values : list f32 }.

Definition header_field (header name : string) : Result string string :=
  match split_once ("'" +:+ name +:+ "':") header with
  | Some (_, rest) => Ok (trim_start rest)
  | None => Err ("NPY header is missing " +:+ name)
  end.

(** [.map(parse).collect()] over the dimensions. *)
Fixpoint parse_dimensions (parts : list string) : Result (list Z) string :=
  match parts with
  | [] => Ok []
  | part :: rest =>
      match parse_u64 part with
      | None => Err "NPY shape contains an invalid dimension"
      | Some n => let? dimensions := parse_dimensions rest in Ok (n :: dimensions)
      end
  end.

Definition parse_shape (header : string) : Result (Z * Z) string :=
  let? value := header_field header "shape" in
  match split_once "(" value with
  | None => Err "NPY shape is invalid"
  | Some (_, rest) =>
      match split_once ")" rest with
      | None => Err "NPY shape is invalid"
      | Some (inner, _) =>
          let? dimensions := parse_dimensions (List.filter (fun part => negb (is_empty part)) (map trim (split_byte (ascii_of_nat 44) inner))) in
          match dimensions with
          | [rows; columns] =>
              if (rows =? 0) || (columns =? 0) then Err "NPY depth array must be a non-empty two-dimensional array" else Ok (rows, columns)
          | _ => Err "NPY depth array must be a non-empty two-dimensional array"
          end
      end
  end.

(** [bytes[i]] behind a check of the length. *)
Definition byte_no (bytes : list byte) (i : nat) : byte := nth i bytes Byte.x00.

(** [.chunks_exact(4).map(f32::from_le_bytes)]. *)
Fixpoint f32_chunks (l : list byte) : list f32 :=
  match l with
  | a :: b :: c :: d :: rest => f32_of_le_bytes [a; b; c; d] :: f32_chunks rest
  | _ => []
  end.

Definition npy_magic : list byte := Byte.x93 :: String.list_byte_of_string "NUMPY".

(** The length of the header and where it starts. *)
Definition npy_preamble (bytes : list byte) : option (Z * Z) :=
  let version := (byte.unsigned (byte_no bytes 6), byte.unsigned (byte_no bytes 7)) in
  if bool_decide (version = (1, 0)) then Some (le_combine [byte_no bytes 8; byte_no bytes 9], 10)
  else if (bool_decide (version = (2, 0)) || bool_decide (version = (3, 0))) && (12 <=? Z.of_nat (length bytes)) then
    Some (le_combine [byte_no bytes 8; byte_no bytes 9; byte_no bytes 10; byte_no bytes 11], 12)
  else None.

Definition parse_depth_npy (bytes : list byte) : Result DepthArray string :=
  let size := Z.of_nat (length bytes) in
  if (size <? 10) || negb (bool_decide (take 6 bytes = npy_magic)) then Err "NPZ depth member is not an NPY array"
  else
    match npy_preamble bytes with
    | None => Err "unsupported NPY version"
    | Some (header_length, header_start) =>
        match filter_opt (fun offset => offset <=? size) (checked_add u64_max header_start header_length) with
        | None => Err "NPY header length is invalid"
        | Some data_start =>
            let header := String.string_of_list_byte (take (Z.to_nat header_length) (drop (Z.to_nat header_start) bytes)) in
            if negb (utf8_valid header) then Err "NPY header is not ASCII/UTF-8" else
            let? descriptor := header_field header "descr" in
            let quoted q order := String q (order +:+ "f4" +:+ String q EmptyString) in
            if negb (existsb (fun d => starts_with d descriptor)
                       [quoted (ascii_of_nat 39) "<"; quoted quote "<"; quoted (ascii_of_nat 39) "="; quoted quote "="])
            then Err "NPY depth array must use little-endian float32" else
            let? order := header_field header "fortran_order" in
            if negb (starts_with "False" order) then Err "Fortran-order NPY depth arrays are unsupported" else
            let? shape := parse_shape header in
            let '(rows, columns) := shape in
            match checked_mul u64_max rows columns with
            | None => Err "NPY depth dimensions overflow"
            | Some value_count =>
                match checked_mul u64_max value_count 4 with
                | None => Err "NPY depth byte count overflow"
                | Some byte_count =>
                    if negb (bool_decide (checked_add u64_max data_start byte_count = Some size))
                    then Err "NPY depth payload length does not match its shape"
                    else Ok (mkDepthArray rows columns (f32_chunks (drop (Z.to_nat data_start) bytes)))
                end
            end
        end
    end.

(** The member of an archive: the size the archive declares and what reading it gives. *)
Record Member := mkMember { declared_size : Z; member_content : Result (list byte) string }.

(** The files: [File::open], [ZipArchive::new] and [by_name], by path, with the text of their errors. *)
Class Archives := {
  file_open : string -> Result unit string;
  zip_archive : string -> Result unit string;
  zip_member : string -> string -> Result Member string;
}.

Definition load_depth `{Archives} (path : string) : Result DepthArray string :=
  let named {A} (r : Result A string) (f : string -> string) : Result A string := match r with Ok a => Ok a | Err e => Err (f e) end in
  let? _ := named (file_open path) (fun error => path +:+ ": " +:+ error) in
  let? _ := named (zip_archive path) (fun error => path +:+ ": " +:+ error) in
  let? member := named (zip_member path "depth.npy") (fun error => path +:+ " has no depth.npy: " +:+ error) in
  if MAX_NPY_BYTES <? declared_size member then Err (path +:+ " depth.npy exceeds the safety limit")
  else
    let? bytes := named (member_content member) (fun error => path +:+ " depth.npy: " +:+ error) in
    named (parse_depth_npy bytes) (fun error => path +:+ ": " +:+ error).

(** ** Sampling *)

Definition valid_depth (value : f32) : bool := f32_is_finite value && f32_lt INVALID_DEPTH_FLOOR value.

Definition sample_at (depth : DepthArray) (target : Z * Z) : option (option f32) :=
  let source_row := evenly SURFACE_ROWS (da_rows depth) (fst target) in
  let source_column := evenly COLS_PER_CAMERA (da_columns depth) (snd target) in
  value ← at_index (da_values depth) (source_row * da_columns depth + source_column);
  Some (if valid_depth value then Some value else None).

Definition sample_frame (depth : DepthArray) : option (list (option f32)) := mapM (sample_at depth) (grid SURFACE_ROWS COLS_PER_CAMERA).

Record SampledCamera := mkSampledCamera { column_baselines : list f32; samples : list (option f32) }.

(** The residual of a camera's sample against the baseline of its column. *)
Definition residual_at (camera : SampledCamera) (indexed : Z * option f32) : option (option f32) :=
  match snd indexed with
  | Some value => b ← at_index (column_baselines camera) (fst indexed `mod` COLS_PER_CAMERA); Some (Some (f32_abs (f32_sub value b)))
  | None => Some None
  end.

Definition camera_residuals (camera : SampledCamera) : option (list f32) :=
  residuals ← mapM (residual_at camera) (zip (seqZ 0 (Z.of_nat (length (samples camera)))) (samples camera));
  Some (omap id residuals).

Definition display_scaling `{NanBits} (cameras : list SampledCamera) : option (f32 * f32) :=
  residuals ← mapM camera_residuals cameras;
  let robust := robust_residual (mjoin residuals) in
  Some (robust, f32_div DISPLAY_P95_RADIAL_OFFSET robust).

(** ** The mesh *)

Record Vertex := mkVertex { v_position : list f32; v_uv : list f32; v_color : list f32; v_valid : byte }.

Definition vertex_at `{Trig} (cameras : list SampledCamera) (robust nominal_radius_mm length_mm : f32) (columns : Z) (place : Z * Z) : option Vertex :=
  let '(row, column) := place in
  let longitudinal := f32_div (f32_of_Z row) (f32_of_Z (SURFACE_ROWS - 1)) in
  let camera_column := column `mod` COLS_PER_CAMERA in
  camera ← at_index cameras (column / COLS_PER_CAMERA);
  sample ← at_index (samples camera) (row * COLS_PER_CAMERA + camera_column);
  residual ← match sample with
             | Some value => b ← at_index (column_baselines camera) camera_column; Some (f32_sub value b)
             | None => Some f32_zero
             end;
  let radius := f32_clamp (f32_div (f32_add nominal_radius_mm residual) nominal_radius_mm) (f32_ratio 1 10) (f32_of_Z 2) in
  let angle := vertex_angle column columns in
  Some (mkVertex
          [f32_mul (f32_sub longitudinal (f32_ratio 1 2)) (f32_div length_mm nominal_radius_mm);
           f32_mul radius (f32_cos angle); f32_mul radius (f32_sin angle)]
          [longitudinal; f32_div (f32_of_Z column) (f32_of_Z columns)]
          (vertex_color sample residual robust)
          (match sample with Some _ => Byte.x01 | None => Byte.x00 end)).

Definition encode_surface `{NanBits} `{Trig} (cameras : list SampledCamera) (robust nominal_radius_mm length_mm : f32) : Run (list byte) :=
  let camera_count := Z.of_nat (length cameras) in
  match checked_mul u64_max camera_count COLS_PER_CAMERA with
  | None => Some (Err "NPZ surface column count overflow")
  | Some columns =>
      match checked_mul u64_max SURFACE_ROWS columns with
      | None => Some (Err "NPZ surface vertex count overflow")
      | Some vertex_count =>
          vertices ← mapM (vertex_at cameras robust nominal_radius_mm length_mm columns) (grid SURFACE_ROWS columns);
          let indices := grid_indices SURFACE_ROWS columns in
          if negb (forallb (fun i => i <=? u32_max) indices) then Some (Err "NPZ mesh index overflow")
          else if u32_max <? vertex_count then Some (Err "NPZ surface vertex count is out of range")
          else if u32_max <? Z.of_nat (length indices) then Some (Err "NPZ surface index count is out of range")
          else
            Some (Ok (bsmesh01
              ++ words_bytes [1; vertex_count; Z.of_nat (length indices); Z.lor 2 4; SURFACE_ROWS; COLS_PER_CAMERA; camera_count; 0]
              ++ floats_bytes (vertices ≫= v_position) ++ floats_bytes (vertices ≫= v_uv) ++ floats_bytes (vertices ≫= v_color)
              ++ words_bytes indices ++ map v_valid vertices ++ replicate (Z.to_nat vertex_count) Byte.x00))
      end
  end.

(** ** A record *)

(** [BTreeMap<u32, Vec<_>>]: [entry(key).or_default().push(value)]. *)
Fixpoint group_push {V} (key : Z) (value : V) (groups : list (Z * list V)) : list (Z * list V) :=
  match groups with
  | [] => [(key, [value])]
  | (k, values) :: rest =>
      if key <? k then (key, [value]) :: groups
      else if key =? k then (k, values ++ [value]) :: rest
      else (k, values) :: group_push key value rest
  end.

(** [sort_by_key], which is stable. *)
Fixpoint insert_by {A} (key : A -> Z) (x : A) (l : list A) : list A :=
  match l with
  | [] => [x]
  | y :: rest => if key x <? key y then x :: l else y :: insert_by key x rest
  end.
Definition sort_by_key {A} (key : A -> Z) (l : list A) : list A := fold_left (fun sorted x => insert_by key x sorted) l [].

(** [l[start..start + n]]. *)
Definition slice {A} (l : list A) (start n : Z) : option (list A) :=
  if (0 <=? start) && (start + n <=? Z.of_nat (length l)) then Some (take (Z.to_nat n) (drop (Z.to_nat start) l)) else None.

(** [iter().reduce(f)]. *)
Definition reduce {A} (f : A -> A -> A) (l : list A) : option A := match l with [] => None | x :: rest => Some (fold_left f rest x) end.

Definition jf32 (x : f32) : Value := jfloat (f64_of_f32 x).

Section Build.
Context `{Archives} `{NanBits} `{Trig}.

(** The frames of a camera, loaded and sampled in order; they have to agree on their dimensions. *)
Fixpoint sample_frames (camera_id : Z) (frames : list (Z * string)) (dimensions : option (Z * Z)) : Run (list (list (option f32)) * option (Z * Z)) :=
  match frames with
  | [] => Some (Ok ([], dimensions))
  | (_, path) :: rest =>
      let! depth := Some (load_depth path) in
      let current := (da_rows depth, da_columns depth) in
      if is_some_and dimensions (fun value => negb (bool_decide (value = current)))
      then Some (Err ("camera " +:+ dec camera_id +:+ " NPZ depth dimensions are inconsistent"))
      else
        frame ← sample_frame depth;
        let! (sampled, dimensions) := sample_frames camera_id rest (Some current) in
        Some (Ok (frame :: sampled, dimensions))
  end.

(** The samples of a row of the common grid, from the frame it falls into. *)
Definition combined_samples (frame_samples : list (list (option f32))) (combined_rows target_row : Z) : option (list (option f32)) :=
  let combined_row := evenly SURFACE_ROWS combined_rows target_row in
  frame ← at_index frame_samples (combined_row / SURFACE_ROWS);
  slice frame (combined_row `mod` SURFACE_ROWS * COLS_PER_CAMERA) COLS_PER_CAMERA.

(** One grid over all frames: evenly spaced rows of the frames put one behind the other. *)
Definition combine_frames (frame_samples : list (list (option f32))) : Run (list (option f32)) :=
  match checked_mul u64_max (Z.of_nat (length frame_samples)) SURFACE_ROWS with
  | None => Some (Err "NPZ combined row count overflow")
  | Some combined_rows =>
      rows ← mapM (combined_samples frame_samples combined_rows) (seqZ 0 SURFACE_ROWS);
      Some (Ok (mjoin rows))
  end.

(** The median of a column, or the median of the camera where the column has no valid sample. *)
Definition column_baseline (samples : list (option f32)) (baseline : f32) (column : Z) : option f32 :=
  values ← mapM (fun row => at_index samples (row * COLS_PER_CAMERA + column)) (seqZ 0 SURFACE_ROWS);
  Some (unwrap_or (median (omap id values)) baseline).

Definition camera_parameters (camera_id : Z) (frames : list (Z * string)) (dimensions : Z * Z) (baseline : f32) (baselines : list f32) : Value :=
  jobj [("cameraId", jint camera_id); ("frameCount", jint (Z.of_nat (length frames)));
        ("firstSequence", jopt (fun f => jint (fst f)) (head frames)); ("lastSequence", jopt (fun f => jint (fst f)) (last frames));
        ("sourceRows", jint (fst dimensions)); ("sourceColumns", jint (snd dimensions)); ("baseline", jf32 baseline);
        ("columnBaselineMinimum", jopt jf32 (reduce f32_min baselines)); ("columnBaselineMaximum", jopt jf32 (reduce f32_max baselines));
        ("normalization", JString "per-column-valid-sample-median")].

Definition sample_camera (camera_id : Z) (frames : list (Z * string)) : Run (SampledCamera * Value) :=
  let frames := sort_by_key fst frames in
  if match frames with [] => true | _ => false end then Some (Err ("camera " +:+ dec camera_id +:+ " has no NPZ depth frames"))
  else
    let! (frame_samples, dimensions) := sample_frames camera_id frames None in
    let! samples := combine_frames frame_samples in
    match median (omap id samples) with
    | None => Some (Err ("camera " +:+ dec camera_id +:+ " NPZ depth has no valid samples"))
    | Some baseline =>
        baselines ← mapM (column_baseline samples baseline) (seqZ 0 COLS_PER_CAMERA);
        match dimensions with
        | None => Some (Err ("camera " +:+ dec camera_id +:+ " NPZ dimensions unavailable"))
        | Some d => Some (Ok (mkSampledCamera baselines samples, camera_parameters camera_id frames d baseline baselines))
        end
    end.

Fixpoint sample_cameras (grouped : list (Z * list (Z * string))) : Run (list (SampledCamera * Value)) :=
  match grouped with
  | [] => Some (Ok [])
  | (camera_id, frames) :: rest =>
      let! camera := sample_camera camera_id frames in
      let! cameras := sample_cameras rest in
      Some (Ok (camera :: cameras))
  end.

Record NpzSurface := mkNpzSurface { ns_binary : list byte; ns_parameters : Value }.

Definition surface_parameters (record_id : string) (frame_count : Z) (cameras : list SampledCamera) (parameters : list Value)
    (nominal_diameter_mm nominal_radius_mm length_mm robust : f32) (index_count binary_bytes : Z) : Value :=
  let vertex_count := SURFACE_ROWS * COLS_PER_CAMERA * Z.of_nat (length cameras) in
  let valid_point_count := Z.of_nat (length (omap id (mjoin (map samples cameras)))) in
  jobj [("schema", JString "steel.bkv-depth-reconstruction-parameters.v1"); ("recordId", JString record_id);
        ("algorithmRevision", JString RECONSTRUCTION_REVISION);
        ("input", jobj [("format", JString "NPZ"); ("depthArray", JString "depth.npy"); ("depthType", JString "little-endian-float32");
                        ("sourceFrameCount", jint frame_count); ("invalidDepthFloor", jf32 INVALID_DEPTH_FLOOR)]);
        ("sampling", jobj [("rows", jint SURFACE_ROWS); ("colsPerCamera", jint COLS_PER_CAMERA);
                           ("cameraCount", jint (Z.of_nat (length cameras))); ("frameSelection", JString "all-frames");
                           ("rowSelection", JString "evenly-spaced-across-ordered-frames"); ("columnSelection", JString "evenly-spaced")]);
        ("reconstruction", jobj [("geometry", JString "closed-cylinder"); ("longitudinalExtent", jf32 length_mm);
                                 ("nominalRadius", jf32 nominal_radius_mm); ("nominalDiameter", jf32 nominal_diameter_mm);
                                 ("maximumRadialOffset", jf32 robust); ("cameraNormalization", JString "per-column-valid-sample-median");
                                 ("coordinateUnit", JString "millimeter"); ("calibrated", JBool true)]);
        ("display", jobj [("mode", JString "millimeter-residual-normalized-by-nominal-radius");
                          ("p95RadialOffset", jf32 DISPLAY_P95_RADIAL_OFFSET); ("robustResidualP95", jf32 robust);
                          ("radialScale", jf32 (f32_div (f32_of_Z 1) nominal_radius_mm)); ("unit", JString "millimeter")]);
        ("output", jobj [("format", JString "BSMESH01"); ("vertexCount", jint vertex_count); ("validPointCount", jint valid_point_count);
                         ("imputedPointCount", jint (vertex_count - valid_point_count)); ("indexCount", jint index_count);
                         ("triangleCount", jint (index_count / 3)); ("binaryBytes", jint binary_bytes);
                         ("topology", JString "closed-with-nominal-invalid-fill")]);
        ("cameras", JArray parameters)].

(** The captures by camera, in the order they came. *)
Definition push_capture (groups : list (Z * list (Z * string))) (capture : Z * Z * string) : list (Z * list (Z * string)) :=
  let '(camera_id, sequence_no, path) := capture in group_push camera_id (sequence_no, path) groups.

Definition group_captures (captures : list (Z * Z * string)) : list (Z * list (Z * string)) := fold_left push_capture captures [].

Definition build_npz_surface (record_id : string) (captures : list (Z * Z * string)) (nominal_diameter_mm length_mm : f32) : Run NpzSurface :=
  if negb (f32_is_finite nominal_diameter_mm) || f32_le nominal_diameter_mm f32_zero
  then Some (Err "NPZ reconstruction requires a positive nominal diameter in millimetres")
  else if negb (f32_is_finite length_mm) || f32_le length_mm f32_zero
  then Some (Err "NPZ reconstruction requires a positive steel length in millimetres")
  else
    let nominal_radius_mm := f32_mul nominal_diameter_mm (f32_ratio 1 2) in
    let grouped := group_captures captures in
    if match grouped with [] => true | _ => false end then Some (Err "converted record has no NPZ depth captures")
    else
      let! sampled := sample_cameras grouped in
      let cameras := map fst sampled in
      scaling ← display_scaling cameras;
      let robust := fst scaling in
      let! binary := encode_surface cameras robust nominal_radius_mm length_mm in
      index_bytes ← slice binary 16 4;
      Some (Ok (mkNpzSurface binary
        (surface_parameters record_id (Z.of_nat (length captures)) cameras (map snd sampled) nominal_diameter_mm nominal_radius_mm
           length_mm robust (le_combine index_bytes) (Z.of_nat (length binary))))).
End Build.
