(* ===== verification/NpzFacts.v ===== *)
(** * Theorems about surfaces from NPZ captures

    An array that is written in the NPY format is read back; whatever the files hold, the reconstruction
    answers with a surface or an error and never indexes out of range; and what it writes is a mesh in the
    format of the client, one vertex per grid position, closed around the bar. *)

From S2P Require Import Prelude Json Http HttpFacts Float64 Float32 MeshFormat SurfaceGrid NpzSurface.
From Stdlib Require Import SpecFloat Ascii.
From coqutil Require Import Byte Word.LittleEndianList.

(** ** Reading arrays *)

Definition all_valid (l : list f32) : Prop := Forall (fun x => f32_valid x = true) l.

Record depth_ok (d : DepthArray) : Prop := mkDepthOk {
  depth_rows : 0 < da_rows d;
  depth_columns : 0 < da_columns d;
  depth_values : Z.of_nat (length (da_values d)) = da_rows d * da_columns d;
  depth_floats : all_valid (da_values d);
}.

Lemma list_ind4 {A} (P : list A -> Prop) : P [] -> (forall a, P [a]) -> (forall a b, P [a; b]) -> (forall a b c, P [a; b; c]) ->
  (forall a b c d l, P l -> P (a :: b :: c :: d :: l)) -> forall l, P l.
Proof.
  intros H0 H1 H2 H3 H4 l. assert (Hn : forall n l, (length l <= n)%nat -> P l); [|by eapply Hn].
  clear l. induction n as [|n IH]; intros [|a [|b [|c [|d l]]]] Hl; try done; try (simpl in Hl; lia).
  apply H4, IH. simpl in Hl. lia.
Qed.

Lemma f32_chunks_valid l : all_valid (f32_chunks l).
Proof. induction l using list_ind4; try by constructor. constructor; [apply f32_of_bits_valid|done]. Qed.

Lemma f32_chunks_length l : length (f32_chunks l) = (length l / 4)%nat.
Proof.
  induction l as [| | | |a b c d l IH] using list_ind4; try done. simpl length. rewrite IH.
  replace (S (S (S (S (length l))))) with (length l + 1 * 4)%nat by lia. rewrite Nat.div_add by done. lia.
Qed.

Lemma parse_u64_nonneg s n : parse_u64 s = Some n -> 0 <= n.
Proof. intros E. apply (parse_unsigned_range u64_max) in E; [lia|done]. Qed.

Lemma parse_dimensions_nonneg parts dims : parse_dimensions parts = Ok dims -> Forall (fun n => 0 <= n) dims.
Proof.
  revert dims. induction parts as [|p parts IH]; intros dims; simpl; [by intros [= <-]|].
  destruct (parse_u64 p) as [n|] eqn:E; [|done]. apply parse_u64_nonneg in E.
  destruct (parse_dimensions parts) as [l|]; [|done]. simpl. intros [= <-]. constructor; [done|by apply IH].
Qed.

Lemma parse_shape_positive header rows columns : parse_shape header = Ok (rows, columns) -> 0 < rows /\ 0 < columns.
Proof.
  unfold parse_shape. destruct (header_field header "shape") as [v|]; [|done]. simpl.
  destruct (split_once "(" v) as [[? rest]|]; [|done]. destruct (split_once ")" rest) as [[inner ?]|]; [|done].
  destruct (parse_dimensions _) as [dims|] eqn:E; [|done]. simpl. apply parse_dimensions_nonneg in E.
  destruct dims as [|r [|c [|]]]; try done. rewrite !Forall_cons in E. destruct (Z.eqb_spec r 0), (Z.eqb_spec c 0); try done.
  intros [= <- <-]. lia.
Qed.

Lemma npy_preamble_range bytes length start : npy_preamble bytes = Some (length, start) -> 0 <= length /\ 10 <= start <= 12.
Proof.
  unfold npy_preamble. intros E. repeat case_match; simplify_eq; (split; [|lia]).
  - apply (le_combine_bound [_; _]).
  - apply (le_combine_bound [_; _; _; _]).
Qed.

Lemma parse_depth_sound bytes d : parse_depth_npy bytes = Ok d -> depth_ok d.
Proof.
  unfold parse_depth_npy. destruct (_ || _); [done|]. destruct (npy_preamble bytes) as [[hl hs]|] eqn:Ep; [|done].
  destruct (filter_opt _ _) as [start|] eqn:Es; [|done].
  destruct (negb _); [done|]. destruct (header_field _ "descr") as [descr|]; [|done]. simpl result_bind. destruct (negb _); [done|].
  destruct (header_field _ "fortran_order") as [order|]; [|done]. simpl result_bind. destruct (negb _); [done|].
  destruct (parse_shape _) as [[rows columns]|] eqn:Eshape; [|done]. simpl result_bind. apply parse_shape_positive in Eshape as [Hr Hc].
  unfold checked_mul. destruct (rows * columns <=? u64_max); [|done]. destruct (rows * columns * 4 <=? u64_max); [|done].
  destruct (bool_decide _) eqn:E; [|done]. apply bool_decide_eq_true in E. simpl. intros [= <-].
  constructor; simpl; [done..| |apply f32_chunks_valid].
  apply npy_preamble_range in Ep. unfold checked_add in E, Es. destruct (start + rows * columns * 4 <=? u64_max); [|done]. injection E as E.
  assert (0 <= start) by (destruct (hs + hl <=? u64_max); [|done]; simpl in Es; destruct (_ <=? _) in Es; simplify_eq; lia).
  rewrite f32_chunks_length, length_drop, Nat2Z.inj_div. replace (Z.of_nat (length bytes - Z.to_nat start)) with (rows * columns * 4) by lia.
  rewrite Z.div_mul by lia. done.
Qed.

(** ** Writing arrays *)

(** A printable byte: neither white space nor the start of a longer character. *)
Definition graphic (a : ascii) : bool := byte_between 33 126 a.

Lemma graphic_plain a : graphic a = true -> ws1 a = false /\ forall b c, ws2 a b = false /\ ws3 a b c = false /\ ws2 b a = false /\ ws3 b c a = false.
Proof.
  unfold graphic, ws1, ws2, ws3, byte_between, byte_is. intros Ha. bool_facts. split; [|intros b c; split_and!]; lia.
Qed.

Lemma trim_start_space s : trim_start (String (ascii_of_nat 32) s) = trim_start s.
Proof. done. Qed.

Lemma trim_start_graphic a s : graphic a = true -> trim_start (String a s) = String a s.
Proof.
  intros [H1 H2]%graphic_plain. unfold trim_start. simpl. rewrite H1.
  destruct s as [|b [|c s]]; [done|by rewrite (proj1 (H2 b b))|]. destruct (H2 b c) as (-> & -> & _). done.
Qed.

Lemma rev_app_rev s t : String.rev (String.rev_app s t) = String.rev_app t s.
Proof. unfold String.rev. revert t. induction s as [|a s IH]; intros t; [done|]. simpl. by rewrite IH. Qed.

Lemma rev_rev s : String.rev (String.rev s) = s.
Proof. apply (rev_app_rev s ""). Qed.

Lemma all_bytes_rev p s : all_bytes p s = true -> all_bytes p (String.rev s) = true.
Proof.
  unfold String.rev. assert (H : forall t, all_bytes p s = true -> all_bytes p t = true -> all_bytes p (String.rev_app s t) = true); [|eauto].
  induction s as [|a s IH]; intros t; [done|]. simpl. intros [Ha Hs]%andb_prop Ht. apply IH; [done|]. simpl. by rewrite Ha.
Qed.

Lemma trim_graphic s : all_bytes graphic s = true -> trim s = s.
Proof.
  intros Hs. unfold trim. assert (trim_start s = s) as ->.
  { destruct s as [|a s]; [done|]. simpl in Hs. apply andb_prop in Hs as [Ha _]. by apply trim_start_graphic. }
  unfold trim_end. pose proof (all_bytes_rev _ _ Hs) as Hr.
  assert (Hst : forall n, strip_all strip_ws_back n (String.rev s) = String.rev s).
  { destruct n; [done|]. simpl. destruct (String.rev s) as [|a r]; [done|]. simpl in Hr. apply andb_prop in Hr as [[H1 H2]%graphic_plain _].
    simpl. rewrite H1. destruct r as [|b [|c r]]; [done|by destruct (H2 b b) as (_ & _ & -> & _)|].
    destruct (H2 c b) as (_ & _ & _ & ->). by destruct (H2 b b) as (_ & _ & -> & _). }
  by rewrite Hst, rev_rev.
Qed.

Lemma dec_graphic z : 0 <= z -> all_bytes graphic (dec z) = true.
Proof.
  intros Hz. pose proof (dec_digits z Hz) as Hd. induction (dec z) as [|a s IH]; [done|]. simpl in *. apply andb_prop in Hd as [Ha Hd].
  rewrite IH by done. unfold graphic, is_ascii_digit, byte_between in *. bool_facts. lia.
Qed.

Lemma dec_lacks n z : 0 <= z -> n < 48 -> lacks n (dec z) = true.
Proof.
  intros Hz Hn. pose proof (dec_digits z Hz) as Hd. unfold lacks. induction (dec z) as [|a s IH]; [done|]. simpl in *. apply andb_prop in Hd as [Ha Hd].
  rewrite IH by done. unfold byte_is, is_ascii_digit, byte_between in *. bool_facts. lia.
Qed.

Lemma utf8_ascii s : all_bytes (byte_between 0 127) s = true -> utf8_valid s = true.
Proof.
  unfold utf8_valid. intros Hs. assert (H : forall n l, forallb (byte_between 0 127) l = true -> valid_go n l = true).
  { induction n as [|n IH]; intros [|a l]; try done. simpl. intros [Ha Hl]%andb_prop. rewrite Ha. simpl. by apply IH. }
  apply H. by rewrite <- all_bytes_forallb.
Qed.

Lemma split_once_byte c s t : lacks (byte_of c) s = true -> split_once (String c "") (s +:+ String c t) = Some (s, t).
Proof.
  intros Hs. induction s as [|a s IH]; simpl.
  - rewrite bool_decide_eq_true_2 by done. done.
  - apply lacks_cons in Hs as [Ha Hs]. rewrite bool_decide_eq_false_2 by congruence. by rewrite IH.
Qed.

Lemma str_starts_with_app p t : starts_with p (p +:+ t) = true.
Proof. unfold starts_with. induction p as [|a p IH]; [by destruct t|]. simpl. by destruct (ascii_dec a a). Qed.

Lemma list_byte_length s : Z.of_nat (length (String.list_byte_of_string s)) = str_len s.
Proof. unfold str_len. f_equal. induction s as [|a s IH]; [done|]. simpl. f_equal. exact IH. Qed.

Section Npy.
Context `{NanBits}.

(** A file of version 1.0 of the NPY format, as NumPy writes it: [padding] spaces and a line feed end the
    header. *)
Definition npy_prefix : string := "{'descr': '<f4', 'fortran_order': False, 'shape': (".
Fixpoint spaces (n : nat) : string := match n with O => String lf EmptyString | S n => String (ascii_of_nat 32) (spaces n) end.
Definition npy_header (rows columns : Z) (padding : nat) : string :=
  npy_prefix +:+ (dec rows +:+ (", " +:+ (dec columns +:+ ("), }" +:+ spaces padding)))).

Definition npy_file (d : DepthArray) (padding : nat) : list byte :=
  let header := npy_header (da_rows d) (da_columns d) padding in
  npy_magic ++ [Byte.x01; Byte.x00] ++ le_split 2 (str_len header) ++ String.list_byte_of_string header ++ floats_bytes (da_values d).

Lemma f32_chunks_floats fs : all_valid fs -> f32_chunks (floats_bytes fs) = fs.
Proof.
  induction 1 as [|f fs Hf _ IH]; [done|]. change (floats_bytes (f :: fs)) with (f32_to_le_bytes f ++ floats_bytes fs).
  pose proof (f32_to_le_bytes_length f) as Hl. pose proof (f32_le_bytes_round_trip f Hf) as Hr.
  destruct (f32_to_le_bytes f) as [|a [|b [|c [|d [|]]]]]; try done.
  cbn [app f32_chunks]. rewrite IH. exact (f_equal (fun x => x :: fs) Hr).
Qed.

Lemma header_parts rows columns padding : 0 <= rows -> 0 <= columns ->
  all_bytes (byte_between 0 127) (npy_header rows columns padding) = true /\
  (exists rest, header_field (npy_header rows columns padding) "descr" = Ok ("'<f4'" +:+ rest)) /\
  (exists rest, header_field (npy_header rows columns padding) "fortran_order" = Ok ("False" +:+ rest)) /\
  header_field (npy_header rows columns padding) "shape" =
    Ok ("(" +:+ (dec rows +:+ (", " +:+ (dec columns +:+ ("), }" +:+ spaces padding))))).
Proof.
  intros Hr Hc. unfold npy_header. set (tail := dec rows +:+ _).
  assert (Hf : forall name before after, split_once ("'" +:+ name +:+ "':") npy_prefix = Some (before, after) ->
    header_field (npy_prefix +:+ tail) name = Ok (trim_start (after +:+ tail))).
  { intros name before after E. unfold header_field. by rewrite (split_once_app _ _ tail _ _ E). }
  split_and!.
  - assert (Hd : forall z, 0 <= z -> all_bytes (byte_between 0 127) (dec z) = true).
    { intros z Hz. pose proof (dec_digits z Hz) as Hd. induction (dec z) as [|a s IH]; [done|]. simpl in *. apply andb_prop in Hd as [Ha Hd].
      rewrite IH by done. unfold is_ascii_digit, byte_between in *. bool_facts. lia. }
    unfold tail. rewrite !all_bytes_app, !Hd by done. assert (Hs : all_bytes (byte_between 0 127) (spaces padding) = true).
    { clear. induction padding as [|n IH]; [done|exact IH]. }
    by rewrite Hs.
  - eexists. rewrite (Hf "descr" _ _ eq_refl). reflexivity.
  - eexists. rewrite (Hf "fortran_order" _ _ eq_refl). reflexivity.
  - rewrite (Hf "shape" _ _ eq_refl). f_equal. exact (trim_start_graphic (ascii_of_nat 40) tail eq_refl).
Qed.

Lemma parse_shape_header rows columns padding : 0 < rows <= u64_max -> 0 < columns <= u64_max ->
  parse_shape (npy_header rows columns padding) = Ok (rows, columns).
Proof.
  intros Hr Hc. unfold parse_shape. destruct (header_parts rows columns padding) as (_ & _ & _ & ->); [lia..|]. cbn [result_bind].
  assert (E1 : forall t, split_once "(" ("(" +:+ t) = Some ("", t)) by done.
  assert (E2 : forall s t, lacks 41 s = true -> split_once ")" (s +:+ (")" +:+ t)) = Some (s, t)) by (intros s t; apply (split_once_byte (ascii_of_nat 41))).
  assert (E3 : forall s t, lacks 44 s = true -> split_byte (ascii_of_nat 44) (s +:+ ("," +:+ t)) = s :: split_byte (ascii_of_nat 44) t)
    by (intros s t; apply (split_byte_app (ascii_of_nat 44))).
  assert (E : dec rows +:+ (", " +:+ (dec columns +:+ ("), }" +:+ spaces padding)))
    = (dec rows +:+ ("," +:+ (" " +:+ dec columns))) +:+ (")" +:+ (", }" +:+ spaces padding))) by (by rewrite !string_app_assoc).
  rewrite E1, E, E2 by (rewrite !lacks_app, !dec_lacks by lia; done).
  rewrite E3, split_byte_whole by (change (byte_of (ascii_of_nat 44)) with 44; rewrite ?lacks_app, ?dec_lacks by lia; done). cbn [map].
  rewrite (trim_graphic (dec rows)) by (apply dec_graphic; lia).
  assert (trim (" " +:+ dec columns) = dec columns) as ->.
  { transitivity (trim (dec columns)); [done|]. apply trim_graphic, dec_graphic. lia. }
  assert (Hne : forall z, negb (is_empty (dec z)) = true) by (intros z; pose proof (dec_not_empty z); by destruct (dec z)).
  cbn [List.filter]. rewrite !Hne. cbn [parse_dimensions]. unfold parse_u64. rewrite !parse_unsigned_dec by lia. simpl.
  by rewrite !(proj2 (Z.eqb_neq _ _)) by lia.
Qed.

(** C37. An array that is written is read. For every two-dimensional array of valid single-precision numbers,
    the file NumPy writes for it, with any padding that keeps the header within its length field, is
    read back as the same array. *)
Theorem npy_round_trip (d : DepthArray) (padding : nat) :
  depth_ok d -> str_len (npy_header (da_rows d) (da_columns d) padding) < 65536 ->
  Z.of_nat (length (npy_file d padding)) <= u64_max -> parse_depth_npy (npy_file d padding) = Ok d.
Proof.
  destruct d as [rows columns values]. intros [Hr Hc Hlen Hv] Hheader. unfold npy_file. cbn [da_rows da_columns da_values] in *.
  set (header := npy_header rows columns padding) in *. set (hb := String.list_byte_of_string header). set (fb := floats_bytes values).
  assert (Hh : Z.of_nat (length hb) = str_len header) by (unfold hb; by rewrite list_byte_length).
  assert (Hf : Z.of_nat (length fb) = rows * columns * 4).
  { unfold fb. rewrite floats_bytes_words, words_bytes_length, length_map. lia. }
  assert (Hall : Z.of_nat (length (npy_magic ++ [Byte.x01; Byte.x00] ++ le_split 2 (str_len header) ++ hb ++ fb)) = 10 + str_len header + rows * columns * 4).
  { rewrite !length_app, length_le_split. change (length npy_magic) with 6%nat. change (length [Byte.x01; Byte.x00]) with 2%nat. lia. }
  rewrite Hall. intros Hsize.
  assert (Hp : npy_preamble (npy_magic ++ [Byte.x01; Byte.x00] ++ le_split 2 (str_len header) ++ hb ++ fb) = Some (str_len header, 10)).
  { transitivity (Some (le_combine (le_split 2 (str_len header)), 10)); [done|]. rewrite le_combine_split, Z.mod_small; [done|].
    simpl. unfold str_len in *. lia. }
  unfold parse_depth_npy. rewrite Hp. assert (0 <= str_len header) by (unfold str_len; lia).
  rewrite Hall. rewrite (proj2 (Z.ltb_ge _ 10)) by lia.
  change (take 6 _) with npy_magic. rewrite bool_decide_eq_true_2 by done. cbn [negb orb].
  unfold checked_add, checked_mul.
  rewrite (proj2 (Z.leb_le (10 + _) u64_max)) by lia. cbn [filter_opt]. rewrite (proj2 (Z.leb_le (10 + _) _)) by lia.
  assert (E1 : take (Z.to_nat (str_len header)) (drop (Z.to_nat 10) (npy_magic ++ [Byte.x01; Byte.x00] ++ le_split 2 (str_len header) ++ hb ++ fb)) = hb).
  { change (drop _ _) with (hb ++ fb). rewrite <- Hh, Nat2Z.id. apply take_app_length. }
  assert (E2 : drop (Z.to_nat (10 + str_len header)) (npy_magic ++ [Byte.x01; Byte.x00] ++ le_split 2 (str_len header) ++ hb ++ fb) = fb).
  { rewrite Z2Nat.inj_add, <- drop_drop by lia. change (drop (Z.to_nat 10) _) with (hb ++ fb). rewrite <- Hh, Nat2Z.id. apply drop_app_length. }
  rewrite E1, E2. unfold hb at 1 2 3 4. rewrite String.string_of_list_byte_of_string.
  destruct (header_parts rows columns padding) as (Hascii & [d Ed] & [o Eo] & _); [lia..|]. fold header in Hascii, Ed, Eo.
  rewrite utf8_ascii by done. cbn [negb]. rewrite Ed. cbn [result_bind].
  assert (Es : starts_with (String (ascii_of_nat 39) ("<" +:+ ("f4" +:+ String (ascii_of_nat 39) ""))) ("'<f4'" +:+ d) = true)
    by exact (str_starts_with_app "'<f4'" d).
  cbn [existsb]. rewrite Es. cbn [orb negb]. rewrite Eo. cbn [result_bind]. rewrite str_starts_with_app. cbn [negb]. 
  assert (Eshape : parse_shape header = Ok (rows, columns)) by (apply parse_shape_header; nia). rewrite Eshape. cbn [result_bind].
  rewrite (proj2 (Z.leb_le (rows * columns) _)), (proj2 (Z.leb_le (rows * columns * 4) _)), (proj2 (Z.leb_le (10 + str_len header + rows * columns * 4) _)) by nia.
  rewrite bool_decide_eq_true_2 by done. cbn [negb]. unfold fb. by rewrite f32_chunks_floats.
Qed.
End Npy.

(** ** Nothing is out of range *)

(** A computation answers, and its results are of [P]. *)
Definition answers {A} (P : A -> Prop) (m : Run A) : Prop := exists r, m = Some r /\ forall a, r = Ok a -> P a.

Lemma answers_ok {A} (P : A -> Prop) a : P a -> answers P (Some (Ok a)).
Proof. intros Ha. exists (Ok a). split; [done|]. by intros ? [= <-]. Qed.

Lemma answers_err {A} (P : A -> Prop) e : answers P (Some (Err e)).
Proof. by exists (Err e). Qed.

Lemma answers_result {A} (P : A -> Prop) r : (forall a, r = Ok a -> P a) -> answers P (Some r).
Proof. by exists r. Qed.

Lemma answers_bind {A B} (P : A -> Prop) (Q : B -> Prop) m k : answers P m -> (forall a, P a -> answers Q (k a)) -> answers Q (run_bind m k).
Proof. intros (r & -> & Hr) Hk. destruct r as [a|e]; simpl; [by apply Hk, Hr|apply answers_err]. Qed.

Lemma answers_panic {A B} (P : A -> Prop) (Q : B -> Prop) (m : option A) k :
  (exists a, m = Some a /\ P a) -> (forall a, P a -> answers Q (k a)) -> answers Q (a ← m; k a).
Proof. intros (a & -> & Ha) Hk. by apply Hk. Qed.

#[export] Hint Resolve answers_err : core.

Lemma mapM_total {A B} (f : A -> option B) (P : B -> Prop) l : (forall x, x ∈ l -> exists y, f x = Some y /\ P y) ->
  exists k, mapM f l = Some k /\ length k = length l /\ Forall P k.
Proof.
  induction l as [|x l IH]; intros Hl; [by exists []|].
  destruct (Hl x) as (y & Ey & Hy); [left|]. destruct IH as (k & Ek & Hlen & Hk); [intros; apply Hl; by right|].
  exists (y :: k). simpl. rewrite Ey. simpl. rewrite Ek. simpl. split_and!; [done|by rewrite Hlen|by constructor].
Qed.

Definition sample_valid (s : option f32) : Prop := match s with Some x => f32_valid x = true | None => True end.

(** The samples of a frame, or of a camera. *)
Definition frame_ok (l : list (option f32)) : Prop :=
  Z.of_nat (length l) = SURFACE_ROWS * COLS_PER_CAMERA /\ Forall sample_valid l.

Record camera_ok (c : SampledCamera) : Prop := mkCameraOk {
  camera_baselines : length (column_baselines c) = Z.to_nat COLS_PER_CAMERA /\ all_valid (column_baselines c);
  camera_samples : frame_ok (samples c);
}.

Lemma omap_valid l : Forall sample_valid l -> all_valid (omap id l).
Proof. induction 1 as [|[x|] l Hx _ IH]; cbn; [constructor|by constructor|done]. Qed.

Lemma at_index_ok {A} (P : A -> Prop) l i : Forall P l -> 0 <= i < Z.of_nat (length l) -> exists x, at_index l i = Some x /\ P x.
Proof.
  intros Hl Hi. destruct (at_index_some l i Hi) as (x & Hx & Hin). rewrite Forall_forall in Hl. eauto.
Qed.

Lemma sample_frame_ok d : depth_ok d -> exists l, sample_frame d = Some l /\ frame_ok l.
Proof.
  intros [Hr Hc Hlen Hv]. unfold sample_frame. destruct (mapM_total (sample_at d) sample_valid (grid SURFACE_ROWS COLS_PER_CAMERA)) as (k & -> & Hk & Hvk).
  - intros [r c] [Hin1 Hin2]%elem_of_grid. unfold sample_at. cbn [fst snd].
    pose proof (evenly_range SURFACE_ROWS (da_rows d) r ltac:(done) Hr Hin1).
    pose proof (evenly_range COLS_PER_CAMERA (da_columns d) c ltac:(done) Hc Hin2).
    destruct (at_index_ok _ _ (evenly SURFACE_ROWS (da_rows d) r * da_columns d + evenly COLS_PER_CAMERA (da_columns d) c) Hv) as (x & -> & Hx); [nia|].
    cbn [mbind option_bind]. eexists. split; [done|]. by destruct (valid_depth x).
  - exists k. split; [done|]. split; [|done]. rewrite Hk, grid_length. unfold SURFACE_ROWS, COLS_PER_CAMERA. lia.
Qed.

Lemma slice_ok {A} (P : A -> Prop) l start n : Forall P l -> 0 <= start -> 0 <= n -> start + n <= Z.of_nat (length l) ->
  exists k, slice l start n = Some k /\ length k = Z.to_nat n /\ Forall P k.
Proof.
  intros Hl Hs Hn Hlen. unfold slice. rewrite !(proj2 (Z.leb_le _ _)) by lia. eexists. split; [done|].
  rewrite length_take, length_drop. split; [lia|]. by apply Forall_take, Forall_drop.
Qed.

Lemma mjoin_uniform {A} (P : A -> Prop) (ls : list (list A)) k : Forall (fun l => length l = k /\ Forall P l) ls ->
  length (mjoin ls) = (length ls * k)%nat /\ Forall P (mjoin ls).
Proof.
  induction 1 as [|l ls [Hl HP] _ [IH1 IH2]]; [done|]. simpl. rewrite length_app, Forall_app. split; [lia|done].
Qed.

Lemma combine_frames_ok frames : frames <> [] -> Forall frame_ok frames -> answers frame_ok (combine_frames frames).
Proof.
  intros Hne Hf. unfold combine_frames, checked_mul. destruct (Z.leb_spec (Z.of_nat (length frames) * SURFACE_ROWS) u64_max); [|done].
  assert (0 < Z.of_nat (length frames)) by (destruct frames; [done|simpl; lia]).
  destruct (mapM_total (combined_samples frames (Z.of_nat (length frames) * SURFACE_ROWS)) (fun l => length l = Z.to_nat COLS_PER_CAMERA /\ Forall sample_valid l) (seqZ 0 SURFACE_ROWS)) as (k & -> & Hk & HP).
  - intros t Ht%elem_of_seqZ. unfold combined_samples. cbv zeta.
    pose proof (evenly_range SURFACE_ROWS (Z.of_nat (length frames) * SURFACE_ROWS) t ltac:(done) ltac:(unfold SURFACE_ROWS; lia) ltac:(lia)) as He.
    set (row := evenly _ _ _) in *.
    unfold SURFACE_ROWS in *. pose proof (Z.mod_pos_bound row 1024 ltac:(lia)).
    destruct (at_index_ok _ _ (row / 1024) Hf) as (frame & -> & Hlen & Hv).
    { split; [apply Z.div_pos; lia|apply Z.div_lt_upper_bound; lia]. }
    cbn [mbind option_bind]. apply slice_ok; [done|unfold SURFACE_ROWS, COLS_PER_CAMERA in *; lia..].
  - cbn [mbind option_bind]. apply answers_ok. destruct (mjoin_uniform _ _ _ HP) as [E Hv]. split; [|done].
    rewrite E, Hk, length_seqZ. unfold SURFACE_ROWS, COLS_PER_CAMERA. lia.
Qed.

Section Reconstruction.
Context `{Archives} `{NanBits} `{Trig}.

Lemma column_baseline_ok l baseline column : frame_ok l -> f32_valid baseline = true -> 0 <= column < COLS_PER_CAMERA ->
  exists b, column_baseline l baseline column = Some b /\ f32_valid b = true.
Proof.
  intros [Hlen Hv] Hb Hc. unfold column_baseline.
  destruct (mapM_total (fun row => at_index l (row * COLS_PER_CAMERA + column)) sample_valid (seqZ 0 SURFACE_ROWS)) as (k & -> & _ & Hk).
  - intros r Hr%elem_of_seqZ. apply (at_index_ok _ l _ Hv). unfold SURFACE_ROWS, COLS_PER_CAMERA in *. lia.
  - cbn [mbind option_bind]. eexists. split; [done|]. apply omap_valid in Hk.
    destruct (median (omap id k)) as [m|] eqn:E; [|done]. simpl. destruct (omap id k) as [|x k'] eqn:El; [done|].
    destruct (median_some (x :: k')) as (m' & E' & Hm'); [done..|]. congruence.
Qed.

Lemma load_depth_ok path d : load_depth path = Ok d -> depth_ok d.
Proof.
  unfold load_depth. destruct (file_open path) as [[]|]; [|done]. cbn [result_bind]. destruct (zip_archive path) as [[]|]; [|done].
  cbn [result_bind]. destruct (zip_member path "depth.npy") as [member|]; [|done]. cbn [result_bind].
  destruct (_ <? _); [done|]. destruct (member_content member) as [bytes|]; [|done]. cbn [result_bind].
  destruct (parse_depth_npy bytes) as [d'|] eqn:E; [|done]. intros [= <-]. by eapply parse_depth_sound.
Qed.

Lemma sample_frames_ok camera_id frames dimensions :
  answers (fun '(sampled, d) => length sampled = length frames /\ Forall frame_ok sampled /\ (is_Some dimensions \/ frames <> [] -> is_Some d))
    (sample_frames camera_id frames dimensions).
Proof.
  revert dimensions. induction frames as [|[no path] frames IH]; intros dimensions; cbn [sample_frames].
  - apply answers_ok. split_and!; [done|constructor|]. by intros [|].
  - apply (answers_bind depth_ok); [apply answers_result, load_depth_ok|]. intros d Hd. destruct (is_some_and _ _); [done|].
    apply (answers_panic frame_ok); [by apply sample_frame_ok|]. intros l Hl.
    eapply answers_bind; [apply IH|]. intros [sampled d'] (Hlen & Hf & Hd').
    apply answers_ok. split_and!; [by simpl; rewrite Hlen|by constructor|]. intros _. apply Hd'. left. done.
Qed.

Lemma insert_by_length {A} (key : A -> Z) x l : length (insert_by key x l) = S (length l).
Proof. induction l as [|y l IH]; [done|]. simpl. destruct (_ <? _); simpl; by rewrite ?IH. Qed.

Lemma sort_by_key_length {A} (key : A -> Z) l : length (sort_by_key key l) = length l.
Proof.
  unfold sort_by_key. assert (Hs : forall acc, length (fold_left (fun sorted x => insert_by key x sorted) l acc) = (length l + length acc)%nat).
  { induction l as [|x l IH]; intros acc; [done|]. simpl. rewrite IH, insert_by_length. simpl. lia. }
  rewrite Hs. simpl. lia.
Qed.

Lemma sample_camera_ok camera_id frames : answers (fun c => camera_ok (fst c)) (sample_camera camera_id frames).
Proof.
  unfold sample_camera. destruct (sort_by_key fst frames) as [|f fs]; [done|].
  eapply answers_bind; [apply sample_frames_ok|]. intros [frame_samples d] (Hlen & Hf & Hd).
  apply (answers_bind frame_ok); [apply combine_frames_ok; [by destruct frame_samples|done]|]. intros l Hl.
  destruct (median (omap id l)) as [baseline|] eqn:Em; [|done].
  assert (Hb : f32_valid baseline = true).
  { destruct (omap id l) as [|x k] eqn:El; [done|]. destruct (median_some (x :: k)) as (m & E & Hm); [done| |congruence].
    rewrite <- El. by apply omap_valid, Hl. }
  destruct (mapM_total (column_baseline l baseline) (fun b => f32_valid b = true) (seqZ 0 COLS_PER_CAMERA)) as (bs & -> & Hbs & Hvs).
  { intros c Hc%elem_of_seqZ. apply column_baseline_ok; [done..|lia]. }
  cbn [mbind option_bind]. destruct Hd as [dims ->]; [by right|]. apply answers_ok. constructor; simpl; [|done].
  by rewrite Hbs, length_seqZ.
Qed.

Lemma sample_cameras_ok grouped : answers (fun cs => length cs = length grouped /\ Forall (fun c => camera_ok (fst c)) cs) (sample_cameras grouped).
Proof.
  induction grouped as [|[camera_id frames] rest IH]; cbn [sample_cameras]; [by apply answers_ok|].
  eapply answers_bind; [apply sample_camera_ok|]. intros c Hc. eapply answers_bind; [apply IH|]. intros cs [Hlen Hcs].
  apply answers_ok. split; [by simpl; rewrite Hlen|by constructor].
Qed.

Lemma camera_residuals_ok c : camera_ok c -> exists l, camera_residuals c = Some l /\ all_valid l.
Proof.
  intros [[Hb Hvb] [Hlen Hv]]. unfold camera_residuals.
  destruct (mapM_total (residual_at c) sample_valid (zip (seqZ 0 (Z.of_nat (length (samples c)))) (samples c))) as (k & -> & _ & Hk).
  - intros [i [x|]] Hin; unfold residual_at; cbn [fst snd]; [|by eexists]. apply elem_of_zip_r in Hin as Hx. rewrite Forall_forall in Hv. specialize (Hv _ Hx). simpl in Hv.
    destruct (at_index_ok _ (column_baselines c) (i `mod` COLS_PER_CAMERA) Hvb) as (b & -> & Hvb').
    { rewrite Hb. pose proof (Z.mod_pos_bound i COLS_PER_CAMERA ltac:(done)). lia. }
    cbn [mbind option_bind]. eexists. split; [done|]. simpl. auto with f32.
  - cbn [mbind option_bind]. eexists. split; [done|]. by apply omap_valid.
Qed.

Lemma display_scaling_ok cameras : Forall camera_ok cameras -> exists s, display_scaling cameras = Some s /\ f32_valid (fst s) = true.
Proof.
  intros Hc. unfold display_scaling. destruct (mapM_total camera_residuals all_valid cameras) as (k & -> & _ & Hk).
  - intros c Hin. apply camera_residuals_ok. rewrite Forall_forall in Hc. by apply Hc.
  - cbn [mbind option_bind]. eexists. split; [done|]. apply robust_residual_valid.
    induction Hk; [constructor|]. by apply Forall_app.
Qed.
(** ** The mesh *)

Record vertex_ok (v : Vertex) : Prop := mkVertexOk {
  vertex_position : length (v_position v) = 3%nat;
  vertex_uv : length (v_uv v) = 2%nat;
  vertex_rgb : length (v_color v) = 3%nat;
  vertex_floats : all_valid (v_position v ++ v_uv v ++ v_color v);
}.

Section Surface.
Context (cameras : list SampledCamera) (robust nominal_radius_mm length_mm : f32) (Hcameras : Forall camera_ok cameras)
  (Hrobust : f32_valid robust = true) (Hradius : f32_valid nominal_radius_mm = true) (Hlength : f32_valid length_mm = true).

Local Abbreviation columns := (Z.of_nat (length cameras) * COLS_PER_CAMERA).
Local Abbreviation vertex place := (vertex_at cameras robust nominal_radius_mm length_mm columns place).

Lemma vertex_at_ok row column : 0 <= row < SURFACE_ROWS -> 0 <= column < columns -> exists v, vertex (row, column) = Some v /\ vertex_ok v.
Proof.
  intros Hrow Hcolumn. unfold vertex_at. unfold COLS_PER_CAMERA in Hcolumn.
  pose proof (Z.mod_pos_bound column COLS_PER_CAMERA ltac:(done)) as Hmod.
  destruct (at_index_ok _ _ (column / COLS_PER_CAMERA) Hcameras) as (camera & -> & [Hb Hvb] & Hlen & Hv).
  { unfold COLS_PER_CAMERA. split; [apply Z.div_pos; lia|apply Z.div_lt_upper_bound; lia]. }
  cbn [mbind option_bind].
  destruct (at_index_ok _ (samples camera) (row * COLS_PER_CAMERA + column `mod` COLS_PER_CAMERA) Hv) as (sample & -> & Hs).
  { unfold SURFACE_ROWS, COLS_PER_CAMERA in *. lia. }
  cbn [mbind option_bind].
  assert (Hres : exists residual, match sample with
    | Some value => b ← at_index (column_baselines camera) (column `mod` COLS_PER_CAMERA); Some (f32_sub value b)
    | None => Some f32_zero end = Some residual /\ f32_valid residual = true).
  { destruct sample as [x|]; [|by eexists]. destruct (at_index_ok _ (column_baselines camera) (column `mod` COLS_PER_CAMERA) Hvb) as (b & -> & Hvb').
    { rewrite Hb. lia. } eexists. split; [done|]. auto with f32. }
  destruct Hres as (residual & -> & Hres). cbn [mbind option_bind]. eexists. split; [done|].
  pose proof (vertex_angle_valid column columns). constructor; cbn [v_position v_uv v_color]; [done..|apply vertex_color_length|].
  unfold all_valid. rewrite !Forall_app. split_and!; [..|by apply vertex_color_valid]; repeat constructor;
    auto 12 using f32_cos_valid, f32_sin_valid with f32.
Qed.

(** The mesh of the vertices. *)
Definition surface_mesh (vertices : list Vertex) : Mesh :=
  mkMesh SURFACE_ROWS COLS_PER_CAMERA (Z.of_nat (length cameras)) 0 (vertices ≫= v_position) (vertices ≫= v_uv) (vertices ≫= v_color)
    (grid_indices SURFACE_ROWS columns) (Some (map v_valid vertices)) (Some (replicate (Z.to_nat (SURFACE_ROWS * columns)) Byte.x00)).

(** Vertices that the grid gives, one for each position, row by row. *)
Definition surface_vertices (vertices : list Vertex) : Prop := Forall2 (fun place v => vertex place = Some v) (grid SURFACE_ROWS columns) vertices.

Lemma vertices_exist : exists vertices, mapM (vertex_at cameras robust nominal_radius_mm length_mm columns) (grid SURFACE_ROWS columns) = Some vertices /\
  surface_vertices vertices /\ Forall vertex_ok vertices /\ Z.of_nat (length vertices) = SURFACE_ROWS * columns.
Proof.
  destruct (mapM_total (vertex_at cameras robust nominal_radius_mm length_mm columns) vertex_ok (grid SURFACE_ROWS columns)) as (vs & E & Hlen & Hvs).
  { intros [r c] [Hr Hc]%elem_of_grid. by apply vertex_at_ok. }
  exists vs. split_and!; [done|by apply mapM_Some|done|]. rewrite Hlen, grid_length. unfold SURFACE_ROWS, COLS_PER_CAMERA. lia.
Qed.

Lemma bind_valid (f : Vertex -> list f32) vertices : Forall (fun v => all_valid (f v)) vertices -> all_valid (vertices ≫= f).
Proof. induction 1; [constructor|]. rewrite bind_cons. by apply Forall_app. Qed.

(** What is written is the mesh of the vertices, and is read back as such. *)
Lemma encode_surface_reads_back : answers (fun binary => exists vertices, surface_vertices vertices /\ read_mesh binary = Some (surface_mesh vertices) /\
    is_Some (slice binary 16 4) /\ Z.of_nat (length (vertices ≫= v_position)) = 3 * (SURFACE_ROWS * columns)) (encode_surface cameras robust nominal_radius_mm length_mm).
Proof.
  unfold encode_surface, checked_mul. destruct (Z.leb_spec columns u64_max); [|done]. destruct (Z.leb_spec (SURFACE_ROWS * columns) u64_max); [|done].
  destruct vertices_exist as (vs & -> & Hvs & Hok & Hlen). cbn [mbind option_bind].
  destruct (forallb _ _) eqn:Ei; cbn [negb]; [|done]. destruct (Z.ltb_spec u32_max (SURFACE_ROWS * columns)); [done|].
  destruct (Z.ltb_spec u32_max (Z.of_nat (length (grid_indices SURFACE_ROWS columns)))); [done|]. apply answers_ok. exists vs.
  assert (Hm : mesh_ok (surface_mesh vs) (map v_valid vs) (replicate (Z.to_nat (SURFACE_ROWS * columns)) Byte.x00)).
  { constructor; simpl; rewrite ?length_map, ?length_replicate; [done|done|lia|apply bind_length..| | |].
    - eapply Forall_impl; [exact Hok|]. by intros v [].
    - eapply Forall_impl; [exact Hok|]. by intros v [].
    - eapply Forall_impl; [exact Hok|]. by intros v [].
    - unfold all_valid in *. rewrite !Forall_app.
      split_and!; apply bind_valid; (eapply Forall_impl; [exact Hok|]); intros v [_ _ _ Hf]; unfold all_valid in Hf; rewrite !Forall_app in Hf; apply Hf.
    - apply Forall_forall. intros i Hi%grid_indices_range. unfold word_ok, u32_max, SURFACE_ROWS, COLS_PER_CAMERA in *. lia.
    - unfold word_ok, u32_max, SURFACE_ROWS, COLS_PER_CAMERA in *. repeat constructor; lia. }
  assert (Eb : Z.of_nat (length (map v_valid vs)) = SURFACE_ROWS * columns) by (rewrite length_map; exact Hlen).
  split_and!; [done| | |].
  - rewrite <- (read_mesh_bytes _ _ _ Hm). unfold mesh_bytes. rewrite Eb. done.
  - unfold slice. match goal with |- context [if ?b then _ else _] => replace b with true; [by eexists|] end.
    symmetry. apply andb_true_intro. split; [done|]. apply Z.leb_le. rewrite !length_app, words_bytes_length. simpl. lia.
  - pose proof (ok_positions _ _ _ Hm) as Hp. cbn [surface_mesh mesh_positions] in Hp. rewrite Hp, length_map. lia.
Qed.

(** There are at most this many cameras before the counts leave 32 bits. *)
Lemma encode_surface_succeeds : Z.of_nat (length cameras) <= 10933 -> exists binary, encode_surface cameras robust nominal_radius_mm length_mm = Some (Ok binary).
Proof.
  intros Hn. unfold encode_surface, checked_mul. pose proof (grid_indices_length SURFACE_ROWS columns) as Hil.
  unfold SURFACE_ROWS, COLS_PER_CAMERA, u64_max, u32_max in *.
  rewrite !(proj2 (Z.leb_le _ _)) by lia. destruct vertices_exist as (vs & E & _). unfold SURFACE_ROWS, COLS_PER_CAMERA in E. rewrite E. cbn [mbind option_bind].
  rewrite (proj2 (forallb_forall _ _)).
  - cbn [negb]. rewrite !(proj2 (Z.ltb_ge _ _)) by lia. eauto.
  - intros i Hi. apply list_elem_of_In, grid_indices_range in Hi. lia.
Qed.
End Surface.

(** ** Reconstructions that succeed *)

(** The frames of a camera load, agree on their dimensions and have measured everywhere. *)
Definition frames_measured (dimensions : Z * Z) (frames : list (Z * string)) : Prop :=
  Forall (fun f => exists values, load_depth (snd f) = Ok (mkDepthArray (fst dimensions) (snd dimensions) values) /\
                                  Forall (fun x => valid_depth x = true) values) frames.

Definition measured (l : list (option f32)) : Prop := Forall (fun s => is_Some s) l.

Lemma sample_frame_measured d l : depth_ok d -> Forall (fun x => valid_depth x = true) (da_values d) -> sample_frame d = Some l -> measured l.
Proof.
  intros Hd Hv Hl. unfold sample_frame in Hl. apply mapM_Some in Hl. apply Forall_forall. intros s Hs.
  apply list_elem_of_lookup_1 in Hs as [i Hi]. destruct (Forall2_lookup_r _ _ _ _ _ Hl Hi) as (place & _ & E).
  unfold sample_at in E. destruct (at_index _ _) as [x|] eqn:Ex; [|done]. cbn [mbind option_bind] in E. injection E as <-.
  unfold at_index in Ex. destruct (_ <? 0); [done|]. apply list_elem_of_lookup_2 in Ex. rewrite Forall_forall in Hv. by rewrite (Hv x Ex).
Qed.

Lemma sample_frames_succeed camera_id dimensions frames known : frames_measured dimensions frames -> known = None \/ known = Some dimensions ->
  exists sampled d, sample_frames camera_id frames known = Some (Ok (sampled, d)) /\ length sampled = length frames /\ Forall measured sampled.
Proof.
  intros Hf. revert known. induction Hf as [|[no path] frames (values & El & Hv) _ IH]; intros known Hk; [by exists [], known|].
  simpl in El. cbn [sample_frames]. rewrite El. cbn [run_bind da_rows da_columns]. rewrite <- surjective_pairing.
  assert (is_some_and known (fun value => negb (bool_decide (value = dimensions))) = false) as ->.
  { destruct Hk as [->| ->]; [done|]. simpl. by rewrite bool_decide_eq_true_2. }
  apply load_depth_ok in El. destruct (sample_frame_ok _ El) as (l & Es & _). rewrite Es. cbn [mbind option_bind].
  destruct (IH (Some dimensions) ltac:(by right)) as (sampled & d & -> & Hlen & Hm). cbn [run_bind].
  eexists _, _. split_and!; [done|by simpl; rewrite Hlen|]. constructor; [|done]. by eapply sample_frame_measured.
Qed.

Lemma combined_measured frames l : Forall measured frames -> combine_frames frames = Some (Ok l) -> measured l.
Proof.
  intros Hf. unfold combine_frames. destruct (checked_mul _ _ _) as [n|]; [|done]. destruct (mapM _ _) as [rows|] eqn:E; [|done].
  cbn [mbind option_bind]. intros [= <-]. apply mapM_Some in E.
  assert (Hrows : Forall measured rows).
  { apply Forall_forall. intros row Hrow. apply list_elem_of_lookup_1 in Hrow as [i Hi]. destruct (Forall2_lookup_r _ _ _ _ _ E Hi) as (t & _ & Et).
    unfold combined_samples in Et. destruct (at_index _ _) as [frame|] eqn:Ef; [|done]. cbn [mbind option_bind] in Et.
    unfold slice in Et. destruct (_ && _); [|done]. injection Et as <-. unfold at_index in Ef. destruct (_ <? 0); [done|].
    apply list_elem_of_lookup_2 in Ef. rewrite Forall_forall in Hf. apply Forall_take, Forall_drop, (Hf _ Ef). }
  unfold measured in *. clear E. induction Hrows as [|row rows Hrow _ IH]; [constructor|]. simpl. by apply Forall_app.
Qed.

Lemma insert_by_perm {A} (key : A -> Z) x l : insert_by key x l ≡ₚ x :: l.
Proof. induction l as [|y l IH]; [done|]. simpl. destruct (_ <? _); [done|]. rewrite IH. apply perm_swap. Qed.

Lemma sort_by_key_is_perm {A} (key : A -> Z) l : sort_by_key key l ≡ₚ l.
Proof.
  unfold sort_by_key. assert (Hs : forall acc, fold_left (fun sorted x => insert_by key x sorted) l acc ≡ₚ l ++ acc).
  { induction l as [|x l IH]; intros acc; [done|]. simpl. rewrite IH, insert_by_perm. by rewrite Permutation_middle. }
  rewrite Hs. by rewrite app_nil_r.
Qed.

Lemma sample_camera_succeeds camera_id dimensions frames : frames <> [] -> Z.of_nat (length frames) * SURFACE_ROWS <= u64_max ->
  frames_measured dimensions frames -> exists c, sample_camera camera_id frames = Some (Ok c).
Proof.
  intros Hne Hn Hf. destruct (sample_camera_ok camera_id frames) as (r & Er & _). rewrite Er. destruct r as [c|e]; [by eauto|]. exfalso. revert Er.
  unfold sample_camera. pose proof (sort_by_key_length fst frames) as Hlen. pose proof (sort_by_key_is_perm fst frames) as Hp.
  destruct (sort_by_key fst frames) as [|f fs]; [by destruct frames|].
  assert (Hf' : frames_measured dimensions (f :: fs)) by (unfold frames_measured; by rewrite Hp).
  destruct (sample_frames_succeed camera_id dimensions (f :: fs) None Hf' ltac:(by left)) as (sampled & d & Es & Hs & Hm). rewrite Es. cbn [run_bind].
  destruct (sample_frames_ok camera_id (f :: fs) None) as (r & Er & Hr). rewrite Es in Er. injection Er as <-. destruct (Hr _ eq_refl) as (_ & Hok & Hd).
  destruct (combine_frames_ok sampled) as (r & Ec & Hc); [by destruct sampled|done|]. rewrite Ec. destruct r as [l|].
  - cbn [run_bind]. destruct (Hc l eq_refl) as [Hl Hv]. pose proof (combined_measured _ _ Hm Ec) as Hml. pose proof (omap_valid _ Hv) as Hov.
    destruct l as [|[x|] l]; [done| |by inversion Hml as [|? ? []]].
    destruct (median_some (omap id (Some x :: l))) as (m & -> & Hvm); [done..|].
    destruct (mapM_total (column_baseline (Some x :: l) m) (fun b => f32_valid b = true) (seqZ 0 COLS_PER_CAMERA)) as (bs & -> & _).
    { intros c Hc'%elem_of_seqZ. apply column_baseline_ok; [done..|lia]. }
    cbn [mbind option_bind]. by destruct Hd as [dims ->]; [right|].
  - revert Ec. unfold combine_frames, checked_mul. rewrite Hs, Hlen, (proj2 (Z.leb_le _ _)) by done. destruct (mapM _ _); done.
Qed.

(** A record all of whose frames have measured is reconstructed. *)
Lemma build_succeeds record_id captures nominal_diameter_mm length_mm :
  Forall (fun g => snd g <> [] /\ Z.of_nat (length (snd g)) * SURFACE_ROWS <= u64_max /\ exists dimensions, frames_measured dimensions (snd g)) (group_captures captures) ->
  (0 < length (group_captures captures))%nat -> Z.of_nat (length (group_captures captures)) <= 10933 ->
  f32_valid nominal_diameter_mm = true -> f32_valid length_mm = true ->
  f32_is_finite nominal_diameter_mm = true -> f32_is_finite length_mm = true ->
  f32_le nominal_diameter_mm f32_zero = false -> f32_le length_mm f32_zero = false ->
  exists surface, build_npz_surface record_id captures nominal_diameter_mm length_mm = Some (Ok surface).
Proof.
  intros Hg Hpos Hn Hvd Hvl Hd Hl Hd0 Hl0. unfold build_npz_surface. rewrite Hd, Hl, Hd0, Hl0. cbn [negb orb].
  assert (Hs : exists sampled, sample_cameras (group_captures captures) = Some (Ok sampled)).
  { clear Hpos Hn. induction Hg as [|[k fs] g (Hne & Hlen & [d Hf]) _ IH]; [by eexists|]. cbn [sample_cameras].
    destruct (sample_camera_succeeds k d fs Hne Hlen Hf) as [c ->]. cbn [run_bind]. destruct IH as [cs ->]. cbn [run_bind]. by eexists. }
  destruct (group_captures captures) as [|g gs] eqn:Eg; [simpl in Hpos; lia|]. rewrite <- Eg in *. destruct Hs as [sampled Es]. rewrite Es. cbn [run_bind].
  destruct (sample_cameras_ok (group_captures captures)) as (r & Er & Hr). rewrite Es in Er. injection Er as <-. destruct (Hr _ eq_refl) as [Hlen Hok].
  assert (Hcams : Forall camera_ok (map fst sampled)) by (by apply Forall_map).
  destruct (display_scaling_ok _ Hcams) as ([robust scale] & -> & Hrobust). cbn [mbind option_bind fst].
  destruct (encode_surface_succeeds (map fst sampled) robust (f32_mul nominal_diameter_mm (f32_ratio 1 2)) length_mm) as [binary Eb];
    [done..|auto with f32|done|by rewrite length_map; lia|].
  destruct (encode_surface_reads_back (map fst sampled) robust (f32_mul nominal_diameter_mm (f32_ratio 1 2)) length_mm) as (r & Er & Hr');
    [done..|auto with f32|done|]. rewrite Eb in Er. injection Er as <-. destruct (Hr' _ eq_refl) as (vs & _ & _ & [bytes Hslice] & _).
  rewrite Eb. cbn [run_bind]. rewrite Hslice. by eexists.
Qed.

(** ** The order of the captures *)

Lemma insert_by_swap {A} (key : A -> Z) x y l : key x <> key y -> insert_by key x (insert_by key y l) = insert_by key y (insert_by key x l).
Proof.
  intros Hne. induction l as [|z l IH]; simpl.
  - destruct (Z.ltb_spec (key x) (key y)), (Z.ltb_spec (key y) (key x)); try lia; done.
  - destruct (Z.ltb_spec (key x) (key z)), (Z.ltb_spec (key y) (key z)); simpl;
      repeat match goal with |- context [?a <? ?b] => destruct (Z.ltb_spec a b); simpl end; try lia; try done. by rewrite IH.
Qed.

(** Items with different keys are sorted to one list, in whatever order they come. *)
Lemma sort_by_key_perm {A} (key : A -> Z) l l' : l ≡ₚ l' -> NoDup (map key l) -> sort_by_key key l = sort_by_key key l'.
Proof.
  unfold sort_by_key. generalize (@nil A) as acc. intros acc Hp. revert acc.
  induction Hp as [|x l l' Hp IH|x y l|l l' l'' Hp1 IH1 Hp2 IH2]; intros acc Hnd; [done| | |].
  - simpl in *. apply NoDup_cons in Hnd as [_ Hnd]. by apply IH.
  - simpl in *. rewrite insert_by_swap; [done|]. apply NoDup_cons in Hnd as [Hnd _]. rewrite elem_of_cons in Hnd. naive_solver.
  - rewrite IH1 by done. apply IH2. by rewrite <- (Permutation_map key Hp1).
Qed.

(** Groups with the same keys and the same items, in any order. *)
Definition same_groups {V} : relation (list (Z * list V)) := Forall2 (fun g g' => fst g = fst g' /\ snd g ≡ₚ snd g').

#[local] Instance same_groups_equiv {V} : Equivalence (@same_groups V).
Proof.
  split.
  - intros l. induction l; constructor; [by split|done].
  - intros l l'. induction 1 as [|? ? ? ? [??]]; constructor; [by split|done].
  - intros l l' l'' Hx. revert l''. induction Hx as [|g g' l l' [E P] _ IH]; intros l'' Hy; inversion Hy as [|? g'' ? k [E' P']]; subst; constructor.
    + split; [congruence|by etrans].
    + by apply IH.
Qed.

Lemma group_push_same {V} key (v : V) g g' : same_groups g g' -> same_groups (group_push key v g) (group_push key v g').
Proof.
  induction 1 as [|[k vs] [k' vs'] g g' [E P] Hg IH]; [by repeat constructor|]. simpl in *. subst k'.
  destruct (key <? k); [by repeat constructor|]. destruct (key =? k); constructor; try done. split; [done|]. simpl. by rewrite P.
Qed.

Lemma group_push_swap {V} k1 (v1 : V) k2 v2 g : same_groups (group_push k1 v1 (group_push k2 v2 g)) (group_push k2 v2 (group_push k1 v1 g)).
Proof.
  induction g as [|[k vs] g IH]; simpl;
    repeat match goal with |- context [?a <? ?b] => destruct (Z.ltb_spec a b); simpl | |- context [?a =? ?b] => destruct (Z.eqb_spec a b); simpl end;
    subst; try lia; try reflexivity; (constructor; [split; [done|simpl]|]); try reflexivity; try done; try apply perm_swap.
  rewrite <- !(assoc_L (++)). apply Permutation_app; [done|apply perm_swap].
Qed.

Lemma group_captures_same captures captures' : captures ≡ₚ captures' -> same_groups (group_captures captures) (group_captures captures').
Proof.
  unfold group_captures. assert (Hf : forall l g g', same_groups g g' ->
    same_groups (fold_left push_capture l g)
      (fold_left push_capture l g')).
  { induction l as [|[[c n] p] l IH]; intros g g' Hg; [done|]. simpl. by apply IH, group_push_same. }
  generalize (@nil (Z * list (Z * string))) as g. intros g Hp. revert g.
  induction Hp as [|[[c n] p] l l' Hp IH|[[c n] p] [[c' n'] p'] l|l l' l'' Hp1 IH1 Hp2 IH2]; intros g; [reflexivity|apply IH| |].
  - simpl. apply Hf, group_push_swap.
  - etrans; [apply IH1|apply IH2].
Qed.

(** The camera and the number of every grouped frame. *)
Definition group_keys (groups : list (Z * list (Z * string))) : list (Z * Z) := groups ≫= fun g => (fun f => (fst g, fst f)) <$> snd g.

Lemma group_push_keys k v g : group_keys (group_push k v g) ≡ₚ (k, fst v) :: group_keys g.
Proof.
  unfold group_keys. induction g as [|[k' vs] g IH]; [done|]. simpl. destruct (k <? k'); [done|].
  destruct (Z.eqb_spec k k') as [->|]; rewrite !bind_cons; simpl.
  - rewrite fmap_app, <- (assoc_L (++)). simpl. by rewrite Permutation_middle.
  - rewrite IH. by rewrite Permutation_middle.
Qed.

Lemma group_captures_keys captures : group_keys (group_captures captures) ≡ₚ map fst captures.
Proof.
  unfold group_captures. assert (Hf : forall l g,
    group_keys (fold_left push_capture l g) ≡ₚ map fst l ++ group_keys g).
  { induction l as [|[[c n] p] l IH]; intros g; [done|]. simpl. rewrite IH, group_push_keys. simpl. by rewrite Permutation_middle. }
  rewrite Hf. by rewrite app_nil_r.
Qed.

Lemma sample_cameras_same groups groups' : same_groups groups groups' -> NoDup (group_keys groups) -> sample_cameras groups = sample_cameras groups'.
Proof.
  induction 1 as [|[k fs] [k' fs'] g g' [E P] _ IH]; [done|]. simpl in E, P. subst k'. unfold group_keys in *. rewrite bind_cons. simpl.
  intros (Hfs & _ & Hg)%NoDup_app. cbn [sample_cameras]. rewrite IH by done. f_equal. unfold sample_camera.
  rewrite (sort_by_key_perm fst fs fs' P); [done|]. apply (NoDup_fmap_1 (pair k)). by rewrite <- list_fmap_compose.
Qed.

(** ** Theorems *)

Lemma build_answers record_id captures nominal_diameter_mm length_mm :
  f32_valid nominal_diameter_mm = true -> f32_valid length_mm = true ->
  answers (fun surface => exists sampled robust vertices,
      sample_cameras (group_captures captures) = Some (Ok sampled) /\ fst <$> display_scaling (map fst sampled) = Some robust /\
      (0 < length sampled)%nat /\ Forall camera_ok (map fst sampled) /\
      surface_vertices (map fst sampled) robust (f32_mul nominal_diameter_mm (f32_ratio 1 2)) length_mm vertices /\
      read_mesh (ns_binary surface) = Some (surface_mesh (map fst sampled) vertices) /\
      Z.of_nat (length (vertices ≫= v_position)) = 3 * (SURFACE_ROWS * (Z.of_nat (length sampled) * COLS_PER_CAMERA)))
    (build_npz_surface record_id captures nominal_diameter_mm length_mm).
Proof.
  intros Hd Hl. unfold build_npz_surface. destruct (_ || _); [done|]. destruct (_ || _); [done|].
  destruct (group_captures captures) as [|g groups] eqn:Eg; [done|]. rewrite <- Eg.
  destruct (sample_cameras_ok (group_captures captures)) as (r & Er & Hr). rewrite Er.
  destruct r as [sampled|]; cbn [run_bind]; [|done]. destruct (Hr _ eq_refl) as [Hlen Hok].
  assert (Hcams : Forall camera_ok (map fst sampled)) by (by apply Forall_map).
  destruct (display_scaling_ok _ Hcams) as ([robust scale] & Ed & Hrobust). rewrite Ed. cbn [mbind option_bind fst].
  eapply answers_bind; [apply encode_surface_reads_back; [done..|auto with f32|done]|].
  intros binary (vertices & Hvs & Hmesh & [bytes Hslice] & Hpos). rewrite length_map in Hpos. rewrite Hslice. cbn [mbind option_bind]. apply answers_ok.
  exists sampled, robust, vertices. split_and!; [done|by rewrite Ed|rewrite Hlen, Eg; simpl; lia|done..].
Qed.

(** C35. Whatever the archives hold, a reconstruction answers: it gives a surface or an error, and never
    indexes out of range. The surface it gives is a mesh in the format of the client, with one vertex for
    every row and column of the grid of each camera, at the place computed from the sample of that
    camera; vertices without a sample are marked in the mask. *)
Theorem npz_surface_is_read_back (record_id : string) (captures : list (Z * Z * string)) (nominal_diameter_mm length_mm : f32) :
  f32_valid nominal_diameter_mm = true -> f32_valid length_mm = true ->
  exists r, build_npz_surface record_id captures nominal_diameter_mm length_mm = Some r /\
    forall surface, r = Ok surface -> exists sampled robust vertices,
      sample_cameras (group_captures captures) = Some (Ok sampled) /\ fst <$> display_scaling (map fst sampled) = Some robust /\
      surface_vertices (map fst sampled) robust (f32_mul nominal_diameter_mm (f32_ratio 1 2)) length_mm vertices /\
      read_mesh (ns_binary surface) = Some (surface_mesh (map fst sampled) vertices).
Proof.
  intros Hd Hl. destruct (build_answers record_id captures _ _ Hd Hl) as (r & Er & Hr). exists r. split; [done|].
  intros surface E. destruct (Hr surface E) as (sampled & robust & vertices & ? & ? & _ & _ & ? & ? & _). eauto 10.
Qed.

(** C36. The surface is closed. The triangles of every surface that is built name existing vertices, face
    one side, leave no gap except around the two ends of the bar, and hold all vertices together, also
    where nothing was measured. *)
Theorem npz_surface_is_closed (record_id : string) (captures : list (Z * Z * string)) (nominal_diameter_mm length_mm : f32) (surface : NpzSurface) :
  f32_valid nominal_diameter_mm = true -> f32_valid length_mm = true ->
  build_npz_surface record_id captures nominal_diameter_mm length_mm = Some (Ok surface) ->
  exists mesh, read_mesh (ns_binary surface) = Some mesh /\
    Z.of_nat (length (mesh_positions mesh)) = 3 * (mesh_rows mesh * (mesh_camera_count mesh * mesh_cols_per_camera mesh)) /\
    closed_surface (mesh_rows mesh) (mesh_camera_count mesh * mesh_cols_per_camera mesh) (mesh_indices mesh).
Proof.
  intros Hd Hl Eb. destruct (build_answers record_id captures _ _ Hd Hl) as (r & Er & Hr). rewrite Eb in Er. injection Er as <-.
  destruct (Hr surface eq_refl) as (sampled & robust & vertices & _ & _ & Hn & _ & _ & Hm & Hpos). exists (surface_mesh (map fst sampled) vertices).
  cbn [surface_mesh mesh_positions mesh_rows mesh_camera_count mesh_cols_per_camera mesh_indices]. rewrite length_map.
  split_and!; [done..|]. apply grid_indices_closed; unfold SURFACE_ROWS, COLS_PER_CAMERA; lia.
Qed.

(** The surface of a record does not depend on the order in which its captures are listed, as long as
    no camera has two frames of one number. *)
Theorem npz_surface_ignores_order (record_id : string) (captures captures' : list (Z * Z * string)) (nominal_diameter_mm length_mm : f32) :
  captures ≡ₚ captures' -> NoDup (map fst captures) ->
  build_npz_surface record_id captures nominal_diameter_mm length_mm = build_npz_surface record_id captures' nominal_diameter_mm length_mm.
Proof.
  intros Hp Hnd. pose proof (group_captures_same _ _ Hp) as Hg. rewrite <- group_captures_keys in Hnd.
  pose proof (sample_cameras_same _ _ Hg Hnd) as Hs. unfold build_npz_surface. destruct (_ || _); [done|]. destruct (_ || _); [done|].
  rewrite Hs, <- (Permutation_length Hp). destruct Hg; [done|]. done.
Qed.
End Reconstruction.
