(* ===== verification/NpzRuns.v ===== *)
(** * Surfaces on concrete archives

    The theorems of [NpzFacts] at work: two archives of small arrays, whose files NumPy could have
    written. *)

From S2P Require Import Prelude Json Http HttpFacts Float64 Float32 MeshFormat SurfaceGrid NpzSurface NpzFacts.
From Stdlib Require Import SpecFloat Ascii.
From coqutil Require Import Byte Word.LittleEndianList.

Module NpzRun.

#[export] Instance run_nan : NanBits.
Proof. refine {| nan_bits := 0x7fc00000 |}. by split. Defined.

(** The first terms of the series, for want of a platform. *)
Definition series_cos (x : f32) : f32 := f32_sub (f32_of_Z 1) (f32_mul (f32_mul x x) (f32_ratio 1 2)).

Lemma series_cos_valid x : f32_valid x = true -> f32_valid (series_cos x) = true.
Proof. intros Hx. unfold series_cos. auto 8 with f32. Qed.

#[export] Instance run_trig : Trig := {|
  f32_cos := series_cos; f32_sin := id; f32_cos_valid := series_cos_valid; f32_sin_valid x Hx := Hx;
|}.

Definition depth_350 : DepthArray := mkDepthArray 1 1 [f32_of_Z 350].
Definition depth_profile : DepthArray := mkDepthArray 2 3 (map f32_of_Z [1; 2; 3; 4; 5; 6]).

#[export] Instance run_archives : Archives := {|
  file_open _ := Ok tt;
  zip_archive _ := Ok tt;
  zip_member path _ := if path == "c.npz" then Err "specified file not found in archive" else Ok (mkMember 132 (Ok (npy_file depth_350 5)));
|}.

Definition run_captures : list (Z * Z * string) := [(2, 7, "b.npz"); (1, 7, "a.npz")].

Lemma npy_round_trip_witness : parse_depth_npy (npy_file depth_profile 13) = Ok depth_profile.
Proof. apply npy_round_trip; [|vm_compute; done..]. constructor; [done..|]. by repeat constructor. Defined.

Lemma run_measured : Forall (fun g => snd g <> [] /\ Z.of_nat (length (snd g)) * SURFACE_ROWS <= u64_max /\ exists dimensions, frames_measured dimensions (snd g))
  (group_captures run_captures).
Proof.
  repeat constructor; simpl; try done; exists (1, 1); repeat constructor; eexists; (split; [vm_compute; reflexivity|]); by repeat constructor.
Qed.

Lemma run_builds : exists surface, build_npz_surface "42" run_captures (f32_of_Z 700) (f32_of_Z 12000) = Some (Ok surface).
Proof. apply build_succeeds; [apply run_measured|vm_compute; lia|done..]. Qed.

Lemma npz_surface_is_read_back_witness : exists r, build_npz_surface "42" run_captures (f32_of_Z 700) (f32_of_Z 12000) = Some r /\
  forall surface, r = Ok surface -> exists sampled robust vertices,
    sample_cameras (group_captures run_captures) = Some (Ok sampled) /\ fst <$> display_scaling (map fst sampled) = Some robust /\
    surface_vertices (map fst sampled) robust (f32_mul (f32_of_Z 700) (f32_ratio 1 2)) (f32_of_Z 12000) vertices /\
    read_mesh (ns_binary surface) = Some (surface_mesh (map fst sampled) vertices).
Proof. apply npz_surface_is_read_back; reflexivity. Defined.

Lemma npz_surface_is_closed_witness : exists surface mesh, read_mesh (ns_binary surface) = Some mesh /\
  Z.of_nat (length (mesh_positions mesh)) = 3 * (mesh_rows mesh * (mesh_camera_count mesh * mesh_cols_per_camera mesh)) /\
  closed_surface (mesh_rows mesh) (mesh_camera_count mesh * mesh_cols_per_camera mesh) (mesh_indices mesh).
Proof.
  destruct run_builds as [surface E]. exists surface. exact (npz_surface_is_closed "42" run_captures (f32_of_Z 700) (f32_of_Z 12000) surface eq_refl eq_refl E).
Defined.

Lemma npz_surface_ignores_order_witness :
  build_npz_surface "42" run_captures (f32_of_Z 700) (f32_of_Z 12000)
  = build_npz_surface "42" [(1, 7, "a.npz"); (2, 7, "b.npz")] (f32_of_Z 700) (f32_of_Z 12000).
Proof. apply npz_surface_ignores_order; [apply perm_swap|]. by apply (bool_decide_unpack _). Defined.

End NpzRun.
