(* ===== verification/D3img.v ===== *)
(** * D3IMG depth images

    The D3IMG half of bkv_online.rs: the header of the legacy format, its conversion to a bitmap, frames
    sampled across a record, the surface built from them and its encoding. A panic is [None]. *)

From S2P Require Import Prelude Json Http DeviceGuard Float64 Float32 MeshFormat SurfaceGrid NpzSurface.
From Stdlib Require Import SpecFloat Ascii.
From coqutil Require Import Byte Word.LittleEndianList.

Definition BKV_D3_HEADER_BYTES : Z := 84.
Definition BKV_IMAGE_MAX_BYTES : Z := 64 * 1024 * 1024.
Definition BKV_D3_INVALID_DEPTH : f32 := f32_of_Z (-1000000).
Definition BKV_DEPTH_SURFACE_ROWS : Z := 1024.
Definition BKV_DEPTH_SURFACE_COLS_PER_CAMERA : Z := 64.
Definition BKV_DEPTH_RECONSTRUCTION_REVISION : string := "d3img-cylinder-v2".

(** Errors with an operating-system error carry its text. *)
Inductive BkvImageError :=
| InvalidRequest (reason : string)
| NotFound
| InvalidFormat (reason : string)
| Io (error : string).

(** ** The header *)

(** [bytes.get(offset..offset + n)] as a little-endian number. *)
Definition read_le (n : nat) (bytes : list byte) (offset : Z) : option Z :=
  l ← slice bytes offset (Z.of_nat n); Some (le_combine l).

Definition signed (bits : Z) (z : Z) : Z := if z <? 2 ^ (bits - 1) then z else z - 2 ^ bits.

Definition read_i16_le (bytes : list byte) (offset : Z) : option Z := z ← read_le 2 bytes offset; Some (signed 16 z).
Definition read_i32_le (bytes : list byte) (offset : Z) : option Z := z ← read_le 4 bytes offset; Some (signed 32 z).
Definition read_f32_le (bytes : list byte) (offset : Z) : option f32 := z ← read_le 4 bytes offset; Some (f32_of_bits z).

Record D3ImgHeader := mkD3ImgHeader {
  d3_tag : list byte;
  d3_head_size : Z;
  d3_steel_no : Z;
  d3_image_index : Z;
  d3_image_sequence : Z;
  d3_width : Z;
  d3_height : Z;
  d3_scale_x : f32;
  d3_left : Z;
  d3_right : Z;
  d3_start_length : Z;
  d3_end_length : Z;
  d3_start_position : Z;
  d3_camera_number : Z;
  d3_data_type : Z;
  d3_pixel_size : Z;
  d3_reserve : list byte;
}.

Definition format_or {A} (o : option A) (reason : string) : Result A BkvImageError :=
  match o with Some a => Ok a | None => Err (InvalidFormat reason) end.

Definition d3_magic : list byte := String.list_byte_of_string "3DImg" ++ [Byte.x00].

(** The fields of the header, where there are enough bytes. *)
Definition d3_fields (bytes : list byte) : Result D3ImgHeader BkvImageError :=
  let? tag := format_or (slice bytes 0 6) "invalid_d3img_header" in
  let? head_size := format_or (read_i16_le bytes 6) "invalid_d3img_header_size" in
  let? steel_no := format_or (read_i32_le bytes 8) "invalid_d3img_steel_no" in
  let? image_index := format_or (read_i32_le bytes 12) "invalid_d3img_image_index" in
  let? image_sequence := format_or (read_i32_le bytes 16) "invalid_d3img_image_sequence" in
  let? width := format_or (read_i32_le bytes 20) "invalid_d3img_width" in
  let? height := format_or (read_i32_le bytes 24) "invalid_d3img_height" in
  let? scale_x := format_or (read_f32_le bytes 28) "invalid_d3img_scale_x" in
  let? left_ := format_or (read_i32_le bytes 32) "invalid_d3img_left" in
  let? right_ := format_or (read_i32_le bytes 36) "invalid_d3img_right" in
  let? start_length := format_or (read_i32_le bytes 40) "invalid_d3img_start_length" in
  let? end_length := format_or (read_i32_le bytes 44) "invalid_d3img_end_length" in
  let? start_position := format_or (read_i32_le bytes 48) "invalid_d3img_start_position" in
  let? reserve := format_or (slice bytes 55 29) "invalid_d3img_header" in
  Ok (mkD3ImgHeader tag head_size steel_no image_index image_sequence width height scale_x left_ right_ start_length end_length
        start_position (byte.unsigned (byte_no bytes 52)) (byte.unsigned (byte_no bytes 53)) (byte.unsigned (byte_no bytes 54)) reserve).

Definition parse_d3img_header_with_file_len (bytes : list byte) (file_len : Z) : Result D3ImgHeader BkvImageError :=
  if Z.of_nat (length bytes) <? BKV_D3_HEADER_BYTES then Err (InvalidFormat "invalid_d3img_header") else
  let? header := d3_fields bytes in
  if negb (bool_decide (d3_tag header = d3_magic)) then Err (InvalidFormat "invalid_d3img_header")
  else if negb (d3_head_size header =? BKV_D3_HEADER_BYTES) then Err (InvalidFormat "invalid_d3img_header_size")
  else if negb (d3_pixel_size header =? 4) then Err (InvalidFormat "invalid_d3img_pixel_size")
  else if (d3_width header <=? 0) || (d3_height header <=? 0) || (16384 <? d3_width header) || (65536 <? d3_height header)
  then Err (InvalidFormat "d3img_dimensions_out_of_range")
  else
    let? pixel_count := format_or (checked_mul u64_max (d3_width header) (d3_height header)) "d3img_pixel_count_overflow" in
    let? expected_bytes := format_or (payload ← checked_mul u64_max pixel_count (d3_pixel_size header);
                                      checked_add u64_max BKV_D3_HEADER_BYTES payload) "d3img_payload_overflow" in
    if file_len <? expected_bytes then Err (InvalidFormat "d3img_payload_truncated")
    else if expected_bytes <? file_len then Err (InvalidFormat "d3img_payload_trailing")
    else Ok header.

Definition parse_d3img_header (bytes : list byte) : Result D3ImgHeader BkvImageError :=
  parse_d3img_header_with_file_len bytes (Z.of_nat (length bytes)).

Definition valid_d3img_depth (value : f32) : bool := f32_is_finite value && negb (f32_eq value BKV_D3_INVALID_DEPTH).

(** ** Bitmaps *)

(** [(value.clamp(0.0, 1.0) * 255.0).round() as u8]: rounding half away from zero, a NaN is zero. *)
Definition round_u8 (x : f32) : Z :=
  match x with
  | S754_finite false m e => Z.min 255 ((2 * (Z.pos m * 2 ^ Z.max 0 e) + 2 ^ Z.max 0 (- e)) / (2 * 2 ^ Z.max 0 (- e)))
  | S754_infinity false => 255
  | _ => 0
  end.

Definition channel (value : f32) : byte := byte.of_Z (round_u8 (f32_mul (f32_clamp value f32_zero (f32_of_Z 1)) (f32_of_Z 255))).

(** Red, green, blue. *)
Definition depth_color (value : f32) : byte * byte * byte :=
  let slope n := channel (f32_sub (f32_ratio 3 2) (f32_abs (f32_sub (f32_mul (f32_of_Z 4) value) (f32_of_Z n)))) in
  (slope 3, slope 2, slope 1).

(** [f32::from_le_bytes([bytes[o], bytes[o + 1], bytes[o + 2], bytes[o + 3]])]. *)
Definition depth_at (bytes : list byte) (offset : Z) : option f32 :=
  l ← slice bytes offset 4; Some (f32_of_le_bytes l).

(** The smallest and the largest valid depth. *)
Fixpoint depth_range (bytes : list byte) (offsets : list Z) (range : f32 * f32) : option (f32 * f32) :=
  match offsets with
  | [] => Some range
  | offset :: rest =>
      value ← depth_at bytes offset;
      depth_range bytes rest (if valid_d3img_depth value then (f32_min (fst range) value, f32_max (snd range) value) else range)
  end.

(** [output[offset..offset + n].copy_from_slice(values)]. *)
Definition write_at {A} (l : list A) (offset : Z) (values : list A) : option (list A) :=
  if (0 <=? offset) && (offset + Z.of_nat (length values) <=? Z.of_nat (length l))
  then Some (take (Z.to_nat offset) l ++ values ++ drop (Z.to_nat offset + length values) l) else None.

Fixpoint write_all {A} (l : list A) (writes : list (Z * list A)) : option (list A) :=
  match writes with
  | [] => Some l
  | (offset, values) :: rest => l ← write_at l offset values; write_all l rest
  end.

(** The header of a bitmap of 24 bits per pixel. *)
Definition bmp_header (file_size width height bitmap_bytes : Z) : list (Z * list byte) :=
  [(0, String.list_byte_of_string "BM"); (2, le_split 4 file_size); (10, le_split 4 54); (14, le_split 4 40); (18, le_split 4 width);
   (22, le_split 4 height); (26, le_split 2 1); (28, le_split 2 24); (34, le_split 4 bitmap_bytes); (38, le_split 4 2835); (42, le_split 4 2835)].

(** The colour of the pixel in column [x] of row [y], and where its three bytes go: rows are stored from the
    bottom. *)
Definition bmp_pixel (bytes : list byte) (header_size width height row_stride : Z) (minimum span : f32) (place : Z * Z) : option (Z * list byte) :=
  let '(y, x) := place in
  value ← depth_at bytes (header_size + (y * width + x) * 4);
  let '(red, green, blue) :=
    if valid_d3img_depth value then depth_color (f32_clamp (f32_div (f32_sub value minimum) span) f32_zero (f32_of_Z 1)) else (Byte.x00, Byte.x00, Byte.x00) in
  Some (54 + (height - 1 - y) * row_stride + x * 3, [blue; green; red]).

Definition d3img_to_bmp (bytes : list byte) : option (Result (list byte) BkvImageError) :=
  match parse_d3img_header bytes with
  | Err e => Some (Err e)
  | Ok header =>
      let header_size := d3_head_size header in
      let width := d3_width header in
      let height := d3_height header in
      match checked_mul u64_max width height with
      | None => Some (Err (InvalidFormat "d3img_pixel_count_overflow"))
      | Some pixel_count =>
          range ← depth_range bytes (map (fun index => header_size + index * 4) (seqZ 0 pixel_count)) (S754_infinity false, S754_infinity true);
          let '(minimum, maximum) := range in
          if negb (f32_is_finite minimum) || negb (f32_is_finite maximum) then Some (Err (InvalidFormat "d3img_has_no_valid_depth"))
          else
            let span := f32_max (f32_sub maximum minimum) f32_epsilon in
            match row_bytes ← checked_mul u64_max width 3; checked_add u64_max row_bytes 3 with
            | None => Some (Err (InvalidFormat "bmp_row_overflow"))
            | Some padded =>
                let row_stride := Z.land padded (Z.lnot 3) in
                match bitmap_bytes ← checked_mul u64_max row_stride height; file_size ← checked_add u64_max 54 bitmap_bytes; Some (bitmap_bytes, file_size) with
                | None => Some (Err (InvalidFormat "bmp_size_overflow"))
                | Some (bitmap_bytes, file_size) =>
                    if u32_max <? file_size then Some (Err (InvalidFormat "bmp_size_out_of_range"))
                    else
                      output ← write_all (replicate (Z.to_nat file_size) Byte.x00) (bmp_header file_size width height bitmap_bytes);
                      pixels ← mapM (bmp_pixel bytes header_size width height row_stride minimum span) (grid height width);
                      output ← write_all output pixels;
                      Some (Ok output)
                end
            end
      end
  end.

(** ** Frames *)

(** At most [maximum] of the frames, evenly spaced. *)
Definition evenly_sample_frame_paths (candidates : list (Z * string)) (maximum : Z) : option (list (Z * string)) :=
  let n := Z.of_nat (length candidates) in
  if (n <=? maximum) || (maximum =? 0) then Some candidates
  else if maximum =? 1 then Some (take 1 candidates)
  else mapM (fun index => at_index candidates (evenly maximum n index)) (seqZ 0 maximum).

(** The files of a record: what [fs::metadata] says (whether it is a regular file, its length), opening a
    file and reading its first bytes, opening it again, and reading the bytes of a row of an open file; with
    the texts of errors. [read_exact] gives as many bytes as it was asked for. *)
Class D3Files := {
  d3_metadata : string -> Result (bool * Z) string;
  d3_open_header : string -> Result (list byte) string;
  d3_open : string -> Result unit string;
  d3_read : string -> Z -> Z -> Result (list byte) string;
  d3_open_header_length path l : d3_open_header path = Ok l -> Z.of_nat (length l) = BKV_D3_HEADER_BYTES;
  d3_read_length path offset n l : d3_read path offset n = Ok l -> Z.of_nat (length l) = n;
}.

Record LoadedD3Img := mkLoadedD3Img { lf_frame_number : Z; lf_source_path : string; lf_header : D3ImgHeader }.

(** [{error:?}]. *)
Definition debug_error (e : BkvImageError) : string :=
  let quoted s := String quote (s +:+ String quote EmptyString) in
  match e with
  | InvalidRequest reason => "InvalidRequest(" +:+ quoted reason +:+ ")"
  | NotFound => "NotFound"
  | InvalidFormat reason => "InvalidFormat(" +:+ quoted reason +:+ ")"
  | Io error => "Io(" +:+ error +:+ ")"
  end.

Definition named {A E} (path : string) (show : E -> string) (r : Result A E) : Result A string :=
  match r with Ok a => Ok a | Err e => Err (path +:+ ": " +:+ show e) end.

Section Surface.
Context `{D3Files} `{NanBits} `{Trig}.

Definition load_d3img (path : string) (frame_number : Z) : Result LoadedD3Img string :=
  let? metadata := named path id (d3_metadata path) in
  let '(is_file, file_len) := metadata in
  if negb is_file || (BKV_IMAGE_MAX_BYTES <? file_len) then Err (path +:+ ": D3IMG size is out of range")
  else
    let? header_bytes := named path id (d3_open_header path) in
    let? header := named path debug_error (parse_d3img_header_with_file_len header_bytes file_len) in
    Ok (mkLoadedD3Img frame_number path header).

Fixpoint load_frames (candidates : list (Z * string)) : Result (list LoadedD3Img) string :=
  match candidates with
  | [] => Ok []
  | (frame, path) :: rest => let? loaded := load_d3img path frame in let? frames := load_frames rest in Ok (loaded :: frames)
  end.

(** The sample of a column of a row that was read. *)
Definition row_sample (row : list byte) (width columns target_column : Z) : option (option f32) :=
  let source_column := if columns <=? 1 then 0 else evenly columns width target_column in
  depth ← depth_at row (source_column * 4);
  Some (if valid_d3img_depth depth then Some depth else None).

Definition read_sampled_d3img_row (frame : LoadedD3Img) (source_row columns : Z) : Run (list (option f32)) :=
  let path := lf_source_path frame in
  let width := d3_width (lf_header frame) in
  if d3_height (lf_header frame) <=? source_row then Some (Err (path +:+ ": sampled D3IMG row is out of range"))
  else
    match row_bytes ← checked_mul u64_max width 4; Some row_bytes with
    | None => Some (Err "D3IMG row size overflow")
    | Some row_bytes =>
        match row_start ← checked_mul u64_max source_row row_bytes; checked_add u64_max BKV_D3_HEADER_BYTES row_start with
        | None => Some (Err "D3IMG row offset overflow")
        | Some offset =>
            let! row := Some (named path id (d3_read path offset row_bytes)) in
            samples ← mapM (row_sample row width columns) (seqZ 0 columns);
            Some (Ok samples)
        end
    end.

(** The sum of the heights. *)
Fixpoint total_height (total : Z) (frames : list LoadedD3Img) : option Z :=
  match frames with
  | [] => Some total
  | frame :: rest => sum ← checked_add u64_max total (d3_height (lf_header frame)); total_height sum rest
  end.

(** The first row of each frame in the record. *)
Fixpoint frame_start_rows (current : Z) (frames : list LoadedD3Img) : list Z :=
  match frames with
  | [] => []
  | frame :: rest => current :: frame_start_rows (sat_add u64_max current (d3_height (lf_header frame))) rest
  end.

(** The row of the record a target row shows. The product overflows for records of more than [2^54] rows only. *)
Definition global_row (total target_row : Z) : Z :=
  Z.min (evenly BKV_DEPTH_SURFACE_ROWS (Z.max 1 total) target_row) (sat_sub total 1).

(** The last frame that starts at or above a row. *)
Definition frame_of_row (starts : list Z) (row : Z) : option (Z * Z) :=
  List.find (fun '(_, start) => start <=? row) (rev (zip (seqZ 0 (Z.of_nat (length starts))) starts)).

Fixpoint row_mappings (camera_id total : Z) (starts : list Z) (targets : list Z) : Result (list (Z * Z)) string :=
  match targets with
  | [] => Ok []
  | target :: rest =>
      match frame_of_row starts (global_row total target) with
      | None => Err ("camera " +:+ dec camera_id +:+ " D3IMG row mapping failed")
      | Some (index, start) =>
          let? mappings := row_mappings camera_id total starts rest in
          Ok ((index, sat_sub (global_row total target) start) :: mappings)
      end
  end.

(** The rows of one frame, read and put in their places. *)
Fixpoint fill_rows (frame : LoadedD3Img) (rows : list (Z * Z)) (samples : list (option f32)) : Run (list (option f32)) :=
  match rows with
  | [] => Some (Ok samples)
  | (target_row, source_row) :: rest =>
      let! sampled := read_sampled_d3img_row frame source_row BKV_DEPTH_SURFACE_COLS_PER_CAMERA in
      samples ← write_at samples (target_row * BKV_DEPTH_SURFACE_COLS_PER_CAMERA) sampled;
      fill_rows frame rest samples
  end.

(** The target and source rows that are mapped to a frame. *)
Definition rows_of_frame (index : Z) (mappings : list (Z * Z)) : list (Z * Z) :=
  omap (fun '(target_row, (frame, source_row)) => if frame =? index then Some (target_row, source_row) else None)
    (zip (seqZ 0 (Z.of_nat (length mappings))) mappings).

Fixpoint fill_frames (index : Z) (frames : list LoadedD3Img) (mappings : list (Z * Z)) (samples : list (option f32)) : Run (list (option f32)) :=
  match frames with
  | [] => Some (Ok samples)
  | frame :: rest =>
      let! _ := Some (named (lf_source_path frame) id (d3_open (lf_source_path frame))) in
      let! samples := fill_rows frame (rows_of_frame index mappings) samples in
      fill_frames (index + 1) rest mappings samples
  end.

Definition camera_metadata (camera_id : Z) (directory : string) (frames : list LoadedD3Img) (first last : LoadedD3Img) (baseline : f32) : Value :=
  jobj [("cameraId", jint camera_id); ("sourceDirectory", JString directory); ("frameCount", jint (Z.of_nat (length frames)));
        ("firstFrame", jint (lf_frame_number first)); ("lastFrame", jint (lf_frame_number last));
        ("sourceWidth", jint (d3_width (lf_header first))); ("sourceHeight", jint (d3_height (lf_header first)));
        ("scaleX", jf32 (d3_scale_x (lf_header first))); ("dataType", jint (d3_data_type (lf_header first)));
        ("pixelSize", jint (d3_pixel_size (lf_header first))); ("baseline", jf32 baseline);
        ("sourceFirst", JString (lf_source_path first)); ("sourceLast", JString (lf_source_path last))].

(** What is kept of a camera: baseline, samples, metadata, the names of its frames and how many there are. *)
Record D3Camera := mkD3Camera { dc_baseline : f32; dc_samples : list (option f32); dc_metadata : Value; dc_stems : list string; dc_frames : Z }.

Definition sample_d3_camera (camera_id : Z) (candidates : list (Z * string)) (directory : string) : Run D3Camera :=
  let! frames := Some (load_frames candidates) in
  match total_height 0 frames with
  | None => Some (Err "D3IMG combined height overflow")
  | Some total =>
      if total =? 0 then Some (Err ("camera " +:+ dec camera_id +:+ " has no D3IMG rows"))
      else
        let! mappings := Some (row_mappings camera_id total (frame_start_rows 0 frames) (seqZ 0 BKV_DEPTH_SURFACE_ROWS)) in
        let! samples := fill_frames 0 frames mappings
          (replicate (Z.to_nat (BKV_DEPTH_SURFACE_ROWS * BKV_DEPTH_SURFACE_COLS_PER_CAMERA)) None) in
        match median (omap id samples) with
        | None => Some (Err ("camera " +:+ dec camera_id +:+ " D3IMG has no valid sampled depth"))
        | Some baseline =>
            match frames with
            | [] => Some (Err ("camera " +:+ dec camera_id +:+ " D3IMG frame list is empty"))
            | first :: _ =>
                Some (Ok (mkD3Camera baseline samples
                  (camera_metadata camera_id directory frames first (unwrap_or (last frames) first) baseline)
                  (map (fun f => "camera" +:+ dec camera_id +:+ ":" +:+ pad_zero 4 (dec (lf_frame_number f))) frames)
                  (Z.of_nat (length frames))))
            end
        end
  end.

Fixpoint sample_d3_cameras (inputs : list (Z * list (Z * string) * string)) : Run (list D3Camera) :=
  match inputs with
  | [] => Some (Ok [])
  | (camera_id, candidates, directory) :: rest =>
      let! camera := sample_d3_camera camera_id candidates directory in
      let! cameras := sample_d3_cameras rest in
      Some (Ok (camera :: cameras))
  end.

(** ** The surface *)

Definition d3_residuals (cameras : list D3Camera) : list f32 :=
  cameras ≫= fun c => map (fun value => f32_abs (f32_sub value (dc_baseline c))) (omap id (dc_samples c)).

Definition d3_vertex_at (cameras : list D3Camera) (robust display_scale : f32) (columns : Z) (place : Z * Z) : option Vertex :=
  let '(row, column) := place in
  let longitudinal := f32_div (f32_of_Z row) (f32_of_Z (BKV_DEPTH_SURFACE_ROWS - 1)) in
  camera ← at_index cameras (column / BKV_DEPTH_SURFACE_COLS_PER_CAMERA);
  sample ← at_index (dc_samples camera) (row * BKV_DEPTH_SURFACE_COLS_PER_CAMERA + column `mod` BKV_DEPTH_SURFACE_COLS_PER_CAMERA);
  let residual := match sample with Some value => f32_sub value (dc_baseline camera) | None => f32_zero end in
  let radial_offset := f32_clamp (f32_mul residual display_scale) (f32_neg (f32_ratio 28 100)) (f32_ratio 28 100) in
  let radius := f32_add (f32_of_Z 1) radial_offset in
  let angle := vertex_angle column columns in
  Some (mkVertex [f32_sub (f32_mul longitudinal (f32_of_Z 8)) (f32_of_Z 4); f32_mul radius (f32_cos angle); f32_mul radius (f32_sin angle)]
          [longitudinal; f32_div (f32_of_Z column) (f32_of_Z columns)] (vertex_color sample residual robust)
          (match sample with Some _ => Byte.x01 | None => Byte.x00 end)).

Definition d3_surface_value (record_id created_at_ms : Z) (cameras : list D3Camera) (robust display_scale : f32) (vertices : list Vertex) (columns : Z) : Value :=
  jobj [("schema", JString "steel.bkv-depth-surface.v1"); ("recordId", JString (dec record_id)); ("coordinateUnit", JString "legacy-unknown");
        ("coordinateFrame", jobj [("schema", JString "steel.bkv-depth-display-frame.v1"); ("applied", JBool false);
                                  ("origin", JString "camera-relative-median"); ("axis", JString "x=longitudinal,yz=circumference");
                                  ("reason", JString "D3IMG physical depth unit and camera extrinsics are not confirmed")]);
        ("cameraCount", jint (Z.of_nat (length cameras))); ("frameStems", JArray (map JString (cameras ≫= dc_stems)));
        ("rows", jint BKV_DEPTH_SURFACE_ROWS); ("colsPerCamera", jint BKV_DEPTH_SURFACE_COLS_PER_CAMERA);
        ("positions", JArray (map jf32 (vertices ≫= v_position))); ("uvs", JArray (map jf32 (vertices ≫= v_uv)));
        ("colors", JArray (map jf32 (vertices ≫= v_color))); ("validMask", JArray (map (fun v => jint (byte.unsigned (v_valid v))) vertices));
        ("calibratedMask", JArray (replicate (Z.to_nat (BKV_DEPTH_SURFACE_ROWS * columns)) (jint 0)));
        ("indices", JArray (map jint (grid_indices BKV_DEPTH_SURFACE_ROWS columns))); ("source", JString "d3img-float32");
        ("reconstructionRevision", JString BKV_DEPTH_RECONSTRUCTION_REVISION); ("sourceHeaderBytes", jint BKV_D3_HEADER_BYTES);
        ("sourcePixelSize", jint 4); ("sourceInvalidSentinelObserved", jf32 BKV_D3_INVALID_DEPTH);
        ("sourceFrameCount", jint (fold_right Z.add 0 (map dc_frames cameras)));
        ("display", jobj [("mode", JString "camera-relative-residual"); ("robustResidualP95", jf32 robust); ("radialScale", jf32 display_scale);
                          ("calibrated", JBool false); ("unit", JString "legacy-unknown")]);
        ("cameras", JArray (map dc_metadata cameras)); ("createdAtMs", jint created_at_ms)].

Definition no_frames (input : Z * list (Z * string) * string) : bool := match snd (fst input) with [] => true | _ => false end.

(** [created_at_ms] is the clock at the end. *)
Definition build_d3img_surface (created_at_ms sequence : Z) (camera_inputs : list (Z * list (Z * string) * string)) : Run (Value * Z) :=
  if match camera_inputs with [] => true | _ => false end then Some (Err "BKV D3IMG camera list is empty") else
  match List.find no_frames camera_inputs with
  | Some (camera_id, _, directory) => Some (Err ("camera " +:+ dec camera_id +:+ " has no D3IMG frames in " +:+ directory))
  | None =>
      match checked_mul u64_max BKV_DEPTH_SURFACE_COLS_PER_CAMERA (Z.of_nat (length camera_inputs)) with
      | None => Some (Err "D3IMG surface column count overflow")
      | Some columns =>
          let! cameras := sample_d3_cameras camera_inputs in
          let robust := robust_residual (d3_residuals cameras) in
          let display_scale := f32_div (f32_ratio 18 100) robust in
          match checked_mul u64_max BKV_DEPTH_SURFACE_ROWS columns with
          | None => Some (Err "D3IMG surface point count overflow")
          | Some _ =>
              vertices ← mapM (d3_vertex_at cameras robust display_scale columns) (grid BKV_DEPTH_SURFACE_ROWS columns);
              if negb (forallb (fun i => i <=? u32_max) (grid_indices BKV_DEPTH_SURFACE_ROWS columns)) then Some (Err "D3IMG mesh index overflow")
              else Some (Ok (d3_surface_value sequence created_at_ms cameras robust display_scale vertices columns, fold_right Z.add 0 (map dc_frames cameras)))
          end
      end
  end.
End Surface.

(** ** Its encoding *)

(** [.map(read).collect()] over the array under a name. *)
Fixpoint collect_values {A} (read : Value -> option A) (error : string) (values : list Value) : Result (list A) string :=
  match values with
  | [] => Ok []
  | value :: rest =>
      match read value with
      | None => Err error
      | Some a => let? others := collect_values read error rest in Ok (a :: others)
      end
  end.

Definition surface_values {A} (read : Value -> option A) (what name : string) (surface : Value) : Result (list A) string :=
  match jget name surface with
  | Some (JArray values) => collect_values read ("D3IMG surface " +:+ name +:+ " contains an invalid " +:+ what) values
  | _ => Err ("D3IMG surface " +:+ name +:+ " is missing")
  end.

Definition surface_f32_values (surface : Value) (name : string) : Result (list f32) string :=
  surface_values (fun value => filter_opt f32_is_finite (option_map f32_of_f64 (as_f64 value))) "number" name surface.

Definition surface_u32_values (surface : Value) (name : string) : Result (list Z) string :=
  surface_values (fun value => filter_opt (fun z => z <=? u32_max) (as_u64 value)) "index" name surface.

Definition surface_u8_values (surface : Value) (name : string) : Result (list Z) string :=
  surface_values (fun value => filter_opt (fun z => z <=? 255) (as_u64 value)) "mask" name surface.

Definition surface_u32 (surface : Value) (name error : string) : Result Z string :=
  match filter_opt (fun z => z <=? u32_max) (v ← jget name surface; as_u64 v) with Some z => Ok z | None => Err error end.

Definition encode_d3img_surface_bsmesh `{NanBits} (surface : Value) : Result (list byte) string :=
  let? positions := surface_f32_values surface "positions" in
  if negb (Z.of_nat (length positions) `mod` 3 =? 0) then Err "D3IMG surface positions are not xyz triples" else
  let vertex_count := Z.of_nat (length positions) / 3 in
  let? uvs := surface_f32_values surface "uvs" in
  let? colors := surface_f32_values surface "colors" in
  let? indices := surface_u32_values surface "indices" in
  let? valid_mask := surface_u8_values surface "validMask" in
  let? calibrated_mask := surface_u8_values surface "calibratedMask" in
  if negb (Z.of_nat (length uvs) =? vertex_count * 2) || negb (Z.of_nat (length colors) =? vertex_count * 3)
     || negb (Z.of_nat (length valid_mask) =? vertex_count) || negb (Z.of_nat (length calibrated_mask) =? vertex_count)
  then Err "D3IMG surface attribute lengths are inconsistent" else
  let? rows := surface_u32 surface "rows" "D3IMG surface rows are invalid" in
  let? cols_per_camera := surface_u32 surface "colsPerCamera" "D3IMG surface columns are invalid" in
  let? camera_count := surface_u32 surface "cameraCount" "D3IMG surface camera count is invalid" in
  if u32_max <? vertex_count then Err "D3IMG surface vertex count is out of range" else
  if u32_max <? Z.of_nat (length indices) then Err "D3IMG surface index count is out of range" else
  Ok (bsmesh01
      ++ words_bytes [1; vertex_count; Z.of_nat (length indices); Z.lor 2 4; rows; cols_per_camera; camera_count; 0]
      ++ floats_bytes positions ++ floats_bytes uvs ++ floats_bytes colors ++ words_bytes indices
      ++ map byte.of_Z valid_mask ++ map byte.of_Z calibrated_mask).
