(* ===== verification/D3imgFacts.v ===== *)
(** * Theorems about D3IMG images

    The bitmap of a depth image has its pixels where a viewer looks for them; the rows of a record are
    taken from the frames they lie in; the surface is built without indexing out of range, and encodes to a
    closed mesh of the same vertices. *)

From S2P Require Import Prelude Json Http DeviceGuard Float64 Float32 MeshFormat SurfaceGrid NpzSurface NpzFacts D3img.
From Stdlib Require Import SpecFloat Ascii.
From coqutil Require Import Byte Word.LittleEndianList.

(** ** The header *)

Record d3_ok (h : D3ImgHeader) (file_len : Z) : Prop := mkD3Ok {
  d3_ok_tag : d3_tag h = d3_magic;
  d3_ok_size : d3_head_size h = 84;
  d3_ok_pixel : d3_pixel_size h = 4;
  d3_ok_width : 0 < d3_width h <= 16384;
  d3_ok_height : 0 < d3_height h <= 65536;
  d3_ok_len : file_len = 84 + d3_width h * d3_height h * 4;
}.

Lemma parse_header_sound bytes file_len h : parse_d3img_header_with_file_len bytes file_len = Ok h -> d3_ok h file_len.
Proof.
  unfold parse_d3img_header_with_file_len, BKV_D3_HEADER_BYTES. destruct (_ <? 84); [done|]. destruct (d3_fields bytes) as [h'|]; [|done].
  cbn [result_bind]. destruct (bool_decide_reflect (d3_tag h' = d3_magic)); [|done]. cbn [negb].
  destruct (Z.eqb_spec (d3_head_size h') 84); [|done]. destruct (Z.eqb_spec (d3_pixel_size h') 4) as [Ep|]; [|done]. cbn [negb].
  destruct (_ || _ || _ || _) eqn:Eb; [done|]. bool_facts. unfold checked_mul, checked_add. rewrite Ep.
  destruct (_ <=? u64_max); [|done]. cbn [format_or result_bind]. destruct (_ <=? u64_max); [|done]. cbn [mbind option_bind].
  destruct (_ <=? u64_max); [|done]. cbn [format_or result_bind].
  destruct (Z.ltb_spec file_len (84 + d3_width h' * d3_height h' * 4)); [done|]. destruct (Z.ltb_spec (84 + d3_width h' * d3_height h' * 4) file_len); [done|].
  intros [= <-]. constructor; lia || done.
Qed.

(** ** Writing into a buffer *)

Section Writes.
Context {A : Type}.
Implicit Types (l : list A) (w : Z * list A).

Definition inside l w : Prop := 0 <= fst w /\ fst w + Z.of_nat (length (snd w)) <= Z.of_nat (length l).
Definition apart w w' : Prop := fst w + Z.of_nat (length (snd w)) <= fst w' \/ fst w' + Z.of_nat (length (snd w')) <= fst w.
(** A buffer holds a piece at its offset. *)
Definition holds l w : Prop := slice l (fst w) (Z.of_nat (length (snd w))) = Some (snd w).

Lemma write_at_total l w : inside l w -> exists l', write_at l (fst w) (snd w) = Some l' /\ length l' = length l.
Proof.
  intros [H0 H1]. unfold write_at. rewrite !(proj2 (Z.leb_le _ _)) by lia. eexists. split; [done|].
  rewrite !length_app, length_take, length_drop. lia.
Qed.

Lemma write_at_length l offset values l' : write_at l offset values = Some l' -> length l' = length l /\ inside l (offset, values).
Proof.
  unfold write_at. destruct (_ && _) eqn:E; [|done]. bool_facts. intros [= <-]. unfold inside. simpl.
  rewrite !length_app, length_take, length_drop. lia.
Qed.

Lemma slice_holds l w : holds l w <-> exists a b, l = a ++ snd w ++ b /\ Z.of_nat (length a) = fst w.
Proof.
  destruct w as [o v]. unfold holds, slice. simpl. split.
  - destruct (_ && _) eqn:E; [|done]. bool_facts. intros [= Ev]. rewrite Nat2Z.id in Ev.
    exists (take (Z.to_nat o) l), (drop (length v) (drop (Z.to_nat o) l)). rewrite length_take. split; [|lia].
    rewrite <- Ev at 1. rewrite take_drop, take_drop. done.
  - intros (a & b & -> & <-). rewrite !length_app, !Nat2Z.id, drop_app_length, take_app_length.
    rewrite !(proj2 (Z.leb_le _ _)) by lia. done.
Qed.

Lemma write_holds l w l' : write_at l (fst w) (snd w) = Some l' -> holds l' w.
Proof.
  intros E. destruct (write_at_length _ _ _ _ E) as [_ [H0 H1]]. simpl in *. revert E. unfold write_at. destruct (_ && _); [|done].
  intros [= <-]. apply slice_holds. eexists _, _. split; [done|]. rewrite length_take. lia.
Qed.

(** A piece that is apart from what is written stays. *)
Lemma write_keeps l w l' v : write_at l (fst w) (snd w) = Some l' -> apart w v -> holds l v -> holds l' v.
Proof.
  intros E Hap Hh. destruct (write_at_length _ _ _ _ E) as [_ [H0 H1]]. simpl in *. apply slice_holds in Hh as (a & b & -> & Ea).
  revert E. unfold write_at. destruct (_ && _); [|done]. intros [= <-]. apply slice_holds. rewrite !length_app in H1.
  destruct Hap as [Hap|Hap].
  - exists (take (Z.to_nat (fst w)) a ++ snd w ++ drop (Z.to_nat (fst w) + length (snd w)) a), b.
    rewrite take_app_le, drop_app_le by lia. rewrite <- !(assoc_L (++)). split; [done|]. rewrite !length_app, length_take, length_drop. lia.
  - exists a, (take (Z.to_nat (fst w) - length a - length (snd v)) b ++ snd w ++ drop (Z.to_nat (fst w) + length (snd w) - length a - length (snd v)) b).
    split; [|done]. rewrite take_app_ge, take_app_ge, drop_app_ge, drop_app_ge by lia. by rewrite <- !(assoc_L (++)).
Qed.

Lemma write_all_total l ws : Forall (inside l) ws -> exists l', write_all l ws = Some l' /\ length l' = length l.
Proof.
  revert l. induction ws as [|[o v] ws IH]; intros l Hws; [by exists l|]. apply Forall_cons_1 in Hws as [Hw Hws].
  destruct (write_at_total l (o, v) Hw) as (l1 & E1 & L1). simpl in *. rewrite E1. cbn [mbind option_bind].
  destruct (IH l1) as (l' & E & L); [|exists l'; by rewrite L, L1].
  eapply Forall_impl; [exact Hws|]. unfold inside. intros w. by rewrite L1.
Qed.

Lemma write_all_keeps l ws l' v : write_all l ws = Some l' -> Forall (fun w => apart w v) ws -> holds l v -> holds l' v.
Proof.
  revert l. induction ws as [|[o x] ws IH]; intros l E Ha Hh; [by injection E as <-|]. simpl in E. apply Forall_cons_1 in Ha as [Hw Ha].
  destruct (write_at l o x) as [l1|] eqn:E1; [|done]. cbn [mbind option_bind] in E. eapply IH; [done|done|]. by eapply (write_keeps l (o, x)).
Qed.

(** After writes that do not overlap the buffer holds all of them. *)
Lemma write_all_holds l ws l' : write_all l ws = Some l' -> ForallOrdPairs (fun w w' => apart w' w) ws -> Forall (holds l') ws.
Proof.
  intros E Hp. revert l E. induction Hp as [|[o x] ws Ha _ IH]; intros l E; [constructor|]. simpl in E.
  destruct (write_at l o x) as [l1|] eqn:E1; [|done]. cbn [mbind option_bind] in E. constructor; [|by eapply IH].
  eapply write_all_keeps; [done|done|]. by apply (write_holds l (o, x)).
Qed.

Lemma write_all_app l ws ws' : write_all l (ws ++ ws') = l ← write_all l ws; write_all l ws'.
Proof. revert l. induction ws as [|[o x] ws IH]; intros l; [done|]. simpl. destruct (write_at l o x); [apply IH|done]. Qed.
End Writes.

(** ** Bitmaps *)

Lemma round_up_four n : 0 <= n -> Z.land n (Z.lnot 3) = n / 4 * 4.
Proof.
  intros Hn. rewrite <- Z.ldiff_land. change 3 with (Z.ones 2). rewrite Z.ldiff_ones_r by lia.
  by rewrite Z.shiftl_mul_pow2, Z.shiftr_div_pow2 by lia.
Qed.

Lemma depth_at_some bytes offset : 0 <= offset -> offset + 4 <= Z.of_nat (length bytes) -> exists v, depth_at bytes offset = Some v /\ f32_valid v = true.
Proof.
  intros H0 H1. unfold depth_at. destruct (slice_ok (fun _ => True) bytes offset 4) as (l & -> & _ & _); [by apply Forall_forall|lia..|].
  cbn [mbind option_bind]. eexists. split; [done|]. apply f32_of_bits_valid.
Qed.

Lemma depth_range_some bytes offsets range : Forall (fun o => 0 <= o /\ o + 4 <= Z.of_nat (length bytes)) offsets -> exists r, depth_range bytes offsets range = Some r.
Proof.
  intros Ho. revert range. induction Ho as [|o offsets [H0 H1] _ IH]; intros range; [by eexists|]. simpl.
  destruct (depth_at_some bytes o H0 H1) as (v & -> & _). cbn [mbind option_bind]. apply IH.
Qed.

Lemma Forall2_elem_of_l {X Y} (P : X -> Y -> Prop) l k x : Forall2 P l k -> x ∈ l -> exists y, y ∈ k /\ P x y.
Proof. intros HP (i & Hi)%list_elem_of_lookup. destruct (Forall2_lookup_l _ _ _ _ _ HP Hi) as (y & Hy & HPy). exists y. split; [by eapply list_elem_of_lookup_2|done]. Qed.

Lemma Forall2_elem_of_r {X Y} (P : X -> Y -> Prop) l k y : Forall2 P l k -> y ∈ k -> exists x, x ∈ l /\ P x y.
Proof. intros HP%Forall2_flip Hy. by apply (Forall2_elem_of_l _ _ _ _ HP). Qed.

Lemma ordered_pairs {X Y} (P : X -> Y -> Prop) (R : Y -> Y -> Prop) l k : NoDup l -> Forall2 P l k ->
  (forall x y a b, x ∈ l -> y ∈ l -> x <> y -> P x a -> P y b -> R a b) -> ForallOrdPairs R k.
Proof.
  intros Hnd HP. revert Hnd. induction HP as [|x a l k Ha HP IH]; intros Hnd HR; constructor; apply NoDup_cons in Hnd as [Hx Hnd].
  - apply Forall_forall. intros b Hb. apply (Forall2_elem_of_r _ _ _ _ HP) in Hb as (y & Hy & Hb). eapply (HR x y); [by left|by right| |done..]. by intros ->.
  - apply IH; [done|]. intros y z b c Hy Hz. apply HR; by right.
Qed.

(** What the pixel of a row and a column shows: black where nothing was measured. *)
Definition pixel_color (value minimum span : f32) : list byte :=
  if valid_d3img_depth value then
    let '(red, green, blue) := depth_color (f32_clamp (f32_div (f32_sub value minimum) span) f32_zero (f32_of_Z 1)) in [blue; green; red]
  else [Byte.x00; Byte.x00; Byte.x00].

Lemma bmp_pixel_some bytes h minimum span stride y x : d3_ok h (Z.of_nat (length bytes)) -> 0 <= y < d3_height h -> 0 <= x < d3_width h ->
  exists value, depth_at bytes (84 + (y * d3_width h + x) * 4) = Some value /\
    bmp_pixel bytes 84 (d3_width h) (d3_height h) stride minimum span (y, x)
    = Some (54 + (d3_height h - 1 - y) * stride + x * 3, pixel_color value minimum span).
Proof.
  intros Hok Hy Hx. destruct (depth_at_some bytes (84 + (y * d3_width h + x) * 4)) as (v & E & _); [nia|rewrite (d3_ok_len _ _ Hok); nia|].
  exists v. split; [done|]. unfold bmp_pixel. rewrite E. cbn [mbind option_bind]. unfold pixel_color.
  destruct (valid_d3img_depth v); [|done]. by destruct (depth_color _) as [[? ?] ?].
Qed.

(** The layout of the file: where the bitmap of an image of this size has its pixels. *)
Definition bmp_stride (width : Z) : Z := (width * 3 + 3) / 4 * 4.
Definition bmp_offset (width height y x : Z) : Z := 54 + (height - 1 - y) * bmp_stride width + x * 3.

(** The little-endian number of [n] bytes that a reader of the file finds at an offset. *)
Definition field (out : list byte) (offset n : Z) : option Z := le_combine <$> slice out offset n.

(** The two headers of the bitmap format: the letters BM, the size of the file, where the pixels begin, the
    size of the second header, width and height (positive: rows from the bottom), one plane, 24 bits for a
    pixel, no compression, the size of the pixels, the resolution, and no palette. *)
Record bitmap_fields (out : list byte) (width height : Z) : Prop := mkBitmapFields {
  field_letters : slice out 0 2 = Some [Byte.x42; Byte.x4d];
  field_file_size : field out 2 4 = Some (Z.of_nat (length out));
  field_reserved : field out 6 4 = Some 0;
  field_pixels_at : field out 10 4 = Some 54;
  field_header_size : field out 14 4 = Some 40;
  field_width : field out 18 4 = Some width;
  field_height : field out 22 4 = Some height;
  field_planes : field out 26 2 = Some 1;
  field_bits : field out 28 2 = Some 24;
  field_compression : field out 30 4 = Some 0;
  field_pixel_bytes : field out 34 4 = Some (Z.of_nat (length out) - 54);
  field_resolution : field out 38 4 = Some 2835 /\ field out 42 4 = Some 2835;
  field_palette : field out 46 4 = Some 0 /\ field out 50 4 = Some 0;
}.

Record bitmap_ok (bytes : list byte) (h : D3ImgHeader) (minimum span : f32) (out : list byte) : Prop := mkBitmapOk {
  bitmap_length : Z.of_nat (length out) = 54 + bmp_stride (d3_width h) * d3_height h;
  bitmap_header : bitmap_fields out (d3_width h) (d3_height h);
  bitmap_pixels : forall y x, 0 <= y < d3_height h -> 0 <= x < d3_width h -> exists value,
    depth_at bytes (84 + (y * d3_width h + x) * 4) = Some value /\
    slice out (bmp_offset (d3_width h) (d3_height h) y x) 3 = Some (pixel_color value minimum span);
}.

Lemma pixel_color_length value minimum span : length (pixel_color value minimum span) = 3%nat.
Proof. unfold pixel_color. destruct (valid_d3img_depth value); [|done]. by destruct (depth_color _) as [[? ?] ?]. Qed.

Section Bitmap.
Context (bytes : list byte) (h : D3ImgHeader) (minimum span : f32) (Hok : d3_ok h (Z.of_nat (length bytes))).
Local Abbreviation width := (d3_width h).
Local Abbreviation height := (d3_height h).
Local Abbreviation file_size := (54 + bmp_stride width * height).

Lemma stride_bounds : width * 3 <= bmp_stride width <= width * 3 + 3.
Proof. unfold bmp_stride. pose proof (Z.div_mod (width * 3 + 3) 4 ltac:(lia)). pose proof (Z.mod_pos_bound (width * 3 + 3) 4 ltac:(lia)). lia. Qed.

Lemma pixels_exist : exists pixels, mapM (bmp_pixel bytes 84 width height (bmp_stride width) minimum span) (grid height width) = Some pixels /\
  Forall2 (fun place pixel => exists value, depth_at bytes (84 + (fst place * width + snd place) * 4) = Some value /\
     pixel = (bmp_offset width height (fst place) (snd place), pixel_color value minimum span)) (grid height width) pixels.
Proof.
  destruct (mapM_total (bmp_pixel bytes 84 width height (bmp_stride width) minimum span) (fun _ => True) (grid height width)) as (pixels & E & _ & _).
  { intros [y x] [Hy Hx]%elem_of_grid. destruct (bmp_pixel_some bytes h minimum span (bmp_stride width) y x Hok Hy Hx) as (v & _ & ->). by eexists. }
  exists pixels. split; [done|]. apply mapM_Some in E. pose proof (elem_of_grid height width) as Hin.
  assert (Hall : Forall (fun p => 0 <= fst p < height /\ 0 <= snd p < width) (grid height width)) by (apply Forall_forall; intros [y x]; by rewrite Hin).
  clear Hin. induction E as [|[y x] p l k Ep _ IH]; [constructor|]. apply Forall_cons_1 in Hall as [[Hy Hx] Hall]. constructor; [|by apply IH].
  simpl in Hy, Hx. destruct (bmp_pixel_some bytes h minimum span (bmp_stride width) y x Hok Hy Hx) as (v & Ev & E'). exists v. split; [done|].
  simpl fst. simpl snd. unfold bmp_offset. congruence.
Qed.

(** Pixels do not overlap, and lie behind the header and inside the file. *)
Lemma offsets_apart y x y' x' : 0 <= y < height -> 0 <= x < width -> 0 <= y' < height -> 0 <= x' < width -> (y, x) <> (y', x') ->
  bmp_offset width height y x + 3 <= bmp_offset width height y' x' \/ bmp_offset width height y' x' + 3 <= bmp_offset width height y x.
Proof.
  intros Hy Hx Hy' Hx' Hne. pose proof stride_bounds. unfold bmp_offset.
  destruct (Z.lt_trichotomy y y') as [|[->|]]; [right; nia| |left; nia].
  destruct (Z.lt_trichotomy x x') as [|[->|]]; [left; lia|done|right; lia].
Qed.

Lemma offset_inside y x : 0 <= y < height -> 0 <= x < width -> 54 <= bmp_offset width height y x /\ bmp_offset width height y x + 3 <= file_size.
Proof. intros Hy Hx. pose proof stride_bounds. unfold bmp_offset. nia. Qed.

Local Abbreviation header_writes := (bmp_header file_size width height (bmp_stride width * height)).

Lemma header_write_bounds w : w ∈ header_writes -> 0 <= fst w /\ fst w + Z.of_nat (length (snd w)) <= 54.
Proof.
  unfold bmp_header. rewrite !elem_of_cons, elem_of_nil. intros Hw. repeat destruct Hw as [->|Hw]; try done; cbn [fst snd]; rewrite ?length_le_split; cbn; lia.
Qed.

Lemma header_writes_apart : ForallOrdPairs (fun w w' => apart w' w) header_writes.
Proof.
  unfold bmp_header, apart. repeat first [apply FOP_nil | apply FOP_cons | apply Forall_nil_2 | apply Forall_cons_2];
    cbn [fst snd]; rewrite ?length_le_split; change (length (String.list_byte_of_string "BM")) with 2%nat; lia.
Qed.

(** What nothing is written to. *)
Definition zero_writes : list (Z * list byte) :=
  [(6, replicate 4 Byte.x00); (30, replicate 4 Byte.x00); (46, replicate 4 Byte.x00); (50, replicate 4 Byte.x00)].

Lemma zeros_hold n : 54 <= n -> Forall (holds (replicate (Z.to_nat n) Byte.x00)) zero_writes.
Proof.
  intros Hn. apply Forall_forall. intros [o v] Hw. unfold holds, slice. cbn [fst snd]. rewrite length_replicate.
  unfold zero_writes in Hw. rewrite !elem_of_cons, elem_of_nil in Hw.
  repeat destruct Hw as [[= -> ->]|Hw]; try done; cbn [length replicate]; rewrite !(proj2 (Z.leb_le _ _)) by lia; cbn [andb];
    rewrite drop_replicate, take_replicate; f_equal; (rewrite Nat.min_l by lia); done.
Qed.

Lemma zeros_apart w v : w ∈ header_writes -> v ∈ zero_writes -> apart w v.
Proof.
  unfold bmp_header, zero_writes, apart. rewrite !elem_of_cons, !elem_of_nil. intros Hw Hv.
  repeat destruct Hw as [->|Hw]; try done; repeat destruct Hv as [->|Hv]; try done; cbn [fst snd length replicate];
    rewrite ?length_le_split; change (length (String.list_byte_of_string "BM")) with 2%nat; lia.
Qed.

Lemma zero_bounds v : v ∈ zero_writes -> 0 <= fst v /\ fst v + Z.of_nat (length (snd v)) <= 54.
Proof. unfold zero_writes. rewrite !elem_of_cons, elem_of_nil. intros Hv. repeat destruct Hv as [->|Hv]; try done; cbn; lia. Qed.

Lemma field_held out o n v : 0 <= v < 2 ^ (8 * Z.of_nat n) -> holds out (o, le_split n v) -> field out o (Z.of_nat n) = Some v.
Proof.
  intros Hv Hh. unfold holds in Hh. cbn [fst snd] in Hh. rewrite length_le_split in Hh. unfold field. rewrite Hh. cbn.
  rewrite le_combine_split, Z.mod_small; [done|]. rewrite (Z.mul_comm (Z.of_nat n)). done.
Qed.

Lemma fields_held out : Z.of_nat (length out) = file_size -> file_size <= u32_max ->
  Forall (holds out) header_writes -> Forall (holds out) zero_writes -> bitmap_fields out width height.
Proof.
  intros Hlen Hfit Hh Hz. pose proof (d3_ok_width _ _ Hok). pose proof (d3_ok_height _ _ Hok). pose proof stride_bounds.
  assert (Hs : 0 <= bmp_stride width * height) by nia. unfold u32_max in Hfit.
  unfold bmp_header in Hh. unfold zero_writes in Hz. rewrite !Forall_cons in Hh. rewrite !Forall_cons in Hz. destruct_and!.
  constructor; rewrite ?Hlen; repeat split; try (apply (field_held _ _ 4); [change (2 ^ (8 * Z.of_nat 4)) with 4294967296; lia|done]); try (apply (field_held _ _ 2); [change (2 ^ (8 * Z.of_nat 2)) with 65536; lia|done]); try done.
  replace (file_size - 54) with (bmp_stride width * height) by lia. apply (field_held _ _ 4); [|done].
  change (2 ^ (8 * Z.of_nat 4)) with 4294967296. lia.
Qed.

Lemma bitmap_written : file_size <= u32_max -> exists out, bitmap_ok bytes h minimum span out /\
  (output ← write_all (replicate (Z.to_nat file_size) Byte.x00) header_writes;
   pixels ← mapM (bmp_pixel bytes 84 width height (bmp_stride width) minimum span) (grid height width);
   output ← write_all output pixels; Some (Ok output : Result (list byte) BkvImageError)) = Some (Ok out).
Proof.
  intros Hfit. destruct pixels_exist as (pixels & Ep & HF). pose proof (d3_ok_width _ _ Hok). pose proof (d3_ok_height _ _ Hok). pose proof stride_bounds as Hs.
  assert (Hsize : 54 <= file_size) by nia.
  destruct (write_all_total (replicate (Z.to_nat file_size) Byte.x00) header_writes) as (o1 & E1 & L1).
  { apply Forall_forall. intros w [Hw0 Hw1]%header_write_bounds. split; [done|]. rewrite length_replicate. lia. }
  rewrite length_replicate in L1.
  assert (Hplace : forall p, p ∈ pixels -> exists y x value, 0 <= y < height /\ 0 <= x < width /\ p = (bmp_offset width height y x, pixel_color value minimum span)).
  { intros p Hp. apply (Forall2_elem_of_r _ _ _ _ HF) in Hp as ([y x] & [Hy Hx]%elem_of_grid & v & _ & ->). by exists y, x, v. }
  destruct (write_all_total o1 pixels) as (out & E2 & L2).
  { apply Forall_forall. intros p (y & x & v & Hy & Hx & ->)%Hplace. destruct (offset_inside y x Hy Hx). unfold inside. cbn [fst snd].
    rewrite pixel_color_length, L1. lia. }
  assert (Hlen : Z.of_nat (length out) = file_size) by lia.
  exists out. split; [|by rewrite E1; cbn [mbind option_bind]; rewrite Ep; cbn [mbind option_bind]; rewrite E2].
  assert (Hkeep : forall v, fst v + Z.of_nat (length (snd v)) <= 54 -> holds o1 v -> holds out v).
  { intros v Hv. eapply write_all_keeps; [exact E2|]. apply Forall_forall. intros p (y & x & u & Hy & Hx & ->)%Hplace.
    destruct (offset_inside y x Hy Hx). right. cbn [fst]. lia. }
  constructor; [done| |].
  - apply fields_held; [done|done|..]; apply Forall_forall; intros w Hw.
    + pose proof (write_all_holds _ _ _ E1 header_writes_apart) as Hh. rewrite Forall_forall in Hh.
      apply Hkeep; [by apply header_write_bounds|by apply Hh].
    + pose proof (zeros_hold file_size Hsize) as Hz. rewrite Forall_forall in Hz. apply Hkeep; [by apply zero_bounds|].
      eapply write_all_keeps; [exact E1| |by apply Hz]. apply Forall_forall. intros w' Hw'. by apply zeros_apart.
  - intros y x Hy Hx. assert (Hin : (y, x) ∈ grid height width) by by apply elem_of_grid.
    apply (Forall2_elem_of_l _ _ _ _ HF) in Hin as (p & Hp & v & Ev & ->). exists v. split; [done|].
    assert (Hh : Forall (holds out) pixels).
    { eapply write_all_holds; [exact E2|]. eapply ordered_pairs; [apply grid_NoDup|exact HF|].
      intros [y1 x1] [y2 x2] a b [Hy1 Hx1]%elem_of_grid [Hy2 Hx2]%elem_of_grid Hne (v1 & _ & ->) (v2 & _ & ->). unfold apart. cbn [fst snd].
      rewrite !pixel_color_length. apply (offsets_apart y2 x2 y1 x1); congruence || done. }
    rewrite Forall_forall in Hh. apply Hh in Hp. unfold holds in Hp. cbn [fst snd] in Hp. by rewrite pixel_color_length in Hp.
Qed.
End Bitmap.

(** C40. The bitmap of a depth image: the conversion reads and writes in range whatever the bytes are, and its answer
    is either an error or a file that has the size and the fields of a 24-bit bitmap of the image's width and
    height and in which the pixel of every row and column, rows from the bottom and padded to four bytes,
    has the colour of the depth that the image has there (black where nothing was measured). *)
Theorem d3img_bitmap (bytes : list byte) : exists answer, d3img_to_bmp bytes = Some answer /\
  forall out, answer = Ok out -> exists h minimum maximum,
    parse_d3img_header bytes = Ok h /\
    depth_range bytes (map (fun index => d3_head_size h + index * 4) (seqZ 0 (d3_width h * d3_height h))) (S754_infinity false, S754_infinity true)
      = Some (minimum, maximum) /\
    f32_is_finite minimum = true /\ f32_is_finite maximum = true /\
    bitmap_ok bytes h minimum (f32_max (f32_sub maximum minimum) f32_epsilon) out.
Proof.
  unfold d3img_to_bmp. destruct (parse_d3img_header bytes) as [h|e] eqn:Eh; [|eexists; split; done]. pose proof (parse_header_sound _ _ _ Eh) as Hok.
  pose proof (d3_ok_width _ _ Hok). pose proof (d3_ok_height _ _ Hok). pose proof (stride_bounds h) as Hs. rewrite (d3_ok_size _ _ Hok).
  unfold checked_mul at 1. rewrite (proj2 (Z.leb_le _ _)) by (unfold u64_max; nia).
  destruct (depth_range_some bytes (map (fun i => 84 + i * 4) (seqZ 0 (d3_width h * d3_height h))) (S754_infinity false, S754_infinity true)) as ([minimum maximum] & Er).
  { apply Forall_forall. intros o (i & -> & Hi%elem_of_seqZ)%list_elem_of_fmap. pose proof (d3_ok_len _ _ Hok). lia. }
  rewrite Er. cbn [mbind option_bind]. destruct (f32_is_finite minimum) eqn:Emin; [|eexists; split; done].
  destruct (f32_is_finite maximum) eqn:Emax; [|eexists; split; done]. cbn [negb orb].
  unfold checked_mul at 1. rewrite (proj2 (Z.leb_le _ _)) by (unfold u64_max; nia). cbn [mbind option_bind].
  unfold checked_add at 1. rewrite (proj2 (Z.leb_le _ _)) by (unfold u64_max; nia). rewrite round_up_four by lia. fold (bmp_stride (d3_width h)).
  unfold checked_mul at 1. rewrite (proj2 (Z.leb_le _ _)) by (unfold u64_max; nia). cbn [mbind option_bind].
  unfold checked_add at 1. rewrite (proj2 (Z.leb_le _ _)) by (unfold u64_max; nia). cbn [mbind option_bind].
  destruct (Z.ltb_spec u32_max (54 + bmp_stride (d3_width h) * d3_height h)); [eexists; split; done|].
  destruct (bitmap_written bytes h minimum (f32_max (f32_sub maximum minimum) f32_epsilon) Hok) as (out & Hout & E); [done|].
  exists (Ok out). split; [exact E|]. intros out' [= <-]. exists h, minimum, maximum. rewrite (d3_ok_size _ _ Hok). done.
Qed.

(** ** The rows of a record *)

Section Record.
Context `{D3Files} `{NanBits} `{Trig}.

Local Abbreviation height f := (d3_height (lf_header f)).
Local Abbreviation width f := (d3_width (lf_header f)).

Definition frame_sound (f : LoadedD3Img) : Prop := exists file_len, d3_ok (lf_header f) file_len.

Lemma load_frames_sound candidates frames : load_frames candidates = Ok frames -> Forall frame_sound frames.
Proof.
  revert frames. induction candidates as [|[n path] rest IH]; intros frames; [by intros [= <-]|]. simpl. unfold load_d3img.
  destruct (d3_metadata path) as [[is_file file_len]|]; [|done]. cbn [named result_bind]. destruct (_ || _); [done|].
  destruct (d3_open_header path) as [bytes|]; [|done]. cbn [named result_bind].
  destruct (parse_d3img_header_with_file_len bytes file_len) as [h|] eqn:E; [|done]. cbn [named result_bind].
  destruct (load_frames rest) as [others|]; [|done]. intros [= <-]. constructor; [|by apply IH]. exists file_len. by eapply parse_header_sound.
Qed.

Lemma total_height_sum total frames n : total_height total frames = Some n -> n = total + fold_right Z.add 0 (map (fun f => height f) frames).
Proof.
  revert total. induction frames as [|f frames IH]; intros total; simpl; [intros [= <-]; lia|]. unfold checked_add.
  destruct (_ <=? u64_max); [|done]. cbn [mbind option_bind]. intros ->%IH. lia.
Qed.

Lemma total_height_bound total frames n : total <= u64_max -> total_height total frames = Some n -> n <= u64_max.
Proof.
  revert total. induction frames as [|f frames IH]; intros total Ht; simpl; [by intros [= <-]|]. unfold checked_add.
  destruct (Z.leb_spec (total + height f) u64_max); [|done]. by apply IH.
Qed.

(** The rows of the frames, one frame after the other: the frame, and the row in it. *)
Definition stacked (frames : list LoadedD3Img) : list (LoadedD3Img * Z) := frames ≫= fun f => pair f <$> seqZ 0 (height f).

Lemma starts_above current frames : Forall frame_sound frames -> current <= u64_max -> Forall (fun start => current <= start) (frame_start_rows current frames).
Proof.
  intros Hf. revert current. induction Hf as [|f frames [n Hok] _ IH]; intros current Hc; simpl; [constructor|]. constructor; [done|].
  pose proof (d3_ok_height _ _ Hok). eapply Forall_impl; [apply IH; unfold sat_add; lia|]. intros s. unfold sat_add. lia.
Qed.

Lemma find_app {A} (p : A -> bool) l k : List.find p (l ++ k) = match List.find p l with Some x => Some x | None => List.find p k end.
Proof. induction l as [|x l IH]; [done|]. simpl. by destruct (p x). Qed.

(** The last frame that starts at or above a row is the one that has the row. *)
Lemma find_frame frames k current row : Forall frame_sound frames ->
  current <= row < current + fold_right Z.add 0 (map (fun f => height f) frames) -> current + fold_right Z.add 0 (map (fun f => height f) frames) <= u64_max ->
  exists i start f, List.find (fun '(_, start) => start <=? row) (rev (zip (seqZ k (Z.of_nat (length frames))) (frame_start_rows current frames))) = Some (k + Z.of_nat i, start) /\
    frames !! i = Some f /\ start <= row < start + height f /\ stacked frames !! Z.to_nat (row - current) = Some (f, row - start).
Proof.
  intros Hf. revert k current. induction Hf as [|f frames [n Hok] Hf IH]; intros k current Hr Hmax; simpl in Hr; [lia|].
  pose proof (d3_ok_height _ _ Hok) as Hh. simpl fold_right in Hmax.
  assert (Hsum : 0 <= fold_right Z.add 0 (map (fun f => height f) frames)).
  { clear -Hf. induction Hf as [|g frames [n Hok] _ IH]; simpl; [done|]. pose proof (d3_ok_height _ _ Hok). lia. }
  simpl length. rewrite Nat2Z.inj_succ, seqZ_cons by lia. simpl zip. simpl rev. rewrite find_app. unfold stacked. rewrite bind_cons. fold (stacked frames).
  replace (Z.pred (Z.succ (Z.of_nat (length frames)))) with (Z.of_nat (length frames)) by lia.
  assert (Esat : sat_add u64_max current (height f) = current + height f) by (unfold sat_add; lia). rewrite Esat.
  destruct (Z.lt_ge_cases row (current + height f)) as [Hin|Hout].
  - assert (En : forall s : list Z, Forall (fun start => current + height f <= start) s -> forall ks, List.find (fun '(_, start) => start <=? row) (rev (zip ks s)) = @None (Z * Z)).
    { induction 1 as [|s0 s Hs0 _ IHs]; intros [|k0 ks]; try done. simpl. rewrite find_app, IHs. simpl. destruct (Z.leb_spec s0 row); [lia|done]. }
    rewrite En by (apply starts_above; [done|lia]). simpl List.find. rewrite (proj2 (Z.leb_le current row)) by lia.
    exists O, current, f. rewrite Z.add_0_r. split_and!; [done..|lia|lia|].
    rewrite lookup_app_l by (rewrite length_fmap, length_seqZ; lia). rewrite list_lookup_fmap, lookup_seqZ_lt by lia. cbn [fmap option_fmap option_map]. do 2 f_equal. lia.
  - destruct (IH (Z.succ k) (current + height f)) as (i & start & g & -> & Hg & Hs & Hst); [lia..|].
    exists (S i), start, g. replace (k + Z.of_nat (S i)) with (Z.succ k + Z.of_nat i) by lia. split_and!; [done..|lia|lia|].
    rewrite lookup_app_r by (rewrite length_fmap, length_seqZ; lia). rewrite length_fmap, length_seqZ. rewrite <- Hst. f_equal. lia.
Qed.

Lemma frame_starts_length current frames : length (frame_start_rows current frames) = length frames.
Proof. revert current. induction frames as [|f frames IH]; intros current; simpl; [done|]. by rewrite IH. Qed.

(** What a target row is mapped to: the row of the stacked frames that lies at its place. *)
Definition mapped (frames : list LoadedD3Img) (total target : Z) (m : Z * Z) : Prop := exists i f,
  fst m = Z.of_nat i /\ frames !! i = Some f /\ 0 <= snd m < height f /\
  stacked frames !! Z.to_nat (evenly BKV_DEPTH_SURFACE_ROWS total target) = Some (f, snd m).

Lemma row_mappings_ok camera_id frames total targets : Forall frame_sound frames ->
  total = fold_right Z.add 0 (map (fun f => height f) frames) -> 0 < total <= u64_max -> Forall (fun t => 0 <= t < BKV_DEPTH_SURFACE_ROWS) targets ->
  exists mappings, row_mappings camera_id total (frame_start_rows 0 frames) targets = Ok mappings /\ Forall2 (mapped frames total) targets mappings.
Proof.
  intros Hf Ht Hpos Hts. induction Hts as [|t targets Hr _ IH]; [by exists []|]. destruct IH as (mappings & E & HF). cbn [row_mappings]. rewrite E.
  destruct (evenly_range BKV_DEPTH_SURFACE_ROWS total t) as [He0 He1]; [done|lia|done|].
  assert (Eg : global_row total t = evenly BKV_DEPTH_SURFACE_ROWS total t) by (unfold global_row, sat_sub; rewrite Z.max_r by lia; lia).
  unfold frame_of_row. rewrite Eg, frame_starts_length.
  destruct (find_frame frames 0 0 (evenly BKV_DEPTH_SURFACE_ROWS total t) Hf) as (i & start & f & -> & Hi & Hs & Hst); [lia..|].
  cbn [result_bind]. eexists. split; [done|]. constructor; [|done]. rewrite Z.sub_0_r in Hst. unfold sat_sub. rewrite Z.max_r by lia.
  exists i, f. cbn [fst snd]. split_and!; [lia|done|lia..|done].
Qed.

(** The samples that are taken from a row of a file. *)
Definition row_read (f : LoadedD3Img) (source_row : Z) (sampled : list (option f32)) : Prop := exists row,
  d3_read (lf_source_path f) (BKV_D3_HEADER_BYTES + source_row * (width f * 4)) (width f * 4) = Ok row /\
  mapM (row_sample row (width f) BKV_DEPTH_SURFACE_COLS_PER_CAMERA) (seqZ 0 BKV_DEPTH_SURFACE_COLS_PER_CAMERA) = Some sampled.

Definition row_samples (l : list (option f32)) : Prop := length l = Z.to_nat BKV_DEPTH_SURFACE_COLS_PER_CAMERA /\ Forall sample_valid l.

Lemma row_sample_some row w c : 0 < w -> Z.of_nat (length row) = w * 4 -> 0 <= c < BKV_DEPTH_SURFACE_COLS_PER_CAMERA ->
  exists s, row_sample row w BKV_DEPTH_SURFACE_COLS_PER_CAMERA c = Some s /\ sample_valid s.
Proof.
  intros Hw Hl Hc. unfold row_sample. change (BKV_DEPTH_SURFACE_COLS_PER_CAMERA <=? 1) with false. cbv iota.
  destruct (evenly_range BKV_DEPTH_SURFACE_COLS_PER_CAMERA w c) as [Hlo Hhi]; [done..|].
  destruct (depth_at_some row (evenly BKV_DEPTH_SURFACE_COLS_PER_CAMERA w c * 4)) as (v & -> & Hv); [lia..|].
  cbn [mbind option_bind]. eexists. split; [done|]. by destruct (valid_d3img_depth v).
Qed.

Lemma read_row_ok f source_row : frame_sound f -> 0 <= source_row < height f ->
  answers (fun sampled => row_read f source_row sampled /\ row_samples sampled) (read_sampled_d3img_row f source_row BKV_DEPTH_SURFACE_COLS_PER_CAMERA).
Proof.
  intros [n Hok] Hr. pose proof (d3_ok_width _ _ Hok) as Hw. pose proof (d3_ok_height _ _ Hok). unfold read_sampled_d3img_row.
  destruct (Z.leb_spec (height f) source_row); [lia|]. unfold checked_mul. rewrite (proj2 (Z.leb_le _ _)) by (unfold u64_max; lia). cbn [mbind option_bind].
  rewrite (proj2 (Z.leb_le _ _)) by (unfold u64_max; nia). cbn [mbind option_bind]. unfold checked_add, BKV_D3_HEADER_BYTES. rewrite (proj2 (Z.leb_le _ _)) by (unfold u64_max; nia).
  destruct (d3_read _ _ _) as [row|e] eqn:Er; cbn [named run_bind]; [|done]. pose proof (d3_read_length _ _ _ _ Er) as Hl.
  destruct (mapM_total (row_sample row (width f) BKV_DEPTH_SURFACE_COLS_PER_CAMERA) sample_valid (seqZ 0 BKV_DEPTH_SURFACE_COLS_PER_CAMERA)) as (k & Ek & Hk & Hv).
  { intros c Hc%elem_of_seqZ. apply row_sample_some; lia. }
  rewrite Ek. cbn [mbind option_bind]. apply answers_ok. split; [by exists row|]. split; [|done]. by rewrite Hk, length_seqZ.
Qed.

(** What a buffer shows in a target row. *)
Definition shows (samples : list (option f32)) (target : Z) (f : LoadedD3Img) (source_row : Z) : Prop := exists sampled,
  row_read f source_row sampled /\ row_samples sampled /\ holds samples (target * BKV_DEPTH_SURFACE_COLS_PER_CAMERA, sampled).

Definition buffer_ok (samples : list (option f32)) : Prop :=
  Z.of_nat (length samples) = BKV_DEPTH_SURFACE_ROWS * BKV_DEPTH_SURFACE_COLS_PER_CAMERA /\ Forall sample_valid samples.

Lemma write_row samples target sampled : buffer_ok samples -> row_samples sampled -> 0 <= target < BKV_DEPTH_SURFACE_ROWS ->
  exists samples', write_at samples (target * BKV_DEPTH_SURFACE_COLS_PER_CAMERA) sampled = Some samples' /\ buffer_ok samples' /\
    holds samples' (target * BKV_DEPTH_SURFACE_COLS_PER_CAMERA, sampled) /\
    forall t f s, t <> target -> shows samples t f s -> shows samples' t f s.
Proof.
  intros [Hl Hv] [Hn Hs] Ht. destruct (write_at_total samples (target * BKV_DEPTH_SURFACE_COLS_PER_CAMERA, sampled)) as (samples' & E & L).
  { unfold inside, BKV_DEPTH_SURFACE_COLS_PER_CAMERA, BKV_DEPTH_SURFACE_ROWS in *. cbn [fst snd]. lia. }
  exists samples'. split_and!; [done| |by apply (write_holds samples (_, _))|].
  - split; [by rewrite L|]. cbn [fst snd] in E. unfold write_at in E. destruct (_ && _); [|done]. injection E as <-.
    apply Forall_app. split; [by apply Forall_take|]. apply Forall_app. split; [done|by apply Forall_drop].
  - intros t f s Hne (k & Hk & Hks & Hh). exists k. split_and!; [done..|]. eapply (write_keeps samples (_, _)); [exact E| |exact Hh].
    unfold apart. cbn [fst snd]. rewrite Hn, (proj1 Hks). unfold BKV_DEPTH_SURFACE_COLS_PER_CAMERA. lia.
Qed.

Lemma fill_rows_ok f rows samples : frame_sound f -> NoDup (map fst rows) ->
  Forall (fun r => 0 <= fst r < BKV_DEPTH_SURFACE_ROWS /\ 0 <= snd r < height f) rows -> buffer_ok samples ->
  answers (fun samples' => buffer_ok samples' /\ (forall t s, (t, s) ∈ rows -> shows samples' t f s) /\
    forall t g s, t ∉ map fst rows -> shows samples t g s -> shows samples' t g s) (fill_rows f rows samples).
Proof.
  intros Hf Hnd Hr. revert samples. induction Hr as [|[t s] rows [Ht Hs] _ IH]; intros samples Hb; cbn [fill_rows].
  - apply answers_ok. split_and!; [done|by intros ? ? ?%elem_of_nil|done].
  - simpl in Hnd. apply NoDup_cons in Hnd as [Hnin Hnd]. eapply answers_bind; [by apply read_row_ok|]. intros sampled [Hread Hsampled].
    destruct (write_row samples t sampled Hb Hsampled Ht) as (samples1 & -> & Hb1 & Hh & Hkeep). cbn [mbind option_bind].
    destruct (IH Hnd samples1 Hb1) as (r & -> & Hall). exists r. split; [done|]. intros samples' E. destruct (Hall samples' E) as (Hb' & Hin & Hout).
    split_and!; [done| |].
    + intros t' s' [[= -> ->]|Hin']%elem_of_cons; [|by apply Hin]. apply Hout; [done|]. by exists sampled.
    + intros t' g s' Hnin' Hsh. simpl in Hnin'. apply not_elem_of_cons in Hnin' as [Hne Hnin']. by apply Hout, Hkeep.
Qed.

Lemma elem_of_rows_of_frame index mappings t s :
  (t, s) ∈ rows_of_frame index mappings <-> exists k : nat, t = Z.of_nat k /\ mappings !! k = Some (index, s).
Proof.
  unfold rows_of_frame. rewrite list_elem_of_omap. split.
  - intros ([t' [i s']] & (k & Hk)%list_elem_of_lookup & E). apply lookup_zip_with_Some in Hk as (t'' & m & [= <- <-] & (-> & _)%lookup_seqZ & Hm).
    destruct (Z.eqb_spec i index) as [->|]; [|done]. injection E as <- <-. exists k. split; [lia|done].
  - intros (k & -> & Hk). exists (Z.of_nat k, (index, s)). rewrite Z.eqb_refl. split; [|done]. apply list_elem_of_lookup. exists k.
    apply lookup_zip_with_Some. exists (Z.of_nat k), (index, s). split_and!; [done| |done]. apply lookup_lt_Some in Hk. rewrite lookup_seqZ_lt by lia. f_equal.
Qed.

Lemma rows_of_frame_NoDup index mappings : NoDup (map fst (rows_of_frame index mappings)).
Proof.
  unfold rows_of_frame. generalize 0 as k. induction mappings as [|[i s] mappings IH]; intros k; [constructor|].
  simpl length. rewrite Nat2Z.inj_succ, seqZ_cons by lia. simpl zip. rewrite Z.pred_succ. cbn [omap list_omap]. destruct (i =? index); [|apply IH].
  simpl. apply NoDup_cons. split; [|apply IH]. intros ([t s'] & Ek & Hin)%list_elem_of_fmap. simpl in Ek. subst t.
  apply list_elem_of_omap in Hin as ([t [i' s'']] & (n & Hn)%list_elem_of_lookup & E). apply lookup_zip_with_Some in Hn as (t' & m & [= <- <-] & (-> & _)%lookup_seqZ & _).
  destruct (i' =? index); [|done]. injection E as E _. lia.
Qed.

Lemma fill_frames_ok mappings index frames samples : Forall frame_sound frames -> Z.of_nat (length mappings) = BKV_DEPTH_SURFACE_ROWS ->
  (forall (k j : nat) f s, mappings !! k = Some (index + Z.of_nat j, s) -> frames !! j = Some f -> 0 <= s < height f) -> buffer_ok samples ->
  answers (fun samples' => buffer_ok samples' /\
    (forall (k j : nat) f s, mappings !! k = Some (index + Z.of_nat j, s) -> frames !! j = Some f -> shows samples' (Z.of_nat k) f s) /\
    (forall (k : nat) i f s s', mappings !! k = Some (i, s') -> i < index -> shows samples (Z.of_nat k) f s -> shows samples' (Z.of_nat k) f s))
    (fill_frames index frames mappings samples).
Proof.
  intros Hf Hlen. revert index samples. induction Hf as [|f frames Hsound _ IH]; intros index samples Hm Hb; cbn [fill_frames].
  - apply answers_ok. split_and!; [done|by intros|done].
  - destruct (d3_open _) as [[]|e]; cbn [named run_bind]; [|done].
    eapply answers_bind; [apply (fill_rows_ok f (rows_of_frame index mappings) samples); [done|apply rows_of_frame_NoDup| |done]|].
    { apply Forall_forall. intros [t s] (k & -> & Hk)%elem_of_rows_of_frame. cbn [fst snd]. split; [apply lookup_lt_Some in Hk; lia|].
      apply (Hm k O f s); [by rewrite Z.add_0_r|done]. }
    intros samples1 (Hb1 & Hin & Hout). destruct (IH (index + 1) samples1) as (r & -> & Hall); [|done|].
    { intros k j g s Hk Hj. apply (Hm k (S j) g s); [|done]. rewrite Hk. do 2 f_equal. lia. }
    exists r. split; [done|]. intros samples' E. destruct (Hall samples' E) as (Hb' & Hnew & Hold). split_and!; [done| |].
    + intros k [|j] g s Hk Hj.
      * injection Hj as <-. rewrite Z.add_0_r in Hk. eapply Hold; [exact Hk|lia|]. apply Hin, elem_of_rows_of_frame. by exists k.
      * apply (Hnew k j g s); [|done]. rewrite Hk. do 2 f_equal. lia.
    + intros k i g s s' Hk Hi Hsh. eapply Hold; [exact Hk|lia|]. apply Hout; [|done].
      intros ([t s''] & Ek & (k' & -> & Hk')%elem_of_rows_of_frame)%list_elem_of_fmap. simpl in Ek. assert (k' = k) as -> by lia. rewrite Hk in Hk'.
      injection Hk' as ? _. lia.
Qed.

(** What a camera shows: in every row the row of its stacked frames that lies there. *)
Record camera_shows (candidates : list (Z * string)) (c : D3Camera) (frames : list LoadedD3Img) : Prop := mkCameraShows {
  shows_frames : load_frames candidates = Ok frames;
  shows_buffer : buffer_ok (dc_samples c);
  shows_baseline : median (omap id (dc_samples c)) = Some (dc_baseline c) /\ f32_valid (dc_baseline c) = true;
  shows_rows : forall target, 0 <= target < BKV_DEPTH_SURFACE_ROWS -> exists f source_row,
    stacked frames !! Z.to_nat (evenly BKV_DEPTH_SURFACE_ROWS (Z.of_nat (length (stacked frames))) target) = Some (f, source_row) /\
    shows (dc_samples c) target f source_row;
}.

Lemma stacked_length frames : Forall frame_sound frames -> Z.of_nat (length (stacked frames)) = fold_right Z.add 0 (map (fun f => height f) frames).
Proof.
  unfold stacked. induction 1 as [|f frames [n Hok] _ IH]; [done|]. rewrite bind_cons, length_app, length_fmap, length_seqZ. simpl.
  pose proof (d3_ok_height _ _ Hok). lia.
Qed.

Lemma camera_mappings camera_id frames total : Forall frame_sound frames -> total = fold_right Z.add 0 (map (fun f => height f) frames) -> 0 < total <= u64_max ->
  exists mappings, row_mappings camera_id total (frame_start_rows 0 frames) (seqZ 0 BKV_DEPTH_SURFACE_ROWS) = Ok mappings /\
    Z.of_nat (length mappings) = BKV_DEPTH_SURFACE_ROWS /\
    (forall (k j : nat) f s, mappings !! k = Some (0 + Z.of_nat j, s) -> frames !! j = Some f -> 0 <= s < height f) /\
    forall target, 0 <= target < BKV_DEPTH_SURFACE_ROWS -> exists (j : nat) f s, mappings !! Z.to_nat target = Some (0 + Z.of_nat j, s) /\ frames !! j = Some f /\
      stacked frames !! Z.to_nat (evenly BKV_DEPTH_SURFACE_ROWS total target) = Some (f, s).
Proof.
  intros Hsound Esum Hpos. destruct (row_mappings_ok camera_id frames total (seqZ 0 BKV_DEPTH_SURFACE_ROWS) Hsound Esum Hpos) as (mappings & Em & HF).
  { apply Forall_forall. intros t Ht%elem_of_seqZ. lia. }
  exists mappings. pose proof (Forall2_length _ _ _ HF) as Hlen. rewrite length_seqZ in Hlen. split_and!; [done|rewrite <- Hlen; done| |].
  - intros k j f s Hk Hj. destruct (Forall2_lookup_r _ _ _ _ _ HF Hk) as (t & _ & i & g & Ei & Hg & Hs & _). cbn [fst snd] in *.
    assert (i = j) as -> by lia. by simplify_eq.
  - intros target Ht. destruct (Forall2_lookup_l _ _ _ (Z.to_nat target) target HF) as ([fi s] & Hk & i & f & Ei & Hi & Hs & Hstk); [rewrite lookup_seqZ_lt by lia; f_equal; lia|].
    cbn [fst snd] in *. exists i, f, s. split_and!; [|done..]. rewrite Hk, Ei. done.
Qed.

Lemma empty_buffer_ok : buffer_ok (replicate (Z.to_nat (BKV_DEPTH_SURFACE_ROWS * BKV_DEPTH_SURFACE_COLS_PER_CAMERA)) None).
Proof. split; [rewrite length_replicate; apply Z2Nat.id; done|by apply Forall_replicate]. Qed.

Lemma sample_d3_camera_ok camera_id candidates directory :
  answers (fun c => exists frames, camera_shows candidates c frames) (sample_d3_camera camera_id candidates directory).
Proof.
  unfold sample_d3_camera. destruct (load_frames candidates) as [frames|e] eqn:Ef; cbn [run_bind]; [|done]. pose proof (load_frames_sound _ _ Ef) as Hsound.
  destruct (total_height 0 frames) as [total|] eqn:Et; [|done]. destruct (Z.eqb_spec total 0) as [|Hne]; [done|].
  pose proof (total_height_sum _ _ _ Et) as Esum. pose proof (total_height_bound 0 frames total ltac:(done) Et) as Hmax. rewrite Z.add_0_l in Esum.
  pose proof (stacked_length frames Hsound) as Hst. destruct (camera_mappings camera_id frames total Hsound Esum ltac:(lia)) as (mappings & Em & Hlen & Hrange & Hmapped).
  rewrite Em. cbn [run_bind]. eapply answers_bind; [apply fill_frames_ok; [done..|apply empty_buffer_ok]|].
  intros samples (Hb & Hrows & _). destruct (median (omap id samples)) as [baseline|] eqn:Emed; [|done].
  assert (Hvalid : f32_valid baseline = true).
  { destruct (median_some (omap id samples)) as (m & E & Hm); [by intros E; rewrite E in Emed|by apply omap_valid, Hb|congruence]. }
  destruct frames as [|first rest] eqn:Efr; [done|]. rewrite <- Efr in *. apply answers_ok. exists frames. constructor; [done..|].
  intros target Ht. cbn [dc_samples]. rewrite Hst, <- Esum. destruct (Hmapped target Ht) as (j & f & s & Hk & Hj & Hstk). exists f, s. split; [done|].
  replace target with (Z.of_nat (Z.to_nat target)) by lia. by eapply Hrows.
Qed.

(** A frame whose rows can be read, and that has measured something at the left of each. *)
Definition frame_reads (f : LoadedD3Img) : Prop := d3_open (lf_source_path f) = Ok tt /\
  forall source_row, 0 <= source_row < height f -> exists row value,
    d3_read (lf_source_path f) (BKV_D3_HEADER_BYTES + source_row * (width f * 4)) (width f * 4) = Ok row /\
    depth_at row 0 = Some value /\ valid_d3img_depth value = true.

Definition ok_if_answers {A} (m : Run A) : Prop := forall e, m <> Some (Err e).

Lemma ok_if_bind {A B} (P : A -> Prop) (m : Run A) (k : A -> Run B) : answers P m -> ok_if_answers m -> (forall a, P a -> m = Some (Ok a) -> ok_if_answers (k a)) -> ok_if_answers (run_bind m k).
Proof. intros (r & -> & Hr) Hm Hk. destruct r as [a|e]; [|by destruct (Hm e)]. simpl. apply Hk; [by apply Hr|done]. Qed.

Lemma read_row_succeeds f source_row : frame_sound f -> frame_reads f -> 0 <= source_row < height f ->
  ok_if_answers (read_sampled_d3img_row f source_row BKV_DEPTH_SURFACE_COLS_PER_CAMERA).
Proof.
  intros [n Hok] [_ Hread] Hr e. destruct (Hread source_row Hr) as (row & value & Er & _). pose proof (d3_ok_width _ _ Hok). pose proof (d3_ok_height _ _ Hok).
  unfold read_sampled_d3img_row. destruct (Z.leb_spec (height f) source_row); [lia|]. unfold checked_mul. rewrite (proj2 (Z.leb_le _ _)) by (unfold u64_max; lia). cbn [mbind option_bind].
  rewrite (proj2 (Z.leb_le _ _)) by (unfold u64_max; nia). cbn [mbind option_bind]. unfold checked_add, BKV_D3_HEADER_BYTES in *. rewrite (proj2 (Z.leb_le _ _)) by (unfold u64_max; nia).
  rewrite Er. cbn [named run_bind]. by destruct (mapM _ _).
Qed.

Lemma fill_rows_succeed f rows samples : frame_sound f -> frame_reads f -> Forall (fun r => 0 <= snd r < height f) rows -> ok_if_answers (fill_rows f rows samples).
Proof.
  intros Hf Hr Hrows. revert samples. induction Hrows as [|[t s] rows Hs _ IH]; intros samples; cbn [fill_rows]; [done|].
  eapply ok_if_bind; [by apply read_row_ok|by apply read_row_succeeds|]. intros sampled _ _. by destruct (write_at _ _ _); [apply IH|].
Qed.

Lemma fill_frames_succeed mappings index frames samples : Forall frame_sound frames -> Forall frame_reads frames -> Z.of_nat (length mappings) = BKV_DEPTH_SURFACE_ROWS ->
  (forall (k j : nat) f s, mappings !! k = Some (index + Z.of_nat j, s) -> frames !! j = Some f -> 0 <= s < height f) -> buffer_ok samples ->
  ok_if_answers (fill_frames index frames mappings samples).
Proof.
  intros Hf Hr Hlen. revert index samples. induction Hf as [|f frames Hsound _ IH]; intros index samples Hm Hb; cbn [fill_frames]; [done|].
  apply Forall_cons_1 in Hr as [Hrf Hr]. destruct Hrf as [Eo Hread]. rewrite Eo. cbn [named run_bind].
  assert (Hrows : Forall (fun r => 0 <= fst r < BKV_DEPTH_SURFACE_ROWS /\ 0 <= snd r < height f) (rows_of_frame index mappings)).
  { apply Forall_forall. intros [t s] (k & -> & Hk)%elem_of_rows_of_frame. cbn [fst snd]. split; [apply lookup_lt_Some in Hk; lia|].
    apply (Hm k O f s); [by rewrite Z.add_0_r|done]. }
  eapply ok_if_bind; [apply (fill_rows_ok f (rows_of_frame index mappings) samples); [done|apply rows_of_frame_NoDup|done|done]| |].
  - apply fill_rows_succeed; [done|by split|]. eapply Forall_impl; [exact Hrows|]. by intros r [].
  - intros samples1 (Hb1 & _) _. apply IH; [done| |done]. intros k j g s Hk Hj. apply (Hm k (S j) g s); [|done]. rewrite Hk. do 2 f_equal. lia.
Qed.

Lemma total_height_some total frames : Forall frame_sound frames -> total + fold_right Z.add 0 (map (fun f => height f) frames) <= u64_max ->
  total_height total frames = Some (total + fold_right Z.add 0 (map (fun f => height f) frames)).
Proof.
  intros Hf. revert total. induction Hf as [|f frames _ Hf IH]; intros total Ht; simpl in *; [by rewrite Z.add_0_r|].
  pose proof (stacked_length frames Hf). unfold checked_add. rewrite (proj2 (Z.leb_le _ _)) by lia. cbn [mbind option_bind]. rewrite IH by lia. f_equal. lia.
Qed.

(** Something was measured where such a row is shown. *)
Lemma shown_measured samples target f source_row : frame_sound f -> frame_reads f -> 0 <= source_row < height f -> shows samples target f source_row -> omap id samples <> [].
Proof.
  intros [n Hok] [_ Hread] Hs (sampled & (row & Er & Em) & _ & (a & b & -> & _)%slice_holds) E. destruct (Hread source_row Hs) as (row' & value & Er' & Ev & Hv).
  rewrite Er in Er'. injection Er' as <-. cbn [snd] in E. rewrite !omap_app in E. apply app_nil in E as [_ [E _]%app_nil].
  apply mapM_Some in Em. destruct (Forall2_lookup_l _ _ _ O 0 Em) as (x & Hx & E0); [done|]. unfold row_sample in E0.
  change (BKV_DEPTH_SURFACE_COLS_PER_CAMERA <=? 1) with false in E0. cbv iota in E0. change (evenly BKV_DEPTH_SURFACE_COLS_PER_CAMERA (width f) 0) with 0 in E0.
  change (0 * 4) with 0 in E0. rewrite Ev in E0. cbn [mbind option_bind] in E0. rewrite Hv in E0. injection E0 as <-.
  apply list_elem_of_lookup_2 in Hx. assert (Hin : value ∈ omap id sampled) by (apply list_elem_of_omap; by exists (Some value)). rewrite E in Hin. by apply elem_of_nil in Hin.
Qed.

(** A record whose files can be read is sampled. *)
Lemma sample_d3_camera_succeeds camera_id candidates directory frames : load_frames candidates = Ok frames -> frames <> [] ->
  Forall frame_reads frames -> Z.of_nat (length (stacked frames)) <= u64_max -> exists c, sample_d3_camera camera_id candidates directory = Some (Ok c).
Proof.
  intros Ef Hne Hr Hmax. pose proof (load_frames_sound _ _ Ef) as Hsound. pose proof (stacked_length frames Hsound) as Hst.
  destruct (sample_d3_camera_ok camera_id candidates directory) as (r & E & _). rewrite E. destruct r as [c|e]; [by eexists|]. exfalso. revert E.
  unfold sample_d3_camera. rewrite Ef. cbn [run_bind]. rewrite Hst in Hmax. rewrite total_height_some by (done || lia). rewrite Z.add_0_l.
  assert (Hpos : 0 < fold_right Z.add 0 (map (fun f => height f) frames)).
  { rewrite <- Hst. destruct frames as [|f frames]; [done|]. apply Forall_cons_1 in Hsound as [[n Hok] _]. pose proof (d3_ok_height _ _ Hok).
    unfold stacked. rewrite bind_cons, length_app, length_fmap, length_seqZ. lia. }
  destruct (Z.eqb_spec (fold_right Z.add 0 (map (fun f => height f) frames)) 0); [lia|].
  destruct (camera_mappings camera_id frames _ Hsound eq_refl (conj Hpos Hmax)) as (mappings & -> & Hlen & Hrange & Hmapped). cbn [run_bind].
  revert e. match goal with |- forall e, ?m = Some (Err e) -> False => change (ok_if_answers m) end.
  eapply ok_if_bind; [apply fill_frames_ok; [done..|apply empty_buffer_ok]|apply fill_frames_succeed; [done..|apply empty_buffer_ok]|].
  intros samples (Hb & Hrows & _) _ e. destruct (Hmapped 0 ltac:(done)) as (j & f & s & Hk & Hj & _).
  assert (Hs : 0 <= s < height f) by (by eapply Hrange). assert (Hf : frame_sound f /\ frame_reads f) by (rewrite Forall_forall in Hsound, Hr; split; [apply Hsound|apply Hr]; by eapply list_elem_of_lookup_2).
  destruct (median_some (omap id samples)) as (m & -> & _); [|by apply omap_valid, Hb|by destruct frames].
  eapply shown_measured; [| | |eapply Hrows; [exact Hk|exact Hj]]; apply Hf || done.
Qed.

Lemma sample_d3_cameras_ok inputs :
  answers (Forall2 (fun input c => exists frames, camera_shows (snd (fst input)) c frames) inputs) (sample_d3_cameras inputs).
Proof.
  induction inputs as [|[[camera_id candidates] directory] inputs IH]; cbn [sample_d3_cameras]; [by apply answers_ok|].
  eapply answers_bind; [apply sample_d3_camera_ok|]. intros c Hc. eapply answers_bind; [apply IH|]. intros cs Hcs. apply answers_ok. by constructor.
Qed.

(** ** The surface *)

Definition d3_camera_ok (c : D3Camera) : Prop := buffer_ok (dc_samples c) /\ f32_valid (dc_baseline c) = true.

Lemma d3_residuals_valid cameras : Forall d3_camera_ok cameras -> all_valid (d3_residuals cameras).
Proof.
  unfold d3_residuals, all_valid. induction 1 as [|c cameras [[_ Hv] Hb] _ IH]; [constructor|]. rewrite bind_cons. apply Forall_app. split; [|done].
  apply Forall_map. eapply Forall_impl; [apply omap_valid, Hv|]. intros x Hx. simpl. auto with f32.
Qed.

Section Vertices.
Context (cameras : list D3Camera) (robust display_scale : f32) (Hcameras : Forall d3_camera_ok cameras)
  (Hrobust : f32_valid robust = true) (Hscale : f32_valid display_scale = true).
Local Abbreviation columns := (BKV_DEPTH_SURFACE_COLS_PER_CAMERA * Z.of_nat (length cameras)).
Local Abbreviation vertex place := (d3_vertex_at cameras robust display_scale columns place).

Lemma d3_vertex_ok row column : 0 <= row < BKV_DEPTH_SURFACE_ROWS -> 0 <= column < columns -> exists v, vertex (row, column) = Some v /\ vertex_ok v.
Proof.
  intros Hrow Hcolumn. unfold d3_vertex_at, BKV_DEPTH_SURFACE_COLS_PER_CAMERA in *. pose proof (Z.mod_pos_bound column 64 ltac:(done)) as Hmod.
  destruct (at_index_ok _ _ (column / 64) Hcameras) as (camera & -> & [Hlen Hv] & Hb).
  { split; [apply Z.div_pos; lia|apply Z.div_lt_upper_bound; lia]. }
  cbn [mbind option_bind].
  destruct (at_index_ok _ (dc_samples camera) (row * 64 + column `mod` 64) Hv) as (sample & -> & Hs).
  { unfold BKV_DEPTH_SURFACE_ROWS, BKV_DEPTH_SURFACE_COLS_PER_CAMERA in *. lia. }
  cbn [mbind option_bind]. eexists. split; [done|]. pose proof (vertex_angle_valid column (64 * Z.of_nat (length cameras))).
  assert (Hres : f32_valid (match sample with Some value => f32_sub value (dc_baseline camera) | None => f32_zero end) = true)
    by (destruct sample; [auto with f32|done]).
  constructor; cbn [v_position v_uv v_color]; [done..|apply vertex_color_length|].
  unfold all_valid. rewrite !Forall_app. split_and!; [..|by apply vertex_color_valid]; repeat constructor; auto 12 using f32_cos_valid, f32_sin_valid with f32.
Qed.

(** Vertices that the grid gives, one for each position, row by row. *)
Definition d3_vertices (vertices : list Vertex) : Prop := Forall2 (fun place v => vertex place = Some v) (grid BKV_DEPTH_SURFACE_ROWS columns) vertices.

Lemma d3_vertices_exist : exists vertices, mapM (d3_vertex_at cameras robust display_scale columns) (grid BKV_DEPTH_SURFACE_ROWS columns) = Some vertices /\
  d3_vertices vertices /\ Forall vertex_ok vertices /\ Z.of_nat (length vertices) = BKV_DEPTH_SURFACE_ROWS * columns.
Proof.
  destruct (mapM_total (d3_vertex_at cameras robust display_scale columns) vertex_ok (grid BKV_DEPTH_SURFACE_ROWS columns)) as (vs & E & Hlen & Hvs).
  { intros [r c] [Hr Hc]%elem_of_grid. by apply d3_vertex_ok. }
  exists vs. split_and!; [done|by apply mapM_Some|done|]. rewrite Hlen, grid_length. unfold BKV_DEPTH_SURFACE_ROWS, BKV_DEPTH_SURFACE_COLS_PER_CAMERA. lia.
Qed.
End Vertices.

Definition d3_mesh (cameras : Z) (vertices : list Vertex) : Mesh :=
  let columns := BKV_DEPTH_SURFACE_COLS_PER_CAMERA * cameras in
  mkMesh BKV_DEPTH_SURFACE_ROWS BKV_DEPTH_SURFACE_COLS_PER_CAMERA cameras 0 (vertices ≫= v_position) (vertices ≫= v_uv) (vertices ≫= v_color)
    (grid_indices BKV_DEPTH_SURFACE_ROWS columns) (Some (map v_valid vertices)) (Some (replicate (Z.to_nat (BKV_DEPTH_SURFACE_ROWS * columns)) Byte.x00)).

(** Everything a vertex is written with. *)
Definition vertex_values (v : Vertex) : list f32 := v_position v ++ v_uv v ++ v_color v.
End Record.

(** ** Encoding *)

Lemma collect_values_map {A} (read : Value -> option A) error (write : A -> Value) (ok : A -> bool) l :
  Forall (fun a => read (write a) = if ok a then Some a else None) l -> collect_values read error (map write l) = if forallb ok l then Ok l else Err error.
Proof. induction 1 as [|a l Ha _ IH]; [done|]. simpl. rewrite Ha, IH. by destruct (ok a), (forallb ok l). Qed.

Lemma read_jf32 x : f32_valid x = true ->
  filter_opt f32_is_finite (option_map f32_of_f64 (as_f64 (jf32 x))) = if f32_is_finite x then Some x else None.
Proof.
  intros Hv. pose proof (f32_f64_round_trip x Hv) as E. unfold jf32. destruct (f64_of_f32 x) as [s|s| |s m e] eqn:E64; simpl in E.
  - by subst x.
  - by subst x.
  - by subst x.
  - simpl. rewrite E. by destruct x.
Qed.

Lemma read_jint bound z : 0 <= z -> filter_opt (fun z => z <=? bound) (as_u64 (jint z)) = if z <=? bound then Some z else None.
Proof. intros Hz. unfold jint. destruct (Z.ltb_spec z 0); [lia|done]. Qed.

Section Encoding.
Context `{NanBits} (record_id created_at_ms : Z) (cameras : list D3Camera) (robust display_scale : f32) (vertices : list Vertex).
Local Abbreviation camera_count := (Z.of_nat (length cameras)).
Local Abbreviation columns := (BKV_DEPTH_SURFACE_COLS_PER_CAMERA * camera_count).
Context (Hvs : Forall vertex_ok vertices) (Hlen : Z.of_nat (length vertices) = BKV_DEPTH_SURFACE_ROWS * columns).
Local Abbreviation surface := (d3_surface_value record_id created_at_ms cameras robust display_scale vertices columns).

Lemma read_floats_field (f : Vertex -> list f32) name : jget name surface = Some (JArray (map jf32 (vertices ≫= f))) ->
  Forall (fun v => all_valid (f v)) vertices ->
  surface_f32_values surface name =
    if forallb f32_is_finite (vertices ≫= f) then Ok (vertices ≫= f) else Err ("D3IMG surface " +:+ name +:+ " contains an invalid " +:+ "number").
Proof.
  intros E Hv. unfold surface_f32_values, surface_values. rewrite E. apply collect_values_map.
  eapply Forall_impl; [apply bind_valid, Hv|]. intros x Hx. by apply read_jf32.
Qed.

Lemma read_ints_field what name bound l : jget name surface = Some (JArray (map jint l)) -> Forall (fun z => 0 <= z <= bound) l ->
  surface_values (fun value => filter_opt (fun z => z <=? bound) (as_u64 value)) what name surface = Ok l.
Proof.
  intros E Hl. unfold surface_values. rewrite E, (collect_values_map _ _ _ (fun z => z <=? bound)).
  - destruct (forallb _ l) eqn:Ef; [done|]. exfalso. apply not_true_iff_false in Ef. apply Ef, forallb_forall. intros z Hz%list_elem_of_In.
    rewrite Forall_forall in Hl. apply Z.leb_le, (Hl z Hz).
  - eapply Forall_impl; [exact Hl|]. intros z [Hz _]. by apply read_jint.
Qed.

Lemma vertex_lists : length (vertices ≫= v_position) = (length vertices * 3)%nat /\ length (vertices ≫= v_uv) = (length vertices * 2)%nat /\
  length (vertices ≫= v_color) = (length vertices * 3)%nat /\
  Forall (fun v => all_valid (v_position v)) vertices /\ Forall (fun v => all_valid (v_uv v)) vertices /\ Forall (fun v => all_valid (v_color v)) vertices.
Proof.
  split_and!; try apply bind_length; (eapply Forall_impl; [exact Hvs|]); intros v [Hp Hu Hc Hf]; try done;
    unfold all_valid in Hf |- *; rewrite !Forall_app in Hf; apply Hf.
Qed.

Lemma d3_mesh_fits : camera_count <= 10933 -> mesh_ok (d3_mesh camera_count vertices) (map v_valid vertices) (replicate (Z.to_nat (BKV_DEPTH_SURFACE_ROWS * columns)) Byte.x00).
Proof.
  intros Hn. destruct vertex_lists as (Hp & Hu & Hc & Hvp & Hvu & Hvc). pose proof (grid_indices_length BKV_DEPTH_SURFACE_ROWS columns) as Hil.
  constructor; cbn [d3_mesh mesh_rows mesh_cols_per_camera mesh_camera_count mesh_calibrated_count mesh_positions mesh_uvs mesh_colors mesh_indices mesh_valid mesh_calibrated];
    rewrite ?length_map, ?length_replicate; [done|done|lia|done|done|done| | |]; unfold BKV_DEPTH_SURFACE_ROWS, BKV_DEPTH_SURFACE_COLS_PER_CAMERA in *.
  - rewrite !Forall_app. split_and!; by apply bind_valid.
  - apply Forall_forall. intros i Hi%grid_indices_range. unfold word_ok. lia.
  - unfold word_ok. repeat constructor; lia.
Qed.

Lemma map_replicate {X Y} (f : X -> Y) n x : map f (replicate n x) = replicate n (f x).
Proof. apply (fmap_replicate f n x). Qed.

Lemma byte_round_trip l : map byte.of_Z (map byte.unsigned l) = l.
Proof. induction l as [|b l IH]; [done|]. simpl. by rewrite byte.of_Z_unsigned, IH. Qed.

(** A surface all of whose numbers are finite is encoded, and reads back as the mesh of its vertices. *)
Lemma encode_d3_surface : 0 < camera_count <= 10933 ->
  if forallb f32_is_finite (vertices ≫= v_position) && forallb f32_is_finite (vertices ≫= v_uv) && forallb f32_is_finite (vertices ≫= v_color)
  then exists binary, encode_d3img_surface_bsmesh surface = Ok binary /\ read_mesh binary = Some (d3_mesh camera_count vertices)
  else exists e, encode_d3img_surface_bsmesh surface = Err e.
Proof.
  intros Hn. destruct vertex_lists as (Hp & Hu & Hc & Hvp & Hvu & Hvc). pose proof (d3_mesh_fits ltac:(lia)) as Hfit.
  unfold encode_d3img_surface_bsmesh.
  rewrite (read_floats_field v_position "positions" eq_refl Hvp). destruct (forallb f32_is_finite (vertices ≫= v_position)); [|by eexists]. cbn [result_bind andb].
  rewrite Hp, Nat2Z.inj_mul. change (Z.of_nat 3) with 3. rewrite Z.mod_mul, Z.div_mul by done. change (negb (0 =? 0)) with false. cbv iota.
  rewrite (read_floats_field v_uv "uvs" eq_refl Hvu). destruct (forallb f32_is_finite (vertices ≫= v_uv)); [|by eexists]. cbn [result_bind andb].
  rewrite (read_floats_field v_color "colors" eq_refl Hvc). destruct (forallb f32_is_finite (vertices ≫= v_color)); [|by eexists]. cbn [result_bind].
  pose proof (grid_indices_length BKV_DEPTH_SURFACE_ROWS columns) as Hil. pose proof (grid_indices_range BKV_DEPTH_SURFACE_ROWS columns) as Hir.
  unfold surface_u32_values. rewrite (read_ints_field _ "indices" u32_max (grid_indices BKV_DEPTH_SURFACE_ROWS columns) eq_refl).
  2:{ apply Forall_forall. intros z Hz%Hir. unfold u32_max, BKV_DEPTH_SURFACE_ROWS, BKV_DEPTH_SURFACE_COLS_PER_CAMERA in *. lia. }
  cbn [result_bind]. unfold surface_u8_values. rewrite (read_ints_field _ "validMask" 255 (map byte.unsigned (map v_valid vertices))).
  2:{ rewrite map_map, map_map. reflexivity. }
  2:{ rewrite map_map. apply Forall_map, Forall_forall. intros v _. simpl. pose proof (byte.unsigned_range (v_valid v)). lia. }
  cbn [result_bind]. rewrite (read_ints_field _ "calibratedMask" 255 (replicate (Z.to_nat (BKV_DEPTH_SURFACE_ROWS * columns)) 0)).
  2:{ rewrite map_replicate. reflexivity. }
  2:{ by apply Forall_replicate. }
  cbn [result_bind]. rewrite !length_map, length_replicate, Hu, Hc, !Nat2Z.inj_mul, Z2Nat.id, <- Hlen by lia.
  change (Z.of_nat 3) with 3. change (Z.of_nat 2) with 2. rewrite !Z.eqb_refl. cbn [negb orb].
  unfold surface_u32. change (jget "rows" surface) with (Some (jint BKV_DEPTH_SURFACE_ROWS)).
  change (jget "colsPerCamera" surface) with (Some (jint BKV_DEPTH_SURFACE_COLS_PER_CAMERA)). change (jget "cameraCount" surface) with (Some (jint camera_count)).
  cbn [mbind option_bind]. rewrite !read_jint by (unfold BKV_DEPTH_SURFACE_ROWS, BKV_DEPTH_SURFACE_COLS_PER_CAMERA; lia).
  rewrite !(proj2 (Z.leb_le _ _)) by (unfold u32_max, BKV_DEPTH_SURFACE_ROWS, BKV_DEPTH_SURFACE_COLS_PER_CAMERA; lia). cbn [result_bind].
  rewrite !(proj2 (Z.ltb_ge _ _)) by (unfold u32_max, BKV_DEPTH_SURFACE_ROWS, BKV_DEPTH_SURFACE_COLS_PER_CAMERA in *; lia).
  eexists. split; [done|]. rewrite <- (read_mesh_bytes _ _ _ Hfit). unfold mesh_bytes. rewrite length_map, byte_round_trip, map_replicate.
  replace (byte.of_Z 0) with Byte.x00 by reflexivity. rewrite <- Hlen. done.
Qed.
End Encoding.

(** ** Theorems *)

Section Theorems.
Context `{D3Files} `{NanBits} `{Trig}.

(** C39. Rows of a record: the samples a camera keeps are, in every target row, those of the row of its frames
    laid one after the other that lies evenly at that place, whatever the heights of the frames are; the
    first and the last row of the record are shown. Reading goes by frame, so that every file is opened
    once, and never asks for a row or a column that a file does not have. *)
Theorem d3img_camera_rows (camera_id : Z) (candidates : list (Z * string)) (directory : string) :
  exists r, sample_d3_camera camera_id candidates directory = Some r /\
    forall c, r = Ok c -> exists frames, load_frames candidates = Ok frames /\
      (forall target, 0 <= target < BKV_DEPTH_SURFACE_ROWS -> exists f source_row,
        stacked frames !! Z.to_nat (evenly BKV_DEPTH_SURFACE_ROWS (Z.of_nat (length (stacked frames))) target) = Some (f, source_row) /\
        shows (dc_samples c) target f source_row) /\
      evenly BKV_DEPTH_SURFACE_ROWS (Z.of_nat (length (stacked frames))) 0 = 0 /\
      evenly BKV_DEPTH_SURFACE_ROWS (Z.of_nat (length (stacked frames))) (BKV_DEPTH_SURFACE_ROWS - 1) = Z.of_nat (length (stacked frames)) - 1.
Proof.
  destruct (sample_d3_camera_ok camera_id candidates directory) as (r & -> & Hr). exists r. split; [done|]. intros c E.
  destruct (Hr c E) as (frames & [Hf _ _ Hrows]). exists frames. split_and!; [done|done|by apply evenly_ends..].
Qed.

Lemma build_d3_answers created_at_ms sequence camera_inputs : answers (fun surface => exists cameras robust vertices,
    let columns := BKV_DEPTH_SURFACE_COLS_PER_CAMERA * Z.of_nat (length cameras) in
    Forall2 (fun input c => exists frames, camera_shows (snd (fst input)) c frames) camera_inputs cameras /\ (0 < length cameras)%nat /\
    d3_vertices cameras robust (f32_div (f32_ratio 18 100) robust) vertices /\ robust = robust_residual (d3_residuals cameras) /\
    Forall vertex_ok vertices /\ Z.of_nat (length vertices) = BKV_DEPTH_SURFACE_ROWS * columns /\
    fst surface = d3_surface_value sequence created_at_ms cameras robust (f32_div (f32_ratio 18 100) robust) vertices columns)
  (build_d3img_surface created_at_ms sequence camera_inputs).
Proof.
  unfold build_d3img_surface. destruct camera_inputs as [|input inputs] eqn:Ei; [done|]. rewrite <- Ei.
  destruct (List.find no_frames camera_inputs) as [[[? ?] ?]|]; [done|]. unfold checked_mul at 1. destruct (_ <=? u64_max); [|done].
  eapply answers_bind; [apply sample_d3_cameras_ok|]. intros cameras HF. pose proof (Forall2_length _ _ _ HF) as Hlen. rewrite Hlen.
  unfold checked_mul at 1. destruct (_ <=? u64_max); [|done].
  assert (Hok : Forall d3_camera_ok cameras).
  { apply Forall_forall. intros c Hc. destruct (Forall2_elem_of_r _ _ _ _ HF Hc) as (i & _ & frames & [_ Hb [_ Hv] _]). by split. }
  pose proof (robust_residual_valid _ (d3_residuals_valid _ Hok)) as Hrobust.
  destruct (d3_vertices_exist cameras (robust_residual (d3_residuals cameras)) (f32_div (f32_ratio 18 100) (robust_residual (d3_residuals cameras))) Hok Hrobust)
    as (vertices & -> & Hvs & Hvok & Hvlen); [auto with f32|]. cbn [mbind option_bind].
  destruct (negb _); [done|]. apply answers_ok. exists cameras, (robust_residual (d3_residuals cameras)), vertices.
  split_and!; [done| |done..]. rewrite Ei in Hlen. simpl in Hlen. lia.
Qed.

(** C38. The surface of a record: it is built without indexing out of range, whatever the files hold. Its
    vertices are those of the samples of its cameras; and where its numbers are all finite (and there are
    at most 10,933 cameras, so that the counts fit 32 bits) it is encoded, through the JSON value that is
    kept of it, to a mesh that reads back with the same vertices bit for bit, and is closed around the bar. *)
Theorem d3img_surface_is_read_back (created_at_ms sequence : Z) (camera_inputs : list (Z * list (Z * string) * string)) :
  Z.of_nat (length camera_inputs) <= 10933 ->
  exists r, build_d3img_surface created_at_ms sequence camera_inputs = Some r /\
    forall surface frame_count, r = Ok (surface, frame_count) -> exists cameras robust vertices,
      Forall2 (fun input c => exists frames, camera_shows (snd (fst input)) c frames) camera_inputs cameras /\
      d3_vertices cameras robust (f32_div (f32_ratio 18 100) robust) vertices /\ robust = robust_residual (d3_residuals cameras) /\
      if forallb (fun v => forallb f32_is_finite (vertex_values v)) vertices
      then exists binary mesh, encode_d3img_surface_bsmesh surface = Ok binary /\ read_mesh binary = Some mesh /\
        mesh = d3_mesh (Z.of_nat (length camera_inputs)) vertices /\
        closed_surface (mesh_rows mesh) (mesh_cols_per_camera mesh * mesh_camera_count mesh) (mesh_indices mesh)
      else exists e, encode_d3img_surface_bsmesh surface = Err e.
Proof.
  intros Hn. destruct (build_d3_answers created_at_ms sequence camera_inputs) as (r & -> & Hr). exists r. split; [done|]. intros surface n E.
  destruct (Hr _ E) as (cameras & robust & vertices & HF & Hpos & Hvs & Hrob & Hok & Hlen & Es). exists cameras, robust, vertices. split_and!; [done..|].
  pose proof (Forall2_length _ _ _ HF) as Hcl. simpl in Es. subst surface. rewrite Hcl in Hn |- *.
  pose proof (encode_d3_surface sequence created_at_ms cameras robust (f32_div (f32_ratio 18 100) robust) vertices Hok Hlen ltac:(lia)) as He.
  replace (forallb f32_is_finite (vertices ≫= v_position) && forallb f32_is_finite (vertices ≫= v_uv) && forallb f32_is_finite (vertices ≫= v_color))
    with (forallb (fun v => forallb f32_is_finite (vertex_values v)) vertices) in He.
  - destruct (forallb _ vertices); [|done]. destruct He as (binary & Eb & Em). exists binary, (d3_mesh (Z.of_nat (length cameras)) vertices).
    split_and!; [done..|]. cbn [d3_mesh mesh_rows mesh_cols_per_camera mesh_camera_count mesh_indices].
    apply grid_indices_closed; unfold BKV_DEPTH_SURFACE_ROWS, BKV_DEPTH_SURFACE_COLS_PER_CAMERA; lia.
  - clear. induction vertices as [|v vs IH]; [done|]. rewrite !bind_cons, !forallb_app. simpl. unfold vertex_values at 1. rewrite !forallb_app, IH.
    by destruct (forallb f32_is_finite (v_position v)), (forallb f32_is_finite (v_uv v)), (forallb f32_is_finite (v_color v)), (forallb f32_is_finite (vs ≫= v_position)), (forallb f32_is_finite (vs ≫= v_uv)).
Qed.
End Theorems.

(** The items at strictly growing places are a part of a list in its order. *)
Lemma sublist_positions {A} (l : list A) base places xs : StronglySorted Z.lt places -> Forall (fun i => base <= i) places ->
  Forall2 (fun i x => at_index l (i - base) = Some x) places xs -> xs `sublist_of` l.
Proof.
  revert base places xs. induction l as [|a l IH]; intros base places xs Hs Hb HF.
  - destruct HF as [|i x places xs Hx _]; [done|]. unfold at_index in Hx. by destruct (_ <? 0).
  - assert (Hshift : forall places xs, Forall (fun i => base + 1 <= i) places -> Forall2 (fun i x => at_index (a :: l) (i - base) = Some x) places xs ->
      Forall2 (fun i x => at_index l (i - (base + 1)) = Some x) places xs).
    { clear. intros places xs Hp. induction 1 as [|i x places xs Hx _ IH]; [constructor|]. apply Forall_cons_1 in Hp as [Hi Hp]. constructor; [|by apply IH].
      revert Hx. unfold at_index. destruct (Z.ltb_spec (i - base) 0), (Z.ltb_spec (i - (base + 1)) 0); try lia.
      by replace (Z.to_nat (i - base)) with (S (Z.to_nat (i - (base + 1)))) by lia. }
    destruct HF as [|i x places xs Hx HF]; [apply sublist_nil_l|]. apply StronglySorted_inv in Hs as [Hs Hi]. apply Forall_cons_1 in Hb as [Hbi Hb].
    destruct (Z.eq_dec i base) as [->|Hne].
    + rewrite Z.sub_diag in Hx. injection Hx as <-. apply sublist_skip.
      assert (Hb' : Forall (fun i => base + 1 <= i) places) by (eapply Forall_impl; [exact Hi|]; simpl; lia). eauto.
    + assert (Hb' : Forall (fun j => base + 1 <= j) (i :: places)) by (constructor; [lia|]; eapply Forall_impl; [exact Hi|]; simpl; lia).
      apply sublist_cons. apply (IH (base + 1) (i :: places)); [by constructor|done|]. apply Hshift; [done|by constructor].
Qed.

Lemma StronglySorted_fmap {A B} (R : relation A) (S : relation B) (f : A -> B) l :
  (forall x y, R x y -> S (f x) (f y)) -> StronglySorted R l -> StronglySorted S (f <$> l).
Proof. intros Hf. induction 1 as [|x l _ IH Hx]; constructor; [done|]. apply Forall_fmap. eapply Forall_impl; [exact Hx|]. intros y. apply Hf. Qed.

Lemma StronglySorted_seqZ start n : StronglySorted Z.lt (seqZ start n).
Proof.
  destruct (Z.le_gt_cases 0 n) as [Hn|]; [|rewrite seqZ_nil by lia; constructor]. revert start. apply (natlike_ind (fun n => forall start, StronglySorted Z.lt (seqZ start n))); [|clear n Hn; intros n Hn IH start|done].
  - intros start. rewrite seqZ_nil by lia. constructor.
  - rewrite seqZ_cons by lia. rewrite Z.pred_succ. constructor; [apply IH|]. apply Forall_forall. intros k Hk%elem_of_seqZ. lia.
Qed.

(** Frames of a record: of more frames than fit, as many as fit are kept, at places that grow strictly
    from the first to the last, so that none is taken twice; otherwise all of them are. *)
Theorem frame_sampling (candidates : list (Z * string)) (maximum : Z) : 1 < maximum ->
  exists sampled, evenly_sample_frame_paths candidates maximum = Some sampled /\
    if Z.of_nat (length candidates) <=? maximum then sampled = candidates
    else Z.of_nat (length sampled) = maximum /\ sampled `sublist_of` candidates /\ head sampled = head candidates /\ last sampled = last candidates.
Proof.
  intros Hm. unfold evenly_sample_frame_paths. set (n := Z.of_nat (length candidates)). destruct (Z.leb_spec n maximum) as [|Hn]; [by eexists|].
  destruct (Z.eqb_spec maximum 0); [lia|]. destruct (Z.eqb_spec maximum 1); [lia|]. cbn [orb].
  destruct (mapM_total (fun index => at_index candidates (evenly maximum n index)) (fun _ => True) (seqZ 0 maximum)) as (sampled & E & Hlen & _).
  { intros k Hk%elem_of_seqZ. destruct (at_index_some candidates (evenly maximum n k)) as (x & Ex & _); [apply evenly_range; lia|]. by exists x. }
  exists sampled. rewrite length_seqZ in Hlen. split; [done|]. apply mapM_Some in E. destruct (evenly_ends maximum n ltac:(lia)) as [Hfirst Hlast].
  assert (Hat : forall k, 0 <= k < maximum -> sampled !! Z.to_nat k = candidates !! Z.to_nat (evenly maximum n k)).
  { intros k Hk. destruct (Forall2_lookup_l _ _ _ (Z.to_nat k) k E) as (x & -> & Hx); [rewrite lookup_seqZ_lt by lia; f_equal; lia|].
    symmetry. revert Hx. unfold at_index. destruct (evenly_range maximum n k) as [He _]; [lia..|]. by destruct (Z.ltb_spec (evenly maximum n k) 0); [lia|]. }
  split_and!; [lia| | |].
  - apply (sublist_positions candidates 0 (evenly maximum n <$> seqZ 0 maximum)).
    + apply (StronglySorted_fmap Z.lt); [|apply StronglySorted_seqZ]. intros x y. apply evenly_strict. lia.
    + apply Forall_fmap, Forall_forall. intros k Hk%elem_of_seqZ. apply evenly_range; lia.
    + apply Forall2_fmap_l. eapply Forall2_impl; [exact E|]. intros k x Hx. simpl. by rewrite Z.sub_0_r.
  - rewrite !head_lookup. change O with (Z.to_nat 0) at 1. rewrite Hat, Hfirst by lia. done.
  - rewrite !last_lookup. replace (Nat.pred (length sampled)) with (Z.to_nat (maximum - 1)) by lia. rewrite Hat, Hlast by lia. f_equal. lia.
Qed.
