(* ===== verification/D3imgRuns.v ===== *)
(** * D3IMG images on concrete files

    The theorems of [D3imgFacts] at work on a record of two small frames. *)

From S2P Require Import Prelude Json Http DeviceGuard Float64 Float32 MeshFormat SurfaceGrid NpzSurface NpzFacts NpzRuns D3img D3imgFacts.
From Stdlib Require Import SpecFloat Ascii.
From coqutil Require Import Byte Word.LittleEndianList.

Module D3Run.
Import NpzRun.

(** The header of an image of two columns and three rows. *)
Definition bar_header : list byte :=
  d3_magic ++ le_split 2 84 ++ words_bytes [7; 0; 0; 2; 3] ++ le_split 4 0x3f800000 ++ words_bytes [0; 2; 0; 3; 0]
  ++ [Byte.x01; Byte.x00; Byte.x04] ++ replicate 29 Byte.x00.

(** Ten everywhere. *)
Definition bar_read (_ : string) (_ n : Z) : Result (list byte) string :=
  if (0 <=? n) && (n `mod` 4 =? 0) then Ok (replicate (Z.to_nat (n / 4)) (le_split 4 0x41200000) ≫= id) else Err "unaligned".

Lemma bar_read_length path offset n l : bar_read path offset n = Ok l -> Z.of_nat (length l) = n.
Proof.
  unfold bar_read. destruct (_ && _) eqn:E; [|done]. bool_facts. intros [= <-].
  rewrite (bind_length _ 4); [rewrite length_replicate; pose proof (Z.div_mod n 4); lia|]. apply Forall_replicate. apply length_le_split.
Qed.

Lemma bar_header_length (path : string) l : Ok bar_header = @Ok _ string l -> Z.of_nat (length l) = BKV_D3_HEADER_BYTES.
Proof. by intros [= <-]. Qed.

#[export] Instance bar_files : D3Files := {|
  d3_metadata _ := Ok (true, 84 + 2 * 3 * 4); d3_open_header _ := Ok bar_header; d3_open _ := Ok tt; d3_read := bar_read;
  d3_open_header_length := bar_header_length; d3_read_length := bar_read_length;
|}.

Definition bar_frames : list (Z * string) := [(1, "camera1/0001.d3img"); (2, "camera1/0002.d3img")].

Lemma bar_reads f : d3_width (lf_header f) = 2 -> frame_reads f.
Proof.
  intros Hw. split; [done|]. intros row _. rewrite Hw. exists (le_split 4 0x41200000 ++ le_split 4 0x41200000), (f32_of_Z 10).
  split_and!; [reflexivity|vm_compute; reflexivity|vm_compute; reflexivity].
Qed.

Lemma bar_builds : exists surface, build_d3img_surface 0 42 [(1, bar_frames, "camera1")] = Some (Ok surface).
Proof.
  assert (Hs : exists c, sample_d3_camera 1 bar_frames "camera1" = Some (Ok c)).
  { destruct (load_frames bar_frames) as [frames|] eqn:Ef; [|vm_compute in Ef; done].
    apply (sample_d3_camera_succeeds 1 bar_frames "camera1" frames); [done|vm_compute in Ef; by injection Ef as <-..| |].
    - apply Forall_forall. intros f Hf. apply bar_reads. revert f Hf. apply Forall_forall. vm_compute in Ef. injection Ef as <-. by repeat constructor.
    - vm_compute in Ef. injection Ef as <-. vm_compute. done. }
  destruct Hs as [c Es]. destruct (build_d3_answers 0 42 [(1, bar_frames, "camera1")]) as (r & E & _). rewrite E. destruct r as [s|e]; [exists s; reflexivity|].
  exfalso. revert E. unfold build_d3img_surface. simpl List.find. cbn [sample_d3_cameras]. rewrite Es.
  change (checked_mul u64_max BKV_DEPTH_SURFACE_COLS_PER_CAMERA (Z.of_nat (length [(1, bar_frames, "camera1")]))) with (Some 64).
  cbn [run_bind]. change (checked_mul u64_max BKV_DEPTH_SURFACE_ROWS 64) with (Some 65536). cbv iota. destruct (mapM _ _); [|done]. cbn [mbind option_bind].
  destruct (forallb _ _) eqn:Ei; cbn [negb]; [discriminate|]. intros _. apply not_true_iff_false in Ei. apply Ei, forallb_forall.
  intros i Hi. apply list_elem_of_In, grid_indices_range in Hi. apply Z.leb_le. unfold u32_max, BKV_DEPTH_SURFACE_ROWS in *. lia.
Qed.

(** A row of two pixels, the second of which has not measured. *)
Definition tiny_image : list byte :=
  d3_magic ++ le_split 2 84 ++ words_bytes [7; 0; 0; 2; 1] ++ le_split 4 0x3f800000 ++ words_bytes [0; 2; 0; 1; 0]
  ++ [Byte.x01; Byte.x00; Byte.x04] ++ replicate 29 Byte.x00 ++ le_split 4 0x41200000 ++ f32_to_le_bytes BKV_D3_INVALID_DEPTH.

(** Its bitmap: 54 bytes of header, a dark blue pixel, a black one and the padding. *)
Lemma tiny_bitmap : option_map (fun r => match r with Ok out => (length out, drop 54 out) | Err _ => (O, []) end) (d3img_to_bmp tiny_image)
  = Some (62%nat, [Byte.x80; Byte.x00; Byte.x00; Byte.x00; Byte.x00; Byte.x00; Byte.x00; Byte.x00]).
Proof. vm_compute. reflexivity. Qed.

Lemma d3img_surface_is_read_back_witness : exists surface frame_count,
  build_d3img_surface 0 42 [(1, bar_frames, "camera1")] = Some (Ok (surface, frame_count)) /\
  exists cameras robust vertices,
    Forall2 (fun input c => exists frames, camera_shows (snd (fst input)) c frames) [(1, bar_frames, "camera1")] cameras /\
    d3_vertices cameras robust (f32_div (f32_ratio 18 100) robust) vertices /\ robust = robust_residual (d3_residuals cameras).
Proof.
  destruct bar_builds as [[surface n] E]. exists surface, n. split; [exact E|].
  destruct (d3img_surface_is_read_back 0 42 [(1, bar_frames, "camera1")] ltac:(simpl; lia)) as (r & Er & Hr). rewrite E in Er. injection Er as <-.
  destruct (Hr surface n eq_refl) as (cameras & robust & vertices & HF & Hvs & Hrob & _). exists cameras, robust, vertices. exact (conj HF (conj Hvs Hrob)).
Defined.

Lemma frame_sampling_witness : evenly_sample_frame_paths [(1, "a"); (2, "b"); (3, "c"); (4, "d"); (5, "e")] 3 = Some [(1, "a"); (3, "c"); (5, "e")] /\
  exists sampled, evenly_sample_frame_paths [(1, "a"); (2, "b"); (3, "c"); (4, "d"); (5, "e")] 3 = Some sampled /\
    (Z.of_nat (length sampled) = 3 /\ sampled `sublist_of` [(1, "a"); (2, "b"); (3, "c"); (4, "d"); (5, "e")] /\ head sampled = Some (1, "a") /\ last sampled = Some (5, "e")).
Proof. split; [reflexivity|]. exact (frame_sampling [(1, "a"); (2, "b"); (3, "c"); (4, "d"); (5, "e")] 3 ltac:(lia)). Defined.

End D3Run.
