(* ===== verification/FileWrites.v ===== *)
(** * Writing files

    What the code uses of [std::fs] to write: paths built by joining, directories made on the way, files
    made, renamed, appended to and overwritten through links, on the trees of [FileTree]. The lemmas say
    what each call leaves alone. *)

From S2P Require Import Prelude FileTree.
From Stdlib Require Import Ascii.

(** ** Paths *)

(** A [PathBuf] with a root, as its components: names and [..]. *)
Abbreviation PathBuf := (list string).

(** [Path::join]. *)
Definition path_join (p : PathBuf) (text : string) : PathBuf :=
  if is_absolute text then components text else p ++ components text.

(** [Path::parent] and [Path::file_name]. *)
Definition path_parent (p : PathBuf) : option PathBuf := match p with [] => None | _ => Some (removelast p) end.
Definition file_name (p : PathBuf) : option string := filter_opt (fun name => name != "..") (last p).

(** Where a path leads, through links. *)
Definition resolve (t : Tree) (p : PathBuf) : option Path := canonical_from MAXSYMLINKS t [] p.
Definition metadata (t : Tree) (p : PathBuf) : option Node :=
  match resolve t p with Some q => node_at t q | None => None end.
Definition read_at (t : Tree) (p : PathBuf) : option string :=
  match metadata t p with Some (NFile content) => Some content | _ => None end.

(** Whether a walk stops at a name that is not there ([ErrorKind::NotFound]). *)
Fixpoint missing_from (links : nat) (t : Tree) : Path -> list string -> bool :=
  fix walk (cur : Path) (todo : list string) : bool :=
  match todo with
  | [] => false
  | name :: rest =>
      if negb (is_dir_at t cur) then false
      else if one_of name [""; "."] then walk cur rest
      else if name == ".." then walk (removelast cur) rest
      else
        match t !! (cur ++ [name]) with
        | None => true
        | Some (NLink target) =>
            match links with
            | O => false
            | S links => missing_from links t (if is_absolute target then [] else cur) (pieces target ++ rest)
            end
        | Some _ => walk (cur ++ [name]) rest
        end
  end.
Definition is_missing (t : Tree) (p : PathBuf) : bool := missing_from MAXSYMLINKS t [] p.

(** ** Calls that write *)

(** The entry a path names in the directory its parent leads to. *)
Definition entry_of (t : Tree) (p : PathBuf) : option Path :=
  match file_name p, path_parent p with
  | Some name, Some parent =>
      match resolve t parent with
      | Some q => if is_dir_at t q then Some (q ++ [name]) else None
      | None => None
      end
  | _, _ => None
  end.

(** [create_dir]. *)
Definition make_dir (t : Tree) (p : PathBuf) : option Tree :=
  match entry_of t p with
  | Some q => match t !! q with None => Some (<[q := NDir]> t) | Some _ => None end
  | None => None
  end.

(** [create_dir_all], from the last component upwards. *)
Fixpoint make_dirs_go (t : Tree) (reversed : list string) : option Tree :=
  match metadata t (rev reversed) with
  | Some NDir => Some t
  | Some _ => None
  | None =>
      match reversed with
      | [] => Some t
      | _ :: above =>
          match make_dirs_go t above with Some t' => make_dir t' (rev reversed) | None => None end
      end
  end.
Definition make_dirs (t : Tree) (p : PathBuf) : option Tree := make_dirs_go t (rev p).

(** [OpenOptions::create_new]: the new file's place. *)
Definition create_new (t : Tree) (p : PathBuf) : option (Path * Tree) :=
  match entry_of t p with
  | Some q => match t !! q with None => Some (q, <[q := NFile ""]> t) | Some _ => None end
  | None => None
  end.

(** [rename] of a file: a file or link in its place goes, a directory does not. *)
Definition rename (t : Tree) (source target : PathBuf) : option Tree :=
  match entry_of t source, entry_of t target with
  | Some from, Some to =>
      match t !! from with
      | Some (NFile content) =>
          match t !! to with
          | Some NDir => None
          | _ => Some (<[to := NFile content]> (delete from t))
          end
      | _ => None
      end
  | _, _ => None
  end.

(** [open] with [create]: the file a path leads to, made where a chain of links ends in nothing. *)
Fixpoint open_create (links : nat) (t : Tree) (p : PathBuf) : option (Path * Tree) :=
  match entry_of t p with
  | None => None
  | Some q =>
      match t !! q with
      | None => Some (q, <[q := NFile ""]> t)
      | Some (NFile _) => Some (q, t)
      | Some NDir => None
      | Some (NLink target) =>
          match links with
          | O => None
          | S links => open_create links t (path_join (removelast q) target)
          end
      end
  end.

(** [std::fs::remove_file]: the entry goes, a link and not what it leads to. *)
Definition unlink (t : Tree) (p : PathBuf) : option Tree :=
  match entry_of t p with Some q => remove_file t q | None => None end.

(** ** Calls below a real directory *)

(** No directory and no link: a file or nothing. *)
Definition fileish (o : option Node) : Prop := o = None \/ exists content, o = Some (NFile content).

Lemma fileish_file content : fileish (Some (NFile content)).
Proof. right. eauto. Qed.
Lemma fileish_none : fileish None.
Proof. by left. Qed.
#[export] Hint Resolve fileish_file fileish_none : core.

Lemma dir_not_fileish t p : p <> [] -> fileish (t !! p) -> is_dir_at t p = true -> False.
Proof. intros Hp Hf Hd. apply is_dir_lookup in Hd; [|done]. rewrite Hd in Hf. by destruct Hf as [|[? ?]]. Qed.

Lemma snoc_not_nil (d : Path) name : d ++ [name] <> [].
Proof. by destruct d. Qed.
#[export] Hint Resolve snoc_not_nil : core.

Lemma resolve_real t p : tree_ok t -> is_real t p -> resolve t p = Some p.
Proof. intros Hok Hr. exact (canonical_from_down MAXSYMLINKS t [] p Hok Hr). Qed.

Lemma resolve_dir t d : tree_ok t -> is_dir_at t d = true -> resolve t d = Some d.
Proof. intros Hok Hd. by apply resolve_real, is_dir_real. Qed.

Lemma read_at_real t p content : tree_ok t -> p <> [] -> t !! p = Some (NFile content) -> read_at t p = Some content.
Proof.
  intros Hok Hp Hc. unfold read_at, metadata. rewrite resolve_real; [|done|by destruct p; [done|right; exists content]].
  unfold node_at. destruct p; [done|]. by rewrite Hc.
Qed.

Lemma entry_below t d name : tree_ok t -> is_dir_at t d = true -> name <> ".." -> entry_of t (d ++ [name]) = Some (d ++ [name]).
Proof.
  intros Hok Hd Hn. unfold entry_of, file_name, path_parent. rewrite last_snoc. unfold filter_opt.
  rewrite (proj2 (str_eqb_false name "..") Hn). cbn [negb]. destruct (d ++ [name]) eqn:E; [by destruct d|]. rewrite <- E, removelast_last.
  by rewrite resolve_dir, Hd.
Qed.

Lemma make_dirs_there t d : tree_ok t -> is_dir_at t d = true -> make_dirs t d = Some t.
Proof.
  intros Hok Hd. unfold make_dirs. assert (Hm : metadata t (rev (rev d)) = Some NDir).
  { rewrite rev_involutive. unfold metadata. rewrite resolve_dir by done. unfold node_at. destruct d; [done|]. by apply is_dir_lookup. }
  destruct (rev d); simpl in *; rewrite ?Hm; done.
Qed.

(** Dirs are not touched by what happens to files. *)
Lemma dir_after t t' d : (forall q, t' !! q = t !! q \/ fileish (t !! q)) -> is_dir_at t d = true -> is_dir_at t' d = true.
Proof.
  intros Ht Hd. destruct d as [|a d]; [done|]. destruct (Ht (a :: d)) as [E|E].
  - apply is_dir_lookup; [done|]. rewrite E. by apply is_dir_lookup in Hd.
  - by destruct (dir_not_fileish t (a :: d)).
Qed.

Lemma insert_file_ok t d name content : tree_ok t -> is_dir_at t d = true -> name_ok name -> fileish (t !! (d ++ [name])) ->
  tree_ok (<[d ++ [name] := NFile content]> t).
Proof.
  intros Hok Hd Hn Hf. split; [rewrite lookup_insert_ne; [apply Hok|done]|]. intros q nm Hs.
  assert (Hkeep : forall e, is_dir_at t e = true -> is_dir_at (<[d ++ [name] := NFile content]> t) e = true).
  { intros e. apply dir_after. intros p. destruct (decide (p = d ++ [name])) as [->|]; [by right|left; by rewrite lookup_insert_ne]. }
  destruct (decide (q ++ [nm] = d ++ [name])) as [E|Hne].
  - apply app_inj_tail in E as [-> ->]. auto.
  - rewrite lookup_insert_ne in Hs by done. apply (proj2 Hok) in Hs as [Hq Hdq]. auto.
Qed.

Lemma delete_file_ok t p : tree_ok t -> p <> [] -> fileish (t !! p) -> tree_ok (delete p t).
Proof.
  intros Hok Hp Hf. apply delete_ok; [done|]. intros name. apply eq_None_not_Some. intros Hs.
  apply (proj2 Hok) in Hs as [_ Hd]. by apply (dir_not_fileish t p).
Qed.

Lemma create_new_below t d name : tree_ok t -> is_dir_at t d = true -> name <> ".." ->
  create_new t (d ++ [name]) = match t !! (d ++ [name]) with None => Some (d ++ [name], <[d ++ [name] := NFile ""]> t) | Some _ => None end.
Proof. intros Hok Hd Hn. unfold create_new. by rewrite entry_below. Qed.

Lemma rename_below t d name name' content : tree_ok t -> is_dir_at t d = true -> name <> ".." -> name' <> ".." ->
  t !! (d ++ [name]) = Some (NFile content) -> fileish (t !! (d ++ [name'])) ->
  rename t (d ++ [name]) (d ++ [name']) = Some (<[d ++ [name'] := NFile content]> (delete (d ++ [name]) t)).
Proof.
  intros Hok Hd Hn Hn' Hc Hf. unfold rename. rewrite !entry_below, Hc by done. by destruct Hf as [->|[? ->]].
Qed.

Lemma unlink_below t d name content : tree_ok t -> is_dir_at t d = true -> name <> ".." ->
  t !! (d ++ [name]) = Some (NFile content) -> unlink t (d ++ [name]) = Some (delete (d ++ [name]) t).
Proof. intros Hok Hd Hn Hc. unfold unlink, remove_file. by rewrite entry_below, Hc. Qed.

Lemma open_create_below t d name : tree_ok t -> is_dir_at t d = true -> name <> ".." -> fileish (t !! (d ++ [name])) ->
  exists t', open_create MAXSYMLINKS t (d ++ [name]) = Some (d ++ [name], t') /\
    (t' = t /\ is_Some (t !! (d ++ [name])) \/ t' = <[d ++ [name] := NFile ""]> t).
Proof.
  intros Hok Hd Hn Hf. unfold MAXSYMLINKS. cbn [open_create]. rewrite entry_below by done.
  destruct Hf as [E|[content E]]; rewrite E; eauto.
Qed.

(** Names with a number between dots. *)
Definition no_slash (s : string) : bool := all_bytes (fun a => negb (bool_decide (a = slash))) s.

Lemma dec_no_slash n : 0 <= n -> no_slash (dec n) = true.
Proof.
  intros Hn. pose proof (dec_digits n Hn) as Hd. revert Hd. generalize (dec n). unfold no_slash.
  induction s as [|a s IH]; simpl; [done|]. rewrite !andb_true_iff. intros [Ha Hs]. split; [|auto].
  apply negb_true_iff, bool_decide_eq_false. intros ->. by vm_compute in Ha.
Qed.

Lemma numbered_name_ok name n suffix : name_ok name -> 0 <= n -> no_slash suffix = true ->
  name_ok ("." +:+ name +:+ "." +:+ dec n +:+ suffix).
Proof.
  intros (Hne & _ & _ & Hs) Hn Hm. pose proof (dec_no_slash n Hn) as Hd. unfold no_slash in *.
  destruct name as [|a name]; [done|]. split_and!; try done.
  - intros E. injection E as -> E. by destruct name.
  - rewrite !all_bytes_app, Hs, Hd, Hm. done.
Qed.

(** A walk goes down a real directory first. *)
Lemma canonical_from_through links t p q rest : tree_ok t -> is_dir_at t (p ++ q) = true ->
  canonical_from links t p (q ++ rest) = canonical_from links t (p ++ q) rest.
Proof.
  intros Hok. revert p. induction q as [|name q IH]; intros p Hd; [by rewrite app_nil_r|].
  pose proof (is_dir_real t _ Hd) as Hr. pose proof (real_names t _ Hok Hr) as Hn.
  apply Forall_app in Hn as [_ Hn]. apply Forall_cons in Hn as [Hn _]. apply name_ok_plain in Hn as [H1 H2].
  cbn [app]. rewrite canonical_from_cons, (real_prefix_dir t p (name :: q)), H1, H2 by done. cbn [negb].
  replace (p ++ name :: q) with ((p ++ [name]) ++ q) in * by by rewrite <- app_assoc.
  assert (Hc : is_dir_at t (p ++ [name]) = true).
  { destruct (decide (q = [])) as [->|Hne]; [by rewrite app_nil_r in Hd|]. by eapply real_prefix_dir. }
  apply is_dir_lookup in Hc; [|done]. rewrite Hc. by apply IH.
Qed.

Lemma metadata_absent t d first rest : tree_ok t -> is_dir_at t d = true -> name_ok first -> t !! (d ++ [first]) = None ->
  metadata t (d ++ first :: rest) = None.
Proof.
  intros Hok Hd Hn Ha. unfold metadata, resolve. rewrite (canonical_from_through _ t [] d) by done.
  apply name_ok_plain in Hn as [H1 H2]. rewrite canonical_from_cons. change ([] ++ d) with d. by rewrite Hd, H1, H2, Ha.
Qed.

Lemma metadata_file t p content : tree_ok t -> t !! p = Some (NFile content) -> metadata t p = Some (NFile content).
Proof.
  intros Hok Hc. destruct p as [|a p]; [by rewrite (proj1 Hok) in Hc|].
  unfold metadata. rewrite resolve_real; [by unfold node_at; rewrite Hc|done|right; eauto].
Qed.

Lemma dir_of_file t d name content : tree_ok t -> t !! (d ++ [name]) = Some (NFile content) -> is_dir_at t d = true /\ name_ok name.
Proof. intros Hok Hc. destruct (proj2 Hok d name ltac:(eauto)). done. Qed.

Lemma path_starts_with_app p q : path_starts_with (p ++ q) p = true.
Proof. induction p as [|a p IH]; [by destruct q|]. cbn. by rewrite String.eqb_refl. Qed.

Lemma path_starts_with_inv p q : path_starts_with p q = true -> exists rest, p = q ++ rest.
Proof.
  revert p. induction q as [|a q IH]; intros p Hp; [by exists p|]. destruct p as [|b p]; [done|]. cbn in Hp.
  apply andb_true_iff in Hp as [Ha Hp]. apply str_eqb_true in Ha as ->. destruct (IH p Hp) as [rest ->]. by exists rest.
Qed.

(** ** Deciding that a tree is well-formed *)

Definition name_okb (name : string) : bool := negb (one_of name [""; "."; ".."]) && no_slash name.
Definition tree_okb (t : Tree) : bool :=
  is_none (t !! []) &&
  forallb (fun e => match last (fst e) with Some name => name_okb name && is_dir_at t (removelast (fst e)) | None => false end) (map_to_list t).

Lemma name_okb_ok name : name_okb name = true -> name_ok name.
Proof.
  unfold name_okb, one_of. cbn [existsb]. rewrite andb_true_iff, negb_true_iff, !orb_false_iff, !str_eqb_false. intros [(? & ? & ? & _) ?]. by split_and!.
Qed.

Lemma tree_okb_ok t : tree_okb t = true -> tree_ok t.
Proof.
  unfold tree_okb. rewrite andb_true_iff, forallb_forall. intros [Hr Hall]. split; [by destruct (t !! [])|]. intros p name [node Hn].
  specialize (Hall (p ++ [name], node)). rewrite <- list_elem_of_In, elem_of_map_to_list in Hall. specialize (Hall Hn). cbn [fst] in Hall.
  rewrite last_snoc, removelast_last, andb_true_iff in Hall. destruct Hall. split; [by apply name_okb_ok|done].
Qed.

Definition linkless (t : Tree) : bool := forallb (fun e => match snd e with NLink _ => false | _ => true end) (map_to_list t).

Lemma linkless_ok t p target : linkless t = true -> t !! p <> Some (NLink target).
Proof.
  unfold linkless. rewrite forallb_forall. intros Hall Hp. specialize (Hall (p, NLink target)).
  rewrite <- list_elem_of_In, elem_of_map_to_list in Hall. by specialize (Hall Hp).
Qed.
