(* ===== verification/Supervisor.v ===== *)
(** * The service supervisor

    server-monitor/src/service_supervisor.rs: the desktop monitor starts the registered services, watches
    them with health probes, restarts them with a growing delay, stops what the acquisition mode does not
    use, and carries a change of the acquisition mode that the inspection service has published through to
    its end. [World] is the supervisor with the files it shares with the services; the answers of the
    operating system are those of the class [SupervisorEnv], in the order the questions are put. *)

From S2P Require Import Prelude Json Http FileTree FileWrites.
From Stdlib Require Import Ascii SpecFloat.

Definition MAX_EVENTS : nat := 240.
Definition RESTART_BACKOFF : Z := 3000.
Definition MAX_CONSECUTIVE_START_FAILURES : Z := 5.
Definition RUNTIME_MODE_COMMIT_PATH : string := "config/runtime-mode-commit.json".
Definition RUNTIME_MODE_RELEASE_DELAY_MILLIS : Z := 5000.
Definition RUNTIME_MODE_STALE_FENCE_MILLIS : Z := 120000.

(** ** Data *)

Inductive StartupMode := Normal | Manual | Disabled.

#[export] Instance startup_mode_eq : EqDecision StartupMode.
Proof. solve_decision. Defined.

Definition startup_mode_str (mode : StartupMode) : string :=
  match mode with Normal => "normal" | Manual => "manual" | Disabled => "disabled" end.

Definition parse_startup_mode (value : string) : Result StartupMode string :=
  let word := to_ascii_lowercase (trim value) in
  if one_of word ["normal"; "automatic"; "auto"] then Ok Normal
  else if one_of word ["manual"; "on-demand"] then Ok Manual
  else if one_of word ["disabled"; "off"] then Ok Disabled
  else Err "启动模式仅支持 normal、manual 或 disabled".

Record ProcessDefinition := mkProcessDefinition {
  pd_command : string;
  pd_command_candidates : list string;
  pd_arguments : list string;
  pd_working_directory : string;
  pd_environment : gmap string string;
  pd_stdout_log : string;
  pd_stderr_log : string;
  pd_startup_mode : string;
}.

Record ServiceRegistration := mkServiceRegistration {
  sr_id : string;
  sr_name : string;
  sr_role : string;
  sr_kind : string;
  sr_default_origin : string;
  sr_origin_env : option string;
  sr_port_env : option string;
  sr_health_path : string;
  sr_required : bool;
  sr_enabled_when_modes : list string;
  sr_required_when_modes : list string;
  sr_lifecycle : string;
  sr_process : option ProcessDefinition;
}.

Record ServiceLifecycleEvent := mkServiceLifecycleEvent {
  le_id : Z;
  le_timestamp : string;
  le_service_id : string;
  le_service_name : string;
  le_action : string;
  le_outcome : string;
  le_source : string;
  le_message : string;
  le_pid : option Z;
}.

Record ProbeResult := mkProbeResult {
  pr_ok : bool;
  pr_status : Z;
  pr_latency_ms : Z;
  pr_reason : option string;
}.

(** A child is its process id; instants are milliseconds. *)
Record ServiceRuntime := mkServiceRuntime {
  child : option Z;
  known_pid : option Z;
  desired_running : bool;
  started_at : option Z;
  restart_count : Z;
  consecutive_start_failures : Z;
  startup_faulted : bool;
  last_launch_attempt : option Z;
  observed_running : bool;
  last_reason : option string;
  last_probe : option ProbeResult;
}.

Definition default_runtime : ServiceRuntime := mkServiceRuntime None None false None 0 0 false None false None None.

Record ServiceSupervisor := mkServiceSupervisor {
  workspace_root : PathBuf;
  registry_path : PathBuf;
  state_root : PathBuf;
  log_root : PathBuf;
  registrations : list ServiceRegistration;
  runtimes : gmap string ServiceRuntime;
  modes : gmap string StartupMode;
  events : list ServiceLifecycleEvent;
  next_event_id : Z;
  load_error : option string;
  acquisition_mode : string;
  mode_transition_hold : bool;
}.

(** A command handed to the operating system, with what came of it. *)
Record Spawn := mkSpawn {
  sp_service : string;
  sp_command : PathBuf;
  sp_arguments : list string;
  sp_directory : PathBuf;
  sp_environment : gmap string string;
  sp_outcome : Result Z string;
}.

Record World := mkWorld {
  sup : ServiceSupervisor;
  disk : Tree;
  spawns : list Spawn;
  asked : nat;
}.

(** ** Surroundings *)

(** How a request to a health endpoint ends: no address, no connection, nothing sent, or the pieces that
    were read until the connection closed or timed out. *)
Inductive Exchange :=
| Unresolvable
| Refused
| SendFailed
| Answered (chunks : list string).

(** [Child::try_wait]. *)
Inductive TryWait :=
| Exited (code : option Z)
| StillRunning
| WaitFailed (error : string).

(** The environment of the process, its working directory, its program and its own id, SHA-256 in hexadecimal ([sha2]), pretty-printed JSON
    ([serde_json]) and the text of an event ([serde]); and the answers by the number of the question: whether a call of the file system fails and with what message,
    how much of a failed write arrives, whether [exists] is answered with an error, the message of a call
    that fails by itself, the two clocks, a health request, the process that listens on a port, the end of
    a process tree, the state of a child and the start of a process. *)
Class SupervisorEnv := {
  env_var : string -> option string;
  current_dir : option PathBuf;
  current_exe : option PathBuf;
  own_pid : Z;
  sha256_hex : string -> string;
  json_pretty : Value -> string;
  event_line : ServiceLifecycleEvent -> string;
  fault_at : nat -> option string;
  torn_at : nat -> Z;
  blind_at : nat -> bool;
  text_at : nat -> string;
  millis_at : nat -> Z;
  instant_at : nat -> Z;
  exchange_at : nat -> string -> Z -> string -> Exchange;
  listener_at : nat -> Z -> option Z;
  terminate_at : nat -> Z -> Result unit string;
  wait_at : nat -> Z -> TryWait;
  spawn_at : nat -> Result Z string;
}.

(** ** The state monad *)

Definition Sup (A : Type) : Type := World -> A * World.

Definition pure {A} (a : A) : Sup A := fun w => (a, w).
Definition sup_bind {A B} (m : Sup A) (k : A -> Sup B) : Sup B := fun w => let (a, w') := m w in k a w'.
Definition sup_try {A B E} (m : Sup (Result A E)) (k : A -> Sup (Result B E)) : Sup (Result B E) :=
  sup_bind m (fun r => match r with Ok a => k a | Err e => pure (Err e) end).

Notation "'let^' x := m 'in' k" := (sup_bind m (fun x => k))
  (at level 10, x binder, m at level 100, k at level 200,
   format "'[v' 'let^'  x  :=  m  'in' '/' k ']'") : rust_scope.
Notation "'let^?' x := m 'in' k" := (sup_try m (fun x => k))
  (at level 10, x binder, m at level 100, k at level 200,
   format "'[v' 'let^?'  x  :=  m  'in' '/' k ']'") : rust_scope.

Definition with_sup (f : ServiceSupervisor -> ServiceSupervisor) (w : World) : World :=
  mkWorld (f (sup w)) (disk w) (spawns w) (asked w).
Definition with_disk (t : Tree) (w : World) : World := mkWorld (sup w) t (spawns w) (asked w).
Definition with_spawn (s : Spawn) (w : World) : World := mkWorld (sup w) (disk w) (spawns w ++ [s]) (asked w).

Definition self : Sup ServiceSupervisor := fun w => (sup w, w).
Definition update (f : ServiceSupervisor -> ServiceSupervisor) : Sup unit := fun w => (tt, with_sup f w).
(** A question to the surroundings. *)
Definition ask {A} (answer : nat -> A) : Sup A := fun w => (answer (asked w), mkWorld (sup w) (disk w) (spawns w) (S (asked w))).

Definition map_err {A E F} (f : E -> F) (r : Result A E) : Result A F :=
  match r with Ok a => Ok a | Err e => Err (f e) end.

(** Fields of the supervisor. *)
Definition with_runtimes v (s : ServiceSupervisor) : ServiceSupervisor :=
  mkServiceSupervisor (workspace_root s) (registry_path s) (state_root s) (log_root s) (registrations s) v (modes s)
    (events s) (next_event_id s) (load_error s) (acquisition_mode s) (mode_transition_hold s).
Definition with_modes v (s : ServiceSupervisor) : ServiceSupervisor :=
  mkServiceSupervisor (workspace_root s) (registry_path s) (state_root s) (log_root s) (registrations s) (runtimes s) v
    (events s) (next_event_id s) (load_error s) (acquisition_mode s) (mode_transition_hold s).
Definition with_events v id (s : ServiceSupervisor) : ServiceSupervisor :=
  mkServiceSupervisor (workspace_root s) (registry_path s) (state_root s) (log_root s) (registrations s) (runtimes s) (modes s)
    v id (load_error s) (acquisition_mode s) (mode_transition_hold s).
Definition with_load_error v (s : ServiceSupervisor) : ServiceSupervisor :=
  mkServiceSupervisor (workspace_root s) (registry_path s) (state_root s) (log_root s) (registrations s) (runtimes s) (modes s)
    (events s) (next_event_id s) v (acquisition_mode s) (mode_transition_hold s).
Definition with_acquisition_mode v (s : ServiceSupervisor) : ServiceSupervisor :=
  mkServiceSupervisor (workspace_root s) (registry_path s) (state_root s) (log_root s) (registrations s) (runtimes s) (modes s)
    (events s) (next_event_id s) (load_error s) v (mode_transition_hold s).
Definition with_hold v (s : ServiceSupervisor) : ServiceSupervisor :=
  mkServiceSupervisor (workspace_root s) (registry_path s) (state_root s) (log_root s) (registrations s) (runtimes s) (modes s)
    (events s) (next_event_id s) (load_error s) (acquisition_mode s) v.

(** [if let Some(runtime) = self.runtimes.get_mut(id)]. *)
Definition with_runtime (id : string) (f : ServiceRuntime -> ServiceRuntime) (s : ServiceSupervisor) : ServiceSupervisor :=
  with_runtimes (alter f id (runtimes s)) s.

Section Operations.
Context `{SupervisorEnv} `{JsonCodec}.

Definition unix_time_millis : Sup Z := ask millis_at.
Definition now : Sup Z := ask instant_at.

(** ** Files *)

(** An error of a call, and whether it is [ErrorKind::NotFound]. *)
Record IoError := mkIoError { not_found : bool; error_text : string }.

(** A call that is given a fault, or fails by itself, or works. *)
Definition attempt {A} (run : Tree -> option (A * Tree)) (missing : Tree -> bool) : Sup (Result A IoError) :=
  let^ fault := ask fault_at in
  match fault with
  | Some message => pure (Err (mkIoError false message))
  | None =>
      let^ text := ask text_at in
      fun w =>
        match run (disk w) with
        | Some (a, t) => (Ok a, with_disk t w)
        | None => (Err (mkIoError (missing (disk w)) text), w)
        end
  end.

Definition fs_read (p : PathBuf) : Sup (Result string IoError) :=
  attempt (fun t => match read_at t p with Some content => Some (content, t) | None => None end) (fun t => is_missing t p).

(** [read_to_string]: the text has to be UTF-8. *)
Definition fs_read_to_string (p : PathBuf) : Sup (Result string IoError) :=
  let^? content := fs_read p in
  let^ text := ask text_at in
  pure (if utf8_valid content then Ok content else Err (mkIoError false text)).

Definition fs_create_dir_all (p : PathBuf) : Sup (Result unit IoError) :=
  attempt (fun t => match make_dirs t p with Some t' => Some (tt, t') | None => None end) (fun t => false).

Definition fs_remove_file (p : PathBuf) : Sup (Result unit IoError) :=
  attempt (fun t => match unlink t p with Some t' => Some (tt, t') | None => None end) (fun t => is_missing t p).

(** [Path::exists] and [Path::is_file] say no when the question fails. *)
Definition path_exists (p : PathBuf) : Sup bool :=
  let^ blind := ask blind_at in
  fun w => (negb blind && is_some (metadata (disk w) p), w).
Definition path_is_file (p : PathBuf) : Sup bool :=
  let^ blind := ask blind_at in
  fun w => (negb blind && is_some (read_at (disk w) p), w).

(** What an open file holds becomes [content]; a failed write leaves a part of it. *)
Definition write_handle (q : Path) (content : string) : Sup (Result unit IoError) :=
  let^ fault := ask fault_at in
  match fault with
  | None => fun w => (Ok tt, with_disk (<[q := NFile content]> (disk w)) w)
  | Some message =>
      let^ torn := ask torn_at in
      fun w => (Err (mkIoError false message), with_disk (<[q := NFile (take_bytes torn content)]> (disk w)) w)
  end.

(** [std::fs::write]: opened with truncation, then written. *)
Definition fs_write (p : PathBuf) (content : string) : Sup (Result unit IoError) :=
  let^? q := attempt (fun t => match open_create MAXSYMLINKS t p with
                               | Some (q, t') => Some (q, <[q := NFile ""]> t')
                               | None => None
                               end) (fun t => is_missing t p) in
  write_handle q content.

(** [OpenOptions::append]: the place of the file, made when there is none. *)
Definition open_append (p : PathBuf) : Sup (Result Path IoError) :=
  attempt (fun t => open_create MAXSYMLINKS t p) (fun t => is_missing t p).

(** What a file holds. *)
Definition content_at (t : Tree) (q : Path) : string := match t !! q with Some (NFile content) => content | _ => "" end.

(** [writeln!] to a file opened for appending. *)
Definition append_handle (q : Path) (line : string) : Sup unit :=
  let^ fault := ask fault_at in
  let^ torn := ask torn_at in
  let added := match fault with None => line +:+ String lf EmptyString | Some _ => take_bytes torn (line +:+ String lf EmptyString) end in
  fun w => (tt, with_disk (<[q := NFile (content_at (disk w) q +:+ added)]> (disk w)) w).

End Operations.
