(* ===== verification/SupervisorMode.v ===== *)
(** * The acquisition mode, as the supervisor sees it

    service_supervisor.rs: the mode a runtime profile asks for, and the commit marker
    config/runtime-mode-commit.json through which the inspection service hands a change of the mode over.
    The marker is [fence] while the service drains, [publish] once the new profile is staged and recorded,
    [ready] when the profile is in place and its release is due, and [committed] when the supervisor runs
    the new mode. A supervisor that finds [publish] finishes the work of a service that was killed. *)

From S2P Require Import Prelude Json Http Surface FileTree FileWrites Supervisor.
From Stdlib Require Import Ascii SpecFloat.

(** ** Modes *)

Definition normalize_acquisition_mode (value : string) : option string :=
  let word := to_ascii_lowercase (trim value) in
  if word == "online" then Some "online"
  else if word == "offline" then Some "offline"
  else if one_of word ["simulation"; "simulated"; "replay"] then Some "simulation"
  else None.

(** [.and_then(Value::as_str).and_then(normalize_acquisition_mode)]. *)
Definition get_mode (key : string) (v : Value) : option string :=
  match get_str key v with Some text => normalize_acquisition_mode text | None => None end.

Definition runtime_value_acquisition_mode (runtime : Value) : string :=
  match get_mode "acquisitionMode" runtime with
  | Some mode => mode
  | None =>
      let provider := unwrap_or (get_str "provider" runtime) "" in
      if eq_ignore_ascii_case provider "simulated" then "simulation"
      else if eq_ignore_ascii_case provider "bkv"
           || is_some_and (get_str "cameraConnection" runtime) (fun value => eq_ignore_ascii_case value "none")
      then "offline"
      else "online"
  end.

Definition mode_list_contains (values : list string) (mode : string) : bool :=
  existsb (fun value => is_some_and (normalize_acquisition_mode value) (fun value => value == mode)) values.

Definition no_modes (values : list string) : bool := match values with [] => true | _ => false end.

Definition service_enabled_for_mode (r : ServiceRegistration) (mode : string) : bool :=
  no_modes (sr_enabled_when_modes r) || mode_list_contains (sr_enabled_when_modes r) mode.

Definition service_required_for_mode (r : ServiceRegistration) (mode : string) : bool :=
  sr_required r && service_enabled_for_mode r mode
  && (no_modes (sr_required_when_modes r) || mode_list_contains (sr_required_when_modes r) mode).

(** ** Fields of the marker *)

Definition COMMIT_SCHEMA : string := "steel.runtime-mode-commit.v1".

(** [value["key"] = json!(..)] on an object. *)
Definition set_field (key : string) (x v : Value) : Value :=
  match v with JObject m => JObject (minsert key x m) | _ => v end.

Definition get_u64 (key : string) (v : Value) : option Z :=
  match jget key v with Some x => as_u64 x | None => None end.

(** The hash of the profile, 64 hexadecimal digits. *)
Definition marker_hash (commit : Value) : option string := filter_opt is_sha256 (get_str "profileSha256" commit).

(** [updatedAt], a number or the text of one. *)
Definition marker_updated_at (commit : Value) : Z :=
  unwrap_or
    (match jget "updatedAt" commit with
     | None => None
     | Some value => or_else (as_u64 value) (match as_str value with Some text => parse_u64 text | None => None end)
     end) u64_max.

Section Modes.
Context `{SupervisorEnv} `{JsonCodec}.

(** ** Paths *)

Definition resolve_config_reference (root base : PathBuf) (value : string) : Sup PathBuf :=
  if is_absolute value then pure (components value)
  else
    let workspace_candidate := path_join root value in
    let^ present := path_exists workspace_candidate in
    pure (if present then workspace_candidate else path_join base value).

Definition fs_canonical (p : PathBuf) : Sup (Result Path IoError) :=
  attempt (fun t => match resolve t p with Some q => Some (q, t) | None => None end) (fun t => is_missing t p).

(** [".{file_name}.{millis}.tmp"]. *)
Definition temporary_name (name : string) (millis : Z) : string := "." +:+ name +:+ "." +:+ dec millis +:+ ".tmp".

Definition write_supervisor_bytes_atomic (path : PathBuf) (content : string) : Sup (Result unit string) :=
  match path_parent path with
  | None => pure (Err "目标路径缺少父目录")
  | Some parent =>
      let^ made := fs_create_dir_all parent in
      match made with
      | Err error => pure (Err ("目标目录创建失败：" +:+ error_text error))
      | Ok _ =>
          match filter_opt utf8_valid (file_name path) with
          | None => pure (Err "目标文件名无效")
          | Some name =>
              let^ millis := unix_time_millis in
              let temporary := parent ++ [temporary_name name millis] in
              let^ opened := attempt (fun t => create_new t temporary) (fun t => false) in
              match opened with
              | Err error => pure (Err ("临时文件创建失败：" +:+ error_text error))
              | Ok file =>
                  let^ written := write_handle file content in
                  let^ result :=
                    match written with
                    | Err error => pure (Err ("临时文件写入失败：" +:+ error_text error))
                    | Ok _ =>
                        let^ synced := ask fault_at in
                        match synced with
                        | Some message => pure (Err ("临时文件刷盘失败：" +:+ message))
                        | None =>
                            let^ renamed := attempt (fun t => match rename t temporary path with Some t' => Some (tt, t') | None => None end)
                                              (fun t => false) in
                            pure (map_err (fun error => "原子发布失败：" +:+ error_text error) renamed)
                        end
                    end in
                  match result with
                  | Ok _ => pure (Ok tt)
                  | Err message => let^ _ := fs_remove_file temporary in pure (Err message)
                  end
              end
          end
      end
  end.

(** A relative path of names below the staging directory. *)
Definition staged_relative_ok (relative : string) : bool :=
  negb (is_absolute relative)
  && negb (is_some_and (head (pieces relative)) (fun piece => piece == "."))
  && negb (existsb (fun piece => piece == "..") (components relative))
  && path_starts_with (components relative) ["config"; "runtime-mode-staging"].

Definition validated_staged_runtime_profile (root : PathBuf) (relative : string) : Sup (Result Path string) :=
  if negb (staged_relative_ok relative) then pure (Err "运行模式暂存路径越界")
  else
    let^ canonical_root := fs_canonical root in
    match canonical_root with
    | Err error => pure (Err ("工作目录不可用：" +:+ error_text error))
    | Ok canonical_root =>
        let^ candidate := fs_canonical (path_join root relative) in
        match candidate with
        | Err error => pure (Err ("运行模式暂存文件不可用：" +:+ error_text error))
        | Ok candidate =>
            if negb (path_starts_with candidate canonical_root) then pure (Err "运行模式暂存文件越界或不是普通文件")
            else
              let^ regular := path_is_file candidate in
              pure (if regular then Ok candidate else Err "运行模式暂存文件越界或不是普通文件")
        end
    end.

(** ** The configured mode *)

Definition parse_text (r : Result string IoError) : option Value :=
  match r with Ok text => json_parse text | Err _ => None end.

(** The path of the runtime profile that project.json selects, [None] without a project. *)
Definition selected_runtime_path (root : PathBuf) : Sup (option (option PathBuf)) :=
  let project_path := path_join root "config/project.json" in
  let^ text := fs_read_to_string project_path in
  match parse_text text with
  | None => pure None
  | Some project =>
      let project_root := unwrap_or (path_parent project_path) root in
      match filter_opt (fun value => negb (is_blank value)) (get_str "activeSiteConfig" project) with
      | Some site_reference =>
          let^ site_path := resolve_config_reference root project_root (trim site_reference) in
          let^ text := fs_read_to_string site_path in
          match parse_text text with
          | None => pure (Some None)
          | Some site =>
              match get_str "runtimeProfile" site with
              | None => pure (Some None)
              | Some runtime =>
                  let base := unwrap_or (path_parent site_path) project_root in
                  let^ p := resolve_config_reference root base (trim runtime) in
                  pure (Some (Some p))
              end
          end
      | None =>
          match filter_opt (fun value => negb (is_blank value)) (get_str "activeRuntimeProfile" project) with
          | None => pure (Some None)
          | Some value =>
              let^ p := resolve_config_reference root project_root (trim value) in
              pure (Some (Some p))
          end
      end
  end.

Definition hash_is (expected content : string) : bool := eq_ignore_ascii_case expected (sha256_hex content).

(** The arms of [configured_acquisition_mode], by the state of the marker. *)
Definition fenced_mode (commit_path : PathBuf) (commit : Value) (committed_mode profile_mode runtime_bytes : string)
    : Sup (Result string string) :=
  let fence_matches_previous :=
    is_some_and (marker_hash commit) (fun value => hash_is value runtime_bytes) && (committed_mode == profile_mode) in
  let updated_at := marker_updated_at commit in
  if negb fence_matches_previous then pure (Ok committed_mode)
  else
    let^ millis := unix_time_millis in
    if sat_sub millis updated_at <? RUNTIME_MODE_STALE_FENCE_MILLIS then pure (Ok committed_mode)
    else
      let^ recovered_at := unix_time_millis in
      let recovered := set_field "recoveryReason" (JString "stale-fence-profile-unchanged")
        (set_field "recoveredAt" (JString (dec recovered_at)) (set_field "state" (JString "committed") commit)) in
      let^ written := write_supervisor_bytes_atomic commit_path (json_pretty recovered) in
      match written with
      | Err error => pure (Err ("运行模式围栏恢复失败，监督器保持已应用模式：" +:+ error))
      | Ok _ => pure (Ok committed_mode)
      end.

Definition committed_mode_of (commit : Value) (committed_mode profile_mode runtime_bytes : string) : Result string string :=
  match marker_hash commit with
  | None => Err "运行模式提交记录缺少有效 profileSha256，监督器保持已应用模式"
  | Some expected_hash =>
      if negb (hash_is expected_hash runtime_bytes) || (committed_mode != profile_mode)
      then Err "运行模式提交记录与当前 profile 不一致，监督器保持已应用模式"
      else Ok committed_mode
  end.

Definition ready_mode (commit : Value) (committed_mode profile_mode runtime_bytes : string) : Sup (Result string string) :=
  match marker_hash commit with
  | None => pure (Err "运行模式就绪记录缺少有效 profileSha256，监督器保持已应用模式")
  | Some expected_hash =>
      if negb (hash_is expected_hash runtime_bytes) || (committed_mode != profile_mode)
      then pure (Err "运行模式就绪记录与当前 profile 不一致，监督器保持已应用模式")
      else
        match get_mode "previousAcquisitionMode" commit with
        | None => pure (Err "运行模式就绪记录缺少 previousAcquisitionMode，监督器保持已应用模式")
        | Some previous_mode =>
            match get_u64 "releaseAfterMillis" commit with
            | None => pure (Err "运行模式就绪记录缺少 releaseAfterMillis，监督器保持已应用模式")
            | Some release_after =>
                let^ millis := unix_time_millis in
                pure (Ok (if millis <? release_after then previous_mode else committed_mode))
            end
        end
  end.

Definition publish_mode (root runtime_path commit_path : PathBuf) (commit : Value) (committed_mode runtime_bytes : string)
    : Sup (Result string string) :=
  match marker_hash commit with
  | None => pure (Err "运行模式发布日志缺少有效 profileSha256，监督器保持已应用模式")
  | Some expected_hash =>
      match get_str "stagedProfile" commit with
      | None => pure (Err "运行模式发布日志缺少 stagedProfile，监督器保持已应用模式")
      | Some staged_relative =>
          let^? staged_path := validated_staged_runtime_profile root staged_relative in
          let^ staged := fs_read staged_path in
          match staged with
          | Err error => pure (Err ("运行模式暂存文件读取失败：" +:+ error_text error))
          | Ok staged_bytes =>
              let^ text := ask text_at in
              match json_parse staged_bytes with
              | None => pure (Err ("运行模式暂存 JSON 无效：" +:+ text))
              | Some staged_value =>
                  if negb (hash_is expected_hash staged_bytes) || (runtime_value_acquisition_mode staged_value != committed_mode)
                  then pure (Err "运行模式暂存文件与发布日志不一致，监督器保持已应用模式")
                  else
                    let^ placed :=
                      if hash_is expected_hash runtime_bytes then pure (Ok tt)
                      else write_supervisor_bytes_atomic runtime_path staged_bytes in
                    match placed with
                    | Err error => pure (Err ("运行模式故障恢复发布 profile 失败，监督器保持已应用模式：" +:+ error))
                    | Ok _ =>
                        match get_mode "previousAcquisitionMode" commit with
                        | None => pure (Err "运行模式发布日志缺少 previousAcquisitionMode，监督器保持已应用模式")
                        | Some previous_mode =>
                            let^ now := unix_time_millis in
                            let^ updated := unix_time_millis in
                            let ready := set_field "updatedAt" (JString (dec updated))
                              (set_field "releaseAfterMillis" (jint (sat_add u64_max now RUNTIME_MODE_RELEASE_DELAY_MILLIS))
                                (set_field "state" (JString "ready") commit)) in
                            let^ written := write_supervisor_bytes_atomic commit_path (json_pretty ready) in
                            match written with
                            | Err error => pure (Err ("运行模式就绪日志发布失败，监督器保持已应用模式：" +:+ error))
                            | Ok _ => let^ _ := fs_remove_file staged_path in pure (Ok previous_mode)
                            end
                        end
                    end
              end
          end
      end
  end.

(** The marker once it is read: its schema, its mode and its state. *)
Definition mode_of_marker (root runtime_path commit_path : PathBuf) (commit : Value) (profile_mode runtime_bytes : string)
    : Sup (Result string string) :=
  if negb (is_some_and (get_str "schema" commit) (fun schema => schema == COMMIT_SCHEMA))
  then pure (Err "运行模式提交记录 schema 无效，监督器保持已应用模式")
  else
    match get_mode "acquisitionMode" commit with
    | None => pure (Err "运行模式提交记录 mode 无效，监督器保持已应用模式")
    | Some committed_mode =>
        match get_str "state" commit with
        | Some state =>
            if state == "fence" then fenced_mode commit_path commit committed_mode profile_mode runtime_bytes
            else if state == "committed" then pure (committed_mode_of commit committed_mode profile_mode runtime_bytes)
            else if state == "ready" then ready_mode commit committed_mode profile_mode runtime_bytes
            else if state == "publish" then publish_mode root runtime_path commit_path commit committed_mode runtime_bytes
            else pure (Err "运行模式提交记录 state 无效，监督器保持已应用模式")
        | None => pure (Err "运行模式提交记录 state 无效，监督器保持已应用模式")
        end
    end.

Definition configured_acquisition_mode (root : PathBuf) : Sup (Result string string) :=
  let^ selected := selected_runtime_path root in
  match selected with
  | None => pure (Ok "online")
  | Some None => pure (Err "运行模式配置路径缺失，监督器保持已应用模式")
  | Some (Some runtime_path) =>
      let^ bytes := fs_read runtime_path in
      match bytes with
      | Err error => pure (Err ("运行模式配置读取失败，监督器保持已应用模式：" +:+ error_text error))
      | Ok runtime_bytes =>
          match json_parse runtime_bytes with
          | None => pure (Err "运行模式配置无效，监督器保持已应用模式")
          | Some runtime =>
              let profile_mode := runtime_value_acquisition_mode runtime in
              let commit_path := path_join root RUNTIME_MODE_COMMIT_PATH in
              let^ present := path_exists commit_path in
              if negb present then pure (Ok profile_mode)
              else
                let^ commit_bytes := fs_read commit_path in
                match commit_bytes with
                | Err error => pure (Err ("运行模式提交记录读取失败，监督器保持已应用模式：" +:+ error_text error))
                | Ok commit_bytes =>
                    let^ text := ask text_at in
                    match json_parse commit_bytes with
                    | None => pure (Err ("运行模式提交记录无效，监督器保持已应用模式：" +:+ text))
                    | Some commit => mode_of_marker root runtime_path commit_path commit profile_mode runtime_bytes
                    end
                end
          end
      end
  end.

(** ** The hold and the promotion *)

Definition runtime_mode_transition_hold (root : PathBuf) : Sup bool :=
  let^ bytes := fs_read (path_join root RUNTIME_MODE_COMMIT_PATH) in
  match bytes with
  | Err _ => pure false
  | Ok bytes =>
      match json_parse bytes with
      | None => pure true
      | Some marker =>
          if negb (is_some_and (get_str "schema" marker) (fun schema => schema == COMMIT_SCHEMA)) then pure true
          else
            match get_str "state" marker with
            | Some state =>
                if state == "committed" then pure (is_none (get_mode "acquisitionMode" marker) || is_none (marker_hash marker))
                else if state == "fence" then pure true
                else if state == "ready" then
                  match get_u64 "releaseAfterMillis" marker with
                  | None => pure true
                  | Some release_after => let^ millis := unix_time_millis in pure (millis <? release_after)
                  end
                else pure true
            | None => pure true
            end
      end
  end.

Definition opt_str_eqb (a b : option string) : bool :=
  match a, b with Some a, Some b => a == b | None, None => true | _, _ => false end.

Definition promote_released_runtime_mode (root : PathBuf) (mode : string) : Sup (Result unit string) :=
  let path := path_join root RUNTIME_MODE_COMMIT_PATH in
  let^ bytes := fs_read path in
  match bytes with
  | Err error => pure (if not_found error then Ok tt else Err ("运行模式就绪日志读取失败：" +:+ error_text error))
  | Ok bytes =>
      let^ text := ask text_at in
      match json_parse bytes with
      | None => pure (Err ("运行模式就绪日志无效：" +:+ text))
      | Some marker =>
          if is_some_and (get_str "state" marker) (fun state => state == "committed") then pure (Ok tt)
          else
            let refused := pure (Err "运行模式就绪日志尚未释放或与目标模式不一致") in
            if negb (is_some_and (get_str "state" marker) (fun state => state == "ready"))
               || negb (opt_str_eqb (get_mode "acquisitionMode" marker) (normalize_acquisition_mode mode))
            then refused
            else
              match get_u64 "releaseAfterMillis" marker with
              | None => refused
              | Some release_after =>
                  let^ millis := unix_time_millis in
                  if millis <? release_after then refused
                  else
                    let^ committed_at := unix_time_millis in
                    let marker := set_field "committedAt" (JString (dec committed_at)) (set_field "state" (JString "committed") marker) in
                    write_supervisor_bytes_atomic path (json_pretty marker)
              end
      end
  end.

Definition read_applied_acquisition_mode (path : PathBuf) : Sup (option string) :=
  let^ payload := fs_read_to_string path in
  pure (match parse_text payload with Some value => get_mode "acquisitionMode" value | None => None end).

End Modes.
