(* ===== verification/SupervisorLoop.v ===== *)
(** * The supervised services

    service_supervisor.rs: the registry, the addresses of the services and their health probes, the
    operations [start], [stop], [restart] and [set-startup-mode], and [reconcile], which the monitor runs
    again and again. *)

From S2P Require Import Prelude Json Http Surface ProductionStore FileTree FileWrites Supervisor SupervisorMode.
From Stdlib Require Import Ascii SpecFloat.

(** ** The registry, as [serde] reads it *)

Definition all_some {A B} (f : A -> option B) : list A -> option (list B) :=
  fix go l := match l with
  | [] => Some []
  | a :: l => match f a, go l with Some b, Some bs => Some (b :: bs) | _, _ => None end
  end.

(** A field of a type, with [default] when it is not there. *)
Definition field {A} (key : string) (read : Value -> option A) (default : option A) (v : Value) : option A :=
  match jget key v with Some x => read x | None => default end.

Definition read_strings (v : Value) : option (list string) :=
  match as_array v with Some l => all_some as_str l | None => None end.
Definition read_opt_string (v : Value) : option (option string) :=
  match v with JNull => Some None | JString s => Some (Some s) | _ => None end.
Definition read_string_map (v : Value) : option (gmap string string) :=
  match v with
  | JObject m => option_map list_to_map (all_some (fun kv => option_map (pair (fst kv)) (as_str (snd kv))) m)
  | _ => None
  end.
Definition read_u32 (v : Value) : option Z := filter_opt (fun n => n <=? u32_max) (as_u64 v).

Definition read_process (v : Value) : option ProcessDefinition :=
  if negb (is_object v) then None
  else
    match field "command" as_str (Some "") v, field "commandCandidates" read_strings (Some []) v,
          field "arguments" read_strings (Some []) v, field "workingDirectory" as_str (Some "") v,
          field "environment" read_string_map (Some ∅) v, field "stdoutLog" as_str (Some "") v,
          field "stderrLog" as_str (Some "") v, field "startupMode" as_str (Some "normal") v with
    | Some command, Some candidates, Some arguments, Some directory, Some environment, Some stdout, Some stderr, Some mode =>
        Some (mkProcessDefinition command candidates arguments directory environment stdout stderr mode)
    | _, _, _, _, _, _, _, _ => None
    end.

Definition read_opt_process (v : Value) : option (option ProcessDefinition) :=
  match v with JNull => Some None | _ => option_map Some (read_process v) end.

Definition read_registration (v : Value) : option ServiceRegistration :=
  if negb (is_object v) then None
  else
    match field "id" as_str None v, field "name" as_str None v, field "role" as_str (Some "") v,
          field "kind" as_str (Some "probe") v, field "defaultOrigin" as_str None v,
          field "originEnv" read_opt_string (Some None) v, field "portEnv" read_opt_string (Some None) v,
          field "healthPath" as_str (Some "/api/health/live") v with
    | Some id, Some name, Some role, Some kind, Some origin, Some origin_env, Some port_env, Some health =>
        match field "required" as_bool (Some false) v, field "enabledWhenModes" read_strings (Some []) v,
              field "requiredWhenModes" read_strings (Some []) v, field "lifecycle" as_str (Some "") v,
              field "process" read_opt_process (Some None) v with
        | Some required, Some enabled, Some required_when, Some lifecycle, Some process =>
            Some (mkServiceRegistration id name role kind origin origin_env port_env health required enabled required_when lifecycle process)
        | _, _, _, _, _ => None
        end
    | _, _, _, _, _, _, _, _ => None
    end.

(** Schema, version and services of a registry file. *)
Definition read_registry (v : Value) : option (string * Z * list ServiceRegistration) :=
  if negb (is_object v) then None
  else
    match field "schema" as_str None v, field "version" read_u32 None v,
          field "services" (fun v => match as_array v with Some l => all_some read_registration l | None => None end) None v with
    | Some schema, Some version, Some services => Some (schema, version, services)
    | _, _, _ => None
    end.

Definition read_event (v : Value) : option ServiceLifecycleEvent :=
  if negb (is_object v) then None
  else
    match field "id" as_u64 None v, field "timestamp" as_str None v, field "serviceId" as_str None v,
          field "serviceName" as_str None v, field "action" as_str None v, field "outcome" as_str None v,
          field "source" as_str None v, field "message" as_str None v,
          field "pid" (fun v => match v with JNull => Some None | _ => option_map Some (read_u32 v) end) (Some None) v with
    | Some id, Some timestamp, Some service_id, Some name, Some action, Some outcome, Some source, Some message, Some pid =>
        Some (mkServiceLifecycleEvent id timestamp service_id name action outcome source message pid)
    | _, _, _, _, _, _, _, _, _ => None
    end.

(** ** Restarts *)

(** The delay before the next start, doubled with every failure up to sixteen times. *)
Definition restart_backoff (consecutive_failures : Z) : Z := RESTART_BACKOFF * 2 ^ Z.min consecutive_failures 4.

Definition with_failures n faulted (r : ServiceRuntime) : ServiceRuntime :=
  mkServiceRuntime (child r) (known_pid r) (desired_running r) (started_at r) (restart_count r) n faulted
    (last_launch_attempt r) (observed_running r) (last_reason r) (last_probe r).
Definition record_start_failure (r : ServiceRuntime) : ServiceRuntime :=
  let failures := sat_add u32_max (consecutive_start_failures r) 1 in
  with_failures failures (MAX_CONSECUTIVE_START_FAILURES <=? failures) r.
Definition with_reason v (r : ServiceRuntime) : ServiceRuntime :=
  mkServiceRuntime (child r) (known_pid r) (desired_running r) (started_at r) (restart_count r) (consecutive_start_failures r)
    (startup_faulted r) (last_launch_attempt r) (observed_running r) v (last_probe r).
Definition with_attempt v (r : ServiceRuntime) : ServiceRuntime :=
  mkServiceRuntime (child r) (known_pid r) (desired_running r) (started_at r) (restart_count r) (consecutive_start_failures r)
    (startup_faulted r) v (observed_running r) (last_reason r) (last_probe r).
Definition with_known_pid v (r : ServiceRuntime) : ServiceRuntime :=
  mkServiceRuntime (child r) v (desired_running r) (started_at r) (restart_count r) (consecutive_start_failures r)
    (startup_faulted r) (last_launch_attempt r) (observed_running r) (last_reason r) (last_probe r).
Definition with_probe v (r : ServiceRuntime) : ServiceRuntime :=
  mkServiceRuntime (child r) (known_pid r) (desired_running r) (started_at r) (restart_count r) (consecutive_start_failures r)
    (startup_faulted r) (last_launch_attempt r) (observed_running r) (last_reason r) v.
Definition with_running desired observed (r : ServiceRuntime) : ServiceRuntime :=
  mkServiceRuntime (child r) (known_pid r) desired (started_at r) (restart_count r) (consecutive_start_failures r)
    (startup_faulted r) (last_launch_attempt r) observed (last_reason r) (last_probe r).
(** No process. *)
Definition without_process (r : ServiceRuntime) : ServiceRuntime :=
  mkServiceRuntime None None (desired_running r) None (restart_count r) (consecutive_start_failures r)
    (startup_faulted r) (last_launch_attempt r) (observed_running r) (last_reason r) (last_probe r).

(** ** Addresses *)

Definition trim_end_slashes (s : string) : string :=
  String.rev (strip_all (fun s => match s with String a r => if byte_is a 47 then Some r else None | EmptyString => None end)
    (String.length s) (String.rev s)).

Fixpoint has_whitespace (s : string) : bool :=
  is_some (strip_ws s) || match s with String _ r => has_whitespace r | EmptyString => false end.

Definition normalize_origin (value : string) : option string :=
  match strip_prefix "http://" (trim_end_slashes (trim value)) with
  | None => None
  | Some authority =>
      if is_empty authority
         || any_byte (fun a => byte_is a 47 || byte_is a 92 || byte_is a 64 || byte_is a 63 || byte_is a 35 || byte_is a 13 || byte_is a 10) authority
         || has_whitespace authority
      then None
      else
        match rsplit_colon authority with
        | None => None
        | Some (host, port) =>
            match filter_opt (fun port => port >? 0) (parse_u16 port) with
            | None => None
            | Some port => if one_of host ["127.0.0.1"; "localhost"] then Some ("http://" +:+ host +:+ ":" +:+ dec port) else None
            end
        end
  end.

Section Loop.
Context `{SupervisorEnv} `{JsonCodec}.

Definition resolved_origin (r : ServiceRegistration) : string :=
  let from_origin :=
    match sr_origin_env r with
    | Some name => match env_var name with
                   | Some value => if is_some (normalize_origin value) then Some (trim_end_slashes value) else None
                   | None => None
                   end
    | None => None
    end in
  let from_port :=
    match sr_port_env r with
    | Some name =>
        match match env_var name with Some value => parse_u16 value | None => None end with
        | Some port =>
            let base := unwrap_or (normalize_origin (sr_default_origin r)) "http://127.0.0.1:80" in
            let host := unwrap_or (match strip_prefix "http://" base with
                                   | Some authority => option_map fst (rsplit_colon authority)
                                   | None => None
                                   end) "127.0.0.1" in
            Some ("http://" +:+ host +:+ ":" +:+ dec port)
        | None => None
        end
    | None => None
    end in
  unwrap_or (or_else from_origin from_port) (unwrap_or (normalize_origin (sr_default_origin r)) (sr_default_origin r)).

Definition resolved_port (r : ServiceRegistration) : Z :=
  unwrap_or (match normalize_origin (resolved_origin r) with
             | Some origin => match rsplit_colon origin with Some (_, port) => parse_u16 port | None => None end
             | None => None
             end) 80.

(** ** Probes *)

(** The loop that reads the response: until the end or beyond 256 KiB. *)
Fixpoint read_response (received : string) (chunks : list string) : string :=
  match chunks with
  | [] => received
  | chunk :: chunks =>
      if is_empty chunk then received
      else let received := received +:+ chunk in
        if str_len received >? 256 * 1024 then received else read_response received chunks
  end.

Definition probe_status (head : string) : Z :=
  unwrap_or (if utf8_valid head then
               match lines head with
               | line :: _ => match nth_error (split_whitespace line) 1 with Some value => parse_u16 value | None => None end
               | [] => None
               end
             else None) 0.

(** [.get(a).or_else(|| .get(b)).and_then(Value::as_bool)]. *)
Definition first_bool (keys : list string) (v : Value) : option bool :=
  match find_map (fun key => jget key v) keys with Some x => as_bool x | None => None end.

(** What the response says: health, status and the reason of a failure. *)
Definition probe_verdict (kind response : string) : bool * Z * option string :=
  let separator := split_once blank_line response in
  let status := probe_status (match separator with Some (head, _) => head | None => response end) in
  let payload := match separator with Some (_, body) => json_parse body | None => None end in
  let http_ok := (200 <=? status) && (status <? 300) in
  let keys := if kind == "capture" then ["providerReady"; "ready"] else ["ready"; "gatewayReady"; "ok"] in
  let semantic_ready := match payload with Some value => first_bool keys value | None => None end in
  let not_ready := match semantic_ready with Some false => true | _ => false end in
  let reason :=
    if negb http_ok then Some (if status =? 0 then "健康响应无效" else "健康检查返回 HTTP " +:+ dec status)
    else if not_ready && (kind == "capture") then
      let value := unwrap_or payload JNull in
      let history_only := unwrap_or (get_bool "historyOnly" value) false in
      let connected := unwrap_or (get_u64 "cameraCount" value) 0 in
      let expected := unwrap_or (get_u64 "expectedCameras" value) 0 in
      let detail := option_map (take_chars 160) (filter_opt (fun text => negb (is_blank text)) (get_str "lastError" value)) in
      Some (if history_only then "采集服务正在历史只读模式运行，未尝试连接相机"
            else match detail with
                 | Some detail => "采集进程运行且已尝试连接相机（" +:+ dec connected +:+ "/" +:+ dec expected +:+ "）：" +:+ detail
                 | None => "采集进程运行且已尝试连接相机，但相机尚未就绪（" +:+ dec connected +:+ "/" +:+ dec expected +:+ "）"
                 end)
    else if not_ready then Some "服务进程可达，但内部就绪检查未通过"
    else None in
  (http_ok && unwrap_or semantic_ready true, status, reason).

Definition elapsed (since : Z) : Sup Z := let^ instant := now in pure (sat_sub instant since).

Definition probe_registration (r : ServiceRegistration) : Sup ProbeResult :=
  let origin := resolved_origin r in
  let^ started := now in
  let invalid reason := pure (mkProbeResult false 0 0 (Some reason)) in
  match strip_prefix "http://" origin with
  | None => invalid "服务地址无效"
  | Some authority =>
      match rsplit_colon authority with
      | None => invalid "服务地址无效"
      | Some (host, port_text) =>
          match parse_u16 port_text with
          | None => invalid "服务端口无效"
          | Some port =>
              let request := "GET " +:+ sr_health_path r +:+ " HTTP/1.1" +:+ crlf +:+ "Host: " +:+ host +:+ ":" +:+ dec port +:+ crlf
                +:+ "Connection: close" +:+ crlf +:+ crlf in
              let^ exchange := ask (fun n => exchange_at n host port request) in
              let^ latency := elapsed started in
              pure (match exchange with
                    | Unresolvable => mkProbeResult false 0 latency (Some "服务地址不可解析")
                    | Refused => mkProbeResult false 0 latency (Some "进程未监听服务端口")
                    | SendFailed => mkProbeResult false 0 latency (Some "健康请求发送失败")
                    | Answered chunks =>
                        let '(ok, status, reason) := probe_verdict (sr_kind r) (read_response "" chunks) in
                        mkProbeResult ok status latency reason
                    end)
          end
      end
  end.

Definition listener_pid (port : Z) : Sup (option Z) := ask (fun n => listener_at n port).
Definition terminate_process_tree (pid : Z) : Sup (Result unit string) := ask (fun n => terminate_at n pid).

(** ** The table of services *)

Definition find_registration (id : string) (s : ServiceSupervisor) : option ServiceRegistration :=
  List.find (fun r => sr_id r == id) (registrations s).
Definition registration (id : string) : Sup (Result ServiceRegistration string) :=
  let^ s := self in
  pure (match find_registration id s with Some r => Ok r | None => Err ("未注册服务：" +:+ id) end).
Definition mode_of (id : string) : Sup (Result StartupMode string) :=
  let^ s := self in
  pure (match modes s !! id with Some mode => Ok mode | None => Err ("未注册服务：" +:+ id) end).

Definition persist_modes : Sup (Result unit string) :=
  let^ s := self in
  let^ made := fs_create_dir_all (state_root s) in
  match made with
  | Err error => pure (Err ("启动模式目录创建失败：" +:+ error_text error))
  | Ok _ =>
      let services := jobj (map (fun im => (fst im, JString (startup_mode_str (snd im)))) (map_to_list (modes s))) in
      let payload := json_pretty (jobj [("schema", JString "steel.service-startup-modes.v1"); ("services", services)]) in
      let^ written := fs_write (state_root s ++ ["service-startup-modes.json"]) payload in
      pure (map_err (fun error => "启动模式保存失败：" +:+ error_text error) written)
  end.

Definition read_modes (path : PathBuf) : Sup (gmap string StartupMode) :=
  let^ text := fs_read_to_string path in
  pure (match parse_text text with
        | Some value =>
            match jget "services" value with
            | Some (JObject m) =>
                list_to_map (rev (omap (fun im => match as_str (snd im) with
                                                  | Some mode => option_map (pair (fst im)) (result_ok (parse_startup_mode mode))
                                                  | None => None
                                                  end) m))
            | _ => ∅
            end
        | None => ∅
        end).

(** The last events of the log, oldest first. *)
Definition read_events (path : PathBuf) : Sup (list ServiceLifecycleEvent) :=
  let^ text := fs_read_to_string path in
  pure (match text with
        | Ok text => rev (omap (fun line => match json_parse line with Some v => read_event v | None => None end)
                            (firstn MAX_EVENTS (rev (lines text))))
        | Err _ => []
        end).

(** At most [MAX_EVENTS] events are kept: the oldest go. *)
Definition push_event (e : ServiceLifecycleEvent) (l : list ServiceLifecycleEvent) : list ServiceLifecycleEvent :=
  skipn (length l + 1 - MAX_EVENTS) (l ++ [e]).

Definition append_event (r : ServiceRegistration) (action outcome source message : string) (pid : option Z) : Sup unit :=
  let^ s := self in
  let^ millis := unix_time_millis in
  let event := mkServiceLifecycleEvent (next_event_id s) (dec millis) (sr_id r) (sr_name r) action outcome source message pid in
  let^ _ := update (fun s => with_events (push_event event (events s)) (sat_add u64_max (next_event_id s) 1) s) in
  let^ opened := open_append (log_root s ++ ["service-lifecycle.jsonl"]) in
  match opened with Ok q => append_handle q (event_line event) | Err _ => pure tt end.

(** ** Starting *)

(** [str::replace]; the pattern is not empty. *)
Fixpoint replace_go (fuel : nat) (pattern new s : string) : string :=
  match fuel with
  | O => s
  | S fuel => match split_once pattern s with
              | Some (before, after) => before +:+ new +:+ replace_go fuel pattern new after
              | None => s
              end
  end.
Definition replace (pattern new s : string) : string := replace_go (S (String.length s)) pattern new s.

Definition resolve_workspace_path (root : PathBuf) (value : string) : PathBuf :=
  path_join root (replace "{workspaceRoot}" (display root) value).

Definition expand_value (value : string) (s : ServiceSupervisor) : string :=
  replace "{logRoot}" (display (log_root s))
    (replace "{stateRoot}" (display (state_root s)) (replace "{workspaceRoot}" (display (workspace_root s)) value)).

Fixpoint find_command (root : PathBuf) (values : list string) : Sup (option PathBuf) :=
  match values with
  | [] => pure None
  | value :: values =>
      if is_blank value then find_command root values
      else
        let path := resolve_workspace_path root value in
        let^ regular := path_is_file path in
        if regular then pure (Some path) else find_command root values
  end.
Definition resolve_command (process : ProcessDefinition) (root : PathBuf) : Sup (option PathBuf) :=
  find_command root (pd_command process :: pd_command_candidates process).

Definition open_append_log (path : PathBuf) : Sup (Result Path string) :=
  let^ opened := open_append path in
  pure (map_err (fun error => "服务日志打开失败（" +:+ display path +:+ "）：" +:+ error_text error) opened).

Definition log_name (configured fallback : string) : string := if is_blank configured then fallback else configured.

(** [command.env(..)]: what the registry sets, and the mode over it. *)
Definition child_environment (process : ProcessDefinition) (s : ServiceSupervisor) : gmap string string :=
  <["STEEL_ACQUISITION_MODE" := acquisition_mode s]> ((fun value => expand_value value s) <$> pd_environment process).

(** [command.spawn()]. *)
Definition spawn (id : string) (command : PathBuf) (process : ProcessDefinition) (directory : PathBuf) : Sup (Result Z string) :=
  let^ s := self in
  let^ outcome := ask spawn_at in
  fun w => (outcome, with_spawn (mkSpawn id command (map (fun a => expand_value a s) (pd_arguments process)) directory
                                   (child_environment process s) outcome) w).

Definition launched (pid millis instant : Z) (r : ServiceRuntime) : ServiceRuntime :=
  mkServiceRuntime (Some pid) (Some pid) true (Some millis) (sat_add u32_max (restart_count r) 1) (consecutive_start_failures r)
    (startup_faulted r) (Some instant) (observed_running r) None None.

Definition launch_failed (error : string) (instant : Z) (r : ServiceRuntime) : ServiceRuntime :=
  let r := record_start_failure (with_attempt (Some instant) r) in
  with_reason (Some (if startup_faulted r
                     then error +:+ "；连续失败 " +:+ dec (consecutive_start_failures r) +:+ " 次，已停止自动重试"
                     else error)) r.

(** [start_service] from the spawn on. *)
Definition launch (r : ServiceRegistration) (command : PathBuf) (process : ProcessDefinition) (directory : PathBuf) (source : string)
    : Sup (Result string string) :=
  let^ outcome := spawn (sr_id r) command process directory in
  match outcome with
  | Ok pid =>
      let^ millis := unix_time_millis in
      let^ instant := now in
      let^ _ := update (with_runtime (sr_id r) (launched pid millis instant)) in
      let message := sr_name r +:+ " 启动命令已执行" in
      let^ _ := append_event r "start" "success" source message (Some pid) in
      pure (Ok message)
  | Err error =>
      let error := sr_name r +:+ " 启动失败：" +:+ error in
      let^ instant := now in
      let^ _ := update (with_runtime (sr_id r) (launch_failed error instant)) in
      let^ _ := append_event r "start" "failed" source error None in
      pure (Err error)
  end.

Definition start_process (r : ServiceRegistration) (source : string) : Sup (Result string string) :=
  let^ s := self in
  match sr_process r with
  | None => pure (Err "服务没有注册启动命令")
  | Some process =>
      let^ command := resolve_command process (workspace_root s) in
      match command with
      | None => pure (Err ("未找到 " +:+ sr_name r +:+ " 的可执行命令"))
      | Some command =>
          let directory := resolve_workspace_path (workspace_root s)
            (if is_blank (pd_working_directory process) then "." else pd_working_directory process) in
          let^ made := fs_create_dir_all (log_root s) in
          match made with
          | Err error => pure (Err ("服务日志目录创建失败：" +:+ error_text error))
          | Ok _ =>
              let^? _ := open_append_log (path_join (log_root s) (log_name (pd_stdout_log process) (sr_id r +:+ ".out.log"))) in
              let^? _ := open_append_log (path_join (log_root s) (log_name (pd_stderr_log process) (sr_id r +:+ ".err.log"))) in
              launch r command process directory source
          end
      end
  end.

Definition already_running (pid : option Z) (r : ServiceRuntime) : ServiceRuntime :=
  with_running true true (with_known_pid (or_else pid (known_pid r)) r).

Definition start_service (id source : string) : Sup (Result string string) :=
  let^ s := self in
  if mode_transition_hold s then pure (Err "运行模式切换正在提交，暂不允许启动服务")
  else
    let^? r := registration id in
    if negb (service_enabled_for_mode r (acquisition_mode s))
    then pure (Err (sr_name r +:+ " 在 " +:+ acquisition_mode s +:+ " 采集模式下已停用"))
    else
      let^? mode := mode_of id in
      if bool_decide (mode = Disabled) then pure (Err "服务已禁用，请先修改启动模式")
      else
        let^ probe := probe_registration r in
        if pr_ok probe then
          let^ pid := listener_pid (resolved_port r) in
          let^ _ := update (with_runtime id (already_running pid)) in
          let message := sr_name r +:+ " 已在运行" in
          let^ _ := append_event r "start" "success" source message pid in
          pure (Ok message)
        else start_process r source.

(** ** Stopping *)

Definition stopped (r : ServiceRuntime) : ServiceRuntime :=
  mkServiceRuntime None None false None (restart_count r) (consecutive_start_failures r) (startup_faulted r)
    (last_launch_attempt r) false None None.

(** The process to end: the one known, or the listener; never the supervisor itself. *)
Definition stop_target (r : ServiceRegistration) : Sup (option Z) :=
  let^ s := self in
  let^ pid :=
    match match runtimes s !! sr_id r with Some runtime => known_pid runtime | None => None end with
    | Some pid => pure (Some pid)
    | None => listener_pid (resolved_port r)
    end in
  pure (filter_opt (fun pid => negb (pid =? own_pid)) pid).

(** [stop_service] once the startup mode is settled. *)
Definition stop_process (r : ServiceRegistration) (source : string) : Sup (Result string string) :=
  let^ pid := stop_target r in
  let^ result := match pid with Some pid => terminate_process_tree pid | None => pure (Ok tt) end in
  let^ s := self in
  let^ _ := match match runtimes s !! sr_id r with Some runtime => child runtime | None => None end with
            | Some child => let^ _ := ask (fun n => wait_at n child) in pure tt
            | None => pure tt
            end in
  let^ _ := update (with_runtime (sr_id r) stopped) in
  match result with
  | Ok _ =>
      let message := sr_name r +:+ (if is_some pid then " 已停止" else " 已处于停止状态") in
      let^ _ := append_event r "stop" "success" source message pid in
      pure (Ok message)
  | Err error =>
      let^ _ := append_event r "stop" "failed" source error pid in
      pure (Err error)
  end.

Definition stop_service (id source : string) (operator_stop : bool) : Sup (Result string string) :=
  let^? r := registration id in
  let^? _ :=
    if operator_stop then
      let^? mode := mode_of id in
      if bool_decide (mode = Normal) then
        let^ _ := update (fun s => with_modes (<[id := Manual]> (modes s)) s) in
        persist_modes
      else pure (Ok tt)
    else pure (Ok tt) in
  stop_process r source.

(** ** Applying a mode *)

(** A process is seen: a child, a known process, a probe that succeeded, or one that succeeds now. *)
Definition seen_running (r : ServiceRuntime) : bool := is_some (child r) || is_some (known_pid r) || observed_running r.
Definition observed (r : ServiceRegistration) : Sup bool :=
  let^ s := self in
  if is_some_and (runtimes s !! sr_id r) seen_running then pure true
  else let^ probe := probe_registration r in pure (pr_ok probe).

(** The managed services, the inspection service last ([sort_by_key] is stable). *)
Definition stop_order (l : list ServiceRegistration) : list string :=
  let ids := map sr_id (List.filter (fun r => is_some (sr_process r)) l) in
  List.filter (fun id => id != "inspection") ids ++ List.filter (fun id => id == "inspection") ids.

Fixpoint stop_all (ids : list string) : Sup (list string) :=
  match ids with
  | [] => pure []
  | id :: ids =>
      let^ s := self in
      let^ seen := match find_registration id s with
                   | Some r => observed r
                   | None => pure (is_some_and (runtimes s !! id) seen_running)
                   end in
      let^ failed :=
        if seen then
          let^ result := stop_service id "acquisition-mode-change" false in
          pure (match result with Ok _ => [] | Err error => [id +:+ ": " +:+ error] end)
        else pure [] in
      let^ rest := stop_all ids in
      pure (failed ++ rest)
  end.

Fixpoint join_text (sep : string) (l : list string) : string :=
  match l with [] => "" | [s] => s | s :: l => s +:+ sep +:+ join_text sep l end.

Definition applied_path (s : ServiceSupervisor) : PathBuf := state_root s ++ ["applied-acquisition-mode.json"].
Definition applied_document (mode : string) (millis : Z) : Value :=
  jobj [("schema", JString "steel.applied-acquisition-mode.v1"); ("acquisitionMode", JString mode); ("updatedAt", JString (dec millis))].

Definition clear_failures (r : ServiceRuntime) : ServiceRuntime := with_failures 0 false r.

Definition apply_acquisition_mode (mode : string) : Sup unit :=
  let^ s := self in
  let^ stop_errors := stop_all (stop_order (registrations s)) in
  match stop_errors with
  | _ :: _ =>
      update (with_load_error (Some ("运行模式切换停止服务失败，保持模式 " +:+ acquisition_mode s +:+ "：" +:+ join_text "; " stop_errors)))
  | [] =>
      let^ made := fs_create_dir_all (state_root s) in
      let^ persisted :=
        match made with
        | Err error => pure (Err error)
        | Ok _ =>
            let^ millis := unix_time_millis in
            fs_write (applied_path s) (json_pretty (applied_document mode millis))
        end in
      match persisted with
      | Err error => update (with_load_error (Some ("运行模式切换状态持久化失败，保持模式 " +:+ acquisition_mode s +:+ "：" +:+ error_text error)))
      | Ok _ =>
          let^ promoted := promote_released_runtime_mode (workspace_root s) mode in
          let^ _ := match promoted with
                    | Err error => update (with_load_error (Some ("目标模式已持久化，但提交日志晋级失败，将保持目标模式故障状态：" +:+ error)))
                    | Ok _ => pure tt
                    end in
          update (fun s => with_runtimes (clear_failures <$> runtimes s) (with_acquisition_mode mode s))
      end
  end.

(** ** One service of a tick *)

(** The child is asked whether it has ended; the process id and code of one that has. *)
Definition reap (id : string) : Sup (option (option Z * option Z)) :=
  let^ s := self in
  match runtimes s !! id with
  | None => pure None
  | Some runtime =>
      match child runtime with
      | None => pure None
      | Some pid =>
          let^ status := ask (fun n => wait_at n pid) in
          match status with
          | Exited code =>
              let^ _ := update (with_runtime id without_process) in
              pure (Some (known_pid runtime, code))
          | StillRunning =>
              let^ _ := update (with_runtime id (with_known_pid (Some pid))) in
              pure None
          | WaitFailed error =>
              let^ _ := update (with_runtime id (with_reason (Some ("进程状态读取失败：" +:+ error)))) in
              pure None
          end
      end
  end.

Definition note_exit (r : ServiceRuntime) : ServiceRuntime :=
  let r := record_start_failure r in
  if startup_faulted r
  then with_reason (Some ("目标模式服务连续启动失败 " +:+ dec (consecutive_start_failures r) +:+ " 次，已停止自动重试；请修复配置后显式启动")) r
  else r.

Definition record_exit (r : ServiceRegistration) (exited : option (option Z * option Z)) : Sup unit :=
  match exited with
  | None => pure tt
  | Some (pid, code) =>
      let^ _ := update (with_runtime (sr_id r) note_exit) in
      append_event r "exit" "warning" "supervisor" ("进程已退出，退出码 " +:+ match code with Some code => dec code | None => "未知" end) pid
  end.

(** The probe succeeded. *)
Definition healthy (mode : StartupMode) (r : ServiceRuntime) : ServiceRuntime :=
  with_reason None (with_failures 0 false (with_running (bool_decide (mode = Normal) || desired_running r) true r)).

(** No process is left and no one listens. *)
Definition gone (mode : StartupMode) (r : ServiceRuntime) : ServiceRuntime :=
  with_running (if bool_decide (mode = Manual) then false else desired_running r) false (without_process r).

(** Whether the delay since the last start is over. *)
Definition backoff_over (r : ServiceRuntime) : Sup bool :=
  match last_launch_attempt r with
  | None => pure true
  | Some attempt => let^ since := elapsed attempt in pure (restart_backoff (consecutive_start_failures r) <=? since)
  end.

(** The verdict of the probe: the runtime afterwards, whether the service is to be started, whether it
    ended unexpectedly. *)
Definition judge (r : ServiceRegistration) (mode : StartupMode) (probe : ProbeResult) (runtime : ServiceRuntime)
    : Sup (ServiceRuntime * bool * bool) :=
  if pr_ok probe then
    let runtime := healthy mode runtime in
    let^ pid := match known_pid runtime with
                | Some pid => pure (Some pid)
                | None => listener_pid (resolved_port r)
                end in
    pure (with_known_pid pid runtime, false, false)
  else
    let^ port_pid := match child runtime with Some _ => pure (known_pid runtime) | None => listener_pid (resolved_port r) end in
    let^ s := self in
    let^ '(runtime, start, unexpected) :=
      match port_pid with
      | Some _ => pure (with_known_pid port_pid runtime, false, false)
      | None =>
          if is_none (child runtime) then
            let unexpected := observed_running runtime in
            let runtime := gone mode runtime in
            if negb (mode_transition_hold s) && negb (startup_faulted runtime) && bool_decide (mode = Normal) then
              let^ over := backoff_over runtime in
              pure (runtime, over, unexpected)
            else pure (runtime, false, unexpected)
          else pure (runtime, false, false)
      end in
    pure (if startup_faulted runtime then runtime else with_reason (pr_reason probe) runtime, start, unexpected).

Definition set_idle (r : ServiceRuntime) : ServiceRuntime := with_probe None (with_reason None (with_running false false r)).

(** A service the mode does not use. *)
Definition retire (r : ServiceRegistration) : Sup unit :=
  let^ seen := observed r in
  if seen then let^ _ := stop_service (sr_id r) "acquisition-mode" false in pure tt
  else update (with_runtime (sr_id r) set_idle).

(** A service the mode uses. *)
Definition supervise (r : ServiceRegistration) (mode : StartupMode) : Sup unit :=
  let id := sr_id r in
  let^ exited := reap id in
  let^ _ := record_exit r exited in
  let^ probe := probe_registration r in
  let^ s := self in
  match runtimes s !! id with
  | None => pure tt
  | Some runtime =>
      let^ '(runtime, should_start, unexpected_exit) := judge r mode probe runtime in
      let^ _ := update (with_runtime id (fun _ => with_probe (Some probe) runtime)) in
      let^ _ :=
        if unexpected_exit then
          let^ _ := update (with_runtime id record_start_failure) in
          append_event r "exit" "warning" "health-probe" "探针确认进程已停止" None
        else pure tt in
      if should_start then
        let^ _ := start_service id (if is_some exited || unexpected_exit then "auto-restart" else "startup") in pure tt
      else pure tt
  end.

Definition reconcile_service (id : string) : Sup unit :=
  let^ s := self in
  match find_registration id s with
  | None => pure tt
  | Some r =>
      let mode := unwrap_or (modes s !! id) Manual in
      if service_enabled_for_mode r (acquisition_mode s) then supervise r mode else retire r
  end.

Fixpoint reconcile_services (ids : list string) : Sup unit :=
  match ids with
  | [] => pure tt
  | id :: ids => let^ _ := reconcile_service id in reconcile_services ids
  end.

(** The part of a tick that settles the mode. *)
Definition reconcile_mode : Sup unit :=
  let^ s := self in
  let^ hold := runtime_mode_transition_hold (workspace_root s) in
  let^ _ := update (with_hold hold) in
  let^ configured := configured_acquisition_mode (workspace_root s) in
  match configured with
  | Ok configured_mode =>
      let^ _ := if is_some_and (load_error s) (fun error => starts_with "运行模式" error) then update (with_load_error None) else pure tt in
      if configured_mode != acquisition_mode s then apply_acquisition_mode configured_mode else pure tt
  | Err error => update (fun s => with_load_error (Some error) (with_hold true s))
  end.

Definition reconcile : Sup unit :=
  let^ _ := reconcile_mode in
  let^ s := self in
  reconcile_services (map sr_id (registrations s)).

(** ** Operations of the operator *)

Definition clear_startup_fault (id : string) : Sup unit :=
  update (with_runtime id (fun r => with_attempt None (with_failures 0 false r))).

Definition action (id name source : string) : Sup (Result string string) :=
  let word := to_ascii_lowercase (trim name) in
  if word == "start" then
    let^ _ := clear_startup_fault id in
    start_service id source
  else if word == "stop" then stop_service id source true
  else if word == "restart" then
    let^ _ := clear_startup_fault id in
    let^? mode := mode_of id in
    if bool_decide (mode = Disabled) then pure (Err "服务已禁用，请先修改启动模式")
    else
      let^? _ := stop_service id source false in
      start_service id source
  else pure (Err "服务操作仅支持 start、stop 或 restart").

Definition mode_chosen (mode : StartupMode) (r : ServiceRuntime) : ServiceRuntime :=
  let r := if bool_decide (mode = Normal) then with_attempt None (with_failures 0 false r) else r in
  with_running (bool_decide (mode = Normal) || (bool_decide (mode = Manual) && observed_running r)) (observed_running r) r.

Definition set_startup_mode (id text source : string) : Sup (Result string string) :=
  let^? r := registration id in
  match parse_startup_mode text with
  | Err error => pure (Err error)
  | Ok mode =>
      let^ _ := update (fun s => with_runtime id (mode_chosen mode) (with_modes (<[id := mode]> (modes s)) s)) in
      let^? _ := persist_modes in
      let^ s := self in
      let pid := match runtimes s !! id with Some runtime => known_pid runtime | None => None end in
      let^ _ := append_event r "startup-mode" "success" source ("启动模式已设置为 " +:+ startup_mode_str mode) pid in
      let^ _ :=
        if bool_decide (mode = Disabled) then let^ _ := stop_service id source false in pure tt
        else if bool_decide (mode = Normal) && service_enabled_for_mode r (acquisition_mode s) then
          let^ probe := probe_registration r in
          if pr_ok probe then pure tt
          else
            let^ pid := listener_pid (resolved_port r) in
            match pid with
            | None => let^ _ := start_service id source in pure tt
            | Some _ => pure tt
            end
        else pure tt in
      pure (Ok (sr_name r +:+ " 启动模式已设置为 " +:+ startup_mode_str mode))
  end.

(** ** Loading *)

(** [PathBuf::from] of a text that may be relative. *)
Definition path_from (text : string) : PathBuf := path_join (unwrap_or current_dir []) text.

Definition runtime_state_root (root : PathBuf) : PathBuf :=
  match filter_opt (fun value => negb (is_blank value)) (env_var "STEEL_MONITOR_STATE_ROOT") with
  | Some value => path_from value
  | None => path_join root "target/run/server-monitor"
  end.

Definition has_registry (root : PathBuf) : Sup bool := path_is_file (path_join root "config/service-registry.json").

(** The first of [Path::ancestors] with a registry, from the path itself to the root. *)
Fixpoint first_ancestor (reversed : list string) : Sup (option PathBuf) :=
  let^ found := has_registry (rev reversed) in
  if found then pure (Some (rev reversed))
  else match reversed with [] => pure None | _ :: above => first_ancestor above end.

Fixpoint first_candidate (candidates : list PathBuf) : Sup (option PathBuf) :=
  match candidates with
  | [] => pure None
  | candidate :: candidates =>
      let^ found := first_ancestor (rev candidate) in
      match found with Some root => pure (Some root) | None => first_candidate candidates end
  end.

Definition option_list {A} (o : option A) : list A := match o with Some a => [a] | None => [] end.

Definition discover_workspace_root : Sup PathBuf :=
  let^ explicit := match env_var "STEEL_WORKSPACE_ROOT" with
                   | Some value => let^ found := has_registry (path_from value) in pure (if found then Some (path_from value) else None)
                   | None => pure None
                   end in
  match explicit with
  | Some root => pure root
  | None =>
      let programs := match current_exe with Some exe => option_list (path_parent exe) | None => [] end in
      let^ found := first_candidate (option_list current_dir ++ programs) in
      pure (unwrap_or found (unwrap_or current_dir []))
  end.

(** The startup mode of a service: the one saved, or the one registered. *)
Definition loaded_mode (saved : gmap string StartupMode) (r : ServiceRegistration) : StartupMode :=
  unwrap_or (saved !! sr_id r)
    (unwrap_or (match sr_process r with Some process => result_ok (parse_startup_mode (pd_startup_mode process)) | None => None end)
       (if sr_required r then Normal else Manual)).

Definition loaded_runtime (saved : gmap string StartupMode) (configured_mode : string) (r : ServiceRegistration) : ServiceRuntime :=
  with_running (bool_decide (loaded_mode saved r = Normal) && service_enabled_for_mode r configured_mode) false default_runtime.

(** [try_load] for a workspace: the supervisor with the files it reads. *)
Definition try_load (root : PathBuf) : Sup (Result ServiceSupervisor string) :=
  let registry_path := match filter_opt (fun value => negb (is_blank value)) (env_var "STEEL_SERVICE_REGISTRY_PATH") with
                       | Some value => path_from value
                       | None => path_join root "config/service-registry.json"
                       end in
  let^ registry_text := fs_read_to_string registry_path in
  match registry_text with
  | Err error => pure (Err ("服务注册表读取失败（" +:+ display registry_path +:+ "）：" +:+ error_text error))
  | Ok registry_text =>
      let^ text := ask text_at in
      match match json_parse registry_text with Some v => read_registry v | None => None end with
      | None => pure (Err ("服务注册表 JSON 无效：" +:+ text))
      | Some (schema, version, services) =>
          if (schema != "steel.service-registry.v1") || negb (version =? 1) then pure (Err "服务注册表版本不受支持")
          else
            let state_root := runtime_state_root root in
            let log_root := state_root ++ ["logs"] in
            let^ made := fs_create_dir_all log_root in
            match made with
            | Err error => pure (Err ("监控日志目录创建失败：" +:+ error_text error))
            | Ok _ =>
                let^ saved := read_modes (state_root ++ ["service-startup-modes.json"]) in
                let^ applied_mode := read_applied_acquisition_mode (state_root ++ ["applied-acquisition-mode.json"]) in
                let^ configured := configured_acquisition_mode root in
                let configured_mode := match configured with Ok mode => mode | Err _ => unwrap_or applied_mode "invalid" end in
                let mode_load_error := match configured with Ok _ => None | Err error => Some error end in
                let^ log := read_events (log_root ++ ["service-lifecycle.jsonl"]) in
                let next := match last log with Some e => wrap_u64 (le_id e + 1) | None => 1 end in
                let^ hold := match mode_load_error with Some _ => pure true | None => runtime_mode_transition_hold root end in
                pure (Ok (mkServiceSupervisor root registry_path state_root log_root services
                  (list_to_map (rev (map (fun r => (sr_id r, loaded_runtime saved configured_mode r)) services)))
                  (list_to_map (rev (map (fun r => (sr_id r, loaded_mode saved r)) services)))
                  log next mode_load_error (unwrap_or applied_mode "unknown") hold))
            end
      end
  end.

(** A supervisor that could not be loaded supervises nothing. *)
Definition empty_supervisor (root : PathBuf) (error : string) : ServiceSupervisor :=
  let state_root := runtime_state_root root in
  mkServiceSupervisor root (path_join root "config/service-registry.json") state_root (state_root ++ ["logs"]) [] ∅ ∅ [] 1
    (Some error) "online" false.

Definition load : Sup unit :=
  let^ root := discover_workspace_root in
  let^ loaded := try_load root in
  match loaded with
  | Ok s => update (fun _ => s)
  | Err error =>
      let^ root := discover_workspace_root in
      update (fun _ => empty_supervisor root error)
  end.

End Loop.
