(* ===== verification/SupervisorFacts.v ===== *)
(** * What the supervisor does to its services

    A crash loop is cut off after five starts, and no service is started while a change of the acquisition
    mode is under way. [wp] is the weakest precondition of a program of the supervisor; [keeps] says that a
    program leaves everything but the event log and the files alone. *)

From S2P Require Import Prelude Json Http Surface FileTree FileWrites Supervisor SupervisorMode SupervisorLoop.
From Stdlib Require Import Ascii SpecFloat.

(** ** Weakest preconditions *)

Definition wp {A} (m : Sup A) (Q : A -> World -> Prop) (w : World) : Prop := Q (fst (m w)) (snd (m w)).

Lemma wp_pure {A} (a : A) Q w : Q a w -> wp (pure a) Q w.
Proof. done. Qed.

Lemma swp_bind {A B} (m : Sup A) (k : A -> Sup B) Q w :
  wp m (fun a w' => wp (k a) Q w') w -> wp (sup_bind m k) Q w.
Proof. unfold wp, sup_bind. by destruct (m w). Qed.

Lemma wp_try {A B E} (m : Sup (Result A E)) (k : A -> Sup (Result B E)) Q w :
  wp m (fun r w' => match r with Ok a => wp (k a) Q w' | Err e => Q (Err e) w' end) w -> wp (sup_try m k) Q w.
Proof. intros Hm. apply swp_bind. unfold wp in *. by destruct (fst (m w)). Qed.

Lemma swp_mono {A} (m : Sup A) (P Q : A -> World -> Prop) w : (forall a w', P a w' -> Q a w') -> wp m P w -> wp m Q w.
Proof. unfold wp. eauto. Qed.

Lemma wp_self Q w : Q (sup w) w -> wp self Q w.
Proof. done. Qed.

Lemma wp_update f Q w : Q tt (with_sup f w) -> wp (update f) Q w.
Proof. done. Qed.

(** ** Programs that touch only events and files *)

(** The supervisor but for its events. *)
Definition core (s : ServiceSupervisor) : ServiceSupervisor := with_events [] 0 s.

Definition like (w w' : World) : Prop := core (sup w') = core (sup w) /\ spawns w' = spawns w.

#[export] Instance like_preorder : PreOrder like.
Proof. split; [done|]. intros w1 w2 w3 [H1 H2] [H3 H4]. split; congruence. Qed.

(** ** Programs within a relation *)

(** Every run of the program is a step of the relation. *)
Definition within (R : relation World) {A} (m : Sup A) : Prop := forall w, R w (snd (m w)).

Abbreviation keeps := (within like).

Section Within.
Context (R : relation World) `{PreOrder World R}.

Lemma within_pure {A} (a : A) : within R (pure a).
Proof. intros w. simpl. reflexivity. Qed.

Lemma within_bind {A B} (m : Sup A) (k : A -> Sup B) : within R m -> (forall a, within R (k a)) -> within R (sup_bind m k).
Proof. intros Hm Hk w. specialize (Hm w). unfold sup_bind. destruct (m w) as [a w'] eqn:E. etrans; [exact Hm|]. apply Hk. Qed.

Lemma within_try {A B E} (m : Sup (Result A E)) (k : A -> Sup (Result B E)) :
  within R m -> (forall a, within R (k a)) -> within R (sup_try m k).
Proof. intros Hm Hk. apply within_bind; [done|]. intros [a|e]; [apply Hk|apply within_pure]. Qed.

Lemma within_like {A} (m : Sup A) : subrelation like R -> keeps m -> within R m.
Proof. intros Hsub Hm w. apply Hsub, Hm. Qed.
End Within.

Create HintDb within.

Lemma keeps_question {A} (answer : nat -> A) : keeps (ask answer).
Proof. done. Qed.

Lemma keeps_self : keeps self.
Proof. done. Qed.

#[export] Hint Resolve within_pure keeps_question keeps_self : within.

(** Every path through a program. *)
Ltac within_step :=
  match goal with
  | |- within _ (pure _) => apply within_pure; apply _
  | |- within _ (sup_bind _ _) => apply within_bind; [apply _| |intros ?]
  | |- within _ (sup_try _ _) => apply within_try; [apply _| |intros ?]
  | |- within _ (match ?x with _ => _ end) => destruct x
  | |- within _ (let _ := _ in _) => cbv zeta
  | |- _ => solve [auto with within]
  | |- within _ _ => apply within_like; [apply _|solve [auto with within]]
  end.
Ltac within := repeat within_step.

Section Facts.
Context `{SupervisorEnv} `{JsonCodec}.

Lemma keeps_attempt {A} (run : Tree -> option (A * Tree)) missing : keeps (attempt run missing).
Proof.
  unfold attempt. within. intros w. by destruct (run (disk w)) as [[? ?]|].
Qed.

Lemma keeps_fs_read p : keeps (fs_read p).
Proof. apply keeps_attempt. Qed.
Lemma keeps_create_dir_all p : keeps (fs_create_dir_all p).
Proof. apply keeps_attempt. Qed.
Lemma keeps_remove_file p : keeps (fs_remove_file p).
Proof. apply keeps_attempt. Qed.
Lemma keeps_open_append p : keeps (open_append p).
Proof. apply keeps_attempt. Qed.
Hint Resolve keeps_attempt keeps_fs_read keeps_create_dir_all keeps_remove_file keeps_open_append : within.

Lemma keeps_read_to_string p : keeps (fs_read_to_string p).
Proof. unfold fs_read_to_string. within. Qed.
Lemma keeps_exists p : keeps (path_exists p).
Proof. unfold path_exists. within; done. Qed.
Lemma keeps_is_file p : keeps (path_is_file p).
Proof. unfold path_is_file. within; done. Qed.
Lemma keeps_write_handle q content : keeps (write_handle q content).
Proof. unfold write_handle. within; done. Qed.
Lemma keeps_append_handle q line : keeps (append_handle q line).
Proof. unfold append_handle. within; done. Qed.
Hint Resolve keeps_read_to_string keeps_exists keeps_is_file keeps_write_handle keeps_append_handle : within.

Lemma keeps_fs_write p content : keeps (fs_write p content).
Proof. unfold fs_write. within. Qed.
Lemma keeps_millis : keeps unix_time_millis.
Proof. apply keeps_question. Qed.
Lemma keeps_now : keeps now.
Proof. apply keeps_question. Qed.
Hint Resolve keeps_fs_write keeps_millis keeps_now : within.

Lemma keeps_append_event r a o s m pid : keeps (append_event r a o s m pid).
Proof.
  unfold append_event. within; done.
Qed.

Lemma keeps_persist_modes : keeps persist_modes.
Proof. unfold persist_modes. within. Qed.

Lemma keeps_probe r : keeps (probe_registration r).
Proof. unfold probe_registration, elapsed. within. Qed.

Lemma keeps_write_atomic p content : keeps (write_supervisor_bytes_atomic p content).
Proof. unfold write_supervisor_bytes_atomic. within. Qed.
Hint Resolve keeps_append_event keeps_persist_modes keeps_probe keeps_write_atomic : within.

Lemma keeps_listener port : keeps (listener_pid port).
Proof. apply keeps_question. Qed.
Lemma keeps_terminate pid : keeps (terminate_process_tree pid).
Proof. apply keeps_question. Qed.
Lemma keeps_registration id : keeps (registration id).
Proof. unfold registration. within. Qed.
Lemma keeps_mode_of id : keeps (mode_of id).
Proof. unfold mode_of. within. Qed.
Lemma keeps_fs_canonical p : keeps (fs_canonical p).
Proof. apply keeps_attempt. Qed.
Hint Resolve keeps_listener keeps_terminate keeps_registration keeps_mode_of keeps_fs_canonical : within.

Lemma keeps_open_log p : keeps (open_append_log p).
Proof. unfold open_append_log. within. Qed.

Lemma keeps_find_command root values : keeps (find_command root values).
Proof. induction values as [|value values IH]; simpl; within. Qed.

Lemma keeps_reference root base value : keeps (resolve_config_reference root base value).
Proof. unfold resolve_config_reference. within. Qed.
Hint Resolve keeps_open_log keeps_find_command keeps_reference : within.

Lemma keeps_selected root : keeps (selected_runtime_path root).
Proof. unfold selected_runtime_path. within. Qed.

Lemma keeps_staged root relative : keeps (validated_staged_runtime_profile root relative).
Proof. unfold validated_staged_runtime_profile. within. Qed.
Hint Resolve keeps_selected keeps_staged : within.

Lemma keeps_mode_of_marker root runtime_path commit_path commit profile_mode bytes :
  keeps (mode_of_marker root runtime_path commit_path commit profile_mode bytes).
Proof. unfold mode_of_marker, fenced_mode, ready_mode, publish_mode. within. Qed.
Hint Resolve keeps_mode_of_marker : within.

Lemma keeps_configured root : keeps (configured_acquisition_mode root).
Proof. unfold configured_acquisition_mode. within. Qed.

Lemma keeps_hold root : keeps (runtime_mode_transition_hold root).
Proof. unfold runtime_mode_transition_hold. within. Qed.

Lemma keeps_promote root mode : keeps (promote_released_runtime_mode root mode).
Proof. unfold promote_released_runtime_mode. within. Qed.

Lemma keeps_observed r : keeps (observed r).
Proof. unfold observed. within. Qed.

Lemma keeps_stop_target r : keeps (stop_target r).
Proof. unfold stop_target. within. Qed.
Hint Resolve keeps_configured keeps_hold keeps_promote keeps_observed keeps_stop_target : within.

Lemma keeps_judge r mode probe runtime : keeps (judge r mode probe runtime).
Proof. unfold judge, backoff_over, elapsed. within. Qed.
Hint Resolve keeps_judge : within.

(** A step that keeps, inside a weakest precondition. *)
Lemma wp_keeps {A} (m : Sup A) Q w : keeps m -> (forall a w', like w w' -> a = fst (m w) -> Q a w') -> wp m Q w.
Proof. intros Hm HQ. apply HQ; [apply Hm|done]. Qed.

(** ** Programs that act on one service *)

Definition spawns_of (id : string) (w : World) : list Spawn := List.filter (fun sp => sp_service sp == id) (spawns w).

(** What a tick looks at but does not change once the mode is settled. *)
Definition settings (s : ServiceSupervisor) : ServiceSupervisor := with_runtimes ∅ (with_load_error None (core s)).

Definition on_only (id : string) (w w' : World) : Prop :=
  settings (sup w') = settings (sup w) /\
  forall i, i <> id -> runtimes (sup w') !! i = runtimes (sup w) !! i /\ spawns_of i w' = spawns_of i w.

#[local] Instance on_only_preorder id : PreOrder (on_only id).
Proof.
  split; [done|]. intros w1 w2 w3 [S1 R1] [S2 R2]. split; [congruence|]. intros i Hi.
  destruct (R1 i Hi), (R2 i Hi). split; congruence.
Qed.

Abbreviation acts id := (within (on_only id)).

Lemma like_core w w' : like w w' -> settings (sup w') = settings (sup w) /\ runtimes (sup w') = runtimes (sup w) /\ spawns w' = spawns w.
Proof. intros [Hc Hs]. unfold settings. rewrite Hc. split_and!; [done| |done]. by apply (f_equal runtimes) in Hc. Qed.

#[local] Instance like_on_only id : subrelation like (on_only id).
Proof. intros w w' Hl. destruct (like_core _ _ Hl) as (Hs & Hr & Hp). split; [done|]. intros i _. unfold spawns_of. by rewrite Hr, Hp. Qed.

Lemma acts_runtime id f : acts id (update (with_runtime id f)).
Proof. intros w. split; [done|]. intros i Hi. split; [|done]. simpl. by rewrite lookup_alter_ne. Qed.

Lemma acts_spawn id command process directory : acts id (spawn id command process directory).
Proof.
  unfold spawn. within. intros w. split; [done|]. intros i Hi. split; [done|]. unfold spawns_of. simpl. rewrite List.filter_app. simpl.
  rewrite (proj2 (str_eqb_false id i)) by done. by rewrite app_nil_r.
Qed.

Hint Resolve acts_runtime acts_spawn : within.

Lemma acts_start_process r source : acts (sr_id r) (start_process r source).
Proof. unfold start_process, launch, resolve_command. within. Qed.
Hint Resolve acts_start_process : within.

Lemma found_id id s r : find_registration id s = Some r -> sr_id r = id.
Proof. intros Hf. apply find_elem in Hf as [_ Hf]. by apply str_eqb_true. Qed.

(** The registration that is looked up has the id. *)
Lemma acts_registration id {A} (k : ServiceRegistration -> Sup (Result A string)) :
  (forall r, sr_id r = id -> acts id (k r)) -> acts id (let^? r := registration id in k r).
Proof.
  intros Hk w. unfold registration, sup_try, sup_bind, self, pure. destruct (find_registration id (sup w)) as [r|] eqn:E; [|done].
  exact (Hk r (found_id _ _ _ E) w).
Qed.

Lemma acts_start id source : acts id (start_service id source).
Proof.
  unfold start_service. do 2 (within_step; [solve [within]|]). apply acts_registration. intros r <-. within.
Qed.

Lemma acts_stop_process r source : acts (sr_id r) (stop_process r source).
Proof. unfold stop_process. within. Qed.
Hint Resolve acts_start acts_stop_process : within.

Lemma acts_stop id source : acts id (stop_service id source false).
Proof. unfold stop_service. apply acts_registration. intros r <-. within. Qed.
Hint Resolve acts_stop : within.

Lemma acts_retire r : acts (sr_id r) (retire r).
Proof. unfold retire. within. Qed.

Lemma acts_reap id : acts id (reap id).
Proof. unfold reap. within. Qed.

Lemma acts_record_exit r exited : acts (sr_id r) (record_exit r exited).
Proof. unfold record_exit. within. Qed.
Hint Resolve acts_retire acts_reap acts_record_exit : within.

Lemma acts_supervise r mode : acts (sr_id r) (supervise r mode).
Proof. unfold supervise. within. Qed.
Hint Resolve acts_supervise : within.

Lemma acts_reconcile_service id : acts id (reconcile_service id).
Proof.
  intros w. unfold reconcile_service, sup_bind, self. destruct (find_registration id (sup w)) as [r|] eqn:E; [|done].
  apply found_id in E as <-. destruct (service_enabled_for_mode r (acquisition_mode (sup w))); [apply acts_supervise|apply acts_retire].
Qed.

(** ** Crash loops *)

(** The fault flag says that the failures have reached the limit. *)
Definition consistent (r : ServiceRuntime) : Prop :=
  0 <= consecutive_start_failures r /\ startup_faulted r = (MAX_CONSECUTIVE_START_FAILURES <=? consecutive_start_failures r).

(** Starts the service has used up: its failures and the process that may fail next. *)
Definition spent (r : ServiceRuntime) : Z := consecutive_start_failures r + (if is_some (child r) then 1 else 0).
Definition used (r : ServiceRuntime) : Z := Z.min MAX_CONSECUTIVE_START_FAILURES (spent r).

(** A service whose health endpoint never answers that it is well. *)
Definition unhealthy (r : ServiceRegistration) : Prop := forall w, pr_ok (fst (probe_registration r w)) = false.

(** The runtime [r'] may follow [r] when [n] starts were made. *)
Definition follows (n : Z) (r r' : ServiceRuntime) : Prop :=
  consistent r' /\ observed_running r' = false /\ used r + n <= used r'.

Definition starts_of (id : string) (w : World) : Z := Z.of_nat (length (spawns_of id w)).

(** Between the worlds: the runtime of the service follows with the starts that were made. *)
Definition budget (id : string) (r0 : ServiceRuntime) (n0 : Z) (w : World) : Prop :=
  exists r, runtimes (sup w) !! id = Some r /\ follows (starts_of id w - n0) r0 r.

Ltac runtime_arith :=
  unfold follows, consistent, used, spent, MAX_CONSECUTIVE_START_FAILURES, u32_max, sat_add in *; simpl in *;
  repeat match goal with
    | H : _ /\ _ |- _ => destruct H
    | |- context [is_some ?o] => destruct o eqn:?; simpl in *
    | |- context [if ?b then _ else _] => destruct b eqn:?; simpl in *
    end; split_and?; try done; bool_facts; try lia.

Lemma failure_consistent r : consistent r -> consistent (record_start_failure r).
Proof. intros [Hn _]. split; [|reflexivity]. unfold record_start_failure, sat_add, u32_max. simpl. lia. Qed.

Lemma budget_like id r0 n0 w w' : like w w' -> budget id r0 n0 w -> budget id r0 n0 w'.
Proof. intros Hl (r & Hr & Hf). apply like_core in Hl as (_ & Hrs & Hsp). exists r. unfold starts_of, spawns_of in *. by rewrite Hrs, Hsp. Qed.

Lemma budget_step id r0 n0 w f r : runtimes (sup w) !! id = Some r -> follows (starts_of id w - n0) r0 (f r) ->
  budget id r0 n0 (with_sup (with_runtime id f) w).
Proof. intros Hr Hf. exists (f r). split; [|done]. simpl. by rewrite lookup_alter_eq, Hr. Qed.

Lemma note_exit_fields r : child (note_exit r) = child r /\ observed_running (note_exit r) = observed_running r /\
  consecutive_start_failures (note_exit r) = sat_add u32_max (consecutive_start_failures r) 1 /\
  startup_faulted (note_exit r) = (MAX_CONSECUTIVE_START_FAILURES <=? sat_add u32_max (consecutive_start_failures r) 1).
Proof. unfold note_exit. by destruct (startup_faulted (record_start_failure r)). Qed.

(** A child that has ended costs one failure. *)
Lemma wp_reap id sr r0 n0 w : sr_id sr = id -> budget id r0 n0 w ->
  wp (let^ exited := reap id in record_exit sr exited) (fun _ w' => budget id r0 n0 w') w.
Proof.
  intros Hid (r & Hr & Hf). apply swp_bind. unfold wp at 1. unfold reap, sup_bind, self, ask, pure. rewrite Hr.
  destruct (child r) as [pid|] eqn:Hc; [|by exists r].
  destruct (wait_at (asked w) pid) as [code| |error]; simpl.
  - unfold record_exit. apply swp_bind. unfold wp at 1. simpl. apply wp_keeps; [apply keeps_append_event|].
    intros _ w' Hl _. apply (budget_like _ _ _ _ _ Hl). unfold with_sup. simpl.
    exists (note_exit (without_process r)). rewrite Hid. simpl. rewrite !lookup_alter_eq, Hr. split; [done|].
    destruct (note_exit_fields (without_process r)) as (E1 & E2 & E3 & E4). revert Hf.
    unfold follows, consistent, used, spent, starts_of, spawns_of. rewrite E1, E2, E3, E4. simpl. rewrite Hc. simpl.
    unfold sat_add, u32_max, MAX_CONSECUTIVE_START_FAILURES. intros ([? ?] & ? & ?). split_and!; [lia|done|done|lia].
  - unfold wp. simpl. exists (with_known_pid (Some pid) r). simpl. by rewrite lookup_alter_eq, Hr.
  - unfold wp. simpl. exists (with_reason (Some ("进程状态读取失败：" +:+ error)) r). simpl. by rewrite lookup_alter_eq, Hr.
Qed.

(** What a failed probe makes of a runtime: it is started only without a process and below the limit. *)
Lemma wp_judge sr mode probe r0 n r w : pr_ok probe = false -> follows n r0 r ->
  wp (judge sr mode probe r) (fun '(r', start, unexpected) w' =>
    like w w' /\ follows n r0 r' /\ unexpected = false /\
    (start = true -> is_some (child r') = false /\ startup_faulted r' = false)) w.
Proof.
  intros Hp Hf. pose proof (keeps_judge sr mode probe r w) as Hl. unfold wp. revert Hl. unfold judge. rewrite Hp.
  unfold listener_pid, backoff_over, elapsed, now, ask, sup_bind, self, pure.
  assert (Hreason : forall v r', follows n r0 r' -> follows n r0 (with_reason v r')) by done.
  destruct (child r) as [pid|] eqn:Hc.
  - destruct (known_pid r) as [known|]; simpl; try rewrite Hc; simpl; destruct (startup_faulted r); intros Hl;
      (split; [exact Hl|]); (split; [by try apply Hreason|]); done.
  - destruct (listener_at (asked w) (resolved_port sr)) as [port|]; simpl.
    { destruct (startup_faulted r); intros Hl; (split; [exact Hl|]); (split; [by try apply Hreason|]); done. }
    rewrite ?Hc. simpl. assert (Hg : follows n r0 (gone mode r)).
    { revert Hf. unfold follows, consistent, used, spent. simpl. rewrite ?Hc. simpl. by intros (? & ? & ?). }
    destruct (negb (mode_transition_hold (sup w)) && negb (startup_faulted r) && bool_decide (mode = Normal)) eqn:Hs; simpl.
    + apply andb_true_iff in Hs as [Hs _]. apply andb_true_iff in Hs as [_ Hs]. apply negb_true_iff in Hs.
      destruct (last_launch_attempt r); simpl; rewrite Hs; intros Hl; (split; [exact Hl|]); split_and!;
        try (by apply Hreason); try (by destruct Hf as (_ & -> & _)); done.
    + destruct (startup_faulted r) eqn:Hfa; intros Hl; (split; [exact Hl|]); split_and!;
        try (by try apply Hreason); try (by destruct Hf as (_ & -> & _)); done.
Qed.

(** A command handed over is on record. *)
Lemma wp_spawn id command process directory Q w :
  (forall outcome w' sp, sp_service sp = id -> sup w' = sup w -> spawns w' = spawns w ++ [sp] -> Q outcome w') ->
  wp (spawn id command process directory) Q w.
Proof. intros HQ. unfold wp, spawn, sup_bind, self, ask. simpl. eapply HQ; [| |reflexivity]; done. Qed.

(** The start of a process. *)
Lemma wp_launch sr command process directory source r0 n0 r w :
  runtimes (sup w) !! sr_id sr = Some r -> follows (starts_of (sr_id sr) w - n0) r0 r ->
  is_some (child r) = false -> startup_faulted r = false ->
  wp (launch sr command process directory source) (fun _ w' => budget (sr_id sr) r0 n0 w') w.
Proof.
  intros Hr ([Hn Hfl] & Ho & Hu) Hc Hs. rewrite Hs in Hfl. symmetry in Hfl. apply Z.leb_gt in Hfl.
  assert (Hcount : forall sp w', sp_service sp = sr_id sr -> spawns w' = spawns w ++ [sp] -> starts_of (sr_id sr) w' = starts_of (sr_id sr) w + 1).
  { intros sp w' Hsp Hw. unfold starts_of, spawns_of. rewrite Hw, List.filter_app. simpl. rewrite Hsp, String.eqb_refl, length_app. simpl. lia. }
  unfold launch. apply swp_bind, wp_spawn. intros outcome w1 sp Hsp Hsup Hw. pose proof (Hcount sp w1 Hsp Hw) as Hn1.
  destruct outcome as [pid|error].
  - apply swp_bind, wp_keeps; [apply keeps_millis|]. intros millis w2 Hl2 _. apply swp_bind, wp_keeps; [apply keeps_now|].
    intros instant w3 Hl3 _. apply swp_bind, wp_update, swp_bind, wp_keeps; [apply keeps_append_event|]. intros _ w' Hl _. apply wp_pure.
    apply (budget_like _ _ _ _ _ Hl). assert (L : like w1 w3) by by etrans. apply like_core in L as (_ & Hr3 & Hs3).
    eapply budget_step; [by rewrite Hr3, Hsup|].
    replace (starts_of (sr_id sr) w3) with (starts_of (sr_id sr) w + 1) by (unfold starts_of, spawns_of in *; by rewrite Hs3).
    unfold follows, consistent, used, spent in *. simpl. rewrite Hs, Hc in *.
    rewrite (proj2 (Z.leb_gt _ _) Hfl). unfold MAX_CONSECUTIVE_START_FAILURES in *. split_and!; try done; try lia.
  - apply swp_bind, wp_keeps; [apply keeps_now|]. intros instant w3 Hl3 _.
    apply swp_bind, wp_update, swp_bind, wp_keeps; [apply keeps_append_event|]. intros _ w' Hl _. apply wp_pure.
    apply (budget_like _ _ _ _ _ Hl). apply like_core in Hl3 as (_ & Hr3 & Hs3).
    eapply budget_step; [by rewrite Hr3, Hsup|].
    replace (starts_of (sr_id sr) w3) with (starts_of (sr_id sr) w + 1) by (unfold starts_of, spawns_of in *; by rewrite Hs3).
    unfold follows, consistent, used, spent, launch_failed in *. simpl. rewrite Hc in *.
    unfold MAX_CONSECUTIVE_START_FAILURES, sat_add, u32_max in *. split_and!; try done; try lia.
Qed.

Lemma wp_start id sr source r0 n0 r w : sr_id sr = id -> unhealthy sr -> find_registration id (sup w) = Some sr ->
  runtimes (sup w) !! id = Some r -> follows (starts_of id w - n0) r0 r ->
  is_some (child r) = false -> startup_faulted r = false ->
  wp (start_service id source) (fun _ w' => budget id r0 n0 w') w.
Proof.
  intros Hid Hun Hreg Hr Hf Hc Hs. assert (Hb : budget id r0 n0 w) by by exists r.
  unfold start_service. apply swp_bind. unfold wp at 1, self. simpl. destruct (mode_transition_hold (sup w)); [done|].
  apply wp_try. unfold wp at 1, registration, sup_bind, self, pure. simpl. rewrite Hreg.
  destruct (negb _); [done|]. apply wp_try. unfold wp at 1, mode_of, sup_bind, self, pure. simpl.
  destruct (modes (sup w) !! id) as [mode|]; [|done]. destruct (bool_decide (mode = Disabled)); [done|].
  apply swp_bind. apply wp_keeps; [apply keeps_probe|]. intros probe w1 Hl1 ->. rewrite Hun.
  unfold start_process. apply swp_bind. unfold wp at 1, self. simpl. destruct (sr_process sr) as [process|]; [|by apply (budget_like _ _ _ w)].
  apply swp_bind. apply wp_keeps; [apply keeps_find_command|]. intros command w2 Hl2 _. assert (L2 : like w w2) by by etrans.
  destruct command as [command|]; [|by apply (budget_like _ _ _ w)].
  apply swp_bind. apply wp_keeps; [apply keeps_create_dir_all|]. intros made w3 Hl3 _. assert (L3 : like w w3) by by etrans.
  destruct made; [|by apply (budget_like _ _ _ w)].
  apply wp_try. apply wp_keeps; [apply keeps_open_log|]. intros out w4 Hl4 _. assert (L4 : like w w4) by by etrans.
  destruct out; [|by apply (budget_like _ _ _ w)].
  apply wp_try. apply wp_keeps; [apply keeps_open_log|]. intros err w5 Hl5 _. assert (L5 : like w w5) by by etrans.
  destruct err; [|by apply (budget_like _ _ _ w)].
  destruct (like_core _ _ L5) as (_ & Hrs & Hsp). rewrite <- Hid. apply (wp_launch sr command process _ _ r0 n0 r); [|..|done|done].
  - by rewrite Hrs, Hid.
  - unfold starts_of, spawns_of in *. by rewrite Hsp, Hid.
Qed.

Lemma settings_found id w w' : settings (sup w') = settings (sup w) -> find_registration id (sup w') = find_registration id (sup w).
Proof. intros Hs. apply (f_equal registrations) in Hs. unfold find_registration. simpl in Hs. by rewrite Hs. Qed.

Lemma wp_supervise id sr mode r0 n0 w : sr_id sr = id -> unhealthy sr -> find_registration id (sup w) = Some sr ->
  budget id r0 n0 w -> wp (supervise sr mode) (fun _ w' => budget id r0 n0 w') w.
Proof.
  intros Hid Hun Hreg Hb. unfold supervise. rewrite Hid. pose proof (wp_reap id sr r0 n0 w Hid Hb) as Hr.
  unfold wp, sup_bind at 1 in Hr. apply swp_bind. unfold wp at 1.
  pose proof (acts_reap id w) as A1. destruct (reap id w) as [exited w1]. simpl in *.
  apply swp_bind. unfold wp at 1. pose proof (acts_record_exit sr exited w1) as A2. rewrite Hid in A2.
  destruct (record_exit sr exited w1) as [[] w2]. simpl in *.
  assert (Hreg2 : find_registration id (sup w2) = Some sr).
  { rewrite <- Hreg. apply settings_found. destruct A2 as [-> _]. by destruct A1 as [-> _]. }
  clear A1 A2. apply swp_bind. apply wp_keeps; [apply keeps_probe|]. intros probe w3 Hl3 Hprobe.
  assert (Hp : pr_ok probe = false) by (rewrite Hprobe; apply Hun). clear Hprobe.
  assert (Hb3 : budget id r0 n0 w3) by by eapply budget_like. destruct (like_core _ _ Hl3) as (Hs3 & _ & _).
  apply swp_bind. unfold wp at 1, self. simpl. destruct Hb3 as (r & Hr3 & Hf3). rewrite Hr3.
  apply swp_bind. eapply swp_mono; [|apply (wp_judge sr mode probe r0 (starts_of id w3 - n0) r w3); done].
  intros [[r' start] unexpected] w4 (Hl4 & Hf4 & -> & Hstart). apply swp_bind. unfold wp at 1. simpl. apply swp_bind. unfold wp at 1. simpl.
  set (w5 := with_sup _ w4). destruct (like_core _ _ Hl4) as (Hs4 & Hr4 & Hsp4).
  assert (Hr5 : runtimes (sup w5) !! id = Some (with_probe (Some probe) r')) by (simpl; by rewrite lookup_alter_eq, Hr4, Hr3).
  assert (Hf5 : follows (starts_of id w5 - n0) r0 (with_probe (Some probe) r')).
  { revert Hf4. unfold starts_of, spawns_of. simpl. by rewrite Hsp4. }
  destruct start; [|by exists (with_probe (Some probe) r')]. destruct (Hstart eq_refl) as [Hc Hfa].
  apply swp_bind. apply (swp_mono _ (fun _ w6 => budget id r0 n0 w6)); [|eapply (wp_start id sr _ r0 n0 (with_probe (Some probe) r') w5); try done].
  - intros ? w6 Hb6. exact Hb6.
  - rewrite <- Hreg2. transitivity (find_registration id (sup w4)); [done|]. rewrite (settings_found id w3 w4 Hs4). by apply settings_found.
Qed.

(** ** Ticks *)

(** The world once the hold of a tick is read, and the mode the tick finds configured. *)
Definition held (w : World) : World :=
  snd ((let^ hold := runtime_mode_transition_hold (workspace_root (sup w)) in update (with_hold hold)) w).
Definition configured_now (w : World) : Result string string := fst (configured_acquisition_mode (workspace_root (sup w)) (held w)).

(** The tick has no other mode to apply. *)
Definition settled (w : World) : Prop :=
  match configured_now w with Ok mode => mode = acquisition_mode (sup w) | Err _ => True end.

(** What a tick with the mode settled does not touch before it turns to the services. *)
Definition services_like (w w' : World) : Prop :=
  runtimes (sup w') = runtimes (sup w) /\ registrations (sup w') = registrations (sup w) /\
  acquisition_mode (sup w') = acquisition_mode (sup w) /\ spawns w' = spawns w.

Lemma like_services w w' : like w w' -> services_like w w'.
Proof.
  intros [Hc Hs]. split_and!; [by apply (f_equal runtimes) in Hc|by apply (f_equal registrations) in Hc|
    by apply (f_equal acquisition_mode) in Hc|done].
Qed.

Lemma reconcile_mode_unfold w :
  reconcile_mode w =
  match configured_acquisition_mode (workspace_root (sup w)) (held w) with
  | (Ok mode, w') =>
      (let^ _ := if is_some_and (load_error (sup w)) (fun error => starts_with "运行模式" error) then update (with_load_error None) else pure tt in
       if mode != acquisition_mode (sup w) then apply_acquisition_mode mode else pure tt) w'
  | (Err error, w') => update (fun s => with_load_error (Some error) (with_hold true s)) w'
  end.
Proof.
  unfold reconcile_mode, held, sup_bind, self. destruct (runtime_mode_transition_hold (workspace_root (sup w)) w) as [hold w1]. simpl.
  destruct (configured_acquisition_mode (workspace_root (sup w)) (with_sup (with_hold hold) w1)) as [[mode|error] w2]; done.
Qed.

Lemma held_services w : services_like w (held w).
Proof.
  unfold held, sup_bind. pose proof (keeps_hold (workspace_root (sup w)) w) as Hk.
  destruct (runtime_mode_transition_hold (workspace_root (sup w)) w) as [hold w1]. apply like_services in Hk. exact Hk.
Qed.

Lemma services_trans w1 w2 w3 : services_like w1 w2 -> services_like w2 w3 -> services_like w1 w3.
Proof. intros (E1 & E2 & E3 & E4) (F1 & F2 & F3 & F4). split_and!; congruence. Qed.

Lemma reconcile_mode_settled w : settled w -> services_like w (snd (reconcile_mode w)).
Proof.
  unfold settled, configured_now. intros Hs. apply (services_trans _ (held w)); [apply held_services|].
  pose proof (keeps_configured (workspace_root (sup w)) (held w)) as Hk. rewrite reconcile_mode_unfold.
  destruct (configured_acquisition_mode (workspace_root (sup w)) (held w)) as [[mode|error] w'] eqn:E; simpl in Hs, Hk;
    apply like_services in Hk; [|by apply (services_trans _ w')].
  subst mode. unfold sup_bind. rewrite String.eqb_refl. cbn [negb]. destruct (is_some_and _ _); apply (services_trans _ w'); done.
Qed.

(** Ticks of a supervisor that is left alone, between which other processes change files. *)
Inductive watched (w : World) : World -> Prop :=
| WatchedHere : watched w w
| WatchedTick w' : watched w w' -> settled w' -> watched w (snd (reconcile w'))
| WatchedFiles w' t : watched w w' -> watched w (with_disk t w').

Section Watch.
Variables (id : string) (sr : ServiceRegistration) (r0 : ServiceRuntime) (n0 : Z) (mode : string).
Hypothesis unwell : unhealthy sr.
Hypothesis enabled : service_enabled_for_mode sr mode = true.

Definition on_watch (w : World) : Prop :=
  find_registration id (sup w) = Some sr /\ acquisition_mode (sup w) = mode /\ budget id r0 n0 w.

Lemma on_watch_service i w : on_watch w -> on_watch (snd (reconcile_service i w)).
Proof.
  intros (Hf & Hm & Hb). pose proof (acts_reconcile_service i w) as Ha. destruct Ha as [Hs Hother].
  split; [by rewrite (settings_found id w _ Hs)|]. split; [by apply (f_equal acquisition_mode) in Hs; simpl in Hs; rewrite Hs|].
  destruct (decide (i = id)) as [->|Hne].
  - unfold reconcile_service, sup_bind, self. rewrite Hf, Hm, enabled. apply (wp_supervise id sr); try done. by eapply found_id.
  - destruct Hb as (r & Hr & Hfo). destruct (Hother id ltac:(congruence)) as [E1 E2]. exists r. unfold starts_of. by rewrite E1, E2.
Qed.

Lemma on_watch_services ids w : on_watch w -> on_watch (snd (reconcile_services ids w)).
Proof.
  revert w. induction ids as [|i ids IH]; intros w Hw; [done|]. simpl. unfold sup_bind.
  pose proof (on_watch_service i w Hw) as Hw'. destruct (reconcile_service i w) as [[] w1]. by apply IH.
Qed.

Lemma on_watch_like w w' : services_like w w' -> on_watch w -> on_watch w'.
Proof.
  intros (Hr & Hreg & Hm & Hsp) (Hf & Ha & (r & Hrt & Hfo)). split_and!.
  - unfold find_registration in *. by rewrite Hreg.
  - by rewrite Hm.
  - exists r. unfold starts_of, spawns_of in *. by rewrite Hr, Hsp.
Qed.

Lemma on_watch_run w w' : watched w w' -> on_watch w -> on_watch w'.
Proof.
  intros Hrun Hw. induction Hrun as [|w' _ IH Hs|w' t _ IH]; [done| |exact IH].
  unfold reconcile. unfold sup_bind. pose proof (reconcile_mode_settled w' Hs) as Hl.
  destruct (reconcile_mode w') as [[] w1]. simpl in *. apply on_watch_services. by eapply on_watch_like.
Qed.
End Watch.

(** C16. A service that never becomes healthy is not restarted for ever. Left to itself, however many ticks
    run, whatever their probes, process tables and clocks answer and whatever other processes do to the
    files, the supervisor hands its command to the operating system at most five times, less what its
    failures and a process still running have used up already. *)
Theorem crash_loop_is_bounded id sr r w w' :
  find_registration id (sup w) = Some sr -> service_enabled_for_mode sr (acquisition_mode (sup w)) = true ->
  runtimes (sup w) !! id = Some r -> consistent r -> observed_running r = false -> unhealthy sr ->
  watched w w' ->
  starts_of id w' - starts_of id w <= MAX_CONSECUTIVE_START_FAILURES - used r.
Proof.
  intros Hf He Hr Hc Ho Hu Hrun.
  destruct (on_watch_run id sr r (starts_of id w) _ Hu He w w' Hrun) as (_ & _ & (r' & _ & _ & _ & Hle)).
  - split_and!; [done|done|]. exists r. split; [done|]. split_and!; [done|done|lia].
  - unfold used at 2 in Hle. lia.
Qed.

(** ** The hold *)

(** Under the hold nothing is started, and the hold stays. *)
Definition starts_nothing (w w' : World) : Prop :=
  mode_transition_hold (sup w) = true -> mode_transition_hold (sup w') = true /\ spawns w' = spawns w.

#[local] Instance starts_nothing_preorder : PreOrder starts_nothing.
Proof.
  split; [done|]. intros w1 w2 w3 H1 H2 Hh. destruct (H1 Hh) as [Hh2 E2]. destruct (H2 Hh2) as [Hh3 E3]. split; congruence.
Qed.

#[local] Instance like_starts_nothing : subrelation like starts_nothing.
Proof. intros w w' [Hc Hs] Hh. split; [|done]. apply (f_equal mode_transition_hold) in Hc. simpl in Hc. congruence. Qed.

Lemma start_held id source : within starts_nothing (start_service id source).
Proof. intros w Hh. unfold start_service, sup_bind, self, pure. by rewrite Hh. Qed.

Lemma update_held f : (forall s, mode_transition_hold s = true -> mode_transition_hold (f s) = true) -> within starts_nothing (update f).
Proof. intros Hf w Hh. split; [by apply Hf|done]. Qed.

Hint Resolve start_held : within.
Hint Extern 1 (within starts_nothing (update _)) => apply update_held; done : within.

Lemma stop_held id source operator : within starts_nothing (stop_service id source operator).
Proof. unfold stop_service, stop_process. within. Qed.
Hint Resolve stop_held : within.

Lemma stop_all_held ids : within starts_nothing (stop_all ids).
Proof. induction ids as [|id ids IH]; simpl; within. Qed.
Hint Resolve stop_all_held : within.

Lemma apply_held mode : within starts_nothing (apply_acquisition_mode mode).
Proof. unfold apply_acquisition_mode. within. Qed.

Lemma services_held ids : within starts_nothing (reconcile_services ids).
Proof.
  induction ids as [|id ids IH]; simpl; [within|]. unfold reconcile_service, supervise, retire, reap, record_exit. within.
Qed.

Lemma action_held id name source : within starts_nothing (action id name source).
Proof. unfold action, clear_startup_fault. within. Qed.

Lemma set_mode_held id text source : within starts_nothing (set_startup_mode id text source).
Proof. unfold set_startup_mode. within. Qed.
Hint Resolve apply_held services_held : within.

(** A marker of a change that is under way at the time [millis]: published, fenced, ready and not released
    yet, or not to be understood. *)
Definition under_way (marker : Value) (millis : Z) : bool :=
  negb (is_some_and (get_str "schema" marker) (fun schema => schema == COMMIT_SCHEMA))
  || match get_str "state" marker with
     | Some state =>
         if state == "committed" then is_none (get_mode "acquisitionMode" marker) || is_none (marker_hash marker)
         else if state == "ready" then is_none_or (get_u64 "releaseAfterMillis" marker) (fun release_after => millis <? release_after)
         else true
     | None => true
     end.

Lemma fs_read_quiet p content w : fault_at (asked w) = None -> read_at (disk w) p = Some content ->
  exists w', fs_read p w = (Ok content, w') /\ disk w' = disk w /\ asked w' = S (S (asked w)).
Proof. intros Hf Hr. unfold fs_read, attempt, sup_bind, ask. rewrite Hf. simpl. rewrite Hr. simpl. eexists. done. Qed.

Lemma hold_under_way root content w : fault_at (asked w) = None ->
  read_at (disk w) (path_join root RUNTIME_MODE_COMMIT_PATH) = Some content ->
  (forall marker, json_parse content = Some marker -> under_way marker (millis_at (S (S (asked w)))) = true) ->
  fst (runtime_mode_transition_hold root w) = true.
Proof.
  intros Hf Hr Hu. unfold runtime_mode_transition_hold, sup_bind.
  destruct (fs_read_quiet _ _ w Hf Hr) as (w' & -> & _ & Hn). destruct (json_parse content) as [marker|]; [|done].
  specialize (Hu marker eq_refl). rewrite <- Hn in Hu. unfold under_way in Hu. destruct (negb _); [done|]. simpl in Hu.
  destruct (get_str "state" marker) as [state|]; [|done]. destruct (state == "committed"); [done|].
  destruct (state == "fence"); [done|]. destruct (state == "ready"); [|done]. by destruct (get_u64 "releaseAfterMillis" marker).
Qed.

(** What happens between two ticks: requests of the operator, in any number and order, and changes other
    processes make to the files. *)
Inductive between_ticks (w : World) : World -> Prop :=
| between_none : between_ticks w w
| between_action w' id name source : between_ticks w w' -> between_ticks w (snd (action id name source w'))
| between_mode w' id text source : between_ticks w w' -> between_ticks w (snd (set_startup_mode id text source w'))
| between_others w' t : between_ticks w w' -> between_ticks w (with_disk t w').

Lemma between_held w w' : between_ticks w w' -> starts_nothing w w'.
Proof.
  induction 1 as [|w' id name source _ IH|w' id text source _ IH|w' t _ IH]; [done|..]; (etrans; [exact IH|]).
  - apply action_held.
  - apply set_mode_held.
  - intros Hh. by split.
Qed.

(** C15. While a change of the acquisition mode is under way no service is started. When a tick reads a
    marker that is fenced, published, unreadable, or ready with a release that is still ahead at the moment
    the tick reads the clock for it, the tick starts nothing, whatever services it stops or finds dead, and
    neither does any sequence of operator requests (starts, stops, restarts, changes of the startup mode)
    before the next tick, even if the marker changes meanwhile. *)
Theorem no_start_during_transition content w w' :
  fault_at (asked w) = None ->
  read_at (disk w) (path_join (workspace_root (sup w)) RUNTIME_MODE_COMMIT_PATH) = Some content ->
  (forall marker, json_parse content = Some marker -> under_way marker (millis_at (S (S (asked w)))) = true) ->
  between_ticks (snd (reconcile w)) w' ->
  spawns w' = spawns w.
Proof.
  intros Hf Hr Hu Hb. assert (Hheld : mode_transition_hold (sup (held w)) = true /\ spawns (held w) = spawns w).
  { split; [|apply held_services]. pose proof (hold_under_way _ _ w Hf Hr Hu) as Hh. unfold held, sup_bind.
    destruct (runtime_mode_transition_hold _ w) as [hold w1]. by rewrite <- Hh. }
  destruct Hheld as [Hh Hsp]. assert (Hmode : starts_nothing (held w) (snd (reconcile_mode w))).
  { rewrite reconcile_mode_unfold. pose proof (keeps_configured (workspace_root (sup w)) (held w)) as Hk.
    destruct (configured_acquisition_mode (workspace_root (sup w)) (held w)) as [[mode|error] w1]; simpl in Hk.
    - etrans; [by apply like_starts_nothing|]. match goal with |- starts_nothing _ (snd (?m w1)) => assert (Hm : within starts_nothing m) by within end.
      apply Hm.
    - apply like_starts_nothing in Hk. intros Hh'. by destruct (Hk Hh'). }
  assert (Htick : starts_nothing (held w) (snd (reconcile w))).
  { unfold reconcile, sup_bind. destruct (reconcile_mode w) as [[] w1]. etrans; [exact Hmode|].
    apply (services_held (map sr_id (registrations (sup w1)))). }
  destruct (Htick Hh) as [Hh' Hsp']. destruct (between_held _ _ Hb Hh'). congruence.
Qed.

End Facts.
