(* ===== verification/SupervisorTransition.v ===== *)
(** * Mode changes survive

    A change of the acquisition mode that the inspection service has published is neither lost nor torn by
    the supervisor, wherever a tick fails or is cut off, and it is carried out once the file system works.
    A process that is killed is one whose calls fail from some point on: the answers of [fault_at] cover
    it. *)

From S2P Require Import Prelude Json Http HttpFacts Surface FileTree FileWrites Supervisor SupervisorMode SupervisorLoop SupervisorFacts.
From Stdlib Require Import Ascii SpecFloat.

(** ** Fields of objects *)

Lemma compare_gt_ltb k k' : String.compare k k' = Gt -> String.ltb k' k = true.
Proof. intros Hc. unfold String.ltb. by rewrite String.compare_antisym, Hc. Qed.

Lemma minsert_sorted {A} k (v : A) m : keys_sorted m = true -> keys_sorted (minsert k v m) = true.
Proof.
  induction m as [|[k1 v1] m IH]; [done|]. intros Hs. cbn [minsert]. destruct (String.compare k k1) eqn:E.
  - apply String.compare_eq_iff in E as ->. by destruct m.
  - cbn [keys_sorted] in *. unfold String.ltb at 1. by rewrite E.
  - assert (Hm : keys_sorted m = true) by (destruct m as [|[? ?] m]; [done|]; by apply andb_true_iff in Hs as [_ Hs]).
    specialize (IH Hm). apply compare_gt_ltb in E. destruct m as [|[k2 v2] m]; cbn [minsert] in *.
    + cbn. by rewrite E.
    + apply andb_true_iff in Hs as [Hs _]. destruct (String.compare k k2); cbn [keys_sorted] in *; by rewrite ?E, ?Hs, ?IH.
Qed.

Lemma minsert_forallb {A} (f : string * A -> bool) k v m : f (k, v) = true -> forallb f m = true -> forallb f (minsert k v m) = true.
Proof.
  intros Hv. induction m as [|[k1 v1] m IH]; cbn; [by rewrite Hv|]. intros Hm. apply andb_true_iff in Hm as [H1 H2].
  destruct (String.compare k k1); cbn; by rewrite ?Hv, ?H1, ?H2, ?IH.
Qed.

Lemma set_field_canonical k x v : canonical x = true -> canonical v = true -> canonical (set_field k x v) = true.
Proof.
  intros Hx. destruct v as [| | | | |m]; try done. cbn. rewrite !andb_true_iff. intros [Hs Hm].
  split; [by apply minsert_sorted|by apply minsert_forallb].
Qed.

Lemma set_field_same k x v : is_object v = true -> jget k (set_field k x v) = Some x.
Proof. destruct v; try done. intros _. apply mget_minsert_eq. Qed.
Lemma set_field_other k k' x v : k <> k' -> jget k (set_field k' x v) = jget k v.
Proof. destruct v; try done. intros Hne. by apply mget_minsert_ne. Qed.
Lemma set_field_object k x v : is_object (set_field k x v) = is_object v.
Proof. by destruct v. Qed.

Section Transition.
Context `{SupervisorEnv} `{JsonCodec}.
Hypothesis millis_u64 : forall n, 0 <= millis_at n <= u64_max.

(** ** Atomic writes *)

(** The supervisor is as it was and has put some questions. *)
Definition onward (w w' : World) : Prop := like w w' /\ (asked w <= asked w')%nat.

#[local] Instance onward_preorder : PreOrder onward.
Proof. split; [done|]. intros w1 w2 w3 [? ?] [? ?]. split; [by etrans|lia]. Qed.

Lemma onward_here w w' : sup w' = sup w -> spawns w' = spawns w -> (asked w <= asked w')%nat -> onward w w'.
Proof. intros E1 E2 Hle. split; [|done]. unfold like. by rewrite E1. Qed.
Local Ltac here := apply onward_here; [done|done|simpl; lia].

Definition quiet_files : Prop := forall n, fault_at n = None.

(** The names a temporary file of [name] may get are free in [d]. *)
Definition no_leftovers (t : Tree) (d : Path) (name : string) : Prop :=
  forall n, t !! (d ++ [temporary_name name (millis_at n)]) = None.

Lemma temporary_ok name n : name_ok name -> name_ok (temporary_name name (millis_at n)).
Proof. intros Hn. apply numbered_name_ok; [done|apply millis_u64|done]. Qed.

Lemma temporary_other name n : temporary_name name n <> name.
Proof.
  intros E. apply (f_equal String.length) in E. unfold temporary_name in E. rewrite !string_length_app in E. simpl in E. lia.
Qed.

(** What an atomic write leaves: the new content, or the old tree, at most with a temporary file. *)
Inductive written (d : Path) (name content : string) (t : Tree) : Result unit string -> Tree -> Prop :=
| WrittenWhole : written d name content t (Ok tt) (<[d ++ [name] := NFile content]> t)
| WrittenNot e : written d name content t (Err e) t
| WrittenBeside e n part : t !! (d ++ [temporary_name name (millis_at n)]) = None ->
    written d name content t (Err e) (<[d ++ [temporary_name name (millis_at n)] := NFile part]> t).

Lemma name_not_up name : name_ok name -> name <> "..".
Proof. by intros (_ & _ & ? & _). Qed.

(** The rules for the calls of the file system. *)
Lemma wp_attempt {A} (run : Tree -> option (A * Tree)) missing Q w :
  (forall e w', onward w w' -> disk w' = disk w -> (quiet_files -> run (disk w) = None) -> Q (Err e) w') ->
  (forall a w', onward w w' -> run (disk w) = Some (a, disk w') -> Q (Ok a) w') ->
  wp (attempt run missing) Q w.
Proof.
  intros He Ha. unfold wp, attempt, sup_bind, ask. destruct (fault_at (asked w)) as [message|] eqn:F; simpl.
  - apply He; [here|done|]. intros Hq. by rewrite Hq in F.
  - destruct (run (disk w)) as [[a t]|] eqn:E; simpl; [apply Ha; [here|done]|apply He; [here|done|done]].
Qed.

Lemma wp_ask {A} (answer : nat -> A) Q w :
  (forall w', onward w w' -> disk w' = disk w -> asked w' = S (asked w) -> Q (answer (asked w)) w') -> wp (ask answer) Q w.
Proof. intros HQ. apply HQ; [here|done|done]. Qed.

Lemma wp_write_handle q content Q w :
  (forall w', onward w w' -> disk w' = <[q := NFile content]> (disk w) -> Q (Ok tt) w') ->
  (forall e part w', onward w w' -> disk w' = <[q := NFile part]> (disk w) -> ~ quiet_files -> Q (Err e) w') ->
  wp (write_handle q content) Q w.
Proof.
  intros Hw He. unfold wp, write_handle, sup_bind, ask. destruct (fault_at (asked w)) as [message|] eqn:F; simpl; [|apply Hw; [here|done]].
  eapply He; [here|reflexivity|]. intros Hq. by rewrite Hq in F.
Qed.

Lemma wp_remove_file p Q w :
  (forall r w', onward w w' -> disk w' = disk w \/ unlink (disk w) p = Some (disk w') ->
     (quiet_files -> r = Ok tt \/ unlink (disk w) p = None) -> Q r w') ->
  wp (fs_remove_file p) Q w.
Proof.
  intros HQ. apply wp_attempt.
  - intros e w' Hl Hd Hq. apply HQ; [done|by left|]. intros Hq'. right. specialize (Hq Hq'). by destruct (unlink (disk w) p).
  - intros [] w' Hl E. apply HQ; [done|right|by left]. by destruct (unlink (disk w) p); simplify_eq.
Qed.

(** Removing the temporary file after a failure. *)
Lemma wp_cleanup d name content n part e Q w w' :
  tree_ok (disk w) -> is_dir_at (disk w) d = true -> name_ok name -> onward w w' ->
  disk w !! (d ++ [temporary_name name (millis_at n)]) = None ->
  disk w' = <[d ++ [temporary_name name (millis_at n)] := NFile part]> (disk w) ->
  (forall r w', onward w w' -> written d name content (disk w) r (disk w') -> is_ok r = false -> Q r w') ->
  wp (let^ _ := fs_remove_file (d ++ [temporary_name name (millis_at n)]) in pure (Err e)) Q w'.
Proof.
  intros Hok Hd Hn Hl Hfree Hw HQ. apply swp_bind, wp_remove_file. intros r w2 Hl2 Hor _. apply wp_pure. apply HQ; [by etrans| |done].
  destruct Hor as [->|Hun]; [rewrite Hw; by constructor|]. pose proof (temporary_ok name n Hn) as Ht.
  rewrite Hw in Hun. rewrite (unlink_below _ d _ part) in Hun; [|by apply insert_file_ok; try rewrite Hfree|
    |by apply name_not_up|by rewrite lookup_insert_eq].
  - injection Hun as <-. rewrite delete_insert_id by done. constructor.
  - apply (dir_after (disk w)); [|done]. intros q. destruct (decide (q = d ++ [temporary_name name (millis_at n)])) as [->|];
      [right; by rewrite Hfree|left; by rewrite lookup_insert_ne].
Qed.

Lemma wp_write_atomic d name content Q w :
  tree_ok (disk w) -> is_dir_at (disk w) d = true -> name_ok name -> utf8_valid name = true -> fileish (disk w !! (d ++ [name])) ->
  (forall r w', onward w w' -> written d name content (disk w) r (disk w') ->
     (quiet_files -> no_leftovers (disk w) d name -> r = Ok tt) -> Q r w') ->
  wp (write_supervisor_bytes_atomic (d ++ [name]) content) Q w.
Proof.
  intros Hok Hd Hn Hutf Hf HQ. pose proof (name_not_up _ Hn) as Hup. unfold write_supervisor_bytes_atomic.
  replace (path_parent (d ++ [name])) with (Some d)
    by (unfold path_parent; destruct (d ++ [name]) eqn:E; [by destruct d|by rewrite <- E, removelast_last]).
  apply swp_bind, wp_attempt.
  { intros e w1 Hl Hw Hq. apply wp_pure, HQ; [done|rewrite Hw; constructor|]. intros Hq'. specialize (Hq Hq'). by rewrite make_dirs_there in Hq. }
  intros [] w1 L1 E1. rewrite make_dirs_there in E1 by done. injection E1 as E1.
  unfold file_name. rewrite last_snoc. unfold filter_opt. rewrite (proj2 (str_eqb_false name "..") Hup). cbn [negb]. rewrite Hutf.
  apply swp_bind, wp_ask. intros w2 L2 E2 _. set (n := asked w1). pose (tmp := d ++ [temporary_name name (millis_at n)]).
  pose proof (temporary_ok name n Hn) as Htn. pose proof (name_not_up _ Htn) as Htup.
  assert (D2 : disk w2 = disk w) by congruence. assert (L02 : onward w w2) by by etrans.
  apply swp_bind, wp_attempt.
  { intros e w3 Hl Hw Hq. apply wp_pure, HQ; [by etrans|rewrite Hw, D2; constructor|]. intros Hq' Hfree. specialize (Hq Hq').
    by rewrite D2, create_new_below, Hfree in Hq. }
  intros q w3 L3 E3. rewrite D2, create_new_below in E3 by done. destruct (disk w !! (d ++ [temporary_name name (millis_at n)])) eqn:Hfree; [done|].
  injection E3 as <- E3. assert (L03 : onward w w3) by by etrans.
  assert (Hbad : forall w' part e, onward w w' -> disk w' = <[tmp := NFile part]> (disk w) -> ~ quiet_files ->
    wp (let^ _ := fs_remove_file tmp in pure (Err e)) Q w').
  { intros w' part e Hl Hw Hnq. eapply (wp_cleanup d name content n part e Q w w'); try done.
    intros r w4 Hl4 Hwr _. by apply HQ. }
  apply swp_bind, wp_write_handle.
  2:{ intros e part w4 L4 E4 Hnq. apply swp_bind, wp_pure. apply (Hbad w4 part); [by etrans| |done]. rewrite E4, <- E3. apply insert_insert_eq. }
  intros w4 L4 E4. assert (D4 : disk w4 = <[tmp := NFile content]> (disk w)) by (rewrite E4, <- E3; apply insert_insert_eq).
  apply swp_bind, swp_bind, wp_ask. intros w5 L5 E5 _. assert (L05 : onward w w5) by (do 2 (etrans; [|eassumption]); done).
  destruct (fault_at (asked w4)) as [message|] eqn:F.
  { apply wp_pure. apply (Hbad w5 content); [done|by rewrite E5|]. intros Hq. by rewrite Hq in F. }
  assert (Hren : rename (disk w5) (d ++ [temporary_name name (millis_at n)]) (d ++ [name]) = Some (<[d ++ [name] := NFile content]> (disk w))).
  { rewrite E5, D4. assert (Hdir : is_dir_at (<[d ++ [temporary_name name (millis_at n)] := NFile content]> (disk w)) d = true).
    { apply (dir_after (disk w)); [|done]. intros q. destruct (decide (q = d ++ [temporary_name name (millis_at n)])) as [->|];
        [right; by rewrite Hfree|left; by rewrite lookup_insert_ne]. }
    rewrite (rename_below _ d _ name content); try done.
    - by rewrite delete_insert_id.
    - apply insert_file_ok; try done. by rewrite Hfree.
    - by rewrite lookup_insert_eq.
    - rewrite lookup_insert_ne; [done|]. intros E. apply app_inj_tail in E as [_ E]. by apply (temporary_other name (millis_at n)). }
  apply swp_bind, wp_attempt.
  { intros e w6 L6 E6 Hq. rewrite Hren in Hq. apply wp_pure. simpl. apply (Hbad w6 content); [by etrans|by rewrite E6, E5|].
    intros Hq'. by specialize (Hq Hq'). }
  intros [] w6 L6 E6. rewrite Hren in E6. injection E6 as E6. apply wp_pure, wp_pure, HQ; [by etrans| |done].
  rewrite <- E6. constructor.
Qed.

(** ** The workspace *)

Hypothesis sighted : forall n, blind_at n = false.
Hypothesis pretty_parses : forall v, canonical v = true -> json_parse (json_pretty v) = Some v.

(** The workspace, the directories of the supervisor's own files, the runtime profile and the site file
    ([project_file] where the project names the profile itself). *)
Variables (root state logs pdir : Path) (pname : string) (site : Path).

Definition config : Path := root ++ ["config"].
Definition project_file : Path := config ++ ["project.json"].
Definition marker_file : Path := config ++ ["runtime-mode-commit.json"].
Definition staging : Path := config ++ ["runtime-mode-staging"].
Definition profile : Path := pdir ++ [pname].

Definition own_dir (d : Path) : Prop := d = state \/ d = logs.

(** The supervisor's own files lie apart from the configuration. *)
Record laid_out : Prop := {
  own_apart : forall d, own_dir d -> d <> root /\ path_starts_with d config = false /\ d <> pdir /\ d <> removelast site;
  profile_name : name_ok pname /\ utf8_valid pname = true;
  profile_apart : profile <> marker_file /\ profile <> project_file /\ profile <> site /\ pdir <> root /\ path_starts_with profile staging = false;
  site_apart : site <> [] /\ site <> marker_file /\ path_starts_with site staging = false;
}.
Hypothesis layout : laid_out.

(** How a reference of a configuration file leads to a file. *)
Inductive refers (t : Tree) (base : Path) (text : string) (file : Path) : Prop :=
| RefersAbsolute : is_absolute text = true -> file = components text -> refers t base text file
| RefersWorkspace : is_absolute text = false -> file = root ++ components text -> refers t base text file
| RefersBase first rest : is_absolute text = false -> components text = first :: rest -> name_ok first ->
    t !! (root ++ [first]) = None -> file = base ++ components text -> refers t base text file.

Definition text_field (key : string) (v : Value) : option string := filter_opt (fun value => negb (is_blank value)) (get_str key v).

(** project.json leads to the profile, through a site file or directly. *)
Definition selects (t : Tree) : Prop :=
  exists text project, t !! project_file = Some (NFile text) /\ utf8_valid text = true /\ json_parse text = Some project /\
    match text_field "activeSiteConfig" project with
    | Some reference =>
        refers t config (trim reference) site /\
        exists text site_value runtime, t !! site = Some (NFile text) /\ utf8_valid text = true /\ json_parse text = Some site_value /\
          get_str "runtimeProfile" site_value = Some runtime /\ refers t (removelast site) (trim runtime) profile
    | None => site = project_file /\ exists reference, text_field "activeRuntimeProfile" project = Some reference /\ refers t config (trim reference) profile
    end.

(** ** The state of a change *)

(** The profile holds [content] and asks for [mode]. *)
Definition profile_asks (mode content : string) : Prop :=
  exists v, json_parse content = Some v /\ runtime_value_acquisition_mode v = mode.

(** The marker promises the mode [target] with the profile of hash [hash]; [old] is the profile before. *)
Inductive phase (target hash old : string) (t : Tree) (content : string) (marker : Value) : Prop :=
| Fenced : get_str "state" marker = Some "fence" -> hash_is hash content = true -> profile_asks target content -> phase target hash old t content marker
| Committed : get_str "state" marker = Some "committed" -> hash_is hash content = true -> profile_asks target content -> phase target hash old t content marker
| Ready previous release : get_str "state" marker = Some "ready" -> hash_is hash content = true -> profile_asks target content ->
    get_mode "previousAcquisitionMode" marker = Some previous -> get_u64 "releaseAfterMillis" marker = Some release ->
    phase target hash old t content marker
| Published previous relative staged : get_str "state" marker = Some "publish" ->
    get_mode "previousAcquisitionMode" marker = Some previous ->
    get_str "stagedProfile" marker = Some relative -> staged_relative_ok relative = true ->
    t !! (root ++ components relative) = Some (NFile staged) -> hash_is hash staged = true -> profile_asks target staged ->
    content = staged \/ (content = old /\ hash_is hash old = false) ->
    phase target hash old t content marker.

Record promises (target hash : string) (marker : Value) : Prop := {
  marker_object : is_object marker = true;
  marker_canonical : canonical marker = true;
  marker_schema : get_str "schema" marker = Some COMMIT_SCHEMA;
  marker_mode : get_mode "acquisitionMode" marker = Some target;
  marker_hash_is : marker_hash marker = Some hash;
}.

(** The files agree on the change. *)
Record coherent (target hash old : string) (t : Tree) : Prop := {
  coherent_selects : selects t;
  coherent_phase : exists content text marker,
    t !! profile = Some (NFile content) /\ is_Some (json_parse content) /\
    t !! marker_file = Some (NFile text) /\ json_parse text = Some marker /\
    promises target hash marker /\ phase target hash old t content marker;
}.

(** ** What keeps it *)

Record scene (w : World) : Prop := {
  scene_paths : workspace_root (sup w) = root /\ state_root (sup w) = state /\ log_root (sup w) = logs;
  scene_tree : tree_ok (disk w);
  scene_dirs : is_dir_at (disk w) config = true /\ is_dir_at (disk w) pdir = true /\
    is_dir_at (disk w) state = true /\ is_dir_at (disk w) logs = true;
  scene_links : forall d name target, own_dir d -> disk w !! (d ++ [name]) <> Some (NLink target);
  scene_applied : fileish (disk w !! (state ++ ["applied-acquisition-mode.json"]));
  scene_logs : forall r process, In r (registrations (sup w)) -> sr_process r = Some process ->
    forall text, text = log_name (pd_stdout_log process) (sr_id r +:+ ".out.log") \/ text = log_name (pd_stderr_log process) (sr_id r +:+ ".err.log") ->
    exists name, name_ok name /\ path_join logs text = logs ++ [name];
}.

(** Files come and go at [L], and nothing else changes. *)
Definition files_at (L : Path -> Prop) (t t' : Tree) : Prop :=
  forall q, t' !! q = t !! q \/ (L q /\ fileish (t !! q) /\ fileish (t' !! q)).

Lemma files_at_insert (L : Path -> Prop) t q content : L q -> fileish (t !! q) -> files_at L t (<[q := NFile content]> t).
Proof. intros Hq Hf p. destruct (decide (p = q)) as [->|]; [right; rewrite lookup_insert_eq; auto|left; by rewrite lookup_insert_ne]. Qed.

Lemma files_at_delete (L : Path -> Prop) t q : L q -> fileish (t !! q) -> files_at L t (delete q t).
Proof. intros Hq Hf p. destruct (decide (p = q)) as [->|]; [right; rewrite lookup_delete_eq; auto|left; by rewrite lookup_delete_ne]. Qed.

Lemma files_at_dir L t t' d : files_at L t t' -> is_dir_at t d = true -> is_dir_at t' d = true.
Proof. intros Hf. apply dir_after. intros q. destruct (Hf q) as [|(_ & ? & _)]; auto. Qed.

Lemma scene_files L w t : files_at L (disk w) t -> tree_ok t -> scene w -> scene (with_disk t w).
Proof.
  intros Hf Hok [Hp _ (Hc & Hpd & Hs & Hl) Hlinks Happ Hlogs]. split; try done.
  - split_and!; by eapply files_at_dir.
  - intros d name target Hd. simpl. destruct (Hf (d ++ [name])) as [->|(_ & _ & [->|[? ->]])]; [by apply Hlinks|done..].
  - simpl. by destruct (Hf (state ++ ["applied-acquisition-mode.json"])) as [->|(_ & _ & ?)].
Qed.

(** A reference goes on leading to its file. *)
Lemma refers_keep t t' base text file : refers t base text file ->
  (forall name, t !! (root ++ [name]) = None -> t' !! (root ++ [name]) = None) -> refers t' base text file.
Proof. intros [Ha E|Ha E|first rest Ha Hc Hn Hfree E] Hroot; [by apply RefersAbsolute|by apply RefersWorkspace|by eapply RefersBase; eauto]. Qed.

Lemma selects_keep t t' : selects t -> t' !! project_file = t !! project_file -> t' !! site = t !! site ->
  (forall name, t !! (root ++ [name]) = None -> t' !! (root ++ [name]) = None) -> selects t'.
Proof.
  intros (text & project & Hp & Hu & Hj & Hsel) Ep Es Hroot. exists text, project. rewrite Ep. split_and!; try done.
  destruct (text_field "activeSiteConfig" project) as [reference|].
  - destruct Hsel as (Hr & stext & sv & runtime & Hs & Hsu & Hsj & Hg & Hrr). split; [by eapply refers_keep|].
    exists stext, sv, runtime. rewrite Es. split_and!; try done. by eapply refers_keep.
  - destruct Hsel as (Hs & reference & Hf & Hr). split; [done|]. exists reference. split; [done|]. by eapply refers_keep.
Qed.

(** ** Reading *)

Definition at_rest (w w' : World) : Prop := onward w w' /\ disk w' = disk w.

#[local] Instance at_rest_preorder : PreOrder at_rest.
Proof. split; [done|]. intros w1 w2 w3 [? ?] [? ?]. split; [by etrans|congruence]. Qed.

Lemma wp_read p content Q w : tree_ok (disk w) -> disk w !! p = Some (NFile content) ->
  (forall w', at_rest w w' -> Q (Ok content) w') ->
  (forall e w', at_rest w w' -> not_found e = false -> ~ quiet_files -> Q (Err e) w') ->
  wp (fs_read p) Q w.
Proof.
  intros Hok Hc HQ He. assert (Hr : read_at (disk w) p = Some content) by (unfold read_at; by rewrite (metadata_file _ _ _ Hok Hc)).
  unfold wp, fs_read, attempt, sup_bind, ask. destruct (fault_at (asked w)) as [message|] eqn:F; simpl.
  - apply He; [split; [here|done]|done|]. intros Hq. by rewrite Hq in F.
  - rewrite Hr. simpl. apply HQ. split; [here|done].
Qed.

Lemma wp_read_text p content Q w : tree_ok (disk w) -> disk w !! p = Some (NFile content) -> utf8_valid content = true ->
  (forall w', at_rest w w' -> Q (Ok content) w') ->
  (forall e w', at_rest w w' -> ~ quiet_files -> Q (Err e) w') ->
  wp (fs_read_to_string p) Q w.
Proof.
  intros Hok Hc Hu HQ He. apply wp_try. apply (wp_read p content); try done.
  - intros w' Hr. apply swp_bind, wp_ask. intros w2 Hl Hd _. rewrite Hu. apply wp_pure, HQ. etrans; [exact Hr|]. done.
  - intros e w' Hr _. by apply He.
Qed.

Lemma wp_exists p Q w : (forall w', at_rest w w' -> Q (is_some (metadata (disk w) p)) w') -> wp (path_exists p) Q w.
Proof. intros HQ. unfold wp, path_exists, sup_bind, ask. rewrite sighted. cbn. apply HQ. split; [here|done]. Qed.

Lemma wp_is_file p content Q w : tree_ok (disk w) -> disk w !! p = Some (NFile content) ->
  (forall w', at_rest w w' -> Q true w') -> wp (path_is_file p) Q w.
Proof.
  intros Hok Hc HQ. unfold wp, path_is_file, sup_bind, ask. rewrite sighted. cbn. unfold read_at. rewrite (metadata_file _ _ _ Hok Hc).
  apply HQ. split; [here|done].
Qed.

Lemma root_dir t : tree_ok t -> is_dir_at t config = true -> is_dir_at t root = true.
Proof. intros Hok Hd. apply (real_prefix_dir t root ["config"]); [done|done|by apply is_dir_real]. Qed.

Lemma wp_reference base text file content Q w : tree_ok (disk w) -> is_dir_at (disk w) config = true ->
  refers (disk w) base text file -> disk w !! file = Some (NFile content) ->
  (forall w', at_rest w w' -> Q file w') -> wp (resolve_config_reference root base text) Q w.
Proof.
  intros Hok Hd Hr Hc HQ. unfold resolve_config_reference, path_join. destruct Hr as [Ha ->|Ha ->|first rest Ha E Hn Hfree ->]; rewrite Ha.
  - by apply wp_pure, HQ.
  - apply swp_bind, wp_exists. intros w' Hw. rewrite (metadata_file _ _ _ Hok Hc). by apply wp_pure, HQ.
  - apply swp_bind, wp_exists. intros w' Hw. rewrite E, metadata_absent, <- E; [by apply wp_pure, HQ|done|by apply root_dir|done|done].
Qed.

(** project.json leads to the profile, or cannot be read. *)
Lemma wp_selected content Q w : scene w -> selects (disk w) -> disk w !! profile = Some (NFile content) ->
  (forall w', at_rest w w' -> Q (Some (Some profile)) w') ->
  (forall r w', at_rest w w' -> r = None \/ r = Some None -> ~ quiet_files -> Q r w') ->
  wp (selected_runtime_path root) Q w.
Proof.
  intros Hsc (text & project & Hp & Hu & Hj & Hsel) Hc HQ He. destruct Hsc as [_ Hok (Hd & _) _ _ _].
  unfold selected_runtime_path. change (path_join root "config/project.json") with (root ++ ["config"; "project.json"]).
  replace (root ++ ["config"; "project.json"]) with project_file by (unfold project_file, config; by rewrite <- app_assoc).
  assert (Hparent : unwrap_or (path_parent project_file) root = config).
  { unfold path_parent, project_file. destruct (config ++ ["project.json"]) eqn:E; [by destruct config|]. by rewrite <- E, removelast_last. }
  apply swp_bind. apply (wp_read_text project_file text); [done|done|done| |].
  2:{ intros e w' Hr Hq. by apply wp_pure, He; [|left|]. }
  intros w1 R1. assert (D1 : disk w1 = disk w) by apply R1. unfold parse_text. rewrite Hj. rewrite Hparent. fold (text_field "activeSiteConfig" project).
  fold (text_field "activeRuntimeProfile" project).
  destruct (text_field "activeSiteConfig" project) as [reference|].
  - destruct Hsel as (Hr & stext & sv & runtime & Hs & Hsu & Hsj & Hg & Hrr).
    apply swp_bind. apply (wp_reference config (trim reference) site stext); rewrite ?D1; try done. intros w2 R2.
    assert (D2 : disk w2 = disk w) by (destruct R2; congruence). assert (R02 : at_rest w w2) by by etrans.
    apply swp_bind. apply (wp_read_text site stext); rewrite ?D2; try done.
    2:{ intros e w3 R3 Hq. apply wp_pure, He; [by etrans|by right|done]. }
    intros w3 R3. rewrite Hsj, Hg. assert (D3 : disk w3 = disk w) by (destruct R3; congruence).
    replace (unwrap_or (path_parent site) config) with (removelast site) by (unfold path_parent; destruct site eqn:E; [by destruct (site_apart layout)|done]).
    apply swp_bind. apply (wp_reference (removelast site) (trim runtime) profile content); rewrite ?D3; try done.
    intros w4 R4. apply wp_pure, HQ. do 2 (etrans; [eassumption|]). done.
  - destruct Hsel as (_ & reference & -> & Hr). apply swp_bind. apply (wp_reference config (trim reference) profile content); rewrite ?D1; try done.
    intros w2 R2. apply wp_pure, HQ. by etrans.
Qed.

(** ** Writes that leave a change alone *)

Section Change.
Variables (target hash old : string).

Lemma staged_below relative : staged_relative_ok relative = true -> path_starts_with (root ++ components relative) staging = true.
Proof.
  unfold staged_relative_ok. rewrite !andb_true_iff. intros [_ Hs]. apply path_starts_with_inv in Hs as [rest ->].
  replace (root ++ ["config"; "runtime-mode-staging"] ++ rest) with (staging ++ rest); [apply path_starts_with_app|].
  unfold staging, config. by rewrite <- !app_assoc.
Qed.

Lemma snoc_inj (d d' : Path) (n n' : string) : d ++ [n] = d' ++ [n'] -> d = d' /\ n = n'.
Proof. apply app_inj_tail. Qed.

Lemma files_differ : project_file <> marker_file /\ path_starts_with marker_file staging = false /\ path_starts_with project_file staging = false.
Proof.
  assert (Hno : forall name, name <> "runtime-mode-staging" -> path_starts_with (config ++ [name]) staging = false).
  { intros name Hn. destruct (path_starts_with _ _) eqn:E; [|done]. apply path_starts_with_inv in E as [rest E].
    unfold staging in E. rewrite <- app_assoc in E. apply app_inv_head in E. cbn in E; by simplify_eq. }
  split_and!; [|by apply Hno|by apply Hno]. intros E. by apply snoc_inj in E as [_ E].
Qed.

(** The phase looks at the staged file only. *)
Lemma phase_keep t t' content marker : phase target hash old t content marker ->
  (forall q staged, path_starts_with q staging = true -> t !! q = Some (NFile staged) -> t' !! q = Some (NFile staged)) ->
  phase target hash old t' content marker.
Proof.
  intros Hp Hs. destruct Hp as [? ? ?|? ? ?|previous release ? ? ? ? ?|previous relative staged ? ? ? Hok Hst ? ? ?].
  - by apply Fenced.
  - by apply Committed.
  - by eapply Ready.
  - eapply Published; try done. apply (Hs _ _ (staged_below _ Hok) Hst).
Qed.

(** A file elsewhere. *)
Lemma coherent_write t q content : coherent target hash old t ->
  q <> project_file -> q <> site -> q <> profile -> q <> marker_file ->
  path_starts_with q staging = false \/ t !! q = None -> removelast q <> root ->
  coherent target hash old (<[q := NFile content]> t).
Proof.
  intros [Hsel (c & text & marker & Hp & Hj & Hm & Hmj & Hpr & Hph)] N1 N2 N3 N4 Hst Hroot. split.
  - apply (selects_keep t); [done|by rewrite lookup_insert_ne|by rewrite lookup_insert_ne|]. intros name Hn.
    rewrite lookup_insert_ne; [done|]. intros ->. by rewrite removelast_last in Hroot.
  - exists c, text, marker. rewrite !lookup_insert_ne by done. split_and!; try done.
    eapply phase_keep; [exact Hph|]. intros q' staged Hq Hl. rewrite lookup_insert_ne; [done|]. intros ->.
    destruct Hst as [Hst|Hst]; congruence.
Qed.

(** A file in a directory of the supervisor's own. *)
Lemma coherent_own t d name content : own_dir d -> coherent target hash old t -> coherent target hash old (<[d ++ [name] := NFile content]> t).
Proof.
  intros Hd Hc. destruct (own_apart layout d Hd) as (Hr & Hcfg & Hp & Hs).
  assert (Hnot : forall x, d ++ [name] = x -> removelast x = d) by (intros x <-; apply removelast_last).
  assert (Hc0 : d <> config) by (intros ->; pose proof (path_starts_with_app config []) as Ha; rewrite app_nil_r in Ha; congruence).
  apply coherent_write; [done|..].
  - intros E. apply snoc_inj in E as [E _]. done.
  - intros E. apply Hnot in E. congruence.
  - intros E. apply snoc_inj in E as [E _]. done.
  - intros E. apply snoc_inj in E as [E _]. done.
  - left. apply not_true_is_false. intros E. apply path_starts_with_inv in E as [rest E].
    destruct rest as [|a rest _] using rev_ind.
    + rewrite app_nil_r in E. unfold staging in E. apply snoc_inj in E as [E _]. done.
    + rewrite app_assoc in E. apply snoc_inj in E as [E _]. unfold staging in E. rewrite <- app_assoc in E.
      rewrite E, path_starts_with_app in Hcfg. done.
  - by rewrite removelast_last.
Qed.

Lemma config_not_root : config <> root.
Proof. intros E. apply (f_equal length) in E. unfold config in E. rewrite length_app in E. simpl in E. lia. Qed.

(** A temporary file beside the marker or the profile. *)
Lemma coherent_beside t d q content : coherent target hash old t -> d = config \/ d = pdir -> t !! q = None -> removelast q = d ->
  coherent target hash old (<[q := NFile content]> t).
Proof.
  intros Hc Hd Hq Hr. pose proof Hc as [(text & project & Hp & _ & _ & Hsel) (c & mtext & marker & Hpf & _ & Hm & _)].
  assert (Hsite : is_Some (t !! site)).
  { destruct (text_field "activeSiteConfig" project); [destruct Hsel as (_ & stext & ? & ? & -> & _); eauto|destruct Hsel as (-> & _); eauto]. }
  destruct Hsite as [node Hsite]. apply coherent_write; try done; try (intros ->; congruence); [by right|].
  rewrite Hr. destruct Hd as [->| ->]; [apply config_not_root|apply (profile_apart layout)].
Qed.

(** ** Steps of a change *)

Lemma scene_onward w w' : onward w w' -> files_at (fun _ => True) (disk w) (disk w') -> tree_ok (disk w') -> scene w -> scene w'.
Proof.
  intros [[Hc _] _] Hf Hok Hs. pose proof (scene_files _ w (disk w') Hf Hok Hs) as [[H1 [H2 H3]] H4 H5 H6 H7 H8].
  pose proof (f_equal workspace_root Hc) as E1. pose proof (f_equal state_root Hc) as E2.
  pose proof (f_equal log_root Hc) as E3. pose proof (f_equal registrations Hc) as E4. simpl in *.
  split; [|done|done|done|done|by rewrite E4]. rewrite E1, E2, E3. auto.
Qed.

Lemma scene_rest w w' : at_rest w w' -> scene w -> scene w'.
Proof.
  intros [Ho Hd] Hs. apply (scene_onward w); [done| |rewrite Hd; apply (scene_tree w Hs)|done]. intros q. rewrite Hd. by left.
Qed.

Lemma written_files d name content t r t' : tree_ok t -> is_dir_at t d = true -> name_ok name -> fileish (t !! (d ++ [name])) ->
  written d name content t r t' -> files_at (fun _ => True) t t' /\ tree_ok t'.
Proof.
  intros Hok Hd Hn Hf [|e|e n part Hfree].
  - split; [by apply files_at_insert|by apply insert_file_ok].
  - split; [intros q; by left|done].
  - split; [apply files_at_insert; [done|rewrite Hfree; auto]|]. apply insert_file_ok; [done|done|by apply temporary_ok|rewrite Hfree; auto].
Qed.

Lemma marker_name_ok : name_ok "runtime-mode-commit.json" /\ utf8_valid "runtime-mode-commit.json" = true.
Proof. by split_and!. Qed.

Lemma coherent_marker t content marker : coherent target hash old t -> t !! profile = Some (NFile content) ->
  canonical marker = true -> promises target hash marker -> phase target hash old t content marker ->
  coherent target hash old (<[marker_file := NFile (json_pretty marker)]> t).
Proof.
  intros [Hsel (c & text & m & Hp & Hj & Hm & _)] Hp' Hcan Hpr Hph. destruct (profile_apart layout) as (N1 & _).
  destruct files_differ as (N2 & N3 & _). destruct (site_apart layout) as (_ & N4 & _). rewrite Hp in Hp'. injection Hp' as <-. split.
  - apply (selects_keep t); [done|by rewrite lookup_insert_ne|by rewrite lookup_insert_ne|]. intros name Hn.
    rewrite lookup_insert_ne; [done|]. intros E. unfold marker_file in E. apply snoc_inj in E as [E _]. by apply config_not_root.
  - exists c, (json_pretty marker), marker. rewrite lookup_insert_ne, lookup_insert_eq by done. split_and!; try done; [by apply pretty_parses|].
    eapply phase_keep; [exact Hph|]. intros q staged Hq Hl. rewrite lookup_insert_ne; [done|]. intros <-. congruence.
Qed.

(** A new marker is written, or the change stands as it did. *)
Lemma wp_write_marker content marker Q w : scene w -> coherent target hash old (disk w) ->
  disk w !! profile = Some (NFile content) -> promises target hash marker -> phase target hash old (disk w) content marker ->
  (forall r w', onward w w' -> scene w' -> coherent target hash old (disk w') ->
     (quiet_files -> no_leftovers (disk w) config "runtime-mode-commit.json" -> r = Ok tt) ->
     (r = Ok tt -> disk w' = <[marker_file := NFile (json_pretty marker)]> (disk w)) -> Q r w') ->
  wp (write_supervisor_bytes_atomic marker_file (json_pretty marker)) Q w.
Proof.
  intros Hsc Hco Hp Hpr Hph HQ. pose proof Hco as [_ (c & text & m & _ & _ & Hm & _)]. pose proof Hsc as [Hpa Hok (Hd & Hd2) Hl _ Hlo]. destruct marker_name_ok as [Hn Hu].
  assert (Hf : fileish (disk w !! (config ++ ["runtime-mode-commit.json"]))) by (fold marker_file; rewrite Hm; auto).
  apply wp_write_atomic; try done. intros r w' Ho Hw Hq. destruct (written_files _ _ _ _ _ _ Hok Hd Hn Hf Hw) as [Hfiles Hok'].
  assert (Hsc' : scene w') by by apply (scene_onward w). apply HQ; [done|done| |done|].
  - destruct Hw as [|e|e n part Hfree]; [by eapply coherent_marker; [|..|exact Hph]; [|done|apply Hpr|]|done|].
    apply (coherent_beside _ config); [done|by left|done|]. apply removelast_last.
  - by destruct Hw.
Qed.

Lemma coherent_placed t content marker text staged : coherent target hash old t -> t !! profile = Some (NFile content) ->
  t !! marker_file = Some (NFile text) -> json_parse text = Some marker -> promises target hash marker ->
  is_Some (json_parse staged) -> phase target hash old t staged marker ->
  coherent target hash old (<[profile := NFile staged]> t).
Proof.
  intros [Hsel (c & text' & m & Hp & Hj & Hm & _)] _ Hm' Hmj Hpr Hsj Hph. destruct (profile_apart layout) as (N1 & N2 & N3 & N4 & N5). split.
  - apply (selects_keep t); [done|by rewrite lookup_insert_ne|by rewrite lookup_insert_ne|]. intros name Hn.
    rewrite lookup_insert_ne; [done|]. intros E. unfold profile in E. by apply snoc_inj in E as [E _].
  - exists staged, text, marker. rewrite lookup_insert_eq, lookup_insert_ne by done. split_and!; try done.
    eapply phase_keep; [exact Hph|]. intros q st Hq Hl. rewrite lookup_insert_ne; [done|]. intros <-. congruence.
Qed.

(** The staged profile takes the place of the profile. *)
Lemma wp_place content marker text staged Q w : scene w -> coherent target hash old (disk w) ->
  disk w !! profile = Some (NFile content) -> disk w !! marker_file = Some (NFile text) -> json_parse text = Some marker ->
  promises target hash marker -> is_Some (json_parse staged) -> phase target hash old (disk w) staged marker ->
  (forall r w', onward w w' -> scene w' -> coherent target hash old (disk w') ->
     (quiet_files -> no_leftovers (disk w) pdir pname -> r = Ok tt) ->
     (r = Ok tt -> disk w' = <[profile := NFile staged]> (disk w)) -> Q r w') ->
  wp (write_supervisor_bytes_atomic profile staged) Q w.
Proof.
  intros Hsc Hco Hp Hm Hmj Hpr Hsj Hph HQ. pose proof Hsc as [Hpa Hok (Hd & Hd2 & _) Hl _ Hlo]. destruct (profile_name layout) as [Hn Hu].
  assert (Hf : fileish (disk w !! (pdir ++ [pname]))) by (fold profile; rewrite Hp; auto).
  apply wp_write_atomic; try done. intros r w' Ho Hw Hq. destruct (written_files _ _ _ _ _ _ Hok Hd2 Hn Hf Hw) as [Hfiles Hok'].
  assert (Hsc' : scene w') by by apply (scene_onward w). apply HQ; [done|done| |done|].
  - destruct Hw as [|e|e n part Hfree]; [by eapply coherent_placed|done|].
    apply (coherent_beside _ pdir); [done|by right|done|]. apply removelast_last.
  - by destruct Hw.
Qed.

Lemma get_str_set k k' x v : k <> k' -> get_str k (set_field k' x v) = get_str k v.
Proof. intros Hne. unfold get_str. by rewrite set_field_other. Qed.
Lemma get_mode_set k k' x v : k <> k' -> get_mode k (set_field k' x v) = get_mode k v.
Proof. intros Hne. unfold get_mode. by rewrite get_str_set. Qed.

Lemma promises_set k x marker : canonical x = true -> k <> "schema" -> k <> "acquisitionMode" -> k <> "profileSha256" ->
  promises target hash marker -> promises target hash (set_field k x marker).
Proof.
  intros Hx N1 N2 N3 [Ho Hc Hs Hm Hh]. split.
  - by rewrite set_field_object.
  - by apply set_field_canonical.
  - by rewrite get_str_set.
  - by rewrite get_mode_set.
  - unfold marker_hash in *. by rewrite get_str_set.
Qed.

Lemma jint_u64 n : 0 <= n <= u64_max -> canonical (jint n) = true /\ as_u64 (jint n) = Some n.
Proof.
  intros [Hmin Hmax]. unfold jint. rewrite (proj2 (Z.ltb_ge n 0) Hmin). split; [|done]. simpl.
  apply andb_true_iff. split; [by apply Z.leb_le|by apply Z.leb_le].
Qed.

(** The staged file is where the marker says. *)
Lemma wp_staged relative staged Q w : scene w -> staged_relative_ok relative = true ->
  disk w !! (root ++ components relative) = Some (NFile staged) ->
  (forall w', at_rest w w' -> Q (Ok (root ++ components relative)) w') ->
  (forall e w', at_rest w w' -> ~ quiet_files -> Q (Err e) w') ->
  wp (validated_staged_runtime_profile root relative) Q w.
Proof.
  intros Hsc Hr Hst HQ He. pose proof Hsc as [_ Hok (Hd & _) _ _ _]. unfold validated_staged_runtime_profile. rewrite Hr. cbn [negb].
  assert (Habs : is_absolute relative = false) by (unfold staged_relative_ok in Hr; by destruct (is_absolute relative)).
  unfold path_join. rewrite Habs. assert (Hroot : resolve (disk w) root = Some root) by by apply resolve_dir, root_dir.
  assert (Hfile : resolve (disk w) (root ++ components relative) = Some (root ++ components relative)).
  { apply resolve_real; [done|]. destruct (root ++ components relative) eqn:E; [done|]. right. eauto. }
  apply swp_bind, wp_attempt.
  { intros e w1 O1 D1 Hq. apply wp_pure, He; [done|]. intros Hq'. specialize (Hq Hq'). by rewrite Hroot in Hq. }
  intros q w1 O1 E1. rewrite Hroot in E1. injection E1 as <- D1. apply swp_bind, wp_attempt.
  { intros e w2 O2 D2 Hq. apply wp_pure, He; [split; [by etrans|congruence]|]. intros Hq'. specialize (Hq Hq'). by rewrite <- D1, Hfile in Hq. }
  intros q w2 O2 E2. rewrite <- D1, Hfile in E2. injection E2 as <- D2. rewrite path_starts_with_app. cbn [negb].
  apply swp_bind. apply (wp_is_file _ staged); [by rewrite <- D2|by rewrite <- D2|]. intros w3 R3. apply wp_pure, HQ.
  destruct R3 as [O3 D3]. split; [do 2 (etrans; [eassumption|]); done|congruence].
Qed.

Definition both_clear (t : Tree) : Prop := no_leftovers t config "runtime-mode-commit.json" /\ no_leftovers t pdir pname.

Lemma clear_insert t q content node : t !! q = Some node -> both_clear t -> both_clear (<[q := NFile content]> t).
Proof. intros Hq [Hm Hp]. split; intros n; rewrite lookup_insert_ne; try done; intros ->; [by rewrite Hm in Hq|by rewrite Hp in Hq]. Qed.

Lemma clear_delete t q : both_clear t -> both_clear (delete q t).
Proof. intros [Hm Hp]. split; intros n; apply lookup_delete_None; right; [apply Hm|apply Hp]. Qed.

(** The marker on disk is ready, to be released [RUNTIME_MODE_RELEASE_DELAY_MILLIS] after the answer [n]. *)
Definition readied (previous : string) (n : nat) (t : Tree) : Prop :=
  exists text marker, t !! marker_file = Some (NFile text) /\ json_parse text = Some marker /\
    get_str "state" marker = Some "ready" /\ get_mode "previousAcquisitionMode" marker = Some previous /\
    get_u64 "releaseAfterMillis" marker = Some (sat_add u64_max (millis_at n) RUNTIME_MODE_RELEASE_DELAY_MILLIS).

(** The ready marker that [publish_mode] writes. *)
Definition ready_marker (marker : Value) (now updated : Z) : Value :=
  set_field "updatedAt" (JString (dec updated))
    (set_field "releaseAfterMillis" (jint (sat_add u64_max now RUNTIME_MODE_RELEASE_DELAY_MILLIS))
       (set_field "state" (JString "ready") marker)).

Lemma ready_marker_ok t content marker previous n updated : promises target hash marker ->
  get_mode "previousAcquisitionMode" marker = Some previous -> hash_is hash content = true -> profile_asks target content ->
  promises target hash (ready_marker marker (millis_at n) updated) /\ phase target hash old t content (ready_marker marker (millis_at n) updated) /\
  get_str "state" (ready_marker marker (millis_at n) updated) = Some "ready" /\
  get_mode "previousAcquisitionMode" (ready_marker marker (millis_at n) updated) = Some previous /\
  get_u64 "releaseAfterMillis" (ready_marker marker (millis_at n) updated) = Some (sat_add u64_max (millis_at n) RUNTIME_MODE_RELEASE_DELAY_MILLIS).
Proof.
  intros Hpr Hprev Hh Ha. pose proof (millis_u64 n) as Hn. destruct (jint_u64 (sat_add u64_max (millis_at n) RUNTIME_MODE_RELEASE_DELAY_MILLIS)) as [Hc Hu].
  { unfold sat_add, RUNTIME_MODE_RELEASE_DELAY_MILLIS, u64_max in *. lia. }
  assert (P : promises target hash (ready_marker marker (millis_at n) updated)) by (do 3 (apply promises_set; [done|done|done|done|]); done).
  assert (St : get_str "state" (ready_marker marker (millis_at n) updated) = Some "ready").
  { unfold ready_marker. rewrite !get_str_set by done. unfold get_str. by rewrite set_field_same by apply Hpr. }
  assert (V : get_mode "previousAcquisitionMode" (ready_marker marker (millis_at n) updated) = Some previous).
  { unfold ready_marker. by rewrite !get_mode_set by done. }
  assert (R : get_u64 "releaseAfterMillis" (ready_marker marker (millis_at n) updated) = Some (sat_add u64_max (millis_at n) RUNTIME_MODE_RELEASE_DELAY_MILLIS)).
  { unfold get_u64, ready_marker. rewrite set_field_other, set_field_same by (done || rewrite set_field_object; apply Hpr). done. }
  split_and!; try done. by eapply Ready.
Qed.

(** The staged file goes, once the marker no longer needs it. *)
Lemma coherent_unstaged t q text marker previous n : coherent target hash old t -> path_starts_with q staging = true ->
  t !! marker_file = Some (NFile text) -> json_parse text = Some marker -> get_str "state" marker = Some "ready" ->
  readied previous n t -> coherent target hash old (delete q t) /\ readied previous n (delete q t).
Proof.
  intros [Hsel (c & text' & m & Hp & Hj & Hm & Hmj & Hpr & Hph)] Hq Hm' Hmj' Hst (text2 & m2 & Hm2 & Hr).
  destruct files_differ as (_ & N1 & N2). destruct (site_apart layout) as (_ & _ & N3). destruct (profile_apart layout) as (_ & _ & _ & _ & N4).
  assert (Hne : forall x, path_starts_with x staging = false -> delete q t !! x = t !! x).
  { intros x Hx. apply lookup_delete_ne. intros <-. congruence. }
  split.
  - split; [apply (selects_keep t); [done|by apply Hne|by apply Hne|]; intros name Hn; apply lookup_delete_None; by right|].
    exists c, text', m. rewrite !Hne by done. rewrite Hm in Hm'. injection Hm' as <-. rewrite Hmj in Hmj'. injection Hmj' as <-.
    split_and!; try done. destruct Hph; try congruence. by eapply Ready.
  - exists text2, m2. by rewrite Hne.
Qed.

(** The change as it stands: the profile, and the marker with its text. *)
Definition stands (t : Tree) (content text : string) (marker : Value) : Prop :=
  t !! profile = Some (NFile content) /\ is_Some (json_parse content) /\ t !! marker_file = Some (NFile text) /\
  json_parse text = Some marker /\ promises target hash marker.

(** What a step of the change has to show for its end. *)
Definition ends {A} (Q : Result A string -> World -> Prop) (w : World) (good : A -> World -> Prop) : Prop :=
  forall r w', onward w w' -> scene w' -> coherent target hash old (disk w') ->
    (quiet_files -> both_clear (disk w) -> exists a, r = Ok a /\ both_clear (disk w') /\ good a w') -> Q r w'.

(** The second half of [publish_mode]: the profile is in place. *)
Lemma wp_make_ready content text marker previous relative staged Q w w1 :
  scene w1 -> coherent target hash old (disk w1) -> stands (disk w1) content text marker -> onward w w1 ->
  get_mode "previousAcquisitionMode" marker = Some previous -> hash_is hash content = true -> profile_asks target content ->
  staged_relative_ok relative = true -> disk w1 !! (root ++ components relative) = Some (NFile staged) ->
  (quiet_files -> both_clear (disk w) -> both_clear (disk w1)) ->
  ends Q w (fun mode w' => mode = previous /\ exists n, (asked w <= n < asked w')%nat /\ readied previous n (disk w')) ->
  wp (let^ now := unix_time_millis in
      let^ updated := unix_time_millis in
      let ready := set_field "updatedAt" (JString (dec updated))
        (set_field "releaseAfterMillis" (jint (sat_add u64_max now RUNTIME_MODE_RELEASE_DELAY_MILLIS))
          (set_field "state" (JString "ready") marker)) in
      let^ written := write_supervisor_bytes_atomic marker_file (json_pretty ready) in
      match written with
      | Err error => pure (Err ("运行模式就绪日志发布失败，监督器保持已应用模式：" +:+ error))
      | Ok _ => let^ _ := fs_remove_file (root ++ components relative) in pure (Ok previous)
      end) Q w1.
Proof.
  intros Hsc Hco (Hp & Hj & Hm & Hmj & Hpr) Ho Hprev Hh Ha Hrel Hst Hclear HQ.
  apply swp_bind, wp_ask. intros w2 O2 D2 A2. apply swp_bind, wp_ask. intros w3 O3 D3 A3. set (n := asked w1) in *.
  assert (Hsc3 : scene w3) by (apply (scene_rest w1); [split; [by etrans|congruence]|done]).
  assert (D : disk w3 = disk w1) by congruence.
  destruct (ready_marker_ok (disk w3) content marker previous n (millis_at (asked w2)) Hpr Hprev Hh Ha) as (P & Ph & St & V & R).
  change (set_field "updatedAt" _ _) with (ready_marker marker (millis_at n) (millis_at (asked w2))).
  assert (O13 : onward w1 w3) by by etrans.
  apply swp_bind. apply (wp_write_marker content); [done|by rewrite D|by rewrite D|done|done|].
  intros r w4 O4 Hsc4 Hco4 Hq4 Hw4. assert (O04 : onward w w4) by (do 2 (etrans; [eassumption|]); done).
  destruct r as [[]|error].
  2:{ apply wp_pure, HQ; [done|done|done|]. intros Hq Hcl. specialize (Hclear Hq Hcl). exfalso.
      specialize (Hq4 Hq). rewrite D in Hq4. specialize (Hq4 (proj1 Hclear)). done. }
  specialize (Hw4 eq_refl). set (text' := json_pretty (ready_marker marker (millis_at n) (millis_at (asked w2)))) in *.
  assert (Hm4 : disk w4 !! marker_file = Some (NFile text')) by (rewrite Hw4; apply lookup_insert_eq).
  assert (Hmj4 : json_parse text' = Some (ready_marker marker (millis_at n) (millis_at (asked w2)))) by (apply pretty_parses, P).
  assert (Hready : readied previous n (disk w4)) by (eexists _, _; split_and!; eassumption).
  destruct (coherent_unstaged (disk w4) (root ++ components relative) text' _ previous n Hco4 (staged_below _ Hrel) Hm4 Hmj4 St Hready) as [Hco5 Hr5].
  assert (Hcl4 : quiet_files -> both_clear (disk w) -> both_clear (disk w4)).
  { intros Hq Hcl. rewrite Hw4, D. eapply clear_insert; [exact Hm|auto]. }
  assert (Hn : (asked w <= n < asked w4)%nat).
  { unfold n. destruct Ho as [_ Ho], O3 as [_ O3], O4 as [_ O4]. lia. }
  apply swp_bind, wp_remove_file. intros r w5 O5 Hd5 _. assert (On : (asked w4 <= asked w5)%nat) by apply O5.
  assert (O05 : onward w w5) by by etrans. apply wp_pure. destruct Hd5 as [D5|Hun].
  - apply HQ; [done|apply (scene_rest w4); [by split|done]|by rewrite D5|]. intros Hq Hcl. exists previous. rewrite D5.
    split_and!; auto. exists n. split; [lia|done].
  - assert (Hlong : exists d name, root ++ components relative = d ++ [name]).
    { pose proof (staged_below _ Hrel) as Hb. destruct (root ++ components relative) as [|x l _] using rev_ind; [|eauto].
      apply path_starts_with_inv in Hb as [rest Hb]. unfold staging in Hb. symmetry in Hb. apply app_eq_nil in Hb as [Hb _]. by destruct config. }
    destruct Hlong as (d & name & E). rewrite E in *.
    assert (Hne : marker_file <> d ++ [name]).
    { intros Ee. pose proof (staged_below _ Hrel) as Hb. rewrite E, <- Ee in Hb. destruct files_differ as (_ & Hb' & _). congruence. }
    assert (Hst4 : disk w4 !! (d ++ [name]) = Some (NFile staged)) by (rewrite Hw4, D, lookup_insert_ne by done; done).
    destruct (dir_of_file _ _ _ _ (scene_tree _ Hsc4) Hst4) as [Hdir Hname].
    rewrite (unlink_below _ d name staged) in Hun; [|apply Hsc4|done|by apply name_not_up|done]. injection Hun as D5.
    assert (Hsc5 : scene w5).
    { apply (scene_onward w4); [done| | |done]; rewrite <- D5; [apply files_at_delete; [done|rewrite Hst4; auto]|].
      apply delete_file_ok; [apply Hsc4|done|rewrite Hst4; auto]. }
    apply HQ; [done|done|by rewrite <- D5|]. intros Hq Hcl. exists previous. rewrite <- D5.
    split_and!; [done|by apply clear_delete, Hcl4|done|]. exists n. split; [lia|done].
Qed.

(** A published change is carried to [ready], or stays published. *)
Lemma wp_publish content text marker previous relative staged Q w :
  scene w -> coherent target hash old (disk w) -> stands (disk w) content text marker ->
  get_str "state" marker = Some "publish" -> get_mode "previousAcquisitionMode" marker = Some previous ->
  get_str "stagedProfile" marker = Some relative -> staged_relative_ok relative = true ->
  disk w !! (root ++ components relative) = Some (NFile staged) -> hash_is hash staged = true -> profile_asks target staged ->
  content = staged \/ (content = old /\ hash_is hash old = false) ->
  ends Q w (fun mode w' => mode = previous /\ exists n, (asked w <= n < asked w')%nat /\ readied previous n (disk w')) ->
  wp (publish_mode root profile marker_file marker target content) Q w.
Proof.
  intros Hsc Hco Hstands Hstate Hprev Hrel Hrok Hst Hh Ha Hc HQ. pose proof Hstands as (Hp & Hj & Hm & Hmj & Hpr).
  unfold publish_mode. rewrite (marker_hash_is _ _ _ Hpr), Hrel.
  assert (Hbad : forall e w', at_rest w w' -> ~ quiet_files -> Q (Err e) w').
  { intros e w' R Hq. apply HQ; [apply R|by apply (scene_rest w)|by rewrite (proj2 R)|done]. }
  apply wp_try. apply (wp_staged _ staged); [done|done|done| |by apply Hbad]. intros w1 R1. assert (D1 : disk w1 = disk w) by apply R1.
  apply swp_bind. apply (wp_read _ staged); [rewrite D1; apply Hsc|by rewrite D1| |].
  2:{ intros e w2 R2 _ Hq. apply wp_pure, Hbad; [by etrans|done]. }
  intros w2 R2. apply swp_bind, wp_ask. intros w3 O3 D3 _. pose proof Ha as (sv & Hsv & Hmode). rewrite Hsv, Hh, Hmode, String.eqb_refl. cbn [negb orb].
  assert (R3 : at_rest w w3) by (do 2 (etrans; [eassumption|]); by split). assert (Dw : disk w3 = disk w) by apply R3.
  pose proof (scene_rest _ _ R3 Hsc) as Hsc3. apply swp_bind. destruct Hc as [->|[-> Hold]].
  - rewrite Hh. apply wp_pure. rewrite Hprev. apply (wp_make_ready staged text marker previous relative staged Q w w3); rewrite ?Dw; try done. apply R3.
  - rewrite Hold. assert (Hsj : is_Some (json_parse staged)) by by exists sv.
    assert (Hpub : phase target hash old (disk w) staged marker) by (eapply Published; try done; by left).
    apply (wp_place old marker text staged); rewrite ?Dw; try done.
    intros r w4 O4 Hsc4 Hco4 Hq4 Hw4. assert (O04 : onward w w4) by (etrans; [apply R3|done]). destruct r as [[]|error].
    + rewrite Hprev. specialize (Hw4 eq_refl). destruct (profile_apart layout) as (N1 & _ & _ & _ & N5).
      apply (wp_make_ready staged text marker previous relative staged Q w w4); try done.
      * rewrite Hw4. split_and!; [by rewrite lookup_insert_eq|by exists sv|by rewrite lookup_insert_ne|done|done].
      * rewrite Hw4, lookup_insert_ne; [done|]. intros E. pose proof (staged_below _ Hrok) as Hb. rewrite <- E in Hb. congruence.
      * intros Hq Hcl. rewrite Hw4. by eapply clear_insert.
    + apply wp_pure, HQ; [done|done|done|]. intros Hq Hcl. exfalso. specialize (Hq4 Hq (proj2 Hcl)). done.
Qed.

(** A fence that has gone stale is lifted. *)
Lemma wp_fenced content text marker Q w :
  scene w -> coherent target hash old (disk w) -> stands (disk w) content text marker ->
  hash_is hash content = true -> profile_asks target content ->
  ends Q w (fun mode _ => mode = target) ->
  wp (fenced_mode marker_file marker target target content) Q w.
Proof.
  intros Hsc Hco (Hp & Hj & Hm & Hmj & Hpr) Hh Ha HQ. unfold fenced_mode. rewrite (marker_hash_is _ _ _ Hpr). cbn [is_some_and].
  rewrite Hh, String.eqb_refl. cbn [negb andb].
  assert (Hrest : forall w', at_rest w w' -> Q (Ok target) w').
  { intros w' R. apply HQ; [apply R|by apply (scene_rest w)|by rewrite (proj2 R)|]. intros _ Hcl. exists target. by rewrite (proj2 R). }
  apply swp_bind, wp_ask. intros w1 O1 D1 _. destruct (_ <? _); [by apply wp_pure, Hrest|].
  apply swp_bind, wp_ask. intros w2 O2 D2 _. assert (R2 : at_rest w w2) by (split; [by etrans|congruence]). assert (D : disk w2 = disk w) by apply R2.
  set (marker' := set_field "recoveryReason" _ _).
  assert (P : promises target hash marker') by (do 3 (apply promises_set; [done|done|done|done|]); done).
  assert (St : get_str "state" marker' = Some "committed").
  { unfold marker'. rewrite !get_str_set by done. unfold get_str. by rewrite set_field_same by apply Hpr. }
  apply swp_bind. apply (wp_write_marker content); [by apply (scene_rest w)|by rewrite D|by rewrite D|done|by apply Committed|].
  intros r w3 O3 Hsc3 Hco3 Hq3 Hw3. assert (O03 : onward w w3) by (etrans; [apply R2|done]). destruct r as [[]|error]; apply wp_pure, HQ; try done.
  - intros Hq Hcl. exists target. split_and!; [done| |done]. rewrite Hw3, D by done. by eapply clear_insert.
  - intros Hq Hcl. rewrite D in Hq3. by specialize (Hq3 Hq (proj1 Hcl)).
Qed.

(** What a reading of the marker comes to, by its state. *)
Inductive outcome (marker : Value) (w : World) (mode : string) (w' : World) : Prop :=
| OutKept : get_str "state" marker = Some "fence" \/ get_str "state" marker = Some "committed" -> mode = target -> outcome marker w mode w'
| OutReady previous release n : get_str "state" marker = Some "ready" ->
    get_mode "previousAcquisitionMode" marker = Some previous -> get_u64 "releaseAfterMillis" marker = Some release ->
    (asked w <= n < asked w')%nat -> disk w' = disk w ->
    mode = (if millis_at n <? release then previous else target) -> outcome marker w mode w'
| OutPublished previous n : get_str "state" marker = Some "publish" -> get_mode "previousAcquisitionMode" marker = Some previous ->
    mode = previous -> (asked w <= n < asked w')%nat -> readied previous n (disk w') -> outcome marker w mode w'.

Lemma ends_rest {A} (Q : Result A string -> World -> Prop) (good : A -> World -> Prop) w w' a :
  ends Q w good -> scene w -> coherent target hash old (disk w) -> at_rest w w' -> good a w' -> Q (Ok a) w'.
Proof.
  intros HQ Hsc Hco R Hg. apply HQ; [apply R|by apply (scene_rest w)|by rewrite (proj2 R)|]. intros _ Hcl. exists a.
  by rewrite (proj2 R).
Qed.

Lemma ends_fault {A} (Q : Result A string -> World -> Prop) (good : A -> World -> Prop) w w' r :
  ends Q w good -> scene w -> coherent target hash old (disk w) -> at_rest w w' -> ~ quiet_files -> Q r w'.
Proof. intros HQ Hsc Hco R Hq. apply HQ; [apply R|by apply (scene_rest w)|by rewrite (proj2 R)|done]. Qed.

Lemma ends_mono {A} (Q : Result A string -> World -> Prop) (good good' : A -> World -> Prop) w :
  (forall a w', good a w' -> good' a w') -> ends Q w good' -> ends Q w good.
Proof.
  intros Hg HQ r w' Ho Hsc Hco Hq. apply HQ; [done|done|done|]. intros Hq1 Hcl. destruct (Hq Hq1 Hcl) as (a & E & Hcl' & Ha). eauto.
Qed.

(** The start of the reading moves on. *)
Lemma ends_after {A} (Q : Result A string -> World -> Prop) (good : World -> A -> World -> Prop) w w1 :
  (forall a w', good w1 a w' -> good w a w') -> at_rest w w1 -> ends Q w (good w) -> ends Q w1 (good w1).
Proof.
  intros Hg R HQ r w' Ho Hsc Hco Hq. apply HQ; [etrans; [apply R|done]|done|done|]. intros Hq1 Hcl.
  rewrite <- (proj2 R) in Hcl. destruct (Hq Hq1 Hcl) as (a & E & Hcl' & Ha). eauto.
Qed.

Lemma outcome_after marker w w1 mode w' : at_rest w w1 -> outcome marker w1 mode w' -> outcome marker w mode w'.
Proof.
  intros [[_ Hle] Hd] [|previous release n ? ? ? ? ? ?|previous n ? ? ? ? ?]; [by apply OutKept|eapply OutReady; try done; [lia|congruence]|eapply OutPublished; try done; lia].
Qed.

Lemma wp_mode_of_marker content text marker Q w :
  scene w -> coherent target hash old (disk w) -> stands (disk w) content text marker -> phase target hash old (disk w) content marker ->
  forall profile_mode, (forall v, json_parse content = Some v -> profile_mode = runtime_value_acquisition_mode v) ->
  ends Q w (fun mode w' => outcome marker w mode w') ->
  wp (mode_of_marker root profile marker_file marker profile_mode content) Q w.
Proof.
  intros Hsc Hco Hst Hph profile_mode Hmode HQ. pose proof Hst as (Hp & Hj & Hm & Hmj & Hpr). unfold mode_of_marker.
  rewrite (marker_schema _ _ _ Hpr), (marker_mode _ _ _ Hpr). cbn [is_some_and]. rewrite String.eqb_refl. cbn [negb].
  assert (Hasks : profile_asks target content -> profile_mode = target) by (intros (v & Hv & <-); by apply Hmode).
  destruct Hph as [Hs Hh Ha|Hs Hh Ha|previous release Hs Hh Ha Hprev Hrel|previous relative staged Hs Hprev Hrel Hrok Hstg Hh Ha Hc]; rewrite Hs; cbv iota beta.
  - change ("fence" == "fence") with true. cbv iota. rewrite Hasks by done. eapply wp_fenced; try done.
    eapply ends_mono; [|exact HQ]. intros mode w' ->. by apply OutKept; [left|].
  - change ("committed" == "fence") with false. change ("committed" == "committed") with true. cbv iota. apply wp_pure.
    unfold committed_mode_of. rewrite (marker_hash_is _ _ _ Hpr), Hh, Hasks, String.eqb_refl by done. cbn [negb orb].
    eapply ends_rest; [exact HQ|done|done|reflexivity|]. by apply OutKept; [right|].
  - change ("ready" == "fence") with false. change ("ready" == "committed") with false. change ("ready" == "ready") with true. cbv iota.
    unfold ready_mode. rewrite (marker_hash_is _ _ _ Hpr), Hh, Hasks, String.eqb_refl, Hprev, Hrel by done. cbn [negb orb].
    apply swp_bind, wp_ask. intros w1 O1 D1 A1. apply wp_pure. eapply ends_rest; [exact HQ|done|done|by split|].
    eapply OutReady; try done. rewrite A1. lia.
  - change ("publish" == "fence") with false. change ("publish" == "committed") with false. change ("publish" == "ready") with false.
    change ("publish" == "publish") with true. cbv iota.
    eapply wp_publish; try done. eapply ends_mono; [|exact HQ]. intros mode w' (-> & n & Hn & Hr). by eapply OutPublished.
Qed.

Lemma marker_path : path_join root RUNTIME_MODE_COMMIT_PATH = marker_file.
Proof. change (path_join root RUNTIME_MODE_COMMIT_PATH) with (root ++ ["config"; "runtime-mode-commit.json"]). unfold marker_file, config. by rewrite <- app_assoc. Qed.

(** The configured mode of a workspace with a change in it. *)
Lemma wp_configured content text marker Q w :
  scene w -> coherent target hash old (disk w) -> stands (disk w) content text marker -> phase target hash old (disk w) content marker ->
  ends Q w (fun mode w' => outcome marker w mode w') ->
  wp (configured_acquisition_mode root) Q w.
Proof.
  intros Hsc Hco Hst Hph HQ. pose proof Hst as (Hp & Hj & Hm & Hmj & Hpr). pose proof (scene_tree _ Hsc) as Hok.
  unfold configured_acquisition_mode. rewrite marker_path.
  apply swp_bind. apply (wp_selected content); [done|apply Hco|done| |].
  2:{ intros r w1 R1 [->| ->] Hq; apply wp_pure; by eapply ends_fault. }
  intros w1 R1. assert (D1 : disk w1 = disk w) by apply R1. apply swp_bind. apply (wp_read _ content); [by rewrite D1|by rewrite D1| |].
  2:{ intros e w2 R2 _ Hq. apply wp_pure. eapply ends_fault; try done. by transitivity w1. }
  intros w2 R2. assert (R02 : at_rest w w2) by by transitivity w1. assert (D2 : disk w2 = disk w) by apply R02. destruct Hj as [v Hv]. rewrite Hv. cbv zeta.
  apply swp_bind, wp_exists. intros w3 R3. rewrite D2, (metadata_file _ _ _ Hok Hm). cbn [is_some negb].
  assert (R03 : at_rest w w3) by by transitivity w2. assert (D3 : disk w3 = disk w) by apply R03.
  apply swp_bind. apply (wp_read _ text); [by rewrite D3|by rewrite D3| |].
  2:{ intros e w4 R4 _ Hq. apply wp_pure. eapply ends_fault; try done. by transitivity w3. }
  intros w4 R4. apply swp_bind, wp_ask. intros w5 O5 D5 _. assert (R05 : at_rest w w5) by (transitivity w3; [done|]; transitivity w4; [done|]; by split).
  assert (D : disk w5 = disk w) by apply R05. rewrite Hmj. eapply wp_mode_of_marker; rewrite ?D; try done.
  - by apply (scene_rest w).
  - intros v' Hv'. rewrite Hv in Hv'. by injection Hv' as <-.
  - eapply (ends_after Q (fun w0 mode w' => outcome marker w0 mode w') w); [|done|done]. intros mode w'. by apply outcome_after.
Qed.

(** The modes that are read are normal. *)
Lemma mode_normal key v mode : get_mode key v = Some mode -> normalize_acquisition_mode mode = Some mode.
Proof.
  unfold get_mode. destruct (get_str key v); [|done]. unfold normalize_acquisition_mode. intros Hm. repeat case_match; simplify_eq; done.
Qed.

(** The release of a ready change is recorded. *)
Lemma wp_promote content text marker mode Q w :
  scene w -> coherent target hash old (disk w) -> stands (disk w) content text marker -> phase target hash old (disk w) content marker ->
  (forall r w', onward w w' -> scene w' -> coherent target hash old (disk w') ->
     (quiet_files -> both_clear (disk w) -> forall release, get_str "state" marker = Some "ready" -> mode = target ->
        get_u64 "releaseAfterMillis" marker = Some release -> (forall n, (asked w <= n)%nat -> release <= millis_at n) ->
        r = Ok tt /\ exists text' marker', disk w' !! marker_file = Some (NFile text') /\ json_parse text' = Some marker' /\
          get_str "state" marker' = Some "committed") ->
     (quiet_files -> both_clear (disk w) -> both_clear (disk w')) ->
     (forall q, q <> marker_file -> quiet_files -> both_clear (disk w) -> disk w' !! q = disk w !! q) ->
     (normalize_acquisition_mode mode <> Some target -> disk w' = disk w) -> Q r w') ->
  wp (promote_released_runtime_mode root mode) Q w.
Proof.
  intros Hsc Hco (Hp & Hj & Hm & Hmj & Hpr) Hph HQ. pose proof (scene_tree _ Hsc) as Hok. unfold promote_released_runtime_mode. rewrite marker_path.
  assert (Hrest : forall r w', at_rest w w' -> (quiet_files -> get_str "state" marker = Some "ready" -> mode = target ->
      forall release, get_u64 "releaseAfterMillis" marker = Some release -> (forall n, (asked w <= n)%nat -> release <= millis_at n) -> False) -> Q r w').
  { intros r w' R Hn. apply HQ; rewrite ?(proj2 R); try done; [apply R|by apply (scene_rest w)|].
    intros Hq _ release H1 H2 H3 H4. by destruct (Hn Hq H1 H2 release H3 H4). }
  apply swp_bind. apply (wp_read _ text); [done|done| |].
  2:{ intros e w1 R1 -> Hq. by apply wp_pure, Hrest. }
  intros w1 R1. apply swp_bind, wp_ask. intros w2 O2 D2 _. assert (R2 : at_rest w w2) by (transitivity w1; [done|by split]). rewrite Hmj.
  destruct (is_some_and (get_str "state" marker) (fun state => state == "committed")) eqn:Hcm.
  { apply wp_pure, Hrest; [done|]. intros _ Hs. by rewrite Hs in Hcm. }
  rewrite (marker_mode _ _ _ Hpr). destruct (negb _ || negb _) eqn:Hno.
  { apply wp_pure, Hrest; [done|]. intros _ Hs -> release Hrel Hlate. rewrite Hs in Hno. simpl in Hno.
    rewrite (mode_normal _ _ _ (marker_mode _ _ _ Hpr)) in Hno. simpl in Hno. by rewrite String.eqb_refl in Hno. }
  apply orb_false_iff in Hno as [Hs Hsame]. apply negb_false_iff in Hs, Hsame.
  assert (Hnorm : normalize_acquisition_mode mode = Some target).
  { unfold opt_str_eqb in Hsame. destruct (normalize_acquisition_mode mode); [|done]. by apply str_eqb_true in Hsame as <-. }
  destruct (get_str "state" marker) as [state0|] eqn:Est; [|done].
  simpl in Hs. apply str_eqb_true in Hs as ->.
  destruct (get_u64 "releaseAfterMillis" marker) as [release|] eqn:Hrel; [|apply wp_pure, Hrest; [done|]; by intros ? ? ? ? ?].
  apply swp_bind, wp_ask. intros w3 O3 D3 _. assert (R3 : at_rest w w3) by (transitivity w2; [done|by split]).
  assert (A2 : (asked w <= asked w2)%nat) by apply R2. destruct (millis_at (asked w2) <? release) eqn:Hearly.
  { apply wp_pure, Hrest; [done|]. intros _ _ _ release' [= <-] Hlate. apply Z.ltb_lt in Hearly. specialize (Hlate _ A2). lia. }
  apply swp_bind, wp_ask. intros w4 O4 D4 _. assert (R4 : at_rest w w4) by (transitivity w3; [done|by split]). assert (D : disk w4 = disk w) by apply R4.
  set (marker' := set_field "committedAt" _ _).
  assert (P : promises target hash marker') by (do 2 (apply promises_set; [done|done|done|done|]); done).
  assert (St : get_str "state" marker' = Some "committed").
  { unfold marker'. rewrite get_str_set by done. unfold get_str. by rewrite set_field_same by apply Hpr. }
  assert (Hc : hash_is hash content = true /\ profile_asks target content) by (destruct Hph; simplify_eq; done).
  apply (wp_write_marker content); [by apply (scene_rest w)|by rewrite D|by rewrite D|done|destruct Hc; by apply Committed|].
  intros r w5 O5 Hsc5 Hco5 Hq5 Hw5. rewrite D in Hq5, Hw5. apply HQ; [etrans; [apply R4|done]|done|done|..].
  - intros Hq Hcl release' _ _ _ _. specialize (Hq5 Hq (proj1 Hcl)). split; [done|]. specialize (Hw5 Hq5).
    exists (json_pretty marker'), marker'. rewrite Hw5, lookup_insert_eq. split_and!; [done|apply pretty_parses, P|done].
  - intros Hq Hcl. rewrite (Hw5 (Hq5 Hq (proj1 Hcl))). by eapply clear_insert.
  - intros q Hne Hq Hcl. rewrite (Hw5 (Hq5 Hq (proj1 Hcl))). by apply lookup_insert_ne.
  - done.
Qed.

(** ** A tick keeps the change *)

Definition inv (w : World) : Prop := scene w /\ coherent target hash old (disk w).
Definition keeps_inv (w w' : World) : Prop := inv w -> inv w'.

(** The supervisor's own files are all that changes. *)
Definition own_only (w w' : World) : Prop :=
  inv w -> inv w' /\ (asked w <= asked w')%nat /\ forall q, ~ own_dir (removelast q) -> disk w' !! q = disk w !! q.

#[local] Instance keeps_inv_preorder : PreOrder keeps_inv.
Proof. split; [by intros w ?|]. intros w1 w2 w3 Ha Hb Hi. auto. Qed.

#[local] Instance own_only_preorder : PreOrder own_only.
Proof.
  split; [by intros w ?|]. intros w1 w2 w3 Ha Hb Hi. destruct (Ha Hi) as (Hi2 & Hle & Hq). destruct (Hb Hi2) as (Hi3 & Hle' & Hq').
  split_and!; [done|lia|]. intros q Hn. by rewrite Hq', Hq.
Qed.

Lemma rest_own_only w w' : at_rest w w' -> own_only w w'.
Proof.
  intros R [Hsc Hco]. split_and!; [split; [by apply (scene_rest w)|by rewrite (proj2 R)]|apply R|]. intros q _. by rewrite (proj2 R).
Qed.

Lemma rest_keeps_inv w w' : at_rest w w' -> keeps_inv w w'.
Proof. intros R Hi. by destruct (rest_own_only w w' R Hi). Qed.

Lemma within_rest {A} (m : Sup A) : within at_rest m -> within own_only m.
Proof. intros Hm w. apply rest_own_only, Hm. Qed.

Lemma within_own {A} (m : Sup A) : within own_only m -> within keeps_inv m.
Proof. intros Hm w Hi. by destruct (Hm w Hi). Qed.

Lemma within_wp {A} (m : Sup A) : (forall w, inv w -> wp m (fun _ w' => inv w') w) -> within keeps_inv m.
Proof. intros Hm w Hi. by apply Hm. Qed.

Lemma own_wp {A} (m : Sup A) : (forall w, inv w -> wp m (fun _ w' => own_only w w') w) -> within own_only m.
Proof. intros Hm w Hi. apply (Hm w Hi Hi). Qed.

Lemma inv_stands w : inv w -> exists content text marker, stands (disk w) content text marker /\ phase target hash old (disk w) content marker.
Proof. intros [_ [_ (content & text & marker & Hp & Hj & Hm & Hmj & Hpr & Hph)]]. exists content, text, marker. split; [by split_and!|done]. Qed.

Lemma configured_inv : within keeps_inv (configured_acquisition_mode root).
Proof.
  apply within_wp. intros w Hi. destruct (inv_stands w Hi) as (content & text & marker & Hst & Hph). destruct Hi as [Hsc Hco].
  eapply wp_configured; done.
Qed.

Lemma promote_inv mode : within keeps_inv (promote_released_runtime_mode root mode).
Proof.
  apply within_wp. intros w Hi. destruct (inv_stands w Hi) as (content & text & marker & Hst & Hph). destruct Hi as [Hsc Hco].
  eapply wp_promote; done.
Qed.

(** Programs that only look. *)
Lemma rest_ask {A} (answer : nat -> A) : within at_rest (ask answer).
Proof. intros w. split; [here|done]. Qed.
Lemma rest_self : within at_rest self.
Proof. intros w. reflexivity. Qed.
Lemma rest_attempt {A} (run : Tree -> option (A * Tree)) missing :
  (forall t a t', run t = Some (a, t') -> t' = t) -> within at_rest (attempt run missing).
Proof.
  intros Hrun w. unfold attempt, sup_bind, ask. destruct (fault_at (asked w)); simpl; [split; [here|done]|].
  destruct (run (disk w)) as [[a t]|] eqn:E; simpl; (split; [here|]); simpl; [by apply Hrun in E|done].
Qed.
Lemma rest_read p : within at_rest (fs_read p).
Proof. apply rest_attempt. intros t a t' E. by destruct (read_at t p); simplify_eq. Qed.
Lemma rest_exists p : within at_rest (path_exists p).
Proof. intros w. split; [here|done]. Qed.
Lemma rest_is_file p : within at_rest (path_is_file p).
Proof. intros w. split; [here|done]. Qed.
Hint Resolve rest_ask rest_self rest_read rest_exists rest_is_file : within.

Lemma rest_probe r : within at_rest (probe_registration r).
Proof. unfold probe_registration, elapsed, now. within. Qed.
Lemma rest_hold : within at_rest (runtime_mode_transition_hold root).
Proof. unfold runtime_mode_transition_hold, unix_time_millis. within. Qed.
Lemma rest_find_command values : within at_rest (find_command root values).
Proof. induction values as [|value values IH]; simpl; within. Qed.
Lemma rest_judge r mode probe runtime : within at_rest (judge r mode probe runtime).
Proof. unfold judge, backoff_over, elapsed, now, listener_pid. within. Qed.
Hint Resolve rest_probe rest_hold rest_find_command rest_judge : within.
Lemma rest_observed r : within at_rest (observed r).
Proof. unfold observed. within. Qed.
Lemma rest_stop_target r : within at_rest (stop_target r).
Proof. unfold stop_target, listener_pid. within. Qed.
Lemma rest_mode_of id : within at_rest (mode_of id).
Proof. unfold mode_of. within. Qed.
Hint Resolve rest_observed rest_stop_target rest_mode_of : within.
Hint Extern 3 (within own_only _) => apply within_rest; solve [auto 2 with within] : within.
Hint Extern 4 (within keeps_inv _) => apply within_own; solve [auto 3 with within] : within.

(** Programs that write to the supervisor's own files. *)
Lemma own_there w d : inv w -> own_dir d -> is_dir_at (disk w) d = true.
Proof. intros [Hsc _] Hd. destruct (scene_dirs _ Hsc) as (_ & _ & ? & ?). by destruct Hd as [->| ->]. Qed.

Lemma own_insert w w' d name content : onward w w' -> own_dir d -> name_ok name -> fileish (disk w !! (d ++ [name])) ->
  disk w' = <[d ++ [name] := NFile content]> (disk w) -> own_only w w'.
Proof.
  intros Ho Hd Hn Hf D Hi. pose proof (own_there w d Hi Hd) as Hdir. destruct Hi as [Hsc Hco]. split_and!; [split|apply Ho|].
  - apply (scene_onward w); [done| | |done]; rewrite D; [by apply files_at_insert|]. apply insert_file_ok; [apply Hsc|done|done|done].
  - rewrite D. by apply coherent_own.
  - intros q Hq. rewrite D, lookup_insert_ne; [done|]. intros <-. by rewrite removelast_last in Hq.
Qed.

(** An own file that can be opened is a file. *)
Lemma own_open w d name q t : inv w -> own_dir d -> name_ok name -> open_create MAXSYMLINKS (disk w) (d ++ [name]) = Some (q, t) ->
  q = d ++ [name] /\ fileish (disk w !! (d ++ [name])) /\ (t = disk w \/ t = <[d ++ [name] := NFile ""]> (disk w)).
Proof.
  intros Hi Hd Hn E. pose proof (own_there w d Hi Hd) as Hdir. destruct Hi as [Hsc Hco].
  pose proof (scene_links _ Hsc d name) as Hlink. assert (Hf : fileish (disk w !! (d ++ [name]))).
  { unfold MAXSYMLINKS in E. cbn [open_create] in E. rewrite entry_below in E; [|apply Hsc|done|by apply name_not_up].
    destruct (disk w !! (d ++ [name])) as [[c| |target0]|] eqn:El; auto; [done|]. by destruct (Hlink target0 Hd). }
  destruct (open_create_below (disk w) d name) as (t' & E' & Ht); [apply Hsc|done|by apply name_not_up|done|].
  rewrite E' in E. injection E as <- <-. split_and!; [done|done|]. destruct Ht as [[-> _]| ->]; auto.
Qed.

Lemma wp_open_own d name Q w : inv w -> own_dir d -> name_ok name ->
  (forall w', own_only w w' -> fileish (disk w' !! (d ++ [name])) -> Q (Ok (d ++ [name])) w') ->
  (forall e w', own_only w w' -> Q (Err e) w') -> wp (open_append (d ++ [name])) Q w.
Proof.
  intros Hi Hd Hn HQ He. apply wp_attempt.
  - intros e w' Ho D _. apply He, rest_own_only. by split.
  - intros q w' Ho E. destruct (own_open w d name q (disk w') Hi Hd Hn E) as (-> & Hf & [D|D]).
    + apply HQ; [|by rewrite D]. apply rest_own_only. by split.
    + apply HQ; [by eapply own_insert|]. rewrite D, lookup_insert_eq. auto.
Qed.

Lemma own_open_append d name : own_dir d -> name_ok name -> within own_only (open_append (d ++ [name])).
Proof. intros Hd Hn. apply own_wp. intros w Hi. by apply wp_open_own. Qed.

Lemma own_append d name line : own_dir d -> name_ok name ->
  within own_only (let^ opened := open_append (d ++ [name]) in match opened with Ok q => append_handle q line | Err _ => pure tt end).
Proof.
  intros Hd Hn. apply own_wp. intros w Hi. apply swp_bind. apply wp_open_own; try done. intros w1 Hi1 Hf.
  unfold append_handle. apply swp_bind, wp_ask. intros w2 O2 D2 _. apply swp_bind, wp_ask. intros w3 O3 D3 _.
  assert (R : at_rest w1 w3) by (split; [by etrans|congruence]). unfold wp. simpl.
  transitivity w1; [done|]. transitivity w3; [by apply rest_own_only|].
  eapply own_insert; [here|done|done|by rewrite (proj2 R)|reflexivity].
Qed.

(** A document of the supervisor is overwritten. *)
Lemma wp_own_write d name content Q w : inv w -> own_dir d -> name_ok name ->
  (forall r w', own_only w w' -> onward w w' ->
     (quiet_files -> fileish (disk w !! (d ++ [name])) -> r = Ok tt /\ disk w' !! (d ++ [name]) = Some (NFile content)) -> Q r w') ->
  wp (fs_write (d ++ [name]) content) Q w.
Proof.
  intros Hi Hd Hn HQ. apply wp_try, wp_attempt.
  { intros e w' Ho D Hq. apply HQ; [apply rest_own_only; by split|done|]. intros Hq' Hf. specialize (Hq Hq').
    destruct (open_create_below (disk w) d name) as (t' & E' & _); [apply Hi|by apply own_there|by apply name_not_up|done|]. by rewrite E' in Hq. }
  intros q w1 O1 E1. destruct (open_create MAXSYMLINKS (disk w) (d ++ [name])) as [[q' t]|] eqn:E; [|done]. injection E1 as -> D1.
  destruct (own_open w d name q t Hi Hd Hn E) as (-> & Hf & Ht).
  assert (Hi1 : own_only w w1).
  { apply (own_insert w w1 d name ""); try done. rewrite <- D1. destruct Ht as [->| ->]; [done|]. apply insert_insert_eq. }
  apply wp_write_handle.
  - intros w2 O2 D2. apply HQ; [|by etrans|by rewrite D2, lookup_insert_eq]. transitivity w1; [done|].
    eapply own_insert; [done|done|done|rewrite <- D1, lookup_insert_eq; auto|done].
  - intros e part w2 O2 D2 Hq. apply HQ; [|by etrans|by intros]. transitivity w1; [done|].
    eapply own_insert; [done|done|done|rewrite <- D1, lookup_insert_eq; auto|done].
Qed.

Lemma own_write d name content : own_dir d -> name_ok name -> within own_only (fs_write (d ++ [name]) content).
Proof. intros Hd Hn. apply own_wp. intros w Hi. by apply wp_own_write. Qed.

Lemma wp_own_dir d Q w : inv w -> own_dir d -> (forall r w', at_rest w w' -> (quiet_files -> r = Ok tt) -> Q r w') -> wp (fs_create_dir_all d) Q w.
Proof.
  intros Hi Hd HQ. pose proof (own_there w d Hi Hd) as Hdir. apply wp_attempt.
  - intros e w' Ho D Hq. apply HQ; [by split|]. intros Hq'. specialize (Hq Hq'). rewrite make_dirs_there in Hq; [done|apply Hi|done].
  - intros [] w' Ho E. rewrite make_dirs_there in E; [|apply Hi|done]. injection E as D. by apply HQ.
Qed.

Lemma own_dir_made d : own_dir d -> within own_only (fs_create_dir_all d).
Proof. intros Hd. apply own_wp. intros w Hi. apply wp_own_dir; try done. intros r w' R _. by apply rest_own_only. Qed.

(** Where the supervisor looks and writes. *)
Definition logs_plain (r : ServiceRegistration) : Prop :=
  forall process, sr_process r = Some process ->
  forall text, text = log_name (pd_stdout_log process) (sr_id r +:+ ".out.log") \/ text = log_name (pd_stderr_log process) (sr_id r +:+ ".err.log") ->
  exists name, name_ok name /\ path_join logs text = logs ++ [name].
Definition located (s : ServiceSupervisor) : Prop :=
  workspace_root s = root /\ state_root s = state /\ log_root s = logs /\ (forall r, In r (registrations s) -> logs_plain r).

Lemma inv_located w : inv w -> located (sup w).
Proof. intros [[(? & ? & ?) _ _ _ _ Hlogs] _]. split_and!; try done. intros r Hr process Hp. by apply Hlogs. Qed.

Lemma within_self {A} (k : ServiceSupervisor -> Sup A) : (forall s, located s -> within own_only (k s)) -> within own_only (sup_bind self k).
Proof. intros Hk w Hi. unfold sup_bind, self. apply (Hk (sup w) (inv_located w Hi) w Hi). Qed.

Lemma within_self_inv {A} (k : ServiceSupervisor -> Sup A) : (forall s, located s -> within keeps_inv (k s)) -> within keeps_inv (sup_bind self k).
Proof. intros Hk w Hi. unfold sup_bind, self. apply (Hk (sup w) (inv_located w Hi) w Hi). Qed.

Lemma found_plain id s r : located s -> find_registration id s = Some r -> logs_plain r.
Proof. intros (_ & _ & _ & Hl) Hf. apply Hl. apply find_elem in Hf as [Hf _]. by apply list_elem_of_In. Qed.

Lemma within_registration {A} id (k : ServiceRegistration -> Sup (Result A string)) :
  (forall r, logs_plain r -> within own_only (k r)) -> within own_only (sup_try (registration id) k).
Proof.
  intros Hk w Hi. unfold sup_try, sup_bind, registration, self, pure, sup_bind.
  destruct (find_registration id (sup w)) as [r|] eqn:E; [|done]. exact (Hk r (found_plain _ _ _ (inv_located _ Hi) E) w Hi).
Qed.

Lemma transition_update f : (forall s, located s -> workspace_root (f s) = root /\ state_root (f s) = state /\ log_root (f s) = logs /\ registrations (f s) = registrations s) ->
  within own_only (update f).
Proof.
  intros Hf w Hi. pose proof (inv_located _ Hi) as Hl. destruct Hi as [[H1 H2 H3 H4 H5 H6] Hco]. destruct (Hf (sup w) Hl) as (E1 & E2 & E3 & E4).
  split_and!; [|done|done]. split; [|done]. split; try done. simpl. by rewrite E4.
Qed.

Lemma inv_field f : (forall s, workspace_root (f s) = workspace_root s /\ state_root (f s) = state_root s /\ log_root (f s) = log_root s /\ registrations (f s) = registrations s) ->
  within own_only (update f).
Proof. intros Hf. apply transition_update. intros s (E1 & E2 & E3 & _). destruct (Hf s) as (-> & -> & -> & ->). done. Qed.
Hint Extern 1 (within own_only (update _)) => apply inv_field; intros ?; by split_and! : within.

Lemma own_state : own_dir state.
Proof. by left. Qed.
Lemma own_logs : own_dir logs.
Proof. by right. Qed.
Hint Resolve own_state own_logs own_append own_write own_dir_made own_open_append configured_inv promote_inv : within.

(** The tactic, with the rules that know the paths. *)
Ltac inv_step :=
  match goal with
  | |- within _ (sup_bind self _) => let E1 := fresh in let E2 := fresh in let E3 := fresh in
      first [apply within_self|apply within_self_inv]; intros ? (E1 & E2 & E3 & _); rewrite ?E1, ?E2, ?E3; clear E1 E2 E3
  | |- within own_only (sup_try (registration _) _) => apply within_registration; intros ? ?
  | _ => within_step
  end.

Lemma event_inv r a o source m pid : within own_only (append_event r a o source m pid).
Proof.
  unfold append_event. apply within_self. intros s (_ & _ & -> & _). within_step; [by apply within_rest, rest_ask|].
  within_step; [auto with within|]. apply own_append; [apply own_logs|by split_and!].
Qed.
Hint Resolve event_inv : within.

Lemma open_log_inv p d name : own_dir d -> name_ok name -> p = d ++ [name] -> within own_only (open_append_log p).
Proof. intros Hd Hn ->. unfold open_append_log. within_step; [by apply own_open_append|within]. Qed.

Lemma start_process_inv r source : logs_plain r -> within own_only (start_process r source).
Proof.
  intros Hr. unfold start_process. apply within_self. intros s (-> & _ & -> & _). destruct (sr_process r) as [process|] eqn:Ep; [|within].
  destruct (Hr process Ep _ (or_introl eq_refl)) as (n1 & Hn1 & E1). destruct (Hr process Ep _ (or_intror eq_refl)) as (n2 & Hn2 & E2).
  unfold resolve_command. within_step; [by apply within_rest, rest_find_command|]. within_step; [|within]. cbv zeta.
  within_step; [by apply own_dir_made, own_logs|]. within_step; [|within].
  within_step; [by apply (open_log_inv _ logs n1); [apply own_logs|..]|]. within_step; [by apply (open_log_inv _ logs n2); [apply own_logs|..]|].
  unfold launch. within_step.
  { unfold spawn. within_step; [by apply within_rest, rest_self|]. within_step; [by apply within_rest, rest_ask|]. intros w [[? ? ? ? ? ?] ?]. split_and!; [by split|done|done]. }
  unfold unix_time_millis, now. within.
Qed.
Hint Resolve start_process_inv : within.

Lemma start_inv id source : within own_only (start_service id source).
Proof. unfold start_service, listener_pid. repeat inv_step. Qed.

Lemma stop_inv id source : within own_only (stop_service id source false).
Proof. unfold stop_service, stop_process, terminate_process_tree. repeat inv_step. Qed.
Hint Resolve start_inv stop_inv : within.

Lemma stop_all_inv ids : within own_only (stop_all ids).
Proof. induction ids as [|id ids IH]; simpl; repeat inv_step. Qed.
Hint Resolve stop_all_inv : within.

Lemma apply_inv mode : within keeps_inv (apply_acquisition_mode mode).
Proof.
  unfold apply_acquisition_mode, applied_path, unix_time_millis. repeat inv_step. apply within_own, own_write; [apply own_state|by split_and!].
Qed.
Hint Resolve apply_inv : within.

Lemma supervise_inv r mode : within own_only (supervise r mode).
Proof. unfold supervise, reap, record_exit. repeat inv_step. Qed.
Lemma retire_inv r : within own_only (retire r).
Proof. unfold retire. repeat inv_step. Qed.
Hint Resolve supervise_inv retire_inv : within.

Lemma services_inv ids : within own_only (reconcile_services ids).
Proof. induction ids as [|id ids IH]; simpl; [within|]. unfold reconcile_service. repeat inv_step. Qed.
Hint Resolve services_inv : within.

Lemma reconcile_inv : within keeps_inv reconcile.
Proof. unfold reconcile, reconcile_mode. repeat inv_step. Qed.

(** ** A tick carries the change on *)

Lemma config_not_own d : own_dir d -> d <> config.
Proof.
  intros Hd ->. destruct (own_apart layout config Hd) as (_ & Ha & _). pose proof (path_starts_with_app config []) as Hb.
  rewrite app_nil_r in Hb. congruence.
Qed.

Lemma marker_not_own : ~ own_dir (removelast marker_file).
Proof. unfold marker_file. rewrite removelast_last. intros Hd. by apply (config_not_own _ Hd). Qed.

Lemma clear_own w w' : own_only w w' -> inv w -> both_clear (disk w) -> both_clear (disk w').
Proof.
  intros Ho Hi [Hm Hp]. destruct (Ho Hi) as (_ & _ & Hq). split; intros n; rewrite Hq; try done; rewrite removelast_last; intros Hd.
  - by apply (config_not_own _ Hd).
  - by destruct (own_apart layout pdir Hd) as (_ & _ & ? & _).
Qed.

Definition same_settings (w w' : World) : Prop := settings (sup w') = settings (sup w).
#[local] Instance same_settings_preorder : PreOrder same_settings.
Proof. split; [done|]. unfold same_settings. intros w1 w2 w3 ? ?. congruence. Qed.
#[local] Instance like_same_settings : subrelation like same_settings.
Proof. intros w w' Hl. by destruct (like_core _ _ Hl). Qed.

Lemma acts_settings id {A} (m : Sup A) : within (on_only id) m -> within same_settings m.
Proof. intros Hm w. by destruct (Hm w). Qed.

Lemma services_settings ids : within same_settings (reconcile_services ids).
Proof. induction ids as [|id ids IH]; simpl; [within|]. within_step; [apply (acts_settings id), acts_reconcile_service|done]. Qed.

Lemma stop_all_settings ids : within same_settings (stop_all ids).
Proof.
  induction ids as [|id ids IH]; simpl; [within|]. within; [apply within_like; [apply _|]; apply keeps_observed|].
  apply (acts_settings id), acts_stop.
Qed.

(** Processes end when they are told to. *)
Definition obedient : Prop := forall n pid, terminate_at n pid = Ok tt.

Lemma stop_succeeds id source w : obedient -> is_Some (find_registration id (sup w)) -> is_ok (fst (stop_service id source false w)) = true.
Proof.
  intros Hob [r Hr]. change (wp (stop_service id source false) (fun a _ => is_ok a = true) w).
  apply wp_try. unfold wp at 1, registration, sup_bind, self, pure. simpl. rewrite Hr. apply wp_try, wp_pure.
  unfold stop_process. apply swp_bind. unfold wp at 1. destruct (stop_target r w) as [pid w1]. simpl. apply swp_bind.
  assert (Hok : forall w, fst ((match pid with Some pid => terminate_process_tree pid | None => pure (Ok tt) end) w) = Ok tt).
  { intros w0. destruct pid as [pid|]; [apply Hob|done]. }
  unfold wp at 1. rewrite Hok. generalize (snd ((match pid with Some pid => terminate_process_tree pid | None => pure (Ok tt) end) w1)). intros w2.
  apply swp_bind, wp_self, swp_bind. unfold wp at 1.
  match goal with |- wp ?m _ ?x => generalize x end. intros w3. apply swp_bind, wp_update, swp_bind. unfold wp at 1. by apply wp_pure.
Qed.

Lemma stop_all_succeeds ids w : obedient -> Forall (fun id => is_Some (find_registration id (sup w))) ids -> fst (stop_all ids w) = [].
Proof.
  intros Hob. revert w. induction ids as [|id ids IH]; intros w Hall; [done|]. apply Forall_cons in Hall as [[r Hr] Hall].
  change (wp (stop_all (id :: ids)) (fun errors _ => errors = []) w). simpl. apply swp_bind, wp_self. rewrite Hr.
  apply swp_bind, wp_keeps; [apply keeps_observed|]. intros seen w1 L1 _.
  assert (S1 : settings (sup w1) = settings (sup w)) by by apply like_core in L1 as (? & _).
  apply swp_bind. apply (swp_mono _ (fun failed w' => failed = [] /\ settings (sup w') = settings (sup w))).
  { intros failed w2 [-> S2]. apply swp_bind. unfold wp at 1. apply wp_pure. simpl. apply IH.
    eapply Forall_impl; [exact Hall|]. intros i Hi. simpl in *. by rewrite (settings_found i w w2 S2). }
  destruct seen; [|by apply wp_pure]. apply swp_bind. unfold wp at 1. apply wp_pure.
  pose proof (stop_succeeds id "acquisition-mode-change" w1 Hob) as Hs. pose proof (acts_stop id "acquisition-mode-change" w1) as [Ha _].
  rewrite (settings_found id w w1 S1), Hr in Hs. specialize (Hs ltac:(eauto)).
  destruct (stop_service id "acquisition-mode-change" false w1) as [[?|?] w2]; [|done]. simpl in *. split; [done|congruence].
Qed.

Lemma stop_order_found w : Forall (fun id => is_Some (find_registration id (sup w))) (stop_order (registrations (sup w))).
Proof.
  assert (Hids : Forall (fun id => is_Some (find_registration id (sup w)))
    (map sr_id (List.filter (fun r => is_some (sr_process r)) (registrations (sup w))))).
  { apply Forall_forall. intros id Hid. apply list_elem_of_In, in_map_iff in Hid as (r & <- & Hr). apply filter_In in Hr as [Hr _].
    unfold find_registration. destruct (List.find _ _) eqn:E; [eauto|]. pose proof (find_none _ _ E r Hr) as Hn. simpl in Hn. by rewrite String.eqb_refl in Hn. }
  unfold stop_order. apply Forall_app. split; apply Forall_forall; intros id Hid; apply list_elem_of_In, filter_In in Hid as [Hid _];
    rewrite Forall_forall in Hids; apply Hids; by apply list_elem_of_In.
Qed.

(** A mode is applied: the services are stopped, the mode is on record, and a released change is committed. *)
Definition applied_file : Path := state ++ ["applied-acquisition-mode.json"].

Lemma stands_own w w' content text marker : inv w -> own_only w w' -> stands (disk w) content text marker ->
  stands (disk w') content text marker /\ phase target hash old (disk w') content marker.
Proof.
  intros Hi Ho (Hp & Hj & Hm & Hmj & Hpr). destruct (Ho Hi) as (Hi' & _ & Hq). assert (Hprof : disk w' !! profile = Some (NFile content)).
  { rewrite Hq; [done|]. unfold profile. rewrite removelast_last. intros Hd. by destruct (own_apart layout pdir Hd) as (_ & _ & ? & _). }
  assert (Hmark : disk w' !! marker_file = Some (NFile text)) by (rewrite Hq; [done|apply marker_not_own]).
  split; [by split_and!|]. destruct (inv_stands _ Hi') as (c' & t' & m' & (Hp' & _ & Hm' & Hmj' & _) & Hph'). simplify_eq. done.
Qed.

Lemma inv_settings w w' : inv w -> disk w' = disk w -> workspace_root (sup w') = workspace_root (sup w) ->
  state_root (sup w') = state_root (sup w) -> log_root (sup w') = log_root (sup w) -> registrations (sup w') = registrations (sup w) -> inv w'.
Proof.
  intros [[(E1 & E2 & E3) H2 H3 H4 H5 H6] Hco] D F1 F2 F3 F4. split; [|by rewrite D]. split; rewrite ?D, ?F1, ?F2, ?F3, ?F4; done.
Qed.

Lemma wp_apply mode content text marker Q w :
  inv w -> stands (disk w) content text marker -> phase target hash old (disk w) content marker ->
  quiet_files -> both_clear (disk w) -> obedient ->
  (forall w', inv w' -> (asked w <= asked w')%nat -> both_clear (disk w') -> acquisition_mode (sup w') = mode ->
     mode_transition_hold (sup w') = mode_transition_hold (sup w) ->
     (exists millis, disk w' !! applied_file = Some (NFile (json_pretty (applied_document mode millis)))) ->
     (normalize_acquisition_mode mode <> Some target -> disk w' !! marker_file = disk w !! marker_file) ->
     (forall release, get_str "state" marker = Some "ready" -> mode = target -> get_u64 "releaseAfterMillis" marker = Some release ->
        (forall n, (asked w <= n)%nat -> release <= millis_at n) ->
        exists text' marker', disk w' !! marker_file = Some (NFile text') /\ json_parse text' = Some marker' /\
          get_str "state" marker' = Some "committed") -> Q tt w') ->
  wp (apply_acquisition_mode mode) Q w.
Proof.
  intros Hi Hst Hph Hq Hcl Hob HQ. unfold apply_acquisition_mode. apply swp_bind, wp_self. destruct (inv_located w Hi) as (Er & Es & _). rewrite Er.
  unfold applied_path. rewrite Es. apply swp_bind. unfold wp at 1. rewrite stop_all_succeeds by (done || apply stop_order_found).
  set (ids := stop_order _). pose proof (stop_all_inv ids w Hi) as (Hi1 & A1 & Q1). pose proof (stop_all_settings ids w) as S1.
  pose proof (clear_own _ _ (stop_all_inv ids w) Hi Hcl) as Hcl1. set (w1 := snd (stop_all ids w)) in *.
  assert (Hst1 : stands (disk w1) content text marker /\ phase target hash old (disk w1) content marker) by (by apply (stands_own w)).
  destruct Hst1 as [Hst1 Hph1]. apply swp_bind. apply wp_own_dir; [done|apply own_state|]. intros r w2 R2 Hr. specialize (Hr Hq) as ->.
  pose proof (rest_own_only _ _ R2) as Ow2. pose proof (Ow2 Hi1) as (Hi2 & A2 & _).
  apply swp_bind, swp_bind, wp_ask. intros w3 O3 D3 _. assert (R3 : at_rest w2 w3) by by split.
  pose proof (rest_own_only _ _ R3) as Ow3. pose proof (Ow3 Hi2) as (Hi3 & A3 & _).
  apply wp_own_write; [done|apply own_state|by split_and!|]. intros r w4 Ow4 O4 Hr. pose proof (Ow4 Hi3) as (Hi4 & A4 & Q4).
  destruct (Hr Hq (scene_applied _ (proj1 Hi3))) as [-> Happ]. clear Hr.
  assert (Ow : own_only w1 w4) by (do 2 (etrans; [eassumption|]); done). pose proof (clear_own _ _ Ow Hi1 Hcl1) as Hcl4.
  destruct (Ow Hi1) as (_ & _ & Q14).
  assert (S4 : same_settings w1 w4) by (do 2 (etrans; [apply like_same_settings, R2 || apply like_same_settings, R3|]); apply like_same_settings, O4).
  apply swp_bind. pose proof Hi4 as [Hsc4 Hco4]. destruct (stands_own w1 w4 content text marker Hi1 Ow Hst1) as [Hst4 Hph4].
  apply (wp_promote content text marker); [done|done|done|done|].
  intros r w5 O5 Hsc5 Hco5 Hdone Hclear Hrest Hno. apply swp_bind.
  assert (S5 : same_settings w w5) by (do 2 (etrans; [eassumption|]); apply like_same_settings, O5).
  assert (Hend : forall f, same_settings w5 (with_sup f w5) -> Q tt (with_sup (fun s => with_runtimes (clear_failures <$> runtimes s) (with_acquisition_mode mode s)) (with_sup f w5))).
  { intros f Hf. unfold same_settings in Hf. pose proof (f_equal workspace_root Hf) as F1. pose proof (f_equal state_root Hf) as F2.
    pose proof (f_equal log_root Hf) as F3. pose proof (f_equal registrations Hf) as F4. pose proof (f_equal mode_transition_hold Hf) as F5.
    pose proof (f_equal mode_transition_hold S5) as F6. simpl in F1, F2, F3, F4, F5, F6. pose proof (proj2 O5) as A5. apply HQ; simpl.
    - by apply (inv_settings w5).
    - lia.
    - auto.
    - done.
    - congruence.
    - exists (millis_at (asked w2)). rewrite Hrest; [done| |done|done]. intros E. unfold applied_file, marker_file in E.
      apply snoc_inj in E as [E _]. by apply (config_not_own _ own_state).
    - intros Hne. rewrite (Hno Hne), Q14, Q1; [done|apply marker_not_own|apply marker_not_own].
    - intros release Hs Hm Hrel Hlate. edestruct (Hdone Hq Hcl4 release Hs Hm Hrel) as (_ & Hc); [|done]. intros n Hn. apply Hlate. lia. }
  destruct r as [[]|error]; [apply wp_pure, wp_update|apply wp_update, wp_update].
  - exact (Hend (fun s => s) eq_refl).
  - by apply Hend.
Qed.

(** The hold that a tick reads. *)
Lemma held_inv w : inv w -> inv (held w) /\ disk (held w) = disk w /\ (asked w <= asked (held w))%nat /\
  mode_transition_hold (sup (held w)) = fst (runtime_mode_transition_hold root w).
Proof.
  intros Hi. destruct (inv_located w Hi) as (Er & _). unfold held. rewrite Er. unfold sup_bind. pose proof (rest_hold w) as R.
  pose proof (proj1 (rest_own_only _ _ R Hi)) as Hi1. destruct (runtime_mode_transition_hold root w) as [hold w1]. simpl in *.
  destruct R as [[_ A] D]. split_and!; [by apply (inv_settings w1)|done|done|done].
Qed.

(** What is reached when the configured mode of a tick is [mode], from [w1] where it is known: it is applied
    unless it is the mode at work. *)
Record carried (mode : string) (marker : Value) (w w1 w2 : World) : Prop := {
  carried_inv : inv w2;
  carried_clear : both_clear (disk w2);
  carried_asked : (asked w1 <= asked w2)%nat;
  carried_mode : acquisition_mode (sup w2) = mode;
  carried_hold : mode_transition_hold (sup w2) = mode_transition_hold (sup (held w));
  carried_applied : mode <> acquisition_mode (sup w) ->
    exists millis, disk w2 !! applied_file = Some (NFile (json_pretty (applied_document mode millis)));
  carried_still : normalize_acquisition_mode mode <> Some target \/ mode = acquisition_mode (sup w) ->
    disk w2 !! marker_file = disk w1 !! marker_file;
  carried_committed : mode <> acquisition_mode (sup w) -> forall release, get_str "state" marker = Some "ready" -> mode = target ->
    get_u64 "releaseAfterMillis" marker = Some release -> (forall n, (asked w1 <= n)%nat -> release <= millis_at n) ->
    exists text' marker', disk w2 !! marker_file = Some (NFile text') /\ json_parse text' = Some marker' /\
      get_str "state" marker' = Some "committed";
}.

Lemma settings_inv w w' : inv w -> disk w' = disk w -> same_settings w w' -> inv w'.
Proof.
  intros Hi D S1. pose proof (f_equal workspace_root S1). pose proof (f_equal state_root S1). pose proof (f_equal log_root S1).
  pose proof (f_equal registrations S1). by apply (inv_settings w).
Qed.

Lemma carry mode content text marker w w1 w1' :
  inv w1 -> like (held w) w1 -> stands (disk w1) content text marker -> phase target hash old (disk w1) content marker ->
  quiet_files -> both_clear (disk w1) -> obedient -> disk w1' = disk w1 -> asked w1' = asked w1 -> same_settings w1 w1' ->
  carried mode marker w w1 (snd ((if mode != acquisition_mode (sup w) then apply_acquisition_mode mode else pure tt) w1')).
Proof.
  intros Hi1 [Hl _] Hst Hph Hq Hcl Hob D1 A1 S1. pose proof (settings_inv _ _ Hi1 D1 S1) as Hi1'.
  pose proof (f_equal mode_transition_hold S1) as Hh1. pose proof (f_equal acquisition_mode S1) as Ha1. simpl in Hh1, Ha1.
  pose proof (f_equal mode_transition_hold Hl) as Hh2. pose proof (f_equal acquisition_mode Hl) as Ha2. simpl in Hh2, Ha2.
  assert (Ha0 : acquisition_mode (sup (held w)) = acquisition_mode (sup w)) by apply held_services.
  destruct (mode == acquisition_mode (sup w)) eqn:Em; cbn [negb].
  - apply str_eqb_true in Em. simpl. split; rewrite ?D1; try done; [lia|congruence|congruence].
  - apply str_eqb_false in Em. change (wp (apply_acquisition_mode mode) (fun _ w2 => carried mode marker w w1 w2) w1').
    apply (wp_apply mode content text marker); rewrite ?D1; try done.
    intros w2 Hi2 A2 Hcl2 Ha Hh Happ Hno Hdone. split; [done|done|lia|done|congruence|by intros _|..].
    + intros [Hn|?]; [by apply Hno|done].
    + intros _ release Hs Hmt Hrel Hlate. apply (Hdone release); try done. intros n Hn. apply Hlate. lia.
Qed.

Lemma tick_carries mode content text marker w w1 :
  inv w -> configured_acquisition_mode root (held w) = (Ok mode, w1) -> inv w1 ->
  stands (disk w1) content text marker -> phase target hash old (disk w1) content marker ->
  quiet_files -> both_clear (disk w1) -> obedient ->
  exists w2, carried mode marker w w1 w2 /\ own_only w2 (snd (reconcile w)) /\ same_settings w2 (snd (reconcile w)).
Proof.
  intros Hi Hc Hi1 Hst Hph Hq Hcl Hob. destruct (inv_located w Hi) as (Er & _).
  assert (Hl : like (held w) w1) by (pose proof (keeps_configured root (held w)) as Hk; by rewrite Hc in Hk).
  exists (snd (reconcile_mode w)). split.
  - rewrite reconcile_mode_unfold, Er, Hc. unfold sup_bind at 1. destruct (is_some_and _ _); by apply (carry mode content text).
  - unfold reconcile, sup_bind. destruct (reconcile_mode w) as [[] w2]. split; [apply services_inv|apply services_settings].
Qed.

(** The marker on disk that [wp_configured] reads. *)
Lemma configured_reads content text marker w : inv w -> stands (disk w) content text marker -> phase target hash old (disk w) content marker ->
  quiet_files -> both_clear (disk w) ->
  exists mode w1, configured_acquisition_mode root w = (Ok mode, w1) /\ inv w1 /\ (asked w <= asked w1)%nat /\ both_clear (disk w1) /\ outcome marker w mode w1.
Proof.
  intros [Hsc Hco] Hst Hph Hq Hcl.
  assert (Hw : wp (configured_acquisition_mode root) (fun r w1 => inv w1 /\ (asked w <= asked w1)%nat /\
    exists mode, r = Ok mode /\ both_clear (disk w1) /\ outcome marker w mode w1) w).
  { eapply wp_configured; try done. intros r w' Ho Hsc' Hco' Hgood. split_and!; [done|apply Ho|]. apply (Hgood Hq Hcl). }
  unfold wp in Hw. destruct (configured_acquisition_mode root w) as [r w1]. simpl in Hw. destruct Hw as (Hi1 & A1 & mode & -> & Hcl1 & Hout). by exists mode, w1.
Qed.

(** From published to ready. *)
Lemma tick_published previous text marker w :
  inv w -> disk w !! marker_file = Some (NFile text) -> json_parse text = Some marker -> get_str "state" marker = Some "publish" ->
  get_mode "previousAcquisitionMode" marker = Some previous -> previous <> target -> quiet_files -> both_clear (disk w) -> obedient ->
  let w' := snd (reconcile w) in
  inv w' /\ both_clear (disk w') /\ acquisition_mode (sup w') = previous /\ exists n, (n < asked w')%nat /\ readied previous n (disk w').
Proof.
  intros Hi Hm Hmj Hs Hprev Hne Hq Hcl Hob w'. destruct (held_inv w Hi) as (Hih & Dh & _ & _).
  destruct (inv_stands _ Hih) as (content & text' & marker' & Hst & Hph). assert (E : text' = text /\ marker' = marker).
  { destruct Hst as (_ & _ & Hm' & Hmj' & _). rewrite Dh, Hm in Hm'. simplify_eq. done. }
  destruct E as [-> ->]. destruct (configured_reads content text marker (held w)) as (mode & w1 & Hc & Hi1 & A1 & Hcl1 & Hout); try done; [by rewrite Dh|].
  destruct Hout as [[?|?] _|? ? ? ? _ _ _ _ _|previous' n _ Hp' -> Hn Hr]; [congruence..|]. rewrite Hprev in Hp'. injection Hp' as <-.
  destruct (inv_stands _ Hi1) as (content1 & text1 & marker1 & Hst1 & Hph1).
  destruct (tick_carries previous content1 text1 marker1 w w1 Hi Hc Hi1 Hst1 Hph1 Hq Hcl1 Hob) as (w2 & [Ci Cc Ca Cm _ _ Cs _] & Ho & Hse).
  destruct (Ho Ci) as (Hi' & A' & Hq'). split_and!; [done|by apply (clear_own w2)| |].
  - apply (f_equal acquisition_mode) in Hse. simpl in Hse. fold w' in Hse. congruence.
  - exists n. split; [fold w' in A'; lia|]. destruct Hr as (t1 & m1 & Hm1 & Hr). exists t1, m1. split; [|done].
    fold w' in Hq'. rewrite Hq', Cs; [done| |apply marker_not_own]. left. rewrite (mode_normal _ _ _ Hprev). congruence.
Qed.

(** From ready to committed. *)
Lemma tick_released previous n w :
  inv w -> readied previous n (disk w) -> acquisition_mode (sup w) = previous -> previous <> target -> quiet_files -> both_clear (disk w) -> obedient ->
  (forall n', (asked w <= n')%nat -> millis_at n + RUNTIME_MODE_RELEASE_DELAY_MILLIS <= millis_at n') ->
  let w' := snd (reconcile w) in
  inv w' /\ acquisition_mode (sup w') = target /\ mode_transition_hold (sup w') = false /\
  exists w2, own_only w2 w' /\ inv w2 /\
    (exists millis, disk w2 !! applied_file = Some (NFile (json_pretty (applied_document target millis)))) /\
    exists text marker, disk w2 !! marker_file = Some (NFile text) /\ json_parse text = Some marker /\ get_str "state" marker = Some "committed".
Proof.
  intros Hi (text & marker & Hm & Hmj & Hs & Hprev & Hrel) Hacq Hne Hq Hcl Hob Hlate w'.
  assert (Hrelease : forall n', (asked w <= n')%nat -> sat_add u64_max (millis_at n) RUNTIME_MODE_RELEASE_DELAY_MILLIS <= millis_at n').
  { intros n' Hn. specialize (Hlate n' Hn). unfold sat_add. lia. }
  destruct (held_inv w Hi) as (Hih & Dh & Ah & Hhold).
  destruct (inv_stands _ Hih) as (content & text' & marker' & Hst & Hph). assert (E : text' = text /\ marker' = marker).
  { destruct Hst as (_ & _ & Hm' & Hmj' & _). rewrite Dh, Hm in Hm'. simplify_eq. done. }
  destruct E as [-> ->]. destruct (configured_reads content text marker (held w)) as (mode & w1 & Hc & Hi1 & A1 & Hcl1 & Hout); try done; [by rewrite Dh|].
  destruct Hout as [[?|?] _|previous' release' n2 _ _ Hrel' Hn2 D1 Hmode|? ? ? _ _ _ _]; [congruence..| |congruence].
  rewrite Hrel in Hrel'. injection Hrel' as <-. rewrite (proj2 (Z.ltb_ge _ _)) in Hmode by (apply Hrelease; lia). subst mode.
  assert (Hst1 : stands (disk w1) content text marker /\ phase target hash old (disk w1) content marker) by (rewrite D1; done).
  destruct Hst1 as [Hst1 Hph1].
  destruct (tick_carries target content text marker w w1 Hi Hc Hi1 Hst1 Hph1 Hq Hcl1 Hob) as (w2 & [Ci Cc Ca Cm Ch Capp _ Cdone] & Ho & Hse).
  destruct (Ho Ci) as (Hi' & A' & Hq'). pose proof (f_equal acquisition_mode Hse) as E1. pose proof (f_equal mode_transition_hold Hse) as E2. simpl in E1, E2.
  split_and!; [done|fold w' in E1; congruence| |].
  - fold w' in E2. rewrite E2, Ch, Hhold. pose proof Hst as (_ & _ & _ & _ & Hpr). unfold runtime_mode_transition_hold. rewrite marker_path.
    change (wp (let^ bytes := fs_read marker_file in match bytes with
      | Err _ => pure false
      | Ok bytes => match json_parse bytes with
        | None => pure true
        | Some marker => if negb (is_some_and (get_str "schema" marker) (fun schema => schema == COMMIT_SCHEMA)) then pure true
          else match get_str "state" marker with
          | Some state =>
            if state == "committed" then pure (is_none (get_mode "acquisitionMode" marker) || is_none (marker_hash marker))
            else if state == "fence" then pure true
            else if state == "ready" then match get_u64 "releaseAfterMillis" marker with
              | None => pure true
              | Some release_after => let^ millis := unix_time_millis in pure (millis <? release_after) end
            else pure true
          | None => pure true end end end) (fun hold _ => hold = false) w).
    apply swp_bind. apply (wp_read _ text); [apply Hi|done| |by intros]. intros w3 [[_ A3] D3]. rewrite Hmj, (marker_schema _ _ _ Hpr), Hs, Hrel. cbn.
    apply swp_bind, wp_ask. intros w4 _ _ _. apply wp_pure. apply Z.ltb_ge, Hrelease. lia.
  - exists w2. split_and!; [done|done|apply Capp; congruence|]. eapply Cdone; try done; [congruence|]. intros n' Hn'. apply Hrelease. lia.
Qed.

(** ** Theorems *)

(** Ticks of supervisors that come and go over the same workspace. *)
Inductive attended (w : World) : World -> Prop :=
| AttendedHere : attended w w
| AttendedTick w' : attended w w' -> attended w (snd (reconcile w'))
| AttendedRestart w' s : attended w w' -> located s -> attended w (with_sup (fun _ => s) w').

(** C13. A change of the acquisition mode is never lost or torn by the supervisor. As long as the files agree
    on a change that the inspection service has handed over, they go on agreeing on it after any number of
    ticks, of any supervisors, whatever calls fail (but [exists], which is answered truly), wherever a
    supervisor is killed and whatever the clocks and services answer: the marker promises the same mode and hash, the profile is the old one or the
    promised one as a whole, a marker past [publish] stands beside the promised profile, and a published one
    beside the staged file it needs. *)
Theorem transition_survives w w' : scene w -> coherent target hash old (disk w) -> attended w w' ->
  scene w' /\ coherent target hash old (disk w').
Proof.
  intros Hsc Hco Hrun. induction Hrun as [|w' _ IH|w' s _ IH Hl]; [done|exact (reconcile_inv w' IH)|].
  destruct IH as [[_ H2 H3 H4 H5 _] Hco']. destruct Hl as (E1 & E2 & E3 & Hlogs). split; [|done]. split; try done. by intros r process Hr; apply (Hlogs r Hr).
Qed.

(** C14. A published change is carried out. When the files agree on a change that is published, the file
    system works, processes end when they are told to and no temporary file is in the way, then two ticks
    that lie the release delay apart carry the change through: the first leaves the previous mode at work, and
    after the second the supervisor runs the promised mode, the promised profile is in place, the marker is
    committed and the hold is lifted. *)
Theorem published_mode_is_applied previous text marker w :
  scene w -> coherent target hash old (disk w) ->
  disk w !! marker_file = Some (NFile text) -> json_parse text = Some marker -> get_str "state" marker = Some "publish" ->
  get_mode "previousAcquisitionMode" marker = Some previous -> previous <> target ->
  quiet_files -> both_clear (disk w) -> obedient ->
  let w1 := snd (reconcile w) in
  (forall n n', (n < asked w1 <= n')%nat -> millis_at n + RUNTIME_MODE_RELEASE_DELAY_MILLIS <= millis_at n') ->
  let w2 := snd (reconcile w1) in
  acquisition_mode (sup w1) = previous /\ acquisition_mode (sup w2) = target /\ mode_transition_hold (sup w2) = false /\
  exists content text' marker',
    disk w2 !! profile = Some (NFile content) /\ hash_is hash content = true /\ profile_asks target content /\
    disk w2 !! marker_file = Some (NFile text') /\ json_parse text' = Some marker' /\ get_str "state" marker' = Some "committed" /\
    promises target hash marker'.
Proof.
  intros Hsc Hco Hm Hmj Hs Hprev Hne Hq Hcl Hob w1 Hclock w2. assert (Hi : inv w) by done.
  destruct (tick_published previous text marker w Hi Hm Hmj Hs Hprev Hne Hq Hcl Hob) as (Hi1 & Hcl1 & Ha1 & n & Hn & Hr).
  destruct (tick_released previous n w1 Hi1 Hr Ha1 Hne Hq Hcl1 Hob) as (Hi2 & Ha2 & Hh2 & w3 & Ho & Hi3 & _ & text' & marker' & Hm3 & Hmj3 & Hs3).
  { intros n' Hn'. apply Hclock. fold w1 in Hn. lia. }
  split_and!; [done|done|done|]. fold w2 in Ho, Hi2. destruct (Ho Hi3) as (_ & _ & Hsame).
  destruct (inv_stands _ Hi2) as (content & text2 & marker2 & (Hp & _ & Hm2 & Hmj2 & Hpr) & Hph).
  rewrite Hsame in Hm2 by apply marker_not_own. rewrite Hm3 in Hm2. injection Hm2 as <-. rewrite Hmj3 in Hmj2. injection Hmj2 as <-.
  exists content, text', marker'. rewrite (Hsame marker_file) by apply marker_not_own.
  destruct Hph; simplify_eq; split_and!; try done; congruence.
Qed.

End Change.

End Transition.
