(* ===== verification/SupervisorRuns.v ===== *)
(** * Runs of the supervisor

    A workspace with one service, and the theorems of [SupervisorFacts] and [SupervisorTransition] applied to
    it. JSON is written by a small codec of its own. *)

From stdpp Require Import countable.
From S2P Require Import Prelude Json Http Surface FileTree FileWrites Supervisor SupervisorMode SupervisorLoop SupervisorFacts SupervisorTransition.
From Stdlib Require Import Ascii SpecFloat.

Module SupervisorRun.

(** ** A codec *)

Fixpoint to_tree (v : Value) : gen_tree string :=
  match v with
  | JNull | JNumber (Float _) => GenNode 0%nat []
  | JBool b => GenNode (if b then 1 else 2)%nat []
  | JNumber (PosInt n) => GenNode 3%nat [GenLeaf (dec n)]
  | JNumber (NegInt n) => GenNode 4%nat [GenLeaf (dec (- n))]
  | JString s => GenNode 5%nat [GenLeaf s]
  | JArray l => GenNode 6%nat (map to_tree l)
  | JObject m => GenNode 7%nat (map (fun kv => GenNode 8%nat [GenLeaf (fst kv); to_tree (snd kv)]) m)
  end.

Fixpoint of_tree (t : gen_tree string) : Value :=
  match t with
  | GenNode 1%nat [] => JBool true
  | GenNode 2%nat [] => JBool false
  | GenNode 3%nat [GenLeaf s] => JNumber (PosInt (unwrap_or (parse_unsigned u64_max s) 0))
  | GenNode 4%nat [GenLeaf s] => JNumber (NegInt (- unwrap_or (parse_unsigned u64_max s) 0))
  | GenNode 5%nat [GenLeaf s] => JString s
  | GenNode 6%nat l => JArray (map of_tree l)
  | GenNode 7%nat l => JObject (map (fun c => match c with GenNode 8%nat [GenLeaf k; x] => (k, of_tree x) | _ => ("", JNull) end) l)
  | _ => JNull
  end.

Fixpoint bits (p : BinNums.positive) : string :=
  match p with xH => "" | xO p => String "0" (bits p) | xI p => String "1" (bits p) end.
Fixpoint unbits (s : string) : BinNums.positive :=
  match s with
  | EmptyString => xH
  | String a r => if (a =? "0")%char then xO (unbits r) else xI (unbits r)
  end.

Lemma unbits_bits p : unbits (bits p) = p.
Proof. induction p as [p IH|p IH|]; simpl; by rewrite ?IH. Qed.

Fixpoint value_round_trip (v : Value) : canonical v = true -> of_tree (to_tree v) = v.
Proof.
  destruct v as [|b|[n|n|f]|s|l|m]; intros Hc; try done.
  - by destruct b.
  - cbn in *. apply andb_true_iff in Hc as [H1 H2]. rewrite parse_unsigned_dec by lia. done.
  - cbn in *. apply andb_true_iff in Hc as [H1 H2]. rewrite parse_unsigned_dec by (unfold u64_max, i64_min in *; lia). cbn. f_equal. f_equal. lia.
  - cbn in *. f_equal. induction l as [|v l IH]; [done|]. cbn in *. apply andb_true_iff in Hc as [Hv Hl]. f_equal; [by apply value_round_trip|by apply IH].
  - cbn in *. f_equal. apply andb_true_iff in Hc as [_ Hc]. induction m as [|[k v] m IH]; [done|]. cbn in *.
    apply andb_true_iff in Hc as [Hv Hm]. f_equal; [|by apply IH]. f_equal. by apply value_round_trip.
Qed.

Definition write (v : Value) : string := bits (encode (to_tree v)).
Definition read (s : string) : option Value := option_map of_tree (decode (unbits s)).

Lemma read_write v : canonical v = true -> read (write v) = Some v.
Proof. intros Hc. unfold read, write. rewrite unbits_bits, decode_encode. simpl. by rewrite value_round_trip. Qed.

#[export] Instance codec : JsonCodec := {| json_print := write; json_parse := read |}.

(** ** Surroundings *)

(** A stand-in for SHA-256: the length of the text, as 64 digits. *)
Definition digest (content : string) : string := pad_zero 64 (dec (str_len content)).

(** No call fails, no service answers, every process ends at once and every start succeeds; [clock] is the
    clock and instants lie ten minutes apart. *)
Definition surroundings (clock : nat -> Z) : SupervisorEnv := {|
  env_var _ := None;
  current_dir := None;
  current_exe := None;
  own_pid := 1;
  sha256_hex := digest;
  json_pretty := write;
  event_line e := le_action e;
  fault_at _ := None;
  torn_at _ := 0;
  blind_at _ := false;
  text_at _ := "error";
  millis_at := clock;
  instant_at n := 600000 * Z.of_nat n;
  exchange_at _ _ _ _ := Refused;
  listener_at _ _ := None;
  terminate_at _ _ := Ok tt;
  wait_at _ _ := Exited (Some 1);
  spawn_at n := Ok (Z.of_nat n + 100);
|}.

(** One managed service. *)
Definition camera : ServiceRegistration :=
  mkServiceRegistration "camera" "Camera" "" "capture" "http://127.0.0.1:4317" None None "/health" true ["online"; "offline"] [] "service"
    (Some (mkProcessDefinition "/bin/camera" [] [] "" ∅ "" "" "normal")).

Definition root : Path := ["w"].
Definition state : Path := ["s"].
Definition logs : Path := ["s"; "logs"].
Definition pdir : Path := ["w"; "config"].
Definition pname : string := "runtime.json".

Definition supervisor (mode : string) : ServiceSupervisor :=
  mkServiceSupervisor root (root ++ ["config"; "service-registry.json"]) state logs [camera] {["camera" := default_runtime]}
    {["camera" := Normal]} [] 1 None mode false.

Definition project : Value := jobj [("activeRuntimeProfile", JString "config/runtime.json")].
Definition old_profile : Value := jobj [("acquisitionMode", JString "online")].
Definition new_profile : Value := jobj [("acquisitionMode", JString "offline")].

Definition published : Value :=
  jobj [("schema", JString COMMIT_SCHEMA); ("state", JString "publish"); ("acquisitionMode", JString "offline");
        ("previousAcquisitionMode", JString "online"); ("profileSha256", JString (digest (write new_profile)));
        ("stagedProfile", JString "config/runtime-mode-staging/m1.json"); ("updatedAt", JString "900")].

Definition workspace (marker : option string) : Tree :=
  let plain := list_to_map [
    (["w"], NDir); (["w"; "config"], NDir); (["w"; "config"; "runtime-mode-staging"], NDir); (["s"], NDir); (["s"; "logs"], NDir); (["bin"], NDir);
    (["bin"; "camera"], NFile "program"); (["w"; "config"; "project.json"], NFile (write project));
    (["w"; "config"; "runtime.json"], NFile (write old_profile));
    (["w"; "config"; "runtime-mode-staging"; "m1.json"], NFile (write new_profile))] in
  match marker with Some text => <[["w"; "config"; "runtime-mode-commit.json"] := NFile text]> plain | None => plain end.

Definition start (mode : string) (marker : option string) : World := mkWorld (supervisor mode) (workspace marker) [] 0.

(** ** A crash loop *)

Definition steady : SupervisorEnv := surroundings (fun _ => 1000).

Definition ticks (env : SupervisorEnv) (n : nat) (w : World) : World := Nat.iter n (fun w => snd (@reconcile env codec w)) w.

Lemma camera_unhealthy clock : @unhealthy (surroundings clock) codec camera.
Proof. intros w. reflexivity. Qed.

(** The camera service ends as soon as it is started: it is started five times and then left alone. *)
Lemma crash_loop_is_bounded_witness :
  let w := start "online" None in let w' := ticks steady 8 w in
  starts_of "camera" w' = 5 /\ starts_of "camera" w' - starts_of "camera" w <= MAX_CONSECUTIVE_START_FAILURES - used default_runtime.
Proof.
  cbv zeta. split; [vm_compute; reflexivity|].
  apply (@crash_loop_is_bounded steady codec "camera" camera default_runtime).
  - reflexivity.
  - reflexivity.
  - reflexivity.
  - split; [vm_compute; discriminate|reflexivity].
  - reflexivity.
  - apply camera_unhealthy.
  - unfold ticks. cbn [Nat.iter]. repeat (apply WatchedTick; [|vm_compute; reflexivity]). apply WatchedHere.
Defined.

(** ** A change under way holds the services *)

(** Ready, to be released at 1003; the clock goes on with every question and passes that moment during the tick. *)
Definition readied : Value :=
  jobj [("schema", JString COMMIT_SCHEMA); ("state", JString "ready"); ("acquisitionMode", JString "online");
        ("previousAcquisitionMode", JString "offline"); ("profileSha256", JString (digest (write old_profile)));
        ("releaseAfterMillis", jint 1003); ("updatedAt", JString "900")].
Definition running : SupervisorEnv := surroundings (fun n => 1000 + Z.of_nat n).

(** The operator stops and starts the camera service after the tick. *)
Lemma no_start_during_transition_witness :
  let w := start "offline" (Some (write readied)) in
  let w' := snd (@action running codec "camera" "start" "operator" (snd (@action running codec "camera" "stop" "operator" (snd (@reconcile running codec w))))) in
  acquisition_mode (sup w') = "online" /\ spawns w' = spawns w.
Proof.
  cbv zeta. split; [vm_compute; reflexivity|].
  apply (@no_start_during_transition running codec (write readied)).
  - reflexivity.
  - vm_compute. reflexivity.
  - intros marker E. assert (Hm : @json_parse codec (write readied) = Some readied) by (apply read_write; vm_compute; reflexivity).
    rewrite Hm in E. injection E as <-. vm_compute. reflexivity.
  - do 2 apply between_action. apply between_none.
Defined.

(** ** The change survives and is carried out *)

Definition target : string := "offline".
Definition hash : string := digest (write new_profile).
Definition before : World := start "online" (Some (write published)).

Lemma sample_layout : laid_out root state logs pdir pname (project_file root).
Proof.
  split.
  - intros d [->| ->]; by split_and!.
  - split; [by apply name_okb_ok|vm_compute; reflexivity].
  - by split_and!.
  - by split_and!.
Qed.

Lemma sample_scene : scene root state logs pdir before.
Proof.
  split.
  - done.
  - apply tree_okb_ok. vm_compute. reflexivity.
  - split_and!; vm_compute; reflexivity.
  - intros d name link _. apply linkless_ok. vm_compute. reflexivity.
  - left. vm_compute. reflexivity.
  - intros r process [<-|[]] [= <-] text [->| ->]; [exists "camera.out.log"|exists "camera.err.log"]; (split; [by apply name_okb_ok|vm_compute; reflexivity]).
Qed.

Lemma parsed v : canonical v = true -> @json_parse codec (write v) = Some v.
Proof. apply read_write. Qed.

Lemma sample_coherent (env : SupervisorEnv) : @sha256_hex env = digest ->
  @coherent env codec root pdir pname (project_file root) target hash (write old_profile) (disk before).
Proof.
  intros Hsha. split.
  - exists (write project), project. split_and!; [vm_compute; reflexivity|vm_compute; reflexivity|by apply parsed|].
    change (text_field "activeSiteConfig" project) with (@None string). cbv iota. split; [done|]. exists "config/runtime.json". split; [reflexivity|].
    by apply RefersWorkspace.
  - exists (write old_profile), (write published), published. split_and!.
    + vm_compute. reflexivity.
    + rewrite parsed by reflexivity. by eexists.
    + vm_compute. reflexivity.
    + by apply parsed.
    + split; vm_compute; reflexivity.
    + apply (Published _ _ _ _ _ _ _ "online" "config/runtime-mode-staging/m1.json" (write new_profile)); unfold hash_is; rewrite ?Hsha; try (vm_compute; reflexivity).
      * exists new_profile. split; [by apply parsed|vm_compute; reflexivity].
      * right. split; [done|vm_compute; reflexivity].
Qed.

(** Ten seconds pass between the first and the second tick, which put 46 questions. *)
Definition step_clock (n : nat) : Z := if (n <? 46)%nat then 1000 else 11000.

Lemma step_clock_u64 n : 0 <= step_clock n <= u64_max.
Proof. unfold step_clock, u64_max. destruct (n <? 46)%nat; lia. Qed.

(** The questions of [faults] to the file system fail. *)
Definition with_faults (faults : nat -> bool) : SupervisorEnv :=
  let env := surroundings step_clock in {|
  env_var := @env_var env; current_dir := None; current_exe := None; own_pid := 1; sha256_hex := digest; json_pretty := write;
  event_line := @event_line env; fault_at n := if faults n then Some "EIO" else None; torn_at _ := 0; blind_at _ := false;
  text_at _ := "error"; millis_at := @millis_at env; instant_at := @instant_at env; exchange_at := @exchange_at env;
  listener_at := @listener_at env; terminate_at := @terminate_at env; wait_at := @wait_at env; spawn_at := @spawn_at env |}.

(** One call fails: the change goes on in the next tick. *)
Definition one_fault : SupervisorEnv := with_faults (fun n => (n =? 20)%nat).

Lemma transition_survives_witness :
  let w' := snd (@reconcile one_fault codec before) in
  is_some (load_error (sup w')) = true /\
  @coherent one_fault codec root pdir pname (project_file root) target hash (write old_profile) (disk w') /\
  @coherent one_fault codec root pdir pname (project_file root) target hash (write old_profile) (disk (snd (@reconcile one_fault codec w'))).
Proof.
  cbv zeta. split; [vm_compute; reflexivity|].
  pose proof (fun w' => @transition_survives one_fault codec step_clock_u64 (fun _ => eq_refl) parsed root state logs pdir pname (project_file root)
    sample_layout target hash (write old_profile) before w' sample_scene (sample_coherent one_fault eq_refl)) as Hsurvives.
  split; apply Hsurvives; repeat apply AttendedTick; apply AttendedHere.
Defined.

Lemma published_mode_is_applied_witness :
  let env := surroundings step_clock in let w1 := snd (@reconcile env codec before) in let w2 := snd (@reconcile env codec w1) in
  acquisition_mode (sup w1) = "online" /\ acquisition_mode (sup w2) = "offline" /\ mode_transition_hold (sup w2) = false.
Proof.
  cbv zeta.
  destruct (@published_mode_is_applied (surroundings step_clock) codec step_clock_u64 (fun _ => eq_refl) parsed root state logs pdir pname
    (project_file root) sample_layout target hash (write old_profile) "online" (write published) published before) as (H1 & H2 & H3 & _).
  - exact sample_scene.
  - exact (sample_coherent (surroundings step_clock) eq_refl).
  - vm_compute. reflexivity.
  - by apply parsed.
  - reflexivity.
  - reflexivity.
  - discriminate.
  - intros n. reflexivity.
  - split; intros n; unfold temporary_name; cbn; unfold step_clock; destruct (n <? 46)%nat; vm_compute; reflexivity.
  - intros n pid. reflexivity.
  - assert (E : asked (snd (@reconcile (surroundings step_clock) codec before)) = 46%nat) by (vm_compute; reflexivity).
    intros n n'. rewrite E. intros [Hn Hn']. cbn. unfold step_clock. rewrite (proj2 (Nat.ltb_lt n 46)) by lia.
    rewrite (proj2 (Nat.ltb_ge n' 46)) by lia. unfold RUNTIME_MODE_RELEASE_DELAY_MILLIS. lia.
  - split_and!; [exact H1|exact H2|exact H3].
Defined.

(** ** What goes wrong *)

Definition marker_state (w : World) : option string :=
  match disk w !! ["w"; "config"; "runtime-mode-commit.json"] with
  | Some (NFile text) => match read text with Some marker => get_str "state" marker | None => None end
  | _ => None
  end.

(** The commit of a released change fails once: it is never tried again, since the mode is at work already. *)
Example failed_promotion_is_not_retried :
  let env := with_faults (fun n => (n =? 81)%nat) in
  map (fun n => let w := ticks env n before in (acquisition_mode (sup w), marker_state w, is_some (load_error (sup w)))) [2%nat; 3%nat; 9%nat] =
  repeat ("offline", Some "ready", true) 3.
Proof. vm_compute. reflexivity. Qed.

(** A failed read of project.json takes an offline workspace online, without an error. *)
Example unreadable_project_goes_online :
  let env := with_faults (fun n => (n =? 2)%nat) in
  let w := mkWorld (supervisor "offline") (<[["w"; "config"; "runtime.json"] := NFile (write new_profile)]> (workspace None)) [] 0 in
  let w' := ticks env 1 w in
  acquisition_mode (sup w') = "online" /\ load_error (sup w') = None /\ acquisition_mode (sup (ticks steady 1 w)) = "offline".
Proof. vm_compute. by split_and!. Qed.

End SupervisorRun.
